(* ===== verification/_CoqProject ===== *)
-Q . S2P
Prelude.v
GoErrors.v
GoBytes.v
EthTypes.v
Geth.v
Solabi.v
Deposits.v
SystemConfigUpdate.v
L1Info.v
Frame.v
Channel.v
Batch.v
ChannelOut.v
Compressor.v
ChannelBuilder.v
ChannelManager.v
ChannelBuilderSpec.v
BatcherChannelSpec.v
ChannelManagerSpec.v
BatcherExamples.v
Txmgr.v
TxmgrSpec.v
TxmgrExamples.v
ChannelBank.v
L1Stages.v
Payloads.v
BatchSubmitter.v
BatchSubmitterSpec.v
BatchSubmitterExamples.v
Batches.v
BatchQueue.v
Attributes.v
Heap.v
PayloadsQueue.v
EngineUpdate.v
SyncStart.v
EngineQueue.v
EngineQueueSpec.v
EngineQueueSafety.v
Pipeline.v
PipelineSpec.v
Ssz.v
Commitments.v
Gossip.v
GossipSpec.v
GossipExamples.v
Sequencing.v
Driver.v
DriverSpec.v
DriverPipeline.v
ConfigPersistence.v
DriverExamples.v
Bits.v
Evm.v
MipsMemory.v
MipsPage.v
MipsMemorySpec.v
MipsMemoryTheorems.v
Mips.v
MipsWords.v
MipsSpec.v
MipsContract.v
MipsReplay.v
MipsRefinement.v
MipsOnchain.v
MipsExamples.v
Positions.v
DisputeGame.v
DisputeGameSpec.v
DisputeHonest.v
DisputeTheorems.v
Challenger.v
ChallengerSpec.v
ChallengerOnchain.v
ChallengerAct.v
ChallengerTheorems.v
ChallengerExamples.v
Scheduler.v
SchedulerSpec.v
SchedulerExamples.v
