(* ===== verification/Prelude.v ===== *)
(** * The rollup node of an OP Stack fork with sequencer commitments, verified

    The repository is a fork of the Optimism monorepo whose node, [src/op-node], screens
    every L2 block against commitments of its sequencer.  This library models the core of
    that node: the derivation of the L2 chain from L1 data, the engine queue that applies
    the derived and the gossiped blocks, the sequencer that builds blocks, the commitment
    gates, the gossip of payloads, the batcher that writes the data derivation reads,
    the manager that sends its transactions, Cannon, the machine of the fault proofs, with
    the contracts that replay its steps, and the dispute game with the challenger that
    plays it.
    This file is the root: after this description it holds the machine
    integers, the tactics and the list and option lemmas the other files share.

    ** The parts and how they interact

    A node follows L1.  Each L1 block passes through a tower of stages, each of which
    pulls from the stage below it ([src/op-node/rollup/derive]):
<<
      L1Traversal -> L1Retrieval -> FrameQueue -> ChannelBank -> ChannelInReader
        -> BatchQueue -> AttributesQueue -> EngineQueue -> execution engine
>>
    The traversal walks the L1 blocks and keeps the system configuration; the retrieval
    takes the transactions of the batcher; their data is split into frames, frames are
    collected in channels, channels are decoded into batches; the batch queue orders and
    validates the batches; the attributes queue turns a batch into the attributes of an L2
    block, with the deposits of its L1 origin; the engine queue compares the attributes
    with the blocks it has, or has the engine build the block.  The event
    loop of the driver ([src/op-node/rollup/driver]) owns all of this: it steps the
    pipeline, with a backoff after errors, resets it after reorgs, lets the sequencer build
    blocks through the same engine queue when its timer fires, and takes the signals and
    the requests of other goroutines from channels.  Whether the sequencer runs is kept in
    a file across restarts ([src/op-node/node/config_persistence.go]).  Payloads of the gossip
    network are decoded and validated in [src/op-node/p2p/gossip.go] and reach the driver
    through the gate of [src/op-node/node/node.go] that asks the screening contract.

    The batcher ([src/op-batcher]) is the other side of derivation: its channel manager
    puts blocks into channels, whose builder compresses them and cuts frames, which are
    sent as L1 transactions and resent until they are confirmed.  Its driver loads the
    blocks from the L2 node and sends the transactions, several at a time, through the
    transaction manager ([src/op-service/txmgr]), which gives each a nonce, publishes it,
    raises its fees while it is not mined, and returns the receipt once it is confirmed;
    the proposer and the challenger send through the same manager.

    Cannon ([src/cannon/mipsevm]) executes a program for a MIPS processor on a memory kept
    as a Merkle tree.  A step can be proved on chain: the witness of the step is the call
    data of [MIPS.sol], which executes the same instruction on the packed state and the
    Merkle proofs, and asks [PreimageOracle.sol] for what the program read.

    Which step is proved on chain is found by the dispute game of
    [FaultDisputeGame.sol]: claims about states of the trace are attacked and defended, down
    a binary tree of positions, until a claim about one step is left.  The challenger
    ([src/op-challenger]) watches the games of a factory, schedules them to workers, loads
    the claims of a game into a tree, answers the claims it disagrees with by the values
    of its own trace, and steps on wrong leaves.

    ** Files

    - [GoErrors]: [derive/error.go]; the results, the state and error monad [M S A], and a
      small program logic for it ([preserves], [fails_with], [wp], the tactic [go_code]).
    - [GoBytes], [Heap]: what the node uses of Go's [bytes], [io], [encoding/binary] and
      [container/heap].
    - [EthTypes], [Geth]: [op-service/eth/id.go], [types.go], [block_info.go], [sync_status.go],
      [rollup/types.go]; structs of go-ethereum and the interfaces [Keccak], [TxCodec].
    - [Solabi], [Deposits], [SystemConfigUpdate], [L1Info]: [op-service/solabi/util.go],
      [derive/deposit_source.go], [deposit_log.go], [deposits.go], [system_config.go],
      [l1_block_info.go].
    - [Frame], [Channel], [Batch], [ChannelBank]: [derive/frame.go], [params.go],
      [frame_queue.go], [channel.go], [batch.go], [channel_bank.go],
      [channel_in_reader.go].
    - [L1Stages]: [derive/l1_traversal.go], [l1_retrieval.go], [calldata_source.go].
    - [Batches], [BatchQueue]: [derive/batches.go], [batch_queue.go].
    - [Payloads], [Attributes]: [derive/payload_util.go], [l2block_util.go],
      [engine_consolidate.go], [attributes.go], [attributes_queue.go].
    - [PayloadsQueue], [EngineUpdate], [SyncStart], [EngineQueue]:
      [derive/payloads_queue.go], [engine_update.go], [rollup/sync/start.go],
      [derive/engine_queue.go]; theorems on the engine queue in [EngineQueueSpec] and
      [EngineQueueSafety].
    - [Pipeline], [PipelineSpec]: [derive/pipeline.go] and the classification of errors in
      the event loop of [driver/state.go].
    - [Commitments]: [node/pepc.go], the gates of [node/node.go], [node/runtime_config.go].
    - [Sequencing]: [driver/conf_depth.go], [origin_selector.go], [sequencer.go].
    - [Driver]: [driver/state.go], [driver.go], [l1_state.go], [config.go] and
      [op-service/retry/strategies.go], over the interface [Derivation]; the cases of the
      [select] are [on_tick] and [on_request], code of [M], and the loop with its callers
      and timers is the relation [driver_step].  Theorems in [DriverSpec], for
      any pipeline and for one that keeps the promises of [SteadyDerivation];
      [DriverPipeline] makes the pipeline an instance of both and has [NewDriver].
    - [ConfigPersistence]: [node/config_persistence.go] and [LoadPersisted] of
      [node/config.go]; runs of the driver in [DriverExamples].
    - [ChannelOut], [Compressor], [ChannelBuilder], [ChannelManager]:
      [derive/channel_out.go], [op-batcher/compressor], [batcher/channel_builder.go],
      [channel.go], [channel_manager.go]; theorems in [ChannelBuilderSpec],
      [BatcherChannelSpec] and [ChannelManagerSpec], concrete runs in [BatcherExamples].
    - [Txmgr]: [op-service/txmgr/txmgr.go], [send_state.go], the checks of [cli.go],
      [op-service/retry/operation.go]; [retry], [craftTx], [increaseGasPrice] and the like
      are code of [M], the goroutines of one [sendTx] the relation [send_step], and calls
      of [Send] that run side by side the relation [Send_step]; theorems in [TxmgrSpec],
      runs in [TxmgrExamples].
    - [BatchSubmitter]: [op-batcher/batcher/driver.go] and [op-service/txmgr/queue.go];
      the loop and its goroutines are a step relation; theorems in [BatchSubmitterSpec],
      runs in [BatchSubmitterExamples].
    - [Ssz], [Gossip]: [op-service/eth/ssz.go], [p2p/gossip.go], [p2p/signer.go]; theorems
      on gossip in [GossipSpec], concrete runs in [GossipExamples].
    - [Bits]: bits of words and of lists of bytes.
    - [MipsMemory]: [mipsevm/memory.go], [page.go]; the tree as a function of its leaves
      and the caches in [MipsPage], the invariant and the specification of each operation
      in [MipsMemorySpec], the theorems in [MipsMemoryTheorems].
    - [Mips]: [mipsevm/mips.go], [state.go], [instrumented.go], [witness.go]; instructions
      on words in [MipsWords], the handlers and the theorems in [MipsSpec].
    - [MipsContract]: [contracts-bedrock/src/cannon]; [MipsReplay] relates the words,
      proofs and call data of the two machines, [MipsRefinement] simulates the handlers
      one by one, [MipsOnchain] has the theorems, [MipsExamples] concrete machines.
    - [Evm]: words of 256 bits, reverts and call data, for the contracts.
    - [Positions]: [op-challenger/game/fault/types/position.go] and
      [contracts-bedrock/src/dispute/lib/LibPosition.sol], which agree.
    - [DisputeGame]: [dispute/FaultDisputeGame.sol], [LibClock.sol], [LibHashing.sol]; the
      invariant of the games that can be reached in [DisputeGameSpec], the claims above a
      leaf in [DisputeHonest], theorems in [DisputeTheorems].
    - [Challenger]: [game/fault]: [types/types.go], [types/game.go], [solver/solver.go],
      [agent.go], [loader.go], [responder/responder.go], [player.go],
      [trace/alphabet/provider.go]; the tree in [ChallengerSpec], the challenger against the
      contract in [ChallengerOnchain] (the interfaces implemented by the contract, the game
      that is loaded), [ChallengerAct] (one move, one step, the loops),
      theorems in [ChallengerTheorems], concrete games in [ChallengerExamples].
    - [Scheduler]: [op-challenger/game]: [factory.go], [monitor.go], [disk.go],
      [scheduler/coordinator.go], [scheduler.go], [worker.go]; the invariant and the
      measure, and the theorems, in [SchedulerSpec], runs in
      [SchedulerExamples].

    A stage is a Module (or, where its names are unique, top-level definitions) with a
    record [t] of its state, one definition per method, under the method's Go name where
    Rocq allows it, and an instance of the class the stage above it asks for
    ([NextDataProvider], [NextFrameProvider], [NextBatchProvider],
    [NextSafeBatchProvider], [NextAttributesProvider]).  The record of a stage owns the
    stage below it in its field [prev].

    ** How code is modelled

    Code that changes state or can fail has the type [M S A]: from a state to a result
    ([Ok], [Err] or [Panic]) and the state reached, also when it fails, because a Go
    method keeps the mutations it made before an error.  [attempt] is a call whose error
    the caller inspects.  [errors.Is], [errors.As] and comparisons with [io.EOF] are
    functions on error values; message texts are reduced to tags.  The L1 node, the
    execution engine and the screening contract are environments: a request is code over
    an environment state, so that the same request may be answered differently later.
    Every stage has its own copy of the environment it calls; an assumption on the
    environment is stated once as a class of laws ([LawfulL2Chain], [LawfulBuilder],
    [LawfulTxCodec], ...), which the examples instantiate.  Unsigned integers are [Z] with
    the wrap-around written out ([x +u y]); byte arrays of fixed length are the integers
    they spell; slices of bytes are lists of bytes; Go maps are [gmap]s.

    Loops that are not structural take fuel: [parse_frames_loop] the number of unread
    bytes, as a frame is never empty; [find_ancestor] one more than the claims, as parents
    come before their children; [claims_loop] the claims of the tree; [msb_loop] the bits
    of a word; [alphabet_step_data] two calls, as the second is within the trace; the heap's sifting the length of the heap; [evict]
    the number of queued payloads; [FindL2Heads] and [EngineQueue.Reset] any fuel above
    the number of the unsafe head; [merkleize] one more than the 28 bits of a generalized
    index, [leading_ones] and [count_loop] one more than the bits of a word, [set_range]
    and [read_all] one more than the bytes moved, [process_hints] one more than the bytes
    buffered; the batcher's driver passes on the fuel of the channel manager, and the steps
    that end without fuel are not steps of the relations of the two drivers.  A run out of fuel is a value of its own ([None]), and
    that the fuel is enough is proved ([FindL2Heads_terminates], [Reset_terminates],
    [Push_total], [ParseFrames_iff]), except for the loop that really diverges
    ([FindL2Heads_shortcut_diverges]).

    ** What is proved

    - Commitments: payloads from the network reach the driver, and payloads are published,
      only after the contract accepted them; what the screened encoding determines; the
      target the contract is really given ([OnUnsafeL2Payload_gated],
      [PublishL2Payload_gated], [encodePayload_same_iff], [target_is_zero]).
    - Formats: frames, deposit logs and the L1 information round-trip; the parsers accept
      exactly the encodings ([ParseFrames_iff], [deposit_log_roundtrip],
      [L1BlockInfo_roundtrip], [ProcessSystemConfigUpdate_spec], [DeriveDeposits_iff]).
    - Channels: a channel is ready exactly when it is complete, yields the same data in
      whatever order its frames arrive, and the bank's invariant is kept
      ([reassemble_any_order], [IsReady_iff_contiguous], [NextData_preserves_bank_inv]).
    - Batches: acceptance is exactly the derivation rule; the queue only emits valid or
      rightly empty batches ([CheckBatch_accept_iff], [deriveNextBatch_sound]).
    - Attributes: the builder computes exactly the specified inputs, and what a block was
      built from can be read back from it ([PreparePayloadAttributes_iff],
      [built_block_recovers]).
    - Engine queue: heads never go back while stepping, L2 blocks are finalized only when
      the L1 block they came from is final, buffers stay bounded, resets are all or
      nothing and end ([Step_never_goes_back], [tryFinalizeL2_spec], [reachable_inv],
      [Reset_all_or_nothing], [Reset_terminates]).
    - Pipeline: a reset makes every stage start from the same origin and configuration,
      whenever it is interrupted; the driver knows every error of a step
      ([reset_makes_all_fresh], [driver_recognizes_errors]).
    - Event loop: the sequencer acts only when it may, and while it may, its next action is
      planned; neither the loop nor a caller waits for nothing; derivation goes on after
      errors; over the pipeline, each reset is complete and payloads are always taken; a
      restart resumes the sequencer ([sequencer_acts_when_allowed],
      [sequencer_never_stranded], [callers_and_loop_never_block], [derivation_goes_on],
      [node_reset_is_complete], [payloads_are_taken], [restart_resumes_sequencer]).
    - Sequencer: the blocks it builds pass the checks of derivation; one action returns
      only critical errors ([sequenced_block_accepted], [RunNextSequencerAction_outcomes]).
    - Gossip: the validator accepts exactly the payloads that are well formed, recent,
      not seen too often and signed by the sequencer; only what it accepts reaches the
      driver; what a node publishes is accepted by the others; decoding accepts exactly
      what it should and one ambiguity ([validator_accepts_iff], [gossip_reaches_driver],
      [published_payload_accepted], [UnmarshalSSZ_iff], [MarshalSSZ_equals_reference]).
    - Batcher: the frames of a channel are read back by derivation as the blocks that were
      put in; the channel manager neither loses blocks nor frames when transactions fail,
      are confirmed late or channels time out ([submitted_channel_readable],
      [no_block_is_lost], [frames_are_put_out], [no_frame_is_lost]).
    - Transaction manager: a bump raises both fees by what the pools of transactions ask
      for, and bumping ends at the limit of the market; calls that run side by side use
      different nonces as long as none fails; a receipt that is returned is that of an
      accepted version, confirmed as deep as configured; giving up has one of the listed
      causes ([bump_keeps_promises], [bumping_reaches_limit], [nonces_differ],
      [Send_returns_confirmed], [abort_is_justified], [handed_over_receipt_returned]).
    - Batcher's driver: the blocks between the safe head and the last loaded block are
      held, in order; every transaction that is awaited is in flight, unless its gas
      could not be computed; the loop never waits
      for a goroutine that waits for the loop; a frame reported as confirmed is in a
      transaction on L1 ([loaded_blocks_are_held],
      [awaited_is_in_flight], [publishing_never_blocks], [confirmed_frames_are_on_L1]).
    - Cannon's memory: the cached root and proofs are those of the reference tree over the
      bytes, under every sequence of reads, writes and hashings; a proof lets the holder of
      the root compute the root after a write ([merkle_equals_reference],
      [merkle_proof_verifies], [memory_words]).
    - Cannon's machine: a step keeps the state well formed, partial loads and stores move
      the bytes they should, counting ends, exits are final ([step_well_formed],
      [partial_words], [count_leading_ones], [exited_is_final]).
    - Fault proofs: the contract, called with the witness of a step, computes the hash of
      the state the machine reached, and the calls that load the preimage store what the
      step read ([contract_replays_step], [step_proved_onchain]).
    - Positions: the challenger and the contract compute the same positions, depths and
      trace indices ([positions_agree]).
    - Dispute game: positions, clocks and trace indices stay in range; on a path of honest
      answers a step against a leaf of the other side succeeds and no step against an own
      leaf does; a side that was answered everywhere loses ([game_numbers_bounded],
      [honest_step_succeeds], [honest_leaf_safe], [answered_game_is_won]).
    - Challenger: it sees every claim of a game that was initialized once; while the game
      can be won, it counters every claim of the other side in one run, and then resolves
      the game as it expects
      ([agent_sees_every_claim], [honest_agent_wins]).
    - Scheduler: whatever the order of the steps of its threads, a game has one job, the
      files of games in flight stay, and the threads come to rest with all work done; the
      recent games are played ([one_job_per_game], [in_flight_files_kept],
      [scheduler_comes_to_rest], [recent_games_are_played]).
    - Defects, each as a theorem about the code as it is written:
      [undecided_forgets_later], [pruning_forgets_kept_frames], [evicted_push_refused],
      [FindL2Heads_shortcut_diverges], [FindL2Heads_zero_unsafe], [target_is_zero],
      [empty_frames_hang], [timed_out_blocks_queued_twice], [range_keeps_stale_root],
      [arithmetic_shift], [initialize_again_blinds_agents],
      [duplicate_claim_defeats_agent], [odd_depth_defender_loses], [close_can_hang],
      [fees_are_never_raised], [failed_attempt_skips_nonce], [small_tip_stays],
      [backoff_overflows], [close_hangs_after_critical_error],
      [forced_reset_is_only_scheduled].

    ** What is not modelled

    Logging, metrics, tracing, locks, contexts and their time-outs; keccak, RLP, zlib,
    signatures and the ABI packer (interfaces with laws); JSON and text encodings; the
    set-up of the peer-to-peer network and its request-response protocol; the RPC clients; go-ethereum;
    gas, logs and getters of the contracts; the cannon trace provider of the challenger,
    which runs the cannon executable.  The periods of timers are not modelled: a tick may
    come at any moment.  Of the batcher and the transaction manager, the reading of their
    configuration, the flag that guards against a second start and the making of clients
    are left out.  The proposer, op-program and the indexer are
    separate programs.  A call of a player, of the disk or of a node is one step of the
    step relations and monads, although other threads may run meanwhile. *)
From stdpp Require Export prelude gmap strings list fin_maps numbers sorting.
From Stdlib Require Export ZArith Lia.

#[local] Open Scope Z_scope.

(** ** Machine integers

    Go's [uint64], [uint32] and [uint16] are modelled by [Z]; every operation
    that can leave the range wraps explicitly. *)
Definition two64 : Z := 18446744073709551616.
Definition u64 (z : Z) : Z := z mod two64.
Definition u32 (z : Z) : Z := z mod 4294967296.
Definition u16 (z : Z) : Z := z mod 65536.

(** The conversion of an unsigned to a signed 64-bit integer. *)
Definition i64 (z : Z) : Z := (z + 9223372036854775808) mod two64 - 9223372036854775808.

Declare Scope go_scope.
Delimit Scope go_scope with go.
Notation "x +u y" := (u64 (x + y)) (at level 50, left associativity) : go_scope.
Notation "x -u y" := (u64 (x - y)) (at level 50, left associativity) : go_scope.
Notation "x *u y" := (u64 (x * y)) (at level 40, left associativity) : go_scope.
#[global] Open Scope go_scope.

(** The values a [uint64] holds. *)
Definition is_u64 (z : Z) : Prop := 0 <= z < two64.

Lemma u64_small z : 0 <= z < two64 -> u64 z = z.
Proof. intros. unfold u64. by rewrite Z.mod_small. Qed.

Lemma u32_small z : 0 <= z < 4294967296 -> u32 z = z.
Proof. intros. unfold u32. by rewrite Z.mod_small. Qed.

Lemma u64_range z : 0 <= u64 z < two64.
Proof. apply Z.mod_pos_bound. reflexivity. Qed.

Lemma u64_idemp z : u64 (u64 z) = u64 z.
Proof. apply u64_small, u64_range. Qed.

Lemma u64_add_l a b : u64 (u64 a + b) = u64 (a + b).
Proof. unfold u64. by rewrite Zplus_mod_idemp_l. Qed.

Lemma u64_add_r a b : u64 (a + u64 b) = u64 (a + b).
Proof. unfold u64. by rewrite Zplus_mod_idemp_r. Qed.

Lemma u64_sub_l a b : u64 (u64 a - b) = u64 (a - b).
Proof. unfold u64. by rewrite Zminus_mod_idemp_l. Qed.

Lemma u64_sub_r a b : u64 (a - u64 b) = u64 (a - b).
Proof. unfold u64. by rewrite Zminus_mod_idemp_r. Qed.

Lemma u64_succ_ne z : z <> u64 (z + 1).
Proof.
  intros Hz. pose proof (u64_range (z + 1)) as Hr. rewrite <- Hz in Hr.
  destruct (decide (z + 1 = two64)) as [E|E].
  - rewrite E in Hz. change (u64 two64) with 0 in Hz. unfold two64 in *. lia.
  - rewrite u64_small in Hz by lia. lia.
Qed.

Lemma i64_small z : - 2 ^ 63 <= z < 2 ^ 63 -> i64 z = z.
Proof. intros. unfold i64. rewrite Z.mod_small; unfold two64; lia. Qed.

(** ** Automation shared by the components *)
Create HintDb opstack discriminated.
Create Rewrite HintDb opstack.

(** Turns boolean comparisons of [Z] found in hypotheses into propositions. *)
Ltac zify_bools :=
  repeat match goal with
  | H : (_ <? _) = true |- _ => apply Z.ltb_lt in H
  | H : (_ <? _) = false |- _ => apply Z.ltb_ge in H
  | H : (_ <=? _) = true |- _ => apply Z.leb_le in H
  | H : (_ <=? _) = false |- _ => apply Z.leb_gt in H
  | H : (_ =? _) = true |- _ => apply Z.eqb_eq in H
  | H : (_ =? _) = false |- _ => apply Z.eqb_neq in H
  | H : (_ && _)%bool = true |- _ => apply andb_true_iff in H as [? ?]
  | H : (_ || _)%bool = false |- _ => apply orb_false_iff in H as [? ?]
  | H : negb _ = true |- _ => apply negb_true_iff in H
  | H : negb _ = false |- _ => apply negb_false_iff in H
  | H : bool_decide _ = true |- _ => apply bool_decide_eq_true in H
  | H : bool_decide _ = false |- _ => apply bool_decide_eq_false in H
  end.

(** Splits the innermost conditional of the goal, or of [H], and keeps the
    outcome of its test as propositions. *)
Ltac case_if :=
  match goal with
  | |- context [if ?b then _ else _] =>
      lazymatch b with context [if _ then _ else _] => fail | _ => idtac end;
      let E := fresh "E" in destruct b eqn:E
  end; zify_bools.
Ltac case_if_in H :=
  match type of H with
  | context [if ?b then _ else _] =>
      lazymatch b with context [if _ then _ else _] => fail | _ => idtac end;
      let E := fresh "E" in destruct b eqn:E
  end; zify_bools.

(** Splits the innermost [match] of the goal, or of [H]. *)
Ltac case_goal :=
  match goal with
  | |- context [match ?x with _ => _ end] =>
      lazymatch x with context [match _ with _ => _ end] => fail | _ => idtac end;
      let E := fresh "E" in destruct x eqn:E
  end; zify_bools.
Ltac case_in H :=
  match type of H with
  | context [match ?x with _ => _ end] =>
      lazymatch x with context [match _ with _ => _ end] => fail | _ => idtac end;
      let E := fresh "E" in destruct x eqn:E
  end; zify_bools.

(** Proves a decidable closed proposition by evaluating its decision procedure. *)
Ltac by_decide := apply (bool_decide_unpack _); vm_compute; exact I.

(** ** Generic facts on lists and options *)

Lemma take_app_exact {A} (l k : list A) n : n = length l -> take n (l ++ k) = l.
Proof. intros ->. apply take_app_length. Qed.

Lemma drop_app_exact {A} (l k : list A) n : n = length l -> drop n (l ++ k) = k.
Proof. intros ->. apply drop_app_length. Qed.

Lemma foldl_filter {A B} (P : A -> Prop) `{forall x, Decision (P x)} (f : B -> A -> B) l b :
  foldl (fun acc x => if decide (P x) then f acc x else acc) b l = foldl f b (filter P l).
Proof.
  revert b. induction l as [|x l IH]; intros b; [done|]. cbn [foldl]. rewrite IH, filter_cons.
  by destruct (decide (P x)).
Qed.

Lemma foldl_ext {A B} (f g : B -> A -> B) l b :
  (forall b x, f b x = g b x) -> foldl f b l = foldl g b l.
Proof. intros Hfg. revert b. induction l as [|x l IH]; intros b; simpl; [done|]. by rewrite Hfg, IH. Qed.

Lemma foldl_concat {A B} (f : B -> A -> B) ls b : foldl (foldl f) b ls = foldl f b (concat ls).
Proof. revert b. induction ls as [|l ls IH]; intros b; simpl; [done|]. by rewrite IH, foldl_app. Qed.

Lemma foldl_fmap {A B C} (f : B -> A -> B) (g : C -> A) l b :
  foldl f b (g <$> l) = foldl (fun acc x => f acc (g x)) b l.
Proof. revert b. induction l as [|x l IH]; intros b; simpl; [done|]. apply IH. Qed.

Lemma Forall2_compose {A B C} (R : A -> B -> Prop) (S : B -> C -> Prop) l k :
  Forall2 (fun x z => exists y, R x y /\ S y z) l k <->
  exists m, Forall2 R l m /\ Forall2 S m k.
Proof.
  split.
  - induction 1 as [|x z l k (y & Hx & Hz) _ (m & Hm & Hk)]; [by exists []|].
    exists (y :: m). split; by constructor.
  - intros (m & Hl & Hk). revert k Hk. induction Hl as [|x y l m Hx Hl IH]; intros k Hk;
      inversion_clear Hk; constructor; eauto.
Qed.

(** A property that every step keeps holds along a run. *)
Lemma run_keeps {A} (R : relation A) (P : A -> Prop) :
  (forall x y, R x y -> P x -> P y) -> forall x y, rtc R x y -> P x -> P y.
Proof. intros Hs x y Hr. induction Hr; eauto. Qed.

(** The sum of a list of integers. *)
Definition sumZ (l : list Z) : Z := foldr Z.add 0 l.

Lemma sumZ_app l k : sumZ (l ++ k) = sumZ l + sumZ k.
Proof. induction l as [|a l IH]; simpl; [done|]. rewrite IH. lia. Qed.

Lemma sumZ_perm l k : l ≡ₚ k -> sumZ l = sumZ k.
Proof. induction 1; simpl; lia. Qed.

Lemma sumZ_nonneg l : Forall (fun z => 0 <= z) l -> 0 <= sumZ l.
Proof. induction 1; simpl; lia. Qed.

#[export] Instance sumZ_Proper : Proper ((≡ₚ) ==> (=)) sumZ.
Proof. intros l k H. by apply sumZ_perm. Qed.

(** The sum of a function over a finite map. *)
Definition map_sum {A} (f : A -> Z) (m : gmap Z A) : Z := sumZ (f <$> (map_to_list m).*2).

Lemma map_sum_empty {A} (f : A -> Z) : map_sum f ∅ = 0.
Proof. unfold map_sum. by rewrite map_to_list_empty. Qed.

Lemma map_sum_insert {A} (f : A -> Z) m k x :
  m !! k = None -> map_sum f (<[k := x]> m) = f x + map_sum f m.
Proof. intros H. unfold map_sum. by rewrite map_to_list_insert. Qed.

Lemma map_sum_delete {A} (f : A -> Z) m k x :
  m !! k = Some x -> map_sum f m = f x + map_sum f (delete k m).
Proof.
  intros H. rewrite <- (map_sum_insert f (delete k m) k x) by apply lookup_delete_eq.
  by rewrite insert_delete_id.
Qed.

Lemma map_sum_nonneg {A} (f : A -> Z) m : (forall x, 0 <= f x) -> 0 <= map_sum f m.
Proof. intros H. apply sumZ_nonneg, Forall_fmap, Forall_true. intros x. apply H. Qed.

Lemma map_sum_nonneg_in {A} (f : A -> Z) (m : gmap Z A) :
  (forall k x, m !! k = Some x -> 0 <= f x) -> 0 <= map_sum f m.
Proof.
  intros Hf. apply sumZ_nonneg, Forall_fmap, Forall_fmap, Forall_forall.
  intros [k x] Hin%elem_of_map_to_list. simpl. by eapply Hf.
Qed.

Lemma map_sum_lookup_le {A} (f : A -> Z) m k x :
  (forall x, 0 <= f x) -> m !! k = Some x -> f x <= map_sum f m.
Proof.
  intros Hf Hk. rewrite (map_sum_delete f m k x Hk).
  pose proof (map_sum_nonneg f (delete k m) Hf). lia.
Qed.
