(* ===== verification/GoErrors.v ===== *)
(** * Errors of the rollup node and the error/state monads of the model

    [op-node/rollup/derive/error.go] classifies errors by a severity level and
    the rest of the node branches on [errors.Is] and [errors.As].  A Go error
    value is modelled by the structure those two functions can observe: which
    sentinel it is, which error it wraps, which level or input-error code it
    carries.  The formatted text of a message is reduced to a short tag. *)
From S2P Require Import Prelude.
#[local] Open Scope Z_scope.

(** Severity levels ([Level]). *)
Inductive Level := LevelTemporary | LevelReset | LevelCritical.

#[export] Instance Level_eq_dec : EqDecision Level.
Proof. solve_decision. Defined.

(** [Level.String]; the type has no other value, so the [default] branch of the
    source has no counterpart. *)
Definition Level_String (lvl : Level) : string :=
  match lvl with
  | LevelTemporary => "temp"
  | LevelReset => "reset"
  | LevelCritical => "crit"
  end.

(** Package-level error variables that the code compares against. *)
Inductive sentinel :=
  | EOF | ErrUnexpectedEOF | NotFound
  | DuplicateErr | NotEnoughData | EngineP2PSyncing
  | ErrMaxFrameSizeTooSmall | ErrNotDepositTx | ErrTooManyRLPBytes | CompressorFullErr
  | ReorgFinalizedErr | WrongChainErr | TooDeepReorgErr
  | ErrInvalidChannelTimeout | ErrMaxFrameIndex | ErrMaxDurationReached | ErrChannelTimeoutClose
  | ErrSeqWindowClose | ErrTerminated | ErrReorg.

#[export] Instance sentinel_eq_dec : EqDecision sentinel.
Proof. solve_decision. Defined.

(** An error value: a sentinel, an opaque message, [fmt.Errorf] with [%w], the
    [Error] struct of the derivation package, an engine API input error, a list of
    errors collected by [multierror], or the [ChannelFullError] of the batcher. *)
#[warnings="-register-all"]
Inductive error :=
  | ErrSentinel (s : sentinel)
  | ErrNew (msg : string)
  | ErrWrap (msg : string) (inner : error)
  | ErrLevel (lvl : Level) (inner : option error)
  | ErrInput (code : Z) (inner : error)
  | ErrMulti (errs : list error)
  | ErrChannelFull (inner : error).

Coercion ErrSentinel : sentinel >-> error.

(** [NewError] and its three specialisations. *)
Definition NewError (err : option error) (lvl : Level) : error := ErrLevel lvl err.
Definition NewTemporaryError (err : error) : error := NewError (Some err) LevelTemporary.
Definition NewResetError (err : error) : error := NewError (Some err) LevelReset.
Definition NewCriticalError (err : error) : error := NewError (Some err) LevelCritical.

(** The sentinels of the three levels: [Error] structs with no inner error. *)
Definition ErrTemporary : error := NewError None LevelTemporary.
Definition ErrReset : error := NewError None LevelReset.
Definition ErrCritical : error := NewError None LevelCritical.

(** [Error.Is]: an [Error] struct matches a target that is an [Error] struct of
    the same level. *)
Definition Error_Is (lvl : Level) (target : error) : bool :=
  match target with
  | ErrLevel lvl' _ => bool_decide (lvl = lvl')
  | _ => false
  end.

(** [errors.Is err target] for the targets the node uses, which are sentinels
    and the level sentinels. *)
Fixpoint errors_Is (err target : error) : bool :=
  match err with
  | ErrSentinel s =>
      match target with ErrSentinel s' => bool_decide (s = s') | _ => false end
  | ErrNew _ => false
  | ErrWrap _ e => errors_Is e target
  | ErrLevel lvl e =>
      Error_Is lvl target || match e with Some e' => errors_Is e' target | None => false end
  | ErrInput _ e => errors_Is e target
  | ErrMulti es => existsb (fun e => errors_Is e target) es
  | ErrChannelFull e => errors_Is e target
  end.

(** [errors.As err &inputErr]: the first input error in the chain. *)
Fixpoint errors_As_InputError (err : error) : option (Z * error) :=
  match err with
  | ErrInput code e => Some (code, e)
  | ErrWrap _ e | ErrChannelFull e => errors_As_InputError e
  | ErrLevel _ (Some e) => errors_As_InputError e
  | ErrMulti es =>
      (fix go es := match es with
                    | [] => None
                    | e :: es' => match errors_As_InputError e with
                                  | Some r => Some r
                                  | None => go es'
                                  end
                    end) es
  | _ => None
  end.

(** [errors.As err &chFullErr], as a test: is there a [ChannelFullError] in the chain? *)
Fixpoint errors_As_ChannelFull (err : error) : bool :=
  match err with
  | ErrChannelFull _ => true
  | ErrWrap _ e | ErrInput _ e => errors_As_ChannelFull e
  | ErrLevel _ (Some e) => errors_As_ChannelFull e
  | ErrMulti es => existsb errors_As_ChannelFull es
  | _ => false
  end.

(** [err == io.EOF] and the like: identity with a sentinel, nothing unwrapped. *)
Definition err_eqb (err : error) (s : sentinel) : bool :=
  match err with ErrSentinel s' => bool_decide (s' = s) | _ => false end.

Lemma err_eqb_true err s : err_eqb err s = true <-> err = ErrSentinel s.
Proof.
  split; [|intros ->; simpl; by apply bool_decide_eq_true].
  destruct err; simpl; try done. intros ?%bool_decide_eq_true. by subst.
Qed.

(** [multierror.Append]: the result accumulates errors; appending to nil makes a
    new list. *)
Definition multierror_Append (acc : option error) (e : error) : option error :=
  match acc with
  | None => Some (ErrMulti [e])
  | Some (ErrMulti es) => Some (ErrMulti (es ++ [e]))
  | Some e0 => Some (ErrMulti [e0; e])
  end.

Lemma multierror_Append_Some acc e : multierror_Append acc e <> None.
Proof. destruct acc as [[]|]; done. Qed.

(** ** Results

    A call returns a value, returns an error, or panics (an index out of range, a
    nil dereference): a panic is never caught by the code modelled here. *)
Inductive result (A : Type) := Ok (a : A) | Err (e : error) | Panic.
Arguments Ok {A} a.
Arguments Err {A} e.
Arguments Panic {A}.

Lemma Ok_inj {A} (a b : A) : Ok a = Ok b -> a = b.
Proof. congruence. Qed.

Definition is_ok {A} (r : result A) : bool := match r with Ok _ => true | _ => false end.

Definition no_panic {A} (r : result A) : bool := match r with Panic => false | _ => true end.

Definition result_map {A B} (f : A -> B) (r : result A) : result B :=
  match r with Ok a => Ok (f a) | Err e => Err e | Panic => Panic end.

(** The pair [(n, err)] of a call, with the error replaced. *)
Definition map_err {A} (f : error -> error) (r : result A) : result A :=
  match r with Ok a => Ok a | Err e => Err (f e) | Panic => Panic end.

Notation "'let?' x := r 'in' k" :=
  (match r with Ok x => k | Err e => Err e | Panic => Panic end)
  (at level 10, x pattern, r at level 100, k at level 200) : go_scope.

(** ** Stateful code that can fail

    [M S A] is code over a state [S]; the state reached so far survives an error,
    as the mutations of a Go receiver do. *)
Definition M (S A : Type) : Type := S -> result A * S.

Definition ret {S A} (a : A) : M S A := fun s => (Ok a, s).
Definition throw {S A} (e : error) : M S A := fun s => (Err e, s).
Definition bind {S A B} (m : M S A) (k : A -> M S B) : M S B :=
  fun s => match m s with
           | (Ok a, s') => k a s'
           | (Err e, s') => (Err e, s')
           | (Panic, s') => (Panic, s')
           end.
Definition get {S} : M S S := fun s => (Ok s, s).
Definition put {S} (s : S) : M S unit := fun _ => (Ok tt, s).
Definition modify {S} (f : S -> S) : M S unit := fun s => (Ok tt, f s).
Definition lift {S A} (r : result A) : M S A := fun s => (r, s).
(** [if err != nil { return wrap(err) }] *)
Definition wrapE {S A} (f : error -> error) (m : M S A) : M S A :=
  fun s => let '(r, s') := m s in (map_err f r, s').
(** A call whose outcome, error included, is inspected by the caller. *)
Definition attempt {S A} (m : M S A) : M S (A + error) :=
  fun s => match m s with
           | (Ok a, s') => (Ok (inl a), s')
           | (Err e, s') => (Ok (inr e), s')
           | (Panic, s') => (Panic, s')
           end.
(** Code over a part [T] of the state. *)
Definition zoom {S T A} (getT : S -> T) (setT : T -> S -> S) (m : M T A) : M S A :=
  fun s => let '(r, t) := m (getT s) in (r, setT t s).

Notation "x <- m ;; k" := (bind m (fun x => k))
  (at level 100, m at next level, right associativity) : go_scope.
Notation "m ;;; k" := (bind m (fun _ => k))
  (at level 100, right associativity) : go_scope.

(** The result of a run, transformed. *)
Definition mapM_result {S A B} (f : A -> B) (m : M S A) : M S B := bind m (fun a => ret (f a)).
Notation "f <$$> m" := (mapM_result f m) (at level 61, left associativity) : go_scope.

Lemma bind_Ok {S A B} (m : M S A) (k : A -> M S B) s b s' :
  bind m k s = (Ok b, s') <-> exists a s1, m s = (Ok a, s1) /\ k a s1 = (Ok b, s').
Proof.
  unfold bind. split.
  - destruct (m s) as [[a|e|] s1] eqn:E; [|congruence..]. intros H. by exists a, s1.
  - by intros (a & s1 & -> & ?).
Qed.

(** A sequence ends in its second part, or in its first with no value. *)
Lemma bind_cases {S A B} (m : M S A) (k : A -> M S B) s r s' :
  bind m k s = (r, s') ->
  (exists a s1, m s = (Ok a, s1) /\ k a s1 = (r, s')) \/
  (exists e, m s = (Err e, s') /\ r = Err e) \/ (m s = (Panic, s') /\ r = Panic).
Proof.
  unfold bind. destruct (m s) as [[a|e|] s1] eqn:E.
  - intros Hk. left. eauto.
  - intros [= <- <-]. right. left. eauto.
  - intros [= <- <-]. by right; right.
Qed.

(** The outcome of a run, given what it returns. *)
Lemma run_eq {S A} (m : M S A) s r : (m s).1 = r -> m s = (r, (m s).2).
Proof. intros <-. by destruct (m s). Qed.

Lemma wrapE_Ok {S A} f (m : M S A) s a s' : wrapE f m s = (Ok a, s') <-> m s = (Ok a, s').
Proof. unfold wrapE. destruct (m s) as [[?|?|] ?]; simpl; split; intros; simplify_eq; done. Qed.

Lemma attempt_Ok_inl {S A} (m : M S A) s a s' :
  attempt m s = (Ok (inl a), s') <-> m s = (Ok a, s').
Proof. unfold attempt. destruct (m s) as [[?|?|] ?]; split; intros; simplify_eq; done. Qed.

Lemma attempt_not_Err {S A} (m : M S A) s e s' : attempt m s <> (Err e, s').
Proof. unfold attempt. by destruct (m s) as [[?|?|] ?]. Qed.

Lemma bind_no_panic {S A B} (m : M S A) (k : A -> M S B) s :
  (m s).1 <> Panic -> (forall a s', m s = (Ok a, s') -> (k a s').1 <> Panic) -> (bind m k s).1 <> Panic.
Proof. unfold bind. destruct (m s) as [[a|e|] s'] eqn:E; simpl; [|done..]. intros _ H. by apply H. Qed.

Lemma wrapE_no_panic {S A} f (m : M S A) s : (m s).1 <> Panic -> (wrapE f m s).1 <> Panic.
Proof. unfold wrapE. by destruct (m s) as [[a|e|] s']. Qed.

(** ** How levels are seen through [errors.Is] *)

Lemma errors_Is_level lvl lvl' e :
  errors_Is (NewError (Some e) lvl) (NewError None lvl') =
  bool_decide (lvl = lvl') || errors_Is e (NewError None lvl').
Proof. done. Qed.

Lemma errors_Is_refl_level lvl e : errors_Is (NewError e lvl) (NewError None lvl) = true.
Proof. simpl. by rewrite bool_decide_eq_true_2. Qed.

(** ** Reasoning about code in [M]

    [preserves R m]: every run of [m], whatever it returns, relates the state before
    and the state after by [R].  [fails_with Q m]: the errors of [m] satisfy [Q].  Both
    go through the code by its structure, which the tactic [go_code] does. *)
Definition preserves {S A} (R : S -> S -> Prop) (m : M S A) : Prop :=
  forall s r s', m s = (r, s') -> R s s'.

Definition fails_with {S A} (Q : error -> Prop) (m : M S A) : Prop :=
  forall s e s', m s = (Err e, s') -> Q e.

(** The relation of an invariant. *)
Definition keeps {S} (I : S -> Prop) : S -> S -> Prop := fun s s' => I s -> I s'.

(** The relation of a part of the state that does not change. *)
Definition same {S T} (f : S -> T) : S -> S -> Prop := fun s s' => f s' = f s.

#[export] Instance keeps_preorder {S} (I : S -> Prop) : PreOrder (keeps I).
Proof. split; unfold keeps; red; auto. Qed.
#[export] Instance same_preorder {S T} (f : S -> T) : PreOrder (same f).
Proof. split; unfold same; red; intros; congruence. Qed.

Section Code.
Context {S : Type} (R : S -> S -> Prop) `{!PreOrder R} (Q : error -> Prop).

Lemma preserves_ret {A} (a : A) : preserves R (ret a).
Proof. by intros s r s' [= <- <-]. Qed.
Lemma preserves_throw {A} e : preserves (A:=A) R (throw e).
Proof. by intros s r s' [= <- <-]. Qed.
Lemma preserves_lift {A} (x : result A) : preserves R (lift x).
Proof. by intros s r s' [= <- <-]. Qed.
Lemma preserves_get : preserves R get.
Proof. by intros s r s' [= <- <-]. Qed.
Lemma preserves_modify f : (forall s, R s (f s)) -> preserves R (modify f).
Proof. by intros Hf s r s' [= <- <-]. Qed.
Lemma preserves_bind {A B} (m : M S A) (k : A -> M S B) :
  preserves R m -> (forall a, preserves R (k a)) -> preserves R (bind m k).
Proof.
  intros Hm Hk s r s'. unfold bind. destruct (m s) as [[a|e|] s1] eqn:E; [|by intros [= <- <-]; eapply Hm..].
  intros Hx. etrans; [by eapply Hm|by eapply Hk].
Qed.
Lemma preserves_wrapE {A} f (m : M S A) : preserves R m -> preserves R (wrapE f m).
Proof. intros Hm s r s'. unfold wrapE. destruct (m s) eqn:E. intros [= _ <-]. by eapply Hm. Qed.
Lemma preserves_attempt {A} (m : M S A) : preserves R m -> preserves R (attempt m).
Proof.
  intros Hm s r s'. unfold attempt. destruct (m s) as [[a|e|] s1] eqn:E; intros [= _ <-]; by eapply Hm.
Qed.
Lemma preserves_zoom {T A} (getT : S -> T) setT (m : M T A) :
  (forall t s, R s (setT t s)) -> preserves R (zoom getT setT m).
Proof. intros Hs s r s'. unfold zoom. destruct (m (getT s)). by intros [= _ <-]. Qed.

Lemma fails_ret {A} (a : A) : fails_with (S:=S) Q (ret a).
Proof. by intros s e s' [=]. Qed.
Lemma fails_throw {A} e : Q e -> fails_with (S:=S) (A:=A) Q (throw e).
Proof. by intros He s e' s' [= <- _]. Qed.
Lemma fails_get : fails_with (S:=S) Q get.
Proof. by intros s e s' [=]. Qed.
Lemma fails_modify f : fails_with (S:=S) Q (modify f).
Proof. by intros s e s' [=]. Qed.
Lemma fails_panic {A} : fails_with (S:=S) (A:=A) Q (lift Panic).
Proof. by intros s e s' [=]. Qed.
Lemma fails_bind {A B} (m : M S A) (k : A -> M S B) :
  fails_with Q m -> (forall a, fails_with Q (k a)) -> fails_with Q (bind m k).
Proof.
  intros Hm Hk s e s'. unfold bind. destruct (m s) as [[a|err|] s1] eqn:E.
  - apply Hk.
  - intros [= <- _]. by eapply Hm.
  - done.
Qed.
Lemma fails_wrapE {A} f (m : M S A) : (forall e, Q (f e)) -> fails_with Q (wrapE f m).
Proof. intros Hf s e s'. unfold wrapE. destruct (m s) as [[a|err|] s1]; by intros [= <- _]. Qed.
Lemma fails_attempt {A} (m : M S A) : fails_with Q (attempt m).
Proof. intros s e s'. unfold attempt. by destruct (m s) as [[a|err|] s1]. Qed.
(** The inspected error of a call is an error of the call. *)
Lemma fails_attempt_bind {A B} (Q1 : error -> Prop) (m : M S A) (k : A + error -> M S B) :
  fails_with Q1 m -> (forall a, fails_with Q (k (inl a))) -> (forall e, Q1 e -> fails_with Q (k (inr e))) ->
  fails_with Q (bind (attempt m) k).
Proof.
  intros Hm Hl Hr s e s'. unfold bind, attempt. destruct (m s) as [[a|err|] s1] eqn:E.
  - apply Hl.
  - apply Hr. by eapply Hm.
  - done.
Qed.
Lemma fails_zoom {T A} (getT : S -> T) setT (m : M T A) :
  fails_with Q m -> fails_with Q (zoom getT setT m).
Proof. intros Hm s e s'. unfold zoom. destruct (m (getT s)) eqn:E. intros [= -> _]. by eapply Hm. Qed.
End Code.

Create HintDb code.
#[export] Hint Resolve preserves_ret preserves_throw preserves_lift preserves_get preserves_modify
  preserves_bind preserves_wrapE preserves_attempt preserves_zoom : code.
#[export] Hint Resolve fails_ret fails_throw fails_get fails_modify fails_panic fails_bind fails_wrapE
  fails_attempt fails_zoom : code.

(** Walking through the code: known pieces are closed by the hypotheses and the hints,
    [bind], branches and matches are split. *)
Ltac go_code :=
  repeat first
    [ assumption
    | solve [match goal with H : context [preserves] |- _ => apply H end]
    | solve [match goal with H : context [fails_with] |- _ => apply H end]
    | refine (preserves_ret _ _) | refine (preserves_throw _ _) | refine (preserves_lift _ _)
    | refine (preserves_get _)
    | apply fails_ret | apply fails_get | apply fails_modify | apply fails_panic | apply fails_attempt
    | refine (preserves_bind _ _ _ _ _); [|intros ?] | apply fails_bind; [|intros ?]
    | apply preserves_wrapE | apply preserves_attempt
    | progress cbv beta zeta
    | match goal with
      | |- preserves _ (if ?b then _ else _) => destruct b
      | |- fails_with _ (if ?b then _ else _) => destruct b
      | |- preserves _ (match ?x with _ => _ end) => destruct x
      | |- fails_with _ (match ?x with _ => _ end) => destruct x
      end ].

(** * Partial correctness of stateful code

    [wp m Q s]: when [m] started in [s] returns a value, the postcondition [Q] holds of the
    value and of the state reached; an error or a panic satisfies every postcondition.  One
    rule per combinator of the monad, and a tactic that applies them along the code. *)


Definition wp {S A} (m : M S A) (Q : A -> S -> Prop) (s : S) : Prop :=
  match m s with (Ok a, s') => Q a s' | _ => True end.

Section Rules.
Context {S : Type}.

Lemma wp_run {A} (m : M S A) Q s a s' : wp m Q s -> m s = (Ok a, s') -> Q a s'.
Proof. unfold wp. intros Hw E. by rewrite E in Hw. Qed.

Lemma wp_intro {A} (m : M S A) (Q : A -> S -> Prop) s : (forall a s', m s = (Ok a, s') -> Q a s') -> wp m Q s.
Proof. intros Hq. unfold wp. destruct (m s) as [[a|e|] s'] eqn:E; [by apply Hq|done..]. Qed.

Lemma wp_eq {A} (m : M S A) (Q : A -> S -> Prop) s r : m s = r -> match r with (Ok a, s') => Q a s' | _ => True end -> wp m Q s.
Proof. unfold wp. by intros ->. Qed.

Lemma wp_mono {A} (m : M S A) (Q Q' : A -> S -> Prop) s : wp m Q s -> (forall a s', Q a s' -> Q' a s') -> wp m Q' s.
Proof. unfold wp. intros Hw Hm. destruct (m s) as [[a|e|] s']; auto. Qed.

Lemma wp_and {A} (m : M S A) (Q Q' : A -> S -> Prop) s : wp m Q s -> wp m Q' s -> wp m (fun a s' => Q a s' /\ Q' a s') s.
Proof. unfold wp. by destruct (m s) as [[a|e|] s']. Qed.

Lemma wp_ret {A} (a : A) (Q : A -> S -> Prop) s : Q a s -> wp (ret a) Q s.
Proof. done. Qed.
Lemma wp_throw {A} e (Q : A -> S -> Prop) s : wp (throw e) Q s.
Proof. done. Qed.
Lemma wp_bind {A B} (m : M S A) (k : A -> M S B) Q s : wp m (fun a => wp (k a) Q) s -> wp (bind m k) Q s.
Proof. unfold wp, bind. by destruct (m s) as [[a|e|] s']. Qed.
Lemma wp_get (Q : S -> S -> Prop) s : Q s s -> wp get Q s.
Proof. done. Qed.
Lemma wp_modify (f : S -> S) (Q : unit -> S -> Prop) s : Q tt (f s) -> wp (modify f) Q s.
Proof. done. Qed.
Lemma wp_panic {A} (Q : A -> S -> Prop) s : wp (lift Panic) Q s.
Proof. done. Qed.
Lemma wp_lift {A} (r : result A) (Q : A -> S -> Prop) s : (forall a, r = Ok a -> Q a s) -> wp (lift r) Q s.
Proof. intros Hq. unfold wp, lift. destruct r; [by apply Hq|done..]. Qed.
Lemma wp_zoom {T A} (getT : S -> T) setT (m : M T A) Q s :
  wp m (fun a t => Q a (setT t s)) (getT s) -> wp (zoom getT setT m) Q s.
Proof. unfold wp, zoom. by destruct (m (getT s)) as [[a|e|] t]. Qed.
Lemma wp_attempt {A} (m : M S A) Q s :
  wp m (fun a => Q (inl a)) s -> (forall e s', m s = (Err e, s') -> Q (inr e) s') -> wp (attempt m) Q s.
Proof. unfold wp, attempt. intros Hw He. destruct (m s) as [[a|e|] s'] eqn:E; [done|by apply He|done]. Qed.
End Rules.

(** Follows the code of the goal up to the next call. *)
Ltac wp_step :=
  lazymatch goal with
  | |- wp (bind _ _) _ _ => apply wp_bind
  | |- wp (ret _) _ _ => apply wp_ret
  | |- wp (throw _) _ _ => apply wp_throw
  | |- wp get _ _ => apply wp_get
  | |- wp (modify _) _ _ => apply wp_modify
  | |- wp (lift Panic) _ _ => apply wp_panic
  | |- wp (if ?b then _ else _) _ _ => let E := fresh "E" in destruct b eqn:E; zify_bools
  end; cbv beta zeta.
Ltac wp_steps := repeat wp_step.
