(* ===== verification/GoBytes.v ===== *)
(** * Bytes, big-endian integers, readers, and the Solidity ABI helpers

    The parts of Go's [bytes], [io] and [encoding/binary] the node uses, and
    [op-service/solabi/util.go].  A [\[n\]byte] value (hash, address, channel id)
    is modelled by the integer its bytes spell in big-endian order, so that [==]
    on arrays is equality of integers; [be_encode n] gives its bytes back. *)
From S2P Require Import Prelude GoErrors.
From Stdlib Require Strings.Byte.
#[local] Open Scope Z_scope.

Abbreviation byte := Byte.byte.

#[export] Instance byte_eq_dec : EqDecision byte := Byte.byte_eq_dec.
#[export] Program Instance byte_countable : Countable byte :=
  inj_countable Byte.to_N Byte.of_N _.
Next Obligation. apply Byte.of_to_N. Qed.

Definition Z_of_byte (b : byte) : Z := Z.of_N (Byte.to_N b).
Definition byte_of_Z (z : Z) : byte :=
  default Byte.x00 (Byte.of_N (Z.to_N (z mod 256))).

Lemma Z_of_byte_range b : 0 <= Z_of_byte b < 256.
Proof. unfold Z_of_byte. pose proof (Byte.to_N_bounded b). lia. Qed.

Lemma Z_of_byte_of_Z z : Z_of_byte (byte_of_Z z) = z mod 256.
Proof.
  unfold Z_of_byte, byte_of_Z.
  pose proof (Z.mod_pos_bound z 256 ltac:(lia)) as Hr.
  destruct (Byte.of_N (Z.to_N (z mod 256))) as [b|] eqn:E; simpl.
  - apply Byte.to_of_N in E. rewrite E. lia.
  - apply Byte.of_N_None_iff in E. lia.
Qed.

Lemma byte_of_Z_of_byte b : byte_of_Z (Z_of_byte b) = b.
Proof.
  unfold Z_of_byte, byte_of_Z. pose proof (Byte.to_N_bounded b).
  rewrite Z.mod_small by lia. rewrite N2Z.id. by rewrite Byte.of_to_N.
Qed.

Lemma Z_of_byte_inj b c : Z_of_byte b = Z_of_byte c -> b = c.
Proof. intros H. by rewrite <- (byte_of_Z_of_byte b), H, byte_of_Z_of_byte. Qed.

(** ** Big-endian integers *)

(** The [n] low bytes of [z], most significant first ([binary.BigEndian.PutUintX],
    [big.Int.FillBytes]). *)
Fixpoint be_encode (n : nat) (z : Z) : list byte :=
  match n with
  | O => []
  | S n' => byte_of_Z (z / 256 ^ Z.of_nat n') :: be_encode n' z
  end.

(** The integer a byte string spells ([big.Int.SetBytes], [binary.BigEndian.UintX]). *)
Fixpoint be_decode (bs : list byte) : Z :=
  match bs with
  | [] => 0
  | b :: bs' => Z_of_byte b * 256 ^ Z.of_nat (length bs') + be_decode bs'
  end.

Lemma length_be_encode n z : length (be_encode n z) = n.
Proof. induction n; simpl; congruence. Qed.
#[export] Hint Rewrite length_be_encode : opstack.

Lemma pow256_pos n : 0 < 256 ^ Z.of_nat n.
Proof. apply Z.pow_pos_nonneg; lia. Qed.

Lemma pow256_S n : 256 ^ Z.of_nat (S n) = 256 * 256 ^ Z.of_nat n.
Proof. rewrite Nat2Z.inj_succ, Z.pow_succ_r by lia. done. Qed.

Lemma be_decode_range bs : 0 <= be_decode bs < 256 ^ Z.of_nat (length bs).
Proof.
  induction bs as [|b bs IH]; [simpl; lia|].
  cbn [be_decode length]. rewrite pow256_S. pose proof (Z_of_byte_range b).
  pose proof (pow256_pos (length bs)). nia.
Qed.

Lemma be_decode_encode n z : be_decode (be_encode n z) = z mod 256 ^ Z.of_nat n.
Proof.
  induction n as [|n IH]; [by rewrite Z.mod_1_r|].
  cbn [be_encode be_decode]. rewrite length_be_encode, IH, Z_of_byte_of_Z, pow256_S.
  pose proof (pow256_pos n). rewrite (Z.mul_comm 256), Z.rem_mul_r by lia. lia.
Qed.

Lemma be_decode_encode_small n z :
  0 <= z < 256 ^ Z.of_nat n -> be_decode (be_encode n z) = z.
Proof. intros. rewrite be_decode_encode. by apply Z.mod_small. Qed.

Lemma be_encode_mod n z : be_encode n (z mod 256 ^ Z.of_nat n) = be_encode n z.
Proof.
  enough (forall m, (n <= m)%nat -> be_encode n (z mod 256 ^ Z.of_nat m) = be_encode n z) by eauto.
  induction n as [|n IH]; intros m Hm; [done|].
  cbn [be_encode]. f_equal; [|apply IH; lia].
  apply Z_of_byte_inj. rewrite !Z_of_byte_of_Z.
  replace (Z.of_nat m) with (Z.of_nat n + Z.of_nat (m - n)) by lia.
  rewrite Z.pow_add_r by lia.
  pose proof (pow256_pos n). pose proof (pow256_pos (m - n)).
  rewrite Z.rem_mul_r by lia.
  replace (z mod 256 ^ Z.of_nat n + 256 ^ Z.of_nat n * ((z / 256 ^ Z.of_nat n) mod 256 ^ Z.of_nat (m - n)))
    with (z mod 256 ^ Z.of_nat n + ((z / 256 ^ Z.of_nat n) mod 256 ^ Z.of_nat (m - n)) * 256 ^ Z.of_nat n) by lia.
  rewrite Z.div_add by lia.
  rewrite (Z.div_small (z mod _)) by (apply Z.mod_pos_bound; lia). rewrite Z.add_0_l.
  replace (Z.of_nat (m - n)) with (1 + Z.of_nat (m - n - 1)) by lia.
  rewrite Z.pow_add_r, Z.pow_1_r by lia.
  pose proof (pow256_pos (m - n - 1)).
  rewrite Z.rem_mul_r by lia.
  rewrite Z.add_comm, Z.mul_comm, Z.add_comm, Z.mod_add by lia. by rewrite Z.mod_mod by lia.
Qed.

Lemma be_encode_decode bs : be_encode (length bs) (be_decode bs) = bs.
Proof.
  induction bs as [|b bs IH]; [done|].
  cbn [be_encode be_decode length].
  pose proof (pow256_pos (length bs)). pose proof (be_decode_range bs).
  pose proof (Z_of_byte_range b).
  f_equal.
  - rewrite Z.div_add_l by lia. rewrite Z.div_small by lia.
    by rewrite Z.add_0_r, byte_of_Z_of_byte.
  - rewrite <- be_encode_mod, Z.add_comm, Z.mod_add by lia.
    by rewrite Z.mod_small.
Qed.

Lemma be_encode_decode_len n bs : length bs = n -> be_encode n (be_decode bs) = bs.
Proof. intros <-. apply be_encode_decode. Qed.

Lemma be_decode_inj bs cs :
  length bs = length cs -> be_decode bs = be_decode cs -> bs = cs.
Proof.
  intros Hl H. rewrite <- (be_encode_decode bs), <- (be_encode_decode cs). congruence.
Qed.

(** ** Readers

    A [*bytes.Buffer] or [*bytes.Reader] is the list of its unread bytes. *)

(** [io.ReadFull r buf] with [len buf = n]. *)
Definition ReadFull (n : nat) : M (list byte) (list byte) := fun r =>
  if (n =? 0)%nat then (Ok [], r)
  else if (length r =? 0)%nat then (Err EOF, r)
  else if (length r <? n)%nat then (Err ErrUnexpectedEOF, [])
  else (Ok (take n r), drop n r).

(** [ReadByte]. *)
Definition ReadByte : M (list byte) byte := fun r =>
  match r with
  | [] => (Err EOF, [])
  | b :: r' => (Ok b, r')
  end.

(** [binary.Read] of a big-endian unsigned integer of [n] bytes. *)
Definition binary_Read (n : nat) : M (list byte) Z :=
  bs <- ReadFull n ;; ret (be_decode bs).

Lemma ReadFull_app n bs r : length bs = n -> ReadFull n (bs ++ r) = (Ok bs, r).
Proof.
  intros Hn. unfold ReadFull. rewrite length_app.
  destruct (Nat.eqb_spec n 0) as [->|Hn0]; [by destruct bs|].
  destruct (Nat.eqb_spec (length bs + length r) 0); [lia|].
  destruct (Nat.ltb_spec (length bs + length r) n); [lia|].
  rewrite take_app_exact, drop_app_exact by done. done.
Qed.

Lemma ReadFull_Ok n r bs r' :
  ReadFull n r = (Ok bs, r') -> length bs = n /\ r = bs ++ r'.
Proof.
  unfold ReadFull.
  destruct (Nat.eqb_spec n 0) as [->|Hn0]; [by intros [= <- <-]|].
  destruct (Nat.eqb_spec (length r) 0); [done|].
  destruct (Nat.ltb_spec (length r) n); [done|].
  intros [= <- <-]. rewrite length_take, take_drop. split; [lia|done].
Qed.

Lemma binary_Read_app n z r :
  0 <= z < 256 ^ Z.of_nat n -> binary_Read n (be_encode n z ++ r) = (Ok z, r).
Proof.
  intros Hz. unfold binary_Read, bind.
  rewrite ReadFull_app by apply length_be_encode.
  unfold ret. by rewrite be_decode_encode_small.
Qed.

Lemma binary_Read_Ok n r z r' :
  binary_Read n r = (Ok z, r') -> r = be_encode n z ++ r' /\ 0 <= z < 256 ^ Z.of_nat n.
Proof.
  unfold binary_Read, bind, ret.
  destruct (ReadFull n r) as [[bs|e|] r1] eqn:E; [|done..].
  intros [= <- <-]. apply ReadFull_Ok in E as [<- ->].
  rewrite be_encode_decode. split; [done|]. apply be_decode_range.
Qed.

Lemma ReadFull_no_panic n r : (ReadFull n r).1 <> Panic.
Proof. unfold ReadFull. by repeat case_if. Qed.

Lemma binary_Read_no_panic n r : (binary_Read n r).1 <> Panic.
Proof. apply bind_no_panic; [apply ReadFull_no_panic|done]. Qed.

#[global] Arguments be_encode : simpl never.
#[global] Arguments be_decode : simpl never.
