(* ===== verification/EthTypes.v ===== *)
(** * Block references, payloads and the rollup configuration

    The data that flows between the components: [op-service/eth/id.go],
    [op-service/eth/types.go], [op-service/eth/block_info.go] and
    [op-node/rollup/types.go].  Fixed-size byte arrays (hashes, addresses) are
    integers as explained in GoBytes; the zero value of every Go type is the
    record of zeros, so that the source's comparisons with a zero literal stay
    visible. *)
From S2P Require Import Prelude GoErrors GoBytes.
#[local] Open Scope Z_scope.

Abbreviation Hash := Z (only parsing).
Abbreviation Address := Z (only parsing).
Abbreviation Data := (list byte) (only parsing).

(** Bounds of the arrays behind the integers. *)
Definition is_hash (h : Z) : Prop := 0 <= h < 256 ^ 32.
Definition is_address (a : Z) : Prop := 0 <= a < 256 ^ 20.

(** ** Block identifiers and references *)

Record BlockID := mkBlockID { id_Hash : Hash; id_Number : Z }.

Record L2BlockRef := mkL2BlockRef {
  l2_Hash : Hash;
  l2_Number : Z;
  l2_ParentHash : Hash;
  l2_Time : Z;
  l2_L1Origin : BlockID;
  l2_SequenceNumber : Z }.

Record L1BlockRef := mkL1BlockRef {
  l1_Hash : Hash;
  l1_Number : Z;
  l1_ParentHash : Hash;
  l1_Time : Z }.

#[export] Instance BlockID_eq_dec : EqDecision BlockID.
Proof. solve_decision. Defined.
#[export] Instance L2BlockRef_eq_dec : EqDecision L2BlockRef.
Proof. solve_decision. Defined.
#[export] Instance L1BlockRef_eq_dec : EqDecision L1BlockRef.
Proof. solve_decision. Defined.

Definition zeroID : BlockID := mkBlockID 0 0.
Definition zeroL1 : L1BlockRef := mkL1BlockRef 0 0 0 0.
Definition zeroL2 : L2BlockRef := mkL2BlockRef 0 0 0 0 zeroID 0.

(** [SyncStatus] of [sync_status.go]. *)
Record SyncStatus := mkSyncStatus {
  ss_CurrentL1 : L1BlockRef;
  ss_CurrentL1Finalized : L1BlockRef;
  ss_HeadL1 : L1BlockRef;
  ss_SafeL1 : L1BlockRef;
  ss_FinalizedL1 : L1BlockRef;
  ss_UnsafeL2 : L2BlockRef;
  ss_SafeL2 : L2BlockRef;
  ss_FinalizedL2 : L2BlockRef;
  ss_UnsafeL2SyncTarget : L2BlockRef;
  ss_EngineSyncTarget : L2BlockRef }.

(** [L1BlockRef.ID]. *)
Definition l1_ID (r : L1BlockRef) : BlockID := mkBlockID (l1_Hash r) (l1_Number r).
(** [L1BlockRef.ParentID]: the number saturates at zero. *)
Definition l1_ParentID (r : L1BlockRef) : BlockID :=
  let n := id_Number (l1_ID r) in
  mkBlockID (l1_ParentHash r) (if 0 <? n then n -u 1 else n).
(** [L2BlockRef.ID]. *)
Definition l2_ID (r : L2BlockRef) : BlockID := mkBlockID (l2_Hash r) (l2_Number r).
(** [L2BlockRef.ParentID]. *)
Definition l2_ParentID (r : L2BlockRef) : BlockID :=
  let n := id_Number (l2_ID r) in
  mkBlockID (l2_ParentHash r) (if 0 <? n then n -u 1 else n).

(** The [eth.BlockInfo] interface, as the values its methods return; [BaseFee] is
    never nil for the blocks the node reads, which are all past the London fork. *)
Record BlockInfo := mkBlockInfo {
  bi_Hash : Hash;
  bi_ParentHash : Hash;
  bi_NumberU64 : Z;
  bi_Time : Z;
  bi_MixDigest : Hash;
  bi_BaseFee : Z }.

(** [InfoToL1BlockRef]. *)
Definition InfoToL1BlockRef (info : BlockInfo) : L1BlockRef :=
  mkL1BlockRef (bi_Hash info) (bi_NumberU64 info) (bi_ParentHash info) (bi_Time info).
(** [ToBlockID]. *)
Definition ToBlockID (b : BlockInfo) : BlockID := mkBlockID (bi_Hash b) (bi_NumberU64 b).

(** ** Execution payloads and the engine API *)

(** [ErrorCode] constants. *)
Definition UnknownPayload : Z := -32001.
Definition InvalidForkchoiceState : Z := -38002.
Definition InvalidPayloadAttributes : Z := -38003.

Record ExecutionPayload := mkPayload {
  ep_ParentHash : Hash;
  ep_FeeRecipient : Address;
  ep_StateRoot : Hash;
  ep_ReceiptsRoot : Hash;
  ep_LogsBloom : Data;
  ep_PrevRandao : Hash;
  ep_BlockNumber : Z;
  ep_GasLimit : Z;
  ep_GasUsed : Z;
  ep_Timestamp : Z;
  ep_ExtraData : Data;
  ep_BaseFeePerGas : Z;
  ep_BlockHash : Hash;
  ep_Transactions : list Data }.

(** [ExecutionPayload.ID] and [ExecutionPayload.ParentID]. *)
Definition ep_ID (p : ExecutionPayload) : BlockID :=
  mkBlockID (ep_BlockHash p) (ep_BlockNumber p).
Definition ep_ParentID (p : ExecutionPayload) : BlockID :=
  let n := ep_BlockNumber p in
  mkBlockID (ep_ParentHash p) (if 0 <? n then n -u 1 else n).

Record PayloadAttributes := mkAttributes {
  pa_Timestamp : Z;
  pa_PrevRandao : Hash;
  pa_SuggestedFeeRecipient : Address;
  pa_Transactions : list Data;
  pa_NoTxPool : bool;
  pa_GasLimit : option Z }.

(** [ExecutePayloadStatus]; the type is a string in the source, so a server may
    answer with another value. *)
Inductive ExecutePayloadStatus :=
  | ExecutionValid
  | ExecutionInvalid
  | ExecutionSyncing
  | ExecutionAccepted
  | ExecutionInvalidBlockHash
  | ExecutionInvalidTerminalBlock
  | ExecutionOther (s : string).

#[export] Instance ExecutePayloadStatus_eq_dec : EqDecision ExecutePayloadStatus.
Proof. solve_decision. Defined.

Record ForkchoiceState := mkForkchoiceState {
  HeadBlockHash : Hash;
  SafeBlockHash : Hash;
  FinalizedBlockHash : Hash }.

(** A forkchoice-updated response: the status of the head and, when a build was
    requested, the payload id. *)
Record ForkchoiceUpdatedResult := mkForkchoiceResult {
  PayloadStatus : ExecutePayloadStatus;
  PayloadID : option Z }.

Record SystemConfig := mkSystemConfig {
  BatcherAddr : Address;
  Overhead : Z;
  Scalar : Z;
  GasLimit : Z }.

#[export] Instance SystemConfig_eq_dec : EqDecision SystemConfig.
Proof. solve_decision. Defined.

Definition zeroSystemConfig : SystemConfig := mkSystemConfig 0 0 0 0.

(** ** Rollup configuration *)

Record Genesis := mkGenesis {
  gen_L1 : BlockID;
  gen_L2 : BlockID;
  gen_L2Time : Z;
  gen_SystemConfig : SystemConfig }.

(** [rollup.Config]; a nil [*big.Int] chain id or [*uint64] fork time is [None]. *)
Record Config := mkConfig {
  cfg_Genesis : Genesis;
  BlockTime : Z;
  MaxSequencerDrift : Z;
  SeqWindowSize : Z;
  ChannelTimeout : Z;
  L1ChainID : option Z;
  L2ChainID : option Z;
  RegolithTime : option Z;
  BatchInboxAddress : Address;
  DepositContractAddress : Address;
  L1SystemConfigAddress : Address }.

(** [Config.IsRegolith]. *)
Definition IsRegolith (c : Config) (timestamp : Z) : bool :=
  match RegolithTime c with Some t => t <=? timestamp | None => false end.

(** [Config.TargetBlockNumber]; dividing by a zero block time panics. *)
Definition TargetBlockNumber (cfg : Config) (timestamp : Z) : result Z :=
  let genesisTimestamp := gen_L2Time (cfg_Genesis cfg) in
  if timestamp <? genesisTimestamp then
    Err (ErrNew "did not reach genesis time yet")
  else
    let wallClockGenesisDiff := timestamp -u genesisTimestamp in
    if BlockTime cfg =? 0 then Panic else
    let blocksSinceGenesis := wallClockGenesisDiff / BlockTime cfg in
    Ok (id_Number (gen_L2 (cfg_Genesis cfg)) +u blocksSinceGenesis).

(** [Config.Check]; the error variables of the package are named by their
    identifiers. *)
Definition Config_Check (cfg : Config) : result unit :=
  let g := cfg_Genesis cfg in
  let sys := gen_SystemConfig g in
  if BlockTime cfg =? 0 then Err (ErrNew "ErrBlockTimeZero") else
  if ChannelTimeout cfg =? 0 then Err (ErrNew "ErrMissingChannelTimeout") else
  if SeqWindowSize cfg <? 2 then Err (ErrNew "ErrInvalidSeqWindowSize") else
  if id_Hash (gen_L1 g) =? 0 then Err (ErrNew "ErrMissingGenesisL1Hash") else
  if id_Hash (gen_L2 g) =? 0 then Err (ErrNew "ErrMissingGenesisL2Hash") else
  if id_Hash (gen_L2 g) =? id_Hash (gen_L1 g) then Err (ErrNew "ErrGenesisHashesSame") else
  if gen_L2Time g =? 0 then Err (ErrNew "ErrMissingGenesisL2Time") else
  if BatcherAddr sys =? 0 then Err (ErrNew "ErrMissingBatcherAddr") else
  if Overhead sys =? 0 then Err (ErrNew "ErrMissingOverhead") else
  if Scalar sys =? 0 then Err (ErrNew "ErrMissingScalar") else
  if GasLimit sys =? 0 then Err (ErrNew "ErrMissingGasLimit") else
  if BatchInboxAddress cfg =? 0 then Err (ErrNew "ErrMissingBatchInboxAddress") else
  if DepositContractAddress cfg =? 0 then Err (ErrNew "ErrMissingDepositContractAddress") else
  match L1ChainID cfg with
  | None => Err (ErrNew "ErrMissingL1ChainID")
  | Some l1 =>
      match L2ChainID cfg with
      | None => Err (ErrNew "ErrMissingL2ChainID")
      | Some l2 =>
          if l1 =? l2 then Err (ErrNew "ErrChainIDsSame") else
          if Z.sgn l1 <? 1 then Err (ErrNew "ErrL1ChainIDNotPositive") else
          if Z.sgn l2 <? 1 then Err (ErrNew "ErrL2ChainIDNotPositive") else
          Ok tt
      end
  end.

(** The checks of the configuration against the connected chains: [chainID] and
    [refByNumber] are the answers of the RPC clients; comparing with a nil
    chain id panics. *)
Definition CheckL1ChainID (cfg : Config) (chainID : result Z) : result unit :=
  let? id := map_err (ErrWrap "failed to get L1 chain ID") chainID in
  match L1ChainID cfg with
  | None => Panic
  | Some c => if negb (c =? id) then Err (ErrNew "incorrect L1 RPC chain id") else Ok tt
  end.

Definition CheckL1GenesisBlockHash (cfg : Config)
    (L1BlockRefByNumber : Z -> result L1BlockRef) : result unit :=
  let? ref := map_err (ErrWrap "failed to get L1 genesis blockhash")
                (L1BlockRefByNumber (id_Number (gen_L1 (cfg_Genesis cfg)))) in
  if negb (l1_Hash ref =? id_Hash (gen_L1 (cfg_Genesis cfg)))
  then Err (ErrNew "incorrect L1 genesis block hash") else Ok tt.

Definition CheckL2ChainID (cfg : Config) (chainID : result Z) : result unit :=
  let? id := map_err (ErrWrap "failed to get L2 chain ID") chainID in
  match L2ChainID cfg with
  | None => Panic
  | Some c => if negb (c =? id) then Err (ErrNew "incorrect L2 RPC chain id") else Ok tt
  end.

Definition CheckL2GenesisBlockHash (cfg : Config)
    (L2BlockRefByNumber : Z -> result L2BlockRef) : result unit :=
  let? ref := map_err (ErrWrap "failed to get L2 genesis blockhash")
                (L2BlockRefByNumber (id_Number (gen_L2 (cfg_Genesis cfg)))) in
  if negb (l2_Hash ref =? id_Hash (gen_L2 (cfg_Genesis cfg)))
  then Err (ErrNew "incorrect L2 genesis block hash") else Ok tt.

(** [ValidateL1Config] and [ValidateL2Config]. *)
Definition ValidateL1Config (cfg : Config) (chainID : result Z)
    (L1BlockRefByNumber : Z -> result L1BlockRef) : result unit :=
  let? _ := CheckL1ChainID cfg chainID in
  CheckL1GenesisBlockHash cfg L1BlockRefByNumber.

Definition ValidateL2Config (cfg : Config) (chainID : result Z)
    (L2BlockRefByNumber : Z -> result L2BlockRef) : result unit :=
  let? _ := CheckL2ChainID cfg chainID in
  CheckL2GenesisBlockHash cfg L2BlockRefByNumber.

(** A configuration that passed [Config_Check] is safe to compute with: in
    particular the block time is not zero. *)
Lemma Config_Check_BlockTime cfg : Config_Check cfg = Ok tt -> BlockTime cfg <> 0.
Proof. unfold Config_Check. by case_if. Qed.
