(* ===== verification/Geth.v ===== *)
(** * Types and services of go-ethereum the node relies on

    Deposit transactions, logs and receipts are go-ethereum structs, of which the
    fields the node uses are kept.  Hashing and transaction encoding are library
    code: they are interfaces, and what the node relies on is stated as laws. *)
From S2P Require Import Prelude GoErrors GoBytes EthTypes.
From Stdlib Require Strings.String.
#[local] Open Scope Z_scope.

Record DepositTx := mkDepositTx {
  SourceHash : Hash;
  From : Address;
  To : option Address;
  Mint : option Z;
  Value : Z;
  Gas : Z;
  IsSystemTransaction : bool;
  TxData : Data }.

#[export] Instance DepositTx_eq_dec : EqDecision DepositTx.
Proof. solve_decision. Defined.

Record Log := mkLog {
  lg_Address : Address;
  lg_Topics : list Hash;
  lg_Data : Data;
  lg_BlockHash : Hash;
  lg_Index : Z }.

#[export] Instance Log_eq_dec : EqDecision Log.
Proof. solve_decision. Defined.

Record Receipt := mkReceipt { Status : Z; Logs : list Log }.

#[export] Instance Receipt_eq_dec : EqDecision Receipt.
Proof. solve_decision. Defined.

Definition ReceiptStatusSuccessful : Z := 1.

(** A decoded transaction, as far as the node looks at it: its type and its data. *)
Record Transaction := mkTransaction { tx_Type : Z; tx_Data : Data }.

Definition DepositTxType : byte := Byte.x7e.

(** The bytes of a Go string literal. *)
Definition bytes_of (s : string) : list byte := String.list_byte_of_string s.

(** [crypto.Keccak256Hash]. *)
Class Keccak := { Keccak256Hash : list byte -> Hash }.
Class LawfulKeccak `{Keccak} := { Keccak256Hash_range bs : is_hash (Keccak256Hash bs) }.

(** [types.NewTx(dep).MarshalBinary()] and [Transaction.UnmarshalBinary]. *)
Class TxCodec := {
  tx_MarshalBinary : DepositTx -> result Data;
  tx_UnmarshalBinary : Data -> result Transaction }.

(** An encoded deposit starts with the deposit type and decodes to a transaction of
    that type with the same data; the value fields are RLP-encodable when they are
    not negative. *)
Class LawfulTxCodec `{TxCodec} := {
  tx_marshal_ok dep : 0 <= Value dep -> (forall m, Mint dep = Some m -> 0 <= m) ->
    exists enc, tx_MarshalBinary dep = Ok (DepositTxType :: enc);
  tx_roundtrip dep enc : tx_MarshalBinary dep = Ok enc ->
    tx_UnmarshalBinary enc = Ok (mkTransaction (Z_of_byte DepositTxType) (TxData dep)) }.

(** ** Concrete instances, to evaluate the model at concrete inputs *)

Module ToyGeth.

(** A checksum in place of the hash. *)
#[export] Instance toy_keccak : Keccak :=
  {| Keccak256Hash := fun bs => be_decode bs mod 2 ^ 256 |}.

#[export] Instance toy_keccak_lawful : LawfulKeccak.
Proof. split. intros bs. unfold is_hash. simpl. apply Z.mod_pos_bound. lia. Qed.

(** An encoding that keeps the type and the data. *)
#[export] Instance toy_codec : TxCodec :=
  {| tx_MarshalBinary := fun dep => Ok (DepositTxType :: TxData dep);
     tx_UnmarshalBinary := fun enc =>
       match enc with
       | [] => Err EOF
       | ty :: d => Ok (mkTransaction (Z_of_byte ty) d)
       end |}.

#[export] Instance toy_codec_lawful : LawfulTxCodec.
Proof. split; [by eexists|]. intros dep enc. simpl. by intros [= <-]. Qed.
End ToyGeth.
