(* ===== verification/Solabi.v ===== *)
(** * Solidity ABI words

    [op-service/solabi/util.go]: reading and writing the 32-byte words of an ABI
    encoding.  A reader is the list of its unread bytes; writers are in-memory
    buffers, so writing yields the bytes appended. *)
From S2P Require Import Prelude GoErrors GoBytes EthTypes.
#[local] Open Scope Z_scope.

Definition addressEmptyPadding : list byte := replicate 12 Byte.x00.
Definition uint64EmptyPadding : list byte := replicate 24 Byte.x00.

(** ** Readers *)

Definition ReadSignature : M (list byte) (list byte) := ReadFull 4.

Definition ReadAndValidateSignature (expectedSignature : list byte) : M (list byte) (list byte) :=
  sig <- ReadFull 4 ;;
  if bool_decide (sig <> expectedSignature) then throw (ErrNew "invalid function signature")
  else ret sig.

Definition ReadHash : M (list byte) Hash := h <- ReadFull 32 ;; ret (be_decode h).

Definition ReadEthBytes32 : M (list byte) Z := b <- ReadFull 32 ;; ret (be_decode b).

Definition ReadAddress : M (list byte) Address :=
  readPadding <- ReadFull 12 ;;
  if bool_decide (readPadding <> addressEmptyPadding) then
    throw (ErrNew "address padding was not empty")
  else a <- ReadFull 20 ;; ret (be_decode a).

Definition ReadUint64 : M (list byte) Z :=
  readPadding <- ReadFull 24 ;;
  if bool_decide (readPadding <> uint64EmptyPadding) then
    throw (ErrNew "number padding was not empty")
  else wrapE (fun _ => ErrNew "expected number length to be 8 bytes") (binary_Read 8).

Definition ReadUint256 : M (list byte) Z := n <- ReadFull 32 ;; ret (be_decode n).

(** [EmptyReader] tries to read one byte. *)
Definition EmptyReader : M (list byte) bool := fun r =>
  match r with
  | [] => (Ok true, [])
  | _ :: r' => (Ok false, r')
  end.

(** ** Writers *)

Definition WriteSignature (sig : list byte) : list byte := sig.
Definition WriteHash (h : Hash) : list byte := be_encode 32 h.
Definition WriteEthBytes32 (b : Z) : list byte := be_encode 32 b.
Definition WriteAddress (a : Address) : list byte := addressEmptyPadding ++ be_encode 20 a.
(** [big.Int.BitLen] and [FillBytes] look at the absolute value. *)
Definition BitLen (n : Z) : Z := if n =? 0 then 0 else Z.log2 (Z.abs n) + 1.
Definition WriteUint256 (n : Z) : result (list byte) :=
  if 256 <? BitLen n then Err (ErrNew "big int exceeds 256 bits") else Ok (be_encode 32 (Z.abs n)).
Definition WriteUint64 (n : Z) : list byte := uint64EmptyPadding ++ be_encode 8 n.

(** ** What readers accept

    Each reader accepts exactly what the writer of its type produces. *)

(** The values a [uint256] holds. *)
Definition is_u256 (z : Z) : Prop := 0 <= z < 256 ^ 32.

Lemma BitLen_u256 n : is_u256 n -> BitLen n <= 256.
Proof.
  unfold BitLen, is_u256. intros Hn. destruct (Z.eqb_spec n 0); [lia|].
  rewrite Z.abs_eq by lia. change (256 ^ 32) with (2 ^ 256) in Hn.
  assert (Z.log2 n < 256) by (apply Z.log2_lt_pow2; lia). lia.
Qed.

Lemma WriteUint256_small n : is_u256 n -> WriteUint256 n = Ok (be_encode 32 n).
Proof.
  intros Hn. unfold WriteUint256. pose proof (BitLen_u256 n Hn). case_if; [lia|].
  rewrite Z.abs_eq; [done|]. apply Hn.
Qed.

Lemma ReadFull_decode_iff n r z r' :
  (bs <- ReadFull n ;; ret (be_decode bs)) r = (Ok z, r') <->
  r = be_encode n z ++ r' /\ 0 <= z < 256 ^ Z.of_nat n.
Proof.
  split.
  - apply binary_Read_Ok.
  - intros [-> Hz]. by apply binary_Read_app.
Qed.

Lemma ReadHash_iff r h r' : ReadHash r = (Ok h, r') <-> r = WriteHash h ++ r' /\ is_hash h.
Proof. apply (ReadFull_decode_iff 32). Qed.

Lemma ReadEthBytes32_iff r b r' :
  ReadEthBytes32 r = (Ok b, r') <-> r = WriteEthBytes32 b ++ r' /\ is_u256 b.
Proof. apply (ReadFull_decode_iff 32). Qed.

Lemma ReadUint256_iff r n r' :
  ReadUint256 r = (Ok n, r') <-> r = be_encode 32 n ++ r' /\ is_u256 n.
Proof. apply (ReadFull_decode_iff 32). Qed.

(** A padded read: [pad] first, then the value. *)
Lemma padded_read_iff {A} (pad : list byte) e (m : M (list byte) A) r a r' :
  (p <- ReadFull (length pad) ;;
   if bool_decide (p <> pad) then throw e else m) r = (Ok a, r') <->
  exists r1, r = pad ++ r1 /\ m r1 = (Ok a, r').
Proof.
  rewrite bind_Ok. split.
  - intros (p & r1 & [Hp ->]%ReadFull_Ok & H).
    case_bool_decide; [done|]. subst p. by exists r1.
  - intros (r1 & -> & H). exists pad, r1. split; [by apply ReadFull_app|].
    rewrite bool_decide_eq_false_2; [done|]. by intros [].
Qed.

Lemma ReadAddress_iff r a r' :
  ReadAddress r = (Ok a, r') <-> r = WriteAddress a ++ r' /\ is_address a.
Proof.
  unfold ReadAddress, WriteAddress. rewrite (padded_read_iff addressEmptyPadding).
  setoid_rewrite (ReadFull_decode_iff 20). split.
  - intros (r1 & -> & -> & Ha). by rewrite app_assoc.
  - intros [-> Ha]. eexists. by rewrite <- app_assoc.
Qed.

Lemma ReadUint64_iff r n r' :
  ReadUint64 r = (Ok n, r') <-> r = WriteUint64 n ++ r' /\ is_u64 n.
Proof.
  unfold ReadUint64, WriteUint64. rewrite (padded_read_iff uint64EmptyPadding).
  setoid_rewrite wrapE_Ok. setoid_rewrite (ReadFull_decode_iff 8). split.
  - intros (r1 & -> & -> & Hn). by rewrite app_assoc.
  - intros [-> Hn]. eexists. by rewrite <- app_assoc.
Qed.

Lemma ReadAndValidateSignature_iff sig r s r' :
  length sig = 4%nat ->
  ReadAndValidateSignature sig r = (Ok s, r') <-> s = sig /\ r = WriteSignature sig ++ r'.
Proof.
  intros Hsig. unfold ReadAndValidateSignature, WriteSignature. rewrite bind_Ok. split.
  - intros (p & r1 & [Hp ->]%ReadFull_Ok & H).
    case_bool_decide; [done|]. subst p. by injection H as <- <-.
  - intros [-> ->]. exists sig, r'. split; [by apply ReadFull_app|].
    rewrite bool_decide_eq_false_2; [done|]. by intros [].
Qed.

Lemma EmptyReader_iff r r' : EmptyReader r = (Ok true, r') <-> r = [] /\ r' = [].
Proof. destruct r; simpl; naive_solver. Qed.

Lemma length_WriteAddress a : length (WriteAddress a) = 32%nat.
Proof. unfold WriteAddress. by rewrite length_app, length_be_encode. Qed.
Lemma length_WriteUint64 n : length (WriteUint64 n) = 32%nat.
Proof. unfold WriteUint64. by rewrite length_app, length_be_encode. Qed.
Lemma length_WriteHash h : length (WriteHash h) = 32%nat.
Proof. apply length_be_encode. Qed.
Lemma length_WriteEthBytes32 b : length (WriteEthBytes32 b) = 32%nat.
Proof. apply length_be_encode. Qed.
#[export] Hint Rewrite length_WriteAddress length_WriteUint64 length_WriteHash
  length_WriteEthBytes32 : opstack.

(** No reader panics. *)
Lemma padded_read_no_panic {A} (pad : list byte) n e (m : M (list byte) A) r :
  (forall r1, (m r1).1 <> Panic) ->
  ((p <- ReadFull n ;; if bool_decide (p <> pad) then throw e else m) r).1 <> Panic.
Proof.
  intros Hm. apply bind_no_panic; [apply ReadFull_no_panic|]. intros p r1 _. by case_bool_decide.
Qed.

Lemma ReadAddress_no_panic r : (ReadAddress r).1 <> Panic.
Proof. apply padded_read_no_panic. intros. apply (binary_Read_no_panic 20). Qed.
Lemma ReadUint64_no_panic r : (ReadUint64 r).1 <> Panic.
Proof. apply padded_read_no_panic. intros. apply wrapE_no_panic, binary_Read_no_panic. Qed.
Lemma ReadEthBytes32_no_panic r : (ReadEthBytes32 r).1 <> Panic.
Proof. apply (binary_Read_no_panic 32). Qed.

#[global] Arguments WriteHash : simpl never.
#[global] Arguments WriteEthBytes32 : simpl never.
#[global] Arguments WriteAddress : simpl never.
#[global] Arguments WriteUint64 : simpl never.
