(* ===== verification/Deposits.v ===== *)
(** * Deposits: from L1 logs to L2 transactions

    [op-node/rollup/derive/deposit_source.go], [deposit_log.go] and [deposits.go].
    A user deposit is a log of the deposit contract; it becomes the deposit
    transaction that the next L2 block must include. *)
From S2P Require Import Prelude GoErrors GoBytes EthTypes Geth Solabi.
#[local] Open Scope Z_scope.

(** ** Source hashes *)

Record UserDepositSource := mkUserSource { uds_L1BlockHash : Hash; uds_LogIndex : Z }.
Record L1InfoDepositSource := mkInfoSource { ids_L1BlockHash : Hash; ids_SeqNumber : Z }.

#[export] Instance UserDepositSource_eq_dec : EqDecision UserDepositSource.
Proof. solve_decision. Defined.

Definition UserDepositSourceDomain : Z := 0.
Definition L1InfoDepositSourceDomain : Z := 1.

(** The two 64-byte preimages of a source hash. *)
Definition source_input (blockHash index : Z) : list byte :=
  be_encode 32 blockHash ++ replicate 24 Byte.x00 ++ be_encode 8 index.
Definition domain_input (domain depositIDHash : Z) : list byte :=
  replicate 24 Byte.x00 ++ be_encode 8 domain ++ be_encode 32 depositIDHash.

Section SourceHash.
Context `{Keccak}.

(** [UserDepositSource.SourceHash]. *)
Definition UserDepositSource_SourceHash (dep : UserDepositSource) : Hash :=
  let depositIDHash := Keccak256Hash (source_input (uds_L1BlockHash dep) (uds_LogIndex dep)) in
  Keccak256Hash (domain_input UserDepositSourceDomain depositIDHash).

(** [L1InfoDepositSource.SourceHash]. *)
Definition L1InfoDepositSource_SourceHash (dep : L1InfoDepositSource) : Hash :=
  let depositIDHash := Keccak256Hash (source_input (ids_L1BlockHash dep) (ids_SeqNumber dep)) in
  Keccak256Hash (domain_input L1InfoDepositSourceDomain depositIDHash).
End SourceHash.

(** ** Deposit logs *)

Definition DepositEventABI : string := "TransactionDeposited(address,address,uint256,bytes)".
Definition DepositEventVersion0 : Hash := 0.

(** [unmarshalDepositVersion0]: the fields of the deposit it fills in, to those
    [dep] already has. *)
Definition unmarshalDepositVersion0 (dep : DepositTx) (to : Address) (opaqueData : Data)
    : result DepositTx :=
  if (length opaqueData <? 32 + 32 + 8 + 1)%nat then Err (ErrNew "unexpected opaqueData length") else
  let mint := be_decode (take 32 opaqueData) in
  let mint' := if mint =? 0 then None else Some mint in
  let value := be_decode (take 32 (drop 32 opaqueData)) in
  let gas := be_decode (take 8 (drop 64 opaqueData)) in
  if negb (gas <? two64) then Err (ErrNew "bad gas value") else
  let to' := if bool_decide (opaqueData !! 72%nat = Some Byte.x00) then Some to else To dep in
  Ok (mkDepositTx (SourceHash dep) (From dep) to' mint' value gas (IsSystemTransaction dep)
        (drop 73 opaqueData)).

(** [marshalDepositVersion0]. *)
Definition marshalDepositVersion0 (deposit : DepositTx) : result Data :=
  let? mint := match Mint deposit with
               | Some m => if 256 <? BitLen m then Err (ErrNew "mint value exceeds 256 bits")
                           else Ok (be_encode 32 (Z.abs m))
               | None => Ok (replicate 32 Byte.x00)
               end in
  if 256 <? BitLen (Value deposit) then Err (ErrNew "value value exceeds 256 bits") else
  Ok (mint ++ be_encode 32 (Z.abs (Value deposit)) ++ be_encode 8 (Gas deposit) ++
      [match To deposit with None => Byte.x01 | Some _ => Byte.x00 end] ++ TxData deposit).

Section DepositLog.
Context `{Keccak}.

Definition DepositEventABIHash : Hash := Keccak256Hash (bytes_of DepositEventABI).

(** [UnmarshalDepositLogEvent]. *)
Definition UnmarshalDepositLogEvent (ev : Log) : result DepositTx :=
  match lg_Topics ev with
  | [topic0; topic1; topic2; topic3] =>
      let len := Z.of_nat (length (lg_Data ev)) in
      if negb (topic0 =? DepositEventABIHash) then Err (ErrNew "invalid deposit event selector") else
      if len <? 64 then Err (ErrNew "incomplate opaqueData slice header") else
      if negb (len mod 32 =? 0) then Err (ErrNew "expected log data to be multiple of 32 bytes") else
      let from := topic1 mod 256 ^ 20 in
      let to := topic2 mod 256 ^ 20 in
      let version := topic3 in
      let opaqueContentOffset := be_decode (take 32 (lg_Data ev)) in
      if negb (opaqueContentOffset <? two64) || negb (opaqueContentOffset =? 32) then
        Err (ErrNew "invalid opaqueData slice header offset") else
      let opaqueContentLength := be_decode (take 32 (drop 32 (lg_Data ev))) in
      if negb (opaqueContentLength <? two64) || (len - 64 <? opaqueContentLength)
         || (opaqueContentLength +u 32 <=? len - 64) then
        Err (ErrNew "invalid opaqueData slice header length") else
      let opaqueData := take (Z.to_nat opaqueContentLength) (drop 64 (lg_Data ev)) in
      let source := mkUserSource (lg_BlockHash ev) (lg_Index ev) in
      let dep := mkDepositTx (UserDepositSource_SourceHash source) from None None 0 0 false [] in
      if version =? DepositEventVersion0 then
        map_err (ErrWrap "failed to decode deposit") (unmarshalDepositVersion0 dep to opaqueData)
      else Err (ErrNew "invalid deposit version")
  | _ => Err (ErrNew "expected 4 event topics")
  end.

(** [MarshalDepositLogEvent]. *)
Definition MarshalDepositLogEvent (depositContractAddr : Address) (deposit : DepositTx)
    : result Log :=
  let toBytes := default 0 (To deposit) in
  let topics := [DepositEventABIHash; From deposit; toBytes; DepositEventVersion0] in
  let? opaqueData := marshalDepositVersion0 deposit in
  let data := replicate 24 Byte.x00 ++ be_encode 8 32 ++
              replicate 24 Byte.x00 ++ be_encode 8 (Z.of_nat (length opaqueData)) ++ opaqueData in
  let data' := if negb (length data mod 32 =? 0)%nat
               then data ++ replicate (32 - length data mod 32) Byte.x00 else data in
  Ok (mkLog depositContractAddr topics data' 0 0).

(** ** All deposits of a block *)

(** A log is a deposit when the deposit contract emitted it with the deposit
    event as first topic. *)
Definition is_deposit_log (depositContractAddr : Address) (log : Log) : bool :=
  (lg_Address log =? depositContractAddr) &&
  match lg_Topics log with t0 :: _ => t0 =? DepositEventABIHash | [] => false end.

(** One iteration of the loops of [UserDeposits] over a log. *)
Definition user_deposits_log (depositContractAddr : Address)
    (acc : list DepositTx * option error) (log : Log) : list DepositTx * option error :=
  if is_deposit_log depositContractAddr log then
    match UnmarshalDepositLogEvent log with
    | Err err => (acc.1, multierror_Append acc.2 (ErrWrap "malformatted L1 deposit log" err))
    | Ok dep => (acc.1 ++ [dep], acc.2)
    | Panic => acc
    end
  else acc.

(** One receipt. *)
Definition user_deposits_receipt (depositContractAddr : Address)
    (acc : list DepositTx * option error) (rec : Receipt) : list DepositTx * option error :=
  if negb (Status rec =? ReceiptStatusSuccessful) then acc
  else foldl (user_deposits_log depositContractAddr) acc (Logs rec).

(** [UserDeposits]: the deposits that decode, and the errors of those that do not. *)
Definition UserDeposits (receipts : list Receipt) (depositContractAddr : Address)
    : list DepositTx * option error :=
  foldl (user_deposits_receipt depositContractAddr) ([], None) receipts.

Context `{TxCodec}.

(** One iteration of the loop of [DeriveDeposits]. *)
Definition derive_deposits_tx (acc : list Data * option error) (tx : DepositTx)
    : list Data * option error :=
  match tx_MarshalBinary tx with
  | Ok opaqueTx => (acc.1 ++ [opaqueTx], acc.2)
  | _ => (acc.1, multierror_Append acc.2 (ErrNew "failed to encode user tx"))
  end.

(** [DeriveDeposits]. *)
Definition DeriveDeposits (receipts : list Receipt) (depositContractAddr : Address)
    : list Data * option error :=
  let '(userDeposits, err) := UserDeposits receipts depositContractAddr in
  let result := match err with Some e => multierror_Append None e | None => None end in
  foldl derive_deposits_tx ([], result) userDeposits.
End DepositLog.

(** ** Lemmas *)

(** The deposits the log format can carry. *)
Record deposit_wf (dep : DepositTx) : Prop := {
  dw_from : is_address (From dep);
  dw_to to : To dep = Some to -> is_address to;
  dw_mint m : Mint dep = Some m -> 0 < m /\ is_u256 m;
  dw_value : is_u256 (Value dep);
  dw_gas : is_u64 (Gas dep);
  dw_system : IsSystemTransaction dep = false;
  dw_data : Z.of_nat (length (TxData dep)) + 200 < two64 }.

(** The opaque data of a well-formed deposit. *)
Definition opaque_of (dep : DepositTx) : Data :=
  be_encode 32 (default 0 (Mint dep)) ++ be_encode 32 (Value dep) ++ be_encode 8 (Gas dep) ++
  [match To dep with None => Byte.x01 | Some _ => Byte.x00 end] ++ TxData dep.

Lemma length_opaque_of dep : length (opaque_of dep) = (73 + length (TxData dep))%nat.
Proof. unfold opaque_of. rewrite !length_app, !length_be_encode. simpl. lia. Qed.

Lemma be_encode_0 n : be_encode n 0 = replicate n Byte.x00.
Proof.
  induction n as [|n IH]; [done|]. unfold be_encode. fold be_encode. cbn [replicate].
  rewrite IH, Z.div_0_l by (pose proof (pow256_pos n); lia). done.
Qed.

Lemma marshalDepositVersion0_wf dep :
  deposit_wf dep -> marshalDepositVersion0 dep = Ok (opaque_of dep).
Proof.
  intros Hwf. unfold marshalDepositVersion0, opaque_of.
  pose proof (dw_value _ Hwf) as Hv. pose proof (BitLen_u256 _ Hv).
  assert (match Mint dep with
          | Some m => if 256 <? BitLen m then Err (ErrNew "mint value exceeds 256 bits")
                      else Ok (be_encode 32 (Z.abs m))
          | None => Ok (replicate 32 Byte.x00)
          end = Ok (be_encode 32 (default 0 (Mint dep)))) as ->.
  { destruct (Mint dep) as [m|] eqn:Em; simpl; [|by rewrite be_encode_0].
    destruct (dw_mint _ Hwf m Em) as [? Hm]. pose proof (BitLen_u256 _ Hm).
    case_if; [lia|]. by rewrite Z.abs_eq by lia. }
  case_if; [lia|]. rewrite Z.abs_eq; [done|]. apply Hv.
Qed.

(** The slices the parser takes. *)
Lemma opaque_parts (m v g : list byte) b d :
  length m = 32%nat -> length v = 32%nat -> length g = 8%nat ->
  let o := m ++ v ++ g ++ [b] ++ d in
  take 32 o = m /\ take 32 (drop 32 o) = v /\ take 8 (drop 64 o) = g /\
  o !! 72%nat = Some b /\ drop 73 o = d.
Proof.
  intros Hm Hv Hg o. unfold o. split_and!.
  - by apply take_app_exact.
  - rewrite drop_app_exact by done. by apply take_app_exact.
  - rewrite (app_assoc m v), drop_app_exact by (rewrite length_app; lia). by apply take_app_exact.
  - rewrite (app_assoc m v), (app_assoc (m ++ v)), lookup_app_r by (rewrite !length_app; lia).
    rewrite !length_app, Hm, Hv, Hg. done.
  - rewrite (app_assoc m v), (app_assoc (m ++ v)), (app_assoc ((m ++ v) ++ g)).
    apply drop_app_exact. rewrite !length_app. simpl. lia.
Qed.

Lemma unmarshalDepositVersion0_opaque dep0 to dep :
  deposit_wf dep -> (forall t, To dep = Some t -> to = t) -> To dep0 = None ->
  unmarshalDepositVersion0 dep0 to (opaque_of dep) =
  Ok (mkDepositTx (SourceHash dep0) (From dep0) (To dep) (Mint dep) (Value dep) (Gas dep)
        (IsSystemTransaction dep0) (TxData dep)).
Proof.
  intros Hwf Hto Hto0. unfold unmarshalDepositVersion0. rewrite length_opaque_of.
  destruct (Nat.ltb_spec (73 + length (TxData dep)) (32 + 32 + 8 + 1)); [lia|].
  unfold opaque_of.
  destruct (opaque_parts (be_encode 32 (default 0 (Mint dep))) (be_encode 32 (Value dep))
    (be_encode 8 (Gas dep)) (match To dep with None => Byte.x01 | Some _ => Byte.x00 end)
    (TxData dep)) as (H1 & H2 & H3 & H4 & H5); [apply length_be_encode..|].
  rewrite H1, H2, H3, H4, H5.
  rewrite (be_decode_encode_small 8) by apply (dw_gas _ Hwf).
  rewrite (be_decode_encode_small 32 (Value dep)) by apply (dw_value _ Hwf).
  rewrite (be_decode_encode_small 32)
    by (destruct (Mint dep) as [z|] eqn:E; simpl; [apply (dw_mint _ Hwf z E)|lia]).
  assert ((if default 0 (Mint dep) =? 0 then None else Some (default 0 (Mint dep))) = Mint dep) as ->.
  { destruct (Mint dep) as [z|] eqn:E; simpl; [|done]. pose proof (dw_mint _ Hwf z E).
    by destruct (Z.eqb_spec z 0); [lia|]. }
  destruct (Z.ltb_spec (Gas dep) two64) as [_|Hge]; [|pose proof (dw_gas _ Hwf) as []; lia].
  cbn [negb]. f_equal. f_equal.
  destruct (To dep) as [t|]; [by rewrite (Hto t eq_refl)|done].
Qed.

(** A log word holding a [uint64], and the value read back. *)
Lemma be_decode_zeros n bs : be_decode (replicate n Byte.x00 ++ bs) = be_decode bs.
Proof. induction n as [|n IH]; [done|]. cbn [replicate app]. unfold be_decode. fold be_decode. by rewrite IH. Qed.

Lemma be_decode_WriteUint64 n : is_u64 n -> be_decode (WriteUint64 n) = n.
Proof.
  intros Hn. unfold WriteUint64, uint64EmptyPadding. rewrite be_decode_zeros.
  by apply be_decode_encode_small.
Qed.

(** Log data in the shape of an event with one [bytes] argument: offset, length,
    content, padding. *)
Lemma abi_bytes_parts (o l content pad : list byte) :
  length o = 32%nat -> length l = 32%nat ->
  let data := o ++ l ++ content ++ pad in
  take 32 data = o /\ take 32 (drop 32 data) = l /\
  take (length content) (drop 64 data) = content /\
  length data = (64 + length content + length pad)%nat.
Proof.
  intros Ho Hl data. unfold data. split_and!.
  - by apply take_app_exact.
  - rewrite drop_app_exact by done. by apply take_app_exact.
  - rewrite (app_assoc o l), drop_app_exact by (rewrite length_app; lia). by apply take_app_exact.
  - rewrite !length_app. lia.
Qed.

(** The padding of the marshalled log. *)
Definition log_padding (opaqueData : Data) : Data :=
  replicate ((32 - (64 + length opaqueData) mod 32) mod 32) Byte.x00.

Lemma MarshalDepositLogEvent_wf `{Keccak} addr dep :
  deposit_wf dep ->
  MarshalDepositLogEvent addr dep = Ok (mkLog addr
    [DepositEventABIHash; From dep; default 0 (To dep); DepositEventVersion0]
    (WriteUint64 32 ++ WriteUint64 (Z.of_nat (length (opaque_of dep))) ++ opaque_of dep ++
     log_padding (opaque_of dep)) 0 0).
Proof.
  intros Hwf. unfold MarshalDepositLogEvent. rewrite marshalDepositVersion0_wf by done.
  set (o := opaque_of dep). do 2 f_equal.
  set (l := be_encode 8 (Z.of_nat (length o))).
  assert (Hl : length l = 8%nat) by apply length_be_encode.
  assert (length (replicate 24 Byte.x00 ++ be_encode 8 32 ++ replicate 24 Byte.x00 ++ l ++ o)
          = (64 + length o)%nat) as ->.
  { rewrite !length_app, !length_replicate, length_be_encode, Hl. lia. }
  unfold WriteUint64, uint64EmptyPadding, log_padding. rewrite <- !app_assoc. fold l.
  pose proof (Nat.mod_upper_bound (64 + length o) 32 ltac:(lia)) as Hlt.
  destruct (Nat.eqb_spec ((64 + length o) mod 32) 0) as [->|Hne]; cbn [negb].
  - by rewrite app_nil_r.
  - rewrite (Nat.mod_small (32 - _)) by lia. done.
Qed.

Lemma log_padding_aligned (o : Data) :
  (64 + Z.of_nat (length o) + Z.of_nat (length (log_padding o))) mod 32 = 0 /\
  (length (log_padding o) < 32)%nat.
Proof.
  unfold log_padding. rewrite length_replicate.
  pose proof (Nat.mod_upper_bound (64 + length o) 32 ltac:(lia)) as Hlt.
  pose proof (Nat.mod_upper_bound (32 - (64 + length o) mod 32) 32 ltac:(lia)).
  split; [|done].
  pose proof (Nat.div_mod (64 + length o) 32 ltac:(lia)) as Hd.
  destruct (decide ((64 + length o) mod 32 = 0)%nat) as [E|E].
  - rewrite E in *. rewrite Nat.sub_0_r, Nat.Div0.mod_same.
    apply Z.mod_divide; [lia|]. exists (Z.of_nat ((64 + length o) / 32)). lia.
  - rewrite Nat.mod_small by lia.
    apply Z.mod_divide; [lia|]. exists (Z.of_nat ((64 + length o) / 32) + 1). lia.
Qed.

Section DepositProperties.
Context `{Keccak}.

(** The deposit derived from a log at a position of L1. *)
Definition with_source (dep : DepositTx) (blockHash index : Z) : DepositTx :=
  mkDepositTx (UserDepositSource_SourceHash (mkUserSource blockHash index)) (From dep) (To dep)
    (Mint dep) (Value dep) (Gas dep) (IsSystemTransaction dep) (TxData dep).

(** Every deposit the format can carry survives the trip through an L1 log: the
    event encoding of the deposit decodes, at any position of L1, to the same deposit
    with the source hash of that position. *)
Theorem deposit_log_roundtrip addr dep blockHash index :
  deposit_wf dep ->
  exists log, MarshalDepositLogEvent addr dep = Ok log /\ lg_Address log = addr /\
    UnmarshalDepositLogEvent (mkLog (lg_Address log) (lg_Topics log) (lg_Data log) blockHash index) =
    Ok (with_source dep blockHash index).
Proof.
  intros Hwf. rewrite MarshalDepositLogEvent_wf by done. eexists. split_and!; [done..|].
  cbn [lg_Topics lg_Data lg_Address]. unfold UnmarshalDepositLogEvent.
  cbn [lg_Topics lg_Data lg_BlockHash lg_Index]. set (o := opaque_of dep).
  destruct (log_padding_aligned o) as [Hmod Hpad].
  destruct (abi_bytes_parts (WriteUint64 32) (WriteUint64 (Z.of_nat (length o))) o (log_padding o))
    as (H1 & H2 & H3 & H4); [apply length_WriteUint64..|].
  assert (Ho : is_u64 (Z.of_nat (length o))).
  { unfold o. rewrite length_opaque_of. pose proof (dw_data _ Hwf). unfold is_u64. lia. }
  assert (Ho32 : Z.of_nat (length o) + 32 < two64).
  { unfold o. rewrite length_opaque_of. pose proof (dw_data _ Hwf). lia. }
  rewrite H1, H2, H4, !Nat2Z.inj_add, Z.eqb_refl. cbn [negb].
  destruct (Z.ltb_spec (Z.of_nat 64 + Z.of_nat (length o) + Z.of_nat (length (log_padding o))) 64); [lia|].
  change (Z.of_nat 64) with 64. rewrite Hmod, !be_decode_WriteUint64 by (done || unfold is_u64, two64; lia).
  cbn [negb orb Z.eqb Z.ltb Z.compare].
  destruct Ho as [_ Ho]. apply Z.ltb_lt in Ho as ->. cbn [negb orb].
  rewrite u64_small by lia.
  destruct (Z.ltb_spec (64 + Z.of_nat (length o) + Z.of_nat (length (log_padding o)) - 64)
    (Z.of_nat (length o))); [lia|]. cbn [orb].
  destruct (Z.leb_spec (Z.of_nat (length o) + 32)
    (64 + Z.of_nat (length o) + Z.of_nat (length (log_padding o)) - 64)); [lia|].
  rewrite Nat2Z.id, H3. unfold o. rewrite unmarshalDepositVersion0_opaque; [|done| |done].
  - cbn. rewrite Z.mod_small by apply (dw_from _ Hwf). unfold with_source.
    by rewrite (dw_system _ Hwf).
  - intros t Ht. rewrite Ht. cbn. apply Z.mod_small, (dw_to _ Hwf t Ht).
Qed.

(** The deposit logs of a block, in order. *)
Definition deposit_logs (addr : Address) (receipts : list Receipt) : list Log :=
  filter (is_deposit_log addr)
    (concat (Logs <$> filter (fun rec => Status rec = ReceiptStatusSuccessful) receipts)).

Lemma UnmarshalDepositLogEvent_no_panic ev : UnmarshalDepositLogEvent ev <> Panic.
Proof.
  unfold UnmarshalDepositLogEvent. destruct (lg_Topics ev) as [|a [|b [|c [|d [|]]]]]; try done.
  repeat (case_if; [done|]). case_if; [|done].
  assert (forall dep to o, unmarshalDepositVersion0 dep to o <> Panic) as Hu.
  { intros dep to o. unfold unmarshalDepositVersion0. by repeat case_if. }
  match goal with |- map_err _ (unmarshalDepositVersion0 ?d ?t ?o) <> _ =>
    specialize (Hu d t o); by destruct (unmarshalDepositVersion0 d t o) end.
Qed.

(** A fold that collects results and errors ends without an error exactly when every
    element gave a result. *)
Lemma collect_errors_iff {A B} (f : A -> result B) (wrap : error -> error)
    (step : list B * option error -> A -> list B * option error) :
  (forall acc x, step acc x = match f x with
                              | Ok y => (acc.1 ++ [y], acc.2)
                              | Err e => (acc.1, multierror_Append acc.2 (wrap e))
                              | Panic => (acc.1, multierror_Append acc.2 (wrap EOF))
                              end) ->
  forall l acc err out,
    foldl step (acc, err) l = (out, None) <->
    err = None /\ exists ys, out = acc ++ ys /\ Forall2 (fun x y => f x = Ok y) l ys.
Proof.
  intros Hstep. induction l as [|x l IH]; intros acc err out; cbn [foldl].
  - split.
    + intros [= <- ->]. split; [done|]. exists []. by rewrite app_nil_r.
    + intros (-> & ys & -> & ->%Forall2_nil_inv_l). by rewrite app_nil_r.
  - rewrite Hstep. destruct (f x) as [y|e|] eqn:Ef; cbn [fst snd]; rewrite IH.
    + split.
      * intros (-> & ys & -> & Hys). split; [done|]. exists (y :: ys).
        rewrite <- app_assoc. split; [done|]. by constructor.
      * intros (-> & ys & -> & (y' & ys' & Hy & Hys & ->)%Forall2_cons_inv_l). split; [done|].
        exists ys'. rewrite <- app_assoc. rewrite Ef in Hy. by injection Hy as ->.
    + split; [by intros [?%multierror_Append_Some _]|].
      intros (_ & ys & _ & (y' & ys' & Hy & _)%Forall2_cons_inv_l). congruence.
    + split; [by intros [?%multierror_Append_Some _]|].
      intros (_ & ys & _ & (y' & ys' & Hy & _)%Forall2_cons_inv_l). congruence.
Qed.

(** [UserDeposits] is a fold over the deposit logs. *)
Definition deposit_step (acc : list DepositTx * option error) (log : Log) :=
  match UnmarshalDepositLogEvent log with
  | Ok dep => (acc.1 ++ [dep], acc.2)
  | Err err => (acc.1, multierror_Append acc.2 (ErrWrap "malformatted L1 deposit log" err))
  | Panic => (acc.1, multierror_Append acc.2 (ErrWrap "malformatted L1 deposit log" EOF))
  end.

Lemma UserDeposits_fold receipts addr :
  UserDeposits receipts addr = foldl deposit_step ([], None) (deposit_logs addr receipts).
Proof.
  unfold UserDeposits, deposit_logs. rewrite <- foldl_filter, <- foldl_concat, foldl_fmap.
  rewrite <- (foldl_filter (fun rec => Status rec = ReceiptStatusSuccessful)).
  apply foldl_ext. intros b rec. unfold user_deposits_receipt.
  destruct (Z.eqb_spec (Status rec) ReceiptStatusSuccessful);
    [rewrite decide_True by done|by rewrite decide_False by done].
  cbn [negb]. apply foldl_ext. intros acc log. unfold user_deposits_log, deposit_step.
  pose proof (UnmarshalDepositLogEvent_no_panic log).
  destruct (is_deposit_log addr log); [|done].
  by destruct (UnmarshalDepositLogEvent log).
Qed.

Lemma UserDeposits_iff receipts addr deps :
  UserDeposits receipts addr = (deps, None) <->
  Forall2 (fun log dep => UnmarshalDepositLogEvent log = Ok dep) (deposit_logs addr receipts) deps.
Proof.
  rewrite UserDeposits_fold.
  rewrite (collect_errors_iff UnmarshalDepositLogEvent (ErrWrap "malformatted L1 deposit log")) by done.
  naive_solver.
Qed.

Lemma DeriveDeposits_Forall2 `{TxCodec} receipts addr txs :
  DeriveDeposits receipts addr = (txs, None) <->
  Forall2 (fun log tx => exists dep,
      UnmarshalDepositLogEvent log = Ok dep /\ tx_MarshalBinary dep = Ok tx)
    (deposit_logs addr receipts) txs.
Proof.
  unfold DeriveDeposits. destruct (UserDeposits receipts addr) as [deps err] eqn:E.
  assert (Hstep : forall acc tx, derive_deposits_tx acc tx =
    match tx_MarshalBinary tx with
    | Ok y => (acc.1 ++ [y], acc.2)
    | Err e => (acc.1, multierror_Append acc.2 (ErrNew "failed to encode user tx"))
    | Panic => (acc.1, multierror_Append acc.2 (ErrNew "failed to encode user tx"))
    end) by (intros acc tx; unfold derive_deposits_tx; by destruct (tx_MarshalBinary tx)).
  rewrite (collect_errors_iff tx_MarshalBinary (fun _ => ErrNew "failed to encode user tx") _ Hstep).
  rewrite Forall2_compose. split.
  - intros (Herr & ys & -> & Hys). destruct err; [done|]. exists deps.
    split; [by apply UserDeposits_iff|done].
  - intros (deps' & Hdeps & Htxs). apply UserDeposits_iff in Hdeps. rewrite E in Hdeps.
    injection Hdeps as -> ->. split; [done|]. by exists txs.
Qed.

(** C39: the deposits of an L1 block are derived without an error exactly when every
    deposit event of its successful receipts decodes and re-encodes, and the derived
    transactions are then those of the events, one for each, in the order of the
    logs; nothing else is included and nothing is left out. *)
Theorem DeriveDeposits_iff `{TxCodec} receipts addr txs :
  DeriveDeposits receipts addr = (txs, None) <->
  Forall2 (fun log tx => exists dep,
      UnmarshalDepositLogEvent log = Ok dep /\ tx_MarshalBinary dep = Ok tx)
    (deposit_logs addr receipts) txs.
Proof. apply DeriveDeposits_Forall2. Qed.

(** Two different inputs with the same hash. *)
Definition collision (x y : list byte) : Prop := x <> y /\ Keccak256Hash x = Keccak256Hash y.

Definition source_wf (blockHash index : Z) : Prop := is_hash blockHash /\ is_u64 index.

Lemma source_input_inj h i h' i' :
  source_wf h i -> source_wf h' i' -> source_input h i = source_input h' i' -> h = h' /\ i = i'.
Proof.
  intros [Hh Hi] [Hh' Hi'] [Eh E]%app_inj_1; [|by rewrite !length_be_encode].
  apply app_inv_head in E. apply (f_equal be_decode) in E, Eh.
  by rewrite !be_decode_encode_small in E, Eh by done.
Qed.

Lemma domain_input_inj d x d' x' :
  is_u64 d -> is_u64 d' -> is_hash x -> is_hash x' ->
  domain_input d x = domain_input d' x' -> d = d' /\ x = x'.
Proof.
  intros Hd Hd' Hx Hx' E%app_inv_head. apply app_inj_1 in E as [Ed Ex]; [|by rewrite !length_be_encode].
  apply (f_equal be_decode) in Ed, Ex. by rewrite !be_decode_encode_small in Ed, Ex by done.
Qed.

(** Source hashes identify deposits.  Two deposits have the same source hash only
    if they are of the same kind and come from the same position (block and log index,
    or block and sequence number), or if one of the named pairs of inputs is a
    collision of the hash function; a user deposit and an L1-info deposit are kept
    apart by the domain alone. *)
Theorem source_hashes_identify `{!LawfulKeccak} h i h' i' :
  source_wf h i -> source_wf h' i' ->
  let id1 := Keccak256Hash (source_input h i) in
  let id2 := Keccak256Hash (source_input h' i') in
  (UserDepositSource_SourceHash (mkUserSource h i) = UserDepositSource_SourceHash (mkUserSource h' i') ->
     (h = h' /\ i = i') \/ collision (source_input h i) (source_input h' i') \/
     collision (domain_input 0 id1) (domain_input 0 id2)) /\
  (L1InfoDepositSource_SourceHash (mkInfoSource h i) = L1InfoDepositSource_SourceHash (mkInfoSource h' i') ->
     (h = h' /\ i = i') \/ collision (source_input h i) (source_input h' i') \/
     collision (domain_input 1 id1) (domain_input 1 id2)) /\
  (UserDepositSource_SourceHash (mkUserSource h i) = L1InfoDepositSource_SourceHash (mkInfoSource h' i') ->
     collision (domain_input 0 id1) (domain_input 1 id2)).
Proof.
  intros Hwf Hwf' id1 id2.
  assert (Hr1 : is_hash id1) by apply Keccak256Hash_range.
  assert (Hr2 : is_hash id2) by apply Keccak256Hash_range.
  assert (Hsame : forall d, is_u64 d ->
    Keccak256Hash (domain_input d id1) = Keccak256Hash (domain_input d id2) ->
    (h = h' /\ i = i') \/ collision (source_input h i) (source_input h' i') \/
    collision (domain_input d id1) (domain_input d id2)).
  { intros d Hd Heq. destruct (decide (domain_input d id1 = domain_input d id2)) as [E|E];
      [|by right; right].
    apply domain_input_inj in E as [_ E]; [|done..].
    destruct (decide (source_input h i = source_input h' i')) as [Es|Es]; [|by right; left].
    left. by apply source_input_inj. }
  split_and!; [apply (Hsame 0); done|apply (Hsame 1); done|].
  intros Heq. split; [|done]. intros [? _]%domain_input_inj; done.
Qed.
End DepositProperties.

(** ** Examples *)
Module DepositExamples.
Import ToyGeth.

Definition example_deposit : DepositTx :=
  mkDepositTx 0 17 (Some 23) (Some 1000) 2000 50000 false [Byte.x01; Byte.x02; Byte.x03].

Lemma example_deposit_wf : deposit_wf example_deposit.
Proof. split; try by_decide; [intros to|intros m]; intros [= <-]; by_decide. Qed.

Lemma deposit_log_roundtrip_witness :
  exists log, MarshalDepositLogEvent 99 example_deposit = Ok log /\ lg_Address log = 99 /\
    UnmarshalDepositLogEvent (mkLog (lg_Address log) (lg_Topics log) (lg_Data log) 5 6) =
    Ok (with_source example_deposit 5 6).
Proof. apply (deposit_log_roundtrip 99 example_deposit 5 6), example_deposit_wf. Defined.

Lemma source_hashes_identify_witness :
  let id1 := Keccak256Hash (source_input 5 6) in
  let id2 := Keccak256Hash (source_input 5 7) in
  (UserDepositSource_SourceHash (mkUserSource 5 6) = UserDepositSource_SourceHash (mkUserSource 5 7) ->
     (5 = 5 /\ 6 = 7) \/ collision (source_input 5 6) (source_input 5 7) \/
     collision (domain_input 0 id1) (domain_input 0 id2)) /\
  (L1InfoDepositSource_SourceHash (mkInfoSource 5 6) = L1InfoDepositSource_SourceHash (mkInfoSource 5 7) ->
     (5 = 5 /\ 6 = 7) \/ collision (source_input 5 6) (source_input 5 7) \/
     collision (domain_input 1 id1) (domain_input 1 id2)) /\
  (UserDepositSource_SourceHash (mkUserSource 5 6) = L1InfoDepositSource_SourceHash (mkInfoSource 5 7) ->
     collision (domain_input 0 id1) (domain_input 1 id2)).
Proof. apply (source_hashes_identify 5 6 5 7); by_decide. Defined.
End DepositExamples.
