(* ===== verification/SystemConfigUpdate.v ===== *)
(** * System configuration updates

    [op-node/rollup/derive/system_config.go]: logs of the system configuration
    contract change the batcher address, the fee parameters or the gas limit that
    derivation uses from the next L1 block on. *)
From S2P Require Import Prelude GoErrors GoBytes EthTypes Geth Solabi.
#[local] Open Scope Z_scope.

Definition SystemConfigUpdateBatcher : Hash := 0.
Definition SystemConfigUpdateGasConfig : Hash := 1.
Definition SystemConfigUpdateGasLimit : Hash := 2.
Definition SystemConfigUpdateUnsafeBlockSigner : Hash := 3.

Definition ConfigUpdateEventABI : string := "ConfigUpdate(uint256,uint8,bytes)".
Definition ConfigUpdateEventVersion0 : Hash := 0.

(** A critical error with a message. *)
Definition crit (msg : string) : error := NewCriticalError (ErrNew msg).

(** [if n, err := solabi.ReadUint64(reader); err != nil || n != v]. *)
Definition expect_uint64 (v : Z) (msg : string) : M (list byte) unit :=
  n <- wrapE (fun _ => crit msg) ReadUint64 ;;
  if negb (n =? v) then throw (crit msg) else ret tt.

(** [if !solabi.EmptyReader(reader)]. *)
Definition expect_empty : M (list byte) unit :=
  e <- EmptyReader ;; if negb e then throw (crit "too many bytes") else ret tt.

(** The three bodies of the [switch], up to the assignment. *)
Definition read_batcher : M (list byte) Address :=
  expect_uint64 32 "invalid pointer field" ;;;
  expect_uint64 32 "invalid length field" ;;;
  address <- wrapE (fun _ => crit "could not read address") ReadAddress ;;
  expect_empty ;;;
  ret address.

Definition read_gas_config : M (list byte) (Z * Z) :=
  expect_uint64 32 "invalid pointer field" ;;;
  expect_uint64 64 "invalid length field" ;;;
  overhead <- wrapE (fun _ => crit "could not read overhead") ReadEthBytes32 ;;
  scalar <- wrapE (fun _ => crit "could not read scalar") ReadEthBytes32 ;;
  expect_empty ;;;
  ret (overhead, scalar).

Definition read_gas_limit : M (list byte) Z :=
  expect_uint64 32 "invalid pointer field" ;;;
  expect_uint64 32 "invalid length field" ;;;
  gasLimit <- wrapE (fun _ => crit "could not read gas limit") ReadUint64 ;;
  expect_empty ;;;
  ret gasLimit.

(** The assignments to the destination. *)
Definition set_BatcherAddr (a : Address) (s : SystemConfig) : SystemConfig :=
  mkSystemConfig a (Overhead s) (Scalar s) (GasLimit s).
Definition set_GasConfig (os : Z * Z) (s : SystemConfig) : SystemConfig :=
  mkSystemConfig (BatcherAddr s) os.1 os.2 (GasLimit s).
Definition set_GasLimit (g : Z) (s : SystemConfig) : SystemConfig :=
  mkSystemConfig (BatcherAddr s) (Overhead s) (Scalar s) g.

(** Reads a value from [data] and assigns it. *)
Definition read_and_set {A} (read : M (list byte) A) (set : A -> SystemConfig -> SystemConfig)
    (data : Data) : M SystemConfig unit := fun sys =>
  match (read data).1 with
  | Ok a => (Ok tt, set a sys)
  | Err e => (Err e, sys)
  | Panic => (Panic, sys)
  end.

Section SystemConfigUpdate.
Context `{Keccak}.

Definition ConfigUpdateEventABIHash : Hash := Keccak256Hash (bytes_of ConfigUpdateEventABI).

(** [ProcessSystemConfigUpdateLogEvent]. *)
Definition ProcessSystemConfigUpdateLogEvent (ev : Log) : M SystemConfig unit :=
  match lg_Topics ev with
  | [topic0; version; updateType] =>
      if negb (topic0 =? ConfigUpdateEventABIHash) then
        throw (ErrNew "invalid SystemConfig update event") else
      if negb (version =? ConfigUpdateEventVersion0) then
        throw (ErrNew "unrecognized SystemConfig update event version") else
      if updateType =? SystemConfigUpdateBatcher then
        read_and_set read_batcher set_BatcherAddr (lg_Data ev)
      else if updateType =? SystemConfigUpdateGasConfig then
        read_and_set read_gas_config set_GasConfig (lg_Data ev)
      else if updateType =? SystemConfigUpdateGasLimit then
        read_and_set read_gas_limit set_GasLimit (lg_Data ev)
      else if updateType =? SystemConfigUpdateUnsafeBlockSigner then ret tt
      else throw (ErrNew "unrecognized L1 sysCfg update type")
  | _ => throw (ErrNew "expected 3 event topics")
  end.

(** A log is a configuration update when the system configuration contract emitted
    it with the update event as first topic. *)
Definition is_config_log (addr : Address) (log : Log) : bool :=
  (lg_Address log =? addr) &&
  match lg_Topics log with t0 :: _ => t0 =? ConfigUpdateEventABIHash | [] => false end.

(** One log of the loop of [UpdateSystemConfigWithL1Receipts]. *)
Definition config_update_log (addr : Address) (acc : option error * SystemConfig) (log : Log)
    : option error * SystemConfig :=
  if is_config_log addr log then
    match ProcessSystemConfigUpdateLogEvent log acc.2 with
    | (Ok _, sys) => (acc.1, sys)
    | (Err err, sys) =>
        (multierror_Append acc.1 (ErrWrap "malformatted L1 system sysCfg log" err), sys)
    | (Panic, sys) => (acc.1, sys)
    end
  else acc.

Definition config_update_receipt (addr : Address) (acc : option error * SystemConfig)
    (rec : Receipt) : option error * SystemConfig :=
  if negb (Status rec =? ReceiptStatusSuccessful) then acc
  else foldl (config_update_log addr) acc (Logs rec).

(** [UpdateSystemConfigWithL1Receipts]: the collected error and the updated
    configuration. *)
Definition UpdateSystemConfigWithL1Receipts (sysCfg : SystemConfig) (receipts : list Receipt)
    (cfg : Config) : option error * SystemConfig :=
  foldl (config_update_receipt (L1SystemConfigAddress cfg)) (None, sysCfg) receipts.

(** ** Specification: the updates and their encodings *)

Inductive config_update (sys : SystemConfig) : Hash -> Data -> SystemConfig -> Prop :=
  | cu_batcher a : is_address a ->
      config_update sys SystemConfigUpdateBatcher
        (WriteUint64 32 ++ WriteUint64 32 ++ WriteAddress a) (set_BatcherAddr a sys)
  | cu_gas_config o s : is_u256 o -> is_u256 s ->
      config_update sys SystemConfigUpdateGasConfig
        (WriteUint64 32 ++ WriteUint64 64 ++ WriteEthBytes32 o ++ WriteEthBytes32 s)
        (set_GasConfig (o, s) sys)
  | cu_gas_limit g : is_u64 g ->
      config_update sys SystemConfigUpdateGasLimit
        (WriteUint64 32 ++ WriteUint64 32 ++ WriteUint64 g) (set_GasLimit g sys)
  | cu_unsafe_block_signer data :
      config_update sys SystemConfigUpdateUnsafeBlockSigner data sys.

(** The effect of one well-formed event. *)
Definition config_event (ev : Log) (sys sys' : SystemConfig) : Prop :=
  exists updateType,
    lg_Topics ev = [ConfigUpdateEventABIHash; ConfigUpdateEventVersion0; updateType] /\
    config_update sys updateType (lg_Data ev) sys'.

(** The effect of a sequence of events. *)
Inductive config_events : list Log -> SystemConfig -> SystemConfig -> Prop :=
  | ce_nil sys : config_events [] sys sys
  | ce_cons ev evs sys sys1 sys2 : config_event ev sys sys1 -> config_events evs sys1 sys2 ->
      config_events (ev :: evs) sys sys2.

(** The update events of a block, in order. *)
Definition config_logs (addr : Address) (receipts : list Receipt) : list Log :=
  filter (is_config_log addr)
    (concat (Logs <$> filter (fun rec => Status rec = ReceiptStatusSuccessful) receipts)).

(** ** Lemmas *)

Lemma expect_uint64_iff v msg r r' u :
  is_u64 v -> expect_uint64 v msg r = (Ok u, r') <-> r = WriteUint64 v ++ r'.
Proof.
  intros Hv. unfold expect_uint64. rewrite bind_Ok. split.
  - intros (n & r1 & [-> Hn]%wrapE_Ok%ReadUint64_iff & H1).
    destruct (Z.eqb_spec n v); cbn [negb] in H1; [|done]. injection H1 as _ <-. by subst.
  - intros ->. exists v, r'. rewrite wrapE_Ok, ReadUint64_iff, Z.eqb_refl. by destruct u.
Qed.

Lemma expect_empty_iff r r' u : expect_empty r = (Ok u, r') <-> r = [] /\ r' = [].
Proof.
  unfold expect_empty. rewrite bind_Ok. split.
  - intros (e & r1 & H1 & H2). destruct e; cbn [negb] in H2; [|done].
    apply EmptyReader_iff in H1 as [-> ->]. by injection H2 as _ <-.
  - intros [-> ->]. exists true, []. by destruct u.
Qed.

Lemma read_batcher_iff data a r' :
  read_batcher data = (Ok a, r') <->
  data = WriteUint64 32 ++ WriteUint64 32 ++ WriteAddress a /\ is_address a /\ r' = [].
Proof.
  unfold read_batcher. rewrite bind_Ok. split.
  - intros ([] & r1 & ->%expect_uint64_iff & H1); [|by_decide].
    apply bind_Ok in H1 as ([] & r2 & ->%expect_uint64_iff & H1); [|by_decide].
    apply bind_Ok in H1 as (a' & r3 & [-> Ha]%wrapE_Ok%ReadAddress_iff & H1).
    apply bind_Ok in H1 as ([] & r4 & [-> ->]%expect_empty_iff & [= <- <-]).
    by rewrite app_nil_r.
  - intros (-> & Ha & ->). eexists tt, _. split; [by apply expect_uint64_iff; [by_decide|]|].
    apply bind_Ok. eexists tt, _. split; [by apply expect_uint64_iff; [by_decide|]|].
    apply bind_Ok. exists a, []. rewrite wrapE_Ok, ReadAddress_iff, app_nil_r. split; [done|].
    apply bind_Ok. by exists tt, [].
Qed.

Lemma read_gas_limit_iff data g r' :
  read_gas_limit data = (Ok g, r') <->
  data = WriteUint64 32 ++ WriteUint64 32 ++ WriteUint64 g /\ is_u64 g /\ r' = [].
Proof.
  unfold read_gas_limit. rewrite bind_Ok. split.
  - intros ([] & r1 & ->%expect_uint64_iff & H1); [|by_decide].
    apply bind_Ok in H1 as ([] & r2 & ->%expect_uint64_iff & H1); [|by_decide].
    apply bind_Ok in H1 as (a' & r3 & [-> Ha]%wrapE_Ok%ReadUint64_iff & H1).
    apply bind_Ok in H1 as ([] & r4 & [-> ->]%expect_empty_iff & [= <- <-]).
    by rewrite app_nil_r.
  - intros (-> & Ha & ->). eexists tt, _. split; [by apply expect_uint64_iff; [by_decide|]|].
    apply bind_Ok. eexists tt, _. split; [by apply expect_uint64_iff; [by_decide|]|].
    apply bind_Ok. exists g, []. rewrite wrapE_Ok, ReadUint64_iff, app_nil_r. split; [done|].
    apply bind_Ok. by exists tt, [].
Qed.

Lemma read_gas_config_iff data os r' :
  read_gas_config data = (Ok os, r') <->
  data = WriteUint64 32 ++ WriteUint64 64 ++ WriteEthBytes32 os.1 ++ WriteEthBytes32 os.2 /\
  is_u256 os.1 /\ is_u256 os.2 /\ r' = [].
Proof.
  unfold read_gas_config. rewrite bind_Ok. split.
  - intros ([] & r1 & ->%expect_uint64_iff & H1); [|by_decide].
    apply bind_Ok in H1 as ([] & r2 & ->%expect_uint64_iff & H1); [|by_decide].
    apply bind_Ok in H1 as (o & r3 & [-> Ho]%wrapE_Ok%ReadEthBytes32_iff & H1).
    apply bind_Ok in H1 as (s & r4 & [-> Hs]%wrapE_Ok%ReadEthBytes32_iff & H1).
    apply bind_Ok in H1 as ([] & r5 & [-> ->]%expect_empty_iff & [= <- <-]).
    by rewrite app_nil_r.
  - destruct os as [o s]. cbn [fst snd]. intros (-> & Ho & Hs & ->).
    eexists tt, _. split; [by apply expect_uint64_iff; [by_decide|]|].
    apply bind_Ok. eexists tt, _. split; [by apply expect_uint64_iff; [by_decide|]|].
    apply bind_Ok. eexists o, _. rewrite wrapE_Ok, ReadEthBytes32_iff. split; [done|].
    apply bind_Ok. exists s, []. rewrite wrapE_Ok, ReadEthBytes32_iff, app_nil_r. split; [done|].
    apply bind_Ok. by exists tt, [].
Qed.

Lemma read_and_set_iff {A} (read : M (list byte) A) set data sys sys' u :
  read_and_set read set data sys = (Ok u, sys') <->
  exists a r', read data = (Ok a, r') /\ sys' = set a sys.
Proof.
  unfold read_and_set. destruct (read data) as [[a|e|] r] eqn:E; cbn [fst]; destruct u; naive_solver.
Qed.

Lemma read_and_set_error {A} (read : M (list byte) A) set data sys e sys' :
  read_and_set read set data sys = (Err e, sys') -> sys' = sys.
Proof. unfold read_and_set. destruct (read data) as [[?|?|] ?]; cbn [fst]; naive_solver. Qed.

(** The readers do not panic. *)
Lemma expect_uint64_no_panic v msg r : (expect_uint64 v msg r).1 <> Panic.
Proof.
  apply bind_no_panic; [apply wrapE_no_panic, ReadUint64_no_panic|]. intros n r1 _. by case_if.
Qed.

Lemma expect_empty_no_panic r : (expect_empty r).1 <> Panic.
Proof. by destruct r. Qed.

Ltac solve_no_panic :=
  repeat (apply bind_no_panic;
    [first [apply expect_uint64_no_panic | apply expect_empty_no_panic
           | apply wrapE_no_panic; first [apply ReadAddress_no_panic | apply ReadUint64_no_panic
                                         | apply ReadEthBytes32_no_panic]]
    |intros ? ? _]); done.

Lemma read_batcher_no_panic r : (read_batcher r).1 <> Panic.
Proof. solve_no_panic. Qed.
Lemma read_gas_config_no_panic r : (read_gas_config r).1 <> Panic.
Proof. solve_no_panic. Qed.
Lemma read_gas_limit_no_panic r : (read_gas_limit r).1 <> Panic.
Proof. solve_no_panic. Qed.

Lemma read_and_set_no_panic {A} (read : M (list byte) A) set data sys :
  (read data).1 <> Panic -> (read_and_set read set data sys).1 <> Panic.
Proof. unfold read_and_set. by destruct (read data).1. Qed.

Lemma Process_no_panic ev sys : (ProcessSystemConfigUpdateLogEvent ev sys).1 <> Panic.
Proof.
  unfold ProcessSystemConfigUpdateLogEvent.
  destruct (lg_Topics ev) as [|a [|b [|c []]]]; try done.
  repeat case_if; try done; apply read_and_set_no_panic;
    [apply read_batcher_no_panic|apply read_gas_config_no_panic|apply read_gas_limit_no_panic].
Qed.

Lemma Process_error ev sys e sys' :
  ProcessSystemConfigUpdateLogEvent ev sys = (Err e, sys') -> sys' = sys.
Proof.
  unfold ProcessSystemConfigUpdateLogEvent.
  destruct (lg_Topics ev) as [|a [|b [|c []]]]; try by intros [= _ <-].
  repeat case_if; try (by intros [= _ <-]); by apply read_and_set_error.
Qed.

Lemma Process_iff ev sys sys' :
  ProcessSystemConfigUpdateLogEvent ev sys = (Ok tt, sys') <-> config_event ev sys sys'.
Proof.
  unfold config_event, ProcessSystemConfigUpdateLogEvent. split.
  - destruct (lg_Topics ev) as [|t0 [|v [|ty []]]]; try done.
    repeat case_if; intros Hx; try done; exists ty; (split; [congruence|]).
    + apply read_and_set_iff in Hx as (a & r' & (-> & Ha & _)%read_batcher_iff & ->).
      rewrite E1. by constructor.
    + apply read_and_set_iff in Hx as ([o s] & r' & (-> & Ho & Hs & _)%read_gas_config_iff & ->).
      rewrite E2. by constructor.
    + apply read_and_set_iff in Hx as (a & r' & (-> & Ha & _)%read_gas_limit_iff & ->).
      rewrite E3. by constructor.
    + injection Hx as <-. rewrite E4. constructor.
  - intros (ty & -> & Hu). rewrite !Z.eqb_refl. cbn [negb].
    inversion Hu; subst; cbn [Z.eqb]; try done; apply read_and_set_iff.
    + exists a, []. by rewrite read_batcher_iff.
    + exists (o, s), []. by rewrite read_gas_config_iff.
    + exists g, []. by rewrite read_gas_limit_iff.
Qed.

(** A configuration update event is applied exactly when its topics and its data
    are the ABI encoding of one of the known updates, and then it changes only the
    field the update names; a rejected event leaves the configuration as it was and
    no event makes the decoder panic. *)
Theorem ProcessSystemConfigUpdate_spec ev sys :
  (forall sys', ProcessSystemConfigUpdateLogEvent ev sys = (Ok tt, sys') <-> config_event ev sys sys') /\
  (forall e sys', ProcessSystemConfigUpdateLogEvent ev sys = (Err e, sys') -> sys' = sys) /\
  (ProcessSystemConfigUpdateLogEvent ev sys).1 <> Panic.
Proof.
  split_and!; [intros; apply Process_iff|intros; by eapply Process_error|apply Process_no_panic].
Qed.

Lemma config_update_logs_iff addr logs sys err sys' :
  foldl (config_update_log addr) (err, sys) logs = (None, sys') <->
  err = None /\ config_events (filter (is_config_log addr) logs) sys sys'.
Proof.
  revert err sys. induction logs as [|ev logs IH]; intros err sys; cbn [foldl].
  { split; [intros [= -> ->]; split; [done|constructor]|].
    intros [-> Hx]. by inversion Hx. }
  rewrite filter_cons. unfold config_update_log at 2. cbn [fst snd].
  destruct (decide (is_config_log addr ev)) as [Ei%Is_true_true|Ei%Is_true_false];
    rewrite Ei; [|apply IH].
  pose proof (Process_no_panic ev sys).
  destruct (ProcessSystemConfigUpdateLogEvent ev sys) as [[[]|e|] sys1] eqn:Ep; [| |done]; rewrite IH.
  - apply Process_iff in Ep. split.
    + intros [-> Hx]. split; [done|]. by econstructor.
    + intros [-> Hx]. split; [done|]. inversion Hx as [|? ? ? s1 ? Hev Hrest]; subst.
      apply Process_iff in Ep, Hev. congruence.
  - split; [by intros [?%multierror_Append_Some _]|].
    intros [_ Hx]. inversion Hx as [|? ? ? s1 ? Hev Hrest]; subst.
    apply Process_iff in Hev. congruence.
Qed.

Lemma UpdateSystemConfig_config_events sysCfg receipts cfg sys' :
  UpdateSystemConfigWithL1Receipts sysCfg receipts cfg = (None, sys') <->
  config_events (config_logs (L1SystemConfigAddress cfg) receipts) sysCfg sys'.
Proof.
  unfold UpdateSystemConfigWithL1Receipts, config_logs.
  rewrite (foldl_ext _ (fun acc rec => if decide (Status rec = ReceiptStatusSuccessful)
      then foldl (config_update_log (L1SystemConfigAddress cfg)) acc (Logs rec) else acc)).
  2:{ intros acc rec. unfold config_update_receipt.
      destruct (Z.eqb_spec (Status rec) ReceiptStatusSuccessful);
        [rewrite decide_True by done|rewrite decide_False by done]; done. }
  rewrite foldl_filter, <- (foldl_fmap (foldl (config_update_log _))), foldl_concat.
  rewrite config_update_logs_iff. naive_solver.
Qed.

(** The configuration for the next L1 block is the current one with every update
    event of the successful receipts applied in order; there is no error exactly when
    each of those events is a well-formed update. *)
Theorem UpdateSystemConfig_iff sysCfg receipts cfg sys' :
  UpdateSystemConfigWithL1Receipts sysCfg receipts cfg = (None, sys') <->
  config_events (config_logs (L1SystemConfigAddress cfg) receipts) sysCfg sys'.
Proof. apply UpdateSystemConfig_config_events. Qed.
End SystemConfigUpdate.
