(* ===== verification/L1Info.v ===== *)
(** * The L1 information deposit

    [op-node/rollup/derive/l1_block_info.go]: the first transaction of every L2
    block carries the L1 origin, the sequence number and the system configuration
    as the call data of [setL1BlockValues]. *)
From S2P Require Import Prelude GoErrors GoBytes EthTypes Geth Solabi Deposits.
#[local] Open Scope Z_scope.

Definition L1InfoFuncSignature : string :=
  "setL1BlockValues(uint64,uint64,uint256,bytes32,uint64,bytes32,uint256,uint256)".
Definition L1InfoArguments : nat := 8.
Definition L1InfoLen : nat := 4 + 32 * L1InfoArguments.

Definition L1InfoDepositerAddress : Address := 0xdeaddeaddeaddeaddeaddeaddeaddeaddead0001.
Definition L1BlockAddress : Address := 0x4200000000000000000000000000000000000015.

Definition RegolithSystemTxGas : Z := 1000000.

Record L1BlockInfo := mkL1BlockInfo {
  li_Number : Z;
  li_Time : Z;
  li_BaseFee : Z;
  li_BlockHash : Hash;
  li_SequenceNumber : Z;
  li_BatcherAddr : Address;
  li_L1FeeOverhead : Z;
  li_L1FeeScalar : Z }.

#[export] Instance L1BlockInfo_eq_dec : EqDecision L1BlockInfo.
Proof. solve_decision. Defined.

Section L1Info.
Context `{Keccak}.

Definition L1InfoFuncBytes4 : list byte :=
  take 4 (be_encode 32 (Keccak256Hash (bytes_of L1InfoFuncSignature))).

(** [L1BlockInfo.MarshalBinary]. *)
Definition L1BlockInfo_MarshalBinary (info : L1BlockInfo) : result Data :=
  let? baseFee := WriteUint256 (li_BaseFee info) in
  Ok (WriteSignature L1InfoFuncBytes4 ++
      WriteUint64 (li_Number info) ++
      WriteUint64 (li_Time info) ++
      baseFee ++
      WriteHash (li_BlockHash info) ++
      WriteUint64 (li_SequenceNumber info) ++
      WriteAddress (li_BatcherAddr info) ++
      WriteEthBytes32 (li_L1FeeOverhead info) ++
      WriteEthBytes32 (li_L1FeeScalar info)).

(** The reads of [L1BlockInfo.UnmarshalBinary]. *)
Definition read_L1BlockInfo : M (list byte) L1BlockInfo :=
  ReadAndValidateSignature L1InfoFuncBytes4 ;;;
  number <- ReadUint64 ;;
  time <- ReadUint64 ;;
  baseFee <- ReadUint256 ;;
  blockHash <- ReadHash ;;
  sequenceNumber <- ReadUint64 ;;
  batcherAddr <- ReadAddress ;;
  overhead <- ReadEthBytes32 ;;
  scalar <- ReadEthBytes32 ;;
  empty <- EmptyReader ;;
  if negb empty then throw (ErrNew "too many bytes")
  else ret (mkL1BlockInfo number time baseFee blockHash sequenceNumber batcherAddr overhead scalar).

(** [L1BlockInfo.UnmarshalBinary]; callers use the receiver only when there is no
    error, so the partly filled receiver of a failed call is not returned. *)
Definition L1BlockInfo_UnmarshalBinary (data : Data) : result L1BlockInfo :=
  if negb (length data =? L1InfoLen)%nat then Err (ErrNew "data is unexpected length")
  else (read_L1BlockInfo data).1.

(** [L1InfoDepositTxData]. *)
Definition L1InfoDepositTxData (data : Data) : result L1BlockInfo := L1BlockInfo_UnmarshalBinary data.

(** The information [L1InfoDeposit] stores. *)
Definition l1_info_of (seqNumber : Z) (block : BlockInfo) (sysCfg : SystemConfig) : L1BlockInfo :=
  mkL1BlockInfo (bi_NumberU64 block) (bi_Time block) (bi_BaseFee block) (bi_Hash block) seqNumber
    (BatcherAddr sysCfg) (Overhead sysCfg) (Scalar sysCfg).

(** [L1InfoDeposit]. *)
Definition L1InfoDeposit (seqNumber : Z) (block : BlockInfo) (sysCfg : SystemConfig)
    (regolith : bool) : result DepositTx :=
  let? data := L1BlockInfo_MarshalBinary (l1_info_of seqNumber block sysCfg) in
  let source := mkInfoSource (bi_Hash block) seqNumber in
  let out := mkDepositTx (L1InfoDepositSource_SourceHash source) L1InfoDepositerAddress
               (Some L1BlockAddress) None 0 150000000 true data in
  if regolith then
    Ok (mkDepositTx (SourceHash out) (From out) (To out) (Mint out) (Value out)
          RegolithSystemTxGas false (TxData out))
  else Ok out.

Context `{TxCodec}.

(** [L1InfoDepositBytes]. *)
Definition L1InfoDepositBytes (seqNumber : Z) (l1Info : BlockInfo) (sysCfg : SystemConfig)
    (regolith : bool) : result Data :=
  let? dep := map_err (ErrWrap "failed to create L1 info tx")
                (L1InfoDeposit seqNumber l1Info sysCfg regolith) in
  map_err (ErrWrap "failed to encode L1 info tx") (tx_MarshalBinary dep).

(** ** Round trips *)

(** The values an [L1BlockInfo] holds. *)
Record l1_info_wf (info : L1BlockInfo) : Prop := {
  lw_number : is_u64 (li_Number info);
  lw_time : is_u64 (li_Time info);
  lw_basefee : is_u256 (li_BaseFee info);
  lw_hash : is_hash (li_BlockHash info);
  lw_seq : is_u64 (li_SequenceNumber info);
  lw_batcher : is_address (li_BatcherAddr info);
  lw_overhead : is_u256 (li_L1FeeOverhead info);
  lw_scalar : is_u256 (li_L1FeeScalar info) }.

Lemma length_L1InfoFuncBytes4 : length L1InfoFuncBytes4 = 4%nat.
Proof. unfold L1InfoFuncBytes4. by rewrite length_take, length_be_encode. Qed.

(** What the reader accepts, as the bytes it consumes. *)
Lemma read_L1BlockInfo_iff data info r' :
  read_L1BlockInfo data = (Ok info, r') <->
  L1BlockInfo_MarshalBinary info = Ok data /\ l1_info_wf info /\ r' = [].
Proof.
  unfold read_L1BlockInfo. split.
  - intros (sg & r1 & [-> ->]%ReadAndValidateSignature_iff & Hx)%bind_Ok;
      [|apply length_L1InfoFuncBytes4].
    apply bind_Ok in Hx as (n & r2 & [-> ?]%ReadUint64_iff & Hx).
    apply bind_Ok in Hx as (t & r3 & [-> ?]%ReadUint64_iff & Hx).
    apply bind_Ok in Hx as (b & r4 & [-> ?]%ReadUint256_iff & Hx).
    apply bind_Ok in Hx as (h & r5 & [-> ?]%ReadHash_iff & Hx).
    apply bind_Ok in Hx as (sq & r6 & [-> ?]%ReadUint64_iff & Hx).
    apply bind_Ok in Hx as (a & r7 & [-> ?]%ReadAddress_iff & Hx).
    apply bind_Ok in Hx as (o & r8 & [-> ?]%ReadEthBytes32_iff & Hx).
    apply bind_Ok in Hx as (sc & r9 & [-> ?]%ReadEthBytes32_iff & Hx).
    apply bind_Ok in Hx as ([] & r10 & Hem & Hx); cbn [negb] in Hx; [|done].
    apply EmptyReader_iff in Hem as [-> ->]. injection Hx as <- <-.
    unfold L1BlockInfo_MarshalBinary. cbn [li_BaseFee]. rewrite WriteUint256_small by done.
    rewrite app_nil_r. done.
  - intros (Hm & [] & ->). revert Hm. unfold L1BlockInfo_MarshalBinary.
    rewrite WriteUint256_small by done. intros [= <-].
    apply bind_Ok. eexists _, _. rewrite ReadAndValidateSignature_iff by apply length_L1InfoFuncBytes4.
    split; [done|].
    repeat (apply bind_Ok; eexists _, _;
            rewrite ?ReadUint64_iff, ?ReadUint256_iff, ?ReadHash_iff, ?ReadAddress_iff, ?ReadEthBytes32_iff;
            split; [by split|]).
    by destruct info.
Qed.

Lemma L1BlockInfo_Marshal_wf info :
  l1_info_wf info -> exists data, L1BlockInfo_MarshalBinary info = Ok data.
Proof.
  intros []. unfold L1BlockInfo_MarshalBinary. rewrite WriteUint256_small by done. by eexists.
Qed.

Lemma length_L1BlockInfo_MarshalBinary info data :
  L1BlockInfo_MarshalBinary info = Ok data -> length data = L1InfoLen.
Proof.
  unfold L1BlockInfo_MarshalBinary, WriteUint256. case_if; [done|]. intros <-%Ok_inj.
  unfold WriteSignature. rewrite !length_app, length_L1InfoFuncBytes4. autorewrite with opstack.
  reflexivity.
Qed.

Lemma L1BlockInfo_Unmarshal_iff data info :
  L1BlockInfo_UnmarshalBinary data = Ok info <->
  L1BlockInfo_MarshalBinary info = Ok data /\ l1_info_wf info.
Proof.
  unfold L1BlockInfo_UnmarshalBinary. destruct (Nat.eqb_spec (length data) L1InfoLen) as [Hl|Hl]; cbn [negb].
  - destruct (read_L1BlockInfo data) as [r r'] eqn:E. cbn [fst]. split.
    + intros ->. apply read_L1BlockInfo_iff in E. naive_solver.
    + intros [Hm Hwf]. assert (read_L1BlockInfo data = (Ok info, [])) as E'
        by by apply read_L1BlockInfo_iff. congruence.
  - split; [done|]. by intros [?%length_L1BlockInfo_MarshalBinary _].
Qed.

(** The call data of the L1 information transaction decodes to a given record if
    and only if it is the encoding of that record and every field is in range: the
    encoding loses nothing, and no other byte string is accepted. *)
Theorem L1BlockInfo_roundtrip data info :
  L1BlockInfo_UnmarshalBinary data = Ok info <->
  L1BlockInfo_MarshalBinary info = Ok data /\ l1_info_wf info.
Proof. apply L1BlockInfo_Unmarshal_iff. Qed.

(** The encoded deposit carries the information it was made from. *)
Lemma L1InfoDepositBytes_decodes `{!LawfulTxCodec} seqNumber block sysCfg regolith :
  l1_info_wf (l1_info_of seqNumber block sysCfg) ->
  exists enc data, L1InfoDepositBytes seqNumber block sysCfg regolith = Ok (DepositTxType :: enc) /\
    tx_UnmarshalBinary (DepositTxType :: enc) =
      Ok (mkTransaction (Z_of_byte DepositTxType) data) /\
    L1InfoDepositTxData data = Ok (l1_info_of seqNumber block sysCfg).
Proof.
  intros Hwf. destruct (L1BlockInfo_Marshal_wf _ Hwf) as [data Hdata].
  assert (exists dep, L1InfoDeposit seqNumber block sysCfg regolith = Ok dep /\
            TxData dep = data /\ Value dep = 0 /\ Mint dep = None) as (dep & Hdep & Hd & Hv & Hm).
  { unfold L1InfoDeposit. rewrite Hdata. destruct regolith; by eexists. }
  unfold L1InfoDepositBytes. rewrite Hdep. cbn [map_err].
  destruct (tx_marshal_ok dep) as [enc Henc]; [lia|by rewrite Hm|].
  rewrite Henc. exists enc, data. split; [done|]. split.
  - rewrite (tx_roundtrip dep) by done. by rewrite Hd.
  - apply L1BlockInfo_Unmarshal_iff. by split.
Qed.
End L1Info.
