(* ===== verification/Frame.v ===== *)
(** * Frames: encoding, parsing and the frame queue stage

    [op-node/rollup/derive/frame.go], [params.go] and [frame_queue.go].  A frame is
    the unit the batcher posts to L1; the data of one L1 transaction is a version
    byte followed by frames. *)
From S2P Require Import Prelude GoErrors GoBytes EthTypes.
#[local] Open Scope Z_scope.

(** ** Constants of params.go and frame.go *)
Definition frameOverhead : Z := 200.
Definition DerivationVersion0 : byte := Byte.x00.
Definition MaxChannelBankSize : Z := 100000000.
Definition MaxRLPBytesPerChannel : Z := 10000000.
Definition ChannelIDLength : nat := 16.
Definition MaxFrameLen : Z := 1000000.

Abbreviation ChannelID := Z (only parsing).

Record Frame := mkFrame {
  ID : ChannelID;
  FrameNumber : Z;
  FData : Data;
  IsLast : bool }.

#[export] Instance Frame_eq_dec : EqDecision Frame.
Proof. solve_decision. Defined.

(** [frameSize]. *)
Definition frameSize (frame : Frame) : Z := u64 (Z.of_nat (length (FData frame))) +u frameOverhead.

(** ** Encoding *)

(** [Frame.MarshalBinary]: the bytes appended to the writer.  The writers the node
    uses are in-memory buffers, whose [Write] does not fail. *)
Definition MarshalBinary (f : Frame) : list byte :=
  be_encode ChannelIDLength (ID f) ++
  be_encode 2 (FrameNumber f) ++
  be_encode 4 (u32 (Z.of_nat (length (FData f)))) ++
  FData f ++
  [if IsLast f then Byte.x01 else Byte.x00].

(** [eofAsUnexpectedMissing]. *)
Definition eofAsUnexpectedMissing (err : error) : error :=
  if errors_Is err EOF then ErrWrap "fully missing" ErrUnexpectedEOF else err.

(** [Frame.UnmarshalBinary]: consumes a frame from the reader. *)
Definition UnmarshalBinary : M (list byte) Frame :=
  id <- wrapE (ErrWrap "reading channel_id") (ReadFull ChannelIDLength) ;;
  num <- wrapE (fun e => ErrWrap "reading frame_number" (eofAsUnexpectedMissing e)) (binary_Read 2) ;;
  frameLength <- wrapE (fun e => ErrWrap "reading frame_data_length" (eofAsUnexpectedMissing e))
                   (binary_Read 4) ;;
  if MaxFrameLen <? frameLength then throw (ErrNew "frame_data_length is too large") else
  data <- wrapE (fun e => ErrWrap "reading frame_data" (eofAsUnexpectedMissing e))
            (ReadFull (Z.to_nat frameLength)) ;;
  isLastByte <- wrapE (fun e => ErrWrap "reading final byte (is_last)" (eofAsUnexpectedMissing e))
                  ReadByte ;;
  if bool_decide (isLastByte = Byte.x00) then ret (mkFrame (be_decode id) num data false)
  else if bool_decide (isLastByte = Byte.x01) then ret (mkFrame (be_decode id) num data true)
  else throw (ErrNew "invalid byte as is_last").

(** The loop of [ParseFrames]; every iteration consumes at least one byte, so the
    length of the buffer is enough fuel. *)
Fixpoint parse_frames_loop (fuel : nat) (buf : list byte) : result (list Frame) :=
  match fuel with
  | O => Err (ErrNew "out of fuel")
  | S fuel' =>
      match buf with
      | [] => Ok []
      | _ =>
          match UnmarshalBinary buf with
          | (Err e, _) => Err (ErrWrap "parsing frame" e)
          | (Panic, _) => Panic
          | (Ok f, buf') => result_map (cons f) (parse_frames_loop fuel' buf')
          end
      end
  end.

(** [ParseFrames]. *)
Definition ParseFrames (data : list byte) : result (list Frame) :=
  match data with
  | [] => Err (ErrNew "data array must not be empty")
  | version :: rest =>
      if bool_decide (version <> DerivationVersion0) then
        Err (ErrNew "invalid derivation format byte")
      else
        let? frames := parse_frames_loop (S (length rest)) rest in
        if (length frames =? 0)%nat then Err (ErrNew "was not able to find any frames")
        else Ok frames
  end.

(** The values a [Frame] struct accepted by the parser can hold. *)
Definition frame_wf (f : Frame) : Prop :=
  0 <= ID f < 256 ^ 16 /\ 0 <= FrameNumber f < 65536 /\
  Z.of_nat (length (FData f)) <= MaxFrameLen.

#[export] Instance frame_wf_dec f : Decision (frame_wf f).
Proof. unfold frame_wf. apply _. Defined.

(** ** The frame queue stage

    The previous stage promises the next piece of L1 data and the L1 origin. *)
Class NextDataProvider (P : Type) := {
  ndp_NextData : M P Data;
  ndp_Origin : P -> L1BlockRef }.

(** The law of the data provider: in the states it maintains it does not panic. *)
Class LawfulDataProvider (P : Type) `{NextDataProvider P} := {
  ndp_inv : P -> Prop;
  ndp_law p r p' : ndp_inv p -> ndp_NextData p = (r, p') -> ndp_inv p' /\ r <> Panic }.

(** What the frame queue promises to the channel bank. *)
Class NextFrameProvider (P : Type) := {
  nfp_NextFrame : M P Frame;
  nfp_Origin : P -> L1BlockRef }.

(** The law of that promise: in the states it maintains the provider does not panic
    and every frame it hands out is within the format's bounds. *)
Class LawfulFrameProvider (P : Type) `{NextFrameProvider P} := {
  nfp_inv : P -> Prop;
  nfp_law p r p' : nfp_inv p -> nfp_NextFrame p = (r, p') ->
    nfp_inv p' /\ r <> Panic /\ (forall f, r = Ok f -> frame_wf f) }.

Module FrameQueue.
Section FrameQueue.
Context {P : Type} `{NextDataProvider P}.

Record t := mk { frames : list Frame; prev : P }.

(** [FrameQueue.Origin]. *)
Definition Origin (fq : t) : L1BlockRef := ndp_Origin (prev fq).

(** [FrameQueue.NextFrame]: data that does not parse is logged and skipped. *)
Definition NextFrame : M t Frame := fun fq =>
  let loaded : result unit * t :=
    if (length (frames fq) =? 0)%nat then
      match ndp_NextData (prev fq) with
      | (Err err, p) => (Err err, mk (frames fq) p)
      | (Panic, p) => (Panic, mk (frames fq) p)
      | (Ok data, p) =>
          match ParseFrames data with
          | Ok new => (Ok tt, mk (frames fq ++ new) p)
          | Err _ => (Ok tt, mk (frames fq) p)
          | Panic => (Panic, mk (frames fq) p)
          end
      end
    else (Ok tt, fq) in
  match loaded with
  | (Err err, fq1) => (Err err, fq1)
  | (Panic, fq1) => (Panic, fq1)
  | (Ok _, fq1) =>
      match frames fq1 with
      | [] => (Err NotEnoughData, fq1)
      | r :: rest => (Ok r, mk rest (prev fq1))
      end
  end.

(** [FrameQueue.Reset]. *)
Definition Reset : M t unit := fun fq => (Err EOF, mk [] (prev fq)).

#[global] Instance provider : NextFrameProvider t :=
  {| nfp_NextFrame := NextFrame; nfp_Origin := Origin |}.
End FrameQueue.
Arguments t : clear implicits.
End FrameQueue.

(** ** Lemmas *)

Lemma frame_wf_u32 f :
  frame_wf f -> u32 (Z.of_nat (length (FData f))) = Z.of_nat (length (FData f)).
Proof. intros (_ & _ & H). apply u32_small. unfold MaxFrameLen in H. lia. Qed.

Lemma frameSize_wf f : frame_wf f -> frameSize f = Z.of_nat (length (FData f)) + 200.
Proof.
  intros (_ & _ & H). unfold frameSize, frameOverhead, MaxFrameLen in *.
  rewrite (u64_small (Z.of_nat _)), u64_small; unfold two64; lia.
Qed.

(** One frame: what is written is read back, and what is left is left alone. *)
Lemma UnmarshalBinary_Marshal f r :
  frame_wf f -> UnmarshalBinary (MarshalBinary f ++ r) = (Ok f, r).
Proof.
  intros Hwf. pose proof Hwf as (Hid & Hnum & Hlen).
  unfold MaxFrameLen in Hlen. unfold MarshalBinary. rewrite frame_wf_u32 by done.
  rewrite <- !app_assoc. unfold UnmarshalBinary, bind, wrapE.
  rewrite ReadFull_app by apply length_be_encode. cbn [map_err].
  rewrite binary_Read_app by (change (256 ^ Z.of_nat 2) with 65536; lia).
  cbn [map_err].
  rewrite binary_Read_app by (change (256 ^ Z.of_nat 4) with 4294967296; lia).
  cbn [map_err].
  destruct (Z.ltb_spec MaxFrameLen (Z.of_nat (length (FData f)))) as [Hl|_];
    [unfold MaxFrameLen in Hl; lia|].
  rewrite ReadFull_app by lia. cbn [ReadByte app map_err].
  rewrite be_decode_encode_small by done.
  destruct f as [id num data last]. by destruct last.
Qed.

Lemma UnmarshalBinary_Ok r f r' :
  UnmarshalBinary r = (Ok f, r') -> r = MarshalBinary f ++ r' /\ frame_wf f.
Proof.
  unfold UnmarshalBinary.
  intros (id & r1 & [Hid ->]%wrapE_Ok%ReadFull_Ok & H)%bind_Ok.
  apply bind_Ok in H as (num & r2 & [-> Hnum]%wrapE_Ok%binary_Read_Ok & H).
  apply bind_Ok in H as (len & r3 & [-> Hlen]%wrapE_Ok%binary_Read_Ok & H).
  destruct (MaxFrameLen <? len) eqn:Emax; [done|]. zify_bools.
  apply bind_Ok in H as (data & r4 & [Hdata ->]%wrapE_Ok%ReadFull_Ok & H).
  apply bind_Ok in H as (lastb & r5 & Hb%wrapE_Ok & H).
  destruct r4 as [|b r4]; simpl in Hb; [done|]. injection Hb as -> ->.
  pose proof (be_decode_range id) as Hrange. rewrite Hid in Hrange.
  assert (Hl : len = Z.of_nat (length data)) by lia.
  unfold MarshalBinary, frame_wf.
  unfold MaxFrameLen in *. change (256 ^ Z.of_nat 2) with 65536 in Hnum.
  change (Z.of_nat ChannelIDLength) with 16 in Hrange.
  case_bool_decide; [|case_bool_decide; [|done]];
    unfold ret in H; injection H as <- <-; cbn [ID FrameNumber FData IsLast];
    rewrite u32_small, <- Hl, <- !app_assoc, (be_encode_decode_len ChannelIDLength) by (done || lia);
    subst lastb; (split; [done|]); lia.
Qed.

Lemma UnmarshalBinary_no_panic r : (UnmarshalBinary r).1 <> Panic.
Proof.
  unfold UnmarshalBinary.
  apply bind_no_panic; [apply wrapE_no_panic, ReadFull_no_panic|intros id r1 _].
  apply bind_no_panic; [apply wrapE_no_panic, binary_Read_no_panic|intros num r2 _].
  apply bind_no_panic; [apply wrapE_no_panic, binary_Read_no_panic|intros len r3 _].
  case_if; [done|].
  apply bind_no_panic; [apply wrapE_no_panic, ReadFull_no_panic|intros data r4 _].
  apply bind_no_panic; [apply wrapE_no_panic; by destruct r4|intros b r5 _].
  by repeat case_bool_decide.
Qed.

Lemma length_MarshalBinary f : length (MarshalBinary f) = (23 + length (FData f))%nat.
Proof. unfold MarshalBinary. rewrite !length_app, !length_be_encode. simpl. unfold ChannelIDLength. lia. Qed.

Lemma MarshalBinary_not_nil f : MarshalBinary f <> [].
Proof. intros H. apply (f_equal length) in H. rewrite length_MarshalBinary in H. done. Qed.

(** The loop parses a concatenation of encoded frames, given enough fuel... *)
Lemma parse_frames_loop_complete frames fuel :
  Forall frame_wf frames ->
  (length (concat (MarshalBinary <$> frames)) < fuel)%nat ->
  parse_frames_loop fuel (concat (MarshalBinary <$> frames)) = Ok frames.
Proof.
  intros Hwf. revert fuel. induction Hwf as [|f frames Hf Hwf IH]; intros [|fuel] Hfuel;
    cbn [fmap list_fmap concat] in *; [lia|done|lia|].
  rewrite length_app, length_MarshalBinary in Hfuel.
  cbn [parse_frames_loop]. rewrite UnmarshalBinary_Marshal by done.
  rewrite IH by lia.
  destruct (MarshalBinary f ++ _) eqn:E; [|done].
  apply app_nil in E as [E _]. by apply MarshalBinary_not_nil in E.
Qed.

(** ... and accepts nothing else. *)
Lemma parse_frames_loop_sound fuel buf frames :
  parse_frames_loop fuel buf = Ok frames ->
  buf = concat (MarshalBinary <$> frames) /\ Forall frame_wf frames.
Proof.
  revert buf frames. induction fuel as [|fuel IH]; intros buf frames; simpl; [done|].
  destruct buf as [|b buf]; [by intros [= <-]|].
  destruct (UnmarshalBinary (b :: buf)) as [[f|e|] buf'] eqn:E; [|done..].
  apply UnmarshalBinary_Ok in E as [-> Hf].
  destruct (parse_frames_loop fuel buf') as [fs|e|] eqn:E; simpl; [|done..].
  intros [= <-]. apply IH in E as [-> Hfs]. simpl. auto.
Qed.

(** The loop never runs out of fuel when the fuel exceeds the length of the buffer. *)
Lemma parse_frames_loop_fuel fuel1 fuel2 buf :
  (length buf < fuel1)%nat -> (length buf < fuel2)%nat ->
  parse_frames_loop fuel1 buf = parse_frames_loop fuel2 buf.
Proof.
  revert fuel2 buf. induction fuel1 as [|fuel1 IH]; intros [|fuel2] buf H1 H2; try lia.
  simpl. destruct buf as [|b buf]; [done|].
  destruct (UnmarshalBinary (b :: buf)) as [[f|e|] buf'] eqn:E; [|done..].
  apply UnmarshalBinary_Ok in E as [E _].
  apply (f_equal length) in E. rewrite length_app, length_MarshalBinary in E.
  rewrite (IH fuel2 buf') by lia. done.
Qed.

Lemma ParseFrames_wf data frames : ParseFrames data = Ok frames -> Forall frame_wf frames.
Proof.
  unfold ParseFrames. destruct data as [|version rest]; [done|].
  case_bool_decide; [done|].
  destruct (parse_frames_loop _ rest) as [fs|e|] eqn:E; [|done..].
  destruct fs; simpl; [done|]. intros [= <-]. by apply parse_frames_loop_sound in E as [_ ?].
Qed.

Lemma parse_frames_loop_no_panic fuel buf : parse_frames_loop fuel buf <> Panic.
Proof.
  revert buf. induction fuel as [|fuel IH]; intros buf; simpl; [done|].
  destruct buf as [|b buf]; [done|].
  pose proof (UnmarshalBinary_no_panic (b :: buf)).
  destruct (UnmarshalBinary (b :: buf)) as [[f|e|] buf']; [|done..].
  specialize (IH buf'). by destruct (parse_frames_loop fuel buf').
Qed.

Lemma ParseFrames_no_panic data : ParseFrames data <> Panic.
Proof.
  unfold ParseFrames. destruct data as [|v rest]; [done|]. case_bool_decide; [done|].
  pose proof (parse_frames_loop_no_panic (S (length rest)) rest).
  destruct (parse_frames_loop _ rest) as [[]|e|]; simpl; done.
Qed.

(** The frame queue keeps the law of its interface. *)
Lemma NextFrame_law {P} `{LawfulDataProvider P} (fq : FrameQueue.t P) r fq' :
  Forall frame_wf (FrameQueue.frames fq) /\ ndp_inv (FrameQueue.prev fq) ->
  FrameQueue.NextFrame fq = (r, fq') ->
  (Forall frame_wf (FrameQueue.frames fq') /\ ndp_inv (FrameQueue.prev fq')) /\
  r <> Panic /\ (forall f, r = Ok f -> frame_wf f).
Proof.
  intros [Hwf Hp]. unfold FrameQueue.NextFrame.
  destruct fq as [frames p]. cbn [FrameQueue.frames FrameQueue.prev] in *.
  set (loaded := if (length frames =? 0)%nat then _ else _).
  assert (Hl : Forall frame_wf (FrameQueue.frames loaded.2) /\
               ndp_inv (FrameQueue.prev loaded.2) /\ loaded.1 <> Panic).
  { unfold loaded. destruct (length frames =? 0)%nat; [|done].
    destruct (ndp_NextData p) as [rd p'] eqn:Ed. apply ndp_law in Ed as [Hp' Hnp]; [|done].
    destruct rd as [data|e|]; [|done..]. pose proof (ParseFrames_no_panic data).
    destruct (ParseFrames data) as [new|e|] eqn:E; [|done..].
    apply ParseFrames_wf in E. split; [by apply Forall_app|done]. }
  destruct loaded as [[[]|e|] [fs1 p1]]; simpl in *; destruct Hl as (Hf1 & Hp1 & Hnp);
    [|by intros [= <- <-]|done].
  destruct fs1 as [|f fs1]; [by intros [= <- <-]|].
  apply Forall_cons in Hf1 as [Hf Hfs]. intros [= <- <-]. naive_solver.
Qed.

#[global] Instance FrameQueue_lawful {P} `{LawfulDataProvider P} :
  LawfulFrameProvider (FrameQueue.t P) :=
  {| nfp_inv := fun fq => Forall frame_wf (FrameQueue.frames fq) /\ ndp_inv (FrameQueue.prev fq);
     nfp_law := NextFrame_law |}.

(** ** Properties *)

Lemma ParseFrames_spec data frames :
  ParseFrames data = Ok frames <->
  data = DerivationVersion0 :: concat (MarshalBinary <$> frames) /\
  frames <> [] /\ Forall frame_wf frames.
Proof.
  unfold ParseFrames. destruct data as [|version rest]; [naive_solver|].
  case_bool_decide as Hv; [split; [done|by intros ([= ??] & _)]|]. subst version.
  split.
  - destruct (parse_frames_loop _ rest) as [fs|e|] eqn:E; [|done..].
    destruct fs; simpl; [done|]. intros [= <-].
    by apply parse_frames_loop_sound in E as [-> Hwf].
  - intros ([= ->] & Hne & Hwf).
    rewrite parse_frames_loop_complete by (done || lia). by destruct frames.
Qed.

(** C36: parsing is exactly the inverse of encoding.  [ParseFrames] accepts a byte
    string with a given list of frames if and only if the string is the version
    byte followed by the encodings of those frames, there is at least one frame,
    and every frame is within the format's bounds. *)
Theorem ParseFrames_iff data frames :
  ParseFrames data = Ok frames <->
  data = DerivationVersion0 :: concat (MarshalBinary <$> frames) /\
  frames <> [] /\ Forall frame_wf frames.
Proof. apply ParseFrames_spec. Qed.

(** A data source scripted as a list, used to instantiate the interfaces at concrete
    inputs. *)
Record scripted := mkScripted { script : list Data; script_origin : L1BlockRef }.

Definition scripted_NextData : M scripted Data := fun s =>
  match script s with
  | [] => (Err EOF, s)
  | d :: ds => (Ok d, mkScripted ds (script_origin s))
  end.

#[export] Instance scripted_provider : NextDataProvider scripted :=
  {| ndp_NextData := scripted_NextData; ndp_Origin := script_origin |}.

#[export] Program Instance scripted_lawful : LawfulDataProvider scripted :=
  {| ndp_inv := fun _ => True |}.
Next Obligation.
  intros s r s' _. simpl. unfold scripted_NextData. by destruct (script s); intros [= <- <-].
Qed.
