(* ===== verification/Channel.v ===== *)
(** * Channels: reassembling frames

    [op-node/rollup/derive/channel.go].  A channel buffers frames by number, learns
    from the frame marked last where it ends, and is read once the numbers 0 to the
    end are all present. *)
From S2P Require Import Prelude GoErrors GoBytes EthTypes Frame.
#[local] Open Scope Z_scope.

Record Channel := mkChannel {
  ch_id : ChannelID;
  ch_openBlock : L1BlockRef;
  ch_size : Z;
  ch_closed : bool;
  ch_highestFrameNumber : Z;
  ch_endFrameNumber : Z;
  ch_inputs : gmap Z Frame;
  ch_highestL1InclusionBlock : L1BlockRef }.

Definition NewChannel (id : ChannelID) (openBlock : L1BlockRef) : Channel :=
  mkChannel id openBlock 0 false 0 0 ∅ zeroL1.

(** The frames of a channel in the order its map is ranged over; nothing below
    depends on that order. *)
Definition ch_frames (ch : Channel) : list Frame := (map_to_list (ch_inputs ch)).*2.

(** The pruning loop of [AddFrame]: every buffered frame is visited, those at or
    after the end are deleted, and the size of every visited frame is subtracted. *)
Definition prune_size (ch : Channel) : Z :=
  foldl (fun size prunedFrame => size -u frameSize prunedFrame) (ch_size ch) (ch_frames ch).
Definition prune_inputs (ch : Channel) (endFrame : Z) : gmap Z Frame :=
  filter (fun kv => ~ kv.1 >= endFrame) (ch_inputs ch).

(** [Channel.AddFrame]. *)
Definition AddFrame (frame : Frame) (l1InclusionBlock : L1BlockRef) : M Channel unit := fun ch =>
  if negb (ID frame =? ch_id ch) then
    (Err (ErrNew "frame id does not match channel id"), ch) else
  if IsLast frame && ch_closed ch then
    (Err (ErrNew "cannot add ending frame to a closed channel"), ch) else
  if bool_decide (is_Some (ch_inputs ch !! FrameNumber frame)) then
    (Err DuplicateErr, ch) else
  if ch_closed ch && (ch_endFrameNumber ch <=? FrameNumber frame) then
    (Err (ErrNew "frame number is greater than or equal to end frame number of a closed channel"), ch)
  else
  let endFrame := if IsLast frame then FrameNumber frame else ch_endFrameNumber ch in
  let closed := if IsLast frame then true else ch_closed ch in
  let prune := IsLast frame && (endFrame <? ch_highestFrameNumber ch) in
  let inputs := if prune then prune_inputs ch endFrame else ch_inputs ch in
  let size := if prune then prune_size ch else ch_size ch in
  let highest := if prune then endFrame else ch_highestFrameNumber ch in
  let highest := if highest <? FrameNumber frame then FrameNumber frame else highest in
  let highestL1 :=
    if l1_Number (ch_highestL1InclusionBlock ch) <? l1_Number l1InclusionBlock
    then l1InclusionBlock else ch_highestL1InclusionBlock ch in
  (Ok tt, mkChannel (ch_id ch) (ch_openBlock ch) (size +u frameSize frame) closed highest endFrame
            (<[FrameNumber frame := frame]> inputs) highestL1).

(** [Channel.OpenBlockNumber] and [Channel.Size]. *)
Definition OpenBlockNumber (ch : Channel) : Z := l1_Number (ch_openBlock ch).
Definition Size (ch : Channel) : Z := ch_size ch.

(** The frame numbers 0 to the end. *)
Definition ch_indices (ch : Channel) : list Z := seqZ 0 (ch_endFrameNumber ch + 1).

(** [Channel.IsReady]. *)
Definition IsReady (ch : Channel) : bool :=
  if negb (ch_closed ch) then false
  else if negb (Z.of_nat (size (ch_inputs ch)) =? ch_endFrameNumber ch + 1) then false
  else forallb (fun i => bool_decide (is_Some (ch_inputs ch !! i))) (ch_indices ch).

(** [Channel.Reader], read to its end; [None] is the panic of the source. *)
Definition Reader (ch : Channel) : option Data :=
  @concat byte <$> mapM (fun i => FData <$> ch_inputs ch !! i) (ch_indices ch).

(** Adding a list of frames, stopping at the first error. *)
Fixpoint AddFrames (frames : list Frame) (l1InclusionBlock : L1BlockRef) : M Channel unit :=
  match frames with
  | [] => ret tt
  | f :: fs => AddFrame f l1InclusionBlock ;;; AddFrames fs l1InclusionBlock
  end.

(** ** The channel invariant *)

(** The memory the buffered frames really occupy. *)
Definition ch_true_size (ch : Channel) : Z := map_sum frameSize (ch_inputs ch).

Record channel_inv (ch : Channel) : Prop := {
  inv_frame k f : ch_inputs ch !! k = Some f ->
    FrameNumber f = k /\ ID f = ch_id ch /\ frame_wf f /\ k <= ch_highestFrameNumber ch;
  inv_closed : ch_closed ch = true ->
    0 <= ch_endFrameNumber ch < 65536 /\
    (exists f, ch_inputs ch !! ch_endFrameNumber ch = Some f /\ IsLast f = true);
  inv_last k f : ch_inputs ch !! k = Some f -> IsLast f = true ->
    ch_closed ch = true /\ k = ch_endFrameNumber ch;
  inv_end k f : ch_closed ch = true -> ch_inputs ch !! k = Some f -> k <= ch_endFrameNumber ch;
  inv_size : 0 <= ch_size ch <= ch_true_size ch;
  inv_size_open : ch_closed ch = false -> ch_size ch = ch_true_size ch }.

(** ** Lemmas on sizes *)

Lemma frameSize_nonneg f : 0 <= frameSize f.
Proof. apply u64_range. Qed.

Lemma foldl_sub_u64 fs z :
  foldl (fun size f => size -u frameSize f) (u64 z) fs = u64 (z - sumZ (frameSize <$> fs)).
Proof.
  revert z. induction fs as [|f fs IH]; intros z; cbn [foldl fmap list_fmap sumZ foldr].
  - f_equal. lia.
  - rewrite u64_sub_l, IH. f_equal. unfold sumZ. lia.
Qed.

Lemma prune_size_spec ch :
  0 <= ch_size ch < two64 -> prune_size ch = u64 (ch_size ch - ch_true_size ch).
Proof.
  intros Hr. unfold prune_size. rewrite <- (u64_small (ch_size ch)) at 1 by done.
  rewrite foldl_sub_u64. done.
Qed.

Lemma lookup_prune_inputs ch e k :
  prune_inputs ch e !! k = if decide (k < e) then ch_inputs ch !! k else None.
Proof.
  unfold prune_inputs. destruct (ch_inputs ch !! k) as [f|] eqn:E; case_decide.
  - apply map_lookup_filter_Some. simpl. split; [done|lia].
  - apply map_lookup_filter_None. right. intros f' Hf' Hk. simpl in Hk. lia.
  - apply map_lookup_filter_None. by left.
  - apply map_lookup_filter_None. by left.
Qed.

(** A map keyed by 16-bit numbers has at most 65536 entries, so the total size of
    its frames is far below 2^64. *)
Lemma map_sum_bound {A} (f : A -> Z) (m : gmap Z A) (n B : Z) :
  (forall k x, m !! k = Some x -> 0 <= k < n /\ f x <= B) -> 0 <= n -> 0 <= B ->
  map_sum f m <= n * B.
Proof.
  intros H Hn HB.
  assert (Hsize : Z.of_nat (length (map_to_list m)) <= n).
  { assert (NoDup (map_to_list m).*1) as Hnd by apply NoDup_fst_map_to_list.
    assert (((map_to_list m).*1) ⊆ seqZ 0 n) as Hsub.
    { intros k ([k' x] & -> & Hin%elem_of_map_to_list)%list_elem_of_fmap.
      apply elem_of_seqZ. apply H in Hin. simpl. lia. }
    pose proof (submseteq_length _ _ (NoDup_submseteq _ _ Hnd Hsub)) as Hl.
    rewrite length_fmap, length_seqZ in Hl. lia. }
  assert (Hall : forall l : list (Z * A), (forall kv, kv ∈ l -> f kv.2 <= B) ->
            sumZ (f <$> l.*2) <= Z.of_nat (length l) * B).
  { induction l as [|kv l IH]; intros Hl; cbn [fmap list_fmap sumZ foldr length]; [lia|].
    assert (f kv.2 <= B) by (apply Hl; left).
    specialize (IH (fun kv' Hkv' => Hl kv' ltac:(by right))).
    unfold sumZ in IH. lia. }
  unfold map_sum. etrans; [apply Hall|nia].
  intros [k x] Hin%elem_of_map_to_list. simpl. destruct (H k x Hin). lia.
Qed.

Lemma frameSize_bound f : frame_wf f -> 200 <= frameSize f <= 1000200.
Proof.
  intros Hwf. rewrite frameSize_wf by done. destruct Hwf as (_ & _ & H).
  unfold MaxFrameLen in H. lia.
Qed.

Lemma ch_true_size_bound ch : channel_inv ch -> 0 <= ch_true_size ch <= 65549107200.
Proof.
  intros Hinv. split; [apply map_sum_nonneg, frameSize_nonneg|].
  change 65549107200 with (65536 * 1000200). apply map_sum_bound; [|lia..].
  intros k f Hk. destruct (inv_frame _ Hinv k f Hk) as (<- & _ & Hwf & _).
  pose proof (frameSize_bound f Hwf). destruct Hwf as (_ & ? & _). lia.
Qed.

(** ** AddFrame preserves the invariant *)

Lemma NewChannel_inv id openBlock : channel_inv (NewChannel id openBlock).
Proof. by split. Qed.

(** The state [AddFrame] reaches when it accepts a frame. *)
Lemma AddFrame_Ok frame b ch ch' :
  AddFrame frame b ch = (Ok tt, ch') ->
  ID frame = ch_id ch /\ (IsLast frame = true -> ch_closed ch = false) /\
  ch_inputs ch !! FrameNumber frame = None /\
  (ch_closed ch = true -> FrameNumber frame < ch_endFrameNumber ch).
Proof.
  unfold AddFrame. intros H.
  destruct (negb (ID frame =? ch_id ch)) eqn:E1; [done|].
  destruct (IsLast frame && ch_closed ch) eqn:E2; [done|].
  destruct (bool_decide _) eqn:E3; [done|].
  destruct (ch_closed ch && _) eqn:E4; [done|].
  zify_bools. rewrite <- eq_None_not_Some in E3.
  destruct (IsLast frame), (ch_closed ch); simpl in *; zify_bools; naive_solver.
Qed.

(** What pruning leaves: the size counter becomes zero or less than the truth, and
    only frames before the end stay. *)
Definition will_prune (frame : Frame) (ch : Channel) : bool :=
  IsLast frame && (FrameNumber frame <? ch_highestFrameNumber ch).

Lemma AddFrame_state frame b ch ch' :
  AddFrame frame b ch = (Ok tt, ch') ->
  ch_id ch' = ch_id ch /\ ch_openBlock ch' = ch_openBlock ch /\
  ch_closed ch' = (IsLast frame || ch_closed ch) /\
  ch_endFrameNumber ch' = (if IsLast frame then FrameNumber frame else ch_endFrameNumber ch) /\
  ch_inputs ch' = <[FrameNumber frame := frame]>
    (if will_prune frame ch then prune_inputs ch (FrameNumber frame) else ch_inputs ch) /\
  ch_size ch' = (if will_prune frame ch then prune_size ch else ch_size ch) +u frameSize frame /\
  ch_highestFrameNumber ch' =
    (if will_prune frame ch then FrameNumber frame
     else Z.max (ch_highestFrameNumber ch) (FrameNumber frame)).
Proof.
  unfold AddFrame, will_prune. intros H.
  destruct (negb _); [done|]. destruct (_ && ch_closed ch); [done|].
  destruct (bool_decide _); [done|]. destruct (ch_closed ch && _); [done|].
  injection H as <-. cbn [ch_id ch_openBlock ch_closed ch_endFrameNumber ch_inputs ch_size ch_highestFrameNumber].
  destruct (IsLast frame); cbn [andb orb];
    [destruct (Z.ltb_spec (FrameNumber frame) (ch_highestFrameNumber ch))|];
    repeat split; try done; case_if; lia.
Qed.

Lemma prune_size_open ch : channel_inv ch -> ch_closed ch = false -> prune_size ch = 0.
Proof.
  intros Hinv Hopen. pose proof (ch_true_size_bound ch Hinv).
  rewrite prune_size_spec by (rewrite (inv_size_open _ Hinv Hopen); unfold two64; lia).
  rewrite (inv_size_open _ Hinv Hopen), Z.sub_diag. done.
Qed.

Lemma will_prune_spec frame ch :
  will_prune frame ch = true -> IsLast frame = true /\ FrameNumber frame < ch_highestFrameNumber ch.
Proof. unfold will_prune. intros. by zify_bools. Qed.

(** The inputs kept when [frame] is added, as a lookup. *)
Lemma lookup_kept frame ch k f :
  channel_inv ch ->
  (if will_prune frame ch then prune_inputs ch (FrameNumber frame) else ch_inputs ch) !! k = Some f ->
  ch_inputs ch !! k = Some f /\ (IsLast frame = true -> k <= FrameNumber frame).
Proof.
  intros Hinv. unfold will_prune.
  destruct (IsLast frame) eqn:El; cbn [andb]; [|naive_solver].
  destruct (Z.ltb_spec (FrameNumber frame) (ch_highestFrameNumber ch)) as [Hlt|Hge].
  - rewrite lookup_prune_inputs. case_decide; [|done]. intros; split; [done|lia].
  - intros Hk. split; [done|]. destruct (inv_frame _ Hinv k f Hk) as (_ & _ & _ & ?). lia.
Qed.

Lemma kept_None frame ch :
  ch_inputs ch !! FrameNumber frame = None ->
  (if will_prune frame ch then prune_inputs ch (FrameNumber frame) else ch_inputs ch)
    !! FrameNumber frame = None.
Proof. intros H. case_if; [|done]. rewrite lookup_prune_inputs. by case_decide. Qed.

(** How the two sizes evolve: the counter gains the size of the frame, except that
    a frame that prunes resets it to its own size, whatever is kept. *)
Lemma AddFrame_size frame b ch ch' :
  channel_inv ch -> frame_wf frame -> AddFrame frame b ch = (Ok tt, ch') ->
  ch_size ch' = (if will_prune frame ch then 0 else ch_size ch) + frameSize frame /\
  ch_true_size ch' = frameSize frame +
    map_sum frameSize (if will_prune frame ch then prune_inputs ch (FrameNumber frame) else ch_inputs ch).
Proof.
  intros Hinv Hwf H. pose proof (AddFrame_Ok _ _ _ _ H) as (_ & Hlast & Hnone & _).
  apply AddFrame_state in H as (_ & _ & _ & _ & Hin & Hsz & _).
  pose proof (frameSize_bound frame Hwf). pose proof (ch_true_size_bound ch Hinv).
  pose proof (inv_size _ Hinv). split.
  - rewrite Hsz. destruct (will_prune frame ch) eqn:Ep.
    + apply will_prune_spec in Ep as [El _].
      rewrite prune_size_open by auto. apply u64_small. unfold two64. lia.
    + apply u64_small. unfold two64. lia.
  - unfold ch_true_size. rewrite Hin. by apply map_sum_insert, kept_None.
Qed.

Lemma AddFrame_inv_Ok frame b ch ch' :
  channel_inv ch -> frame_wf frame -> AddFrame frame b ch = (Ok tt, ch') -> channel_inv ch'.
Proof.
  intros Hinv Hwf H.
  pose proof (AddFrame_size _ _ _ _ Hinv Hwf H) as [Hsz Htrue].
  pose proof (AddFrame_Ok _ _ _ _ H) as (Hid & Hlast & Hnone & Hlt).
  pose proof (AddFrame_state _ _ _ _ H) as (Hid' & _ & Hcl & Hend & Hin & _ & Hhi).
  assert (Hlook : forall k f, ch_inputs ch' !! k = Some f ->
            (k = FrameNumber frame /\ f = frame) \/
            (ch_inputs ch !! k = Some f /\ (IsLast frame = true -> k <= FrameNumber frame))).
  { intros k f. rewrite Hin, lookup_insert. case_decide; [naive_solver|].
    intros Hk. right. by apply lookup_kept in Hk. }
  pose proof (map_sum_nonneg frameSize (prune_inputs ch (FrameNumber frame)) frameSize_nonneg).
  pose proof (inv_size _ Hinv). unfold ch_true_size in *.
  split.
  - intros k f [[-> ->]|[Hk Hle]]%Hlook.
    + split; [done|split; [congruence|split; [done|]]]. rewrite Hhi. case_if; lia.
    + destruct (inv_frame _ Hinv k f Hk) as (? & ? & ? & ?).
      split; [done|split; [congruence|split; [done|]]]. rewrite Hhi. case_if; [|lia].
      apply will_prune_spec in E as [El _]. auto.
  - rewrite Hcl, Hend, Hin. destruct (IsLast frame) eqn:El.
    + intros _. split; [apply Hwf|]. exists frame. by rewrite lookup_insert_eq.
    + simpl. intros Hc. destruct (inv_closed _ Hinv Hc) as (? & f & Hf & Hfl). split; [done|].
      exists f. split; [|done]. unfold will_prune. rewrite El. simpl.
      rewrite lookup_insert_ne; [done|]. specialize (Hlt Hc). lia.
  - intros k f [[-> ->]|[Hk Hle]]%Hlook Hfl; rewrite Hcl, Hend.
    + by rewrite Hfl.
    + destruct (inv_last _ Hinv k f Hk Hfl) as [Hc ->]. rewrite Hc.
      destruct (IsLast frame); [|done]. by rewrite Hlast in Hc.
  - rewrite Hcl, Hend. intros k f Hc [[-> ->]|[Hk Hle]]%Hlook.
    + destruct (IsLast frame) eqn:El; [lia|]. specialize (Hlt Hc). lia.
    + destruct (IsLast frame) eqn:El; [by apply Hle|]. by apply (inv_end _ Hinv k f Hc).
  - unfold ch_true_size. rewrite Hsz, Htrue. pose proof (frameSize_nonneg frame). case_if; lia.
  - rewrite Hcl. intros [El Hc]%orb_false_iff. unfold ch_true_size.
    rewrite Hsz, Htrue. unfold will_prune. rewrite El. simpl.
    rewrite (inv_size_open _ Hinv Hc). unfold ch_true_size. lia.
Qed.

Lemma AddFrame_not_Ok frame b ch r ch' :
  AddFrame frame b ch = (r, ch') -> r = Ok tt \/ (ch' = ch /\ exists e, r = Err e).
Proof. unfold AddFrame. intros H. repeat case_if_in H; naive_solver. Qed.

Lemma AddFrame_inv frame b ch :
  channel_inv ch -> frame_wf frame -> channel_inv (AddFrame frame b ch).2.
Proof.
  intros Hinv Hwf. destruct (AddFrame frame b ch) as [r ch'] eqn:E; simpl.
  destruct (AddFrame_not_Ok _ _ _ _ _ E) as [->|[-> _]]; [by eapply AddFrame_inv_Ok|done].
Qed.

(** Every state a channel reaches from its creation by [AddFrame] is well
    formed: frames sit at their own number and carry the channel's id; once the
    closing frame is in, it is the last frame and nothing is numbered after it;
    and the size counter used for pruning the channel bank never exceeds the size
    of the frames that are really buffered, being equal to it while the channel is
    open. *)
Theorem AddFrame_preserves_inv frame b ch :
  channel_inv ch -> frame_wf frame -> channel_inv (AddFrame frame b ch).2.
Proof. apply AddFrame_inv. Qed.

Lemma AddFrame_preserves_inv_witness :
  let f := mkFrame 7 3 [Byte.x41] true in
  channel_inv (AddFrame f zeroL1 (NewChannel 7 zeroL1)).2.
Proof.
  apply AddFrame_preserves_inv; [apply NewChannel_inv|by_decide].
Defined.

(** ** Readiness *)

Lemma size_dom_seqZ {A} (m : gmap Z A) n :
  0 <= n -> (forall k, is_Some (m !! k) <-> 0 <= k < n) -> Z.of_nat (size m) = n.
Proof.
  intros Hn H. rewrite <- length_map_to_list.
  assert (((map_to_list m).*1) ≡ₚ seqZ 0 n) as Hp.
  { apply NoDup_Permutation; [apply NoDup_fst_map_to_list|apply NoDup_seqZ|].
    intros k. rewrite elem_of_seqZ, list_elem_of_fmap.
    setoid_rewrite <- (H k). split.
    - intros ([k' x] & -> & Hin%elem_of_map_to_list). by exists x.
    - intros [x Hx]. exists (k, x). by rewrite elem_of_map_to_list. }
  apply Permutation_length in Hp. rewrite length_fmap, length_seqZ in Hp. lia.
Qed.

Lemma IsReady_Some ch i :
  IsReady ch = true -> 0 <= i <= ch_endFrameNumber ch -> is_Some (ch_inputs ch !! i).
Proof.
  unfold IsReady. destruct (ch_closed ch); [|done]. cbn [negb].
  destruct (negb _); [done|]. intros H Hi.
  rewrite forallb_forall in H. specialize (H i).
  rewrite bool_decide_eq_true in H. apply H.
  apply list_elem_of_In, elem_of_seqZ. lia.
Qed.

Lemma IsReady_intro ch :
  channel_inv ch -> ch_closed ch = true ->
  (forall i, 0 <= i <= ch_endFrameNumber ch -> is_Some (ch_inputs ch !! i)) -> IsReady ch = true.
Proof.
  intros Hinv Hc H. unfold IsReady. rewrite Hc. cbn [negb].
  pose proof (inv_closed _ Hinv Hc) as [? _].
  rewrite (size_dom_seqZ _ (ch_endFrameNumber ch + 1)); [|lia|].
  - rewrite Z.eqb_refl. cbn [negb]. apply forallb_forall. intros i Hi.
    apply list_elem_of_In, elem_of_seqZ in Hi. apply bool_decide_eq_true, H. lia.
  - intros k. split; [|intros; apply H; lia].
    intros [f Hf]. pose proof (inv_end _ Hinv k f Hc Hf).
    destruct (inv_frame _ Hinv k f Hf) as (<- & _ & (_ & ? & _) & _). lia.
Qed.

Lemma IsReady_Reader ch : IsReady ch = true -> is_Some (Reader ch).
Proof.
  intros Hr. unfold Reader.
  assert (is_Some (mapM (fun i => FData <$> ch_inputs ch !! i) (ch_indices ch))) as [ds ->];
    [|by eexists].
  apply mapM_is_Some, Forall_forall. intros i Hi%elem_of_seqZ.
  destruct (IsReady_Some ch i Hr ltac:(lia)) as [f Hf].
  simpl. rewrite Hf. by eexists.
Qed.

(** A well-formed channel is ready exactly when its closing frame has arrived
    and no frame before it is missing, and then reading it does not panic. *)
Theorem IsReady_iff_contiguous ch :
  channel_inv ch ->
  (IsReady ch = true <->
   ch_closed ch = true /\
   forall i, 0 <= i <= ch_endFrameNumber ch -> is_Some (ch_inputs ch !! i)) /\
  (IsReady ch = true -> is_Some (Reader ch)).
Proof.
  intros Hinv. split.
  - split; [|intros [? ?]; by apply IsReady_intro].
    intros Hr. split; [|intros; by apply IsReady_Some].
    revert Hr. unfold IsReady. by destruct (ch_closed ch).
  - apply IsReady_Reader.
Qed.

Lemma IsReady_iff_contiguous_witness :
  (IsReady (NewChannel 7 zeroL1) = true <->
   ch_closed (NewChannel 7 zeroL1) = true /\
   forall i, 0 <= i <= ch_endFrameNumber (NewChannel 7 zeroL1) ->
     is_Some (ch_inputs (NewChannel 7 zeroL1) !! i)) /\
  (IsReady (NewChannel 7 zeroL1) = true -> is_Some (Reader (NewChannel 7 zeroL1))).
Proof. apply IsReady_iff_contiguous, NewChannel_inv. Defined.

(** ** Reassembly in any order *)

(** The frames of one whole channel, in their order. *)
Record complete_frames (id : ChannelID) (fs : list Frame) : Prop := {
  cf_nonempty : fs <> [];
  cf_wf : Forall frame_wf fs;
  cf_lookup i f : fs !! i = Some f ->
    ID f = id /\ FrameNumber f = Z.of_nat i /\ IsLast f = bool_decide (S i = length fs) }.

Section Reassembly.
Context (id : ChannelID) (fs : list Frame) (Hfs : complete_frames id fs).

Lemma cf_elem f : f ∈ fs ->
  frame_wf f /\ ID f = id /\ fs !! Z.to_nat (FrameNumber f) = Some f /\
  0 <= FrameNumber f < Z.of_nat (length fs) /\
  (IsLast f = true <-> FrameNumber f = Z.of_nat (length fs) - 1).
Proof.
  intros Hf. split; [by eapply Forall_forall; [apply Hfs|]|].
  apply list_elem_of_lookup in Hf as [i Hi].
  destruct (cf_lookup _ _ Hfs i f Hi) as (Hid & Hn & Hl).
  pose proof (lookup_lt_Some _ _ _ Hi). rewrite Hn, Nat2Z.id.
  repeat split; [done..|lia|lia| |]; rewrite Hl, bool_decide_eq_true; lia.
Qed.

Lemma cf_same_number f g : f ∈ fs -> g ∈ fs -> FrameNumber f = FrameNumber g -> f = g.
Proof.
  intros (_ & _ & Hf & _)%cf_elem (_ & _ & Hg & _)%cf_elem H. congruence.
Qed.

(** The channel after the frames of [done], in some order. *)
Record filled (done : list Frame) (ch : Channel) : Prop := {
  fi_inv : channel_inv ch;
  fi_id : ch_id ch = id;
  fi_inputs k f : ch_inputs ch !! k = Some f <-> f ∈ done /\ FrameNumber f = k;
  fi_closed : ch_closed ch = true <-> exists f, f ∈ done /\ IsLast f = true;
  fi_highest : ch_highestFrameNumber ch <= Z.of_nat (length fs) - 1 }.

Lemma filled_end done ch :
  done ⊆ fs -> filled done ch -> ch_closed ch = true ->
  ch_endFrameNumber ch = Z.of_nat (length fs) - 1.
Proof.
  intros Hsub Hch Hc. destruct (inv_closed _ (fi_inv _ _ Hch) Hc) as (_ & f & Hf & Hl).
  apply (fi_inputs _ _ Hch) in Hf as [Hf <-].
  by apply (cf_elem f (Hsub f Hf)).
Qed.

Lemma AddFrame_accepts done f b ch :
  done ⊆ fs -> f ∈ fs -> f ∉ done -> filled done ch ->
  exists ch', AddFrame f b ch = (Ok tt, ch').
Proof.
  intros Hsub Hf Hnew Hch.
  destruct (cf_elem f Hf) as (_ & Hid & _ & _ & Hlast).
  unfold AddFrame. rewrite Hid, (fi_id _ _ Hch), Z.eqb_refl. cbn [negb].
  assert (Hno : forall g, g ∈ done -> FrameNumber g <> FrameNumber f).
  { intros g Hg Heq. apply Hnew. rewrite <- (cf_same_number g f (Hsub g Hg) Hf Heq). done. }
  assert (IsLast f && ch_closed ch = false) as ->.
  { apply not_true_is_false. intros [Hl Hc]%andb_true_iff.
    apply (fi_closed _ _ Hch) in Hc as (g & Hg & Hgl).
    apply (cf_elem g (Hsub g Hg)) in Hgl. apply Hlast in Hl.
    apply (Hno g Hg). lia. }
  rewrite bool_decide_eq_false_2.
  2:{ intros [g Hg]. apply (fi_inputs _ _ Hch) in Hg as [Hg Heq]. by apply (Hno g Hg). }
  destruct (ch_closed ch && _) eqn:Hc; [|by eexists].
  zify_bools. rewrite (filled_end done ch) in * by done.
  assert (IsLast f = true) as Hl by (apply Hlast; pose proof (cf_elem f Hf); lia).
  match goal with H : ch_closed ch = true |- _ =>
    apply (fi_closed _ _ Hch) in H as (g & Hg & Hgl) end.
  apply (cf_elem g (Hsub g Hg)) in Hgl. apply Hlast in Hl.
  exfalso. apply (Hno g Hg). lia.
Qed.

Lemma AddFrame_filled done f b ch ch' :
  done ⊆ fs -> f ∈ fs -> filled done ch -> AddFrame f b ch = (Ok tt, ch') ->
  filled (f :: done) ch'.
Proof.
  intros Hsub Hf Hch H. destruct (cf_elem f Hf) as (Hwf & _ & _ & Hr & Hlast).
  pose proof (AddFrame_inv_Ok _ _ _ _ (fi_inv _ _ Hch) Hwf H) as Hinv'.
  pose proof (AddFrame_Ok _ _ _ _ H) as (_ & _ & Hnone & _).
  apply AddFrame_state in H as (Hid & _ & Hc & _ & Hin & _ & Hhi).
  assert (will_prune f ch = false) as Hnp.
  { unfold will_prune. apply not_true_is_false. intros [Hl Hlt]%andb_true_iff.
    apply Hlast in Hl. pose proof (fi_highest _ _ Hch). zify_bools. lia. }
  rewrite Hnp in *. pose proof (fi_highest _ _ Hch). split; [done| | | |lia].
  - rewrite Hid. apply Hch.
  - intros k g. rewrite Hin, lookup_insert. case_decide as Hk.
    + subst k. rewrite elem_of_cons. split; [naive_solver|].
      intros [[->|Hg] Heq]; [done|].
      assert (ch_inputs ch !! FrameNumber f = Some g) by (by apply (fi_inputs _ _ Hch)).
      congruence.
    + rewrite (fi_inputs _ _ Hch), elem_of_cons. naive_solver.
  - rewrite Hc, orb_true_iff, (fi_closed _ _ Hch). setoid_rewrite elem_of_cons. naive_solver.
Qed.

Lemma AddFrames_filled b todo done ch :
  NoDup (todo ++ done) -> todo ++ done ⊆ fs -> filled done ch ->
  exists ch', AddFrames todo b ch = (Ok tt, ch') /\ filled (rev todo ++ done) ch'.
Proof.
  revert done ch. induction todo as [|f todo IH]; intros done ch Hnd Hsub Hch.
  { by exists ch. }
  apply NoDup_cons in Hnd as [Hnew Hnd].
  assert (Hf : f ∈ fs) by (apply Hsub; left).
  assert (Hdone : done ⊆ fs) by set_solver.
  destruct (AddFrame_accepts done f b ch) as [ch1 H1]; [set_solver..|].
  destruct (IH (f :: done) ch1) as (ch' & H' & Hfi).
  - apply NoDup_app in Hnd as (Hn1 & Hn2 & Hn3).
    apply NoDup_app. split; [done|]. split; [set_solver|]. apply NoDup_cons. set_solver.
  - set_solver.
  - by eapply AddFrame_filled.
  - exists ch'. simpl. unfold bind. rewrite H1. split; [done|].
    by rewrite <- app_assoc.
Qed.

Lemma filled_complete done ch :
  done ≡ₚ fs -> filled done ch ->
  IsReady ch = true /\ Reader ch = Some (concat (FData <$> fs)).
Proof.
  intros Hp Hch. set (n := length fs).
  assert (Hnz : (0 < n)%nat) by (destruct fs eqn:E; [by destruct (cf_nonempty _ _ Hfs)|simpl in *; lia]).
  destruct (lookup_lt_is_Some_2 fs (n - 1)) as [fl Hfl]; [lia|].
  destruct (cf_lookup _ _ Hfs _ _ Hfl) as (_ & Hln & Hll).
  rewrite bool_decide_eq_true_2 in Hll by lia.
  assert (Hin : forall i f, fs !! i = Some f -> ch_inputs ch !! Z.of_nat i = Some f).
  { intros i f Hi. apply (fi_inputs _ _ Hch). split.
    - rewrite Hp. by eapply list_elem_of_lookup_2.
    - by apply (cf_lookup _ _ Hfs). }
  assert (Hclosed : ch_closed ch = true).
  { apply (fi_closed _ _ Hch). exists fl. split; [|done].
    rewrite Hp. by eapply list_elem_of_lookup_2. }
  pose proof (filled_end done ch ltac:(by rewrite Hp) Hch Hclosed) as Hend.
  split.
  - apply IsReady_intro; [apply Hch|done|]. intros i Hi.
    destruct (lookup_lt_is_Some_2 fs (Z.to_nat i)) as [f Hf]; [lia|].
    apply Hin in Hf. rewrite Z2Nat.id in Hf by lia. by exists f.
  - unfold Reader. fold n in Hend.
    assert (mapM (fun i => FData <$> ch_inputs ch !! i) (ch_indices ch) = Some (FData <$> fs)) as ->;
      [|done].
    apply mapM_Some. unfold ch_indices. rewrite Hend.
    replace (Z.of_nat n - 1 + 1) with (Z.of_nat n) by lia.
    apply Forall2_same_length_lookup. rewrite length_seqZ, length_fmap, Nat2Z.id. split; [done|].
    intros i k d [-> Hlt]%lookup_seqZ Hd. rewrite list_lookup_fmap in Hd.
    destruct (fs !! i) as [f|] eqn:Ef; simpl in Hd; [|done]. injection Hd as <-.
    rewrite Z.add_0_l, (Hin i f Ef). done.
Qed.
End Reassembly.

Lemma filled_NewChannel id fs open :
  complete_frames id fs -> filled id fs [] (NewChannel id open).
Proof.
  intros Hfs. split; simpl; [apply NewChannel_inv|done| | |].
  - intros k f. rewrite lookup_empty. set_solver.
  - set_solver.
  - pose proof (cf_nonempty _ _ Hfs). destruct fs; [done|]. cbn [length]. lia.
Qed.

Lemma complete_NoDup id fs : complete_frames id fs -> NoDup fs.
Proof.
  intros Hfs. apply NoDup_alt. intros i j f Hi Hj.
  apply (cf_lookup _ _ Hfs) in Hi as (_ & Hi & _). apply (cf_lookup _ _ Hfs) in Hj as (_ & Hj & _). lia.
Qed.

Lemma reassemble id fs arrived openBlock l1Block :
  complete_frames id fs -> arrived ≡ₚ fs ->
  exists ch, AddFrames arrived l1Block (NewChannel id openBlock) = (Ok tt, ch) /\
    IsReady ch = true /\ Reader ch = Some (concat (FData <$> fs)).
Proof.
  intros Hfs Hp.
  destruct (AddFrames_filled id fs Hfs l1Block arrived [] (NewChannel id openBlock))
    as (ch & Hch & Hfi).
  - rewrite app_nil_r, Hp. by eapply complete_NoDup.
  - rewrite app_nil_r. by rewrite Hp.
  - by apply filled_NewChannel.
  - exists ch. split; [done|]. apply (filled_complete id fs Hfs (rev arrived ++ []) ch); [|done].
    rewrite app_nil_r. by rewrite <- Hp, <- Permutation_rev.
Qed.

(** C35: a channel is reassembled from its frames in whatever order they arrive: if
    [fs] are the frames of a whole channel and [arrived] is any permutation of them,
    a new channel accepts every one of them, is then ready, and its reader yields
    the concatenation of their data in frame order. *)
Theorem reassemble_any_order id fs arrived openBlock l1Block :
  complete_frames id fs -> arrived ≡ₚ fs ->
  exists ch, AddFrames arrived l1Block (NewChannel id openBlock) = (Ok tt, ch) /\
    IsReady ch = true /\ Reader ch = Some (concat (FData <$> fs)).
Proof. apply reassemble. Qed.

Definition example_frames : list Frame :=
  [mkFrame 7 0 [Byte.x61] false; mkFrame 7 1 [Byte.x62; Byte.x63] false; mkFrame 7 2 [Byte.x64] true].

Lemma example_frames_complete : complete_frames 7 example_frames.
Proof.
  split; [done|by_decide|].
  intros [|[|[|i]]] f; simpl; intros; simplify_eq; done.
Qed.

Lemma reassemble_any_order_witness :
  exists ch, AddFrames (rev example_frames) zeroL1 (NewChannel 7 zeroL1) = (Ok tt, ch) /\
    IsReady ch = true /\ Reader ch = Some [Byte.x61; Byte.x62; Byte.x63; Byte.x64].
Proof.
  apply (reassemble_any_order 7 example_frames).
  - apply example_frames_complete.
  - symmetry. apply Permutation_rev.
Defined.

(** After a closing frame prunes the channel, the size counter restarts from the
    closing frame alone: the frames that stay buffered before it are no longer
    counted, so the counter is smaller than the real size by exactly their size. *)
Theorem pruning_forgets_kept_frames frame b ch ch' :
  channel_inv ch -> frame_wf frame -> will_prune frame ch = true ->
  AddFrame frame b ch = (Ok tt, ch') ->
  ch_size ch' = frameSize frame /\
  ch_true_size ch' = ch_size ch' + map_sum frameSize (prune_inputs ch (FrameNumber frame)).
Proof.
  intros Hinv Hwf Hp H. apply AddFrame_size in H as [-> ->]; [|done..].
  rewrite Hp. split; lia.
Qed.

(** Frames 0 and 5 are buffered when frame 2 closes the channel: frame 0 stays but is
    not counted any more. *)
Definition pruned_channel : Channel :=
  (AddFrames [mkFrame 7 0 [Byte.x61] false; mkFrame 7 5 [Byte.x62] false] zeroL1
    (NewChannel 7 zeroL1)).2.

Lemma pruned_channel_inv : channel_inv pruned_channel.
Proof.
  unfold pruned_channel. simpl AddFrames. unfold bind.
  assert (forall f ch, frame_wf f -> channel_inv ch ->
            channel_inv (AddFrame f zeroL1 ch).2) as Hstep by (intros; by apply AddFrame_inv).
  assert (frame_wf (mkFrame 7 0 [Byte.x61] false)) as H0 by by_decide.
  assert (frame_wf (mkFrame 7 5 [Byte.x62] false)) as H5 by by_decide.
  pose proof (Hstep _ _ H0 (NewChannel_inv 7 zeroL1)) as H1.
  destruct (AddFrame (mkFrame 7 0 [Byte.x61] false) _ _) as [[[]|e|] ch1]; [|done..].
  pose proof (Hstep _ _ H5 H1) as H2.
  by destruct (AddFrame (mkFrame 7 5 [Byte.x62] false) _ _) as [[[]|e|] ch2].
Qed.

Definition closing_frame : Frame := mkFrame 7 2 [Byte.x63] true.

Lemma pruning_forgets_kept_frames_witness :
  let ch' := (AddFrame closing_frame zeroL1 pruned_channel).2 in
  (ch_size ch' = frameSize closing_frame /\
   ch_true_size ch' = ch_size ch' + map_sum frameSize (prune_inputs pruned_channel 2)) /\
  map_sum frameSize (prune_inputs pruned_channel 2) = 201.
Proof.
  intros ch'. split; [|vm_compute; reflexivity].
  apply (pruning_forgets_kept_frames closing_frame zeroL1 pruned_channel ch').
  - apply pruned_channel_inv.
  - by_decide.
  - vm_compute. reflexivity.
  - vm_compute. reflexivity.
Defined.
