(* ===== verification/Batch.v ===== *)
(** * Batches

    [op-node/rollup/derive/batch.go].  A batch is the sequencer's list of
    transactions for one L2 block.  RLP comes from go-ethereum and is a parameter. *)
From S2P Require Import Prelude GoErrors GoBytes EthTypes.
#[local] Open Scope Z_scope.

Definition BatchV1Type : byte := Byte.x00.

Record BatchV1 := mkBatchV1 {
  b_ParentHash : Hash;
  b_EpochNum : Z;
  b_EpochHash : Hash;
  b_Timestamp : Z;
  b_Transactions : list Data }.

#[export] Instance BatchV1_eq_dec : EqDecision BatchV1.
Proof. solve_decision. Defined.

(** [BatchData] embeds [BatchV1] and adds nothing. *)
Record BatchData := mkBatchData { bd_V1 : BatchV1 }.

#[export] Instance BatchData_eq_dec : EqDecision BatchData.
Proof. solve_decision. Defined.

(** [BatchV1.Epoch]. *)
Definition Epoch (b : BatchV1) : BlockID := mkBlockID (b_EpochHash b) (b_EpochNum b).

Record BatchWithL1InclusionBlock := mkBatchL1 {
  L1InclusionBlock : L1BlockRef;
  Batch : BatchData }.

#[export] Instance BatchWithL1InclusionBlock_eq_dec : EqDecision BatchWithL1InclusionBlock.
Proof. solve_decision. Defined.

(** The accessors the promoted fields of the source give. *)
Definition bt_ParentHash (b : BatchWithL1InclusionBlock) := b_ParentHash (bd_V1 (Batch b)).
Definition bt_EpochNum (b : BatchWithL1InclusionBlock) := b_EpochNum (bd_V1 (Batch b)).
Definition bt_EpochHash (b : BatchWithL1InclusionBlock) := b_EpochHash (bd_V1 (Batch b)).
Definition bt_Timestamp (b : BatchWithL1InclusionBlock) := b_Timestamp (bd_V1 (Batch b)).
Definition bt_Transactions (b : BatchWithL1InclusionBlock) := b_Transactions (bd_V1 (Batch b)).

Section Encoding.
(** RLP of go-ethereum: encoding a batch and a byte string, decoding a batch. *)
Variable rlp_encode_batch : BatchV1 -> result Data.
Variable rlp_encode_bytes : Data -> result Data.
Variable rlp_decode_batch : Data -> result BatchV1.

(** [BatchData.encodeTyped], into an empty buffer. *)
Definition encodeTyped (b : BatchData) : result Data :=
  let? enc := rlp_encode_batch (bd_V1 b) in Ok (BatchV1Type :: enc).

(** [BatchData.MarshalBinary]. *)
Definition Batch_MarshalBinary (b : BatchData) : result Data := encodeTyped b.

(** [BatchData.EncodeRLP]: the typed encoding, wrapped as an RLP string. *)
Definition EncodeRLP (b : BatchData) : result Data :=
  let? buf := encodeTyped b in rlp_encode_bytes buf.

(** [BatchData.decodeTyped]. *)
Definition decodeTyped (data : Data) : result BatchData :=
  match data with
  | [] => Err (ErrNew "batch too short")
  | ty :: rest =>
      if bool_decide (ty = BatchV1Type) then
        let? b := rlp_decode_batch rest in Ok (mkBatchData b)
      else Err (ErrNew "unrecognized batch type")
  end.

(** [BatchData.UnmarshalBinary]. *)
Definition Batch_UnmarshalBinary (data : Data) : result BatchData := decodeTyped data.

(** [BatchData.DecodeRLP], given the bytes of the next RLP string of the stream. *)
Definition DecodeRLP (bytes : result Data) : result BatchData :=
  let? v := bytes in decodeTyped v.
End Encoding.

(** ** The batch provider interface

    What the channel reader promises to the batch queue. *)
Class NextBatchProvider (P : Type) := {
  nbp_NextBatch : M P BatchData;
  nbp_Origin : P -> L1BlockRef }.
