(* ===== verification/ChannelOut.v ===== *)
(** * The sender's side of the channel format

    [op-node/rollup/derive/channel_out.go]: L2 blocks become batches, batches are
    written to a compressor, and the compressed bytes are cut into frames. *)
From S2P Require Import Prelude GoErrors GoBytes EthTypes Geth Solabi Deposits L1Info Frame Channel Batch.
#[local] Open Scope Z_scope.

(** [FrameV0OverHeadSize]. *)
Definition FrameV0OverHeadSize : Z := 23.

(** ** The compressor interface

    [Compressor] of the source.  [Read] may return bytes together with an error, as an
    [io.Reader] may. *)
Class Compressor (C : Type) := {
  c_Write : Data -> M C Z;
  c_Close : M C unit;
  c_Read : nat -> C -> Data * option error * C;
  c_Reset : C -> C;
  c_Len : C -> Z;
  c_Flush : M C unit;
  c_FullErr : C -> option error }.

(** What a compressor promises: behind it is a buffer of the bytes ready to be read, from
    which [Read] takes, whose length [Len] returns, and to which [Write], [Flush] and
    [Close] only append. *)
Class LawfulCompressor (C : Type) `{Compressor C} := {
  c_buf : C -> Data;
  c_buf_len c : c_Len c = Z.of_nat (length (c_buf c));
  c_read n c : (0 < n <= length (c_buf c))%nat ->
    exists c', c_Read n c = (take n (c_buf c), None, c') /\ c_buf c' = drop n (c_buf c);
  c_write p c r c' : c_Write p c = (r, c') -> exists more, c_buf c' = c_buf c ++ more;
  c_flush c r c' : c_Flush c = (r, c') -> exists more, c_buf c' = c_buf c ++ more;
  c_close c r c' : c_Close c = (r, c') -> exists more, c_buf c' = c_buf c ++ more }.

(** A compressor that is faithful to the decompressor [unzip]: it knows everything that was
    written to it ([c_in]) and everything it put out ([c_out]); until it is closed writes
    succeed, or are refused as a whole because it is full; and what it put out when it was
    closed decompresses to what was written. *)
Class FaithfulCompressor (C : Type) (unzip : Data -> option Data) `{LawfulCompressor C} := {
  c_in : C -> Data;
  c_out : C -> Data;
  c_open : C -> Prop;
  f_read n c d err c' : c_Read n c = (d, err, c') ->
    c_in c' = c_in c /\ c_out c' = c_out c /\ (c_open c -> c_open c');
  f_write p c r c' : c_open c -> c_Write p c = (r, c') ->
    c_open c' /\
    ((exists n, r = Ok n /\ c_in c' = c_in c ++ p) \/ (r = Err CompressorFullErr /\ c_in c' = c_in c)) /\
    exists more, c_buf c' = c_buf c ++ more /\ c_out c' = c_out c ++ more;
  f_close c : c_open c ->
    exists c', c_Close c = (Ok tt, c') /\ c_in c' = c_in c /\ unzip (c_out c') = Some (c_in c') /\
      exists more, c_buf c' = c_buf c ++ more /\ c_out c' = c_out c ++ more }.

(** [io.ReadFull] over the compressor: reads until [need] bytes are there.  A reader that
    keeps returning nothing makes the loop of the source run for ever; one byte per
    iteration is enough fuel for all others. *)
Fixpoint read_full_loop {C} `{Compressor C} (fuel need : nat) (acc : Data) (c : C) : result Data * C :=
  match need, fuel with
  | O, _ => (Ok acc, c)
  | _, O => (Err (ErrNew "out of fuel"), c)
  | _, S fuel' =>
      let '(d, err, c') := c_Read need c in
      let acc' := acc ++ d in
      if (need <=? length d)%nat then (Ok acc', c')
      else match err with
           | None => read_full_loop fuel' (need - length d) acc' c'
           | Some err =>
               if err_eqb err EOF && negb (length acc' =? 0)%nat then (Err ErrUnexpectedEOF, c')
               else (Err err, c')
           end
  end.
Definition io_ReadFull {C} `{Compressor C} (n : nat) : M C Data := fun c => read_full_loop n n [] c.

(** ** Blocks *)

(** A transaction of a block: its type and data, and what its [MarshalBinary] returns. *)
Record BlockTx := mkBlockTx { btx_tx : Transaction; btx_MarshalBinary : result Data }.

(** The parts of a [types.Block] the batcher looks at, as the values its methods return. *)
Record Block := mkBlock {
  blk_Hash : Hash;
  blk_ParentHash : Hash;
  blk_NumberU64 : Z;
  blk_Time : Z;
  blk_Transactions : list BlockTx }.

(** The loop of [BlockToBatch]: the encodings of the transactions that are not deposits. *)
Fixpoint opaque_txs (txs : list BlockTx) : result (list Data) :=
  match txs with
  | [] => Ok []
  | tx :: txs' =>
      if tx_Type (btx_tx tx) =? Z_of_byte DepositTxType then opaque_txs txs'
      else
        let? otx := map_err (ErrWrap "could not encode tx") (btx_MarshalBinary tx) in
        let? otxs := opaque_txs txs' in
        Ok (otx :: otxs)
  end.

Section BlockToBatch.
Context `{Keccak}.

(** [BlockToBatch]; the L1 information that accompanies an error is not used. *)
Definition BlockToBatch (block : Block) : result (BatchData * L1BlockInfo) :=
  let? opaqueTxs := opaque_txs (blk_Transactions block) in
  match blk_Transactions block with
  | [] => Err (ErrNew "block has no transactions")
  | l1InfoTx :: _ =>
      if negb (tx_Type (btx_tx l1InfoTx) =? Z_of_byte DepositTxType) then Err ErrNotDepositTx
      else
        let? l1Info := map_err (ErrWrap "could not parse the L1 Info deposit")
                         (L1InfoDepositTxData (tx_Data (btx_tx l1InfoTx))) in
        Ok (mkBatchData (mkBatchV1 (blk_ParentHash block) (li_Number l1Info) (li_BlockHash l1Info)
                           (blk_Time block) opaqueTxs), l1Info)
  end.
End BlockToBatch.

(** ** The outgoing channel *)
Module ChannelOut.
Section ChannelOut.
Context {C : Type} `{Compressor C} `{Keccak}.
Context (rlp_encode_batch : BatchV1 -> result Data) (rlp_encode_bytes : Data -> result Data).

(** [ChannelOut]; [frame] is the number of the next frame. *)
Record t := mk {
  id : ChannelID;
  frame : Z;
  rlpLength : Z;
  compress : C;
  closed : bool }.

(** [NewChannelOut] and [ChannelOut.Reset], given the random bytes that were read (an
    error of the random source leaves the new state in place). *)
Definition new (compress : C) (rand : result ChannelID) : result t :=
  let? id := rand in Ok (mk id 0 0 compress false).
Definition Reset (rand : result ChannelID) : M t unit := fun co =>
  match rand with
  | Ok id' => (Ok tt, mk id' 0 0 (c_Reset (compress co)) false)
  | Err e => (Err e, mk (id co) 0 0 (c_Reset (compress co)) false)
  | Panic => (Panic, mk (id co) 0 0 (c_Reset (compress co)) false)
  end.

Definition on_compress {A} (m : M C A) : M t A :=
  zoom compress (fun c co => mk (id co) (frame co) (rlpLength co) c (closed co)) m.

(** [ChannelOut.AddBatch]; lengths are Go ints, which a buffer in memory cannot exceed. *)
Definition AddBatch (batch : BatchData) : M t Z :=
  co <- get ;;
  if closed co then throw (ErrNew "already closed")
  else
    buf <- lift (EncodeRLP rlp_encode_batch rlp_encode_bytes batch) ;;
    if MaxRLPBytesPerChannel <? rlpLength co + Z.of_nat (length buf) then
      throw (ErrWrap "could not add bytes to channel" ErrTooManyRLPBytes)
    else
      put (mk (id co) (frame co) (rlpLength co + Z.of_nat (length buf)) (compress co) (closed co)) ;;;
      on_compress (c_Write buf).

(** [ChannelOut.AddBlock]. *)
Definition AddBlock (block : Block) : M t Z :=
  co <- get ;;
  if closed co then throw (ErrNew "already closed")
  else batch <- lift (BlockToBatch block) ;; AddBatch batch.1.

(** [ChannelOut.InputBytes], [ReadyBytes], [Flush] and [FullErr]. *)
Definition InputBytes (co : t) : Z := rlpLength co.
Definition ReadyBytes (co : t) : Z := c_Len (compress co).
Definition Flush : M t unit := on_compress c_Flush.
Definition FullErr (co : t) : option error := c_FullErr (compress co).

(** [ChannelOut.Close]. *)
Definition Close : M t unit :=
  co <- get ;;
  if closed co then throw (ErrNew "already closed")
  else
    put (mk (id co) (frame co) (rlpLength co) (compress co) true) ;;;
    on_compress c_Close.

(** [ChannelOut.OutputFrame]: the bytes written, the frame number, and whether [io.EOF]
    is returned with it. *)
Definition OutputFrame (maxSize : Z) : M t (Data * Z * bool) :=
  co <- get ;;
  if maxSize <? FrameV0OverHeadSize then throw ErrMaxFrameSizeTooSmall
  else
    let maxDataSize := maxSize -u FrameV0OverHeadSize in
    let len := u64 (c_Len (compress co)) in
    let all := len <? maxDataSize in
    let size := if all then len else maxDataSize in
    data <- on_compress (io_ReadFull (Z.to_nat size)) ;;
    let f := mkFrame (id co) (u16 (frame co)) data (all && closed co) in
    modify (fun co => mk (id co) (frame co +u 1) (rlpLength co) (compress co) (closed co)) ;;;
    ret (MarshalBinary f, FrameNumber f, IsLast f).
End ChannelOut.
Arguments t : clear implicits.
End ChannelOut.

(** ** Closing a channel by force *)

(** The loop of [ForceCloseTxData] over the given frames: the frame numbers seen, the
    number that closes the channel and whether there is one. *)
Fixpoint scan_frames (id : ChannelID) (frames : list Frame) (numbers : gset Z) (closeNumber : Z)
    (closed : bool) : result (gset Z * Z * bool) :=
  match frames with
  | [] => Ok (numbers, closeNumber, closed)
  | f :: frames' =>
      let closeNumber := if negb closed && IsLast f then FrameNumber f else closeNumber in
      let closed := closed || IsLast f in
      let numbers := {[FrameNumber f]} ∪ numbers in
      if negb (ID f =? id) then Err (ErrNew "invalid ID in list")
      else scan_frames id frames' numbers closeNumber closed
  end.

(** The second loop: an empty frame for every missing number up to [closeNumber].  The
    counter is a [uint16]: [None] when the fuel did not suffice. *)
Fixpoint fill_gaps (fuel : nat) (id : ChannelID) (numbers : gset Z) (i closeNumber : Z) : option Data :=
  if i <=? closeNumber then
    match fuel with
    | O => None
    | S fuel' =>
        let out := if decide (i ∈ numbers) then [] else MarshalBinary (mkFrame id i [] false) in
        app out <$> fill_gaps fuel' id numbers (u16 (i + 1)) closeNumber
    end
  else Some [].

(** [ForceCloseTxData]; [Ok None] when the fuel did not suffice. *)
Definition ForceCloseTxData (fuel : nat) (frames : list Frame) : result (option Data) :=
  match frames with
  | [] => Err (ErrNew "must provide at least one frame")
  | f :: _ =>
      let? (numbers, closeNumber, closed) := scan_frames (ID f) frames ∅ 0 false in
      if negb closed then
        Ok (Some (DerivationVersion0 :: MarshalBinary (mkFrame (ID f) 0 [] true)))
      else Ok (cons DerivationVersion0 <$> fill_gaps fuel (ID f) numbers 0 closeNumber)
  end.

(** ** What is sent is received *)
Section Sender.
Import ChannelOut.
Context {C : Type} `{LawfulCompressor C}.
Context (rlp_encode_batch : BatchV1 -> result Data) (rlp_encode_bytes : Data -> result Data).
Implicit Types co : t C.

Lemma io_ReadFull_Ok n (c : C) :
  (n <= length (c_buf c))%nat ->
  exists c', io_ReadFull n c = (Ok (take n (c_buf c)), c') /\ c_buf c' = drop n (c_buf c).
Proof.
  intros Hn. unfold io_ReadFull. destruct n as [|n]; [by exists c|].
  destruct (c_read (S n) c) as (c' & Hr & Hb); [lia|]. exists c'. split; [|done].
  cbn [read_full_loop]. rewrite Hr, app_nil_l, length_take.
  by destruct (Nat.leb_spec (S n) (S n `min` length (c_buf c))); [|lia].
Qed.

(** The bytes a call appended to the buffer. *)
Definition appended co co' : Data :=
  drop (length (c_buf (compress co))) (c_buf (compress co')).

(** How many bytes a frame of at most [maxSize] bytes takes from the buffer. *)
Definition frame_bytes (maxSize : Z) co : Z := Z.min (Z.of_nat (length (c_buf (compress co)))) (maxSize - 23).

Lemma OutputFrame_Ok maxSize co :
  23 <= maxSize < two64 -> Z.of_nat (length (c_buf (compress co))) < two64 ->
  let n := Z.to_nat (frame_bytes maxSize co) in
  let last := (Z.of_nat (length (c_buf (compress co))) <? maxSize - 23) && closed co in
  exists c',
    OutputFrame maxSize co =
      (Ok (MarshalBinary (mkFrame (id co) (u16 (frame co)) (take n (c_buf (compress co))) last),
           u16 (frame co), last),
       mk (id co) (frame co +u 1) (rlpLength co) c' (closed co)) /\
    c_buf c' = drop n (c_buf (compress co)).
Proof.
  intros Hm Hlen n last.
  assert (Hn : (n <= length (c_buf (compress co)))%nat) by (subst n; unfold frame_bytes; lia).
  destruct (io_ReadFull_Ok n (compress co) Hn) as (c' & Hr & Hb). exists c'. split; [|done].
  unfold OutputFrame, bind at 1, get. unfold FrameV0OverHeadSize.
  destruct (Z.ltb_spec maxSize 23); [lia|].
  rewrite c_buf_len, !u64_small by lia.
  unfold bind, on_compress, zoom, modify, ret.
  replace (Z.to_nat (if Z.of_nat (length (c_buf (compress co))) <? maxSize - 23
                     then Z.of_nat (length (c_buf (compress co))) else maxSize - 23)) with n.
  2:{ subst n. unfold frame_bytes. destruct (Z.ltb_spec (Z.of_nat (length (c_buf (compress co)))) (maxSize - 23));
        f_equal; lia. }
  by rewrite Hr.
Qed.

Lemma OutputFrame_too_small maxSize co :
  maxSize < 23 -> OutputFrame maxSize co = (Err ErrMaxFrameSizeTooSmall, co).
Proof.
  intros. unfold OutputFrame, bind, get, FrameV0OverHeadSize. destruct (Z.ltb_spec maxSize 23); [done|lia].
Qed.

(** The uses of an outgoing channel, and what they produce: the frames written so far,
    the bytes that went into the buffer, and whether the last frame is out. *)
Inductive out_op :=
  | OpAdd (batch : BatchData)
  | OpFlush
  | OpClose
  | OpOutput (maxSize : Z).

Record life := mkLife { lf_out : t C; lf_frames : list Data; lf_stream : Data; lf_done : bool }.

Definition write_op (co' : t C) (l : life) : life :=
  mkLife co' (lf_frames l) (lf_stream l ++ appended (lf_out l) co') (lf_done l).

(** A channel is dropped after its last frame: later operations are not made. *)
Definition run_op (l : life) (o : out_op) : life :=
  if lf_done l then l
  else match o with
       | OpAdd batch => write_op (AddBatch rlp_encode_batch rlp_encode_bytes batch (lf_out l)).2 l
       | OpFlush => write_op (Flush (lf_out l)).2 l
       | OpClose => write_op (Close (lf_out l)).2 l
       | OpOutput maxSize =>
           match OutputFrame maxSize (lf_out l) with
           | (Ok (bytes, _, last), co') => mkLife co' (lf_frames l ++ [bytes]) (lf_stream l) last
           | (_, co') => mkLife co' (lf_frames l) (lf_stream l) false
           end
       end.

(** An operation that respects the limits of the format. *)
Definition op_ok (o : out_op) : Prop :=
  match o with OpOutput maxSize => maxSize <= MaxFrameLen + 23 | _ => True end.

Record life_inv (channel : ChannelID) (l : life) (fs : list Frame) : Prop := {
  li_id : id (lf_out l) = channel;
  li_frame : frame (lf_out l) = u64 (Z.of_nat (length fs));
  li_frames : lf_frames l = MarshalBinary <$> fs;
  li_lookup i f : fs !! i = Some f ->
    ID f = channel /\ FrameNumber f = u16 (Z.of_nat i) /\
    IsLast f = lf_done l && bool_decide (S i = length fs) /\ Z.of_nat (length (FData f)) <= MaxFrameLen;
  li_stream : concat (FData <$> fs) ++ c_buf (compress (lf_out l)) = lf_stream l;
  li_done : lf_done l = true -> fs <> [] /\ c_buf (compress (lf_out l)) = [] }.

Lemma write_op_inv channel l fs co' more :
  life_inv channel l fs -> lf_done l = false ->
  id co' = id (lf_out l) -> frame co' = frame (lf_out l) ->
  c_buf (compress co') = c_buf (compress (lf_out l)) ++ more ->
  life_inv channel (write_op co' l) fs.
Proof.
  intros [] Hd Hi Hf Hb. unfold write_op, appended. rewrite Hb, drop_app_length.
  split; cbn [lf_out lf_frames lf_stream lf_done]; [congruence..|done| |congruence].
  by rewrite Hb, app_assoc, li_stream0.
Qed.

Lemma on_compress_buf {A} (m : M C A) co r co' :
  (forall c r c', m c = (r, c') -> exists more, c_buf c' = c_buf c ++ more) ->
  on_compress m co = (r, co') ->
  id co' = id co /\ frame co' = frame co /\ exists more, c_buf (compress co') = c_buf (compress co) ++ more.
Proof.
  intros Hm. unfold on_compress, zoom. destruct (m (compress co)) as [r' c'] eqn:E. intros [= <- <-].
  cbn. eauto.
Qed.

Lemma AddBatch_buf batch co :
  let co' := (AddBatch rlp_encode_batch rlp_encode_bytes batch co).2 in
  id co' = id co /\ frame co' = frame co /\ exists more, c_buf (compress co') = c_buf (compress co) ++ more.
Proof.
  unfold AddBatch, bind, get. destruct (closed co); [split_and!; [done..|]; exists []; by rewrite app_nil_r|].
  unfold lift. destruct (EncodeRLP _ _ batch) as [buf|e|];
    [|split_and!; [done..|]; exists []; by rewrite app_nil_r..].
  destruct (MaxRLPBytesPerChannel <? _); [split_and!; [done..|]; exists []; by rewrite app_nil_r|].
  unfold put. cbv zeta. destruct (on_compress _ _) as [r co'] eqn:E.
  apply on_compress_buf in E; [|apply c_write]. done.
Qed.

Lemma Flush_buf co :
  let co' := (Flush co).2 in
  id co' = id co /\ frame co' = frame co /\ exists more, c_buf (compress co') = c_buf (compress co) ++ more.
Proof. cbv zeta. destruct (Flush co) as [r co'] eqn:E. apply on_compress_buf in E; [|apply c_flush]. done. Qed.

Lemma Close_buf co :
  let co' := (Close co).2 in
  id co' = id co /\ frame co' = frame co /\ exists more, c_buf (compress co') = c_buf (compress co) ++ more.
Proof.
  unfold Close, bind, get. destruct (closed co); [split_and!; [done..|]; exists []; by rewrite app_nil_r|].
  unfold put. cbv zeta. destruct (on_compress _ _) as [r co'] eqn:E.
  apply on_compress_buf in E; [|apply c_close]. done.
Qed.

Lemma output_life channel l fs maxSize :
  life_inv channel l fs -> lf_done l = false -> 23 <= maxSize <= MaxFrameLen + 23 ->
  Z.of_nat (length (c_buf (compress (lf_out l)))) < two64 ->
  exists f co',
    OutputFrame maxSize (lf_out l) = (Ok (MarshalBinary f, FrameNumber f, IsLast f), co') /\
    life_inv channel (mkLife co' (lf_frames l ++ [MarshalBinary f]) (lf_stream l) (IsLast f)) (fs ++ [f]) /\
    IsLast f = (Z.of_nat (length (c_buf (compress (lf_out l)))) <? maxSize - 23) && closed (lf_out l) /\
    c_buf (compress co') = drop (Z.to_nat (frame_bytes maxSize (lf_out l))) (c_buf (compress (lf_out l))) /\
    closed co' = closed (lf_out l).
Proof.
  intros [] Hd Hm Hlen.
  destruct (OutputFrame_Ok maxSize (lf_out l)) as (c' & Ho & Hb);
    [unfold MaxFrameLen, two64 in *; lia|done|].
  set (n := Z.to_nat (frame_bytes maxSize (lf_out l))) in *.
  eexists (mkFrame _ _ _ _), _. split; [exact Ho|]. split; [|done].
  set (f := mkFrame _ _ _ _). split; cbn [lf_out lf_frames lf_stream lf_done].
  - done.
  - cbn. rewrite li_frame0, u64_add_l, length_app. cbn. f_equal. lia.
  - rewrite li_frames0, fmap_app. done.
  - intros i g Hg. rewrite length_app. cbn [length].
    apply lookup_app_Some in Hg as [Hg|[Hi Hg]].
    + pose proof (lookup_lt_Some _ _ _ Hg). destruct (li_lookup0 i g Hg) as (? & ? & Hl & ?).
      split_and!; [done..| |done]. rewrite Hl, Hd, (bool_decide_eq_false_2 (S i = (length fs + 1)%nat)) by lia.
      by rewrite andb_false_r.
    + apply list_lookup_singleton_Some in Hg as [Hz <-]. subst f. cbn.
      assert (i = length fs) as -> by lia. rewrite (bool_decide_eq_true_2 (S (length fs) = (length fs + 1)%nat)) by lia.
      split_and!; [done| |by rewrite andb_true_r|].
      * rewrite li_frame0. unfold u64, u16, two64. change 18446744073709551616 with (65536 * 281474976710656).
        apply Z.mod_mod_divide. by exists 281474976710656.
      * rewrite length_take. subst n. unfold frame_bytes. lia.
  - rewrite fmap_app, concat_app, <- app_assoc, <- li_stream0. cbn [compress]. rewrite Hb.
    cbn [fmap list_fmap concat FData f]. rewrite app_nil_r. by rewrite take_drop.
  - intros [Hl _]%andb_true_iff. split; [by destruct fs|]. zify_bools.
    cbn [compress]. rewrite Hb. apply drop_ge. subst n. unfold frame_bytes. lia.
Qed.

Lemma output_inv channel l fs maxSize :
  life_inv channel l fs -> lf_done l = false -> maxSize <= MaxFrameLen + 23 ->
  Z.of_nat (length (c_buf (compress (lf_out l)))) < two64 ->
  exists fs', life_inv channel (run_op l (OpOutput maxSize)) fs'.
Proof.
  intros Hl Hd Hm Hlen. destruct (Z.lt_ge_cases maxSize 23) as [Hs|Hs].
  - exists fs. unfold run_op. rewrite Hd, OutputFrame_too_small by done.
    replace (mkLife _ _ _ false) with l by (destruct l; cbn in *; congruence). done.
  - destruct (output_life channel l fs maxSize) as (f & co' & Ho & Hl' & _); [done..|].
    exists (fs ++ [f]). unfold run_op. by rewrite Hd, Ho.
Qed.

Lemma run_op_inv channel l fs o :
  life_inv channel l fs -> op_ok o -> Z.of_nat (length (c_buf (compress (lf_out l)))) < two64 ->
  exists fs', life_inv channel (run_op l o) fs'.
Proof.
  intros Hl Ho Hlen. destruct (lf_done l) eqn:Hd; [exists fs; unfold run_op; by rewrite Hd|].
  destruct o; [..|by apply output_inv with fs]; exists fs; unfold run_op; rewrite Hd.
  - destruct (AddBatch_buf batch (lf_out l)) as (? & ? & more & ?). by eapply write_op_inv.
  - destruct (Flush_buf (lf_out l)) as (? & ? & more & ?). by eapply write_op_inv.
  - destruct (Close_buf (lf_out l)) as (? & ? & more & ?). by eapply write_op_inv.
Qed.

Lemma run_op_stream l o : (length (lf_stream l) <= length (lf_stream (run_op l o)))%nat.
Proof.
  unfold run_op. destruct (lf_done l); [done|].
  destruct o; cbn [write_op lf_stream]; rewrite ?length_app; try lia.
  destruct (OutputFrame maxSize (lf_out l)) as [[[[? ?] ?]|?|] ?]; cbn; lia.
Qed.

Lemma run_ops_inv channel co0 ops :
  id co0 = channel -> frame co0 = 0 -> c_buf (compress co0) = [] -> Forall op_ok ops ->
  let l := foldl run_op (mkLife co0 [] [] false) ops in
  Z.of_nat (length (lf_stream l)) < two64 ->
  exists fs, life_inv channel l fs.
Proof.
  intros Hid Hf Hb. induction ops as [|o ops IH] using rev_ind; intros Hops l Hlen.
  { exists []. split; cbn; try done. }
  subst l. rewrite foldl_app in *. cbn [foldl] in *. apply Forall_app in Hops as [Hops Ho].
  rewrite Forall_singleton in Ho.
  set (l := foldl _ _ ops) in *. pose proof (run_op_stream l o).
  destruct IH as [fs Hfs]; [done|lia|]. apply run_op_inv with fs; [done..|].
  pose proof (f_equal length (li_stream _ _ _ Hfs)) as Hs. rewrite length_app in Hs. lia.
Qed.

(** Frames of a finished channel that are few enough to have different numbers can be
    read: each from its transaction, and all of them in any order. *)
Definition readable (channel : ChannelID) (fs : list Frame) (stream : Data) : Prop :=
  Forall (fun f => ParseFrames (DerivationVersion0 :: MarshalBinary f) = Ok [f]) fs /\
  forall arrived openBlock l1Block, arrived ≡ₚ fs ->
    exists ch, AddFrames arrived l1Block (NewChannel channel openBlock) = (Ok tt, ch) /\
      IsReady ch = true /\ Reader ch = Some stream.

Lemma life_readable channel l fs :
  0 <= channel < 256 ^ 16 -> life_inv channel l fs -> lf_done l = true ->
  Z.of_nat (length fs) <= 65536 -> readable channel fs (lf_stream l).
Proof.
  intros Hch Hfs Hdone Hnum.
  assert (Hwf : Forall frame_wf fs).
  { apply Forall_lookup. intros i f Hi. pose proof (lookup_lt_Some _ _ _ Hi).
    destruct (li_lookup _ _ _ Hfs i f Hi) as (Hi' & Hn & _ & Hs). unfold frame_wf.
    rewrite Hi', Hn. split; [lia|]. split; [apply Z.mod_pos_bound; lia|done]. }
  destruct (li_done _ _ _ Hfs Hdone) as [Hne Hbuf]. split.
  - eapply Forall_impl; [apply Hwf|]. intros f Hf. apply ParseFrames_spec.
    cbn [fmap list_fmap concat]. rewrite app_nil_r. split_and!; [done..|by constructor].
  - intros arrived openBlock l1Block Hp. rewrite <- (li_stream _ _ _ Hfs), Hbuf, app_nil_r.
    apply reassemble; [|done]. split; [done..|].
    intros i f Hi. pose proof (lookup_lt_Some _ _ _ Hi).
    destruct (li_lookup _ _ _ Hfs i f Hi) as (? & Hn & Hl & _). split_and!; [done| |by rewrite Hl, Hdone].
    rewrite Hn. apply Z.mod_small. lia.
Qed.

(** What the batcher sends is what the node receives.  Take a channel from its start
    through any sequence of batches, flushes, frame outputs (of sizes the format allows)
    and a close, up to its last frame.  When it has at most 65536 frames, every frame is
    parsed back from the transaction that carries it, and in whatever order the frames
    arrive, the receiving channel accepts all of them, is ready, and reads exactly the
    bytes the compressor put out. *)
Theorem channel_out_roundtrip channel co0 ops :
  id co0 = channel -> frame co0 = 0 -> c_buf (compress co0) = [] -> 0 <= channel < 256 ^ 16 ->
  Forall op_ok ops ->
  let l := foldl run_op (mkLife co0 [] [] false) ops in
  lf_done l = true -> Z.of_nat (length (lf_frames l)) <= 65536 -> Z.of_nat (length (lf_stream l)) < two64 ->
  exists fs, lf_frames l = MarshalBinary <$> fs /\ readable channel fs (lf_stream l).
Proof.
  intros Hid Hf0 Hb Hch Hops l Hdone Hnum Hlen.
  destruct (run_ops_inv channel co0 ops Hid Hf0 Hb Hops Hlen) as [fs Hfs]. fold l in Hfs. exists fs.
  rewrite (li_frames _ _ _ Hfs), length_fmap in Hnum. split; [apply Hfs|by apply life_readable].
Qed.
End Sender.

(** ** Properties of closing by force *)

Lemma scan_frames_Ok id frames numbers closeNumber closed r :
  scan_frames id frames numbers closeNumber closed = Ok r ->
  Forall (fun f => ID f = id) frames /\
  r.1.1 = list_to_set (FrameNumber <$> frames) ∪ numbers /\
  r.2 = closed || existsb IsLast frames /\
  (closed = true -> r.1.2 = closeNumber) /\
  (closed = false -> r.2 = true -> exists f, f ∈ frames /\ IsLast f = true /\ FrameNumber f = r.1.2).
Proof.
  revert numbers closeNumber closed.
  induction frames as [|f frames IH]; intros numbers closeNumber closed; cbn [scan_frames].
  - intros [= <-]. cbn. split_and!; [done|set_solver|by rewrite orb_false_r|done|congruence].
  - destruct (Z.eqb_spec (ID f) id) as [Hid|]; cbn [negb]; [|done].
    intros (Hall & Hn & Hc & Hcl & Hex)%IH. split_and!.
    + by constructor.
    + rewrite Hn. cbn. set_solver.
    + rewrite Hc. cbn. by rewrite orb_assoc.
    + intros ->. by apply Hcl.
    + intros -> Hr. destruct (IsLast f) eqn:Hl; cbn in *.
      * exists f. rewrite Hcl by done. split_and!; [left|done..].
      * destruct Hex as (g & ? & ? & ?); [done..|]. exists g. split_and!; [by right|done..].
Qed.

(** The empty frames for the numbers from [i] to [closeNumber] that are missing. *)
Definition gap_frames (id : ChannelID) (numbers : gset Z) (i closeNumber : Z) : list Frame :=
  (fun k => mkFrame id k [] false) <$> filter (fun k => k ∉ numbers) (seqZ i (closeNumber + 1 - i)).

Lemma fill_gaps_Some fuel id numbers i closeNumber :
  0 <= i -> closeNumber < 65535 -> closeNumber + 1 - i <= Z.of_nat fuel ->
  fill_gaps fuel id numbers i closeNumber =
  Some (concat (MarshalBinary <$> gap_frames id numbers i closeNumber)).
Proof.
  revert i. induction fuel as [|fuel IH]; intros i Hi Hc Hf; cbn [fill_gaps]; unfold gap_frames.
  - destruct (Z.leb_spec i closeNumber); [lia|]. by rewrite seqZ_nil by lia.
  - destruct (Z.leb_spec i closeNumber); [|by rewrite seqZ_nil by lia].
    unfold u16. rewrite Z.mod_small by lia. rewrite IH by lia. cbn [fmap option_fmap option_map].
    f_equal. rewrite (seqZ_cons i) by lia. unfold gap_frames. rewrite filter_cons.
    replace (Z.pred (closeNumber + 1 - i)) with (closeNumber + 1 - Z.succ i) by lia.
    replace (i + 1) with (Z.succ i) by lia.
    destruct (decide (i ∈ numbers)), (decide (i ∉ numbers)); done.
Qed.

Lemma fill_gaps_forever fuel id numbers i : 0 <= i < 65536 -> fill_gaps fuel id numbers i 65535 = None.
Proof.
  revert i. induction fuel as [|fuel IH]; intros i Hi; cbn [fill_gaps].
  - by destruct (Z.leb_spec i 65535); [|lia].
  - destruct (Z.leb_spec i 65535); [|lia]. rewrite IH; [done|]. apply Z.mod_pos_bound. lia.
Qed.

(** What a channel knows after it accepted the frames of a list. *)
Record knows (ch0 : Channel) (frames : list Frame) (ch : Channel) : Prop := {
  kn_inv : channel_inv ch;
  kn_id : ch_id ch = ch_id ch0;
  kn_ids : Forall (fun f => ID f = ch_id ch0) frames;
  kn_closed : ch_closed ch = existsb IsLast frames || ch_closed ch0;
  kn_in k : is_Some (ch_inputs ch !! k) -> k ∈ FrameNumber <$> frames \/ is_Some (ch_inputs ch0 !! k);
  kn_kept k : (ch_closed ch = true -> k <= ch_endFrameNumber ch) ->
    k ∈ FrameNumber <$> frames \/ is_Some (ch_inputs ch0 !! k) -> is_Some (ch_inputs ch !! k);
  kn_end : ch_closed ch0 = true -> ch_endFrameNumber ch = ch_endFrameNumber ch0;
  kn_one f : ch_closed ch0 = true -> f ∈ frames -> IsLast f = false;
  kn_last f : ch_closed ch0 = false -> f ∈ frames -> IsLast f = true -> FrameNumber f = ch_endFrameNumber ch }.

Lemma AddFrames_known frames b ch0 ch :
  channel_inv ch0 -> Forall frame_wf frames -> AddFrames frames b ch0 = (Ok tt, ch) -> knows ch0 frames ch.
Proof.
  intros Hinv Hwf. revert ch0 Hinv. induction Hwf as [|f frames Hf Hwf IH]; intros ch0 Hinv Ha.
  { injection Ha as <-. split; cbn; try done; set_solver. }
  cbn [AddFrames] in Ha. apply bind_Ok in Ha as ([] & ch1 & H1 & Ha).
  pose proof (AddFrame_inv_Ok _ _ _ _ Hinv Hf H1) as Hinv1.
  destruct (IH ch1 Hinv1 Ha) as [HI Hid Hids Hcl Hin Hkept Hend Hone Hlast].
  destruct (AddFrame_Ok _ _ _ _ H1) as (Hfid & Hopen & Hnone & Hbelow).
  apply AddFrame_state in H1 as (Hid1 & _ & Hcl1 & Hend1 & Hin1 & _ & _).
  assert (Hin' : forall k, is_Some (ch_inputs ch1 !! k) -> k = FrameNumber f \/ is_Some (ch_inputs ch0 !! k)).
  { intros k. rewrite Hin1, lookup_insert. case_decide; [by left|]. intros [g Hg].
    apply lookup_kept in Hg as [Hg _]; [|done]. right. by eexists. }
  split; [done|congruence| | | | | | |].
  - constructor; [done|]. eapply Forall_impl; [apply Hids|]. cbn. intros. congruence.
  - rewrite Hcl, Hcl1. cbn. by rewrite orb_assoc, (orb_comm (existsb _ _)), <- orb_assoc.
  - intros k [Hk|Hk]%Hin; [cbn; set_solver|]. apply Hin' in Hk as [->|]; [cbn; set_solver|by right].
  - intros k Hle Hk. apply Hkept; [done|]. cbn in Hk. rewrite elem_of_cons in Hk.
    rewrite Hin1, lookup_insert. destruct (decide (FrameNumber f = k)) as [|Hne]; [by right|].
    destruct Hk as [[?|?]|Hk]; [done|by left|right]. unfold will_prune in *.
    destruct (IsLast f) eqn:Hl; cbn [andb]; [|done]. case_if; [|done].
    rewrite lookup_prune_inputs. rewrite decide_True; [done|].
    rewrite Hcl1 in Hend. specialize (Hend eq_refl). rewrite Hend1 in Hend.
    rewrite Hcl, Hcl1, orb_true_r in Hle. specialize (Hle eq_refl). lia.
  - intros Hc. rewrite Hend by (rewrite Hcl1, Hc; apply orb_true_r). rewrite Hend1.
    destruct (IsLast f); [|done]. by rewrite Hopen in Hc.
  - intros g Hc [->|Hg]%elem_of_cons.
    + apply not_true_is_false. intros Hl%Hopen. congruence.
    + apply Hone; [|done]. by rewrite Hcl1, Hc, orb_true_r.
  - intros g Hc [->|Hg]%elem_of_cons Hl.
    + by rewrite Hend, Hend1, Hl by (by rewrite Hcl1, Hl).
    + destruct (IsLast f) eqn:Hlf; [|apply Hlast; [by rewrite Hcl1, Hc|done..]].
      rewrite Hone in Hl; [done| |done]. by rewrite Hcl1.
Qed.

(** Adding frames the channel misses, before its end. *)
Lemma AddFrames_gaps b gs ch :
  channel_inv ch -> Forall frame_wf gs -> NoDup (FrameNumber <$> gs) ->
  Forall (fun g => ID g = ch_id ch /\ IsLast g = false /\ ch_inputs ch !! FrameNumber g = None /\
                   (ch_closed ch = true -> FrameNumber g < ch_endFrameNumber ch)) gs ->
  exists ch', AddFrames gs b ch = (Ok tt, ch').
Proof.
  intros Hinv Hwf. revert ch Hinv. induction Hwf as [|g gs Hg Hwf IH]; intros ch Hinv Hnd Hgs; [by eexists|].
  apply Forall_cons in Hgs as [(Hid & Hl & Hn & Hlt) Hgs]. apply NoDup_cons in Hnd as [Hnew Hnd].
  assert (exists ch1, AddFrame g b ch = (Ok tt, ch1)) as [ch1 H1].
  { unfold AddFrame. rewrite Hid, Z.eqb_refl, Hl, Hn. cbn [negb andb].
    rewrite bool_decide_eq_false_2 by (by intros []).
    destruct (ch_closed ch && _) eqn:E; [|by eexists]. zify_bools.
    pose proof (Hlt ltac:(done)). lia. }
  pose proof (AddFrame_inv_Ok _ _ _ _ Hinv Hg H1) as Hinv1.
  cbn [AddFrames]. unfold bind. rewrite H1.
  apply AddFrame_state in H1 as (Hid1 & _ & Hc1 & He1 & Hi1 & _ & _). unfold will_prune in Hi1.
  rewrite Hl in *. cbn [orb andb] in *. apply IH; [done..|].
  rewrite Forall_forall in Hgs |- *. intros f Hf. destruct (Hgs f Hf) as (? & ? & ? & ?).
  rewrite Hid1, Hc1, He1, Hi1, lookup_insert_ne; [done|].
  intros Heq. apply Hnew. rewrite Heq. apply list_elem_of_fmap. by exists f.
Qed.

Lemma gap_frame_wf id numbers n :
  0 <= id < 256 ^ 16 -> n < 65536 -> Forall frame_wf (gap_frames id numbers 0 n).
Proof.
  intros Hid Hn. apply Forall_fmap, Forall_forall. intros k [_ Hk%elem_of_seqZ]%list_elem_of_filter.
  unfold frame_wf, MaxFrameLen. cbn. lia.
Qed.

Lemma scan_frames_start id frames :
  Forall (fun f => ID f = id) frames ->
  exists n, scan_frames id frames ∅ 0 false = Ok (list_to_set (FrameNumber <$> frames), n, existsb IsLast frames) /\
    (existsb IsLast frames = true -> exists f, f ∈ frames /\ IsLast f = true /\ FrameNumber f = n).
Proof.
  intros Hids. destruct (scan_frames id frames ∅ 0 false) as [[[numbers n] closed]|e|] eqn:E.
  - apply scan_frames_Ok in E as (_ & Hn & Hc & _ & Hex). cbn in *. exists n.
    rewrite union_empty_r_L in Hn. subst. split; [done|]. intros. by apply Hex.
  - exfalso. revert E. generalize (∅ : gset Z), 0, false.
    induction Hids as [|f frames Hf Hids IH]; intros a z b; cbn [scan_frames]; [done|].
    rewrite Hf, Z.eqb_refl. cbn [negb]. apply IH.
  - exfalso. revert E. generalize (∅ : gset Z), 0, false.
    induction Hids as [|f frames Hf Hids IH]; intros a z b; cbn [scan_frames]; [done|].
    rewrite Hf, Z.eqb_refl. cbn [negb]. apply IH.
Qed.

(** Closing by force does not close.  For frames of a channel none of which is the
    last one, the data generated is one last frame with the number 0.  When frame 0 is
    among the given frames, the receiving channel refuses it as a duplicate: the channel
    stays as it was, open and not ready. *)
Theorem force_close_open_fails fuel frames openBlock l1Block ch id :
  AddFrames frames l1Block (NewChannel id openBlock) = (Ok tt, ch) ->
  frames <> [] -> Forall frame_wf frames -> Forall (fun f => IsLast f = false) frames ->
  0 ∈ FrameNumber <$> frames ->
  exists f,
    ForceCloseTxData fuel frames = Ok (Some (DerivationVersion0 :: MarshalBinary f)) /\
    ParseFrames (DerivationVersion0 :: MarshalBinary f) = Ok [f] /\
    AddFrame f l1Block ch = (Err DuplicateErr, ch) /\ ch_closed ch = false /\ IsReady ch = false.
Proof.
  intros Ha Hne Hwf Hopen H0. exists (mkFrame id 0 [] true).
  destruct (AddFrames_known _ _ _ _ (NewChannel_inv id openBlock) Hwf Ha) as [_ Hid Hids Hcl _ Hkept _ _ _].
  cbn in Hid, Hids. assert (Hl : existsb IsLast frames = false).
  { apply not_true_is_false. intros (f & Hf & Hl)%existsb_exists.
    rewrite Forall_forall in Hopen. rewrite Hopen in Hl; [done|]. by apply list_elem_of_In. }
  rewrite Hl in Hcl. cbn in Hcl.
  destruct (scan_frames_start id frames Hids) as (n & Hs & _).
  destruct frames as [|f0 frames']; [done|].
  assert (ID f0 = id) as Hid0 by (by inversion Hids). split_and!; [| | |done|].
  - unfold ForceCloseTxData. by rewrite Hid0, Hs, Hl.
  - apply ParseFrames_spec. cbn [fmap list_fmap concat]. rewrite app_nil_r. split_and!; [done..|].
    constructor; [|constructor]. inversion Hwf as [|? ? (Hr & _) _]; subst.
    unfold frame_wf, MaxFrameLen. cbn. lia.
  - unfold AddFrame. cbn [ID IsLast FrameNumber]. rewrite Hid, Z.eqb_refl, Hcl. cbn [negb andb].
    rewrite bool_decide_eq_true_2; [done|]. apply Hkept; [by rewrite Hcl|by left].
  - unfold IsReady. by rewrite Hcl.
Qed.

(** Closing by force can hang.  When the last frame has the highest possible number,
    65535, the 16-bit counter of the loop never exceeds it: no number of iterations is
    enough. *)
Theorem force_close_max_frame_hangs fuel frames id :
  frames <> [] -> Forall (fun f => ID f = id) frames ->
  existsb IsLast frames = true -> (forall f, f ∈ frames -> IsLast f = true -> FrameNumber f = 65535) ->
  ForceCloseTxData fuel frames = Ok None.
Proof.
  intros Hne Hids Hc Hmax. destruct (scan_frames_start id frames Hids) as (n & Hs & Hn).
  destruct (Hn Hc) as (f & Hf & Hl & <-). rewrite (Hmax f Hf Hl), Hc in Hs.
  destruct frames as [|f0 frames']; [done|]. assert (ID f0 = id) as Hid0 by (by inversion Hids).
  unfold ForceCloseTxData. rewrite Hid0, Hs. cbn [negb]. by rewrite fill_gaps_forever by lia.
Qed.

(** Closing a channel whose last frame was submitted completes it.  When all frames
    given were accepted by the channel and one of them is the last, the generated frames
    are accepted too and make the channel ready; if none is generated it was ready. *)
Theorem force_close_completes fuel frames openBlock l1Block ch id :
  AddFrames frames l1Block (NewChannel id openBlock) = (Ok tt, ch) ->
  Forall frame_wf frames -> ch_closed ch = true ->
  ch_endFrameNumber ch < 65535 -> ch_endFrameNumber ch < Z.of_nat fuel ->
  exists extra ch',
    ForceCloseTxData fuel frames =
      Ok (Some (DerivationVersion0 :: concat (MarshalBinary <$> extra))) /\
    Forall frame_wf extra /\
    AddFrames extra l1Block ch = (Ok tt, ch') /\ IsReady ch' = true.
Proof.
  intros Ha Hwf Hc Hend Hfuel.
  destruct (AddFrames_known _ _ _ _ (NewChannel_inv id openBlock) Hwf Ha)
    as [Hinv Hid Hids Hcl Hin Hkept _ _ Hlast]. cbn in Hid, Hids, Hin, Hlast.
  rewrite Hc in Hcl. cbn in Hcl. symmetry in Hcl. rewrite orb_false_r in Hcl.
  destruct (scan_frames_start id frames Hids) as (n & Hs & Hn).
  destruct (Hn Hcl) as (f & Hf & Hl & <-). rewrite (Hlast f eq_refl Hf Hl), Hcl in Hs.
  destruct (inv_closed _ Hinv Hc) as (Hr & fl & Hfl & _).
  set (n := ch_endFrameNumber ch) in *. set (numbers := list_to_set (FrameNumber <$> frames)) in *.
  assert (Hknown : forall k, k <= n -> k ∈ numbers <-> is_Some (ch_inputs ch !! k)).
  { intros k Hk. unfold numbers. rewrite elem_of_list_to_set. split.
    - intros. apply Hkept; [done|by left].
    - intros [?|[? Hx]]%Hin; [done|]. by rewrite lookup_empty in Hx. }
  assert (Hidr : 0 <= id < 256 ^ 16).
  { rewrite Forall_forall in Hwf, Hids. rewrite <- (Hids f Hf). apply (Hwf f Hf). }
  assert (Hgwf : Forall frame_wf (gap_frames id numbers 0 n)) by (apply gap_frame_wf; [done|lia]).
  destruct (AddFrames_gaps l1Block (gap_frames id numbers 0 n) ch) as [ch' H'].
  - done.
  - done.
  - unfold gap_frames. rewrite <- list_fmap_compose. cbn. unfold compose. cbn.
    rewrite list_fmap_id. apply NoDup_filter, NoDup_seqZ.
  - apply Forall_fmap, Forall_forall. intros k [Hk Hseq%elem_of_seqZ]%list_elem_of_filter.
    cbn. assert (ch_inputs ch !! k = None) as Hnone.
    { apply eq_None_not_Some. intros Hx. apply Hk, Hknown; [lia|done]. }
    split_and!; [done..|]. intros _. fold n. enough (k <> n) by lia. intros ->. congruence.
  - exists (gap_frames id numbers 0 n), ch'. split_and!; [|done..|].
    + destruct frames as [|f0 frames']; [by apply elem_of_nil in Hf|].
      assert (ID f0 = id) as Hid0 by (by inversion Hids).
      unfold ForceCloseTxData. rewrite Hid0, Hs. cbn [negb].
      by rewrite fill_gaps_Some by lia.
    + destruct (AddFrames_known _ _ _ _ Hinv Hgwf H') as [Hinv' _ _ Hcl' _ Hkept' Hend' _ _].
      specialize (Hend' Hc). apply IsReady_intro; [done|by rewrite Hcl', Hc, orb_true_r|].
      rewrite Hend'. fold n. intros k Hk. apply Hkept'; [rewrite Hend'; fold n; lia|].
      destruct (decide (k ∈ numbers)) as [Hkn|Hkn]; [right; apply Hknown; [lia|done]|left].
      unfold gap_frames. rewrite <- list_fmap_compose. apply list_elem_of_fmap.
      exists k. split; [done|]. apply list_elem_of_filter. split; [done|]. apply elem_of_seqZ. lia.
Qed.
