(* ===== verification/Compressor.v ===== *)
(** * The compressor of the batcher

    [op-batcher/compressor/shadow_compressor.go]: data is compressed twice, once with a
    flush after every write to know the size, and once without for the output. *)
From S2P Require Import Prelude GoErrors GoBytes EthTypes Geth L1Info Frame Channel Batch ChannelOut.
#[local] Open Scope Z_scope.

(** [zlib.Writer] of Go's standard library: its methods return, with their result, the
    bytes they write to the underlying buffer. *)
Class ZlibWriter (W : Type) := {
  zw_Write : Data -> W -> result Z * Data * W;
  zw_Flush : W -> result unit * Data * W;
  zw_Close : W -> result unit * Data * W;
  zw_Reset : W -> W }.

(** What zlib promises, for the decompressor [unzip]: writing to memory does not fail, and
    once the writer is closed its output decompresses to what was written. *)
Class FaithfulZlib (W : Type) (unzip : Data -> option Data) `{ZlibWriter W} := {
  z_in : W -> Data;
  z_out : W -> Data;
  z_open : W -> Prop;
  z_write p w : z_open w -> exists n out w', zw_Write p w = (Ok n, out, w') /\ z_open w' /\
    z_in w' = z_in w ++ p /\ z_out w' = z_out w ++ out;
  z_flush w : z_open w -> exists out w', zw_Flush w = (Ok tt, out, w') /\ z_open w' /\
    z_in w' = z_in w /\ z_out w' = z_out w ++ out;
  z_close w : z_open w -> exists out w', zw_Close w = (Ok tt, out, w') /\
    z_in w' = z_in w /\ z_out w' = z_out w ++ out /\ unzip (z_out w') = Some (z_in w') }.

(** [bytes.Buffer.Read] into [n] bytes. *)
Definition buffer_Read (n : nat) (buf : Data) : Data * option error * Data :=
  match buf with
  | [] => if (n =? 0)%nat then ([], None, []) else ([], Some (ErrSentinel EOF), [])
  | _ => (take n buf, None, drop n buf)
  end.

Module ShadowCompressor.
Section ShadowCompressor.
Context {W : Type} `{ZlibWriter W}.
(** [Config.TargetFrameSize] and [Config.TargetNumFrames]. *)
Context (TargetFrameSize TargetNumFrames : Z).

Record t := mk {
  buf : Data;
  compress : W;
  shadowBuf : Data;
  shadowCompress : W;
  fullErr : option error }.

(** Calls of the two writers. *)
Definition on_compress {A} (m : W -> result A * Data * W) : M t A := fun c =>
  let '(r, out, w) := m (compress c) in
  (r, mk (buf c ++ out) w (shadowBuf c) (shadowCompress c) (fullErr c)).
Definition on_shadow {A} (m : W -> result A * Data * W) : M t A := fun c =>
  let '(r, out, w) := m (shadowCompress c) in
  (r, mk (buf c) (compress c) (shadowBuf c ++ out) w (fullErr c)).

(** [ShadowCompressor.Len], [Read], [Reset], [Flush], [FullErr] and [Close]. *)
Definition Len (c : t) : Z := Z.of_nat (length (buf c)).
Definition Read (n : nat) (c : t) : Data * option error * t :=
  let '(d, err, rest) := buffer_Read n (buf c) in
  (d, err, mk rest (compress c) (shadowBuf c) (shadowCompress c) (fullErr c)).
Definition Reset (c : t) : t := mk [] (zw_Reset (compress c)) [] (zw_Reset (shadowCompress c)) None.
Definition Flush : M t unit := on_compress zw_Flush.
Definition FullErr (c : t) : option error := fullErr c.
Definition Close : M t unit := on_compress zw_Close.

(** [ShadowCompressor.Write]. *)
Definition Write (p : Data) : M t Z :=
  on_shadow (zw_Write p) ;;;
  on_shadow zw_Flush ;;;
  c <- get ;;
  if TargetFrameSize *u u64 TargetNumFrames <? Z.of_nat (length (shadowBuf c)) then
    modify (fun c => mk (buf c) (compress c) (shadowBuf c) (shadowCompress c) (Some (ErrSentinel CompressorFullErr))) ;;;
    c <- get ;;
    if 0 <? Len c then throw CompressorFullErr else on_compress (zw_Write p)
  else on_compress (zw_Write p).

#[global] Instance compressor : Compressor t :=
  {| c_Write := Write; c_Close := Close; c_Read := Read; c_Reset := Reset; c_Len := Len;
     c_Flush := Flush; c_FullErr := FullErr |}.

(** A new compressor ([NewShadowCompressor]); creating the writers of a fixed level does
    not fail. *)
Definition new (w shadow : W) : t := mk [] w [] shadow None.

(** ** Properties *)
Lemma on_compress_grows {A} (m : W -> result A * Data * W) c r c' :
  on_compress m c = (r, c') -> exists more, buf c' = buf c ++ more.
Proof. unfold on_compress. destruct (m (compress c)) as [[? out] w]. intros [= _ <-]. by exists out. Qed.

Definition grows : t -> t -> Prop := fun c c' => exists more, buf c' = buf c ++ more.

#[global] Instance grows_preorder : PreOrder grows.
Proof.
  split.
  - intros c. exists []. by rewrite app_nil_r.
  - intros c1 c2 c3 [m1 H1] [m2 H2]. exists (m1 ++ m2). by rewrite H2, H1, app_assoc.
Qed.

Lemma on_shadow_grows {A} (m : W -> result A * Data * W) : preserves grows (on_shadow m).
Proof.
  intros c r c'. unfold on_shadow. destruct (m (shadowCompress c)) as [[? out] w]. intros [= _ <-].
  exists []. by rewrite app_nil_r.
Qed.

Lemma Write_grows p : preserves grows (Write p).
Proof.
  assert (Hc : preserves grows (on_compress (zw_Write p))) by (intros c r c'; apply on_compress_grows).
  assert (Hs : forall A (m : W -> result A * Data * W), preserves grows (on_shadow m))
    by (intros; apply on_shadow_grows).
  assert (Hf : forall f : t -> t, (forall c, buf (f c) = buf c) -> preserves grows (modify f)).
  { intros f Hf. apply preserves_modify. intros c. exists []. by rewrite Hf, app_nil_r. }
  unfold Write. go_code; try apply Hs. by apply Hf.
Qed.

(** The compressor keeps the promise of the interface. *)
#[global] Instance lawful : LawfulCompressor t.
Proof.
  refine {| c_buf := buf |}.
  - done.
  - intros n c Hn. simpl. unfold Read, buffer_Read. destruct (buf c) as [|b bs]; [simpl in Hn; lia|].
    eexists. split; [reflexivity|done].
  - intros p c r c'. apply Write_grows.
  - intros c r c'. apply on_compress_grows.
  - intros c r c'. apply on_compress_grows.
Defined.

(** A full compressor takes nothing more, and the first write is always taken: when a
    write reports that the compressor is full, the output is not empty and is left as it
    was. *)
Lemma Write_full p c c' :
  Write p c = (Err CompressorFullErr, c') ->
  (forall q w, (zw_Write q w).1.1 <> Err CompressorFullErr) ->
  (forall w, (zw_Flush w).1.1 <> Err CompressorFullErr) ->
  buf c' = buf c /\ 0 < Len c /\ FullErr c' = Some (ErrSentinel CompressorFullErr).
Proof.
  intros Hw Hnw Hnf. revert Hw.
  assert (Hc : forall c0 c1, on_compress (zw_Write p) c0 <> (Err CompressorFullErr, c1)).
  { intros c0 c1. unfold on_compress. pose proof (Hnw p (compress c0)) as Hx.
    destruct (zw_Write p (compress c0)) as [[? ?] ?]. cbn in Hx. congruence. }
  unfold Write, on_shadow, bind, get, modify, throw.
  pose proof (Hnw p (shadowCompress c)) as H1.
  destruct (zw_Write p (shadowCompress c)) as [[[n|e|] out] w]; [|intros [= -> <-]; done|done].
  cbn [shadowCompress]. pose proof (Hnf w) as H3.
  destruct (zw_Flush w) as [[[u|e|] out'] w']; [|intros [= -> <-]; done|done].
  cbn [compress buf shadowBuf shadowCompress fullErr].
  destruct (TargetFrameSize *u _ <? _); [|by intros ?%Hc]. unfold Len. cbn [buf].
  destruct (Z.ltb_spec 0 (Z.of_nat (length (buf c)))); [by intros [= <-]|by intros ?%Hc].
Qed.

(** What is written is compressed faithfully, or refused as a whole. *)
Lemma Write_faithful unzip `{!FaithfulZlib W unzip} p c r c' :
  z_open (compress c) -> z_open (shadowCompress c) -> Write p c = (r, c') ->
  z_open (compress c') /\ z_open (shadowCompress c') /\
  ((exists n, r = Ok n /\ z_in (compress c') = z_in (compress c) ++ p) \/
   (r = Err CompressorFullErr /\ z_in (compress c') = z_in (compress c))) /\
  exists more, buf c' = buf c ++ more /\ z_out (compress c') = z_out (compress c) ++ more.
Proof.
  intros Ho Hs. destruct (z_write p _ Hs) as (n1 & out1 & w1 & E1 & Hs1 & _).
  destruct (z_flush _ Hs1) as (out2 & w2 & E2 & Hs2 & _).
  destruct (z_write p _ Ho) as (n & out & w & E & Ho' & Hin & Hout).
  unfold Write, on_shadow, on_compress, bind, get, modify, throw. rewrite E1. cbn [shadowCompress].
  rewrite E2. cbn [compress buf shadowBuf shadowCompress fullErr Len]. unfold Len. cbn [buf].
  destruct (TargetFrameSize *u _ <? _); [destruct (0 <? _)|];
    cbn [compress]; rewrite ?E; intros [= <- <-]; cbn;
    (split_and!; [done|done| |]).
  - by right.
  - exists []. by rewrite !app_nil_r.
  - left. eauto.
  - eauto.
  - left. eauto.
  - eauto.
Qed.

#[global] Instance faithful unzip `{!FaithfulZlib W unzip} : FaithfulCompressor t unzip.
Proof.
  refine {| c_in := fun c => z_in (compress c); c_out := fun c => z_out (compress c);
            c_open := fun c => z_open (compress c) /\ z_open (shadowCompress c) |}.
  - intros n c d err c'. simpl. unfold Read. destruct (buffer_Read n (buf c)) as [[? ?] ?].
    by intros [= <- <- <-].
  - intros p c r c' [? ?] Hw. apply (Write_faithful unzip) in Hw as (? & ? & ? & ?); [|done..]. by split_and!.
  - intros c [Ho Hs]. simpl. unfold Close, on_compress.
    destruct (z_close _ Ho) as (out & w & E & Hin & Hout & Hu). rewrite E.
    eexists. split; [reflexivity|]. cbn. split_and!; [done..|]. by exists out.
Defined.
End ShadowCompressor.
Arguments t : clear implicits.
End ShadowCompressor.

(** ** A writer that stores

    What the interface promises can be kept: zlib without compression and framing. *)
Module StoredWriter.
Definition t : Type := Data * Data.

#[global] Instance writer : ZlibWriter t :=
  {| zw_Write := fun p w => (Ok (Z.of_nat (length p)), p, (w.1 ++ p, w.2 ++ p));
     zw_Flush := fun w => (Ok tt, [], w);
     zw_Close := fun w => (Ok tt, [], w);
     zw_Reset := fun _ => ([], []) |}.

#[global] Instance faithful : FaithfulZlib t Some.
Proof.
  refine {| z_in := fst; z_out := snd; z_open := fun w => w.1 = w.2 |}.
  - intros p [i o] [= ->]. by eexists _, p, _.
  - intros [i o] [= ->]. eexists [], _. cbn. by rewrite app_nil_r.
  - intros [i o] [= ->]. eexists [], _. cbn. by rewrite app_nil_r.
Defined.
End StoredWriter.
