(* ===== verification/ChannelBuilder.v ===== *)
(** * The batcher's channel builder

    [op-batcher/batcher/channel_builder.go] and [tx_data.go]: collects blocks into an
    outgoing channel, decides when the channel is full, and cuts it into frames. *)
From S2P Require Import Prelude GoErrors GoBytes EthTypes Geth L1Info Frame Channel Batch ChannelOut Compressor.
#[local] Open Scope Z_scope.

(** ** Configuration *)
Record ChannelConfig := mkChannelConfig {
  cc_SeqWindowSize : Z;
  cc_ChannelTimeout : Z;
  cc_MaxChannelDuration : Z;
  cc_SubSafetyMargin : Z;
  cc_MaxFrameSize : Z }.

(** [ChannelConfig.Check]. *)
Definition ChannelConfig_Check (cc : ChannelConfig) : option error :=
  if cc_ChannelTimeout cc <? cc_SubSafetyMargin cc then Some (ErrSentinel ErrInvalidChannelTimeout)
  else if cc_MaxFrameSize cc =? 0 then Some (ErrNew "max frame size cannot be zero")
  else if cc_MaxFrameSize cc <? FrameV0OverHeadSize then Some (ErrNew "max frame size is less than the minimum 23")
  else None.

(** ** Frames and transactions *)

(** [frameID], which is also the [txID]. *)
Record frameID := mkFrameID { chID : ChannelID; frameNumber : Z }.

#[export] Instance frameID_eq_dec : EqDecision frameID.
Proof. solve_decision. Defined.
#[export] Program Instance frameID_countable : Countable frameID :=
  inj_countable' (fun i => (chID i, frameNumber i)) (fun p => mkFrameID p.1 p.2) _.
Next Obligation. by intros []. Qed.

Record frameData := mkFrameData { fd_data : Data; fd_id : frameID }.

(** [txData] holds one frame. *)
Record txData := mkTxData { td_frame : frameData }.
Abbreviation txID := frameID (only parsing).

(** [txData.ID], [txData.Bytes], [txData.Len] and [txData.Frame]. *)
Definition td_ID (td : txData) : txID := fd_id (td_frame td).
Definition td_Bytes (td : txData) : Data := DerivationVersion0 :: fd_data (td_frame td).
Definition td_Len (td : txData) : Z := 1 + Z.of_nat (length (fd_data (td_frame td))).
Definition td_Frame (td : txData) : frameData := td_frame td.

Module ChannelBuilder.
Section ChannelBuilder.
Context {C : Type} `{Compressor C} `{Keccak}.
Context (rlp_encode_batch : BatchV1 -> result Data) (rlp_encode_bytes : Data -> result Data).
Context (cfg : ChannelConfig).

(** [channelBuilder]. *)
Record t := mk {
  timeout : Z;
  timeoutReason : option error;
  fullErr : option error;
  co : ChannelOut.t C;
  blocks : list Block;
  frames : list frameData;
  numFrames : Z;
  outputBytes : Z }.

Definition set_timeout (z : Z) (reason : option error) (c : t) : t :=
  mk z reason (fullErr c) (co c) (blocks c) (frames c) (numFrames c) (outputBytes c).
Definition set_blocks (bs : list Block) (c : t) : t :=
  mk (timeout c) (timeoutReason c) (fullErr c) (co c) bs (frames c) (numFrames c) (outputBytes c).
Definition set_frames (fs : list frameData) (c : t) : t :=
  mk (timeout c) (timeoutReason c) (fullErr c) (co c) (blocks c) fs (numFrames c) (outputBytes c).

(** [channelBuilder.setFullErr]. *)
Definition setFullErr (err : error) (c : t) : t :=
  mk (timeout c) (timeoutReason c) (Some (ErrChannelFull err)) (co c) (blocks c) (frames c) (numFrames c) (outputBytes c).

Definition on_co {A} (m : M (ChannelOut.t C) A) : M t A :=
  zoom co (fun o c => mk (timeout c) (timeoutReason c) (fullErr c) o (blocks c) (frames c) (numFrames c) (outputBytes c)) m.

(** [newChannelBuilder], given the new compressor and the random channel id. *)
Definition new (compressor : result C) (rand : result ChannelID) : result t :=
  let? c := compressor in
  let? o := ChannelOut.new c rand in
  Ok (mk 0 None None o [] [] 0 0).

(** The accessors. *)
Definition ID (c : t) : ChannelID := ChannelOut.id (co c).
Definition InputBytes (c : t) : Z := ChannelOut.InputBytes (co c).
Definition ReadyBytes (c : t) : Z := ChannelOut.ReadyBytes (co c).
Definition OutputBytes (c : t) : Z := outputBytes c.
Definition Blocks (c : t) : list Block := blocks c.
Definition IsFull (c : t) : bool := bool_decide (is_Some (fullErr c)).
Definition FullErr (c : t) : option error := fullErr c.
Definition TotalFrames (c : t) : Z := numFrames c.
Definition HasFrame (c : t) : bool := (0 <? length (frames c))%nat.
Definition PendingFrames (c : t) : Z := Z.of_nat (length (frames c)).

(** [channelBuilder.Reset]; the counters of frames and bytes are kept, as in the source. *)
Definition Reset (rand : result ChannelID) : M t unit :=
  modify (fun c => mk 0 (timeoutReason c) None (co c) [] [] (numFrames c) (outputBytes c)) ;;;
  on_co (ChannelOut.Reset rand).

(** ** Timeouts *)

(** [channelBuilder.updateTimeout] and the three sources of timeouts. *)
Definition updateTimeout (timeoutBlockNum : Z) (reason : error) (c : t) : t :=
  if (timeout c =? 0) || (timeoutBlockNum <? timeout c) then set_timeout timeoutBlockNum (Some reason) c else c.
Definition updateDurationTimeout (l1BlockNum : Z) (c : t) : t :=
  if cc_MaxChannelDuration cfg =? 0 then c
  else updateTimeout (l1BlockNum +u cc_MaxChannelDuration cfg) ErrMaxDurationReached c.
Definition updateSwTimeout (batch : BatchData) (c : t) : t :=
  updateTimeout (b_EpochNum (bd_V1 batch) +u cc_SeqWindowSize cfg -u cc_SubSafetyMargin cfg) ErrSeqWindowClose c.
Definition FramePublished (l1BlockNum : Z) (c : t) : t :=
  updateTimeout (l1BlockNum +u cc_ChannelTimeout cfg -u cc_SubSafetyMargin cfg) ErrChannelTimeoutClose c.

(** [channelBuilder.TimedOut], [checkTimeout] and [RegisterL1Block].  The reason of a
    timeout is set whenever the timeout is; a nil reason would be wrapped like any other. *)
Definition TimedOut (blockNum : Z) (c : t) : bool := negb (timeout c =? 0) && (timeout c <=? blockNum).
Definition checkTimeout (blockNum : Z) (c : t) : t :=
  if negb (IsFull c) && TimedOut blockNum c
  then setFullErr (default (ErrNew "nil") (timeoutReason c)) c else c.
Definition RegisterL1Block (l1BlockNum : Z) (c : t) : t :=
  checkTimeout l1BlockNum (updateDurationTimeout l1BlockNum c).

(** ** Adding blocks *)

(** [channelBuilder.AddBlock]. *)
Definition AddBlock (block : Block) : M t L1BlockInfo :=
  c <- get ;;
  match fullErr c with
  | Some err => throw err
  | None =>
      bl <- wrapE (ErrWrap "converting block to batch") (lift (BlockToBatch block)) ;;
      r <- attempt (on_co (ChannelOut.AddBatch rlp_encode_batch rlp_encode_bytes bl.1)) ;;
      match r with
      | inr err =>
          if errors_Is err ErrTooManyRLPBytes || errors_Is err CompressorFullErr then
            modify (setFullErr err) ;;; throw (ErrChannelFull err)
          else throw (ErrWrap "adding block to channel out" err)
      | inl _ =>
          modify (fun c => set_blocks (blocks c ++ [block]) c) ;;;
          modify (updateSwTimeout bl.1) ;;;
          c <- get ;;
          match ChannelOut.FullErr (co c) with
          | Some err => modify (setFullErr err)
          | None => ret tt
          end ;;;
          ret bl.2
      end
  end.

(** ** Frames *)

(** [channelBuilder.outputFrame]; [true] stands for [io.EOF].  An [io.EOF] of the reader
    is not told apart from the one of the last frame: then nothing was written, and the
    frame number is 0. *)
Definition outputFrame : M t bool :=
  r <- attempt (on_co (ChannelOut.OutputFrame (cc_MaxFrameSize cfg))) ;;
  match
    match r with
    | inl (data, fn, last) => inl (data, fn, last)
    | inr err => if err_eqb err EOF then inl ([], 0, true) else inr err
    end
  with
  | inr err => throw (ErrWrap "writing frame" err)
  | inl (data, fn, last) =>
      (if fn =? 65535 then modify (setFullErr ErrMaxFrameIndex) else ret tt) ;;;
      modify (fun c =>
        mk (timeout c) (timeoutReason c) (fullErr c) (co c) (blocks c)
           (frames c ++ [mkFrameData data (mkFrameID (ID c) fn)]) (numFrames c + 1)
           (outputBytes c + Z.of_nat (length data))) ;;;
      ret last
  end.

(** The loops of [outputReadyFrames] and [closeAndOutputAllFrames]; [Ok None] when the
    fuel did not suffice. *)
Fixpoint outputReadyFrames (fuel : nat) : M t (option unit) :=
  c <- get ;;
  if i64 (cc_MaxFrameSize cfg) <=? ReadyBytes c then
    match fuel with
    | O => ret None
    | S fuel' =>
        eof <- outputFrame ;;
        if eof : bool then ret (Some tt) else outputReadyFrames fuel'
    end
  else ret (Some tt).

Fixpoint output_all_loop (fuel : nat) : M t (option unit) :=
  match fuel with
  | O => ret None
  | S fuel' =>
      eof <- outputFrame ;;
      if eof : bool then ret (Some tt) else output_all_loop fuel'
  end.

Definition closeAndOutputAllFrames (fuel : nat) : M t (option unit) :=
  wrapE (ErrWrap "closing channel out") (on_co ChannelOut.Close) ;;;
  output_all_loop fuel.

(** [channelBuilder.OutputFrames]. *)
Definition OutputFrames (fuel : nat) : M t (option unit) :=
  c <- get ;;
  if IsFull c then closeAndOutputAllFrames fuel else outputReadyFrames fuel.

(** [channelBuilder.Close], [NextFrame] and [PushFrame]; the latter two panic when
    misused. *)
Definition Close (c : t) : t := if IsFull c then c else setFullErr ErrTerminated c.
Definition NextFrame : M t frameData := fun c =>
  match frames c with
  | [] => (Panic, c)
  | f :: fs => (Ok f, set_frames fs c)
  end.
Definition PushFrame (frame : frameData) : M t unit := fun c =>
  if negb (chID (fd_id frame) =? ID c) then (Panic, c)
  else (Ok tt, set_frames (frames c ++ [frame]) c).
End ChannelBuilder.
Arguments t : clear implicits.
End ChannelBuilder.
