(* ===== verification/ChannelManager.v ===== *)
(** * The batcher's channels and channel manager

    [op-batcher/batcher/channel.go] and [channel_manager.go]: L2 blocks are put into
    channels one after the other, the frames of a channel become transactions, and the
    outcome of each transaction is reported back to its channel. *)
From S2P Require Import Prelude GoErrors GoBytes EthTypes Geth L1Info Frame Channel Batch ChannelOut Compressor ChannelBuilder.
#[local] Open Scope Z_scope.

(** ** One channel *)
Module BatcherChannel.
Section BatcherChannel.
Context {C : Type} `{Compressor C} `{Keccak}.
Context (rlp_encode_batch : BatchV1 -> result Data) (rlp_encode_bytes : Data -> result Data).
Context (cfg : ChannelConfig).

(** [channel]. *)
Record t := mk {
  builder : ChannelBuilder.t C;
  pendingTransactions : gmap txID txData;
  confirmedTransactions : gmap txID BlockID }.

Definition on_builder {A} (m : M (ChannelBuilder.t C) A) : M t A :=
  zoom builder (fun b s => mk b (pendingTransactions s) (confirmedTransactions s)) m.

(** [newChannel]. *)
Definition new (compressor : result C) (rand : result ChannelID) : result t :=
  let? b := map_err (ErrWrap "creating new channel") (ChannelBuilder.new compressor rand) in
  Ok (mk b ∅ ∅).

(** The calls passed on to the builder. *)
Definition ID (s : t) : ChannelID := ChannelBuilder.ID (builder s).
Definition HasFrame (s : t) : bool := ChannelBuilder.HasFrame (builder s).
Definition IsFull (s : t) : bool := ChannelBuilder.IsFull (builder s).
Definition FullErr (s : t) : option error := ChannelBuilder.FullErr (builder s).
Definition InputBytes (s : t) : Z := ChannelBuilder.InputBytes (builder s).
Definition ReadyBytes (s : t) : Z := ChannelBuilder.ReadyBytes (builder s).
Definition OutputBytes (s : t) : Z := ChannelBuilder.OutputBytes (builder s).
Definition TotalFrames (s : t) : Z := ChannelBuilder.TotalFrames (builder s).
Definition PendingFrames (s : t) : Z := ChannelBuilder.PendingFrames (builder s).
Definition RegisterL1Block (l1BlockNum : Z) (s : t) : t :=
  mk (ChannelBuilder.RegisterL1Block cfg l1BlockNum (builder s)) (pendingTransactions s) (confirmedTransactions s).
Definition AddBlock (block : Block) : M t L1BlockInfo :=
  on_builder (ChannelBuilder.AddBlock rlp_encode_batch rlp_encode_bytes cfg block).
Definition OutputFrames (fuel : nat) : M t (option unit) := on_builder (ChannelBuilder.OutputFrames cfg fuel).
Definition Close (s : t) : t :=
  mk (ChannelBuilder.Close (builder s)) (pendingTransactions s) (confirmedTransactions s).

(** [channel.NoneSubmitted] and [channel.isFullySubmitted]. *)
Definition NoneSubmitted (s : t) : bool :=
  bool_decide (confirmedTransactions s = ∅) && bool_decide (pendingTransactions s = ∅).
Definition isFullySubmitted (s : t) : bool :=
  IsFull s && (Z.of_nat (size (pendingTransactions s)) + PendingFrames s =? 0).

(** [channel.isTimedOut]: the lowest and the highest inclusion block; the order in which
    the map is ranged over does not matter. *)
Definition inclusion_range (s : t) : Z * Z :=
  foldl (fun mm b => (if id_Number b <? mm.1 then id_Number b else mm.1,
                      if mm.2 <? id_Number b then id_Number b else mm.2))
    (two64 - 1, 0) (map_to_list (confirmedTransactions s)).*2.
Definition isTimedOut (s : t) : bool :=
  if bool_decide (confirmedTransactions s = ∅) then false
  else let '(min, max) := inclusion_range s in cc_ChannelTimeout cfg <=? max -u min.

(** [channel.TxFailed]. *)
Definition TxFailed (id : txID) : M t unit :=
  s <- get ;;
  match pendingTransactions s !! id with
  | Some data =>
      on_builder (ChannelBuilder.PushFrame (td_Frame data)) ;;;
      modify (fun s => mk (builder s) (delete id (pendingTransactions s)) (confirmedTransactions s))
  | None => ret tt
  end.

(** [channel.TxConfirmed]: whether the channel is done, and the blocks to put back. *)
Definition TxConfirmed (id : txID) (inclusionBlock : BlockID) (s : t) : bool * list Block * t :=
  match pendingTransactions s !! id with
  | None => (false, [], s)
  | Some _ =>
      let s := mk (ChannelBuilder.FramePublished cfg (id_Number inclusionBlock) (builder s))
                 (delete id (pendingTransactions s)) (<[id := inclusionBlock]> (confirmedTransactions s)) in
      if isTimedOut s then (true, ChannelBuilder.Blocks (builder s), s)
      else (isFullySubmitted s, [], s)
  end.

(** [channel.NextTxData]. *)
Definition NextTxData : M t txData :=
  frame <- on_builder ChannelBuilder.NextFrame ;;
  let txdata := mkTxData frame in
  modify (fun s => mk (builder s) (<[td_ID txdata := txdata]> (pendingTransactions s)) (confirmedTransactions s)) ;;;
  ret txdata.
End BatcherChannel.
Arguments t : clear implicits.
End BatcherChannel.

(** ** Slices of pointers

    A Go slice is a prefix of an array that other slices may share; removing an element
    in place moves the later elements of the array down and leaves the last one where it
    was, beyond the new end. *)
Record slice := mkSlice { sl_array : list nat; sl_len : nat }.
Definition sl_elems (s : slice) : list nat := take (sl_len s) (sl_array s).
Definition sl_nil : slice := mkSlice [] 0.

(** [append(s, x)] and [append(s[:i], s[i+1:]...)]. *)
Definition sl_append (s : slice) (x : nat) : slice :=
  mkSlice (sl_elems s ++ x :: drop (S (sl_len s)) (sl_array s)) (S (sl_len s)).
Definition sl_remove (s : slice) (i : nat) : slice :=
  mkSlice (take i (sl_array s) ++ drop (S i) (sl_elems s) ++ drop (sl_len s - 1) (sl_array s)) (sl_len s - 1).

(** The random source of new channel ids. *)
Class Rand (R : Type) := { rand_Read : R -> result ChannelID * R }.

Module ChannelManager.
Section ChannelManager.
Context {C R : Type} `{Compressor C} `{Keccak} `{Rand R}.
Context (rlp_encode_batch : BatchV1 -> result Data) (rlp_encode_bytes : Data -> result Data).
Context (cfg : ChannelConfig) (NewCompressor : result C).

(** [channelManager].  Channels are pointers: [heap] holds every channel that was created,
    [channelQueue], [currentChannel] and [txChannels] refer to them. *)
Record t := mk {
  blocks : list Block;
  tip : Hash;
  heap : gmap nat (BatcherChannel.t C);
  currentChannel : option nat;
  channelQueue : slice;
  txChannels : gmap txID nat;
  closed : bool;
  random : R }.

Definition set_blocks bs (s : t) : t :=
  mk bs (tip s) (heap s) (currentChannel s) (channelQueue s) (txChannels s) (closed s) (random s).
Definition set_channel p c (s : t) : t :=
  mk (blocks s) (tip s) (<[p := c]> (heap s)) (currentChannel s) (channelQueue s) (txChannels s) (closed s) (random s).
Definition set_currentChannel p (s : t) : t :=
  mk (blocks s) (tip s) (heap s) p (channelQueue s) (txChannels s) (closed s) (random s).
Definition set_channelQueue q (s : t) : t :=
  mk (blocks s) (tip s) (heap s) (currentChannel s) q (txChannels s) (closed s) (random s).
Definition set_txChannels m (s : t) : t :=
  mk (blocks s) (tip s) (heap s) (currentChannel s) (channelQueue s) m (closed s) (random s).
Definition set_closed b (s : t) : t :=
  mk (blocks s) (tip s) (heap s) (currentChannel s) (channelQueue s) (txChannels s) b (random s).

(** Code over the channel behind a pointer; a nil or dangling pointer panics. *)
Definition on_channel {A} (p : nat) (m : M (BatcherChannel.t C) A) : M t A := fun s =>
  match heap s !! p with
  | Some c => let '(r, c') := m c in (r, set_channel p c' s)
  | None => (Panic, s)
  end.
Definition on_current {A} (m : M (BatcherChannel.t C) A) : M t A :=
  s <- get ;;
  match currentChannel s with
  | Some p => on_channel p m
  | None => lift Panic
  end.

(** [NewChannelManager] and [channelManager.Clear]. *)
Definition new (r : R) : t := mk [] 0 ∅ None sl_nil ∅ false r.
Definition Clear (s : t) : t := mk [] 0 (heap s) None sl_nil ∅ false (random s).

(** [channelManager.removePendingChannel]. *)
Definition removePendingChannel (p : nat) (s : t) : t :=
  let s := if bool_decide (currentChannel s = Some p) then set_currentChannel None s else s in
  match list_find (eq p) (sl_elems (channelQueue s)) with
  | Some (index, _) => set_channelQueue (sl_remove (channelQueue s) index) s
  | None => s
  end.

(** [channelManager.TxFailed] and [TxConfirmed]. *)
Definition TxFailed (id : txID) : M t unit :=
  s <- get ;;
  match txChannels s !! id with
  | None => ret tt
  | Some p =>
      modify (fun s => set_txChannels (delete id (txChannels s)) s) ;;;
      on_channel p (BatcherChannel.TxFailed id) ;;;
      none <- on_channel p (fun c => (Ok (BatcherChannel.NoneSubmitted c), c)) ;;
      if closed s && none then modify (removePendingChannel p) else ret tt
  end.
Definition TxConfirmed (id : txID) (inclusionBlock : BlockID) : M t unit :=
  s <- get ;;
  match txChannels s !! id with
  | None => ret tt
  | Some p =>
      modify (fun s => set_txChannels (delete id (txChannels s)) s) ;;;
      r <- on_channel p (fun c => let '(done, bs, c') := BatcherChannel.TxConfirmed cfg id inclusionBlock c in
                                  (Ok (done, bs), c')) ;;
      modify (fun s => set_blocks (r.2 ++ blocks s) s) ;;;
      if r.1 : bool then modify (removePendingChannel p) else ret tt
  end.

(** [channelManager.nextTxData]. *)
Definition nextTxData (p : option nat) : M t txData :=
  match p with
  | None => throw EOF
  | Some p =>
      has <- on_channel p (fun c => (Ok (BatcherChannel.HasFrame c), c)) ;;
      if negb has then throw EOF
      else
        tx <- on_channel p BatcherChannel.NextTxData ;;
        modify (fun s => set_txChannels (<[td_ID tx := p]> (txChannels s)) s) ;;;
        ret tx
  end.

(** [channelManager.ensureChannelWithSpace]; a new channel gets a fresh pointer. *)
Definition ensureChannelWithSpace : M t unit :=
  s <- get ;;
  full <- match currentChannel s with
          | Some p => on_channel p (fun c => (Ok (BatcherChannel.IsFull c), c))
          | None => ret true
          end ;;
  if negb full then ret tt
  else
    let '(rand, r') := rand_Read (random s) in
    modify (fun s => mk (blocks s) (tip s) (heap s) (currentChannel s) (channelQueue s) (txChannels s) (closed s) r') ;;;
    pc <- wrapE (ErrWrap "creating new channel") (lift (BatcherChannel.new NewCompressor rand)) ;;
    modify (fun s => let p := fresh (dom (heap s)) in
                     set_channelQueue (sl_append (channelQueue s) p)
                       (set_currentChannel (Some p) (set_channel p pc s))).

(** [channelManager.registerL1Block]. *)
Definition registerL1Block (l1Head : BlockID) : M t unit :=
  on_current (fun c => (Ok tt, BatcherChannel.RegisterL1Block cfg (id_Number l1Head) c)).

(** The loop of [processBlocks]: how many blocks were added. *)
Fixpoint process_loop (bs : list Block) : M t nat :=
  match bs with
  | [] => ret O
  | block :: bs' =>
      r <- attempt (on_current (BatcherChannel.AddBlock rlp_encode_batch rlp_encode_bytes cfg block)) ;;
      match r with
      | inr err =>
          if errors_As_ChannelFull err then ret O
          else throw (ErrWrap "adding block to channel builder" err)
      | inl _ =>
          full <- on_current (fun c => (Ok (BatcherChannel.IsFull c), c)) ;;
          if full : bool then ret 1%nat
          else n <- process_loop bs' ;; ret (S n)
      end
  end.

(** [channelManager.processBlocks]. *)
Definition processBlocks : M t unit :=
  s <- get ;;
  blocksAdded <- process_loop (blocks s) ;;
  modify (fun s => set_blocks (drop blocksAdded (blocks s)) s).

(** [channelManager.outputFrames]; the rest of the source records metrics. *)
Definition outputFrames (fuel : nat) : M t (option unit) :=
  wrapE (ErrWrap "creating frames with channel builder") (on_current (BatcherChannel.OutputFrames cfg fuel)).

(** [channelManager.TxData]; [Ok None] when the fuel did not suffice for the frames. *)
Definition first_with_frame (s : t) : option nat :=
  snd <$> list_find (fun p => BatcherChannel.HasFrame <$> heap s !! p = Some true) (sl_elems (channelQueue s)).
Definition TxData (fuel : nat) (l1Head : BlockID) : M t (option txData) :=
  s <- get ;;
  let firstWithFrame := first_with_frame s in
  if bool_decide (is_Some firstWithFrame) || closed s then Some <$$> nextTxData firstWithFrame
  else if bool_decide (blocks s = []) then throw EOF
  else
    ensureChannelWithSpace ;;;
    processBlocks ;;;
    registerL1Block l1Head ;;;
    out <- outputFrames fuel ;;
    match out with
    | None => ret None
    | Some _ => s <- get ;; Some <$$> nextTxData (currentChannel s)
    end.

(** [channelManager.AddL2Block]. *)
Definition AddL2Block (block : Block) : M t unit :=
  s <- get ;;
  if negb (tip s =? 0) && negb (tip s =? blk_ParentHash block) then throw ErrReorg
  else put (mk (blocks s ++ [block]) (blk_Hash block) (heap s) (currentChannel s) (channelQueue s)
              (txChannels s) (closed s) (random s)).

(** The loop of [Close]: the range is over the array the queue had at the start, which
    removing channels changes. *)
Fixpoint close_loop (i n : nat) : M t unit :=
  match n with
  | O => ret tt
  | S n' =>
      s <- get ;;
      match sl_array (channelQueue s) !! i with
      | None => lift Panic
      | Some p =>
          none <- on_channel p (fun c => (Ok (BatcherChannel.NoneSubmitted c), c)) ;;
          (if none : bool then modify (removePendingChannel p) else ret tt) ;;;
          close_loop (S i) n'
      end
  end.

(** [channelManager.Close]. *)
Definition Close (fuel : nat) : M t (option unit) :=
  s <- get ;;
  if closed s then ret (Some tt)
  else
    put (set_closed true s) ;;;
    close_loop 0 (sl_len (channelQueue s)) ;;;
    s <- get ;;
    match currentChannel s with
    | None => ret (Some tt)
    | Some _ =>
        on_current (fun c => (Ok tt, BatcherChannel.Close c)) ;;;
        outputFrames fuel
    end.
End ChannelManager.
Arguments t : clear implicits.
End ChannelManager.
