(* ===== verification/ChannelBuilderSpec.v ===== *)
(** * What the channel builder and the batcher's channels guarantee

    Frame output terminates, and a channel all of whose transactions are confirmed can be
    read by the node and decompresses to the batches of its blocks. *)
From S2P Require Import Prelude GoErrors GoBytes EthTypes Geth L1Info Frame Channel Batch ChannelOut Compressor ChannelBuilder ChannelManager.
#[local] Open Scope Z_scope.

(** A frame as the builder queues it. *)
Definition frame_id (f : Frame) : frameID := mkFrameID (ID f) (FrameNumber f).
Definition as_data (f : Frame) : frameData := mkFrameData (MarshalBinary f) (frame_id f).

Section Builder.
Context {C : Type} `{LawfulCompressor C} `{Keccak}.
Context (cfg : ChannelConfig).
Import ChannelBuilder.
Implicit Types c : ChannelBuilder.t C.

(** The bytes that wait in the compressor. *)
Definition ready c : Data := c_buf (ChannelOut.compress (co c)).

(** The builder is at the stage [l] of the life of its channel, with the frames [fs] put
    out so far. *)
Definition at_stage c (l : life) (fs : list Frame) : Prop := lf_out l = co c /\ life_inv (ID c) l fs.

Definition size_ok : Prop := 23 <= cc_MaxFrameSize cfg <= MaxFrameLen + 23.

(** One frame put out. *)
Record emits c (l : @life C) fs c' (l' : @life C) f : Prop := {
  em_stage : at_stage c' l' (fs ++ [f]);
  em_done : lf_done l' = IsLast f;
  em_stream : lf_stream l' = lf_stream l;
  em_id : ID c' = ID c;
  em_frames : frames c' = frames c ++ [as_data f];
  em_blocks : blocks c' = blocks c;
  em_num : numFrames c' = numFrames c + 1;
  em_full : IsFull c = true -> IsFull c' = true;
  em_closed : ChannelOut.closed (co c') = ChannelOut.closed (co c);
  em_ready : ready c' = drop (Z.to_nat (frame_bytes (cc_MaxFrameSize cfg) (co c))) (ready c);
  em_last : IsLast f = (Z.of_nat (length (ready c)) <? cc_MaxFrameSize cfg - 23) && ChannelOut.closed (co c) }.

Lemma outputFrame_emits c l fs :
  size_ok -> at_stage c l fs -> lf_done l = false -> Z.of_nat (length (ready c)) < two64 ->
  exists f c' l', outputFrame cfg c = (Ok (IsLast f), c') /\ emits c l fs c' l' f.
Proof.
  intros Hm [Hout Hl] Hd Hlen. unfold ready in Hlen. rewrite <- Hout in Hlen.
  destruct (output_life (ID c) l fs (cc_MaxFrameSize cfg) Hl Hd Hm Hlen)
    as (f & co' & Ho & Hl' & Hlast & Hbuf & Hcl).
  rewrite Hout in Ho. pose proof (li_id _ _ _ Hl') as Hid. cbn in Hid.
  pose proof (li_lookup _ _ _ Hl' (length fs) f) as Hf. rewrite lookup_app_r, Nat.sub_diag in Hf by lia.
  destruct (Hf eq_refl) as (Hfid & _).
  assert (Hdata : mkFrameData (MarshalBinary f) (mkFrameID (ChannelOut.id co') (FrameNumber f)) = as_data f).
  { unfold as_data, frame_id. congruence. }
  unfold outputFrame, bind at 1, attempt, on_co, zoom. rewrite Ho.
  unfold ready. rewrite Hout in *.
  destruct (FrameNumber f =? 65535); (eexists f, _, (mkLife co' (lf_frames l ++ [MarshalBinary f]) (lf_stream l) (IsLast f)); split; [reflexivity|]);
    (split; [split; [reflexivity|cbn; unfold ID; cbn; by rewrite Hid]|done|done|done| |done|done| |done|done|done]);
    try done; cbn; unfold ID; cbn; by rewrite Hdata.
Qed.

(** Any number of frames put out. *)
Record progress c (l : @life C) fs c' (l' : @life C) new : Prop := {
  pr_stage : at_stage c' l' (fs ++ new);
  pr_stream : lf_stream l' = lf_stream l;
  pr_id : ID c' = ID c;
  pr_frames : frames c' = frames c ++ (as_data <$> new);
  pr_blocks : blocks c' = blocks c;
  pr_num : numFrames c' = numFrames c + Z.of_nat (length new);
  pr_full : IsFull c = true -> IsFull c' = true;
  pr_closed : ChannelOut.closed (co c') = ChannelOut.closed (co c);
  pr_done : lf_done l' = true -> ChannelOut.closed (co c') = true;
  pr_ready : (length (ready c') <= length (ready c))%nat }.

Lemma progress_refl c l fs : at_stage c l fs -> lf_done l = false -> progress c l fs c l [].
Proof.
  intros Hs Hd. split; try done; [by rewrite app_nil_r|by rewrite app_nil_r|cbn; lia|by rewrite Hd].
Qed.

Lemma emits_progress c l fs c1 l1 f c' l' new :
  emits c l fs c1 l1 f -> progress c1 l1 (fs ++ [f]) c' l' new -> progress c l fs c' l' (f :: new).
Proof.
  intros [] []. split; try congruence.
  - by rewrite <- app_assoc in pr_stage0.
  - rewrite pr_frames0, em_frames0, <- app_assoc. done.
  - cbn [length]. lia.
  - auto.
  - done.
  - rewrite em_ready0, length_drop in pr_ready0. lia.
Qed.

Lemma emits_last c l fs c1 l1 f :
  emits c l fs c1 l1 f -> progress c l fs c1 l1 [f].
Proof.
  intros []. split; try done.
  - rewrite em_done0, em_last0, em_closed0. by intros [_ ?]%andb_true_iff.
  - rewrite em_ready0, length_drop. lia.
Qed.

Lemma outputReadyFrames_progress fuel c l fs r c' :
  size_ok -> at_stage c l fs -> lf_done l = false -> Z.of_nat (length (ready c)) < two64 ->
  outputReadyFrames cfg fuel c = (r, c') -> exists l' new, progress c l fs c' l' new.
Proof.
  intros Hm. revert c l fs. induction fuel as [|fuel IH]; intros c l fs Hs Hd Hlen;
    cbn [outputReadyFrames]; unfold bind at 1, get.
  - case_if; intros [= <- <-]; exists l, []; by apply progress_refl.
  - case_if; [|intros [= <- <-]; exists l, []; by apply progress_refl].
    destruct (outputFrame_emits c l fs Hm Hs Hd Hlen) as (f & c1 & l1 & Ho & He).
    unfold bind at 1. rewrite Ho. destruct (IsLast f) eqn:Hl.
    + intros [= <- <-]. exists l1, [f]. by eapply emits_last.
    + intros Hx. destruct (IH c1 l1 (fs ++ [f])) as (l' & new & Hp).
      * by apply (em_stage _ _ _ _ _ _ He).
      * by rewrite (em_done _ _ _ _ _ _ He).
      * rewrite (em_ready _ _ _ _ _ _ He), length_drop. lia.
      * done.
      * exists l', (f :: new). by eapply emits_progress.
Qed.

Lemma output_all_progress fuel c l fs r c' :
  size_ok -> at_stage c l fs -> lf_done l = false -> Z.of_nat (length (ready c)) < two64 ->
  output_all_loop cfg fuel c = (r, c') ->
  exists l' new, progress c l fs c' l' new /\ (r = Ok (Some tt) /\ lf_done l' = true \/ r = Ok None).
Proof.
  intros Hm. revert c l fs. induction fuel as [|fuel IH]; intros c l fs Hs Hd Hlen; cbn [output_all_loop].
  - intros [= <- <-]. exists l, []. split; [by apply progress_refl|by right].
  - destruct (outputFrame_emits c l fs Hm Hs Hd Hlen) as (f & c1 & l1 & Ho & He).
    unfold bind at 1. rewrite Ho. destruct (IsLast f) eqn:Hl.
    + intros [= <- <-]. exists l1, [f]. split; [by eapply emits_last|left].
      by rewrite (em_done _ _ _ _ _ _ He).
    + intros Hx. destruct (IH c1 l1 (fs ++ [f])) as (l' & new & Hp & Hr).
      * by apply (em_stage _ _ _ _ _ _ He).
      * by rewrite (em_done _ _ _ _ _ _ He).
      * rewrite (em_ready _ _ _ _ _ _ He), length_drop. lia.
      * done.
      * exists l', (f :: new). split; [by eapply emits_progress|done].
Qed.

(** With room for data in a frame, the loop ends: every frame but the last takes at least
    one byte. *)
Lemma output_all_ends fuel c l fs :
  24 <= cc_MaxFrameSize cfg <= MaxFrameLen + 23 -> at_stage c l fs -> lf_done l = false ->
  ChannelOut.closed (co c) = true ->
  Z.of_nat (length (ready c)) < two64 -> (length (ready c) < fuel)%nat ->
  (output_all_loop cfg fuel c).1 = Ok (Some tt).
Proof.
  intros Hm. revert c l fs. induction fuel as [|fuel IH]; intros c l fs Hs Hd Hc Hlen Hf; [lia|].
  cbn [output_all_loop]. destruct (outputFrame_emits c l fs) as (f & c1 & l1 & Ho & He); [unfold size_ok; lia|done..|].
  unfold bind at 1. rewrite Ho. destruct (IsLast f) eqn:Hl; [done|].
  pose proof (em_last _ _ _ _ _ _ He) as Hle. rewrite Hl, Hc, andb_true_r in Hle. symmetry in Hle. zify_bools.
  assert (length (ready c1) < length (ready c))%nat.
  { rewrite (em_ready _ _ _ _ _ _ He), length_drop. unfold frame_bytes. unfold ready in *. lia. }
  eapply IH; [by apply (em_stage _ _ _ _ _ _ He)|by rewrite (em_done _ _ _ _ _ _ He), Hl|
    by rewrite (em_closed _ _ _ _ _ _ He)|lia|lia].
Qed.

Lemma outputReadyFrames_ends fuel c l fs :
  24 <= cc_MaxFrameSize cfg <= MaxFrameLen + 23 -> at_stage c l fs -> lf_done l = false ->
  ChannelOut.closed (co c) = false ->
  Z.of_nat (length (ready c)) < two64 -> (length (ready c) < fuel)%nat ->
  (outputReadyFrames cfg fuel c).1 = Ok (Some tt).
Proof.
  intros Hm. revert c l fs. induction fuel as [|fuel IH]; intros c l fs Hs Hd Hc Hlen Hf; [lia|].
  cbn [outputReadyFrames]. unfold bind at 1, get.
  unfold ReadyBytes, ChannelOut.ReadyBytes. rewrite c_buf_len.
  destruct (Z.leb_spec (i64 (cc_MaxFrameSize cfg)) (Z.of_nat (length (c_buf (ChannelOut.compress (co c))))));
    [|done].
  assert (i64 (cc_MaxFrameSize cfg) = cc_MaxFrameSize cfg) as Hi.
  { unfold i64, MaxFrameLen, two64 in *. rewrite Z.mod_small by lia. lia. }
  destruct (outputFrame_emits c l fs) as (f & c1 & l1 & Ho & He); [unfold size_ok; lia|done..|].
  pose proof (em_last _ _ _ _ _ _ He) as Hle. rewrite Hc, andb_false_r in Hle.
  unfold bind at 1. rewrite Ho, Hle.
  assert (length (ready c1) < length (ready c))%nat.
  { rewrite (em_ready _ _ _ _ _ _ He), length_drop. unfold frame_bytes. unfold ready in *. lia. }
  eapply IH; [by apply (em_stage _ _ _ _ _ _ He)|by rewrite (em_done _ _ _ _ _ _ He), Hle|
    by rewrite (em_closed _ _ _ _ _ _ He)|lia|lia].
Qed.

(** A frame of 23 bytes has no room for data: no frame is ever the last one. *)
Lemma output_all_hangs fuel c l fs :
  cc_MaxFrameSize cfg = 23 -> at_stage c l fs -> lf_done l = false -> Z.of_nat (length (ready c)) < two64 ->
  (output_all_loop cfg fuel c).1 = Ok None.
Proof.
  intros Hm. revert c l fs. induction fuel as [|fuel IH]; intros c l fs Hs Hd Hlen; [done|].
  cbn [output_all_loop]. destruct (outputFrame_emits c l fs) as (f & c1 & l1 & Ho & He);
    [unfold size_ok, MaxFrameLen; lia|done..|].
  assert (IsLast f = false) as Hl.
  { pose proof (em_last _ _ _ _ _ _ He) as ->. rewrite Hm. apply andb_false_iff. left. apply Z.ltb_ge. lia. }
  unfold bind at 1. rewrite Ho, Hl.
  eapply IH; [by apply (em_stage _ _ _ _ _ _ He)|by rewrite (em_done _ _ _ _ _ _ He), Hl|].
  rewrite (em_ready _ _ _ _ _ _ He), length_drop. lia.
Qed.
End Builder.

(** ** From blocks to a channel that can be read *)
Section Channels.
Context {C : Type} (unzip : Data -> option Data) `{FaithfulCompressor C unzip} `{Keccak}.
Context (rlp_encode_batch : BatchV1 -> result Data) (rlp_encode_bytes : Data -> result Data).
Context (cfg : ChannelConfig).
Implicit Types c : ChannelBuilder.t C.
Implicit Types s : BatcherChannel.t C.

(** The compressor reads only: what went in and out is unchanged. *)
Definition reads (w w' : C) : Prop := c_in w' = c_in w /\ c_out w' = c_out w /\ (c_open w -> c_open w').

#[local] Instance reads_preorder : PreOrder reads.
Proof. split; unfold reads; red; naive_solver congruence. Qed.

Definition comp c : C := ChannelOut.compress (ChannelBuilder.co c).

Lemma io_ReadFull_reads n : preserves reads (io_ReadFull n).
Proof.
  intros w r w'. unfold io_ReadFull. generalize n at 1 as fuel, (@nil byte) as acc.
  intros fuel. revert n w. induction fuel as [|fuel IH]; intros n w acc; cbn [read_full_loop].
  - destruct n; intros [= <- <-]; reflexivity.
  - destruct n as [|n]; [intros [= <- <-]; reflexivity|].
    destruct (c_Read (S n) w) as [[d err] w1] eqn:E. apply f_read in E.
    destruct (_ <=? _)%nat; [by intros [= <- <-]|].
    destruct err as [err|]; [case_if; intros [= <- <-]; exact E|].
    intros Hr. etrans; [exact E|by eapply IH].
Qed.

(** What putting out frames does to a channel. *)
Definition reads_out (co co' : ChannelOut.t C) : Prop :=
  reads (ChannelOut.compress co) (ChannelOut.compress co') /\ ChannelOut.closed co' = ChannelOut.closed co.
Definition puts_out c c' : Prop :=
  reads_out (ChannelBuilder.co c) (ChannelBuilder.co c') /\
  (ChannelBuilder.IsFull c = true -> ChannelBuilder.IsFull c' = true) /\
  ChannelBuilder.numFrames c <= ChannelBuilder.numFrames c'.

#[local] Instance reads_out_preorder : PreOrder reads_out.
Proof. split; unfold reads_out; red; [done|]. intros x y z [? ?] [? ?]. split; [by etrans|congruence]. Qed.
#[local] Instance puts_out_preorder : PreOrder puts_out.
Proof.
  split; unfold puts_out; red; [done|]. intros x y z (? & ? & ?) (? & ? & ?). split_and!; [by etrans|auto|lia].
Qed.

Lemma OutputFrame_reads n : preserves reads_out (ChannelOut.OutputFrame (C := C) n).
Proof.
  unfold ChannelOut.OutputFrame. go_code.
  - intros co1 r1 co2. unfold ChannelOut.on_compress, zoom.
    destruct (io_ReadFull _ _) as [r2 w] eqn:E. intros [= _ <-]. apply io_ReadFull_reads in E. by split.
  - apply preserves_modify. intros. by split.
Qed.

Lemma outputFrame_puts_out : preserves puts_out (ChannelBuilder.outputFrame cfg).
Proof.
  unfold ChannelBuilder.outputFrame.
  go_code; try (apply preserves_modify; unfold puts_out; intros; cbn; split_and!; try done; lia).
  intros c1 r1 c2. unfold ChannelBuilder.on_co, zoom.
  destruct (ChannelOut.OutputFrame _ _) as [r2 w] eqn:E. intros [= _ <-]. apply OutputFrame_reads in E.
  by split_and!.
Qed.

Lemma outputReadyFrames_puts_out fuel : preserves puts_out (ChannelBuilder.outputReadyFrames cfg fuel).
Proof.
  pose proof outputFrame_puts_out. induction fuel as [|fuel IH]; cbn [ChannelBuilder.outputReadyFrames]; go_code.
Qed.

Lemma output_all_puts_out fuel : preserves puts_out (ChannelBuilder.output_all_loop cfg fuel).
Proof.
  pose proof outputFrame_puts_out. induction fuel as [|fuel IH]; cbn [ChannelBuilder.output_all_loop]; go_code.
Qed.

(** The bytes a block adds to the channel. *)
Definition encodes (b : Block) (enc : Data) : Prop :=
  exists batch info, BlockToBatch b = Ok (batch, info) /\
    EncodeRLP rlp_encode_batch rlp_encode_bytes batch = Ok enc.

(** The compressor is open until the channel is closed, which it is only when it is full. *)
Record open_inv c : Prop := {
  oi_full : ChannelOut.closed (ChannelBuilder.co c) = true -> ChannelBuilder.IsFull c = true;
  oi_open : ChannelOut.closed (ChannelBuilder.co c) = false -> c_open (comp c) }.

(** What can happen to a channel between two of its states: bytes are only added to what
    was put out. *)
Definition grows c c' : Prop :=
  exists more, c_out (comp c') = c_out (comp c) ++ more.

#[local] Instance grows_preorder : PreOrder grows.
Proof.
  split; [intros c; exists []; by rewrite app_nil_r|].
  intros c1 c2 c3 [m1 E1] [m2 E2]. exists (m1 ++ m2). by rewrite E2, E1, app_assoc.
Qed.

Lemma puts_out_grows c c' : puts_out c c' -> grows c c'.
Proof. intros [[(_ & E & _) _] _]. exists []. unfold comp. by rewrite app_nil_r. Qed.

Lemma puts_out_open c c' : puts_out c c' -> open_inv c -> open_inv c'.
Proof. intros [[(_ & _ & Hop) Hc] [Hf _]] []. split; unfold comp in *; rewrite Hc; auto. Qed.

(** The builder at a stage of its life, with the encodings [encs] of its blocks. *)
Record builder_inv c (l : @life C) (fs : list Frame) (encs : list Data) : Prop := {
  bi_stage : at_stage c l fs;
  bi_done : lf_done l = true -> ChannelOut.closed (ChannelBuilder.co c) = true;
  bi_opens :> open_inv c;
  bi_num : ChannelBuilder.numFrames c = Z.of_nat (length fs);
  bi_encs : Forall2 encodes (ChannelBuilder.blocks c) encs;
  bi_in : c_in (comp c) = concat encs;
  bi_out : c_out (comp c) = lf_stream l;
  bi_unzip : ChannelOut.closed (ChannelBuilder.co c) = true -> unzip (c_out (comp c)) = Some (c_in (comp c)) }.

Lemma builder_inv_done c l fs encs :
  builder_inv c l fs encs -> ChannelOut.closed (ChannelBuilder.co c) = false -> lf_done l = false.
Proof. intros Hi Hc. destruct (lf_done l) eqn:E; [|done]. apply (bi_done _ _ _ _ Hi) in E. congruence. Qed.

Lemma ready_le c l fs encs :
  builder_inv c l fs encs -> (length (ready c) <= length (c_out (comp c)))%nat.
Proof.
  intros [[Hout Hl] _ _ _ _ _ Ho _]. pose proof (li_stream _ _ _ Hl) as Hs.
  rewrite Ho, <- Hs, length_app. unfold ready. rewrite <- Hout. lia.
Qed.

Lemma progress_inv c l fs encs c' l' new :
  builder_inv c l fs encs -> progress c l fs c' l' new -> puts_out c c' ->
  builder_inv c' l' (fs ++ new) encs.
Proof.
  intros [? ? Hop] [] Hp. pose proof (puts_out_open _ _ Hp Hop) as Hop'. destruct Hp as [[(Hi & Ho & _) _] _].
  split; [done..| | |unfold comp in *; congruence|unfold comp in *; congruence|].
  - rewrite pr_num0, length_app. lia.
  - by rewrite pr_blocks0.
  - unfold comp in *. rewrite pr_closed0, Hi, Ho. auto.
Qed.

(** Timeouts and marks do not touch the channel. *)
Definition same_channel c c' : Prop :=
  ChannelBuilder.co c' = ChannelBuilder.co c /\ ChannelBuilder.blocks c' = ChannelBuilder.blocks c /\
  ChannelBuilder.frames c' = ChannelBuilder.frames c /\ ChannelBuilder.numFrames c' = ChannelBuilder.numFrames c /\
  (ChannelBuilder.IsFull c = true -> ChannelBuilder.IsFull c' = true).

#[local] Instance same_channel_preorder : PreOrder same_channel.
Proof. split; unfold same_channel; red; [done|naive_solver congruence]. Qed.

Lemma same_channel_open c c' : same_channel c c' -> open_inv c -> open_inv c'.
Proof. intros (Hco & _ & _ & _ & Hf) []. split; unfold comp in *; rewrite Hco; auto. Qed.

Lemma same_channel_inv c l fs encs c' :
  same_channel c c' -> builder_inv c l fs encs -> builder_inv c' l fs encs.
Proof.
  intros Hsame [[Hs1 Hs2] ? Hop]. pose proof (same_channel_open _ _ Hsame Hop).
  destruct Hsame as (Hco & Hb & _ & Hn & _). split; unfold comp in *; rewrite ?Hco, ?Hb, ?Hn; auto.
  split; [congruence|]. unfold ChannelBuilder.ID in *. by rewrite Hco.
Qed.

Lemma updateTimeout_same z e c : same_channel c (ChannelBuilder.updateTimeout z e c).
Proof. unfold ChannelBuilder.updateTimeout. case_if; by repeat split. Qed.

Lemma setFullErr_same e c : same_channel c (ChannelBuilder.setFullErr e c).
Proof. by repeat split. Qed.

Lemma RegisterL1Block_same n c : same_channel c (ChannelBuilder.RegisterL1Block cfg n c).
Proof.
  unfold ChannelBuilder.RegisterL1Block. trans (ChannelBuilder.updateDurationTimeout cfg n c).
  - unfold ChannelBuilder.updateDurationTimeout. case_if; [reflexivity|apply updateTimeout_same].
  - unfold ChannelBuilder.checkTimeout. case_if; [apply setFullErr_same|reflexivity].
Qed.

Lemma Close_same c : same_channel c (ChannelBuilder.Close c).
Proof. unfold ChannelBuilder.Close. case_if; [reflexivity|apply setFullErr_same]. Qed.

(** *** Adding blocks *)

(** What offering a batch does to a channel that is open. *)
Record batch_added batch (o : ChannelOut.t C) (ra : result Z) (o' : ChannelOut.t C) : Prop := {
  ba_id : ChannelOut.id o' = ChannelOut.id o;
  ba_frame : ChannelOut.frame o' = ChannelOut.frame o;
  ba_closed : ChannelOut.closed o' = false;
  ba_open : c_open (ChannelOut.compress o');
  ba_more : exists more, c_buf (ChannelOut.compress o') = c_buf (ChannelOut.compress o) ++ more /\
                         c_out (ChannelOut.compress o') = c_out (ChannelOut.compress o) ++ more;
  ba_in : (exists n enc, ra = Ok n /\ EncodeRLP rlp_encode_batch rlp_encode_bytes batch = Ok enc /\
             c_in (ChannelOut.compress o') = c_in (ChannelOut.compress o) ++ enc) \/
          is_ok ra = false /\ c_in (ChannelOut.compress o') = c_in (ChannelOut.compress o) }.

Lemma batch_refused batch o ra :
  ChannelOut.closed o = false -> c_open (ChannelOut.compress o) -> is_ok ra = false ->
  batch_added batch o ra o.
Proof. intros. split; try done; [exists []; by rewrite !app_nil_r|by right]. Qed.

Lemma AddBatch_faithful batch (o : ChannelOut.t C) r o' :
  ChannelOut.closed o = false -> c_open (ChannelOut.compress o) ->
  ChannelOut.AddBatch rlp_encode_batch rlp_encode_bytes batch o = (r, o') -> batch_added batch o r o'.
Proof.
  intros Hc Hop. unfold ChannelOut.AddBatch, bind, get, lift, put. rewrite Hc.
  destruct (EncodeRLP _ _ batch) as [enc|e|] eqn:He; [|by intros [= <- <-]; apply batch_refused..].
  destruct (MaxRLPBytesPerChannel <? _); [by intros [= <- <-]; apply batch_refused|].
  unfold ChannelOut.on_compress, zoom. cbn [ChannelOut.compress].
  destruct (c_Write enc (ChannelOut.compress o)) as [rw w'] eqn:Ew. intros [= <- <-].
  apply f_write in Ew as (Hop' & Hr & Hmore); [|done]. split; cbn; try done.
  destruct Hr as [(n & -> & Hin)|[-> Hin]]; [left; eauto|by right].
Qed.

(** [AddBlock] changes nothing but marks, or offers the batch of the block, which counts as
    added when it was taken. *)
Lemma AddBlock_cases block c r c' :
  ChannelBuilder.AddBlock rlp_encode_batch rlp_encode_bytes cfg block c = (r, c') ->
  c' = c \/
  ChannelBuilder.IsFull c = false /\ exists bl ra,
    BlockToBatch block = Ok bl /\
    ChannelOut.AddBatch rlp_encode_batch rlp_encode_bytes bl.1 (ChannelBuilder.co c) = (ra, ChannelBuilder.co c') /\
    ChannelBuilder.frames c' = ChannelBuilder.frames c /\ ChannelBuilder.numFrames c' = ChannelBuilder.numFrames c /\
    ChannelBuilder.blocks c' = ChannelBuilder.blocks c ++ (if is_ok ra then [block] else []).
Proof.
  intros Ha. unfold ChannelBuilder.AddBlock in Ha. unfold bind at 1, get in Ha.
  destruct (ChannelBuilder.fullErr c) as [err|] eqn:Hfull; [injection Ha as <- <-; by left|].
  apply bind_cases in Ha as [(bl & c1 & Hb & Ha)|[(e & Hb & ->)|[Hb ->]]];
    unfold wrapE, lift in Hb; injection Hb as Hb <-; [|by left..].
  right. split; [unfold ChannelBuilder.IsFull; rewrite Hfull; by apply bool_decide_eq_false; intros []|].
  assert (Hbb : BlockToBatch block = Ok bl) by (destruct (BlockToBatch block); by try injection Hb as ->).
  clear Hb. exists bl. unfold bind at 1, attempt, ChannelBuilder.on_co, zoom in Ha.
  destruct (ChannelOut.AddBatch rlp_encode_batch rlp_encode_bytes bl.1 (ChannelBuilder.co c)) as [ra o'] eqn:Ea.
  exists ra. split; [done|]. destruct ra as [n|err|]; cbn [is_ok].
  - cbv zeta in Ha. unfold bind, modify, get, ChannelBuilder.updateSwTimeout in Ha.
    match type of Ha with context [ChannelBuilder.updateTimeout ?z ?e ?c2] =>
      destruct (updateTimeout_same z e c2) as (Ht1 & Ht2 & Ht3 & Ht4 & _);
      set (c3 := ChannelBuilder.updateTimeout z e c2) in *; clearbody c3 end.
    cbn in Ht1, Ht2, Ht3, Ht4. destruct (ChannelOut.FullErr _); injection Ha as _ <-; cbn; subst o'; done.
  - case_if_in Ha; injection Ha as _ <-; cbn; by rewrite app_nil_r.
  - injection Ha as _ <-. cbn. by rewrite app_nil_r.
Qed.

Lemma AddBlock_open block c r c' :
  open_inv c -> ChannelBuilder.AddBlock rlp_encode_batch rlp_encode_bytes cfg block c = (r, c') ->
  open_inv c' /\ grows c c'.
Proof.
  intros [Hfull Hop] [->|(Hnf & bl & ra & _ & Ea & _)]%AddBlock_cases; [by split|].
  destruct (ChannelOut.closed (ChannelBuilder.co c)) eqn:Hc; [by rewrite Hfull in Hnf|].
  apply AddBatch_faithful in Ea as [_ _ Hc' Hop' (more & _ & Hm) _]; [|done|by apply Hop].
  split; [|by exists more]. split; [by rewrite Hc'|done].
Qed.

Lemma AddBlock_inv block c l fs encs r c' :
  builder_inv c l fs encs ->
  ChannelBuilder.AddBlock rlp_encode_batch rlp_encode_bytes cfg block c = (r, c') ->
  exists l' encs', builder_inv c' l' fs encs' /\ lf_done l' = lf_done l /\
    ChannelBuilder.frames c' = ChannelBuilder.frames c /\ ChannelBuilder.ID c' = ChannelBuilder.ID c.
Proof.
  intros Hinv Ha. pose proof (AddBlock_open _ _ _ _ (bi_opens _ _ _ _ Hinv) Ha) as [Hop' _].
  apply AddBlock_cases in Ha as [->|(Hnf & bl & ra & Hbb & Ea & Hfs & Hn & Hbs)]; [by exists l, encs|].
  pose proof Hinv as [[Hout Hl] _ [Hfull Hop] Hnum Hencs Hin Hco _].
  destruct (ChannelOut.closed (ChannelBuilder.co c)) eqn:Hc; [by rewrite Hfull in Hnf|].
  pose proof (builder_inv_done _ _ _ _ Hinv Hc) as Hnd.
  apply AddBatch_faithful in Ea as [Hid Hfr Hc' _ (more & Hbuf & Hout') Hr]; [|done|by apply Hop].
  assert (Hid2 : ChannelBuilder.ID c' = ChannelBuilder.ID c) by (unfold ChannelBuilder.ID; congruence).
  assert (Hrest : forall encs', Forall2 encodes (ChannelBuilder.blocks c') encs' ->
    c_in (comp c') = concat encs' -> builder_inv c' (write_op (ChannelBuilder.co c') l) fs encs').
  { intros encs' He Hin2. split; try done; [|cbn; congruence|congruence| |congruence].
    - split; [done|]. rewrite Hid2. rewrite <- Hout in Hid, Hfr, Hbuf. by eapply write_op_inv.
    - unfold comp at 1. rewrite Hout'. cbn. unfold appended.
      by rewrite Hout, Hbuf, drop_app_length, <- Hco. }
  destruct Hr as [(n & enc & -> & He & Hin')|[Hok Hin']].
  - eexists _, (encs ++ [enc]). split_and!; [apply Hrest|done..].
    + rewrite Hbs. apply Forall2_app; [done|]. constructor; [|constructor]. exists bl.1, bl.2. by destruct bl.
    + unfold comp. rewrite Hin', concat_app. cbn. by rewrite app_nil_r, <- Hin.
  - eexists _, encs. split_and!; [apply Hrest|done..].
    + by rewrite Hbs, Hok, app_nil_r.
    + unfold comp. by rewrite Hin', <- Hin.
Qed.

(** *** Frames *)

Lemma Close_open c r c1 :
  open_inv c -> ChannelBuilder.on_co ChannelOut.Close c = (r, c1) ->
  (ChannelOut.closed (ChannelBuilder.co c) = true /\ is_ok r = false /\ c1 = c) \/
  (ChannelOut.closed (ChannelBuilder.co c) = false /\ r = Ok tt /\ exists w more,
    ChannelBuilder.co c1 = ChannelOut.mk (ChannelOut.id (ChannelBuilder.co c)) (ChannelOut.frame (ChannelBuilder.co c))
      (ChannelOut.rlpLength (ChannelBuilder.co c)) w true /\
    same_channel (ChannelBuilder.mk (ChannelBuilder.timeout c) (ChannelBuilder.timeoutReason c) (ChannelBuilder.fullErr c)
      (ChannelBuilder.co c1) (ChannelBuilder.blocks c) (ChannelBuilder.frames c) (ChannelBuilder.numFrames c)
      (ChannelBuilder.outputBytes c)) c1 /\
    c_in w = c_in (comp c) /\ unzip (c_out w) = Some (c_in w) /\
    c_buf w = c_buf (comp c) ++ more /\ c_out w = c_out (comp c) ++ more).
Proof.
  intros [_ Hop]. unfold ChannelBuilder.on_co, zoom, ChannelOut.Close, bind, get, put.
  destruct (ChannelOut.closed (ChannelBuilder.co c)) eqn:Hcd.
  { intros [= <- <-]. left. split_and!; [done..|]. by destruct c. }
  destruct (f_close _ (Hop eq_refl)) as (w & Hw & Hin & Hunzip & more & Hbuf & Hout).
  unfold ChannelOut.on_compress, zoom. cbn [ChannelOut.compress]. unfold comp in Hw. rewrite Hw.
  intros [= <- <-]. right. split_and!; [done..|]. exists w, more. by split_and!.
Qed.

(** The builder after its channel was closed. *)
Lemma Close_inv c l fs encs r c1 :
  builder_inv c l fs encs -> ChannelBuilder.IsFull c = true ->
  ChannelBuilder.on_co ChannelOut.Close c = (r, c1) ->
  (is_ok r = false /\ c1 = c) \/
  (ChannelOut.closed (ChannelBuilder.co c) = false /\ r = Ok tt /\ grows c c1 /\ exists l1, builder_inv c1 l1 fs encs /\ lf_done l1 = false /\
    ChannelBuilder.frames c1 = ChannelBuilder.frames c /\ ChannelBuilder.ID c1 = ChannelBuilder.ID c /\
    ChannelOut.closed (ChannelBuilder.co c1) = true).
Proof.
  intros Hinv Hfull Hc.
  apply Close_open in Hc as [(_ & ? & ->)|(Hcd & -> & w & more & Hco & Hsame & Hin & Huz & Hbuf & Hout)];
    [by left| |by apply (bi_opens _ _ _ _ Hinv)].
  right. split; [done|]. pose proof (builder_inv_done _ _ _ _ Hinv Hcd) as Hnd.
  destruct Hinv as [[Hlo Hl] _ _ Hn Hencs Hcin Hcout _].
  destruct Hsame as (_ & Hbs & Hfs & Hnum & Hf). cbn in Hbs, Hfs, Hnum, Hf.
  assert (Hid : ChannelBuilder.ID c1 = ChannelBuilder.ID c) by (unfold ChannelBuilder.ID; by rewrite Hco).
  split_and!; [done|exists more; unfold comp; by rewrite Hco|].
  exists (write_op (ChannelBuilder.co c1) l). split_and!; [|done..|by rewrite Hco].
  split; unfold comp; rewrite ?Hco; cbn [ChannelOut.closed ChannelOut.compress]; try congruence.
  - split; [by rewrite Hco|]. rewrite Hid. eapply (write_op_inv _ l fs _ more); [done..| | |]; by rewrite Hlo.
  - split; rewrite Hco; [|done]. intros _. by apply Hf.
  - rewrite Hout. cbn. unfold appended. rewrite Hlo. cbn. by rewrite Hbuf, drop_app_length, <- Hcout.
Qed.

Lemma OutputFrames_open fuel c r c' :
  open_inv c -> ChannelBuilder.OutputFrames cfg fuel c = (r, c') ->
  open_inv c' /\ grows c c' /\ ChannelBuilder.numFrames c <= ChannelBuilder.numFrames c'.
Proof.
  intros Hop. unfold ChannelBuilder.OutputFrames, bind at 1, get.
  destruct (ChannelBuilder.IsFull c) eqn:Hfull.
  - unfold ChannelBuilder.closeAndOutputAllFrames. unfold bind at 1, wrapE.
    destruct (ChannelBuilder.on_co ChannelOut.Close c) as [rc c1] eqn:Ec.
    apply Close_open in Ec as [(_ & Hok & ->)|(_ & -> & w & more & Hco & (_ & _ & _ & Hn & Hf) & _ & _ & _ & Hout)]; [..|done].
    + destruct rc; [done|..]; by intros [= <- <-].
    + cbn [map_err]. intros Ho%output_all_puts_out. split_and!.
      * eapply puts_out_open; [done|]. split; rewrite Hco; [|done]. intros _. by apply Hf.
      * etrans; [|by eapply puts_out_grows]. exists more. unfold comp. by rewrite Hco.
      * destruct Ho as (_ & _ & Ho). cbn in Hn. lia.
  - intros Ho%outputReadyFrames_puts_out. split_and!; [by eapply puts_out_open|by apply puts_out_grows|apply Ho].
Qed.

Lemma grows_le c c' : grows c c' -> (length (c_out (comp c)) <= length (c_out (comp c')))%nat.
Proof. intros [m ->]. rewrite length_app. lia. Qed.

Lemma OutputFrames_inv fuel c l fs encs r c' :
  size_ok cfg -> builder_inv c l fs encs ->
  ChannelBuilder.OutputFrames cfg fuel c = (r, c') ->
  Z.of_nat (length (c_out (comp c'))) < two64 ->
  exists l' new, builder_inv c' l' (fs ++ new) encs /\
    ChannelBuilder.frames c' = ChannelBuilder.frames c ++ (as_data <$> new) /\
    ChannelBuilder.ID c' = ChannelBuilder.ID c /\
    (lf_done l = true -> lf_done l' = true) /\
    (ChannelBuilder.IsFull c = true -> r = Ok (Some tt) -> lf_done l' = true).
Proof.
  intros Hm Hinv. unfold ChannelBuilder.OutputFrames, bind at 1, get.
  destruct (ChannelBuilder.IsFull c) eqn:Hfull.
  - unfold ChannelBuilder.closeAndOutputAllFrames. unfold bind, wrapE.
    destruct (ChannelBuilder.on_co ChannelOut.Close c) as [rc c1] eqn:Ec.
    apply Close_inv with (l := l) (fs := fs) (encs := encs) in Ec
      as [(Hok & ->)|(Hcd & -> & _ & l1 & Hinv1 & Hnd & Hf1 & Hid1 & _)]; [| |done..].
    + intros Ho _. exists l, []. rewrite !app_nil_r. destruct rc; [done|..]; by injection Ho as <- <-.
    + cbn. intros Ho Hlen. pose proof Ho as Hp%output_all_puts_out.
      pose proof (grows_le _ _ (puts_out_grows _ _ Hp)). pose proof (ready_le _ _ _ _ Hinv1).
      destruct (output_all_progress cfg fuel c1 l1 fs r c') as (l' & new & Hpr & Hr);
        [done|by apply Hinv1|done|lia|done|].
      exists l', new. split; [by eapply progress_inv|].
      destruct Hpr as [_ _ Hid' Hf' _ _ _ _ _ _]. split_and!; [congruence..| |].
      * intros Hd. apply (bi_done _ _ _ _ Hinv) in Hd. congruence.
      * intros _ ->. by destruct Hr as [[_ ?]|[=]].
  - intros Ho Hlen. pose proof (bi_opens _ _ _ _ Hinv) as [Hoif _].
    assert (Hnd : lf_done l = false).
    { eapply builder_inv_done; [done|]. apply not_true_is_false. intros Hx%Hoif. congruence. }
    pose proof Ho as Hp%outputReadyFrames_puts_out.
    pose proof (grows_le _ _ (puts_out_grows _ _ Hp)). pose proof (ready_le _ _ _ _ Hinv).
    apply outputReadyFrames_progress with (l := l) (fs := fs) in Ho as (l' & new & Hpr); [|done|apply Hinv|done|lia].
    exists l', new. split; [by eapply progress_inv|]. destruct Hpr. split_and!; [done..|congruence|done].
Qed.

(** The bytes the channel's compressor has put out once the channel is closed. *)
Definition closed_out c : Data := c_out (comp (ChannelBuilder.on_co ChannelOut.Close c).2).

Lemma closed_out_le c : open_inv c -> (length (c_out (comp c)) <= length (closed_out c))%nat.
Proof.
  intros Hop. unfold closed_out. destruct (ChannelBuilder.on_co ChannelOut.Close c) as [r c1] eqn:E.
  apply Close_open in E as [(_ & _ & ->)|(_ & -> & w & more & Hco & _ & _ & _ & _ & Ho)]; [done| |done].
  cbn. unfold comp at 2. rewrite Hco. cbn. rewrite Ho, length_app. lia.
Qed.

(** Frames large enough to hold a byte of data: putting out frames ends. *)
Lemma OutputFrames_ends fuel c l fs encs :
  24 <= cc_MaxFrameSize cfg <= MaxFrameLen + 23 -> builder_inv c l fs encs ->
  ChannelOut.closed (ChannelBuilder.co c) = false ->
  Z.of_nat (length (closed_out c)) < two64 -> (length (closed_out c) < fuel)%nat ->
  (ChannelBuilder.OutputFrames cfg fuel c).1 = Ok (Some tt).
Proof.
  intros Hm Hinv Hc Hlen Hfuel. pose proof (closed_out_le _ (bi_opens _ _ _ _ Hinv)).
  pose proof (ready_le _ _ _ _ Hinv). unfold ChannelBuilder.OutputFrames, bind at 1, get.
  destruct (ChannelBuilder.IsFull c) eqn:Hfull.
  - unfold ChannelBuilder.closeAndOutputAllFrames. unfold bind, wrapE. unfold closed_out in *.
    destruct (ChannelBuilder.on_co ChannelOut.Close c) as [rc c1] eqn:Ec. cbn [snd] in *.
    apply Close_open in Ec as Hop; [|apply (bi_opens _ _ _ _ Hinv)].
    apply (Close_inv _ _ _ _ _ _ Hinv Hfull) in Ec
      as [(Hok & ->)|(_ & -> & _ & l1 & Hinv1 & Hnd & _ & _ & Hc1)].
    + destruct Hop as [(? & _)|(_ & -> & _)]; [congruence|done].
    + pose proof (ready_le _ _ _ _ Hinv1). cbn.
      eapply output_all_ends; [done|apply (bi_stage _ _ _ _ Hinv1)|done..|lia|lia].
  - eapply outputReadyFrames_ends; [done|apply (bi_stage _ _ _ _ Hinv)| |done|lia|lia].
    by eapply builder_inv_done.
Qed.

(** Frames of 23 bytes: closing a channel never ends. *)
Lemma OutputFrames_hangs fuel c l fs encs :
  cc_MaxFrameSize cfg = 23 -> builder_inv c l fs encs ->
  ChannelBuilder.IsFull c = true -> ChannelOut.closed (ChannelBuilder.co c) = false ->
  Z.of_nat (length (closed_out c)) < two64 ->
  (ChannelBuilder.OutputFrames cfg fuel c).1 = Ok None.
Proof.
  intros Hm Hinv Hfull Hc Hlen. unfold ChannelBuilder.OutputFrames, bind at 1, get. rewrite Hfull.
  unfold ChannelBuilder.closeAndOutputAllFrames. unfold bind, wrapE. unfold closed_out in *.
  destruct (ChannelBuilder.on_co ChannelOut.Close c) as [rc c1] eqn:Ec. cbn [snd] in *.
  apply Close_open in Ec as Hop; [|apply (bi_opens _ _ _ _ Hinv)].
  apply (Close_inv _ _ _ _ _ _ Hinv Hfull) in Ec
    as [(Hok & ->)|(_ & -> & _ & l1 & Hinv1 & Hnd & _ & _ & Hc1)].
  - destruct Hop as [(? & _)|(_ & -> & _)]; [congruence|done].
  - pose proof (ready_le _ _ _ _ Hinv1). cbn.
    eapply output_all_hangs; [done|apply (bi_stage _ _ _ _ Hinv1)|done|lia].
Qed.
End Channels.
