(* ===== verification/BatcherChannelSpec.v ===== *)
(** * What the batcher's channels guarantee

    The life of one channel of [op-batcher/batcher/channel.go], from its creation to the
    confirmation of its last transaction: no frame is lost, putting out frames ends, and
    when the channel is fully submitted the node can read from the confirmed transactions
    the batches of the blocks that were put in. *)
From S2P Require Import Prelude GoErrors GoBytes EthTypes Geth L1Info Frame Channel Batch ChannelOut Compressor ChannelBuilder ChannelManager ChannelBuilderSpec.
#[local] Open Scope Z_scope.

(** The operations on a channel, and a run of them; [sent] lists the transaction data that
    was handed out. *)
Inductive chan_op :=
  | OpBlock (block : Block)
  | OpL1Block (l1BlockNum : Z)
  | OpFrames (fuel : nat)
  | OpTerminate
  | OpNextTx
  | OpFailed (id : txID)
  | OpConfirmed (id : txID) (inclusionBlock : BlockID).

Section Run.
Context {C : Type} (unzip : Data -> option Data) `{FaithfulCompressor C unzip} `{Keccak}.
Context (rlp_encode_batch : BatchV1 -> result Data) (rlp_encode_bytes : Data -> result Data).
Context (cfg : ChannelConfig).
Import BatcherChannel.
Implicit Types s : t C.
#[local] Abbreviation open_inv := (open_inv unzip).
#[local] Abbreviation grows := (grows unzip).
#[local] Abbreviation builder_inv := (builder_inv unzip rlp_encode_batch rlp_encode_bytes).

Definition chan_step (x : t C * list txData) (o : chan_op) : t C * list txData :=
  let '(s, sent) := x in
  match o with
  | OpBlock block => ((AddBlock rlp_encode_batch rlp_encode_bytes cfg block s).2, sent)
  | OpL1Block n => (RegisterL1Block cfg n s, sent)
  | OpFrames fuel => ((OutputFrames cfg fuel s).2, sent)
  | OpTerminate => (Close s, sent)
  | OpNextTx =>
      match NextTxData s with
      | (Ok td, s') => (s', sent ++ [td])
      | (_, s') => (s', sent)
      end
  | OpFailed id => ((TxFailed id s).2, sent)
  | OpConfirmed id b => ((TxConfirmed cfg id b s).2, sent)
  end.
Definition chan_run : t C * list txData -> list chan_op -> t C * list txData := foldl chan_step.

(** What the compressor of a channel put out so far, and a new compressor. *)
Definition chan_out s : Data := c_out (comp (builder s)).
Definition fresh_compressor (w : C) : Prop := c_in w = [] /\ c_out w = [] /\ c_buf w = [] /\ c_open w.

(** ** The invariant of a channel *)
Definition frame_tx (f : Frame) : txData := mkTxData (as_data f).

Record chan_inv s (sent : list txData) (l : @life C) (fs : list Frame) (encs : list Data) : Prop := {
  ci_builder : builder_inv (builder s) l fs encs;
  ci_cover f : f ∈ fs ->
    as_data f ∈ ChannelBuilder.frames (builder s) \/
    pendingTransactions s !! frame_id f = Some (frame_tx f) \/
    frame_tx f ∈ sent /\ is_Some (confirmedTransactions s !! frame_id f);
  ci_queue d : d ∈ ChannelBuilder.frames (builder s) -> exists f, f ∈ fs /\ d = as_data f;
  ci_pending id td : pendingTransactions s !! id = Some td ->
    td ∈ sent /\ exists f, f ∈ fs /\ td = frame_tx f /\ id = frame_id f;
  ci_sent td : td ∈ sent -> exists f, f ∈ fs /\ td = frame_tx f }.

(** Frames that are few enough have different numbers. *)
Lemma frame_index_inj channel (l : @life C) fs i j f g :
  life_inv channel l fs -> Z.of_nat (length fs) <= 65536 ->
  fs !! i = Some f -> fs !! j = Some g -> frame_id f = frame_id g -> i = j.
Proof.
  intros Hl Hn Hi Hj [= _ Hfg].
  destruct (li_lookup _ _ _ Hl i f Hi) as (_ & Hif & _), (li_lookup _ _ _ Hl j g Hj) as (_ & Hjg & _).
  rewrite Hif, Hjg in Hfg. pose proof (lookup_lt_Some _ _ _ Hi). pose proof (lookup_lt_Some _ _ _ Hj).
  unfold u16 in Hfg. rewrite !Z.mod_small in Hfg by lia. lia.
Qed.

Lemma frame_id_inj channel (l : @life C) fs f g :
  life_inv channel l fs -> Z.of_nat (length fs) <= 65536 ->
  f ∈ fs -> g ∈ fs -> frame_id f = frame_id g -> f = g.
Proof.
  intros Hl Hn [i Hi]%list_elem_of_lookup_1 [j Hj]%list_elem_of_lookup_1 Hfg.
  assert (i = j) as -> by (by eapply frame_index_inj). congruence.
Qed.

(** Steps that only change the builder, and only add frames. *)
Lemma chan_inv_builder s sent l fs encs b' l' new encs' :
  chan_inv s sent l fs encs ->
  builder_inv b' l' (fs ++ new) encs' ->
  ChannelBuilder.frames b' = ChannelBuilder.frames (builder s) ++ (as_data <$> new) ->
  chan_inv (mk b' (pendingTransactions s) (confirmedTransactions s)) sent l' (fs ++ new) encs'.
Proof.
  intros [? Hcov Hq Hp Hs] Hb Hf. split; cbn [builder pendingTransactions confirmedTransactions]; rewrite ?Hf.
  - done.
  - intros f [Hin|Hin]%elem_of_app.
    + destruct (Hcov f Hin) as [|[|]]; [left|by right; left|by right; right]. apply elem_of_app. by left.
    + left. apply elem_of_app. right. apply list_elem_of_fmap. by exists f.
  - intros d [(f & ? & ?)%Hq|(f & -> & ?)%list_elem_of_fmap]%elem_of_app; exists f; rewrite elem_of_app; auto.
  - intros id td (? & f & ? & ?)%Hp. split; [done|]. exists f. rewrite elem_of_app. auto.
  - intros td (f & ? & ?)%Hs. exists f. rewrite elem_of_app. auto.
Qed.

Lemma chan_inv_same s sent l fs encs b' :
  chan_inv s sent l fs encs -> same_channel (builder s) b' ->
  chan_inv (mk b' (pendingTransactions s) (confirmedTransactions s)) sent l fs encs.
Proof.
  intros Hi Hs. rewrite <- (app_nil_r fs). eapply chan_inv_builder; [done|rewrite app_nil_r|].
  - eapply same_channel_inv; [done|apply Hi].
  - destruct Hs as (_ & _ & -> & _). by rewrite app_nil_r.
Qed.

(** The queue does not matter to the builder. *)
Lemma set_frames_inv c l fs encs q :
  builder_inv c l fs encs ->
  builder_inv (ChannelBuilder.set_frames q c) l fs encs.
Proof. intros [? ? []]. by split. Qed.

Lemma NextTxData_inv s sent l fs encs td s' :
  chan_inv s sent l fs encs -> Z.of_nat (length fs) <= 65536 -> NextTxData s = (Ok td, s') ->
  chan_inv s' (sent ++ [td]) l fs encs.
Proof.
  intros [Hb Hcov Hq Hp Hs] Hn Hx. unfold NextTxData, bind, on_builder, zoom, ChannelBuilder.NextFrame in Hx.
  destruct (ChannelBuilder.frames (builder s)) as [|d q] eqn:Hd; [done|]. injection Hx as <- <-.
  destruct (Hq d) as (g & Hg & ->); [left|].
  split; cbn [builder pendingTransactions confirmedTransactions ChannelBuilder.set_frames ChannelBuilder.frames modify].
  - by apply set_frames_inv.
  - intros f Hf. unfold td_ID. cbn [td_frame fd_id as_data].
    destruct (decide (frame_id f = frame_id g)) as [E|E].
    + right. left. rewrite <- E, lookup_insert_eq. f_equal. unfold frame_tx. f_equal. f_equal.
      symmetry. eapply frame_id_inj; [apply Hb|done..].
    + rewrite lookup_insert_ne by congruence.
      destruct (Hcov f Hf) as [Hin|[|[? ?]]]; [|by right; left|right; right; split; [apply elem_of_app; by left|done]].
      apply elem_of_cons in Hin as [Hin|]; [|by left]. by apply (f_equal fd_id) in Hin.
  - intros d Hin. apply Hq. by right.
  - intros id td. rewrite lookup_insert_Some. intros [[<- <-]|[_ (? & f & ? & ?)%Hp]]; rewrite elem_of_app.
    + split; [right; by left|]. by exists g.
    + split; [by left|]. by exists f.
  - intros td [?%Hs|?%list_elem_of_singleton]%elem_of_app; [done|]. by exists g; subst.
Qed.

(** No frame is ever rejected when it is put back. *)
Lemma TxFailed_spec s sent l fs encs id :
  chan_inv s sent l fs encs ->
  exists s', TxFailed id s = (Ok tt, s') /\ chan_inv s' sent l fs encs.
Proof.
  intros Hi. unfold TxFailed, bind at 1, get. destruct (pendingTransactions s !! id) as [td|] eqn:Htd.
  2:{ by exists s. }
  pose proof Hi as [Hb Hcov Hq Hp Hs]. destruct (Hp id td Htd) as (Hsent & g & Hg & -> & ->).
  destruct Hb as [[Hlo Hl] Hb'] eqn:Eb. clear Eb Hb'.
  assert (Hid : chID (fd_id (td_Frame (frame_tx g))) = ChannelBuilder.ID (builder s)).
  { cbn. apply list_elem_of_lookup_1 in Hg as [i Hgi]. by apply (li_lookup _ _ _ Hl) in Hgi as (? & _). }
  unfold bind, on_builder, zoom, ChannelBuilder.PushFrame. rewrite Hid, Z.eqb_refl. cbn [negb modify].
  eexists. split; [reflexivity|].
  split; cbn [builder pendingTransactions confirmedTransactions ChannelBuilder.set_frames ChannelBuilder.frames].
  - apply set_frames_inv, Hi.
  - intros f Hf. destruct (Hcov f Hf) as [?|[Hpf|?]]; [left; apply elem_of_app; by left| |by right; right].
    destruct (decide (frame_id f = frame_id g)) as [E|E].
    + left. apply elem_of_app. right. apply list_elem_of_singleton. rewrite E, Htd in Hpf.
      symmetry. exact (f_equal (from_option td_frame (as_data g)) Hpf).
    + right. left. by rewrite lookup_delete_ne.
  - intros d [?|Hd%list_elem_of_singleton]%elem_of_app; [by apply Hq|]. by exists g.
  - intros id td [_ ?]%lookup_delete_Some. by apply Hp.
  - done.
Qed.

Lemma TxConfirmed_inv s sent l fs encs id b :
  chan_inv s sent l fs encs -> chan_inv (TxConfirmed cfg id b s).2 sent l fs encs.
Proof.
  intros Hi. unfold TxConfirmed. destruct (pendingTransactions s !! id) as [td|] eqn:Htd; [|done].
  match goal with |- chan_inv (if ?c then (_, _, ?s1) else _).2 _ _ _ _ =>
    enough (chan_inv s1 sent l fs encs) by (destruct c; done) end.
  pose proof Hi as [Hb Hcov Hq Hp Hs]. destruct (Hp id td Htd) as (Hsent & g & Hg & -> & ->).
  assert (Hsame : same_channel (builder s) (ChannelBuilder.FramePublished cfg (id_Number b) (builder s)))
    by apply updateTimeout_same.
  pose proof Hsame as (_ & _ & Hfr & _).
  split; cbn [builder pendingTransactions confirmedTransactions]; rewrite ?Hfr; try done.
  - by eapply same_channel_inv.
  - intros f Hf. destruct (decide (frame_id f = frame_id g)) as [E|E].
    + destruct (Hcov f Hf) as [?|[Hpf|[? _]]]; [by left|..]; right; right; rewrite E, lookup_insert_eq.
      * rewrite E, Htd in Hpf. assert (frame_tx g = frame_tx f) as <- by congruence. by split; [|eexists].
      * by split; [|eexists].
    + rewrite lookup_delete_ne, lookup_insert_ne by congruence. by apply Hcov.
  - intros id td [_ ?]%lookup_delete_Some. by apply Hp.
Qed.
(** ** Runs of a channel *)

(** The memory of the process bounds what the compressor puts out, and the frames are few
    enough to be numbered. *)
Definition small s : Prop := Z.of_nat (length (chan_out s)) < two64 /\ TotalFrames s <= 65536.

Lemma chan_step_open x o :
  open_inv (builder x.1) ->
  open_inv (builder (chan_step x o).1) /\ grows (builder x.1) (builder (chan_step x o).1) /\
  TotalFrames x.1 <= TotalFrames (chan_step x o).1.
Proof.
  destruct x as [s sent]. intros Hop. unfold TotalFrames, ChannelBuilder.TotalFrames.
  assert (Hkeep : forall b', ChannelBuilder.co b' = ChannelBuilder.co (builder s) ->
    ChannelBuilder.numFrames b' = ChannelBuilder.numFrames (builder s) ->
    (IsFull s = true -> ChannelBuilder.IsFull b' = true) ->
    open_inv b' /\ grows (builder s) b' /\ ChannelBuilder.numFrames (builder s) <= ChannelBuilder.numFrames b').
  { intros b' Hco -> Hf. split_and!; [|exists []; unfold comp; by rewrite Hco, app_nil_r|done].
    destruct Hop. split; unfold comp in *; rewrite Hco; auto. }
  assert (Hsame : forall b', same_channel (builder s) b' ->
    open_inv b' /\ grows (builder s) b' /\ ChannelBuilder.numFrames (builder s) <= ChannelBuilder.numFrames b').
  { intros b' (? & _ & _ & ? & ?). by apply Hkeep. }
  destruct o as [block|n|fuel| | |id|id b]; cbn [chan_step fst].
  - unfold AddBlock, on_builder, zoom.
    destruct (ChannelBuilder.AddBlock _ _ _ _ _) as [r b'] eqn:E. cbn.
    pose proof E as Hn%AddBlock_cases. apply (AddBlock_open unzip) in E as [? ?]; [|done].
    split_and!; [done..|]. destruct Hn as [->|(_ & bl & ra & _ & _ & _ & -> & _)]; done.
  - apply Hsame, RegisterL1Block_same.
  - unfold OutputFrames, on_builder, zoom.
    destruct (ChannelBuilder.OutputFrames _ _ _) as [r b'] eqn:E. cbn. by apply (OutputFrames_open unzip) in E.
  - apply Hsame, Close_same.
  - unfold NextTxData, bind, on_builder, zoom, ChannelBuilder.NextFrame.
    destruct (ChannelBuilder.frames (builder s)); [by apply Hsame|]. cbn.
    by apply (Hkeep (ChannelBuilder.set_frames _ _)).
  - unfold TxFailed, bind, get. destruct (pendingTransactions s !! id) as [td|]; [|by apply Hsame].
    unfold on_builder, zoom, ChannelBuilder.PushFrame. case_if; cbn; [by apply Hsame|].
    by apply (Hkeep (ChannelBuilder.set_frames _ _)).
  - unfold TxConfirmed. destruct (pendingTransactions s !! id) as [td|]; [|by apply Hsame].
    match goal with |- context [isTimedOut cfg ?s1] => change (builder s1) with (ChannelBuilder.FramePublished cfg (id_Number b) (builder s)) end.
    case_if; apply Hsame, updateTimeout_same.
Qed.

Lemma chan_run_open x ops :
  open_inv (builder x.1) ->
  open_inv (builder (chan_run x ops).1) /\ (small (chan_run x ops).1 -> small x.1).
Proof.
  revert x. induction ops as [|o ops IH]; intros x Hop; [done|].
  destruct (chan_step_open x o Hop) as (Hop' & Hg%grows_le & Hn).
  destruct (IH _ Hop') as [? Hs]. split; [done|]. intros [? ?]%Hs. unfold small, chan_out in *. lia.
Qed.

Lemma chan_step_inv x o l fs encs :
  size_ok cfg -> chan_inv x.1 x.2 l fs encs -> small (chan_step x o).1 ->
  exists l' new encs', chan_inv (chan_step x o).1 (chan_step x o).2 l' (fs ++ new) encs' /\
    ID (chan_step x o).1 = ID x.1 /\ (lf_done l = true -> lf_done l' = true).
Proof.
  destruct x as [s sent]. intros Hm Hi [Hlen Hnum]. cbn [fst snd] in *.
  assert (Hkeep : forall s' sent', chan_inv s' sent' l fs encs -> ID s' = ID s ->
    exists l' new encs', chan_inv s' sent' l' (fs ++ new) encs' /\ ID s' = ID s /\
      (lf_done l = true -> lf_done l' = true)).
  { intros s' sent' Hi' Hid. exists l, [], encs. by rewrite app_nil_r. }
  assert (Hfs : TotalFrames s = Z.of_nat (length fs)) by apply Hi.
  assert (Hsame : forall b', same_channel (builder s) b' -> chan_inv (mk b' (pendingTransactions s) (confirmedTransactions s)) sent l fs encs /\
    ChannelBuilder.ID b' = ID s).
  { intros b' Hs. split; [by apply chan_inv_same|]. destruct Hs as (Hco & _). unfold ID, ChannelBuilder.ID. by rewrite Hco. }
  destruct o as [block|n|fuel| | |id|id b]; cbn [chan_step fst snd] in *.
  - unfold AddBlock, on_builder, zoom in *.
    destruct (ChannelBuilder.AddBlock _ _ _ _ _) as [r b'] eqn:E. cbn in *.
    eapply AddBlock_inv in E as (l' & encs' & Hb & Hd & Hf & Hid); [|apply Hi].
    exists l', [], encs'. split_and!; [|done|congruence].
    eapply chan_inv_builder; [done|by rewrite app_nil_r|by rewrite app_nil_r].
  - destruct (Hsame (ChannelBuilder.RegisterL1Block cfg n (builder s))) as [? ?]; [apply RegisterL1Block_same|].
    by apply Hkeep.
  - unfold OutputFrames, on_builder, zoom in *.
    destruct (ChannelBuilder.OutputFrames _ _ _) as [r b'] eqn:E. cbn in *.
    eapply OutputFrames_inv in E as (l' & new & Hb & Hf & Hid & Hd & _); [|done|apply Hi|done].
    exists l', new, encs. split_and!; [|done..]. by eapply chan_inv_builder.
  - destruct (Hsame (ChannelBuilder.Close (builder s))) as [? ?]; [apply Close_same|]. by apply Hkeep.
  - destruct (NextTxData s) as [r s'] eqn:E. pose proof E as Hx.
    unfold NextTxData, bind, on_builder, zoom, ChannelBuilder.NextFrame in E.
    destruct (ChannelBuilder.frames (builder s)) as [|d q] eqn:Hq; injection E as <- <-.
    + apply Hkeep; [|done]. by destruct s.
    + apply Hkeep; [|done]. eapply NextTxData_inv; [done|by rewrite <- Hfs|done].
  - destruct (TxFailed_spec s sent l fs encs id Hi) as (s' & Ht & Hi'). rewrite Ht. cbn.
    apply Hkeep; [done|].
    revert Ht. unfold TxFailed, bind, get. destruct (pendingTransactions s !! id); [|by intros [= <-]].
    unfold on_builder, zoom, ChannelBuilder.PushFrame. case_if; [done|]. cbn. by intros [= <-].
  - apply Hkeep; [by apply TxConfirmed_inv|]. unfold TxConfirmed.
    destruct (pendingTransactions s !! id); [|done].
    destruct (updateTimeout_same (id_Number b +u cc_ChannelTimeout cfg -u cc_SubSafetyMargin cfg) ErrChannelTimeoutClose (builder s))
      as (Hco & _).
    case_if; unfold ID, ChannelBuilder.ID; cbn; unfold ChannelBuilder.FramePublished; by rewrite Hco.
Qed.

Lemma chan_run_inv x ops l fs encs :
  size_ok cfg -> chan_inv x.1 x.2 l fs encs -> small (chan_run x ops).1 ->
  exists l' new encs', chan_inv (chan_run x ops).1 (chan_run x ops).2 l' (fs ++ new) encs' /\
    ID (chan_run x ops).1 = ID x.1 /\ (lf_done l = true -> lf_done l' = true).
Proof.
  intros Hm. revert x l fs encs. induction ops as [|o ops IH]; intros x l fs encs Hi Hs.
  { exists l, [], encs. by rewrite app_nil_r. }
  cbn [chan_run foldl] in *.
  assert (Hs' : small (chan_step x o).1).
  { apply (chan_run_open (chan_step x o) ops); [|done]. apply chan_step_open. apply (bi_opens _ _ _ _ _ _ _ (ci_builder _ _ _ _ _ Hi)). }
  destruct (chan_step_inv x o l fs encs Hm Hi Hs') as (l1 & new & encs1 & Hi1 & Hid1 & Hd1).
  destruct (IH _ _ _ _ Hi1 Hs) as (l2 & new2 & encs2 & Hi2 & Hid2 & Hd2).
  exists l2, (new ++ new2), encs2. rewrite app_assoc. split_and!; [done|unfold chan_run in *; congruence|auto].
Qed.

(** A new channel. *)
Lemma new_chan_inv w channel s :
  fresh_compressor w -> new (Ok w) (Ok channel) = Ok s ->
  ID s = channel /\ exists l, chan_inv s [] l [] [].
Proof.
  intros (Hin & Hout & Hbuf & Hop) [= <-]. split; [done|].
  exists (mkLife (ChannelOut.mk channel 0 0 w false) [] [] false). split; cbn; try set_solver.
  split; cbn; try done.
Qed.

Lemma fully_submitted s :
  isFullySubmitted s = true -> IsFull s = true /\ pendingTransactions s = ∅ /\ ChannelBuilder.frames (builder s) = [].
Proof.
  intros [Hf Hz]%andb_true_iff. split; [done|]. zify_bools. unfold PendingFrames, ChannelBuilder.PendingFrames in Hz.
  split; [apply map_size_empty_inv; lia|apply nil_length_inv; lia].
Qed.

Lemma small_prefix x ops1 ops2 :
  open_inv (builder x.1) -> small (chan_run x (ops1 ++ ops2)).1 -> small (chan_run x ops1).1.
Proof.
  intros Hop. unfold chan_run. rewrite foldl_app. apply (chan_run_open (chan_run x ops1) ops2).
  by apply chan_run_open.
Qed.

(** Putting out the frames of a full channel puts out the last one. *)
Lemma full_output_done s sent l fs encs fuel s' :
  size_ok cfg -> chan_inv s sent l fs encs -> IsFull s = true ->
  OutputFrames cfg fuel s = (Ok (Some tt), s') -> Z.of_nat (length (chan_out s')) < two64 ->
  exists l' fs', chan_inv s' sent l' fs' encs /\ lf_done l' = true /\ ID s' = ID s.
Proof.
  intros Hm Hi Hfull Hout Hlen. unfold OutputFrames, on_builder, zoom in Hout.
  destruct (ChannelBuilder.OutputFrames cfg fuel (builder s)) as [r b'] eqn:E. injection Hout as -> <-.
  eapply OutputFrames_inv in E as (l' & new & Hb & Hf & Hid & _ & Hd); [|done|apply Hi|done].
  exists l', (fs ++ new). split_and!; [by eapply chan_inv_builder|by apply Hd|done].
Qed.

(** C34: what is confirmed can be read.  A new channel goes through any sequence of
    operations ([ops1]) until it is full and its frames are put out, and through any
    sequence of operations ([ops2]) until it is fully submitted: however often transactions
    failed and were sent again, every frame was handed out and confirmed, every one can be
    parsed from its transaction, and in whatever order they arrive the node's channel
    accepts them all, is ready, and decompresses to the batches of exactly the blocks that
    the channel took, in their order. *)
Theorem submitted_channel_readable w channel s0 ops1 s1 sent1 fuel s2 ops2 s3 sent3 :
  fresh_compressor w -> new (Ok w) (Ok channel) = Ok s0 -> 0 <= channel < 256 ^ 16 -> size_ok cfg ->
  chan_run (s0, []) ops1 = (s1, sent1) -> IsFull s1 = true ->
  OutputFrames cfg fuel s1 = (Ok (Some tt), s2) ->
  chan_run (s2, sent1) ops2 = (s3, sent3) -> isFullySubmitted s3 = true -> small s3 ->
  exists fs encs,
    (forall f, f ∈ fs -> frame_tx f ∈ sent3 /\ is_Some (confirmedTransactions s3 !! frame_id f)) /\
    readable channel fs (chan_out s3) /\
    Forall2 (encodes rlp_encode_batch rlp_encode_bytes) (ChannelBuilder.Blocks (builder s3)) encs /\
    unzip (chan_out s3) = Some (concat encs).
Proof.
  intros Hw Hnew Hch Hm R1 Hfull Hout R3 Hsub Hsmall.
  destruct (new_chan_inv _ _ _ Hw Hnew) as (Hid0 & l0 & Hi0).
  pose proof (bi_opens _ _ _ _ _ _ _ (ci_builder _ _ _ _ _ Hi0)) as Hop.
  assert (R2 : chan_run (s0, []) (ops1 ++ [OpFrames fuel]) = (s2, sent1)).
  { unfold chan_run in *. rewrite foldl_app, R1. cbn. by rewrite Hout. }
  assert (Hsmall2 : small (chan_run (s0, []) (ops1 ++ [OpFrames fuel])).1).
  { apply small_prefix with ops2; [done|]. unfold chan_run in *. rewrite foldl_app, R2. by rewrite R3. }
  pose proof (small_prefix (s0, []) _ _ Hop Hsmall2) as Hsmall1. rewrite R2 in Hsmall2.
  destruct (chan_run_inv (s0, []) _ _ _ _ Hm Hi0 Hsmall1) as (l1 & fs1 & encs1 & Hi1 & Hid1 & _).
  rewrite R1 in Hi1, Hid1.
  destruct (full_output_done _ _ _ _ _ _ _ Hm Hi1 Hfull Hout (proj1 Hsmall2)) as (l2 & fs2 & Hi2 & Hd2 & Hid2).
  assert (Hsmall3 : small (chan_run (s2, sent1) ops2).1) by (by rewrite R3).
  destruct (chan_run_inv (s2, sent1) ops2 l2 fs2 encs1 Hm Hi2 Hsmall3) as (l3 & new3 & encs3 & Hi3 & Hid3 & Hd3).
  rewrite R3 in Hi3, Hid3. cbn [fst snd app] in *. specialize (Hd3 Hd2).
  destruct (fully_submitted _ Hsub) as (_ & Hpend & Hqueue).
  destruct Hi3 as [Hb Hcov _ _ _]. exists (fs2 ++ new3), encs3. split_and!.
  - intros f Hf. destruct (Hcov f Hf) as [Hin|[Hin|?]]; [..|done].
    + rewrite Hqueue in Hin. by apply elem_of_nil in Hin.
    + by rewrite Hpend, lookup_empty in Hin.
  - pose proof Hb as [[Hlo Hl] _ _ Hn _ _ Ho _]. unfold chan_out. rewrite Ho. unfold ID in *.
    rewrite Hid3, Hid2, Hid1, Hid0 in Hl. apply life_readable; [done..|]. rewrite <- Hn. apply Hsmall.
  - apply (bi_encs _ _ _ _ _ _ _ Hb).
  - pose proof Hb as [_ Hd _ _ _ Hin _ Huz]. unfold chan_out. rewrite Huz, Hin by auto. done.
Qed.

(** A state a new channel can reach. *)
Definition reaches channel (s : t C) (sent : list txData) : Prop :=
  exists w s0 ops, fresh_compressor w /\ new (Ok w) (Ok channel) = Ok s0 /\ chan_run (s0, []) ops = (s, sent).

Lemma reaches_inv channel s sent :
  reaches channel s sent -> size_ok cfg -> small s ->
  exists l fs encs, chan_inv s sent l fs encs /\ ID s = channel.
Proof.
  intros (w & s0 & ops & Hw & Hnew & R) Hm Hs.
  destruct (new_chan_inv _ _ _ Hw Hnew) as (Hid & l0 & Hi0).
  assert (Hs' : small (chan_run (s0, []) ops).1) by (by rewrite R).
  destruct (chan_run_inv (s0, []) _ _ _ _ Hm Hi0 Hs') as (l & new & encs & Hi & Hid' & _).
  rewrite R in Hi, Hid'. exists l, new, encs. split; [done|]. cbn [fst] in Hid'. congruence.
Qed.

(** Putting out frames ends.  In every reachable state in which the channel is not
    closed yet, full or not, when a frame has room for at least one byte of data, the frames
    are put out in as many iterations as there are bytes. *)
Theorem frames_are_put_out channel s sent fuel :
  reaches channel s sent -> small s -> 24 <= cc_MaxFrameSize cfg <= MaxFrameLen + 23 ->
  ChannelOut.closed (ChannelBuilder.co (builder s)) = false ->
  Z.of_nat (length (closed_out unzip (builder s))) < two64 ->
  (length (closed_out unzip (builder s)) < fuel)%nat ->
  (OutputFrames cfg fuel s).1 = Ok (Some tt).
Proof.
  intros Hr Hs Hm Hc Hlen Hf. destruct (reaches_inv _ _ _ Hr) as (l & fs & encs & Hi & _); [unfold size_ok; lia|done|].
  pose proof (OutputFrames_ends unzip _ _ cfg fuel _ _ _ _ Hm (ci_builder _ _ _ _ _ Hi) Hc Hlen Hf) as He.
  unfold OutputFrames, on_builder, zoom. by destruct (ChannelBuilder.OutputFrames _ _ _).
Qed.

(** Frames of 23 bytes hang the batcher.  The check of the configuration accepts
    [MaxFrameSize = 23], the size of an empty frame; but then, in every reachable state in
    which the channel is full and not closed yet, closing it puts out empty frames for ever:
    no number of iterations is enough. *)
Theorem empty_frames_hang channel s sent fuel :
  reaches channel s sent -> small s -> cc_MaxFrameSize cfg = 23 ->
  cc_SubSafetyMargin cfg <= cc_ChannelTimeout cfg ->
  IsFull s = true -> ChannelOut.closed (ChannelBuilder.co (builder s)) = false ->
  Z.of_nat (length (closed_out unzip (builder s))) < two64 ->
  ChannelConfig_Check cfg = None /\ (OutputFrames cfg fuel s).1 = Ok None.
Proof.
  intros Hr Hs Hm Hsafe Hfull Hc Hlen. split.
  { unfold ChannelConfig_Check, FrameV0OverHeadSize. rewrite Hm. by destruct (Z.ltb_spec (cc_ChannelTimeout cfg) (cc_SubSafetyMargin cfg)); [lia|]. }
  destruct (reaches_inv _ _ _ Hr) as (l & fs & encs & Hi & _); [unfold size_ok, MaxFrameLen; lia|done|].
  pose proof (OutputFrames_hangs unzip _ _ cfg fuel _ _ _ _ Hm (ci_builder _ _ _ _ _ Hi) Hfull Hc Hlen) as He.
  unfold OutputFrames, on_builder, zoom. by destruct (ChannelBuilder.OutputFrames _ _ _).
Qed.

(** No frame is lost.  In every reachable state the frames put out so far are each
    waiting in the queue, or in a pending transaction that carries it, or confirmed after
    it was handed out; and reporting the failure of any transaction never panics and keeps
    this so. *)
Theorem no_frame_is_lost channel s sent id :
  reaches channel s sent -> small s -> size_ok cfg ->
  (exists fs, Z.of_nat (length fs) = TotalFrames s /\ NoDup (frame_id <$> fs) /\
    forall f, f ∈ fs ->
      as_data f ∈ ChannelBuilder.frames (builder s) \/
      pendingTransactions s !! frame_id f = Some (frame_tx f) \/
      frame_tx f ∈ sent /\ is_Some (confirmedTransactions s !! frame_id f)) /\
  exists s', TxFailed id s = (Ok tt, s') /\ reaches channel s' sent.
Proof.
  intros Hr Hs Hm. destruct (reaches_inv _ _ _ Hr Hm Hs) as (l & fs & encs & Hi & Hid). split.
  - exists fs. pose proof Hi as [[[_ Hl] _ _ Hn _ _ _ _] Hcov _ _ _]. split_and!; [done| |done].
    apply NoDup_alt. intros i j x Hxi Hxj. rewrite list_lookup_fmap in Hxi, Hxj.
    apply fmap_Some in Hxi as (f & Hf & ->), Hxj as (g & Hg & Hfg).
    eapply frame_index_inj; [done| |done..]. rewrite <- Hn. apply Hs.
  - destruct (TxFailed_spec s sent l fs encs id Hi) as (s' & Ht & _). exists s'. split; [done|].
    destruct Hr as (w & s0 & ops & Hw & Hnew & R). exists w, s0, (ops ++ [OpFailed id]).
    split_and!; [done..|]. unfold chan_run in *. rewrite foldl_app, R. cbn [foldl chan_step]. by rewrite Ht.
Qed.
End Run.
