(* ===== verification/ChannelManagerSpec.v ===== *)
(** * What the channel manager guarantees

    [op-batcher/batcher/channel_manager.go]: until the manager is closed no block is lost;
    reports about transactions are always handled; when a channel counts as timed out; and
    what closing leaves behind. *)
From S2P Require Import Prelude GoErrors GoBytes EthTypes Geth L1Info Frame Channel Batch ChannelOut Compressor ChannelBuilder ChannelManager.
#[local] Open Scope Z_scope.

Section Channel.
Context {C : Type} `{Compressor C} `{Keccak}.
Context (rlp_encode_batch : BatchV1 -> result Data) (rlp_encode_bytes : Data -> result Data).
Context (cfg : ChannelConfig).
Import BatcherChannel.
Implicit Types c : t C.

(** The frames of a channel carry its id. *)
Record chan_ok c : Prop := {
  co_frames d : d ∈ ChannelBuilder.frames (builder c) -> chID (fd_id d) = ID c;
  co_pending id td : pendingTransactions c !! id = Some td -> chID (fd_id (td_Frame td)) = ID c }.

(** What happens to a channel over time: it keeps its blocks and its identity. *)
Record chan_le c c' : Prop := {
  cl_id : ID c' = ID c;
  cl_blocks b : b ∈ ChannelBuilder.Blocks (builder c) -> b ∈ ChannelBuilder.Blocks (builder c');
  cl_ok : chan_ok c -> chan_ok c' }.

#[local] Instance chan_le_preorder : PreOrder chan_le.
Proof. split; [by split|]. intros c1 c2 c3 [] []. split; [congruence|auto..]. Qed.

(** The same of the builder. *)
Record builder_le (b b' : ChannelBuilder.t C) : Prop := {
  bl_id : ChannelBuilder.ID b' = ChannelBuilder.ID b;
  bl_blocks x : x ∈ ChannelBuilder.blocks b -> x ∈ ChannelBuilder.blocks b';
  bl_frames d : d ∈ ChannelBuilder.frames b' -> d ∈ ChannelBuilder.frames b \/ chID (fd_id d) = ChannelBuilder.ID b }.

#[local] Instance builder_le_preorder : PreOrder builder_le.
Proof.
  split; [split; auto|]. intros b1 b2 b3 [Hi1 Hb1 Hf1] [Hi2 Hb2 Hf2]. split; [congruence|auto|].
  intros d [Hd|Hd]%Hf2; [by apply Hf1|right; congruence].
Qed.

Lemma builder_le_chan c b' :
  builder_le (builder c) b' -> chan_le c (mk b' (pendingTransactions c) (confirmedTransactions c)).
Proof.
  intros [Hid Hb Hf]. split; [done|done|]. intros [Ho Hp]. unfold ID in *. split; cbn.
  - intros d [Hd|Hd]%Hf; unfold ID; cbn; rewrite Hid; [by apply Ho|done].
  - intros id td Htd. unfold ID. cbn. rewrite Hid. by eapply Hp.
Qed.

Lemma on_builder_le {A} (m : M (ChannelBuilder.t C) A) : preserves builder_le m -> preserves chan_le (on_builder m).
Proof.
  intros Hm c r c'. unfold on_builder, zoom. destruct (m (builder c)) as [r' b'] eqn:E.
  intros [= _ <-]. apply builder_le_chan. by eapply Hm.
Qed.

(** *** The builder's operations *)
Definition same_id (co co' : ChannelOut.t C) : Prop := ChannelOut.id co' = ChannelOut.id co.

#[local] Instance same_id_preorder : PreOrder same_id.
Proof. split; unfold same_id; red; congruence. Qed.

Lemma on_compress_id {A} (m : M C A) : preserves same_id (ChannelOut.on_compress m).
Proof. intros co r co'. unfold ChannelOut.on_compress, zoom. destruct (m _). by intros [= _ <-]. Qed.

Lemma OutputFrame_id n : preserves same_id (ChannelOut.OutputFrame n).
Proof.
  pose proof (@on_compress_id). unfold ChannelOut.OutputFrame. go_code. by apply preserves_modify.
Qed.

Lemma AddBatch_id b : preserves same_id (ChannelOut.AddBatch rlp_encode_batch rlp_encode_bytes b).
Proof.
  pose proof (@on_compress_id). intros co r co'. unfold ChannelOut.AddBatch, bind, get, lift, put.
  destruct (ChannelOut.closed co); [by intros [= _ <-]|].
  destruct (EncodeRLP _ _ b); [|by intros [= _ <-]..].
  case_if; [by intros [= _ <-]|]. intros Hx%on_compress_id. done.
Qed.

Lemma Close_id : preserves same_id (ChannelOut.Close (C := C)).
Proof.
  intros co r co'. unfold ChannelOut.Close, bind, get, put.
  destruct (ChannelOut.closed co); [by intros [= _ <-]|]. intros Hx%on_compress_id. done.
Qed.

Lemma on_co_le {A} (m : M (ChannelOut.t C) A) : preserves same_id m -> preserves builder_le (ChannelBuilder.on_co m).
Proof.
  intros Hm b r b'. unfold ChannelBuilder.on_co, zoom. destruct (m (ChannelBuilder.co b)) as [r' o'] eqn:E.
  apply Hm in E. intros [= _ <-]. split; [done|done|auto].
Qed.

Lemma updateTimeout_le z e b : builder_le b (ChannelBuilder.updateTimeout z e b).
Proof. unfold ChannelBuilder.updateTimeout. case_if; [split; auto|reflexivity]. Qed.

Lemma setFullErr_le e b : builder_le b (ChannelBuilder.setFullErr e b).
Proof. split; auto. Qed.

Lemma RegisterL1Block_le n b : builder_le b (ChannelBuilder.RegisterL1Block cfg n b).
Proof.
  unfold ChannelBuilder.RegisterL1Block. trans (ChannelBuilder.updateDurationTimeout cfg n b).
  - unfold ChannelBuilder.updateDurationTimeout. case_if; [reflexivity|apply updateTimeout_le].
  - unfold ChannelBuilder.checkTimeout. case_if; [apply setFullErr_le|reflexivity].
Qed.

Lemma Close_le b : builder_le b (ChannelBuilder.Close b).
Proof. unfold ChannelBuilder.Close. case_if; [reflexivity|apply setFullErr_le]. Qed.

Lemma AddBlock_le block : preserves builder_le (ChannelBuilder.AddBlock rlp_encode_batch rlp_encode_bytes cfg block).
Proof.
  pose proof (fun b => on_co_le _ (AddBatch_id b)) as Ha.
  unfold ChannelBuilder.AddBlock. go_code; apply preserves_modify; intros ?;
    try apply setFullErr_le; try apply updateTimeout_le.
  split; cbn; try done; auto. intros x Hx. apply elem_of_app. by left.
Qed.

(** A block that was added is a block of the channel. *)
Lemma AddBlock_added block b r b' :
  ChannelBuilder.AddBlock rlp_encode_batch rlp_encode_bytes cfg block b = (Ok r, b') ->
  block ∈ ChannelBuilder.blocks b'.
Proof.
  unfold ChannelBuilder.AddBlock. unfold bind at 1, get. destruct (ChannelBuilder.fullErr b); [done|].
  intros (bl & b1 & _ & Hx)%bind_Ok. apply bind_Ok in Hx as (ra & b2 & _ & Hx).
  destruct ra as [n|err]; [|case_if_in Hx; done].
  apply bind_Ok in Hx as ([] & b3 & Hm & Hx). injection Hm as <-.
  apply bind_Ok in Hx as ([] & b4 & Hm & Hx). injection Hm as <-.
  apply bind_Ok in Hx as (b5 & b6 & Hm & Hx). injection Hm as <- <-.
  apply bind_Ok in Hx as ([] & b7 & Hm & Hx). injection Hx as _ <-.
  enough (builder_le (ChannelBuilder.set_blocks (ChannelBuilder.blocks b2 ++ [block]) b2) b7) as Hle.
  { apply (bl_blocks _ _ Hle). cbn. apply elem_of_app. right. by left. }
  etrans; [apply updateTimeout_le|].
  destruct (ChannelOut.FullErr _); injection Hm as <-; [apply setFullErr_le|reflexivity].
Qed.

Lemma outputFrame_le : preserves builder_le (ChannelBuilder.outputFrame cfg).
Proof.
  pose proof (fun n => on_co_le _ (OutputFrame_id n)) as Ho.
  unfold ChannelBuilder.outputFrame. go_code; apply preserves_modify; intros ?; try apply setFullErr_le.
  split; cbn; auto. intros d [?|Hd%list_elem_of_singleton]%elem_of_app; [by left|]. right. by subst d.
Qed.

Lemma OutputFrames_le fuel : preserves builder_le (ChannelBuilder.OutputFrames cfg fuel).
Proof.
  pose proof outputFrame_le as Ho. pose proof (on_co_le _ Close_id) as Hc.
  assert (forall fuel, preserves builder_le (ChannelBuilder.outputReadyFrames cfg fuel)) as Hr.
  { clear fuel. induction fuel as [|fuel IH]; cbn [ChannelBuilder.outputReadyFrames]; go_code. }
  assert (forall fuel, preserves builder_le (ChannelBuilder.output_all_loop cfg fuel)) as Ha.
  { clear fuel. induction fuel as [|fuel IH]; cbn [ChannelBuilder.output_all_loop]; go_code. }
  unfold ChannelBuilder.OutputFrames, ChannelBuilder.closeAndOutputAllFrames. go_code.
Qed.

(** *** The channel's operations *)
Lemma RegisterL1Block_chan n c : chan_le c (RegisterL1Block cfg n c).
Proof. apply builder_le_chan, RegisterL1Block_le. Qed.

Lemma Close_chan c : chan_le c (Close c).
Proof. apply builder_le_chan, Close_le. Qed.

Lemma AddBlock_chan block : preserves chan_le (AddBlock rlp_encode_batch rlp_encode_bytes cfg block).
Proof. apply on_builder_le, AddBlock_le. Qed.

Lemma OutputFrames_chan fuel : preserves chan_le (OutputFrames cfg fuel).
Proof. apply on_builder_le, OutputFrames_le. Qed.

Lemma NextTxData_chan : preserves chan_le NextTxData.
Proof.
  intros c r c'. unfold NextTxData, bind, on_builder, zoom, ChannelBuilder.NextFrame.
  destruct (ChannelBuilder.frames (builder c)) as [|d q] eqn:Hd; intros [= _ <-]; [by destruct c|].
  split; [done|done|]. intros [Ho Hp]. split; cbn.
  - intros d' Hd'. apply Ho. rewrite Hd. by right.
  - intros id td [[_ <-]|[_ ?]]%lookup_insert_Some; [|by apply Hp in H1].
    apply Ho. rewrite Hd. by left.
Qed.

(** A failed transaction is put back, whatever it is. *)
Lemma TxFailed_chan id c : chan_ok c -> exists c', TxFailed id c = (Ok tt, c') /\ chan_le c c'.
Proof.
  intros Hok. unfold TxFailed, bind at 1, get. destruct (pendingTransactions c !! id) as [td|] eqn:Htd; [|by exists c].
  pose proof (co_pending _ Hok _ _ Htd) as Hid.
  unfold bind, on_builder, zoom, ChannelBuilder.PushFrame. unfold ID in Hid. rewrite Hid, Z.eqb_refl. cbn [negb].
  eexists. split; [reflexivity|]. split; [done|done|]. intros [Ho Hp]. split; cbn.
  - intros d [?|Hd%list_elem_of_singleton]%elem_of_app; [by apply Ho|]. by subst d.
  - intros id' td' [_ ?]%lookup_delete_Some. by eapply Hp.
Qed.

Lemma TxConfirmed_chan id b c :
  chan_le c (TxConfirmed cfg id b c).2 /\
  forall x, (TxConfirmed cfg id b c).1.1 = true -> x ∈ ChannelBuilder.Blocks (builder (TxConfirmed cfg id b c).2) ->
    x ∈ (TxConfirmed cfg id b c).1.2 \/ isFullySubmitted (TxConfirmed cfg id b c).2 = true.
Proof.
  unfold TxConfirmed. destruct (pendingTransactions c !! id) as [td|] eqn:Htd; [|split; [done|by left]].
  set (c1 := mk _ _ _).
  assert (chan_le c c1) as Hle.
  { pose proof (updateTimeout_le (id_Number b +u cc_ChannelTimeout cfg -u cc_SubSafetyMargin cfg)
      ErrChannelTimeoutClose (builder c)) as [Hid Hb Hf].
    split; [done|done|]. intros [Ho Hp]. unfold ID in *. split; cbn; unfold ID; cbn.
    - intros d Hd%Hf. destruct Hd as [Hd|Hd]; unfold ChannelBuilder.FramePublished; rewrite Hid; auto.
    - intros id' td' [_ Hx]%lookup_delete_Some. unfold ChannelBuilder.FramePublished. rewrite Hid. by eapply Hp. }
  destruct (isTimedOut cfg c1); cbn; (split; [done|]).
  - intros x _ Hx. by left.
  - intros x Hx _. by right.
Qed.

(** When nothing is pending, reports change nothing. *)
Lemma TxFailed_idle id c : pendingTransactions c = ∅ -> TxFailed id c = (Ok tt, c).
Proof. intros He. unfold TxFailed, bind, get. by rewrite He, lookup_empty. Qed.

Lemma TxConfirmed_idle id b c : pendingTransactions c = ∅ -> TxConfirmed cfg id b c = (false, [], c).
Proof. intros He. unfold TxConfirmed. by rewrite He, lookup_empty. Qed.
End Channel.

(** ** Slices *)
Lemma length_sl_elems s : (sl_len s <= length (sl_array s))%nat -> length (sl_elems s) = sl_len s.
Proof. intros. unfold sl_elems. rewrite length_take. lia. Qed.

Lemma sl_elems_append s x : (sl_len s <= length (sl_array s))%nat -> sl_elems (sl_append s x) = sl_elems s ++ [x].
Proof.
  intros Hl. pose proof (length_sl_elems s Hl) as He. unfold sl_append. unfold sl_elems at 1. cbn [sl_array sl_len].
  rewrite take_app, He, take_ge by lia. f_equal. by replace (S (sl_len s) - sl_len s)%nat with 1%nat by lia.
Qed.

Lemma sl_append_wf s x : (sl_len s <= length (sl_array s))%nat -> (sl_len (sl_append s x) <= length (sl_array (sl_append s x)))%nat.
Proof. intros Hl. unfold sl_append, sl_elems. cbn. rewrite length_app, length_take. cbn. lia. Qed.

Lemma sl_remove_array s i :
  (sl_len s <= length (sl_array s))%nat -> (i < sl_len s)%nat ->
  length (sl_array (sl_remove s i)) = length (sl_array s).
Proof.
  intros Hl Hi. unfold sl_remove. cbn. rewrite !length_app, length_take, !length_drop, length_sl_elems by done. lia.
Qed.

Lemma sl_elems_remove s i :
  (sl_len s <= length (sl_array s))%nat -> (i < sl_len s)%nat ->
  sl_elems (sl_remove s i) = take i (sl_elems s) ++ drop (S i) (sl_elems s).
Proof.
  intros Hl Hi. pose proof (length_sl_elems s Hl) as He. unfold sl_remove. unfold sl_elems at 1. cbn [sl_array sl_len].
  rewrite app_assoc. rewrite take_app_length'.
  - f_equal. unfold sl_elems. rewrite take_take. by rewrite Nat.min_l by lia.
  - rewrite length_app, length_take, length_drop. lia.
Qed.

Lemma sl_remove_in s i x : x ∈ sl_array (sl_remove s i) -> x ∈ sl_array s.
Proof.
  unfold sl_remove, sl_elems. cbn. rewrite !elem_of_app.
  assert (Hd : forall n (l : list nat), x ∈ drop n l -> x ∈ l).
  { intros n l [j Hj]%list_elem_of_lookup_1. rewrite lookup_drop in Hj. by eapply list_elem_of_lookup_2. }
  assert (Ht : forall n (l : list nat), x ∈ take n l -> x ∈ l).
  { intros n l [j [Hj _]%lookup_take_Some]%list_elem_of_lookup_1. by eapply list_elem_of_lookup_2. }
  intros [?%Ht|[?%Hd%Ht|?%Hd]]; done.
Qed.

Lemma elem_of_removed {A} (l : list A) i p x :
  l !! i = Some p -> x <> p -> x ∈ l -> x ∈ take i l ++ drop (S i) l.
Proof.
  intros Hi Hne Hx. rewrite <- (take_drop_middle l i p Hi) in Hx.
  rewrite elem_of_app, elem_of_cons in Hx. rewrite elem_of_app. naive_solver.
Qed.

Section Manager.
Context {C R : Type} `{Compressor C} `{Keccak} `{Rand R}.
Context (rlp_encode_batch : BatchV1 -> result Data) (rlp_encode_bytes : Data -> result Data).
Context (cfg : ChannelConfig) (NewCompressor : result C).
Import ChannelManager.
Abbreviation chan := (BatcherChannel.t C).
Implicit Types s : t C R.

(** A block that the manager holds: it waits, or is in a channel that is still looked after,
    or in one that is fully submitted. *)
Definition held s (b : Block) : Prop :=
  b ∈ blocks s \/
  exists p c, heap s !! p = Some c /\ b ∈ ChannelBuilder.Blocks (BatcherChannel.builder c) /\
    (p ∈ sl_elems (channelQueue s) \/ BatcherChannel.isFullySubmitted c = true).

(** The invariant of the manager, for the blocks that were added. *)
Record mgr_inv (added : list Block) s : Prop := {
  mi_current p : currentChannel s = Some p -> p ∈ sl_elems (channelQueue s);
  mi_slice : (sl_len (channelQueue s) <= length (sl_array (channelQueue s)))%nat;
  mi_queue p : p ∈ sl_array (channelQueue s) -> is_Some (heap s !! p);
  mi_txs id p : txChannels s !! id = Some p -> is_Some (heap s !! p);
  mi_chan p c : heap s !! p = Some c -> chan_ok c;
  mi_held b : closed s = false -> b ∈ added -> held s b }.

Definition keeps_inv added s s' : Prop := mgr_inv added s -> mgr_inv added s'.

#[local] Instance keeps_inv_preorder added : PreOrder (keeps_inv added).
Proof. split; unfold keeps_inv; red; auto. Qed.

Lemma elems_in_array s p : p ∈ sl_elems (channelQueue s) -> p ∈ sl_array (channelQueue s).
Proof.
  unfold sl_elems. intros [j [Hj _]%lookup_take_Some]%list_elem_of_lookup_1. by eapply list_elem_of_lookup_2.
Qed.

(** A channel that is looked after may go on. *)
Lemma set_channel_inv added s p c c' :
  mgr_inv added s -> heap s !! p = Some c -> chan_le c c' ->
  p ∈ sl_elems (channelQueue s) \/ BatcherChannel.isFullySubmitted c = false \/ c' = c ->
  mgr_inv added (set_channel p c' s).
Proof.
  intros [] Hc Hle Hp. split; cbn; try done.
  - intros q Hq. apply lookup_insert_is_Some'. right. auto.
  - intros id q Hq. apply lookup_insert_is_Some'. right. eauto.
  - intros q c1 [[<- <-]|[_ ?]]%lookup_insert_Some; [|eauto]. apply (cl_ok _ _ Hle). eauto.
  - intros b Ho Hb. destruct (mi_held0 b Ho Hb) as [?|(q & c1 & Hq & Hbq & Hd)]; [by left|].
    right. destruct (decide (p = q)) as [->|Hne].
    + rewrite Hc in Hq. injection Hq as <-. exists q, c'. cbn. rewrite lookup_insert_eq.
      split_and!; [done|by apply (cl_blocks _ _ Hle)|].
      destruct Hp as [?|[Hn| ->]]; [by left|destruct Hd; [by left|congruence]|by destruct Hd; [left|right]].
    + exists q, c1. cbn. by rewrite lookup_insert_ne.
Qed.

Lemma on_channel_inv {A} added p (m : M chan A) :
  preserves chan_le m ->
  forall s r s', mgr_inv added s -> p ∈ sl_elems (channelQueue s) -> on_channel p m s = (r, s') ->
    mgr_inv added s' /\ p ∈ sl_elems (channelQueue s').
Proof.
  intros Hm s r s' Hi Hp. unfold on_channel. destruct (heap s !! p) as [c|] eqn:Hc; [|by intros [= _ <-]].
  destruct (m c) as [r' c'] eqn:E. intros [= _ <-]. split; [|done].
  eapply set_channel_inv; [done..|by eapply Hm|by left].
Qed.

Lemma on_current_inv {A} added (m : M chan A) :
  preserves chan_le m -> preserves (keeps_inv added) (on_current m).
Proof.
  intros Hm s r s' Hx Hi. unfold on_current, bind, get in Hx.
  destruct (currentChannel s) as [p|] eqn:Hp; [|by injection Hx as _ <-].
  eapply on_channel_inv in Hx as [? _]; [done..|]. by apply (mi_current _ _ Hi).
Qed.

(** Looking at a channel changes nothing. *)
Lemma on_channel_look {A} p (f : chan -> result A) s r s' :
  on_channel p (fun c => (f c, c)) s = (r, s') -> s' = s.
Proof.
  unfold on_channel. destruct (heap s !! p) as [c|] eqn:Hc; [|by intros [= _ <-]].
  intros [= _ <-]. destruct s. unfold set_channel. cbn in *. by rewrite insert_id.
Qed.

Lemma removePendingChannel_fields p s :
  heap (removePendingChannel p s) = heap s /\ blocks (removePendingChannel p s) = blocks s /\
  txChannels (removePendingChannel p s) = txChannels s /\ closed (removePendingChannel p s) = closed s.
Proof. unfold removePendingChannel. case_if; destruct (list_find _ _) as [[? ?]|]; done. Qed.

(** Removing a channel loses no block when the blocks of the channel are held otherwise. *)
Lemma removePendingChannel_inv added p s :
  mgr_inv added s ->
  (closed s = false -> forall b c, heap s !! p = Some c -> b ∈ ChannelBuilder.Blocks (BatcherChannel.builder c) ->
     b ∈ blocks s \/ BatcherChannel.isFullySubmitted c = true) ->
  mgr_inv added (removePendingChannel p s).
Proof.
  intros [Hcur Hsl Hq Htx Hch Hheld] Hdone.
  destruct (removePendingChannel_fields p s) as (Hh & Hb & Ht & Hc).
  assert (Hcur' : forall q, currentChannel (removePendingChannel p s) = Some q -> currentChannel s = Some q /\ q <> p).
  { intros q. unfold removePendingChannel. case_bool_decide as Hp; destruct (list_find _ _) as [[? ?]|]; cbn; try done;
      intros Hx; (split; [done|congruence]). }
  assert (Hqu : (channelQueue (removePendingChannel p s) = channelQueue s) \/
    exists i, sl_elems (channelQueue s) !! i = Some p /\ channelQueue (removePendingChannel p s) = sl_remove (channelQueue s) i).
  { unfold removePendingChannel. case_if; cbn;
      destruct (list_find (eq p) (sl_elems (channelQueue s))) as [[i q]|] eqn:Ef; cbn; try (by left); right;
      apply list_find_Some in Ef as (Ef & -> & _); by exists i. }
  assert (Hin : forall q, q <> p -> q ∈ sl_elems (channelQueue s) -> q ∈ sl_elems (channelQueue (removePendingChannel p s))).
  { intros q Hne Hx. destruct Hqu as [->|(i & Hi & ->)]; [done|].
    pose proof (lookup_lt_Some _ _ _ Hi). rewrite length_sl_elems in * by done.
    rewrite sl_elems_remove by done. by eapply elem_of_removed. }
  split; rewrite ?Hh, ?Ht, ?Hc; try done.
  - intros q [Hx Hne]%Hcur'. auto.
  - destruct Hqu as [->|(i & Hi & ->)]; [done|]. apply lookup_lt_Some in Hi.
    rewrite length_sl_elems in Hi by done. rewrite sl_remove_array by done. cbn. lia.
  - intros q Hx. apply Hq. destruct Hqu as [E|(i & _ & E)]; rewrite E in Hx; [done|by eapply sl_remove_in].
  - intros b Ho Ha. destruct (Hheld b Ho Ha) as [?|(q & c & Hq' & Hbq & Hd)]; [left; by rewrite Hb|].
    destruct (decide (q = p)) as [->|Hne].
    + destruct (Hdone Ho b c Hq' Hbq); [left; by rewrite Hb|right]. exists p, c. rewrite Hh. auto.
    + right. exists q, c. rewrite Hh. split_and!; [done..|]. destruct Hd; [left; auto|by right].
Qed.

Lemma set_txChannels_inv added m s :
  mgr_inv added s -> (forall id p, m !! id = Some p -> is_Some (heap s !! p)) -> mgr_inv added (set_txChannels m s).
Proof. by intros [] Hm. Qed.

Lemma not_fully (c : chan) : BatcherChannel.pendingTransactions c <> ∅ -> BatcherChannel.isFullySubmitted c = false.
Proof.
  intros Hp. unfold BatcherChannel.isFullySubmitted. apply andb_false_iff. right. apply Z.eqb_neq.
  unfold BatcherChannel.PendingFrames, ChannelBuilder.PendingFrames.
  enough (size (BatcherChannel.pendingTransactions c) <> 0)%nat by lia. by intros ?%map_size_empty_inv.
Qed.

Lemma on_channel_at {A} p (m : M chan A) s c r c' :
  heap s !! p = Some c -> m c = (r, c') -> on_channel p m s = (r, set_channel p c' s).
Proof. intros Hc Hm. unfold on_channel. by rewrite Hc, Hm. Qed.

(** A report on a transaction that is known reaches its channel. *)
Lemma manager_TxFailed_inv added id s :
  mgr_inv added s -> exists s', TxFailed id s = (Ok tt, s') /\ mgr_inv added s'.
Proof.
  intros Hi. unfold TxFailed, bind at 1, get. destruct (txChannels s !! id) as [p|] eqn:Hp; [|by exists s].
  destruct (mi_txs _ _ Hi _ _ Hp) as [c Hc]. destruct (TxFailed_chan id c) as (c' & Hf & Hle); [by eapply mi_chan|].
  set (s1 := set_txChannels (delete id (txChannels s)) s).
  assert (Hi1 : mgr_inv added s1).
  { apply set_txChannels_inv; [done|]. intros i q [_ ?]%lookup_delete_Some. by eapply mi_txs. }
  set (s2 := set_channel p c' s1).
  assert (Hi2 : mgr_inv added s2).
  { apply (set_channel_inv _ _ p c c'); [done..|]. right.
    destruct (decide (BatcherChannel.pendingTransactions c = ∅)) as [He|He]; [right|left; by apply not_fully].
    rewrite (TxFailed_idle id c He) in Hf. congruence. }
  assert (Hc2 : heap s2 !! p = Some c') by apply lookup_insert_eq.
  unfold bind at 1, modify. fold s1. unfold bind at 1. rewrite (on_channel_at p _ s1 c _ _ Hc Hf). fold s2.
  unfold bind. rewrite (on_channel_at p (fun c => (Ok (BatcherChannel.NoneSubmitted c), c)) s2 c' _ _ Hc2 eq_refl).
  replace (set_channel p c' s2) with s2 by (unfold set_channel; destruct s2; cbn in *; by rewrite insert_id).
  change (closed s) with (closed s2).
  destruct (closed s2) eqn:Ecl; cbn [andb]; [|by exists s2].
  destruct (BatcherChannel.NoneSubmitted c'); [|by exists s2]. eexists. split; [reflexivity|].
  apply removePendingChannel_inv; [done|]. congruence.
Qed.

Lemma manager_TxConfirmed_inv added id b s :
  mgr_inv added s -> exists s', TxConfirmed cfg id b s = (Ok tt, s') /\ mgr_inv added s'.
Proof.
  intros Hi. unfold TxConfirmed, bind at 1, get. destruct (txChannels s !! id) as [p|] eqn:Hp; [|by exists s].
  destruct (mi_txs _ _ Hi _ _ Hp) as [c Hc]. destruct (TxConfirmed_chan cfg id b c) as [Hle Hdone].
  destruct (BatcherChannel.TxConfirmed cfg id b c) as [[dn bs] c'] eqn:Hf. cbn [fst snd] in Hle, Hdone.
  set (s1 := set_txChannels (delete id (txChannels s)) s).
  assert (Hi1 : mgr_inv added s1).
  { apply set_txChannels_inv; [done|]. intros i q [_ ?]%lookup_delete_Some. by eapply mi_txs. }
  set (s2 := set_channel p c' s1).
  assert (Hi2 : mgr_inv added s2).
  { apply (set_channel_inv _ _ p c c'); [done..|]. right.
    destruct (decide (BatcherChannel.pendingTransactions c = ∅)) as [He|He]; [right|left; by apply not_fully].
    rewrite (TxConfirmed_idle cfg id b c He) in Hf. congruence. }
  set (s3 := set_blocks (bs ++ blocks s2) s2).
  assert (Hi3 : mgr_inv added s3).
  { destruct Hi2 as [? ? ? ? ? Hh]. split; try done. intros x Ho Hx.
    destruct (Hh x Ho Hx) as [?|?]; [left; apply elem_of_app; by right|by right]. }
  unfold bind at 1, modify. fold s1. unfold bind at 1.
  rewrite (on_channel_at p _ s1 c (Ok (dn, bs)) c' Hc); [|cbv beta; by rewrite Hf]. fold s2.
  unfold bind. cbn [fst snd]. fold s3. destruct dn; [|by exists s3]. eexists. split; [reflexivity|].
  apply removePendingChannel_inv; [done|]. intros _ x c1 Hc1 Hx. cbn in Hc1.
  rewrite lookup_insert_eq in Hc1. injection Hc1 as <-.
  destruct (Hdone x eq_refl Hx); [left|by right]. cbn. apply elem_of_app. by left.
Qed.

(** *** Handing out transactions *)
Lemma nextTxData_inv added po s r s' :
  mgr_inv added s -> (forall p, po = Some p -> p ∈ sl_elems (channelQueue s)) ->
  nextTxData po s = (r, s') -> mgr_inv added s'.
Proof.
  intros Hi Hpo. destruct po as [p|]; [|by intros [= _ <-]]. unfold nextTxData.
  intros [(has & s1 & Hx & Hy)|[(e & Hx & ->)|[Hx ->]]]%bind_cases; apply on_channel_look in Hx as ->; [|done..].
  destruct (negb has); [by injection Hy as _ <-|].
  apply bind_cases in Hy as [(td & s1 & Hx & Hy)|[(e & Hx & ->)|[Hx ->]]];
    pose proof Hx as Hx'; (eapply on_channel_inv in Hx as [Hi1 Hp1]; [|apply NextTxData_chan|done|by apply Hpo]);
    [|done..].
  injection Hy as _ <-. apply set_txChannels_inv; [done|].
  intros id q [[_ <-]|[_ ?]]%lookup_insert_Some; [|by eapply mi_txs].
  by apply (mi_queue _ _ Hi1), elems_in_array.
Qed.

(** The channel found for the next transaction is in the queue. *)
Lemma first_with_frame_in s p : first_with_frame s = Some p -> p ∈ sl_elems (channelQueue s).
Proof.
  unfold first_with_frame. destruct (list_find _ _) as [[i q]|] eqn:Ef; cbn; [|done].
  intros [= ->]. apply list_find_Some in Ef as (Ef & _ & _). by eapply list_elem_of_lookup_2.
Qed.

(** *** Making room *)
Lemma new_chan_ok rand (c : chan) : BatcherChannel.new NewCompressor rand = Ok c -> chan_ok c.
Proof.
  unfold BatcherChannel.new, ChannelBuilder.new, ChannelOut.new.
  destruct NewCompressor; [|done..]. destruct rand; [|done..]. cbn. intros [= <-].
  split; cbn; [by intros d ?%elem_of_nil|by intros].
Qed.

Lemma look_inv {A} added p (f : chan -> result A) :
  preserves (keeps_inv added) (on_channel p (fun c => (f c, c))).
Proof. intros s r s' Hx Hi. by apply on_channel_look in Hx as ->. Qed.

Lemma add_channel_inv added (pc : chan) s :
  chan_ok pc -> mgr_inv added s ->
  let p := fresh (dom (heap s)) in
  mgr_inv added (set_channelQueue (sl_append (channelQueue s) p) (set_currentChannel (Some p) (set_channel p pc s))).
Proof.
  intros Hpc [Hcur Hsl Hq Htx Hch Hheld] p.
  assert (Hp : heap s !! p = None) by (apply not_elem_of_dom, is_fresh).
  split; cbn [currentChannel channelQueue heap txChannels set_channelQueue set_currentChannel set_channel].
  - intros q [= <-]. rewrite sl_elems_append by done. apply elem_of_app. right. by left.
  - by apply sl_append_wf.
  - intros q Hin. apply lookup_insert_is_Some'. revert Hin. cbn. unfold sl_elems.
    rewrite elem_of_app, elem_of_cons. intros [Hin|[->|Hin]]; [right|by left|right]; apply Hq.
    + apply list_elem_of_lookup_1 in Hin as [j [Hj _]%lookup_take_Some]. by eapply list_elem_of_lookup_2.
    + apply list_elem_of_lookup_1 in Hin as [j Hj]. rewrite lookup_drop in Hj. by eapply list_elem_of_lookup_2.
  - intros id q Hx. apply lookup_insert_is_Some'. right. eauto.
  - intros q c [[_ <-]|[_ ?]]%lookup_insert_Some; [done|eauto].
  - intros b Ho Hb. destruct (Hheld b Ho Hb) as [?|(q & c & Hqc & Hbq & Hd)]; [by left|right].
    exists q, c. cbn [heap channelQueue set_channelQueue set_currentChannel set_channel].
    rewrite lookup_insert_ne by congruence. split_and!; [done..|].
    rewrite sl_elems_append by done. destruct Hd; [left; apply elem_of_app; by left|by right].
Qed.

Lemma ensureChannelWithSpace_inv added : preserves (keeps_inv added) (ensureChannelWithSpace NewCompressor).
Proof.
  unfold ensureChannelWithSpace. apply (preserves_bind _); [apply (preserves_get _)|]. intros s0.
  apply (preserves_bind _).
  { destruct (currentChannel s0); [apply look_inv|apply (preserves_ret _)]. }
  intros full. destruct (negb full); [apply (preserves_ret _)|].
  destruct (rand_Read (random s0)) as [rand r']. apply (preserves_bind _).
  { apply preserves_modify. by intros s [? ? ? ? ? Hh]. }
  intros _ s r s' Hx Hi.
  apply bind_cases in Hx as [(pc & s1 & Hl & Hx)|[(e & Hl & ->)|[Hl ->]]];
    unfold wrapE, lift in Hl; injection Hl as Hl <-; [|done..].
  injection Hx as _ <-. apply add_channel_inv; [|done]. apply (new_chan_ok rand).
  destruct (BatcherChannel.new NewCompressor rand); cbn in Hl; congruence.
Qed.

(** *** Processing blocks *)

(** A block in a channel that is looked after. *)
Definition in_queue s (b : Block) : Prop :=
  exists p c, heap s !! p = Some c /\ b ∈ ChannelBuilder.Blocks (BatcherChannel.builder c) /\
    p ∈ sl_elems (channelQueue s).

Definition keeps_queue s s' : Prop := blocks s' = blocks s /\ forall b, in_queue s b -> in_queue s' b.

#[local] Instance keeps_queue_preorder : PreOrder keeps_queue.
Proof. split; unfold keeps_queue; red; [done|]. intros s1 s2 s3 [? ?] [? ?]. split; [congruence|auto]. Qed.

Lemma on_channel_queue {A} p (m : M chan A) : preserves chan_le m -> preserves keeps_queue (on_channel p m).
Proof.
  intros Hm s r s'. unfold on_channel. destruct (heap s !! p) as [c|] eqn:Hc; [|by intros [= _ <-]].
  destruct (m c) as [r' c'] eqn:Ec. intros [= _ <-]. split; [done|]. intros b (q & c1 & Hq & Hb & Hin).
  destruct (decide (p = q)) as [->|Hne].
  - exists q, c'. cbn. rewrite lookup_insert_eq. split_and!; [done| |done].
    apply Hm in Ec. apply (cl_blocks _ _ Ec). congruence.
  - exists q, c1. cbn. by rewrite lookup_insert_ne.
Qed.

Lemma on_current_queue {A} (m : M chan A) : preserves chan_le m -> preserves keeps_queue (on_current m).
Proof.
  intros Hm s r s' Hx. unfold on_current, bind, get in Hx.
  destruct (currentChannel s) as [p|]; [by eapply on_channel_queue|by injection Hx as _ <-].
Qed.

(** A block that was added is in the current channel. *)
Lemma add_block_in_queue added block s x s' :
  mgr_inv added s -> on_current (BatcherChannel.AddBlock rlp_encode_batch rlp_encode_bytes cfg block) s = (Ok x, s') ->
  in_queue s' block.
Proof.
  intros Hi Hx. unfold on_current, bind, get in Hx. destruct (currentChannel s) as [p|] eqn:Hp; [|done].
  apply (mi_current _ _ Hi) in Hp. unfold on_channel in Hx. destruct (heap s !! p) as [c|] eqn:Hc; [|done].
  unfold BatcherChannel.AddBlock, BatcherChannel.on_builder, zoom in Hx.
  destruct (ChannelBuilder.AddBlock _ _ _ _ _) as [r b'] eqn:Ea. injection Hx as -> <-.
  exists p. eexists. cbn. rewrite lookup_insert_eq. split_and!; [done| |done]. by eapply AddBlock_added.
Qed.

Lemma look_chan_le {A} (f : chan -> result A) : preserves chan_le (fun c => (f c, c)).
Proof. by intros c r c' [= _ <-]. Qed.

Lemma process_loop_keeps added bs :
  preserves (keeps_inv added) (process_loop rlp_encode_batch rlp_encode_bytes cfg bs) /\
  preserves keeps_queue (process_loop rlp_encode_batch rlp_encode_bytes cfg bs).
Proof.
  pose proof (AddBlock_chan rlp_encode_batch rlp_encode_bytes cfg) as Ha.
  pose proof (look_chan_le (fun c => Ok (BatcherChannel.IsFull c))) as Hl.
  pose proof (fun b => on_current_inv added _ (Ha b)). pose proof (fun b => on_current_queue _ (Ha b)).
  pose proof (on_current_inv added _ Hl). pose proof (on_current_queue _ Hl). clear Ha Hl.
  split; induction bs as [|block bs IH]; cbn [process_loop]; go_code.
Qed.

(** The blocks counted as added are in channels of the queue. *)
Lemma process_loop_Ok added bs s n s' :
  mgr_inv added s -> process_loop rlp_encode_batch rlp_encode_bytes cfg bs s = (Ok n, s') ->
  forall b, b ∈ take n bs -> in_queue s' b.
Proof.
  revert s n. induction bs as [|block bs IH]; intros s n Hi; cbn [process_loop].
  { intros _ b. rewrite take_nil. by intros ?%elem_of_nil. }
  intros (ra & s1 & Ha & Hx)%bind_Ok. unfold attempt in Ha.
  destruct (on_current _ s) as [[x|e|] s0] eqn:Eadd; [..|done]; injection Ha as <- <-.
  2:{ case_if_in Hx; [|done]. injection Hx as <- <-. intros b. by intros ?%elem_of_nil. }
  pose proof (add_block_in_queue _ _ _ _ _ Hi Eadd) as Hblock.
  assert (Hi1 : mgr_inv added s0) by (eapply (on_current_inv added); [apply AddBlock_chan|exact Eadd|done]).
  apply bind_Ok in Hx as (full & s2 & Hf & Hx).
  pose proof (on_current_queue _ (look_chan_le _) _ _ _ Hf) as [_ Hk].
  pose proof (on_current_inv added _ (look_chan_le _) _ _ _ Hf Hi1) as Hi2.
  destruct full.
  - injection Hx as <- <-. intros b. cbn. rewrite take_0, list_elem_of_singleton. intros ->. auto.
  - apply bind_Ok in Hx as (n' & s3 & Hl & Hx). injection Hx as <- <-.
    cbn. intros b [->|Hb]%elem_of_cons; [|by eapply IH].
    apply (proj2 (process_loop_keeps added bs) _ _ _ Hl). auto.
Qed.

Lemma processBlocks_inv added : preserves (keeps_inv added) (processBlocks rlp_encode_batch rlp_encode_bytes cfg).
Proof.
  intros s r s' Hx Hi. unfold processBlocks, bind at 1, get in Hx.
  apply bind_cases in Hx as [(n & s1 & Hl & Hx)|[(e & Hl & ->)|[Hl ->]]];
    pose proof (proj1 (process_loop_keeps added _) _ _ _ Hl Hi) as Hi1; [|done..].
  injection Hx as _ <-. pose proof (process_loop_Ok _ _ _ _ _ Hi Hl) as Hin.
  pose proof (proj2 (process_loop_keeps added _) _ _ _ Hl) as [Hb _].
  destruct Hi1 as [? ? ? ? ? Hh]. split; try done. intros b Ho Ha.
  destruct (Hh b Ho Ha) as [Hw|?]; [|by right]. rewrite Hb, <- (take_drop n (blocks s)), elem_of_app in Hw.
  destruct Hw as [Hw|Hw]; [right|left; cbn; by rewrite Hb].
  destruct (Hin b Hw) as (p & c & ? & ? & ?). exists p, c. auto.
Qed.

(** *** The whole operations *)
Lemma TxData_inv added fuel l1Head :
  preserves (keeps_inv added) (TxData rlp_encode_batch rlp_encode_bytes cfg NewCompressor fuel l1Head).
Proof.
  intros s r s' Hx Hi. unfold TxData, bind at 1, get in Hx.
  assert (Hnext : forall s1 r1 s2 po, mgr_inv added s1 -> (forall p, po = Some p -> p ∈ sl_elems (channelQueue s1)) ->
    (Some <$$> nextTxData po) s1 = (r1, s2) -> mgr_inv added s2).
  { intros s1 r1 s2 po Hi1 Hpo. unfold mapM_result.
    intros [(td & s3 & Hn & Hy)|[(e & Hn & ->)|[Hn ->]]]%bind_cases; eapply nextTxData_inv in Hn; [|done..].
    by injection Hy as _ <-. }
  case_if_in Hx; [eapply Hnext; [done| |done]; intros p; apply first_with_frame_in|].
  case_if_in Hx; [by injection Hx as _ <-|].
  apply bind_cases in Hx as [([] & s1 & Hl & Hx)|[(e & Hl & ->)|[Hl ->]]]; apply (ensureChannelWithSpace_inv added) in Hl; [|by apply Hl..].
  specialize (Hl Hi).
  apply bind_cases in Hx as [([] & s2 & Hp & Hx)|[(e & Hp & ->)|[Hp ->]]]; apply (processBlocks_inv added) in Hp; [|by apply Hp..].
  specialize (Hp Hl).
  apply bind_cases in Hx as [([] & s3 & Hr & Hx)|[(e & Hr & ->)|[Hr ->]]];
    (apply (on_current_inv added) in Hr; [|intros c r0 c' [= _ <-]; apply RegisterL1Block_chan]); [|by apply Hr..].
  specialize (Hr Hp).
  apply bind_cases in Hx as [(out & s4 & Ho & Hx)|[(e & Ho & ->)|[Ho ->]]];
    apply (preserves_wrapE _ _ _ (on_current_inv added _ (OutputFrames_chan cfg fuel))) in Ho; [|by apply Ho..].
  specialize (Ho Hr). destruct out; [|by injection Hx as _ <-]. unfold bind at 1, get in Hx.
  eapply Hnext; [exact Ho| |exact Hx]. intros p. apply (mi_current _ _ Ho).
Qed.

Lemma AddL2Block_inv added block s r s' :
  mgr_inv added s -> AddL2Block block s = (r, s') ->
  mgr_inv (if is_ok r then added ++ [block] else added) s'.
Proof.
  intros Hi. unfold AddL2Block, bind, get. case_if; intros [= <- <-]; [done|]. cbn.
  destruct Hi as [? ? ? ? ? Hh]. split; try done. intros b Ho [Hb|Hb%list_elem_of_singleton]%elem_of_app.
  - destruct (Hh b Ho Hb) as [?|?]; [left; apply elem_of_app; by left|by right].
  - left. apply elem_of_app. right. by apply list_elem_of_singleton.
Qed.

Lemma Clear_inv added s : mgr_inv added s -> mgr_inv [] (Clear s).
Proof.
  intros [? ? ? ? ? ?]. split; cbn; try done.
  - by intros p ?%elem_of_nil.
  - by intros b _ ?%elem_of_nil.
Qed.

Lemma close_loop_inv added i n s r s' :
  closed s = true -> mgr_inv added s -> close_loop i n s = (r, s') -> mgr_inv added s' /\ closed s' = true.
Proof.
  revert i s. induction n as [|n IH]; intros i s Hc Hi; cbn [close_loop]; [by intros [= _ <-]|].
  unfold bind at 1, get. destruct (sl_array (channelQueue s) !! i) as [p|]; [|by intros [= _ <-]].
  intros [(none & s1 & Hl & Hx)|[(e & Hl & ->)|[Hl ->]]]%bind_cases; apply on_channel_look in Hl as ->; [|done..].
  unfold bind at 1 in Hx. destruct none; [|by eapply IH; [..|exact Hx]].
  eapply IH; [| |exact Hx].
  - by rewrite (proj2 (proj2 (proj2 (removePendingChannel_fields p s)))).
  - apply removePendingChannel_inv; [done|congruence].
Qed.

Lemma manager_Close_inv added fuel : preserves (keeps_inv added) (ChannelManager.Close cfg fuel).
Proof.
  intros s r s' Hx Hi. unfold ChannelManager.Close, bind at 1, get in Hx.
  destruct (closed s); [by injection Hx as _ <-|]. unfold bind at 1, put in Hx.
  assert (Hi1 : mgr_inv added (set_closed true s)) by (by destruct Hi).
  apply bind_cases in Hx as [([] & s1 & Hl & Hx)|[(e & Hl & ->)|[Hl ->]]];
    eapply close_loop_inv in Hl as [Hi2 _]; [|done..].
  unfold bind at 1, get in Hx. destruct (currentChannel s1); [|by injection Hx as _ <-].
  apply bind_cases in Hx as [([] & s2 & Hr & Hx)|[(e & Hr & ->)|[Hr ->]]];
    (apply (on_current_inv added) in Hr; [|intros c r0 c' [= _ <-]; apply Close_chan]); [|by apply Hr..].
  apply (preserves_wrapE _ _ _ (on_current_inv added _ (OutputFrames_chan cfg fuel))) in Hx. auto.
Qed.


(** ** Runs of the manager *)
Inductive mgr_op :=
  | MgrAddL2Block (block : Block)
  | MgrTxData (fuel : nat) (l1Head : BlockID)
  | MgrTxFailed (id : txID)
  | MgrTxConfirmed (id : txID) (inclusionBlock : BlockID)
  | MgrClose (fuel : nat)
  | MgrClear.

(** One operation, whatever it returns; with the blocks that were accepted since the state
    was last cleared. *)
Definition mgr_step (x : t C R * list Block) (o : mgr_op) : t C R * list Block :=
  let '(s, added) := x in
  match o with
  | MgrAddL2Block block => let '(r, s') := AddL2Block block s in (s', if is_ok r then added ++ [block] else added)
  | MgrTxData fuel l1Head => ((TxData rlp_encode_batch rlp_encode_bytes cfg NewCompressor fuel l1Head s).2, added)
  | MgrTxFailed id => ((TxFailed id s).2, added)
  | MgrTxConfirmed id b => ((TxConfirmed cfg id b s).2, added)
  | MgrClose fuel => ((ChannelManager.Close cfg fuel s).2, added)
  | MgrClear => (Clear s, [])
  end.
Definition mgr_run : t C R * list Block -> list mgr_op -> t C R * list Block := foldl mgr_step.

Lemma mgr_run_inv ops x : mgr_inv x.2 x.1 -> mgr_inv (mgr_run x ops).2 (mgr_run x ops).1.
Proof.
  revert x. induction ops as [|o ops IH]; intros [s added] Hi; [done|]. apply IH. cbn [fst snd] in Hi.
  destruct o as [block|fuel l1|id|id b|fuel|]; cbn [mgr_step].
  - destruct (AddL2Block block s) as [r s'] eqn:Ea. cbn. by eapply AddL2Block_inv.
  - exact (TxData_inv added fuel l1 s _ _ (surjective_pairing _) Hi).
  - cbn [fst snd]. by destruct (manager_TxFailed_inv _ id _ Hi) as (s' & -> & ?).
  - cbn [fst snd]. by destruct (manager_TxConfirmed_inv _ id b _ Hi) as (s' & -> & ?).
  - exact (manager_Close_inv added fuel s _ _ (surjective_pairing _) Hi).
  - cbn. by eapply Clear_inv.
Qed.

Lemma new_mgr_inv r : mgr_inv [] (new (C := C) r).
Proof. split; cbn; try done; [by intros p ?%elem_of_nil|by intros b _ ?%elem_of_nil]. Qed.

(** No block is lost.  Whatever is asked of the manager, in whatever order and with
    whatever outcome (errors and panics included): as long as it is not closed, every block
    it accepted since it was last cleared is still waiting, or is in a channel of its queue,
    or is in a channel all of whose frames were confirmed. *)
Theorem no_block_is_lost r ops s added b :
  mgr_run (new r, []) ops = (s, added) -> closed s = false -> b ∈ added ->
  b ∈ blocks s \/
  exists p c, heap s !! p = Some c /\ b ∈ ChannelBuilder.Blocks (BatcherChannel.builder c) /\
    (p ∈ sl_elems (channelQueue s) \/ BatcherChannel.isFullySubmitted c = true).
Proof.
  intros R1 Ho Hb. pose proof (mgr_run_inv ops (new r, []) (new_mgr_inv r)) as Hi. rewrite R1 in Hi.
  exact (mi_held _ _ Hi b Ho Hb).
Qed.

(** Reports never panic.  In every state the manager can reach, after errors too, the
    report of any transaction, known or not, as failed or as confirmed is handled without an
    error or a panic. *)
Theorem reports_never_panic r ops id b :
  let s := (mgr_run (new r, []) ops).1 in
  (TxFailed id s).1 = Ok tt /\ (TxConfirmed cfg id b s).1 = Ok tt.
Proof.
  intros s. pose proof (mgr_run_inv ops (new r, []) (new_mgr_inv r)) as Hi. fold s in Hi.
  destruct (manager_TxFailed_inv _ id _ Hi) as (s1 & -> & _). by destruct (manager_TxConfirmed_inv _ id b _ Hi) as (s2 & -> & _).
Qed.
End Manager.

(** ** Timeouts of channels *)
Section Timeout.
Context {C : Type} `{Compressor C} (cfg : ChannelConfig).
Import BatcherChannel.
Implicit Types c : t C.

Definition confirmed_numbers c : list Z := id_Number <$> (map_to_list (confirmedTransactions c)).*2.

Lemma range_fold l mm :
  let mm' := foldl (fun mm b => (if id_Number b <? mm.1 then id_Number b else mm.1,
                                 if mm.2 <? id_Number b then id_Number b else mm.2)) mm l in
  (mm'.1 <= mm.1 /\ (mm'.1 = mm.1 \/ mm'.1 ∈ id_Number <$> l)) /\
  (mm.2 <= mm'.2 /\ (mm'.2 = mm.2 \/ mm'.2 ∈ id_Number <$> l)) /\
  Forall (fun n => mm'.1 <= n <= mm'.2) (id_Number <$> l).
Proof.
  revert mm. induction l as [|b l IH]; intros mm; cbn [foldl fmap list_fmap].
  { split_and!; try lia; auto. }
  match goal with |- context [foldl _ ?m l] => set (mm1 := m) end.
  destruct (IH mm1) as ((A1 & A2) & (A3 & A4) & A5). rewrite !elem_of_cons, Forall_cons.
  subst mm1. cbn [fst snd] in *.
  destruct (Z.ltb_spec (id_Number b) mm.1), (Z.ltb_spec mm.2 (id_Number b));
    split_and!; try lia; try done; naive_solver.
Qed.

(** The numbers found are those of the lowest and the highest inclusion block. *)
Lemma inclusion_range_spec c :
  Forall (fun n => 0 <= n < two64) (confirmed_numbers c) -> confirmedTransactions c <> ∅ ->
  (inclusion_range c).1 ∈ confirmed_numbers c /\ (inclusion_range c).2 ∈ confirmed_numbers c /\
  Forall (fun n => (inclusion_range c).1 <= n <= (inclusion_range c).2) (confirmed_numbers c).
Proof.
  intros Hr Hne. unfold inclusion_range, confirmed_numbers in *.
  assert (Hl : (map_to_list (confirmedTransactions c)).*2 <> []).
  { intros He%fmap_nil_inv%map_to_list_empty_iff. done. }
  set (l := (map_to_list _).*2) in *. clearbody l.
  pose proof (range_fold l (two64 - 1, 0)) as Hf. cbv zeta in Hf. cbn [fst snd] in Hf.
  destruct Hf as ((Hlo & Hlo') & (Hhi & Hhi') & Hall).
  destruct l as [|b0 l]; [done|]. set (mm := foldl _ _ _) in *.
  assert (Hb0 : id_Number b0 ∈ id_Number <$> b0 :: l) by by left.
  rewrite Forall_forall in Hall, Hr. pose proof (Hall _ Hb0). pose proof (Hr _ Hb0).
  rewrite Forall_forall. split_and!; [| |done].
  - destruct Hlo' as [E|]; [|done]. by replace mm.1 with (id_Number b0) by lia.
  - destruct Hhi' as [E|]; [|done]. by replace mm.2 with (id_Number b0) by lia.
Qed.

(** A channel counts as timed out exactly when two of its transactions were included at
    least the channel timeout apart. *)
Lemma isTimedOut_iff c :
  Forall (fun n => 0 <= n < two64) (confirmed_numbers c) ->
  isTimedOut cfg c = true <->
  exists i j, i ∈ confirmed_numbers c /\ j ∈ confirmed_numbers c /\ cc_ChannelTimeout cfg <= j - i /\ i <= j.
Proof.
  intros Hr. unfold isTimedOut. case_bool_decide as He.
  { split; [done|]. intros (i & _ & Hi & _). unfold confirmed_numbers in Hi.
    rewrite He, map_to_list_empty in Hi. by apply elem_of_nil in Hi. }
  destruct (inclusion_range_spec c Hr He) as (Hl & Hh & Hall).
  destruct (inclusion_range c) as [lo hi]. cbn [fst snd] in *.
  rewrite Forall_forall in Hall, Hr. pose proof (Hr _ Hl). pose proof (Hr _ Hh). pose proof (Hall _ Hl).
  rewrite u64_small by lia. rewrite Z.leb_le. split.
  - intros. exists lo, hi. split_and!; try done; lia.
  - intros (i & j & Hi%Hall & Hj%Hall & ? & _). lia.
Qed.

(** Confirming another transaction of a channel that has timed out. *)
Lemma TxConfirmed_timed_out id td b c :
  pendingTransactions c !! id = Some td -> confirmedTransactions c !! id = None ->
  Forall (fun n => 0 <= n < two64) (confirmed_numbers c) -> 0 <= id_Number b < two64 ->
  isTimedOut cfg c = true ->
  exists c', TxConfirmed cfg id b c = (true, ChannelBuilder.Blocks (builder c), c').
Proof.
  intros Hp Hn Hr Hb Ht. unfold TxConfirmed. rewrite Hp. set (c1 := mk _ _ _).
  assert (Hnum : confirmed_numbers c1 ≡ₚ id_Number b :: confirmed_numbers c).
  { unfold confirmed_numbers. cbn. by rewrite map_to_list_insert. }
  assert (isTimedOut cfg c1 = true) as ->.
  { apply isTimedOut_iff; [rewrite Hnum; by constructor|].
    apply isTimedOut_iff in Ht as (i & j & Hi & Hj & ?); [|done].
    exists i, j. rewrite Hnum, !elem_of_cons. auto. }
  exists c1. unfold ChannelBuilder.Blocks. cbn. unfold ChannelBuilder.FramePublished, ChannelBuilder.updateTimeout. by case_if.
Qed.
End Timeout.

Section Quirks.
Context {C R : Type} `{Compressor C} `{Keccak} `{Rand R}.
Context (cfg : ChannelConfig).
Import ChannelManager.
Implicit Types s : t C R.

Lemma TxConfirmed_report id b s p c dn bs c' :
  txChannels s !! id = Some p -> heap s !! p = Some c ->
  BatcherChannel.TxConfirmed cfg id b c = (dn, bs, c') ->
  exists s', TxConfirmed cfg id b s = (Ok tt, s') /\ blocks s' = bs ++ blocks s /\
    heap s' = <[p := c']> (heap s) /\ txChannels s' = delete id (txChannels s).
Proof.
  intros Hp Hc Hf. unfold TxConfirmed, bind at 1, get. rewrite Hp. unfold bind at 1, modify. unfold bind at 1.
  rewrite (on_channel_at p _ (set_txChannels (delete id (txChannels s)) s) c (Ok (dn, bs)) c' Hc);
    [|cbv beta; by rewrite Hf]. unfold bind. cbn [fst snd].
  destruct dn; [|by eexists]. eexists. split; [reflexivity|].
  match goal with |- context [removePendingChannel p ?s1] => destruct (removePendingChannel_fields p s1) as (-> & -> & -> & _) end.
  done.
Qed.

(** The blocks of a channel that timed out are queued again for every confirmation.
    When the confirmation of a transaction makes a channel time out, its blocks are put back
    in front of the waiting blocks, to be submitted again; when a second transaction of that
    channel, sent before, is confirmed afterwards, the same blocks are put back once more. *)
Theorem timed_out_blocks_queued_twice id1 id2 td1 td2 b1 b2 s p c :
  txChannels s !! id1 = Some p -> txChannels s !! id2 = Some p -> id1 <> id2 -> heap s !! p = Some c ->
  BatcherChannel.pendingTransactions c !! id1 = Some td1 -> BatcherChannel.pendingTransactions c !! id2 = Some td2 ->
  BatcherChannel.confirmedTransactions c !! id1 = None -> BatcherChannel.confirmedTransactions c !! id2 = None ->
  Forall (fun n => 0 <= n < two64) (confirmed_numbers c) ->
  0 <= id_Number b1 < two64 -> 0 <= id_Number b2 < two64 ->
  BatcherChannel.isTimedOut cfg (BatcherChannel.TxConfirmed cfg id1 b1 c).2 = true ->
  let s1 := (TxConfirmed cfg id1 b1 s).2 in
  let again := ChannelBuilder.Blocks (BatcherChannel.builder c) in
  blocks s1 = again ++ blocks s /\ blocks (TxConfirmed cfg id2 b2 s1).2 = again ++ again ++ blocks s.
Proof.
  intros T1 T2 Hne Hc P1 P2 N1 N2 Hr Hb1 Hb2 Hto. cbv zeta.
  destruct (BatcherChannel.TxConfirmed cfg id1 b1 c) as [[dn bs] c1] eqn:E1. cbn [snd] in Hto.
  unfold BatcherChannel.TxConfirmed in E1. rewrite P1 in E1.
  destruct (BatcherChannel.isTimedOut cfg _) eqn:Et in E1; injection E1 as <- <- <-; [|congruence].
  set (c1 := BatcherChannel.mk _ _ _) in *.
  assert (Hbs : ChannelBuilder.Blocks (BatcherChannel.builder c1) = ChannelBuilder.Blocks (BatcherChannel.builder c)).
  { cbn. unfold ChannelBuilder.FramePublished, ChannelBuilder.updateTimeout. by case_if. }
  assert (Hf1 : BatcherChannel.TxConfirmed cfg id1 b1 c = (true, ChannelBuilder.Blocks (BatcherChannel.builder c1), c1)).
  { unfold BatcherChannel.TxConfirmed. rewrite P1. fold c1. by rewrite Et. }
  destruct (TxConfirmed_report id1 b1 s p c _ _ _ T1 Hc Hf1) as (s1 & -> & Hs1 & Hh1 & Ht1). cbn [snd].
  destruct (TxConfirmed_timed_out cfg id2 td2 b2 c1) as [c2 Hf2]; [cbn; by rewrite lookup_delete_ne|
    cbn; by rewrite lookup_insert_ne| |done..|].
  { unfold confirmed_numbers. cbn. rewrite map_to_list_insert by done. by constructor. }
  destruct (TxConfirmed_report id2 b2 s1 p c1 _ _ _ (eq_trans (f_equal (lookup id2) Ht1) (eq_trans (lookup_delete_ne _ _ _ Hne) T2))
    (eq_trans (f_equal (lookup p) Hh1) (lookup_insert_eq _ _ _)) Hf2) as (s2 & -> & Hs2 & _ & _).
  cbn [snd]. by rewrite Hs2, Hs1, Hbs.
Qed.

(** The loop of [Close] passes over a channel once it has moved before the index. *)
Lemma close_loop_passes i n q s r s' :
  (0 < i)%nat -> (0 < sl_len (channelQueue s) <= length (sl_array (channelQueue s)))%nat ->
  sl_array (channelQueue s) !! O = Some q ->
  (forall k, (0 < k)%nat -> sl_array (channelQueue s) !! k <> Some q) ->
  close_loop i n s = (r, s') -> sl_elems (channelQueue s') !! O = Some q.
Proof.
  revert i s. induction n as [|n IH]; intros i s Hi Hl Hq Hk; cbn [close_loop].
  { intros [= _ <-]. unfold sl_elems. rewrite lookup_take_lt by lia. done. }
  assert (Hend : sl_elems (channelQueue s) !! O = Some q) by (unfold sl_elems; by rewrite lookup_take_lt by lia).
  unfold bind at 1, get. destruct (sl_array (channelQueue s) !! i) as [p|] eqn:Hp; [|by intros [= _ <-]].
  intros [(none & s1 & Hx & Hy)|[(e & Hx & ->)|[Hx ->]]]%bind_cases; apply on_channel_look in Hx as ->; [|done..].
  unfold bind at 1 in Hy. destruct none; [|by eapply IH; [..|exact Hy]; auto].
  assert (Hpq : p <> q) by (intros ->; by eapply Hk).
  assert (Hnew : channelQueue (removePendingChannel p s) = channelQueue s \/
    exists j, (0 < j < sl_len (channelQueue s))%nat /\ channelQueue (removePendingChannel p s) = sl_remove (channelQueue s) j).
  { unfold removePendingChannel. case_if; cbn;
      destruct (list_find (eq p) (sl_elems (channelQueue s))) as [[j x]|] eqn:Ef; cbn; try (by left); right;
      apply list_find_Some in Ef as (Ef & <- & _); exists j; (split; [|done]);
      (split; [destruct j; [congruence|lia]|]); apply lookup_lt_Some in Ef;
      by rewrite length_sl_elems in Ef by lia. }
  unfold modify in Hy. destruct Hnew as [Hnew|(j & Hj & Hnew)].
  - eapply IH; [| | | |exact Hy]; rewrite ?Hnew; auto.
  - eapply IH; [| | | |exact Hy]; rewrite ?Hnew; [auto| | |].
    + rewrite sl_remove_array by lia. cbn. lia.
    + unfold sl_remove. cbn. rewrite lookup_app_l by (rewrite length_take; lia). by rewrite lookup_take_lt by lia.
    + intros k Hk0 Hx. unfold sl_remove, sl_elems in Hx. cbn in Hx.
      assert (Hd : forall m k', (0 < m)%nat -> drop m (sl_array (channelQueue s)) !! k' <> Some q).
      { intros m k' Hm. rewrite lookup_drop. apply Hk. lia. }
      apply lookup_app_Some in Hx as [[Hx _]%lookup_take_Some|[_ Hx]]; [by eapply Hk|].
      rewrite skipn_firstn_comm in Hx.
      apply lookup_app_Some in Hx as [[Hx _]%lookup_take_Some|[_ Hx]]; (eapply Hd; [|exact Hx]; lia).
Qed.

(** Closing leaves a channel that was not submitted.  When the queue starts with two
    channels none of whose transactions was submitted, and at least one more follows, the
    second one stays in the queue: the loop over the queue removes the first, which moves the
    second one to a place the loop has passed.  Its blocks are published during the shutdown,
    although all such channels are meant to be cleared. *)
Theorem close_keeps_unsubmitted s fuel a q rest ca cq r s' :
  closed s = false ->
  sl_array (channelQueue s) = a :: q :: rest -> (3 <= sl_len (channelQueue s) <= S (S (length rest)))%nat ->
  a <> q -> q ∉ rest ->
  heap s !! a = Some ca -> heap s !! q = Some cq ->
  BatcherChannel.NoneSubmitted ca = true -> BatcherChannel.NoneSubmitted cq = true ->
  ChannelManager.Close cfg fuel s = (r, s') ->
  q ∈ sl_elems (channelQueue s').
Proof.
  intros Ho Harr Hlen Hne Hrest Ha Hq Hna _ Hx.
  unfold ChannelManager.Close, bind at 1, get in Hx. rewrite Ho in Hx. unfold bind at 1, put in Hx.
  set (s0 := set_closed true s) in *.
  assert (Hqueue : forall A (m : M (BatcherChannel.t C) A) s1 r1 s2, on_current m s1 = (r1, s2) -> channelQueue s2 = channelQueue s1).
  { intros A m s1 r1 s2. unfold on_current, bind, get. destruct (currentChannel s1); [|by intros [= _ <-]].
    unfold on_channel. destruct (heap s1 !! _); [|by intros [= _ <-]]. destruct (m _). by intros [= _ <-]. }
  assert (Hloop : forall r1 s1, close_loop 0 (sl_len (channelQueue s)) s0 = (r1, s1) -> q ∈ sl_elems (channelQueue s1)).
  { intros r1 s1. destruct (sl_len (channelQueue s)) as [|n] eqn:En; [lia|]. cbn [close_loop].
    unfold bind at 1, get. change (channelQueue s0) with (channelQueue s). rewrite Harr. cbn [lookup list_lookup].
    unfold bind at 1. rewrite (on_channel_at a (fun c => (Ok (BatcherChannel.NoneSubmitted c), c)) s0 ca _ _ Ha eq_refl).
    rewrite Hna. replace (set_channel a ca s0) with s0 by (destruct s; unfold set_channel; cbn in *; by rewrite insert_id).
    unfold bind at 1, modify.
    assert (Hrem : channelQueue (removePendingChannel a s0) = sl_remove (channelQueue s) 0).
    { unfold removePendingChannel.
      assert (Hf : list_find (eq a) (sl_elems (channelQueue s)) = Some (0%nat, a)).
      { unfold sl_elems. rewrite Harr, En. cbn. by rewrite decide_True. }
      case_if; cbn; by rewrite Hf. }
    intros Hl. apply list_elem_of_lookup_2 with 0%nat.
    eapply close_loop_passes; [| | | |exact Hl]; rewrite ?Hrem; [lia| | |].
    - rewrite sl_remove_array by (rewrite ?Harr, ?En; cbn; lia). rewrite Harr. cbn. lia.
    - unfold sl_remove, sl_elems. cbn. rewrite Harr, En. cbn. by destruct n; [lia|].
    - intros k Hk Hkq. unfold sl_remove, sl_elems in Hkq. cbn in Hkq. rewrite Harr, En in Hkq. cbn in Hkq.
      rewrite Nat.sub_0_r in Hkq. destruct n as [|n]; [lia|]. cbn in Hkq. destruct k as [|k]; [lia|].
      apply Hrest. cbn in Hkq. apply lookup_app_Some in Hkq as [[Hkq _]%lookup_take_Some|[_ Hkq]].
      + by eapply list_elem_of_lookup_2.
      + destruct n as [|n]; [lia|]. cbn in Hkq. rewrite lookup_drop in Hkq. by eapply list_elem_of_lookup_2. }
  apply bind_cases in Hx as [([] & s1 & Hl & Hx)|[(e & Hl & ->)|[Hl ->]]]; apply Hloop in Hl; [|done..].
  unfold bind at 1, get in Hx. destruct (currentChannel s1); [|by injection Hx as _ <-].
  apply bind_cases in Hx as [([] & s2 & Hr & Hx)|[(e & Hr & ->)|[Hr ->]]]; apply Hqueue in Hr; [|congruence..].
  unfold outputFrames, wrapE in Hx. destruct (on_current _ s2) as [r2 s3] eqn:Ho2. injection Hx as _ <-.
  apply Hqueue in Ho2. congruence.
Qed.
End Quirks.
