(* ===== verification/BatcherExamples.v ===== *)
(** * The batcher on concrete inputs

    A batcher whose compressor is the shadow compressor over a writer that stores, with two
    small blocks: the theorems about channels apply to it. *)
From S2P Require Import Prelude GoErrors GoBytes EthTypes Geth L1Info Frame Channel Batch ChannelOut Compressor ChannelBuilder ChannelManager ChannelBuilderSpec BatcherChannelSpec ChannelManagerSpec.
#[local] Open Scope Z_scope.
Import ToyGeth.

Abbreviation toy_compressor := (ShadowCompressor.t StoredWriter.t).
#[export] Instance toy_compressor_ops : Compressor toy_compressor := ShadowCompressor.compressor 40 4.
#[export] Instance toy_compressor_lawful : LawfulCompressor toy_compressor := ShadowCompressor.lawful 40 4.
#[export] Instance toy_compressor_faithful : FaithfulCompressor toy_compressor Some :=
  ShadowCompressor.faithful 40 4 Some.

(** Encodings of batches, short enough to follow. *)
Definition toy_rlp_batch (b : BatchV1) : result Data :=
  Ok (be_encode 2 (b_Timestamp b) ++ concat (b_Transactions b)).
Definition toy_rlp_bytes (d : Data) : result Data := Ok (Byte.x80 :: d).

Definition toy_l1_info : L1BlockInfo := mkL1BlockInfo 5 60 9 105 2 7 0 0.
Definition toy_l1_data : Data :=
  match L1BlockInfo_MarshalBinary toy_l1_info with Ok data => data | _ => [] end.
Definition toy_block (h : Hash) (user : Data) : Block :=
  mkBlock h (h - 1) h (h * 2)
    [ mkBlockTx (mkTransaction (Z_of_byte DepositTxType) toy_l1_data) (Ok []);
      mkBlockTx (mkTransaction 2 user) (Ok user) ].
Definition toy_cfg : ChannelConfig := mkChannelConfig 3600 40 10 4 40.

(** A channel is filled with two blocks and closed; its three transactions are sent, one of
    them twice, and all are confirmed. *)
Definition toy_block1 : Block := toy_block 8 (repeat Byte.x0a 10).
Definition toy_block2 : Block := toy_block 9 (repeat Byte.x0b 20).
Definition toy_writer : toy_compressor := ShadowCompressor.new ([], []) ([], []).
Definition toy_channel : BatcherChannel.t toy_compressor :=
  BatcherChannel.mk (ChannelBuilder.mk 0 None None (ChannelOut.mk 7 0 0 toy_writer false) [] [] 0 0) ∅ ∅.
Abbreviation toy_run := (chan_run toy_rlp_batch toy_rlp_bytes toy_cfg).
Definition toy_filling : list chan_op :=
  [OpL1Block 100; OpBlock toy_block1; OpFrames 5; OpBlock toy_block2; OpTerminate].
Definition toy_filled : BatcherChannel.t toy_compressor * list txData :=
  toy_run (toy_channel, []) toy_filling.
Definition toy_cut : BatcherChannel.t toy_compressor :=
  (BatcherChannel.OutputFrames toy_cfg 60 toy_filled.1).2.
Definition toy_frame_id (n : Z) : txID := mkFrameID 7 n.
Definition toy_submitting : list chan_op :=
    [OpNextTx; OpNextTx; OpFailed (toy_frame_id 0); OpNextTx; OpConfirmed (toy_frame_id 1) (mkBlockID 1 101);
     OpConfirmed (toy_frame_id 2) (mkBlockID 1 102); OpNextTx; OpConfirmed (toy_frame_id 0) (mkBlockID 1 103)].
Definition toy_submitted : BatcherChannel.t toy_compressor * list txData :=
  toy_run (toy_cut, toy_filled.2) toy_submitting.

Lemma toy_filled_eq : toy_run (toy_channel, []) toy_filling = (toy_filled.1, toy_filled.2).
Proof. vm_compute. reflexivity. Qed.
Lemma toy_submitted_eq :
  toy_run (toy_cut, toy_filled.2) toy_submitting = (toy_submitted.1, toy_submitted.2).
Proof. vm_compute. reflexivity. Qed.


Lemma toy_writer_fresh : fresh_compressor Some toy_writer.
Proof. by repeat split. Qed.

Lemma toy_reaches s sent ops :
  toy_run (toy_channel, []) ops = (s, sent) -> reaches Some toy_rlp_batch toy_rlp_bytes toy_cfg 7 s sent.
Proof. intros R. exists toy_writer, toy_channel, ops. split_and!; [apply toy_writer_fresh|done|exact R]. Qed.

Lemma submitted_channel_readable_witness :
  BatcherChannel.isFullySubmitted toy_submitted.1 = true /\
  exists fs encs,
    (forall f, f ∈ fs -> frame_tx f ∈ toy_submitted.2 /\
       is_Some (BatcherChannel.confirmedTransactions toy_submitted.1 !! frame_id f)) /\
    readable 7 fs (chan_out Some toy_submitted.1) /\
    Forall2 (encodes toy_rlp_batch toy_rlp_bytes)
      (ChannelBuilder.Blocks (BatcherChannel.builder toy_submitted.1)) encs /\
    Some (chan_out Some toy_submitted.1) = Some (concat encs).
Proof.
  assert (Hsub : BatcherChannel.isFullySubmitted toy_submitted.1 = true) by (vm_compute; reflexivity).
  assert (Hcut : BatcherChannel.OutputFrames toy_cfg 60 toy_filled.1 = (Ok (Some tt), toy_cut))
    by (vm_compute; reflexivity).
  assert (Hfull : BatcherChannel.IsFull toy_filled.1 = true) by (vm_compute; reflexivity).
  assert (Hsmall : small Some toy_submitted.1) by (split; vm_compute; congruence).
  split; [exact Hsub|].
  exact (submitted_channel_readable Some toy_rlp_batch toy_rlp_bytes toy_cfg toy_writer 7 toy_channel
    toy_filling toy_filled.1 toy_filled.2 60 toy_cut toy_submitting toy_submitted.1 toy_submitted.2 toy_writer_fresh eq_refl ltac:(lia) ltac:(vm_compute; split; congruence)
    toy_filled_eq Hfull Hcut toy_submitted_eq Hsub Hsmall).
Defined.

Lemma frames_are_put_out_witness :
  (length (closed_out Some (BatcherChannel.builder toy_filled.1)) < 60)%nat /\
  (BatcherChannel.OutputFrames toy_cfg 60 toy_filled.1).1 = Ok (Some tt).
Proof.
  assert (Hf : (length (closed_out Some (BatcherChannel.builder toy_filled.1)) < 60)%nat)
    by (apply Nat.ltb_lt; vm_compute; reflexivity).
  split; [exact Hf|].
  exact (frames_are_put_out Some toy_rlp_batch toy_rlp_bytes toy_cfg 7 toy_filled.1 toy_filled.2 60
    (toy_reaches _ _ _ toy_filled_eq) ltac:(split; vm_compute; congruence)
    ltac:(vm_compute; split; congruence) ltac:(vm_compute; reflexivity) ltac:(vm_compute; reflexivity) Hf).
Defined.

(** The same channel with frames of 23 bytes. *)
Definition toy_cfg23 : ChannelConfig := mkChannelConfig 3600 40 10 4 23.
Definition toy_filling23 : list chan_op := [OpL1Block 100; OpBlock toy_block1; OpTerminate].
Definition toy_filled23 : BatcherChannel.t toy_compressor * list txData :=
  chan_run toy_rlp_batch toy_rlp_bytes toy_cfg23 (toy_channel, []) toy_filling23.

Lemma empty_frames_hang_witness :
  ChannelConfig_Check toy_cfg23 = None /\
  (BatcherChannel.OutputFrames toy_cfg23 1000 toy_filled23.1).1 = Ok None.
Proof.
  assert (Hr : reaches Some toy_rlp_batch toy_rlp_bytes toy_cfg23 7 toy_filled23.1 toy_filled23.2).
  { exists toy_writer, toy_channel, toy_filling23. split_and!; [apply toy_writer_fresh|done|].
    vm_compute. reflexivity. }
  exact (empty_frames_hang Some toy_rlp_batch toy_rlp_bytes toy_cfg23 7 toy_filled23.1 toy_filled23.2 1000
    Hr ltac:(split; vm_compute; congruence) eq_refl ltac:(vm_compute; congruence)
    ltac:(vm_compute; reflexivity) ltac:(vm_compute; reflexivity) ltac:(vm_compute; reflexivity)).
Defined.

(** A channel with a transaction pending, one queued and one confirmed. *)
Definition toy_sends : list chan_op :=
  [OpL1Block 100; OpBlock toy_block1; OpBlock toy_block2; OpTerminate; OpFrames 60; OpNextTx; OpNextTx;
   OpConfirmed (toy_frame_id 0) (mkBlockID 1 101)].
Definition toy_sending : BatcherChannel.t toy_compressor * list txData :=
  toy_run (toy_channel, []) toy_sends.

Lemma toy_sending_eq : toy_run (toy_channel, []) toy_sends = (toy_sending.1, toy_sending.2).
Proof. vm_compute. reflexivity. Qed.

Lemma no_frame_is_lost_witness :
  BatcherChannel.TotalFrames toy_sending.1 = 3 /\
  (exists fs, Z.of_nat (length fs) = BatcherChannel.TotalFrames toy_sending.1 /\ NoDup (frame_id <$> fs) /\
    forall f, f ∈ fs ->
      as_data f ∈ ChannelBuilder.frames (BatcherChannel.builder toy_sending.1) \/
      BatcherChannel.pendingTransactions toy_sending.1 !! frame_id f = Some (frame_tx f) \/
      frame_tx f ∈ toy_sending.2 /\
      is_Some (BatcherChannel.confirmedTransactions toy_sending.1 !! frame_id f)).
Proof.
  assert (Hn : BatcherChannel.TotalFrames toy_sending.1 = 3) by (vm_compute; reflexivity).
  split; [exact Hn|].
  exact (proj1 (no_frame_is_lost Some toy_rlp_batch toy_rlp_bytes toy_cfg 7 toy_sending.1 toy_sending.2 (toy_frame_id 1)
    (toy_reaches _ _ _ toy_sending_eq) ltac:(split; vm_compute; congruence)
    ltac:(vm_compute; split; congruence))).
Defined.

(** ** The manager *)
#[export] Instance toy_rand : Rand Z := {| rand_Read := fun z => (Ok z, z + 1) |}.
Abbreviation toy_manager := (ChannelManager.t toy_compressor Z).
Abbreviation toy_mgr_run := (mgr_run toy_rlp_batch toy_rlp_bytes toy_cfg (Ok toy_writer)).
Definition toy_new_manager : toy_manager := ChannelManager.new 7.

(** Two blocks are added and put into a channel that stays open. *)
Definition toy_adding : list mgr_op :=
  [MgrAddL2Block toy_block1; MgrTxData 60 (mkBlockID 1 100); MgrAddL2Block toy_block2; MgrAddL2Block toy_block1].
Definition toy_added : toy_manager * list Block := toy_mgr_run (toy_new_manager, []) toy_adding.

Lemma toy_added_eq : toy_mgr_run (toy_new_manager, []) toy_adding = (toy_added.1, toy_added.2).
Proof. vm_compute. reflexivity. Qed.

Lemma no_block_is_lost_witness :
  toy_added.2 = [toy_block1; toy_block2] /\
  (toy_block1 ∈ ChannelManager.blocks toy_added.1 \/
   exists p c, ChannelManager.heap toy_added.1 !! p = Some c /\
     toy_block1 ∈ ChannelBuilder.Blocks (BatcherChannel.builder c) /\
     (p ∈ sl_elems (ChannelManager.channelQueue toy_added.1) \/ BatcherChannel.isFullySubmitted c = true)).
Proof.
  assert (Hadded : toy_added.2 = [toy_block1; toy_block2]) by (vm_compute; reflexivity).
  assert (Hopen : ChannelManager.closed toy_added.1 = false) by (vm_compute; reflexivity).
  assert (Hin : toy_block1 ∈ toy_added.2) by (rewrite Hadded; left).
  split; [exact Hadded|].
  exact (no_block_is_lost toy_rlp_batch toy_rlp_bytes toy_cfg (Ok toy_writer) 7 toy_adding _ _ _ toy_added_eq Hopen Hin).
Defined.

(** A channel whose transactions were included too far apart. *)
Definition toy_late : BatcherChannel.t toy_compressor := (toy_run (toy_cut, toy_filled.2)
  [OpNextTx; OpNextTx; OpNextTx; OpConfirmed (toy_frame_id 0) (mkBlockID 1 100)]).1.
Definition toy_late_manager : toy_manager :=
  ChannelManager.mk [toy_block2] 0 {[ 1%nat := toy_late ]} (Some 1%nat) (mkSlice [1%nat] 1)
    (<[toy_frame_id 1 := 1%nat]> {[ toy_frame_id 2 := 1%nat ]}) false 7.

Lemma timed_out_blocks_queued_twice_witness :
  let s1 := (ChannelManager.TxConfirmed toy_cfg (toy_frame_id 1) (mkBlockID 1 140) toy_late_manager).2 in
  let again := ChannelBuilder.Blocks (BatcherChannel.builder toy_late) in
  ChannelManager.blocks s1 = again ++ [toy_block2] /\
  ChannelManager.blocks (ChannelManager.TxConfirmed toy_cfg (toy_frame_id 2) (mkBlockID 1 141) s1).2 =
    again ++ again ++ [toy_block2].
Proof.
  assert (Htx1 : ChannelManager.txChannels toy_late_manager !! toy_frame_id 1 = Some 1%nat) by (vm_compute; reflexivity).
  assert (Htx2 : ChannelManager.txChannels toy_late_manager !! toy_frame_id 2 = Some 1%nat) by (vm_compute; reflexivity).
  assert (Hc : ChannelManager.heap toy_late_manager !! 1%nat = Some toy_late) by reflexivity.
  assert (is_Some (BatcherChannel.pendingTransactions toy_late !! toy_frame_id 1)) as [td1 Hp1] by (vm_compute; eauto).
  assert (is_Some (BatcherChannel.pendingTransactions toy_late !! toy_frame_id 2)) as [td2 Hp2] by (vm_compute; eauto).
  assert (Hn1 : BatcherChannel.confirmedTransactions toy_late !! toy_frame_id 1 = None) by (vm_compute; reflexivity).
  assert (Hn2 : BatcherChannel.confirmedTransactions toy_late !! toy_frame_id 2 = None) by (vm_compute; reflexivity).
  assert (Hnums : confirmed_numbers toy_late = [100]) by (vm_compute; reflexivity).
  assert (Hnum : Forall (fun n => 0 <= n < two64) (confirmed_numbers toy_late))
    by (rewrite Hnums; constructor; [unfold two64; lia|constructor]).
  assert (Hto : BatcherChannel.isTimedOut toy_cfg
    (BatcherChannel.TxConfirmed toy_cfg (toy_frame_id 1) (mkBlockID 1 140) toy_late).2 = true) by (vm_compute; reflexivity).
  exact (timed_out_blocks_queued_twice toy_cfg (toy_frame_id 1) (toy_frame_id 2) td1 td2 (mkBlockID 1 140)
    (mkBlockID 1 141) toy_late_manager 1 toy_late Htx1 Htx2 ltac:(discriminate) Hc Hp1 Hp2 Hn1 Hn2 Hnum
    ltac:(unfold two64; cbn; lia) ltac:(unfold two64; cbn; lia) Hto).
Defined.

(** Three channels none of which was submitted. *)
Definition toy_three : toy_manager :=
  ChannelManager.mk [] 0 (<[1%nat := toy_cut]> (<[2%nat := toy_cut]> {[ 3%nat := toy_filled.1 ]})) (Some 3%nat)
    (mkSlice [1; 2; 3]%nat 3) ∅ false 7.

Lemma close_keeps_unsubmitted_witness :
  BatcherChannel.NoneSubmitted toy_cut = true /\
  2%nat ∈ sl_elems (ChannelManager.channelQueue (ChannelManager.Close toy_cfg 60 toy_three).2).
Proof.
  assert (Hnone : BatcherChannel.NoneSubmitted toy_cut = true) by (vm_compute; reflexivity).
  assert (Ha : ChannelManager.heap toy_three !! 1%nat = Some toy_cut) by (vm_compute; reflexivity).
  assert (Hq : ChannelManager.heap toy_three !! 2%nat = Some toy_cut) by (vm_compute; reflexivity).
  split; [exact Hnone|].
  assert (Ho : ChannelManager.closed toy_three = false) by (vm_compute; reflexivity).
  assert (Harr : sl_array (ChannelManager.channelQueue toy_three) = [1; 2; 3]%nat) by (vm_compute; reflexivity).
  assert (Hlen : (3 <= sl_len (ChannelManager.channelQueue toy_three) <= 3)%nat) by (cbn; lia).
  assert (Hin : 2%nat ∉ [3%nat]) by (rewrite list_elem_of_singleton; lia).
  assert (Hne : 1%nat <> 2%nat) by lia.
  set (res := ChannelManager.Close toy_cfg 60 toy_three).
  assert (Hclose : ChannelManager.Close toy_cfg 60 toy_three = (res.1, res.2)) by apply surjective_pairing.
  exact (close_keeps_unsubmitted toy_cfg toy_three 60 1 2 [3%nat] toy_cut toy_cut res.1 res.2 Ho Harr Hlen
    Hne Hin Ha Hq Hnone Hnone Hclose).
Defined.

(** ** Closing by force *)
Definition toy_l1 : L1BlockRef := mkL1BlockRef 5 100 4 600.
Definition toy_sent_frames : list Frame := [mkFrame 7 3 [Byte.x03] true; mkFrame 7 0 [Byte.x01] false].
Definition toy_known : Channel := (AddFrames toy_sent_frames toy_l1 (NewChannel 7 toy_l1)).2.

Lemma force_close_completes_witness :
  exists extra ch',
    ForceCloseTxData 10 toy_sent_frames =
      Ok (Some (DerivationVersion0 :: concat (MarshalBinary <$> extra))) /\
    Forall frame_wf extra /\ AddFrames extra toy_l1 toy_known = (Ok tt, ch') /\ IsReady ch' = true.
Proof.
  assert (Ha : AddFrames toy_sent_frames toy_l1 (NewChannel 7 toy_l1) = (Ok tt, toy_known)) by (vm_compute; reflexivity).
  assert (Hwf : Forall frame_wf toy_sent_frames).
  { unfold toy_sent_frames, frame_wf, MaxFrameLen. repeat (constructor; [cbn; lia|]). constructor. }
  assert (Hc : ch_closed toy_known = true) by (vm_compute; reflexivity).
  assert (He : ch_endFrameNumber toy_known = 3) by (vm_compute; reflexivity).
  exact (force_close_completes 10 toy_sent_frames toy_l1 toy_l1 toy_known 7 Ha Hwf Hc
    ltac:(rewrite He; lia) ltac:(rewrite He; lia)).
Defined.

Definition toy_open_frames : list Frame := [mkFrame 7 0 [Byte.x01] false; mkFrame 7 1 [Byte.x02] false].
Definition toy_open : Channel := (AddFrames toy_open_frames toy_l1 (NewChannel 7 toy_l1)).2.

Lemma force_close_open_fails_witness :
  exists f,
    ForceCloseTxData 10 toy_open_frames = Ok (Some (DerivationVersion0 :: MarshalBinary f)) /\
    ParseFrames (DerivationVersion0 :: MarshalBinary f) = Ok [f] /\
    AddFrame f toy_l1 toy_open = (Err DuplicateErr, toy_open) /\ ch_closed toy_open = false /\ IsReady toy_open = false.
Proof.
  assert (Ha : AddFrames toy_open_frames toy_l1 (NewChannel 7 toy_l1) = (Ok tt, toy_open)) by (vm_compute; reflexivity).
  assert (Hne : toy_open_frames <> []) by discriminate.
  assert (Hwf : Forall frame_wf toy_open_frames).
  { unfold toy_open_frames, frame_wf, MaxFrameLen. repeat (constructor; [cbn; lia|]). constructor. }
  assert (Hlast : Forall (fun f => IsLast f = false) toy_open_frames) by (repeat constructor).
  assert (Hz : 0 ∈ FrameNumber <$> toy_open_frames) by (vm_compute; left).
  exact (force_close_open_fails 10 toy_open_frames toy_l1 toy_l1 toy_open 7 Ha Hne Hwf Hlast Hz).
Defined.

Lemma force_close_max_frame_hangs_witness :
  ForceCloseTxData 1000 [mkFrame 7 65535 [] true] = Ok None.
Proof.
  apply (force_close_max_frame_hangs 1000 [mkFrame 7 65535 [] true] 7); [discriminate|by repeat constructor|done|].
  by intros f ->%list_elem_of_singleton.
Defined.
