(* ===== verification/Txmgr.v ===== *)
(** * The transaction manager

    [op-service/txmgr]: [txmgr.go], [send_state.go], the checks of [cli.go], and
    [op-service/retry/operation.go].  A transaction is created with the fees of the market
    and the next nonce, published, and published again with higher fees until one of its
    versions is confirmed.  The backend, the signer and the clock are operations over an
    environment; the goroutines of [sendTx] are a step relation. *)
From S2P Require Import Prelude GoErrors GoBytes EthTypes Geth.
#[local] Open Scope Z_scope.

(** ** Fees *)
Definition priceBump : Z := 10.
Definition feeLimitMultiplier : Z := 5.
Definition priceBumpPercent : Z := 100 + priceBump.
Definition oneHundred : Z := 100.

Definition calcGasFeeCap (baseFee gasTipCap : Z) : Z := gasTipCap + baseFee * 2.

(** [big.Int.Div] by a positive number rounds down. *)
Definition calcThresholdValue (x : Z) : Z := priceBumpPercent * x / oneHundred.

Definition updateFees (oldTip oldFeeCap newTip newBaseFee : Z) : Z * Z :=
  let newFeeCap := calcGasFeeCap newBaseFee newTip in
  let thresholdTip := calcThresholdValue oldTip in
  let thresholdFeeCap := calcThresholdValue oldFeeCap in
  if (thresholdTip <=? newTip) && (thresholdFeeCap <=? newFeeCap) then (newTip, newFeeCap)
  else if (thresholdTip <=? newTip) && (newFeeCap <? thresholdFeeCap) then (newTip, thresholdFeeCap)
  else if (newTip <? thresholdTip) && (thresholdFeeCap <=? newFeeCap) then
    (thresholdTip, calcGasFeeCap newBaseFee thresholdTip)
  else (thresholdTip, thresholdFeeCap).

(** The new fees of [increaseGasPrice]: those of [updateFees], each capped. *)
Definition bumpFees (oldTip oldFeeCap tip basefee : Z) : Z * Z :=
  let '(bumpedTip, bumpedFee) := updateFees oldTip oldFeeCap tip basefee in
  let maxTip := tip * feeLimitMultiplier in
  let bumpedTip := if maxTip <? bumpedTip then maxTip else bumpedTip in
  let maxFee := calcGasFeeCap (basefee * feeLimitMultiplier) maxTip in
  let bumpedFee := if maxFee <? bumpedFee then maxFee else bumpedFee in
  (bumpedTip, bumpedFee).

(** ** The state of a publication ([send_state.go]) *)
Record SendState := mkSendState {
  ss_minedTxs : gset Hash;
  ss_nonceTooLowCount : Z;
  ss_txInMempoolDeadline : Z;
  ss_successFullPublishCount : Z;
  ss_safeAbortNonceTooLowCount : Z }.

(** The text of an error, which other packages determine. *)
Class ErrorText := {
  Error : error -> string;
  ErrNonceTooLow : string }.

Definition strings_Contains (s substr : string) : bool :=
  match String.index 0 substr s with Some _ => true | None => false end.

(** [NewSendState], with the time of the call. *)
Definition NewSendState (safeAbortNonceTooLowCount unableToSendTimeout now : Z) : result SendState :=
  if safeAbortNonceTooLowCount =? 0 then Panic
  else Ok (mkSendState ∅ 0 (now + unableToSendTimeout) 0 safeAbortNonceTooLowCount).

Section SendState.
Context `{ErrorText}.

Definition ProcessSendError (err : option error) (s : SendState) : SendState :=
  match err with
  | None => mkSendState (ss_minedTxs s) (ss_nonceTooLowCount s) (ss_txInMempoolDeadline s)
              (ss_successFullPublishCount s +u 1) (ss_safeAbortNonceTooLowCount s)
  | Some e =>
      if strings_Contains (Error e) ErrNonceTooLow then
        mkSendState (ss_minedTxs s) (ss_nonceTooLowCount s +u 1) (ss_txInMempoolDeadline s)
          (ss_successFullPublishCount s) (ss_safeAbortNonceTooLowCount s)
      else s
  end.

Definition TxMined (txHash : Hash) (s : SendState) : SendState :=
  mkSendState ({[txHash]} ∪ ss_minedTxs s) (ss_nonceTooLowCount s) (ss_txInMempoolDeadline s)
    (ss_successFullPublishCount s) (ss_safeAbortNonceTooLowCount s).

Definition TxNotMined (txHash : Hash) (s : SendState) : SendState :=
  let wasMined := bool_decide (txHash ∈ ss_minedTxs s) in
  let minedTxs := ss_minedTxs s ∖ {[txHash]} in
  mkSendState minedTxs
    (if Nat.eqb (size minedTxs) 0 && wasMined then 0 else ss_nonceTooLowCount s)
    (ss_txInMempoolDeadline s) (ss_successFullPublishCount s) (ss_safeAbortNonceTooLowCount s).

Definition IsWaitingForConfirmation (s : SendState) : bool := Nat.ltb 0 (size (ss_minedTxs s)).

Definition ShouldAbortImmediately (now : Z) (s : SendState) : bool :=
  if Nat.ltb 0 (size (ss_minedTxs s)) then false
  else
    (ss_safeAbortNonceTooLowCount s <=? ss_nonceTooLowCount s) ||
    ((ss_successFullPublishCount s =? 0) && (ss_txInMempoolDeadline s <? now)).
End SendState.

(** ** Transactions and the backend *)
Record TxCandidate := mkCandidate {
  tc_TxData : Data;
  tc_To : option Address;
  tc_GasLimit : Z;
  tc_Value : option Z }.

(** [types.DynamicFeeTx] as [types.NewTx] copies it: a nil value is zero. *)
Record DynamicFeeTx := mkDynamicFeeTx {
  dt_ChainID : Z;
  dt_Nonce : Z;
  dt_GasTipCap : Z;
  dt_GasFeeCap : Z;
  dt_Gas : Z;
  dt_To : option Address;
  dt_Value : Z;
  dt_Data : Data;
  dt_AccessList : list (Address * list Hash) }.

(** A transaction and its signature. *)
Record SignedTx := mkSignedTx { st_tx : DynamicFeeTx; st_signature : Data }.

Record CallMsg := mkCallMsg {
  cm_From : Address;
  cm_To : option Address;
  cm_GasFeeCap : Z;
  cm_GasTipCap : Z;
  cm_Data : Data;
  cm_Value : option Z }.

(** What is read of a receipt. *)
Record MinedReceipt := mkMinedReceipt {
  mr_TxHash : Hash;
  mr_BlockHash : Hash;
  mr_BlockNumber : Z }.

(** [Config], without the backend and the signer. *)
Record TxConfig := mkTxConfig {
  xc_ResubmissionTimeout : Z;
  xc_ChainID : option Z;
  xc_TxSendTimeout : Z;
  xc_TxNotInMempoolTimeout : Z;
  xc_NetworkTimeout : Z;
  xc_ReceiptQueryInterval : Z;
  xc_NumConfirmations : Z;
  xc_SafeAbortNonceTooLowCount : Z;
  xc_From : Address }.

(** [Config.Check], given whether there are a backend and a signer. *)
Definition TxConfig_Check (Backend Signer : bool) (m : TxConfig) : result unit :=
  if negb Backend then Err (ErrNew "must provide the Backend")
  else if xc_NumConfirmations m =? 0 then Err (ErrNew "NumConfirmations must not be 0")
  else if xc_NetworkTimeout m =? 0 then Err (ErrNew "must provide NetworkTimeout")
  else if xc_ResubmissionTimeout m =? 0 then Err (ErrNew "must provide ResubmissionTimeout")
  else if xc_ReceiptQueryInterval m =? 0 then Err (ErrNew "must provide ReceiptQueryInterval")
  else if xc_TxNotInMempoolTimeout m =? 0 then Err (ErrNew "must provide TxNotInMempoolTimeout")
  else if xc_SafeAbortNonceTooLowCount m =? 0 then Err (ErrNew "SafeAbortNonceTooLowCount must not be 0")
  else if negb Signer then Err (ErrNew "must provide the Signer")
  else match xc_ChainID m with
       | None => Err (ErrNew "must provide the ChainID")
       | Some _ => Ok tt
       end.

(** [ETHBackend], of the head only its base fee; the signer, the hash of a transaction
    and the clock; and whether the context of the caller has ended. *)
Class ETHBackend (E : Type) := {
  SuggestGasTipCap : M E (option Z);
  HeaderByNumber : M E (option Z);
  NonceAt : Address -> M E Z;
  EstimateGas : CallMsg -> M E Z;
  SendTransaction : SignedTx -> M E unit;
  TransactionReceipt : Hash -> M E (option MinedReceipt);
  BlockNumber : M E Z;
  Signer : Address -> DynamicFeeTx -> M E SignedTx;
  tx_Hash : SignedTx -> Hash;
  time_Now : M E Z;
  ctx_Err : M E (option error) }.

(** ** [retry.Do]

    The pauses between the attempts are omitted. *)
Section Retry.
Context {S T : Type} (ctxErr : M S (option error)) (op : M S T).

Fixpoint Do_loop (attempts : nat) (last : error) : M S T :=
  match attempts with
  | O => throw (ErrWrap "operation failed permanently" last)
  | Datatypes.S n =>
      c <- ctxErr ;;
      match c with
      | Some e => throw e
      | None =>
          r <- attempt op ;;
          match r with
          | inl ret_ => ret ret_
          | inr err => Do_loop n err
          end
      end
  end.
Definition retry_Do (maxAttempts : nat) : M S T :=
  if Nat.ltb maxAttempts 1 then throw (ErrNew "need at least 1 attempt to run op")
  else Do_loop maxAttempts (ErrNew "").
End Retry.

(** ** [SimpleTxManager] *)
Record SimpleTxManager (E : Type) := mkManager {
  tm_nonce : option Z;
  tm_pending : Z;
  tm_env : E }.
Arguments mkManager {E} _ _ _.
Arguments tm_nonce {E} _.
Arguments tm_pending {E} _.
Arguments tm_env {E} _.

Section Manager.
Context {E : Type} `{ETHBackend E} `{ErrorText}.
Context (cfg : TxConfig).

Definition on_backend {A} (m : M E A) : M (SimpleTxManager E) A :=
  zoom tm_env (fun e s => mkManager (tm_nonce s) (tm_pending s) e) m.

Definition suggestGasPriceCaps : M E (Z * Z) :=
  tip <- wrapE (ErrWrap "failed to fetch the suggested gas tip cap") SuggestGasTipCap ;;
  match tip with
  | None => throw (ErrNew "the suggested tip was nil")
  | Some tip =>
      head <- wrapE (ErrWrap "failed to fetch the suggested basefee") HeaderByNumber ;;
      match head with
      | None => throw (ErrNew "txmgr does not support pre-london blocks that do not have a basefee")
      | Some baseFee => ret (tip, baseFee)
      end
  end.

Definition set_nonce (n : option Z) : M (SimpleTxManager E) unit :=
  modify (fun s => mkManager n (tm_pending s) (tm_env s)).

Definition nextNonce : M (SimpleTxManager E) Z :=
  s <- get ;;
  match tm_nonce s with
  | None =>
      nonce <- wrapE (ErrWrap "failed to get nonce") (on_backend (NonceAt (xc_From cfg))) ;;
      set_nonce (Some nonce) ;;;
      ret nonce
  | Some n =>
      set_nonce (Some (n +u 1)) ;;;
      ret (n +u 1)
  end.

Definition resetNonce : M (SimpleTxManager E) unit := set_nonce None.

Definition craftTx (candidate : TxCandidate) : M (SimpleTxManager E) SignedTx :=
  fees <- wrapE (ErrWrap "failed to get gas price info") (on_backend suggestGasPriceCaps) ;;
  let '(gasTipCap, basefee) := fees in
  let gasFeeCap := calcGasFeeCap basefee gasTipCap in
  nonce <- nextNonce ;;
  gas <- (if negb (tc_GasLimit candidate =? 0) then ret (tc_GasLimit candidate)
          else wrapE (ErrWrap "failed to estimate gas")
                 (on_backend (EstimateGas (mkCallMsg (xc_From cfg) (tc_To candidate) gasFeeCap gasTipCap
                                             (tc_TxData candidate) (tc_Value candidate))))) ;;
  on_backend (Signer (xc_From cfg)
    (mkDynamicFeeTx (default 0 (xc_ChainID cfg)) nonce gasTipCap gasFeeCap gas (tc_To candidate)
       (default 0 (tc_Value candidate)) (tc_TxData candidate) [])).

(** The first part of [send]: the transaction, created in at most 30 attempts. *)
Definition createTx (candidate : TxCandidate) : M (SimpleTxManager E) SignedTx :=
  wrapE (ErrWrap "failed to create the tx") (retry_Do (on_backend ctx_Err) (craftTx candidate) 30).

(** The signer's error is only logged: the old transaction is published again.  The call
    for the gas estimate has the two fees in each other's place. *)
Definition increaseGasPrice (tx : SignedTx) : M E SignedTx :=
  fees <- suggestGasPriceCaps ;;
  let '(tip, basefee) := fees in
  let old := st_tx tx in
  let '(bumpedTip, bumpedFee) := bumpFees (dt_GasTipCap old) (dt_GasFeeCap old) tip basefee in
  gas <- EstimateGas (mkCallMsg (xc_From cfg) (dt_To old) bumpedTip bumpedFee (dt_Data old) None) ;;
  newTx <- attempt (Signer (xc_From cfg)
    (mkDynamicFeeTx (dt_ChainID old) (dt_Nonce old) bumpedTip bumpedFee gas (dt_To old)
       (dt_Value old) (dt_Data old) (dt_AccessList old))) ;;
  match newTx with
  | inr _ => ret tx
  | inl newTx => ret newTx
  end.

(** ** Waiting for a receipt

    [queryReceipt] in two parts, with a call of the backend each: the receipt, which the
    state of the publication is told of, and the height of the chain. *)
Definition query_mined (txHash : Hash) : M (E * SendState) (option MinedReceipt) :=
  r <- attempt (zoom fst (fun e s => (e, s.2)) (TransactionReceipt txHash)) ;;
  match r with
  | inr err =>
      if errors_Is err NotFound then
        modify (fun s => (s.1, TxNotMined txHash s.2)) ;;;
        ret None
      else ret None
  | inl None => ret None
  | inl (Some receipt) =>
      modify (fun s => (s.1, TxMined txHash s.2)) ;;;
      ret (Some receipt)
  end.
Definition query_confirmed (receipt : MinedReceipt) : M E (option MinedReceipt) :=
  let txHeight := u64 (mr_BlockNumber receipt) in
  r <- attempt BlockNumber ;;
  match r with
  | inr _ => ret None
  | inl tipHeight =>
      if txHeight +u xc_NumConfirmations cfg <=? tipHeight +u 1 then ret (Some receipt) else ret None
  end.
Definition queryReceipt (txHash : Hash) : M (E * SendState) (option MinedReceipt) :=
  r <- query_mined txHash ;;
  match r with
  | None => ret None
  | Some receipt => zoom fst (fun e s => (e, s.2)) (query_confirmed receipt)
  end.

(** ** [sendTx]

    The loop: at its select; at the two looks at the state of the publication after a
    tick; about to raise the fees; at the last look, with the new transaction; returned. *)
Inductive send_loop :=
  | Selecting
  | Ticked
  | Unmined
  | Bumping
  | Bumped (newTx : SignedTx)
  | Returned (r : result MinedReceipt).

(** A goroutine of [publishAndWaitForTx] and its transaction: about to publish, waiting in
    [waitMined], in [queryReceipt] with a receipt, about to hand the receipt over, or
    ended, with the error of the publication or with whether a receipt was handed over. *)
Inductive publisher :=
  | Publishing (tx : SignedTx)
  | Polling (tx : SignedTx)
  | Confirming (tx : SignedTx) (receipt : MinedReceipt)
  | Delivering (tx : SignedTx) (receipt : MinedReceipt)
  | Ended (tx : SignedTx) (outcome : bool + error).

Record sending := mkSending {
  sd_state : SendState;
  sd_receiptChan : option MinedReceipt;
  sd_ctx : option error;
  sd_tx : SignedTx;
  sd_bumpCounter : Z;
  sd_loop : send_loop;
  sd_publishers : list publisher }.

(** [sendTx] up to the loop. *)
Definition start_sending (tx : SignedTx) : M E sending :=
  now <- time_Now ;;
  sendState <- lift (NewSendState (xc_SafeAbortNonceTooLowCount cfg) (xc_TxNotInMempoolTimeout cfg) now) ;;
  ret (mkSending sendState None None tx 0 Selecting [Publishing tx]).

(** The end of the context, and the end of the call, which cancels its context. *)
Definition cancel (err : error) (ctx : option error) : option error := Some (default err ctx).
Definition Canceled : error := ErrNew "context canceled".
Definition send_returns (r : result MinedReceipt) (s : sending) : sending :=
  mkSending (sd_state s) (sd_receiptChan s) (cancel Canceled (sd_ctx s)) (sd_tx s) (sd_bumpCounter s) (Returned r) (sd_publishers s).
Definition set_loop (l : send_loop) (s : sending) : sending :=
  mkSending (sd_state s) (sd_receiptChan s) (sd_ctx s) (sd_tx s) (sd_bumpCounter s) l (sd_publishers s).
Definition ErrAborted : error := ErrNew "aborted transaction sending".

(** The steps of the loop. *)
Inductive sendTx_step : E * sending -> E * sending -> Prop :=
  | loop_tick e s :
      sd_loop s = Selecting -> sendTx_step (e, s) (e, set_loop Ticked s)
  | loop_waiting e s :
      sd_loop s = Ticked ->
      sendTx_step (e, s) (e, set_loop (if IsWaitingForConfirmation (sd_state s) then Selecting else Unmined) s)
  | loop_abort e s now e' :
      sd_loop s = Unmined -> time_Now e = (Ok now, e') ->
      ShouldAbortImmediately now (sd_state s) = true ->
      sendTx_step (e, s) (e', send_returns (Err ErrAborted) s)
  | loop_go_on e s now e' :
      sd_loop s = Unmined -> time_Now e = (Ok now, e') ->
      ShouldAbortImmediately now (sd_state s) = false ->
      sendTx_step (e, s) (e', set_loop Bumping s)
  | loop_increase e s newTx e' :
      sd_loop s = Bumping -> increaseGasPrice (sd_tx s) e = (Ok newTx, e') ->
      sendTx_step (e, s) (e', set_loop (Bumped newTx) s)
  | loop_increase_error e s err e' :
      sd_loop s = Bumping -> increaseGasPrice (sd_tx s) e = (Err err, e') ->
      sendTx_step (e, s) (e', set_loop Selecting s)
  | loop_waiting_again e s newTx :
      sd_loop s = Bumped newTx -> IsWaitingForConfirmation (sd_state s) = true ->
      sendTx_step (e, s) (e, set_loop Selecting s)
  | loop_resubmit e s newTx :
      sd_loop s = Bumped newTx -> IsWaitingForConfirmation (sd_state s) = false ->
      sendTx_step (e, s) (e, mkSending (sd_state s) (sd_receiptChan s) (sd_ctx s) newTx (sd_bumpCounter s + 1)
                              Selecting (sd_publishers s ++ [Publishing newTx]))
  | loop_done e s err :
      sd_loop s = Selecting -> sd_ctx s = Some err ->
      sendTx_step (e, s) (e, send_returns (Err err) s)
  | loop_receipt e s receipt :
      sd_loop s = Selecting -> sd_receiptChan s = Some receipt ->
      sendTx_step (e, s) (e, send_returns (Ok receipt)
        (mkSending (sd_state s) None (sd_ctx s) (sd_tx s) (sd_bumpCounter s) (sd_loop s) (sd_publishers s))).

(** The step of a goroutine: its next state, and the new environment, state of the
    publication and channel. *)
Inductive publisher_step (ctx : option error) :
    E * SendState * option MinedReceipt * publisher -> E * SendState * option MinedReceipt * publisher -> Prop :=
  | pub_accepted e ss ch tx e' :
      SendTransaction tx e = (Ok tt, e') ->
      publisher_step ctx (e, ss, ch, Publishing tx) (e', ProcessSendError None ss, ch, Polling tx)
  | pub_refused e ss ch tx err e' :
      SendTransaction tx e = (Err err, e') ->
      publisher_step ctx (e, ss, ch, Publishing tx) (e', ProcessSendError (Some err) ss, ch, Ended tx (inr err))
  | pub_done e ss ch tx err :
      ctx = Some err ->
      publisher_step ctx (e, ss, ch, Polling tx) (e, ss, ch, Ended tx (inl false))
  | pub_query e ss ch tx r e' ss' :
      query_mined (tx_Hash tx) (e, ss) = (Ok r, (e', ss')) ->
      publisher_step ctx (e, ss, ch, Polling tx)
        (e', ss', ch, match r with Some receipt => Confirming tx receipt | None => Polling tx end)
  | pub_confirm e ss ch tx receipt r e' :
      query_confirmed receipt e = (Ok r, e') ->
      publisher_step ctx (e, ss, ch, Confirming tx receipt)
        (e', ss, ch, match r with Some receipt => Delivering tx receipt | None => Polling tx end)
  | pub_deliver e ss ch tx receipt :
      publisher_step ctx (e, ss, ch, Delivering tx receipt)
        (e, ss, Some (default receipt ch), Ended tx (inl (bool_decide (ch = None)))).

(** The steps of a call of [sendTx]: of its loop, of one of its goroutines, the end of the
    caller's context, or a change of the environment, which others use too. *)
Inductive send_step : E * sending -> E * sending -> Prop :=
  | send_loop_step x y : sendTx_step x y -> send_step x y
  | send_publisher e s i p e' ss' ch' p' :
      sd_publishers s !! i = Some p ->
      publisher_step (sd_ctx s) (e, sd_state s, sd_receiptChan s, p) (e', ss', ch', p') ->
      send_step (e, s) (e', mkSending ss' ch' (sd_ctx s) (sd_tx s) (sd_bumpCounter s) (sd_loop s)
                              (<[i := p']> (sd_publishers s)))
  | send_cancel e s err :
      send_step (e, s) (e, mkSending (sd_state s) (sd_receiptChan s) (cancel err (sd_ctx s)) (sd_tx s) (sd_bumpCounter s)
                             (sd_loop s) (sd_publishers s))
  | send_others e s e' : send_step (e, s) (e', s).

(** ** [Send]

    The calls of [Send] that run at the same time share the nonce and the environment: a
    call has attempts left to create its transaction, publishes it, or has returned. *)
Inductive call :=
  | Crafting (candidate : TxCandidate) (attempts : nat) (last : error)
  | Sending (candidate : TxCandidate) (tx : SignedTx) (s : sending)
  | Finished (candidate : TxCandidate) (tx : option SignedTx) (r : result MinedReceipt).

Record manager := mkCalls {
  mg_manager : SimpleTxManager E;
  mg_calls : list call }.

Definition add_pending (n : Z) : M (SimpleTxManager E) unit :=
  modify (fun s => mkManager (tm_nonce s) (tm_pending s + n) (tm_env s)).

(** The end of [Send]: the nonce is reset after an error. *)
Definition finish_Send (r : result MinedReceipt) : M (SimpleTxManager E) unit :=
  (if is_ok r then ret tt else resetNonce) ;;;
  add_pending (-1).

Definition ErrNotCreated (e : error) : error := ErrWrap "failed to create the tx" e.

(** The steps of the calls: one is made; an attempt of [retry.Do] creates the transaction or
    fails; the context has ended before an attempt, or no attempt is left; the transaction
    is published; the goroutines have ended and the call returns; the environment changes. *)
Inductive Send_step : manager -> manager -> Prop :=
  | Send_call m calls candidate m' :
      add_pending 1 m = (Ok tt, m') ->
      Send_step (mkCalls m calls) (mkCalls m' (calls ++ [Crafting candidate 30 (ErrNew "")]))
  | Send_created m calls i candidate n last m1 tx m2 s e' :
      calls !! i = Some (Crafting candidate (S n) last) ->
      on_backend ctx_Err m = (Ok None, m1) ->
      craftTx candidate m1 = (Ok tx, m2) ->
      start_sending tx (tm_env m2) = (Ok s, e') ->
      Send_step (mkCalls m calls)
        (mkCalls (mkManager (tm_nonce m2) (tm_pending m2) e') (<[i := Sending candidate tx s]> calls))
  | Send_retry m calls i candidate n last m1 err m2 :
      calls !! i = Some (Crafting candidate (S n) last) ->
      on_backend ctx_Err m = (Ok None, m1) ->
      craftTx candidate m1 = (Err err, m2) ->
      Send_step (mkCalls m calls) (mkCalls m2 (<[i := Crafting candidate n err]> calls))
  | Send_done m calls i candidate n last m1 err m2 :
      calls !! i = Some (Crafting candidate (S n) last) ->
      on_backend ctx_Err m = (Ok (Some err), m1) ->
      finish_Send (Err (ErrNotCreated err)) m1 = (Ok tt, m2) ->
      Send_step (mkCalls m calls) (mkCalls m2 (<[i := Finished candidate None (Err (ErrNotCreated err))]> calls))
  | Send_give_up m calls i candidate last m' r :
      calls !! i = Some (Crafting candidate O last) ->
      r = Err (ErrNotCreated (ErrWrap "operation failed permanently" last)) ->
      finish_Send r m = (Ok tt, m') ->
      Send_step (mkCalls m calls) (mkCalls m' (<[i := Finished candidate None r]> calls))
  | Send_sends m calls i candidate tx s s' e' :
      calls !! i = Some (Sending candidate tx s) ->
      send_step (tm_env m, s) (e', s') ->
      Send_step (mkCalls m calls)
        (mkCalls (mkManager (tm_nonce m) (tm_pending m) e') (<[i := Sending candidate tx s']> calls))
  | Send_returns m calls i candidate tx s r m' :
      calls !! i = Some (Sending candidate tx s) ->
      sd_loop s = Returned r ->
      Forall (fun p => exists tx o, p = Ended tx o) (sd_publishers s) ->
      finish_Send r m = (Ok tt, m') ->
      Send_step (mkCalls m calls) (mkCalls m' (<[i := Finished candidate (Some tx) r]> calls))
  | Send_others m calls e' :
      Send_step (mkCalls m calls) (mkCalls (mkManager (tm_nonce m) (tm_pending m) e') calls).

Definition new_manager (e : E) : manager := mkCalls (mkManager None 0 e) [].
End Manager.
