(* ===== verification/TxmgrSpec.v ===== *)
(** * What the transaction manager promises

    The fees of the versions of a transaction, the versions that a call of [sendTx]
    publishes and the receipt it returns, and the nonces of the calls of [Send]. *)
From stdpp Require Import relations.
From S2P Require Import Prelude GoErrors GoBytes EthTypes Geth Txmgr.
#[local] Open Scope Z_scope.

(** The sum of a function over a list one of whose elements changes. *)
Lemma sumZ_fmap_insert {A} (f : A -> Z) l i x y :
  l !! i = Some x -> sumZ (f <$> <[i := y]> l) = sumZ (f <$> l) - f x + f y.
Proof.
  intros Hi. rewrite insert_take_drop by (by eapply lookup_lt_Some).
  rewrite <- (take_drop_middle l i x Hi) at 3. rewrite !fmap_app, !sumZ_app, !fmap_cons. simpl. lia.
Qed.

(** ** Fees *)
Lemma threshold_bounds x : 0 <= x -> x <= calcThresholdValue x /\ 100 * calcThresholdValue x <= 110 * x < 100 * calcThresholdValue x + 100.
Proof.
  intros Hx. unfold calcThresholdValue, priceBumpPercent, priceBump, oneHundred.
  pose proof (Z.div_mod (110 * x) 100 ltac:(lia)). pose proof (Z.mod_pos_bound (110 * x) 100 ltac:(lia)).
  change (100 + 10) with 110. lia.
Qed.

Lemma threshold_grows x : 10 <= x -> x + 1 <= calcThresholdValue x.
Proof. intros Hx. pose proof (threshold_bounds x ltac:(lia)). lia. Qed.

Lemma threshold_mono x y : x <= y -> calcThresholdValue x <= calcThresholdValue y.
Proof. intros Hx. apply Z.div_le_mono; unfold oneHundred, priceBumpPercent, priceBump; lia. Qed.

(** The two limits of [increaseGasPrice]. *)
Definition max_tip (tip : Z) : Z := 5 * tip.
Definition max_fee (tip basefee : Z) : Z := 10 * basefee + 5 * tip.

(** Each new fee is the larger of what the market asks for and the threshold over the old
    fee, but not more than the limit. *)
Lemma bumpFees_eq oldTip oldFee tip basefee :
  bumpFees oldTip oldFee tip basefee =
  (Z.min (Z.max tip (calcThresholdValue oldTip)) (max_tip tip),
   Z.min (if calcThresholdValue oldFee <=? tip + 2 * basefee
          then Z.max tip (calcThresholdValue oldTip) + 2 * basefee else calcThresholdValue oldFee)
     (max_fee tip basefee)).
Proof.
  unfold bumpFees, updateFees, calcGasFeeCap, max_tip, max_fee, feeLimitMultiplier.
  generalize (calcThresholdValue oldTip) as a, (calcThresholdValue oldFee) as b. intros a b.
  replace (tip + basefee * 2) with (tip + 2 * basefee) by lia.
  destruct (Z.leb_spec a tip), (Z.leb_spec b (tip + 2 * basefee)), (Z.ltb_spec (tip + 2 * basefee) b), (Z.ltb_spec tip a); try lia; simpl;
    repeat case_if; f_equal; lia.
Qed.

(** C20: what a bump does to the fees.  From fees with a tip not above the fee cap, the new
    tip is not above the new fee cap, no fee exceeds its limit of five times the suggested
    fees, and unless a fee is at its limit it is at least what the market asks for and at
    least the threshold over the old one, which is ten percent rounded down. *)
Theorem bump_keeps_promises oldTip oldFee tip basefee :
  0 <= oldTip <= oldFee -> 0 <= tip -> 0 <= basefee ->
  let '(newTip, newFee) := bumpFees oldTip oldFee tip basefee in
  0 <= newTip <= newFee /\
  newTip <= 5 * tip /\ newFee <= calcGasFeeCap (5 * basefee) (5 * tip) /\
  (newTip = 5 * tip \/ tip <= newTip /\ 110 * oldTip < 100 * newTip + 100) /\
  (newFee = calcGasFeeCap (5 * basefee) (5 * tip) \/
   calcGasFeeCap basefee tip <= newFee /\ 110 * oldFee < 100 * newFee + 100).
Proof.
  intros Ho Ht Hb. rewrite bumpFees_eq. unfold calcGasFeeCap, max_tip, max_fee.
  pose proof (threshold_bounds oldTip ltac:(lia)). pose proof (threshold_bounds oldFee ltac:(lia)).
  pose proof (threshold_mono oldTip oldFee ltac:(lia)).
  destruct (Z.leb_spec (calcThresholdValue oldFee) (tip + 2 * basefee)); lia.
Qed.

(** A number of bumps in a market that does not move. *)
Definition bump_times (n : nat) (fees : Z * Z) (tip basefee : Z) : Z * Z :=
  Nat.iter n (fun f => bumpFees f.1 f.2 tip basefee) fees.

Lemma bump_times_progress n oldTip oldFee tip basefee :
  0 <= oldTip <= oldFee -> 10 <= tip -> 0 <= basefee ->
  let '(t, f) := bump_times (S n) (oldTip, oldFee) tip basefee in
  0 <= t <= f /\ Z.min (max_tip tip) (Z.of_nat n + 10) <= t <= max_tip tip /\
  Z.min (max_fee tip basefee) (Z.of_nat n + 10) <= f <= max_fee tip basefee.
Proof.
  intros Ho Ht Hb. induction n as [|n IH].
  - simpl. rewrite bumpFees_eq. unfold max_tip, max_fee.
    pose proof (threshold_bounds oldTip ltac:(lia)). pose proof (threshold_bounds oldFee ltac:(lia)).
    pose proof (threshold_mono oldTip oldFee ltac:(lia)).
    destruct (Z.leb_spec (calcThresholdValue oldFee) (tip + 2 * basefee)); lia.
  - change (bump_times (S (S n)) (oldTip, oldFee) tip basefee) with
      (bumpFees (bump_times (S n) (oldTip, oldFee) tip basefee).1 (bump_times (S n) (oldTip, oldFee) tip basefee).2 tip basefee).
    destruct (bump_times (S n) (oldTip, oldFee) tip basefee) as [t f]. simpl fst; simpl snd. rewrite bumpFees_eq.
    destruct IH as (I1 & I2 & I3). unfold max_tip, max_fee in *.
    pose proof (threshold_bounds t ltac:(lia)). pose proof (threshold_bounds f ltac:(lia)).
    pose proof (threshold_grows t ltac:(lia)). pose proof (threshold_grows f ltac:(lia)).
    pose proof (threshold_mono t f ltac:(lia)).
    destruct (Z.leb_spec (calcThresholdValue f) (tip + 2 * basefee)); lia.
Qed.

(** Bumping ends.  In a market that does not move, whose suggested tip is at least ten
    wei, the fees of the versions reach five times the suggested fees after at most that
    many bumps, and stay there. *)
Theorem bumping_reaches_limit n oldTip oldFee tip basefee :
  0 <= oldTip <= oldFee -> 10 <= tip -> 0 <= basefee ->
  10 * basefee + 5 * tip <= Z.of_nat n ->
  bump_times n (oldTip, oldFee) tip basefee = (5 * tip, calcGasFeeCap (5 * basefee) (5 * tip)).
Proof.
  intros Ho Ht Hb Hn. destruct n as [|n]; [lia|].
  pose proof (bump_times_progress n oldTip oldFee tip basefee Ho Ht Hb) as Hp.
  destruct (bump_times (S n) _ _ _) as [t f]. unfold max_tip, max_fee, calcGasFeeCap in *. f_equal; lia.
Qed.

(** A tip of less than ten wei is not raised at all while the market asks for no more, so
    that the new version is not ten percent above the old one, as the comment of
    [updateFees] promises. *)
Lemma small_tip_stays oldTip oldFee basefee :
  1 <= oldTip < 10 -> oldTip <= oldFee -> 0 <= basefee ->
  (bumpFees oldTip oldFee oldTip basefee).1 = oldTip.
Proof.
  intros Ho Hf Hb. rewrite bumpFees_eq. unfold max_tip. simpl. pose proof (threshold_bounds oldTip ltac:(lia)). lia.
Qed.

(** ** A call of [sendTx] *)

(** What the manager relies on: the signer signs the transaction it is given, and the
    receipt of a hash is one of that hash. *)
Class LawfulBackend (E : Type) `{ETHBackend E} := {
  Signer_signs a tx e stx e' : Signer a tx e = (Ok stx, e') -> st_tx stx = tx;
  TransactionReceipt_hash h e r e' : TransactionReceipt h e = (Ok (Some r), e') -> mr_TxHash r = h }.

(** Versions of one transaction: they differ in their fees and their gas only. *)
Definition same_tx (t u : DynamicFeeTx) : Prop :=
  dt_ChainID t = dt_ChainID u /\ dt_Nonce t = dt_Nonce u /\ dt_To t = dt_To u /\
  dt_Value t = dt_Value u /\ dt_Data t = dt_Data u /\ dt_AccessList t = dt_AccessList u.

#[export] Instance same_tx_equiv : Equivalence same_tx.
Proof.
  split.
  - by intros t.
  - by intros t u (? & ? & ? & ? & ? & ?).
  - intros t u v (? & ? & ? & ? & ? & ?) (? & ? & ? & ? & ? & ?). unfold same_tx. split_and!; congruence.
Qed.

Section Sending.
Context {E : Type} `{LawfulBackend E} `{ErrorText}.
Variable cfg : TxConfig.
Abbreviation send_step := (send_step cfg).

Definition pub_tx (p : publisher) : SignedTx :=
  match p with Publishing tx | Polling tx | Confirming tx _ | Delivering tx _ | Ended tx _ => tx end.

(** The transactions of the call: the one it would publish again, the new one, and those of
    its goroutines. *)
Definition versions (s : sending) : list SignedTx :=
  sd_tx s :: (match sd_loop s with Bumped tx => [tx] | _ => [] end) ++ (pub_tx <$> sd_publishers s).

Lemma increaseGasPrice_same tx e tx' e' : increaseGasPrice cfg tx e = (Ok tx', e') -> same_tx (st_tx tx') (st_tx tx).
Proof.
  unfold increaseGasPrice. intros ([tip basefee] & e1 & _ & Hk)%bind_Ok.
  destruct (bumpFees _ _ _ _) as [t f]. apply bind_Ok in Hk as (gas & e2 & _ & (r & e3 & Hr & Hk)%bind_Ok).
  destruct r as [newTx|err]; injection Hk as <- <-; [|reflexivity].
  apply attempt_Ok_inl, Signer_signs in Hr. by rewrite Hr.
Qed.

Lemma publisher_step_tx ctx e ss ch p e' ss' ch' p' :
  publisher_step cfg ctx (e, ss, ch, p) (e', ss', ch', p') -> pub_tx p' = pub_tx p.
Proof. intros Hst. inversion Hst; subst; simpl; try done; by case_match. Qed.

Lemma versions_same x y tx0 :
  send_step x y ->
  Forall (fun tx => same_tx (st_tx tx) tx0) (versions x.2) -> Forall (fun tx => same_tx (st_tx tx) tx0) (versions y.2).
Proof.
  unfold versions. intros Hst. rewrite !Forall_cons, !Forall_app.
  destruct Hst as [x y Hl|e s i p e' ss' ch' p' Hp Hst|e s err|e s e']; simpl; [|intros (F1 & F2 & F3)|done..].
  - destruct Hl as [e s Hs|e s Hs|e s now e' Hs|e s now e' Hs|e s tx e' Hs Hi|e s err e' Hs|e s tx Hs|e s tx Hs|e s err Hs|e s r Hs];
      simpl; rewrite ?Hs; simpl; intros (F1 & F2 & F3); (split; [|split]); try done.
    + by destruct (IsWaitingForConfirmation _).
    + constructor; [|done]. etrans; [by eapply increaseGasPrice_same|done].
    + by inversion F2.
    + rewrite fmap_app. apply Forall_app. by split.
  - split; [done|]. split; [done|]. rewrite list_fmap_insert. apply Forall_insert; [done|].
    rewrite (publisher_step_tx _ _ _ _ _ _ _ _ _ Hst). rewrite Forall_fmap in F3. by apply (Forall_lookup_1 _ _ _ _ F3 Hp).
Qed.

Lemma run_versions_same x y tx0 :
  rtc send_step x y -> Forall (fun tx => same_tx (st_tx tx) tx0) (versions x.2) ->
  forall p, p ∈ sd_publishers y.2 -> same_tx (st_tx (pub_tx p)) tx0.
Proof.
  intros Hrun Hx. assert (Forall (fun tx => same_tx (st_tx tx) tx0) (versions y.2)) as Hy.
  { exact (run_keeps _ _ (fun x y => versions_same x y tx0) _ _ Hrun Hx). }
  intros p Hp. rewrite Forall_forall in Hy. apply Hy. unfold versions. right. apply elem_of_app. right.
  by apply list_elem_of_fmap_2.
Qed.

(** What led to the states of a run from [x0]: a transaction was accepted by the backend,
    and the chain was seen to be high enough over the block of a receipt. *)
Definition accepted (x0 : E * sending) (tx : SignedTx) : Prop :=
  exists e s e', rtc send_step x0 (e, s) /\ Publishing tx ∈ sd_publishers s /\ SendTransaction tx e = (Ok tt, e').
Definition seen_deep (x0 : E * sending) (tx : SignedTx) (r : MinedReceipt) : Prop :=
  exists e s tip e', rtc send_step x0 (e, s) /\ Confirming tx r ∈ sd_publishers s /\ BlockNumber e = (Ok tip, e') /\
    u64 (mr_BlockNumber r) +u xc_NumConfirmations cfg <= tip +u 1.
Definition receipt_ok (x0 : E * sending) (r : MinedReceipt) : Prop :=
  exists tx, accepted x0 tx /\ mr_TxHash r = tx_Hash tx /\ seen_deep x0 tx r.

Definition publisher_ok (x0 : E * sending) (p : publisher) : Prop :=
  match p with
  | Publishing _ | Ended _ (inr _) => True
  | Polling tx | Ended tx (inl _) => accepted x0 tx
  | Confirming tx r => accepted x0 tx /\ mr_TxHash r = tx_Hash tx
  | Delivering tx r => accepted x0 tx /\ mr_TxHash r = tx_Hash tx /\ seen_deep x0 tx r
  end.

Record receipts_ok (x0 : E * sending) (s : sending) : Prop := {
  ro_publishers : Forall (publisher_ok x0) (sd_publishers s);
  ro_channel r : sd_receiptChan s = Some r -> receipt_ok x0 r;
  ro_returned r : sd_loop s = Returned (Ok r) -> receipt_ok x0 r }.

Lemma query_mined_hash tx e ss r e' ss' :
  query_mined (tx_Hash tx) (e, ss) = (Ok (Some r), (e', ss')) -> mr_TxHash r = tx_Hash tx.
Proof.
  unfold query_mined. intros (a & [e1 s1] & Ha & Hk)%bind_Ok. destruct a as [[r'|]|err]; [|by injection Hk|].
  - apply (proj1 (attempt_Ok_inl _ _ _ _)) in Ha. unfold zoom in Ha. simpl in Ha.
    destruct (TransactionReceipt (tx_Hash tx) e) as [rr e2] eqn:Er. injection Ha as -> <- <-.
    injection Hk as <- <- <-. by eapply TransactionReceipt_hash.
  - by destruct (errors_Is err NotFound).
Qed.

Lemma query_confirmed_Some r r' e e' :
  query_confirmed cfg r e = (Ok (Some r'), e') ->
  r' = r /\ exists tip e1, BlockNumber e = (Ok tip, e1) /\ u64 (mr_BlockNumber r) +u xc_NumConfirmations cfg <= tip +u 1.
Proof.
  unfold query_confirmed. intros (a & e1 & Ea & Hk)%bind_Ok. destruct a as [tip|err]; [|by injection Hk].
  apply (proj1 (attempt_Ok_inl _ _ _ _)) in Ea. destruct (Z.leb_spec (u64 (mr_BlockNumber r) +u xc_NumConfirmations cfg) (tip +u 1)); [|by injection Hk].
  injection Hk as <- <-. split; [done|]. eauto.
Qed.

Lemma publisher_step_ok x0 e s i p e' ss' ch' p' :
  rtc send_step x0 (e, s) -> receipts_ok x0 s -> sd_publishers s !! i = Some p ->
  publisher_step cfg (sd_ctx s) (e, sd_state s, sd_receiptChan s, p) (e', ss', ch', p') ->
  publisher_ok x0 p' /\ forall r, ch' = Some r -> receipt_ok x0 r.
Proof.
  intros Hrun [Hp Hc _] Hi Hst. pose proof (Forall_lookup_1 _ _ _ _ Hp Hi) as Hpi. pose proof (list_elem_of_lookup_2 _ _ _ Hi) as Hin.
  inversion Hst; subst; simpl in *; (split; [|try done]).
  - by exists e, s, e'.
  - done.
  - done.
  - destruct r as [r|]; [|done]. split; [done|]. by eapply query_mined_hash.
  - destruct r as [r|]; [|by destruct Hpi]. destruct Hpi as [Ha Hh].
    match goal with Hq : query_confirmed _ _ _ = _ |- _ => apply query_confirmed_Some in Hq as (-> & tip & e1 & Eb & Hd) end.
    split; [done|]. split; [done|]. by exists e, s, tip, e1.
  - by destruct Hpi.
  - intros r Hr. destruct (sd_receiptChan s) as [r'|] eqn:Er; injection Hr as <-; [by apply Hc|]. by exists tx.
Qed.

Lemma run_receipts_ok x0 y :
  Forall (publisher_ok x0) (sd_publishers x0.2) -> sd_receiptChan x0.2 = None -> sd_loop x0.2 = Selecting ->
  rtc send_step x0 y -> receipts_ok x0 y.2.
Proof.
  intros Hs1 Hs2 Hs3. revert y. refine (rtc_ind_r (fun y => receipts_ok x0 y.2) x0 _ _); [split; congruence|].
  intros y z Hxy Hst IH.
  destruct Hst as [x y Hl|e s i p e' ss' ch' p' Hp Hst|e s err|e s e'].
  - destruct IH as [Hp Hc Hr].
    destruct Hl as [e s Hs|e s Hs|e s now e' Hs|e s now e' Hs|e s tx e' Hs Hi|e s err e' Hs|e s tx Hs|e s tx Hs|e s err Hs|e s r Hs Hch];
      simpl in *; (split; simpl; [|done|]); try done; try congruence.
    + intros r. by destruct (IsWaitingForConfirmation _).
    + apply Forall_app. by split; [|by constructor].
    + intros r' [= <-]. by apply Hc.
  - destruct (publisher_step_ok _ _ _ _ _ _ _ _ _ Hxy IH Hp Hst) as [Ho Hch]. destruct IH as [Hpp Hc Hr]. simpl in *.
    split; simpl; [by apply Forall_insert|done|done].
  - destruct IH as [Hp Hc Hr]. by split.
  - done.
Qed.

Lemma start_sending_Ok tx e s e' : start_sending cfg tx e = (Ok s, e') ->
  exists now, s = mkSending (mkSendState ∅ 0 (now + xc_TxNotInMempoolTimeout cfg) 0 (xc_SafeAbortNonceTooLowCount cfg))
                    None None tx 0 Selecting [Publishing tx] /\
    time_Now e = (Ok now, e').
Proof.
  unfold start_sending. intros (now & e1 & Hnow & (ss & e2 & Hss & Hk)%bind_Ok)%bind_Ok. injection Hk as <- <-.
  unfold lift, NewSendState in Hss. case_if_in Hss; simplify_eq. by eexists.
Qed.

(** In a run from [x0] for [tx0], the receipt [r] is one of a version of [tx0] that the
    backend accepted, and the chain was seen to be [NumConfirmations] blocks deep over its
    block, counting the block itself. *)
Definition confirmed_in (x0 : E * sending) (tx0 : SignedTx) (r : MinedReceipt) : Prop :=
  exists tx, same_tx (st_tx tx) (st_tx tx0) /\ mr_TxHash r = tx_Hash tx /\ accepted x0 tx /\
    exists e1 s1 tip e2, rtc send_step x0 (e1, s1) /\ Confirming tx r ∈ sd_publishers s1 /\ BlockNumber e1 = (Ok tip, e2) /\
      (is_u64 (mr_BlockNumber r + xc_NumConfirmations cfg) -> is_u64 (mr_BlockNumber r) -> is_u64 (tip + 1) ->
       mr_BlockNumber r + xc_NumConfirmations cfg - 1 <= tip).

Lemma sendTx_receipt tx0 ea eb s0 e s r :
  start_sending cfg tx0 ea = (Ok s0, eb) ->
  rtc send_step (eb, s0) (e, s) -> sd_loop s = Returned (Ok r) -> confirmed_in (eb, s0) tx0 r.
Proof.
  intros (ss & Es0 & _)%start_sending_Ok Hrun Hr.
  assert (receipts_ok (eb, s0) s) as [_ _ Hro]. { apply (run_receipts_ok (eb, s0) (e, s)); subst s0; by repeat constructor. }
  destruct (Hro _ Hr) as (tx & Ha & Hh & (ez & sz & tip & ew & Hz & Hc & Hb & Hd)). exists tx. split.
  - destruct Ha as (ex & sx & ey & Hx & Hp & _).
    apply (run_versions_same _ _ (st_tx tx0) Hx) in Hp; [done|]. subst s0. by repeat constructor.
  - split; [done|]. split; [done|]. exists ez, sz, tip, ew. split_and!; [done..|]. intros U1 U2 U3.
    rewrite (u64_small (mr_BlockNumber r)), !u64_small in Hd by done. lia.
Qed.

(** ** When a call gives up *)
Definition was_accepted (p : publisher) : Z :=
  match p with Publishing _ | Ended _ (inr _) => 0 | _ => 1 end.
Definition was_refused (p : publisher) : Z :=
  match p with Ended _ (inr err) => if strings_Contains (Error err) ErrNonceTooLow then 1 else 0 | _ => 0 end.
Definition accepted_count (s : sending) : Z := sumZ (was_accepted <$> sd_publishers s).
Definition refused_count (s : sending) : Z := sumZ (was_refused <$> sd_publishers s).

Record counts_ok (s0 s : sending) : Prop := {
  ct_accepted : ss_successFullPublishCount (sd_state s) = u64 (accepted_count s);
  ct_refused : 0 <= ss_nonceTooLowCount (sd_state s) <= refused_count s;
  ct_deadline : ss_txInMempoolDeadline (sd_state s) = ss_txInMempoolDeadline (sd_state s0);
  ct_safe : ss_safeAbortNonceTooLowCount (sd_state s) = ss_safeAbortNonceTooLowCount (sd_state s0) }.

Lemma query_mined_state h e ss r e' ss' : query_mined h (e, ss) = (Ok r, (e', ss')) ->
  ss_successFullPublishCount ss' = ss_successFullPublishCount ss /\
  (ss_nonceTooLowCount ss' = ss_nonceTooLowCount ss \/ ss_nonceTooLowCount ss' = 0) /\
  ss_txInMempoolDeadline ss' = ss_txInMempoolDeadline ss /\
  ss_safeAbortNonceTooLowCount ss' = ss_safeAbortNonceTooLowCount ss.
Proof.
  unfold query_mined. intros (a & [e1 s1] & Ha & Hk)%bind_Ok.
  assert (s1 = ss) as ->.
  { unfold attempt, zoom in Ha. simpl in Ha. by destruct (TransactionReceipt h e) as [[?|?|] ?]; simplify_eq. }
  destruct a as [[r'|]|err]; [injection Hk as <- <- <-; simpl; auto..|].
  destruct (errors_Is err NotFound); injection Hk as <- <- <-; simpl; split_and!; auto. case_if; auto.
Qed.

Lemma publisher_step_counts ctx e ss ch p e' ss' ch' p' :
  publisher_step cfg ctx (e, ss, ch, p) (e', ss', ch', p') ->
  (was_accepted p' = was_accepted p /\ ss_successFullPublishCount ss' = ss_successFullPublishCount ss \/
   was_accepted p' = was_accepted p + 1 /\ ss_successFullPublishCount ss' = ss_successFullPublishCount ss +u 1) /\
  (0 <= ss_nonceTooLowCount ss ->
   0 <= ss_nonceTooLowCount ss' <= ss_nonceTooLowCount ss + (was_refused p' - was_refused p)) /\
  ss_txInMempoolDeadline ss' = ss_txInMempoolDeadline ss /\
  ss_safeAbortNonceTooLowCount ss' = ss_safeAbortNonceTooLowCount ss.
Proof.
  intros Hst. inversion Hst; subst; simpl.
  - split_and!; auto; lia.
  - pose proof (u64_range (ss_nonceTooLowCount ss + 1)).
    assert (0 <= ss_nonceTooLowCount ss -> ss_nonceTooLowCount ss +u 1 <= ss_nonceTooLowCount ss + 1)
      by (intros; apply Z.mod_le; [lia|done]). case_if; simpl; split_and!; auto; lia.
  - split_and!; auto; lia.
  - match goal with Hq : query_mined _ _ = _ |- _ => apply query_mined_state in Hq as (-> & Hn & -> & ->) end.
    destruct r; simpl; split_and!; auto; lia.
  - destruct r; simpl; split_and!; auto; lia.
  - split_and!; auto; lia.
Qed.

Lemma counts_step x y s0 : send_step x y -> counts_ok s0 x.2 -> counts_ok s0 y.2.
Proof.
  intros Hst Hc. destruct Hst as [x y Hl|e s i p e' ss' ch' p' Hp Hst|e s err|e s e']; simpl in *; [| |by destruct Hc|done].
  - destruct Hc as [C1 C2 C3 C4]. destruct Hl; simpl in *; (split; [| |done|done]); unfold accepted_count, refused_count in *; simpl; try done;
      rewrite fmap_app, sumZ_app; simpl; rewrite Z.add_0_r; done.
  - destruct Hc as [C1 C2 C3 C4]. apply publisher_step_counts in Hst as (S1 & S2 & S3 & S4).
    split; simpl; unfold accepted_count, refused_count in *; simpl; rewrite ?(sumZ_fmap_insert _ _ _ _ _ Hp); [|lia|congruence..].
    destruct S1 as [[-> ->]|[-> ->]]; rewrite C1; [f_equal; lia|]. rewrite u64_add_l. f_equal. lia.
Qed.

Lemma accepted_count_none s : 0 <= accepted_count s <= Z.of_nat (length (sd_publishers s)) /\
  (accepted_count s = 0 -> Forall (fun p => was_accepted p = 0) (sd_publishers s)).
Proof.
  unfold accepted_count. induction (sd_publishers s) as [|p l [I1 I2]]; [done|]. rewrite fmap_cons, length_cons. simpl.
  assert (was_accepted p = 0 \/ was_accepted p = 1) as Hp by (destruct p as [| | | |? []]; simpl; auto).
  split; [lia|]. intros Hz. constructor; [lia|]. apply I2. lia.
Qed.

(** A call gives up only with a reason.  When [sendTx] aborts, none of the versions is
    known to be mined, and either at least [SafeAbortNonceTooLowCount] versions were refused
    for a nonce that is too low, or no version was ever accepted and [TxNotInMempoolTimeout] has passed
    since the call. *)
Theorem abort_is_justified tx0 ea eb s0 e s e' s' :
  start_sending cfg tx0 ea = (Ok s0, eb) ->
  rtc send_step (eb, s0) (e, s) ->
  sd_ctx s = None -> sendTx_step cfg (e, s) (e', s') -> sd_loop s' = Returned (Err ErrAborted) ->
  Z.of_nat (length (sd_publishers s)) < two64 ->
  ss_minedTxs (sd_state s) = ∅ /\
  (xc_SafeAbortNonceTooLowCount cfg <= refused_count s \/
   Forall (fun p => was_accepted p = 0) (sd_publishers s) /\
   exists start now, time_Now ea = (Ok start, eb) /\ time_Now e = (Ok now, e') /\
     start + xc_TxNotInMempoolTimeout cfg < now).
Proof.
  intros (start & Es0 & Hstart)%start_sending_Ok Hrun Hctx Hst Hret Hlen.
  assert (counts_ok s0 s) as [C1 C2 C3 C4].
  { apply (run_keeps _ (fun x => counts_ok s0 x.2) (fun x y => counts_step x y s0) _ _ Hrun). subst s0. by split. }
  inversion Hst as [|? ? Hs|? ? now ? Hs Hnow Ha| | | | | | |]; subst; simpl in *; try congruence; try discriminate.
  { by destruct (IsWaitingForConfirmation _). }
  unfold ShouldAbortImmediately in Ha. destruct (Nat.ltb_spec 0 (size (ss_minedTxs (sd_state s)))) as [|Hsz]; [done|].
  split; [apply leibniz_equiv, size_empty_inv; lia|]. rewrite C1, C3, C4 in Ha.
  destruct (Z.leb_spec (xc_SafeAbortNonceTooLowCount cfg) (ss_nonceTooLowCount (sd_state s))); [left; lia|right].
  apply andb_true_iff in Ha as [Hz%Z.eqb_eq Hd%Z.ltb_lt]. destruct (accepted_count_none s) as [Hr Hn].
  rewrite u64_small in Hz by lia. split; [by apply Hn|]. by exists start, now.
Qed.

(** ** Receipts that were handed over *)
Definition handed_over (s : sending) : Prop := exists tx, Ended tx (inl true) ∈ sd_publishers s.
Definition receipt_held (s : sending) : Prop :=
  exists r, sd_receiptChan s = Some r \/ sd_loop s = Returned (Ok r).

Lemma receipt_held_step x y : send_step x y -> (handed_over x.2 -> receipt_held x.2) -> handed_over y.2 -> receipt_held y.2.
Proof.
  intros Hst IH. destruct Hst as [x y Hl|e s i p e' ss' ch' p' Hp Hst|e s err|e s e']; simpl in *; [| |done..].
  - assert (handed_over y.2 -> handed_over x.2) as Hback.
    { destruct Hl; simpl; try done. intros (tx & [Ht|Ht]%elem_of_app); [by exists tx|]. by apply list_elem_of_singleton in Ht. }
    intros Hh. destruct (IH (Hback Hh)) as (r & Hr). clear IH Hback Hh.
    destruct Hl; simpl in *; unfold receipt_held; simpl; try (exists r; by left; destruct Hr; congruence); try (destruct Hr; by eauto; congruence).
    all: destruct Hr as [Hr|Hr]; [by eauto|congruence].
  - assert (handed_over s -> exists r, ch' = Some r \/ sd_loop s = Returned (Ok r)) as Hkeep.
    { intros Hh. destruct (IH Hh) as (r & Hr). inversion Hst; subst; try by exists r. destruct Hr as [->|Hr]; eauto. }
    intros (tx & Ht). unfold receipt_held. simpl in *.
    apply list_elem_of_lookup in Ht as (j & Hj). destruct (decide (i = j)) as [<-|Hne].
    + rewrite list_lookup_insert_eq in Hj by (by eapply lookup_lt_Some). injection Hj as ->. inversion Hst; subst; eauto; by destruct r.
    + rewrite list_lookup_insert_ne in Hj by done. apply Hkeep. exists tx. by eapply list_elem_of_lookup_2.
Qed.

(** No receipt is lost.  Once a goroutine has handed over a confirmed receipt, a
    confirmed receipt stays in the channel of the loop until the loop returns it; the loop
    can return it whenever it is at its select. *)
Theorem handed_over_receipt_returned tx0 ea eb s0 e s :
  start_sending cfg tx0 ea = (Ok s0, eb) ->
  rtc send_step (eb, s0) (e, s) -> handed_over s ->
  exists r, receipt_ok (eb, s0) r /\
    (sd_loop s = Returned (Ok r) \/
     sd_receiptChan s = Some r /\
     (sd_loop s = Selecting -> exists s', send_step (e, s) (e, s') /\ sd_loop s' = Returned (Ok r))).
Proof.
  intros (ss & Es0 & _)%start_sending_Ok Hrun Hh.
  assert (receipts_ok (eb, s0) s) as [_ Hc Hr]. { apply (run_receipts_ok (eb, s0) (e, s)); subst s0; by repeat constructor. }
  assert (receipt_held s) as (r & Hheld).
  { apply (run_keeps _ (fun x => handed_over x.2 -> receipt_held x.2) receipt_held_step _ _ Hrun); [|done].
    subst s0. simpl. intros (tx & Ht). by apply list_elem_of_singleton in Ht. }
  exists r. destruct Hheld as [Hch|Hret].
  - split; [by apply Hc|]. right. split; [done|]. intros Hs. eexists. split; [by eapply send_loop_step, loop_receipt|done].
  - split; [by apply Hr|by left].
Qed.

(** ** The estimate of the gas of a new version *)

(** A backend that refuses to estimate calls whose tip cap is above their fee cap, in a
    market with a base fee. *)
Class CheckingBackend := {
  EstimateGas_checks msg e : cm_GasFeeCap msg < cm_GasTipCap msg -> exists err e', EstimateGas msg e = (Err err, e');
  HeaderByNumber_positive e b e' : HeaderByNumber e = (Ok (Some b), e') -> 0 < b;
  SuggestGasTipCap_nonneg e t e' : SuggestGasTipCap e = (Ok (Some t), e') -> 0 <= t }.

Lemma threshold_strict x y : x < y -> calcThresholdValue x < calcThresholdValue y.
Proof.
  intros Hx. unfold calcThresholdValue, priceBumpPercent, priceBump, oneHundred. change (100 + 10) with 110.
  pose proof (Z.div_mod (110 * x) 100 ltac:(lia)). pose proof (Z.mod_pos_bound (110 * x) 100 ltac:(lia)).
  pose proof (Z.div_mod (110 * y) 100 ltac:(lia)). pose proof (Z.mod_pos_bound (110 * y) 100 ltac:(lia)). lia.
Qed.

Lemma increaseGasPrice_refused `{CheckingBackend} tx e tx' e' :
  dt_GasTipCap (st_tx tx) < dt_GasFeeCap (st_tx tx) -> increaseGasPrice cfg tx e <> (Ok tx', e').
Proof.
  intros Htx. unfold increaseGasPrice. intros ([tip basefee] & e1 & Hs & Hk)%bind_Ok.
  unfold suggestGasPriceCaps in Hs. apply bind_Ok in Hs as (t & e2 & Ht & Hs). destruct t as [t|]; [|done].
  apply bind_Ok in Hs as (b & e3 & Hb & Hs). destruct b as [b|]; [|done]. injection Hs as <- <- <-.
  apply wrapE_Ok in Ht, Hb. apply SuggestGasTipCap_nonneg in Ht. apply HeaderByNumber_positive in Hb.
  destruct (bumpFees _ _ _ _) as [nt nf] eqn:Eb. rewrite bumpFees_eq in Eb. unfold max_tip, max_fee in Eb.
  pose proof (threshold_strict _ _ Htx) as Hst. injection Eb as Ent Enf.
  assert (nt < nf) as Hlt by (case_if_in Enf; lia).
  destruct (EstimateGas_checks (mkCallMsg (xc_From cfg) (dt_To (st_tx tx)) nt nf (dt_Data (st_tx tx)) None) e3 Hlt) as (err & e4 & He).
  unfold bind in Hk. by rewrite He in Hk.
Qed.

(** C21: the swapped caps of the estimate.  [increaseGasPrice] asks for an estimate with the
    fee cap and the tip cap exchanged.  A backend that checks the caps refuses every such
    call, so that the fees of a transaction are never raised: its first version is the only
    one that is ever published. *)
Theorem fees_are_never_raised `{CheckingBackend} tx0 ea eb s0 e s :
  dt_GasTipCap (st_tx tx0) < dt_GasFeeCap (st_tx tx0) ->
  start_sending cfg tx0 ea = (Ok s0, eb) -> rtc send_step (eb, s0) (e, s) ->
  sd_bumpCounter s = 0 /\ pub_tx <$> sd_publishers s = [tx0].
Proof.
  intros Htx (ss & Es0 & _)%start_sending_Ok Hrun.
  assert (sd_tx s = tx0 /\ (forall tx, sd_loop s <> Bumped tx) /\ sd_bumpCounter s = 0 /\ pub_tx <$> sd_publishers s = [tx0]) as (_ & _ & ?); [|done].
  refine (run_keeps _ (fun x => sd_tx x.2 = tx0 /\ (forall tx, sd_loop x.2 <> Bumped tx) /\ sd_bumpCounter x.2 = 0 /\
    pub_tx <$> sd_publishers x.2 = [tx0]) _ _ _ Hrun _); [|by subst s0].
  clear -Htx H1 H2. intros x y Hst (I1 & I2 & I3 & I4). destruct Hst as [x y Hl|e s i p e' ss' ch' p' Hp Hst|e s err|e s e']; simpl in *; [|split_and!; try done|done..].
  - destruct Hl as [e s Hs|e s Hs|e s now e' Hs|e s now e' Hs|e s tx e' Hs Hi|e s err e' Hs|e s tx Hs|e s tx Hs|e s err Hs|e s r Hs]; simpl in *;
      try (by destruct (I2 tx)); split_and!; try done.
    + by destruct (IsWaitingForConfirmation _).
    + subst tx0. by apply increaseGasPrice_refused in Hi.
  - rewrite list_fmap_insert, (publisher_step_tx _ _ _ _ _ _ _ _ _ Hst), I4.
    assert (pub_tx <$> sd_publishers s !! i = Some (pub_tx p)) as Hi by (by rewrite Hp). rewrite <- list_lookup_fmap, I4 in Hi.
    by apply list_insert_id.
Qed.
End Sending.

(** ** Nonces of the calls of [Send] *)
Section Nonces.
Context {E : Type} `{LawfulBackend E} `{ErrorText}.
Variable cfg : TxConfig.

Definition call_tx (c : call) : option SignedTx :=
  match c with Sending _ tx _ => Some tx | Finished _ tx _ => tx | Crafting _ _ _ => None end.
Definition call_nonce (c : call) : option Z := (fun tx => dt_Nonce (st_tx tx)) <$> call_tx c.
Definition call_nonces (calls : list call) : list Z := omap call_nonce calls.
Definition failed (c : call) : Prop := exists candidate tx r, c = Finished candidate tx r /\ is_ok r = false.

(** The attempts that a call has made. *)
Definition call_used (c : call) : Z := match c with Crafting _ n _ => 30 - Z.of_nat n | _ => 30 end.
Definition running (c : call) : Z := match c with Finished _ _ _ => 0 | _ => 1 end.

(** A nonce that [nextNonce] can give. *)
Definition next_of (m : SimpleTxManager E) (k : Z) : Prop :=
  match tm_nonce m with Some n => k = n +u 1 | None => exists a e e', NonceAt a e = (Ok k, e') end.

Lemma on_backend_same {A} (a : M E A) (m : SimpleTxManager E) r m' : on_backend a m = (r, m') ->
  tm_nonce m' = tm_nonce m /\ tm_pending m' = tm_pending m.
Proof. unfold on_backend, zoom. destruct (a (tm_env m)) as [r' e']. by intros [= <- <-]. Qed.

Lemma nextNonce_gives m r m' : nextNonce cfg m = (r, m') -> tm_pending m' = tm_pending m /\
  ((tm_nonce m' = tm_nonce m /\ forall k, r <> Ok k) \/ exists k, r = Ok k /\ tm_nonce m' = Some k /\ next_of m k).
Proof.
  unfold nextNonce, bind, get, next_of. destruct (tm_nonce m) as [n|] eqn:En.
  - intros [= <- <-]. simpl. eauto 10.
  - unfold wrapE. destruct (on_backend (NonceAt (xc_From cfg)) m) as [[k|err|] m1] eqn:Eb.
    + apply on_backend_same in Eb as Hs. destruct Hs as [_ Hp]. intros [= <- <-]. simpl. split; [done|]. right. exists k. split; [done|]. split; [done|].
      unfold on_backend, zoom in Eb. destruct (NonceAt (xc_From cfg) (tm_env m)) as [r e'] eqn:Ea. injection Eb as -> _. eauto.
    + apply on_backend_same in Eb as [Hn Hp]. intros [= <- <-]. split; [done|]. left. split; [congruence|done].
    + apply on_backend_same in Eb as [Hn Hp]. intros [= <- <-]. split; [done|]. left. split; [congruence|done].
Qed.

Lemma craftTx_gives candidate m r m' : craftTx cfg candidate m = (r, m') -> tm_pending m' = tm_pending m /\
  ((tm_nonce m' = tm_nonce m /\ forall tx, r <> Ok tx) \/
   exists k, tm_nonce m' = Some k /\ next_of m k /\ forall tx, r = Ok tx -> dt_Nonce (st_tx tx) = k).
Proof.
  unfold craftTx. intros Hc. apply bind_cases in Hc as [([tip fee] & m1 & Hf & Hk)|[(err & Hf & ->)|[Hf ->]]].
  2,3: unfold wrapE in Hf; destruct (on_backend _ m) as [r m1] eqn:Eb; apply on_backend_same in Eb as [? ?]; injection Hf as _ <-; eauto.
  apply wrapE_Ok in Hf. apply on_backend_same in Hf as [Hn1 Hp1].
  apply bind_cases in Hk as [(k & m2 & Hk & Hr)|[(err & Hk & ->)|[Hk ->]]].
  2,3: apply nextNonce_gives in Hk as [Hp2 [[Hn2 _]|(k & ? & _)]]; [|done]; split; [congruence|left; split; [congruence|done]].
  apply nextNonce_gives in Hk as [Hp2 [[_ Hbad]|(k' & [= <-] & Hn2 & Hnext)]]; [by destruct (Hbad k)|].
  assert (next_of m k) as Hnext' by (unfold next_of in *; by rewrite <- Hn1).
  apply bind_cases in Hr as [(gas & m3 & Hg & Hs)|[(err & Hg & ->)|[Hg ->]]].
  - assert (tm_nonce m3 = tm_nonce m2 /\ tm_pending m3 = tm_pending m2) as [Hn3 Hp3].
    { case_if_in Hg; [by injection Hg as _ <-|]. apply wrapE_Ok in Hg. by apply on_backend_same in Hg. }
    pose proof (on_backend_same _ _ _ _ Hs) as [Hn4 Hp4]. split; [congruence|]. right. exists k. split; [congruence|]. split; [done|].
    intros tx ->. unfold on_backend, zoom in Hs. destruct (Signer _ _ _) as [rs e4] eqn:Es. injection Hs as -> _.
    apply Signer_signs in Es. by rewrite Es.
  - case_if_in Hg; [done|]. unfold wrapE in Hg. destruct (on_backend _ m2) as [r m3] eqn:Eb. apply on_backend_same in Eb as [Hn3 Hp3].
    injection Hg as _ <-. split; [congruence|]. right. exists k. split; [congruence|]. by split.
  - case_if_in Hg; [done|]. unfold wrapE in Hg. destruct (on_backend _ m2) as [r m3] eqn:Eb. apply on_backend_same in Eb as [Hn3 Hp3].
    injection Hg as _ <-. split; [congruence|]. right. exists k. split; [congruence|]. by split.
Qed.

Lemma call_nonces_insert calls i c c' : calls !! i = Some c ->
  call_nonces (<[i := c']> calls) = call_nonces (take i calls) ++ option_list (call_nonce c') ++ call_nonces (drop (S i) calls) /\
  call_nonces calls = call_nonces (take i calls) ++ option_list (call_nonce c) ++ call_nonces (drop (S i) calls).
Proof.
  intros Hi. unfold call_nonces. rewrite insert_take_drop by (by eapply lookup_lt_Some).
  assert (forall x, omap call_nonce (take i calls ++ x :: drop (S i) calls) =
    omap call_nonce (take i calls) ++ option_list (call_nonce x) ++ omap call_nonce (drop (S i) calls)) as Hx.
  { intros x. rewrite omap_app. csimpl. by destruct (call_nonce x). }
  split; [apply Hx|]. rewrite <- (take_drop_middle calls i c Hi) at 1. apply Hx.
Qed.
Lemma call_nonces_same calls i c c' : calls !! i = Some c -> call_nonce c' = call_nonce c ->
  call_nonces (<[i := c']> calls) = call_nonces calls.
Proof. intros Hi Hc. destruct (call_nonces_insert calls i c c' Hi) as [-> ->]. by rewrite Hc. Qed.
Lemma call_nonces_new calls i c c' k : calls !! i = Some c -> call_nonce c = None -> call_nonce c' = Some k ->
  call_nonces (<[i := c']> calls) ≡ₚ k :: call_nonces calls.
Proof. intros Hi Hc Hc'. destruct (call_nonces_insert calls i c c' Hi) as [-> ->]. rewrite Hc, Hc'. simpl. by rewrite Permutation_middle. Qed.

Lemma finish_Send_Ok r (m m' : SimpleTxManager E) : finish_Send r m = (Ok tt, m') ->
  tm_pending m' = tm_pending m - 1 /\ (is_ok r = true -> tm_nonce m' = tm_nonce m).
Proof. unfold finish_Send, bind, resetNonce, add_pending, set_nonce, modify. destruct (is_ok r); intros [= <-]; simpl; split; auto; done. Qed.

(** Every call that has not returned is counted as pending. *)
Lemma pending_counts_calls e x : rtc (Send_step cfg) (new_manager e) x ->
  tm_pending (mg_manager x) = sumZ (running <$> mg_calls x).
Proof.
  intros Hrun. refine (run_keeps _ (fun x => tm_pending (mg_manager x) = sumZ (running <$> mg_calls x)) _ _ _ Hrun _); [|done].
  clear -H0. intros x y Hst Hx. destruct Hst; simpl in *;
    try match goal with Hi : _ !! _ = Some _ |- _ => rewrite (sumZ_fmap_insert _ _ _ _ _ Hi) end; simpl;
    repeat match goal with
    | Hq : on_backend _ _ = _ |- _ => apply on_backend_same in Hq as [_ Hq]
    | Hq : craftTx _ _ _ = _ |- _ => apply craftTx_gives in Hq as [Hq _]
    | Hq : finish_Send _ _ = _ |- _ => apply finish_Send_Ok in Hq as [Hq _]
    | Hq : add_pending _ _ = _ |- _ => injection Hq as <-; simpl; rewrite fmap_app, sumZ_app; simpl
    end; lia.
Qed.

Lemma call_used_le calls : sumZ (call_used <$> calls) <= 30 * Z.of_nat (length calls).
Proof. induction calls as [|c calls IH]; [done|]. rewrite fmap_cons, length_cons. simpl. assert (call_used c <= 30) by (destruct c; simpl; lia). lia. Qed.

Record nonces_ok (B : Z) (x : manager (E := E)) : Prop := {
  no_none : tm_nonce (mg_manager x) = None -> call_nonces (mg_calls x) = [];
  no_some k : tm_nonce (mg_manager x) = Some k -> exists n0, 0 <= n0 <= B /\ n0 <= k /\
    k - n0 < sumZ (call_used <$> mg_calls x) /\
    NoDup (call_nonces (mg_calls x)) /\ Forall (fun n => n0 <= n <= k) (call_nonces (mg_calls x)) }.

(** The nonces stay as they are, or a new one is given, perhaps to a transaction. *)
Lemma nonces_ok_keep B m m' calls calls' : nonces_ok B (mkCalls m calls) -> tm_nonce m' = tm_nonce m ->
  call_nonces calls' = call_nonces calls -> sumZ (call_used <$> calls) <= sumZ (call_used <$> calls') -> nonces_ok B (mkCalls m' calls').
Proof.
  intros [F1 F2] Hm Hc Hu. simpl in *. split; simpl; rewrite Hm, Hc; [done|]. intros k Hk.
  destruct (F2 k Hk) as (n0 & ? & ? & ? & ? & ?). exists n0. split_and!; try done; lia.
Qed.
Lemma nonces_ok_next B m m' calls calls' k l :
  (forall a e n e', NonceAt a e = (Ok n, e') -> 0 <= n <= B) -> B + 30 * Z.of_nat (length calls) < two64 ->
  nonces_ok B (mkCalls m calls) -> next_of m k -> tm_nonce m' = Some k ->
  call_nonces calls' ≡ₚ l ++ call_nonces calls -> l = [] \/ l = [k] ->
  sumZ (call_used <$> calls) + 1 <= sumZ (call_used <$> calls') -> 0 <= sumZ (call_used <$> calls) -> nonces_ok B (mkCalls m' calls').
Proof.
  intros HB Hlen [F1 F2] Hn Hm Hp Hl Hu Hu0. simpl in *. pose proof (call_used_le calls). split; simpl; rewrite Hm; [done|].
  intros ? [= <-]. unfold next_of in Hn. destruct (tm_nonce m) as [k0|].
  - destruct (F2 k0 eq_refl) as (n0 & ? & ? & ? & Hnd & Hall). rewrite u64_small in Hn by lia. subst k. exists n0.
    split; [done|]. split; [lia|]. split; [lia|]. rewrite Hp. split.
    + destruct Hl as [->| ->]; [done|]. simpl. constructor; [|done]. intros Hin. rewrite Forall_forall in Hall. apply Hall in Hin. lia.
    + apply Forall_app. split; [destruct Hl as [->| ->]; repeat constructor; lia|]. eapply Forall_impl; [done|]. simpl. lia.
  - destruct Hn as (a & e & e' & Hn). apply HB in Hn. exists k. split; [done|]. split; [lia|]. split; [lia|]. rewrite Hp, F1 by done.
    destruct Hl as [->| ->]; simpl; split; repeat constructor; try lia; set_solver.
Qed.

Lemma call_used_nonneg calls : Forall (fun c => 0 <= call_used c) calls -> 0 <= sumZ (call_used <$> calls).
Proof. intros Hc. by apply sumZ_nonneg, Forall_fmap. Qed.

(** What every step keeps as long as no call fails. *)
Definition nonces_inv (B : Z) (x : manager (E := E)) : Prop :=
  Forall (fun c => 0 <= call_used c) (mg_calls x) /\
  (B + 30 * Z.of_nat (length (mg_calls x)) < two64 -> Forall (fun c => ~ failed c) (mg_calls x) -> nonces_ok B x).

Lemma no_failure_before calls i c c' : calls !! i = Some c -> ~ failed c ->
  Forall (fun c => ~ failed c) (<[i := c']> calls) -> Forall (fun c => ~ failed c) calls /\ ~ failed c'.
Proof.
  intros Hi Hc Hf. rewrite insert_take_drop in Hf by (by eapply lookup_lt_Some).
  apply Forall_app in Hf as [F1 [F2 F3]%Forall_cons]. split; [|done].
  rewrite <- (take_drop_middle calls i c Hi). apply Forall_app. split; [done|]. by constructor.
Qed.

(** A call changes: it keeps its nonce and no nonce is given, it fails, or a nonce is given,
    perhaps to its transaction. *)
Lemma inv_change B m m' calls i c c' : calls !! i = Some c -> ~ failed c -> call_used c <= call_used c' ->
  nonces_inv B (mkCalls m calls) ->
  (~ failed c' -> tm_nonce m' = tm_nonce m /\ call_nonce c' = call_nonce c) -> nonces_inv B (mkCalls m' (<[i := c']> calls)).
Proof.
  intros Hi Hf Hu [U I] Hk. unfold nonces_inv in *. simpl in *. pose proof (Forall_lookup_1 _ _ _ _ U Hi) as Uc. simpl in Uc.
  split; [apply Forall_insert; [done|lia]|]. rewrite length_insert. intros Hlen Hall.
  apply (no_failure_before _ _ c) in Hall as [Hall Hf']; [|done..]. destruct (Hk Hf') as [Hn Hc].
  eapply nonces_ok_keep; [by apply I|done|by eapply call_nonces_same|]. rewrite (sumZ_fmap_insert _ _ _ _ _ Hi). lia.
Qed.
Lemma inv_give B m m' calls i c c' k :
  (forall a e n e', NonceAt a e = (Ok n, e') -> 0 <= n <= B) ->
  calls !! i = Some c -> ~ failed c -> call_used c + 1 <= call_used c' -> nonces_inv B (mkCalls m calls) ->
  next_of m k -> tm_nonce m' = Some k -> call_nonce c = None -> call_nonce c' = None \/ call_nonce c' = Some k ->
  nonces_inv B (mkCalls m' (<[i := c']> calls)).
Proof.
  intros HB Hi Hf Hu [U I] Hnext Hm Hc Hc'. unfold nonces_inv in *. simpl in *. pose proof (Forall_lookup_1 _ _ _ _ U Hi) as Uc. simpl in Uc.
  split; [apply Forall_insert; [done|lia]|]. rewrite length_insert. intros Hlen Hall.
  apply (no_failure_before _ _ c) in Hall as [Hall _]; [|done..].
  apply (nonces_ok_next B m m' calls _ k (option_list (call_nonce c'))); try done; [by apply I| | | |by apply call_used_nonneg].
  - destruct Hc' as [Hn|Hn]; rewrite Hn; simpl; [|by apply (call_nonces_new _ _ c)]. by rewrite (call_nonces_same _ _ c) by congruence.
  - destruct Hc' as [->| ->]; auto.
  - rewrite (sumZ_fmap_insert _ _ _ _ _ Hi). lia.
Qed.

Lemma nonces_inv_step B x y :
  (forall a e n e', NonceAt a e = (Ok n, e') -> 0 <= n <= B) -> Send_step cfg x y -> nonces_inv B x -> nonces_inv B y.
Proof.
  intros HB Hst HI.
  destruct Hst as [m calls cand m' Hp|m calls i cand n last m1 tx m2 s e' Hi Hc Hk Hs|m calls i cand n last m1 err m2 Hi Hc Hk
    |m calls i cand n last m1 err m2 Hi Hc Hf|m calls i cand last m' r Hi Hr Hf|m calls i cand tx s s' e' Hi Hs
    |m calls i cand tx s r m' Hi Hs Hall Hf|m calls e'].
  - destruct HI as [U I]. unfold nonces_inv in *. simpl in *. injection Hp as <-. rewrite length_app. simpl.
    split; [by apply Forall_app; split; [|repeat constructor]|]. intros Hlen [Hall _]%Forall_app.
    eapply nonces_ok_keep; [apply I; [lia|done]|done|unfold call_nonces; rewrite omap_app; apply app_nil_r|].
    rewrite fmap_app, sumZ_app. simpl. lia.
  - apply on_backend_same in Hc as [Hn1 _]. apply craftTx_gives in Hk as [_ [[_ Hbad]|(k & Hn2 & Hnext & Htx)]]; [by destruct (Hbad tx)|].
    apply (inv_give B m _ calls i _ _ k HB Hi); simpl; try done; [by intros (? & ? & ? & ? & _)|lia| |].
    + unfold next_of in *. by rewrite <- Hn1.
    + right. unfold call_nonce. simpl. by rewrite (Htx _ eq_refl).
  - apply on_backend_same in Hc as [Hn1 _]. apply craftTx_gives in Hk as [_ [[Hn2 _]|(k & Hn2 & Hnext & _)]].
    + apply (inv_change B m _ calls i _ _ Hi); simpl; try done; [by intros (? & ? & ? & ? & _)|lia|]. intros _. split; [congruence|done].
    + apply (inv_give B m _ calls i _ _ k HB Hi); simpl; try done; [by intros (? & ? & ? & ? & _)|lia| |by left].
      unfold next_of in *. by rewrite <- Hn1.
  - apply (inv_change B m _ calls i _ _ Hi); simpl; try done; [by intros (? & ? & ? & ? & _)|lia|].
    intros Hbad. exfalso. apply Hbad. by do 3 eexists.
  - apply (inv_change B m _ calls i _ _ Hi); simpl; try done; [by intros (? & ? & ? & ? & _)|].
    intros Hbad. exfalso. apply Hbad. subst r. by do 3 eexists.
  - apply (inv_change B m _ calls i _ _ Hi); simpl; try done; [by intros (? & ? & ? & ? & _)].
  - apply (inv_change B m _ calls i _ _ Hi); simpl; try done; [by intros (? & ? & ? & ? & _)|].
    intros Hgood. split; [|done]. apply finish_Send_Ok in Hf as [_ Hf]. apply Hf. destruct (is_ok r) eqn:Er; [done|].
    exfalso. apply Hgood. by do 3 eexists.
  - destruct HI as [U I]. split; [done|]. simpl. intros Hlen Hall. eapply nonces_ok_keep; [by apply I|done|done|lia].
Qed.

(** C19: no nonce is used twice.  As long as no call of [Send] has failed, the transactions of
    the calls, whatever the order in which they ran and whatever attempts were repeated, have
    nonces that differ and are not above the last one handed out, and the calls that have not returned are counted as pending. *)
Theorem nonces_differ B e0 x :
  (forall a e n e', NonceAt a e = (Ok n, e') -> 0 <= n <= B) ->
  B + 30 * Z.of_nat (length (mg_calls x)) < two64 ->
  rtc (Send_step cfg) (new_manager e0) x -> Forall (fun c => ~ failed c) (mg_calls x) ->
  NoDup (call_nonces (mg_calls x)) /\
  (forall n, n ∈ call_nonces (mg_calls x) -> exists k, tm_nonce (mg_manager x) = Some k /\ n <= k) /\
  tm_pending (mg_manager x) = sumZ (running <$> mg_calls x).
Proof.
  intros HB Hlen Hrun Hf.
  assert (nonces_ok B x) as [F1 F2].
  { refine (proj2 (run_keeps _ (nonces_inv B) (fun x y => nonces_inv_step B x y HB) _ _ Hrun _) Hlen Hf). by repeat split. }
  destruct (tm_nonce (mg_manager x)) as [k|] eqn:Ek.
  - destruct (F2 k eq_refl) as (n0 & ? & ? & ? & Hnd & Hall). split; [done|]. split; [|by eapply pending_counts_calls].
    intros n Hn. exists k. split; [done|]. rewrite Forall_forall in Hall. by apply Hall.
  - rewrite F1 by done. split; [constructor|]. split; [by intros n ?%not_elem_of_nil|by eapply pending_counts_calls].
Qed.

(** ** What a call of [Send] returns *)

(** The transaction that [craftTx] makes of a candidate. *)
Definition crafted (candidate : TxCandidate) (tx : DynamicFeeTx) : Prop :=
  dt_ChainID tx = default 0 (xc_ChainID cfg) /\ dt_To tx = tc_To candidate /\ dt_Data tx = tc_TxData candidate /\
  dt_Value tx = default 0 (tc_Value candidate) /\ dt_AccessList tx = [].

Lemma craftTx_crafted candidate m tx m' : craftTx cfg candidate m = (Ok tx, m') -> crafted candidate (st_tx tx).
Proof.
  unfold craftTx. intros ([tip fee] & m1 & _ & (k & m2 & _ & (gas & m3 & _ & Hs)%bind_Ok)%bind_Ok)%bind_Ok.
  unfold on_backend, zoom in Hs. destruct (Signer _ _ _) as [rs e4] eqn:Es. injection Hs as -> _.
  apply Signer_signs in Es. by rewrite Es.
Qed.

(** A call and its run of [sendTx]. *)
Definition sends_in (tx : SignedTx) (s : sending) (x0 : E * sending) : Prop :=
  (exists ea, start_sending cfg tx ea = (Ok x0.2, x0.1)) /\ exists e, rtc (send_step cfg) x0 (e, s).
Definition call_ok (c : call) : Prop :=
  match c with
  | Crafting _ _ _ => True
  | Sending candidate tx s => crafted candidate (st_tx tx) /\ exists x0, sends_in tx s x0
  | Finished candidate tx r => forall receipt, r = Ok receipt ->
      exists tx0 x0, tx = Some tx0 /\ crafted candidate (st_tx tx0) /\
        (exists ea, start_sending cfg tx0 ea = (Ok x0.2, x0.1)) /\ confirmed_in cfg x0 tx0 receipt
  end.

Lemma call_ok_step x y : Send_step cfg x y -> Forall call_ok (mg_calls x) -> Forall call_ok (mg_calls y).
Proof.
  intros Hst HF.
  destruct Hst as [m calls cand m' Hp|m calls i cand n last m1 tx m2 s e' Hi Hc Hk Hs|m calls i cand n last m1 err m2 Hi Hc Hk
    |m calls i cand n last m1 err m2 Hi Hc Hf|m calls i cand last m' r Hi Hr Hf|m calls i cand tx s s' e' Hi Hs
    |m calls i cand tx s r m' Hi Hs Hall Hf|m calls e']; simpl in *; [..|done]; try apply Forall_insert; try done.
  - apply Forall_app. split; [done|]. by repeat constructor.
  - split; [by eapply craftTx_crafted|]. exists (e', s). split; [by eexists|]. exists e'. apply rtc_refl.
  - simpl. by subst r.
  - destruct (Forall_lookup_1 _ _ _ _ HF Hi) as [Hc ([e0 s0] & Hst & e1 & Hrun)]. split; [done|]. exists (e0, s0). split; [done|].
    exists e'. eapply rtc_r; [eapply rtc_r; [exact Hrun|apply send_others]|exact Hs].
  - destruct (Forall_lookup_1 _ _ _ _ HF Hi) as [Hc ([e0 s0] & [ea Hst] & e1 & Hrun)]. intros receipt ->.
    exists tx, (e0, s0). split; [done|]. split; [done|]. split; [by eexists|]. by eapply sendTx_receipt.
Qed.

(** A run of [sendTx] as steps of its call. *)
Lemma Send_sends_run n p calls i candidate tx e s y :
  rtc (send_step cfg) (e, s) y -> calls !! i = Some (Sending candidate tx s) ->
  rtc (Send_step cfg) (mkCalls (mkManager n p e) calls) (mkCalls (mkManager n p y.1) (<[i := Sending candidate tx y.2]> calls)).
Proof.
  intros Hrun. remember (e, s) as x eqn:Hx. revert e s calls Hx. induction Hrun as [x|x [e1 s1] y Hst Hrun IH]; intros e s calls -> Hi; simpl.
  - rewrite list_insert_id by done. apply rtc_refl.
  - eapply rtc_l; [by eapply (Send_sends cfg (mkManager n p e) calls i)|]. simpl.
    pose proof (lookup_lt_Some _ _ _ Hi). rewrite <- (list_insert_insert_eq calls i (Sending candidate tx y.2) (Sending candidate tx s1)).
    apply (IH e1 s1); [done|]. by apply list_lookup_insert_eq.
Qed.

Lemma Send_receipt e0 x candidate tx receipt :
  rtc (Send_step cfg) (new_manager e0) x ->
  Finished candidate tx (Ok receipt) ∈ mg_calls x ->
  exists tx0 x0, tx = Some tx0 /\ crafted candidate (st_tx tx0) /\
    (exists ea, start_sending cfg tx0 ea = (Ok x0.2, x0.1)) /\ confirmed_in cfg x0 tx0 receipt.
Proof.
  intros Hrun Hin. pose proof (run_keeps _ (fun x => Forall call_ok (mg_calls x)) call_ok_step _ _ Hrun ltac:(constructor)) as HF.
  rewrite Forall_forall in HF. exact (HF _ Hin receipt eq_refl).
Qed.

(** A receipt is one of a confirmed version of the candidate.  Whatever calls of [Send]
    run at the same time and however the environment changes: when one of them returns a
    receipt, it is the receipt of a transaction with the recipient, the data and the value
    of the candidate and with the nonce of the transaction created for it, that the backend
    accepted, and whose block was seen to be [NumConfirmations] blocks deep, counting the
    block itself. *)
Theorem Send_returns_confirmed e0 x candidate tx receipt :
  rtc (Send_step cfg) (new_manager e0) x ->
  Finished candidate tx (Ok receipt) ∈ mg_calls x ->
  exists tx0 x0, tx = Some tx0 /\ crafted candidate (st_tx tx0) /\
    (exists ea, start_sending cfg tx0 ea = (Ok x0.2, x0.1)) /\ confirmed_in cfg x0 tx0 receipt.
Proof.
  exact (Send_receipt e0 x candidate tx receipt).
Qed.
End Nonces.
