(* ===== verification/TxmgrExamples.v ===== *)
(** * The transaction manager on concrete backends

    Runs that meet the hypotheses of the theorems of [TxmgrSpec.v], and a nonce that is
    skipped. *)
From stdpp Require Import relations.
From S2P Require Import Prelude GoErrors GoBytes EthTypes Geth Txmgr TxmgrSpec.
#[local] Open Scope Z_scope.

(** ** A backend

    Its clock advances by a second at each look; whether the next transactions are accepted
    and the next estimates succeed is given; it checks the caps of the calls. *)
Record demo := mkDemo {
  d_clock : Z;
  d_accepts : list bool;
  d_estimates : list bool }.

Definition demo_EstimateGas (msg : CallMsg) : M demo Z := fun d =>
  if cm_GasFeeCap msg <? cm_GasTipCap msg then (Err (ErrNew "tip above fee cap"), d)
  else match d_estimates d with
       | false :: l => (Err (ErrNew "unavailable"), mkDemo (d_clock d) (d_accepts d) l)
       | l => (Ok 21000, mkDemo (d_clock d) (d_accepts d) (tail l))
       end.
Definition demo_SendTransaction (tx : SignedTx) : M demo unit := fun d =>
  match d_accepts d with
  | false :: l => (Err (ErrNew "nonce too low"), mkDemo (d_clock d) l (d_estimates d))
  | l => (Ok tt, mkDemo (d_clock d) (tail l) (d_estimates d))
  end.

#[export] Instance demo_backend : ETHBackend demo := {
  SuggestGasTipCap := ret (Some 100);
  HeaderByNumber := ret (Some 1000);
  NonceAt _ := ret 5;
  EstimateGas := demo_EstimateGas;
  SendTransaction := demo_SendTransaction;
  TransactionReceipt h := ret (Some (mkMinedReceipt h 77 20));
  BlockNumber := ret 24;
  Signer _ tx := ret (mkSignedTx tx []);
  tx_Hash tx := 1000000 * dt_Nonce (st_tx tx) + dt_GasFeeCap (st_tx tx);
  time_Now d := (Ok (d_clock d), mkDemo (d_clock d + 1) (d_accepts d) (d_estimates d));
  ctx_Err := ret None }.

#[export] Instance demo_lawful : LawfulBackend demo.
Proof.
  split.
  - by intros a tx e stx e' [= <- _].
  - by intros h e r e' [= <- _].
Qed.

#[export] Instance demo_checks : CheckingBackend (E := demo).
Proof.
  split.
  - intros msg e Hlt. do 2 eexists. unfold EstimateGas, demo_backend, demo_EstimateGas.
    replace (cm_GasFeeCap msg <? cm_GasTipCap msg) with true by (symmetry; by apply Z.ltb_lt). done.
  - intros e b e' [= <- _]. lia.
  - intros e t e' [= <- _]. lia.
Qed.

#[export] Instance demo_text : ErrorText := {
  Error e := match e with ErrNew s => s | _ => "" end;
  ErrNonceTooLow := "nonce too low" }.

Definition demo_cfg : TxConfig := mkTxConfig 48 (Some 1) 0 3 10 12 5 2 7.
Ltac pub_step i := eapply rtc_l; [eapply (send_publisher demo_cfg _ _ i); [reflexivity|first [by eapply pub_accepted|by eapply pub_refused|by eapply pub_query|by eapply pub_confirm|by eapply pub_deliver]]|]; simpl.

Section Frame.
Variable data : Data.

Definition demo_candidate : TxCandidate := mkCandidate data (Some 9) 21000 None.
Definition demo_tx : SignedTx := mkSignedTx (mkDynamicFeeTx 1 5 100 2100 21000 (Some 9) 0 data []) [].
Definition demo_state : SendState := mkSendState ∅ 0 3 0 2.
Definition demo_start : sending := mkSending demo_state None None demo_tx 0 Selecting [Publishing demo_tx].
Definition demo_receipt : MinedReceipt := mkMinedReceipt 5002100 77 20.

Example demo_crafts : (craftTx demo_cfg demo_candidate (mkManager None 0 (mkDemo 0 [] []))).1 = Ok demo_tx.
Proof. reflexivity. Qed.
Example demo_starts : start_sending demo_cfg demo_tx (mkDemo 0 [] []) = (Ok demo_start, mkDemo 1 [] []).
Proof. reflexivity. Qed.

(** The first version is accepted, mined in block 20, seen to be five blocks deep and
    returned. *)
Definition demo_delivered : sending :=
  mkSending (mkSendState {[5002100]} 0 3 1 2) (Some demo_receipt) None demo_tx 0 Selecting [Ended demo_tx (inl true)].
Lemma demo_delivers : rtc (send_step demo_cfg) (mkDemo 1 [] [], demo_start) (mkDemo 1 [] [], demo_delivered).
Proof.
  pub_step 0%nat. pub_step 0%nat. pub_step 0%nat. pub_step 0%nat. apply rtc_refl.
Qed.

Definition demo_returned : sending :=
  send_returns (Ok demo_receipt) (mkSending (mkSendState {[5002100]} 0 3 1 2) None None demo_tx 0 Selecting [Ended demo_tx (inl true)]).
Lemma demo_returns : rtc (send_step demo_cfg) (mkDemo 1 [] [], demo_start) (mkDemo 1 [] [], demo_returned).
Proof.
  eapply rtc_r; [exact demo_delivers|]. apply send_loop_step.
  by apply (loop_receipt demo_cfg (mkDemo 1 [] []) demo_delivered demo_receipt).
Qed.

(** The same call through [Send]. *)
Definition demo_finished : manager :=
  mkCalls (mkManager (Some 5) 0 (mkDemo 1 [] [])) [Finished demo_candidate (Some demo_tx) (Ok demo_receipt)].
Lemma demo_calls_Send : rtc (Send_step demo_cfg) (new_manager (mkDemo 0 [] [])) demo_finished.
Proof.
  unfold new_manager. eapply rtc_l; [by eapply (Send_call demo_cfg _ _ demo_candidate)|]. simpl.
  assert (craftTx demo_cfg demo_candidate (mkManager None 1 (mkDemo 0 [] [])) = (Ok demo_tx, mkManager (Some 5) 1 (mkDemo 0 [] []))) as Hc
    by reflexivity.
  eapply rtc_l; [eapply (Send_created demo_cfg _ _ 0); [reflexivity|reflexivity|exact Hc|exact demo_starts]|]. simpl.
  etrans; [by apply (Send_sends_run demo_cfg (Some 5) 1 _ 0 demo_candidate demo_tx _ _ _ demo_returns)|]. eapply rtc_l; [|apply rtc_refl].
  apply (Send_returns demo_cfg (mkManager (Some 5) 1 (mkDemo 1 [] [])) [Sending demo_candidate demo_tx demo_returned] 0
           demo_candidate demo_tx demo_returned (Ok demo_receipt) (mkManager (Some 5) 0 (mkDemo 1 [] []))); try reflexivity.
  repeat constructor. by do 2 eexists.
Qed.

End Frame.

(** ** The hypotheses of the theorems hold *)
Lemma bump_keeps_promises_witness :
  0 <= 100 <= 2100 /\
  let '(newTip, newFee) := bumpFees 100 2100 90 900 in
  0 <= newTip <= newFee /\
  newTip <= 5 * 90 /\ newFee <= calcGasFeeCap (5 * 900) (5 * 90) /\
  (newTip = 5 * 90 \/ 90 <= newTip /\ 110 * 100 < 100 * newTip + 100) /\
  (newFee = calcGasFeeCap (5 * 900) (5 * 90) \/
   calcGasFeeCap 900 90 <= newFee /\ 110 * 2100 < 100 * newFee + 100).
Proof. split; [lia|]. apply (bump_keeps_promises 100 2100 90 900); lia. Defined.

Lemma bumping_reaches_limit_witness : bump_times 400 (10, 20) 10 30 = (50, calcGasFeeCap 150 50).
Proof. apply (bumping_reaches_limit 400 10 20 10 30); lia. Defined.

Lemma Send_returns_confirmed_witness :
  exists tx0 x0, Some (demo_tx []) = Some tx0 /\ crafted demo_cfg (demo_candidate []) (st_tx tx0) /\
    (exists ea, start_sending demo_cfg tx0 ea = (Ok x0.2, x0.1)) /\ confirmed_in demo_cfg x0 tx0 demo_receipt.
Proof.
  apply (Send_returns_confirmed demo_cfg (mkDemo 0 [] []) (demo_finished []) (demo_candidate []) (Some (demo_tx [])) demo_receipt (demo_calls_Send [])). by left.
Defined.

Lemma handed_over_receipt_returned_witness :
  exists r, receipt_ok demo_cfg (mkDemo 1 [] [], (demo_start [])) r /\
    (sd_loop (demo_delivered []) = Returned (Ok r) \/
     sd_receiptChan (demo_delivered []) = Some r /\
     (sd_loop (demo_delivered []) = Selecting ->
      exists s', send_step demo_cfg (mkDemo 1 [] [], (demo_delivered [])) (mkDemo 1 [] [], s') /\ sd_loop s' = Returned (Ok r))).
Proof.
  apply (handed_over_receipt_returned demo_cfg (demo_tx []) (mkDemo 0 [] []) _ (demo_start []) _ (demo_delivered []) (demo_starts []) (demo_delivers [])).
  exists (demo_tx []). by left.
Defined.

Lemma fees_are_never_raised_witness :
  sd_bumpCounter (demo_delivered []) = 0 /\ pub_tx <$> sd_publishers (demo_delivered []) = [(demo_tx [])].
Proof.
  exact (fees_are_never_raised demo_cfg (demo_tx []) (mkDemo 0 [] []) _ (demo_start []) _ (demo_delivered []) eq_refl (demo_starts []) (demo_delivers [])).
Defined.

(** The only version is refused, no new one can be made, and after a few ticks the time in
    which a version has to be accepted has passed. *)
Definition demo_refused (l : send_loop) : sending :=
  mkSending (mkSendState ∅ 1 3 0 2) None None (demo_tx []) 0 l [Ended (demo_tx []) (inr (ErrNew "nonce too low"))].
Ltac idle_round :=
  eapply rtc_l; [by apply send_loop_step, loop_tick|]; simpl;
  eapply rtc_l; [by apply send_loop_step, loop_waiting|]; simpl;
  eapply rtc_l; [by eapply send_loop_step, loop_go_on|]; simpl;
  eapply rtc_l; [by eapply send_loop_step, loop_increase_error|]; simpl.
Lemma demo_waits : rtc (send_step demo_cfg) (mkDemo 1 [false] [], (demo_start [])) (mkDemo 4 [] [], demo_refused Unmined).
Proof.
  pub_step 0%nat. idle_round. idle_round. idle_round.
  eapply rtc_l; [by apply send_loop_step, loop_tick|]; simpl.
  eapply rtc_l; [by apply send_loop_step, loop_waiting|]; simpl. apply rtc_refl.
Qed.

Lemma abort_is_justified_witness :
  ss_minedTxs (sd_state (demo_refused Unmined)) = ∅ /\
  (xc_SafeAbortNonceTooLowCount demo_cfg <= refused_count (demo_refused Unmined) \/
   Forall (fun p => was_accepted p = 0) (sd_publishers (demo_refused Unmined)) /\
   exists start now, time_Now (mkDemo 0 [false] []) = (Ok start, mkDemo 1 [false] []) /\
     time_Now (mkDemo 4 [] []) = (Ok now, mkDemo 5 [] []) /\ start + xc_TxNotInMempoolTimeout demo_cfg < now).
Proof.
  assert (start_sending demo_cfg (demo_tx []) (mkDemo 0 [false] []) = (Ok (demo_start []), mkDemo 1 [false] [])) as Hs by reflexivity.
  apply (abort_is_justified demo_cfg (demo_tx []) (mkDemo 0 [false] []) (mkDemo 1 [false] []) (demo_start []) _ _ _ (send_returns (Err ErrAborted) (demo_refused Unmined)) Hs demo_waits eq_refl);
    [by eapply loop_abort|done|done].
Defined.

(** Two calls of [Send] at the same time: the first attempt of one of them fails after the
    nonce was handed out. *)
Definition gas_candidate : TxCandidate := mkCandidate [] (Some 9) 0 None.
Definition demo_tx6 : SignedTx := mkSignedTx (mkDynamicFeeTx 1 6 100 2100 21000 (Some 9) 0 [] []) [].
Definition demo_tx7 : SignedTx := mkSignedTx (mkDynamicFeeTx 1 7 100 2100 21000 (Some 9) 0 [] []) [].
Definition demo_sending (tx : SignedTx) (now : Z) : sending :=
  mkSending (mkSendState ∅ 0 (now + 3) 0 2) None None tx 0 Selecting [Publishing tx].
Definition demo_calls : list call :=
  [Sending gas_candidate demo_tx7 (demo_sending demo_tx7 1); Sending gas_candidate demo_tx6 (demo_sending demo_tx6 0)].
Definition demo_manager : manager := mkCalls (mkManager (Some 7) 2 (mkDemo 2 [] [])) demo_calls.

Lemma demo_attempt_fails : craftTx demo_cfg gas_candidate (mkManager None 2 (mkDemo 0 [] [false])) =
  (Err (ErrWrap "failed to estimate gas" (ErrNew "unavailable")), mkManager (Some 5) 2 (mkDemo 0 [] [])).
Proof. reflexivity. Qed.
Lemma demo_attempt_6 : craftTx demo_cfg gas_candidate (mkManager (Some 5) 2 (mkDemo 0 [] [])) =
  (Ok demo_tx6, mkManager (Some 6) 2 (mkDemo 0 [] [])).
Proof. reflexivity. Qed.
Lemma demo_attempt_7 : craftTx demo_cfg gas_candidate (mkManager (Some 6) 2 (mkDemo 1 [] [])) =
  (Ok demo_tx7, mkManager (Some 7) 2 (mkDemo 1 [] [])).
Proof. reflexivity. Qed.

Lemma demo_sends : rtc (Send_step demo_cfg) (new_manager (mkDemo 0 [] [false])) demo_manager.
Proof.
  unfold new_manager. eapply rtc_l; [by eapply (Send_call demo_cfg _ _ gas_candidate)|]. simpl.
  eapply rtc_l; [by eapply (Send_call demo_cfg _ _ gas_candidate)|]. simpl.
  eapply rtc_l; [eapply (Send_retry demo_cfg _ _ 0); [reflexivity|reflexivity|exact demo_attempt_fails]|]. simpl.
  eapply rtc_l; [eapply (Send_created demo_cfg _ _ 1); [reflexivity|reflexivity|exact demo_attempt_6|reflexivity]|]. simpl.
  eapply rtc_l; [eapply (Send_created demo_cfg _ _ 0); [reflexivity|reflexivity|exact demo_attempt_7|reflexivity]|]. simpl. apply rtc_refl.
Qed.

Lemma nonces_differ_witness :
  NoDup (call_nonces (mg_calls demo_manager)) /\
  (forall n, n ∈ call_nonces (mg_calls demo_manager) -> exists k, tm_nonce (mg_manager demo_manager) = Some k /\ n <= k) /\
  tm_pending (mg_manager demo_manager) = sumZ (running <$> mg_calls demo_manager).
Proof.
  apply (nonces_differ demo_cfg 5 (mkDemo 0 [] [false]) demo_manager); [by intros a e n e' [= <- _]|done|exact demo_sends|].
  repeat constructor; by intros (? & ? & ? & ? & _).
Defined.

(** ** A nonce that no transaction has

    When an attempt to create a transaction fails after [nextNonce], as when the gas cannot
    be estimated, the next attempt takes the nonce after it: the backend says that the next
    nonce of the account is 5, and the one transaction of the manager has nonce 6. *)
Theorem failed_attempt_skips_nonce :
  (NonceAt (xc_From demo_cfg) (mkDemo 0 [] [false])).1 = Ok 5 /\
  (createTx demo_cfg gas_candidate (mkManager None 0 (mkDemo 0 [] [false]))).1 = Ok demo_tx6.
Proof. split; reflexivity. Qed.
