(* ===== verification/ChannelBank.v ===== *)
(** * The channel bank and the channel reader stages

    [op-node/rollup/derive/channel_bank.go] keeps the open channels in first-in
    first-out order, prunes the oldest ones when they take too much memory, and
    emits the data of the first channel when it is complete.
    [channel_in_reader.go] turns channel data into batches. *)
From S2P Require Import Prelude GoErrors GoBytes EthTypes Frame Channel Batch.
#[local] Open Scope Z_scope.

Module ChannelBank.
Section ChannelBank.
Context {P : Type} `{NextFrameProvider P}.
Context (cfg : Config).

(** The bank; [*Channel] values are reached through the map only. *)
Record t := mk {
  channels : gmap ChannelID Channel;
  channelQueue : list ChannelID;
  prev : P }.

(** [NewChannelBank]. *)
Definition new (p : P) : t := mk ∅ [] p.

(** [ChannelBank.Origin]. *)
Definition Origin (cb : t) : L1BlockRef := nfp_Origin (prev cb).

(** The total size computed at the start of [prune]. *)
Definition total_size (chans : gmap ChannelID Channel) : Z :=
  foldl (fun totalSize ch => totalSize +u ch_size ch) 0 (map_to_list chans).*2.

(** The loop of [prune]; it panics on the head of an empty queue or on a nil
    channel.  Each iteration shortens the queue. *)
Fixpoint prune_loop (totalSize : Z) (queue : list ChannelID) (chans : gmap ChannelID Channel)
    : result (list ChannelID * gmap ChannelID Channel) :=
  if negb (MaxChannelBankSize <? totalSize) then Ok (queue, chans) else
  match queue with
  | [] => Panic
  | id :: queue' =>
      match chans !! id with
      | None => Panic
      | Some ch => prune_loop (totalSize -u ch_size ch) queue' (delete id chans)
      end
  end.

(** [ChannelBank.prune]. *)
Definition prune (cb : t) : result t :=
  let? (queue, chans) :=
    prune_loop (total_size (channels cb)) (channelQueue cb) (channels cb) in
  Ok (mk chans queue (prev cb)).

(** [ChannelBank.IngestFrame]. *)
Definition IngestFrame (f : Frame) (cb : t) : result t :=
  let origin := Origin cb in
  let '(currentCh, chans, queue) :=
    match channels cb !! ID f with
    | Some ch => (ch, channels cb, channelQueue cb)
    | None =>
        let ch := NewChannel (ID f) origin in
        (ch, <[ID f := ch]> (channels cb), channelQueue cb ++ [ID f])
    end in
  if OpenBlockNumber currentCh +u ChannelTimeout cfg <? l1_Number origin then
    Ok (mk chans queue (prev cb))
  else
    match AddFrame f origin currentCh with
    | (Err _, ch') => Ok (mk (<[ID f := ch']> chans) queue (prev cb))
    | (Panic, _) => Panic
    | (Ok _, ch') => prune (mk (<[ID f := ch']> chans) queue (prev cb))
    end.

(** [ChannelBank.Read]. *)
Definition Read : M t Data := fun cb =>
  match channelQueue cb with
  | [] => (Err EOF, cb)
  | first :: queue' =>
      match channels cb !! first with
      | None => (Panic, cb)
      | Some ch =>
          let timedOut := OpenBlockNumber ch +u ChannelTimeout cfg <? l1_Number (Origin cb) in
          if timedOut then
            (Ok [], mk (delete first (channels cb)) queue' (prev cb))
          else if negb (IsReady ch) then (Err EOF, cb)
          else
            match Reader ch with
            | None => (Panic, cb)
            | Some data => (Ok data, mk (delete first (channels cb)) queue' (prev cb))
            end
      end
  end.

(** [ChannelBank.NextData]: read first, and load one frame only when there is
    nothing to read. *)
Definition NextData : M t Data := fun cb =>
  match Read cb with
  | (Ok data, cb1) => (Ok data, cb1)
  | (Panic, cb1) => (Panic, cb1)
  | (Err err, cb1) =>
      if negb (err_eqb err EOF) then (Err err, cb1) else
      match nfp_NextFrame (prev cb1) with
      | (Err e, p) => (Err e, mk (channels cb1) (channelQueue cb1) p)
      | (Panic, p) => (Panic, mk (channels cb1) (channelQueue cb1) p)
      | (Ok frame, p) =>
          let cb2 := mk (channels cb1) (channelQueue cb1) p in
          match IngestFrame frame cb2 with
          | Ok cb3 => (Err NotEnoughData, cb3)
          | _ => (Panic, cb2)
          end
      end
  end.

(** [ChannelBank.Reset]. *)
Definition Reset : M t unit := fun cb => (Err EOF, mk ∅ [] (prev cb)).

(** ** The bank invariant

    The queue lists each open channel once, every channel is well formed, and
    the total size stays at or below the limit. *)
Definition bank_size (chans : gmap ChannelID Channel) : Z := map_sum ch_size chans.

Record bank_inv (cb : t) : Prop := {
  bi_queue_nodup : NoDup (channelQueue cb);
  bi_queue id : id ∈ channelQueue cb <-> is_Some (channels cb !! id);
  bi_channel id ch : channels cb !! id = Some ch -> channel_inv ch /\ ch_id ch = id;
  bi_size : bank_size (channels cb) <= MaxChannelBankSize }.

Lemma new_inv p : bank_inv (new p).
Proof.
  split; simpl; [constructor| |done|unfold bank_size; by rewrite map_sum_empty].
  intros id. rewrite lookup_empty. split; [set_solver|by intros []].
Qed.

Lemma foldl_add_u64 {A} (f : A -> Z) l z :
  foldl (fun s x => s +u f x) (u64 z) l = u64 (z + sumZ (f <$> l)).
Proof.
  revert z. induction l as [|x l IH]; intros z; cbn [foldl fmap list_fmap sumZ foldr].
  - f_equal. lia.
  - rewrite u64_add_l, IH. f_equal. unfold sumZ. lia.
Qed.

Lemma total_size_spec chans : total_size chans = u64 (bank_size chans).
Proof. unfold total_size. change 0 with (u64 0). by rewrite foldl_add_u64. Qed.

(** What [prune] needs of the queue and the channels it works on: the invariant
    without the size bound, and sizes too small to wrap around. *)
Record prunable (queue : list ChannelID) (chans : gmap ChannelID Channel) : Prop := {
  pr_nodup : NoDup queue;
  pr_queue id : id ∈ queue <-> is_Some (chans !! id);
  pr_channel id ch : chans !! id = Some ch -> channel_inv ch /\ ch_id ch = id;
  pr_small : bank_size chans < two64 }.

Lemma ch_size_nonneg ch : channel_inv ch -> 0 <= ch_size ch.
Proof. intros Hch. apply (inv_size _ Hch). Qed.

Lemma bank_size_nonneg queue chans : prunable queue chans -> 0 <= bank_size chans.
Proof.
  intros Hp. apply map_sum_nonneg_in. intros id ch Hch.
  apply ch_size_nonneg, (pr_channel _ _ Hp id ch Hch).
Qed.

Lemma prunable_tail id queue chans ch :
  prunable (id :: queue) chans -> chans !! id = Some ch ->
  prunable queue (delete id chans) /\ bank_size chans = ch_size ch + bank_size (delete id chans).
Proof.
  intros Hp Hch. pose proof (map_sum_delete ch_size chans id ch Hch) as Hsum.
  pose proof (pr_nodup _ _ Hp) as [Hnew Hnd]%NoDup_cons.
  split; [|done]. split.
  - done.
  - intros id'. destruct (decide (id' = id)) as [->|Hne].
    + rewrite lookup_delete_eq. split; [done|by intros []].
    + rewrite lookup_delete_ne by done. rewrite <- (pr_queue _ _ Hp). set_solver.
  - intros id' ch' [_ Hch']%lookup_delete_Some. by apply (pr_channel _ _ Hp).
  - pose proof (pr_small _ _ Hp). pose proof (ch_size_nonneg ch).
    destruct (pr_channel _ _ Hp id ch Hch) as [Hi _]. unfold bank_size in *. specialize (H1 Hi). lia.
Qed.

(** What the loop of [prune] achieves: it drops the shortest prefix of the queue
    that brings the total size to the limit. *)
Lemma prune_loop_spec queue chans :
  prunable queue chans ->
  exists k queue' chans',
    prune_loop (u64 (bank_size chans)) queue chans = Ok (queue', chans') /\
    prunable queue' chans' /\ queue' = drop k queue /\
    (forall id, chans' !! id = if decide (id ∈ take k queue) then None else chans !! id) /\
    bank_size chans' <= MaxChannelBankSize /\
    (forall j id ch, k = S j -> queue !! j = Some id -> chans !! id = Some ch ->
       MaxChannelBankSize < ch_size ch + bank_size chans').
Proof.
  revert chans. induction queue as [|id queue IH]; intros chans Hp;
    pose proof (bank_size_nonneg _ _ Hp); pose proof (pr_small _ _ Hp); cbn [prune_loop];
    rewrite u64_small by lia; destruct (Z.ltb_spec MaxChannelBankSize (bank_size chans)) as [Hgt|Hle];
    cbn [negb].
  - assert (chans = ∅) as ->.
    { apply map_empty. intros id. apply eq_None_not_Some.
      rewrite <- (pr_queue _ _ Hp). set_solver. }
    unfold bank_size in *. rewrite map_sum_empty in *. done.
  - exists 0%nat, [], chans. split_and!; try done; intros i; by rewrite decide_False by set_solver.
  - destruct (pr_queue _ _ Hp id) as [[ch Hch] _]; [set_solver|]. rewrite Hch.
    destruct (prunable_tail _ _ _ _ Hp Hch) as [Hp' Hsum].
    destruct (IH (delete id chans) Hp') as (k & q' & c' & Hloop & Hpr & Hq & Hc & Hsz & Hmin).
    exists (S k), q', c'. rewrite Hsum at 1.
    replace (ch_size ch + bank_size (delete id chans) - ch_size ch)
      with (bank_size (delete id chans)) by lia.
    split_and!; [done..| |done|].
    + intros i. rewrite Hc. cbn [take]. destruct (decide (i = id)) as [->|Hne].
      * rewrite lookup_delete_eq.
        destruct (decide (id ∈ id :: take k queue)) as [|Hn]; [|exfalso; apply Hn; left].
        by case_decide.
      * rewrite lookup_delete_ne by done.
        destruct (decide (i ∈ take k queue)); [rewrite decide_True by set_solver; done|].
        by rewrite decide_False by set_solver.
    + intros [|j] i chi [= ->] Hj Hi.
      * simpl in Hj. injection Hj as <-. rewrite Hch in Hi. injection Hi as <-.
        assert (c' = delete id chans) as ->; [|lia].
        apply map_eq. intros i'. rewrite Hc. by rewrite decide_False by set_solver.
      * simpl in Hj. eapply (Hmin j i chi); [done|done|].
        pose proof (pr_nodup _ _ Hp) as [Hnew _]%NoDup_cons.
        rewrite lookup_delete_ne; [done|]. intros ->. apply Hnew.
        by eapply list_elem_of_lookup_2.
  - exists 0%nat, (id :: queue), chans. split_and!; try done.
    all: intros i; by rewrite decide_False by set_solver.
Qed.

Lemma prune_inv cb :
  prunable (channelQueue cb) (channels cb) ->
  exists cb', prune cb = Ok cb' /\ bank_inv cb' /\ prev cb' = prev cb.
Proof.
  intros Hp. destruct (prune_loop_spec _ _ Hp) as (k & q' & c' & Hl & Hpr & _ & _ & Hsz & _).
  unfold prune. rewrite total_size_spec, Hl. eexists. split; [done|]. split; [|done].
  by split; destruct Hpr.
Qed.

Lemma bank_inv_prunable cb : bank_inv cb -> prunable (channelQueue cb) (channels cb).
Proof. intros [? ? ? ?]. split; [done..|]. unfold MaxChannelBankSize, two64 in *. lia. Qed.

Lemma bank_size_insert chans id ch ch' :
  chans !! id = Some ch ->
  bank_size (<[id := ch']> chans) = bank_size chans - ch_size ch + ch_size ch'.
Proof.
  intros Hch. unfold bank_size. rewrite (map_sum_delete ch_size chans id ch Hch).
  rewrite <- insert_delete_eq, map_sum_insert by apply lookup_delete_eq. lia.
Qed.

(** Replacing the channel of an id by a well-formed one keeps the bookkeeping. *)
Lemma prunable_insert queue chans id ch ch' :
  prunable queue chans -> chans !! id = Some ch -> channel_inv ch' -> ch_id ch' = id ->
  bank_size (<[id := ch']> chans) < two64 -> prunable queue (<[id := ch']> chans).
Proof.
  intros Hp Hch Hinv Hid Hsmall. split; [apply Hp| | |done].
  - intros i. rewrite (pr_queue _ _ Hp), lookup_insert. case_decide; [subst|done].
    rewrite Hch. split; intros; by eexists.
  - intros i c. rewrite lookup_insert. case_decide; [intros [= <-]; by subst|apply (pr_channel _ _ Hp)].
Qed.

(** The bank with the channel of [f] opened if needed. *)
Lemma opened_inv cb f ch chans queue :
  bank_inv cb ->
  (match channels cb !! ID f with
   | Some ch => (ch, channels cb, channelQueue cb)
   | None => (NewChannel (ID f) (Origin cb), <[ID f := NewChannel (ID f) (Origin cb)]> (channels cb),
              channelQueue cb ++ [ID f])
   end) = (ch, chans, queue) ->
  chans !! ID f = Some ch /\ bank_inv (mk chans queue (prev cb)).
Proof.
  intros Hinv. destruct (channels cb !! ID f) as [c|] eqn:E; intros [= <- <- <-].
  { split; [done|]. destruct cb. done. }
  rewrite lookup_insert_eq. split; [done|].
  assert (ID f ∉ channelQueue cb) as Hnew.
  { rewrite (bi_queue _ Hinv), E. by intros []. }
  split; cbn [channels channelQueue].
  - apply NoDup_app. split; [apply Hinv|]. split; [set_solver|apply NoDup_singleton].
  - intros i. rewrite elem_of_app, list_elem_of_singleton, (bi_queue _ Hinv), lookup_insert.
    case_decide; [subst; split; intros; [by eexists|by right]|].
    split; [intros [?|?]; [done|congruence]|by left].
  - intros i c. rewrite lookup_insert. case_decide; [|apply (bi_channel _ Hinv)].
    intros [= <-]. subst. split; [apply NewChannel_inv|done].
  - unfold bank_size. rewrite map_sum_insert by done. simpl. apply (bi_size _ Hinv).
Qed.

Lemma IngestFrame_inv f cb :
  bank_inv cb -> frame_wf f ->
  exists cb', IngestFrame f cb = Ok cb' /\ bank_inv cb' /\ prev cb' = prev cb.
Proof.
  intros Hinv Hwf. unfold IngestFrame.
  destruct (match channels cb !! ID f with Some _ => _ | None => _ end)
    as [[ch chans] queue] eqn:E.
  apply opened_inv in E as [Hch Hopen]; [|done].
  destruct (bi_channel _ Hopen (ID f) ch Hch) as [Hci Hcid].
  case_if; [by eexists|].
  destruct (AddFrame f (Origin cb) ch) as [r ch'] eqn:Ea.
  destruct (AddFrame_not_Ok _ _ _ _ _ Ea) as [->|[-> [e ->]]].
  - apply (prune_inv (mk (<[ID f:=ch']> chans) queue (prev cb))). cbn [channels channelQueue].
    eapply (prunable_insert queue chans); [by apply (bank_inv_prunable _ Hopen)|done| | |].
    + by eapply AddFrame_inv_Ok.
    + apply AddFrame_state in Ea as (-> & _). done.
    + rewrite (bank_size_insert _ _ ch) by done.
      apply AddFrame_size in Ea as [-> _]; [|done..].
      pose proof (frameSize_bound f Hwf). pose proof (bi_size _ Hopen) as Hsz. simpl in Hsz.
      pose proof (ch_size_nonneg ch Hci).
      unfold MaxChannelBankSize, two64 in *. case_if; lia.
  - rewrite insert_id by done. by eexists.
Qed.

Lemma removed_inv cb first queue' :
  bank_inv cb -> channelQueue cb = first :: queue' ->
  bank_inv (mk (delete first (channels cb)) queue' (prev cb)).
Proof.
  intros Hinv Hq. pose proof (bank_inv_prunable _ Hinv) as Hp. rewrite Hq in Hp.
  destruct (pr_queue _ _ Hp first) as [[ch Hch] _]; [set_solver|].
  pose proof (bi_channel _ Hinv first ch Hch) as [Hci _].
  destruct (prunable_tail _ _ _ _ Hp Hch) as [[] Hsum]. split; try done.
  cbn [channels]. pose proof (bi_size _ Hinv). pose proof (ch_size_nonneg ch Hci). lia.
Qed.

Lemma Read_inv cb :
  bank_inv cb ->
  exists r cb', Read cb = (r, cb') /\ r <> Panic /\ bank_inv cb' /\ prev cb' = prev cb.
Proof.
  intros Hinv. unfold Read. destruct (channelQueue cb) as [|first queue'] eqn:Hq.
  { by do 2 eexists. }
  destruct (bi_queue _ Hinv first) as [[ch Hch] _]; [rewrite Hq; left|].
  rewrite Hch. pose proof (bi_channel _ Hinv first ch Hch) as [Hci _].
  case_if; [do 2 eexists; split; [done|]; split; [done|]; split; [by apply removed_inv|done]|].
  destruct (IsReady ch) eqn:Hr; cbn [negb]; [|by do 2 eexists].
  destruct (IsReady_Reader ch Hr) as [data ->].
  do 2 eexists; split; [done|]; split; [done|]; split; [by apply removed_inv|done].
Qed.

(** The channel bank never panics and never exceeds its memory limit.  From a
    state that satisfies the invariant (the queue lists each open channel once,
    channels are well formed, total size at most [MaxChannelBankSize]), over any
    frame provider that keeps its promise, [NextData] returns without panic to a
    state that satisfies the invariant again. *)
Theorem NextData_preserves_bank_inv `{!LawfulFrameProvider P} cb :
  bank_inv cb -> nfp_inv (prev cb) ->
  (NextData cb).1 <> Panic /\ bank_inv (NextData cb).2 /\ nfp_inv (prev (NextData cb).2).
Proof.
  intros Hinv Hp. unfold NextData.
  destruct (Read_inv cb Hinv) as (r & cb1 & -> & Hr & Hinv1 & Hprev1).
  assert (Hp1 : nfp_inv (prev cb1)) by (by rewrite Hprev1).
  destruct r as [data|err|]; [done| |done].
  case_if; [done|].
  destruct (nfp_NextFrame (prev cb1)) as [rf p] eqn:Ef.
  apply nfp_law in Ef as (Hp' & Hnp & Hwf); [|done].
  assert (Hinv2 : bank_inv (mk (channels cb1) (channelQueue cb1) p)) by (by destruct Hinv1; split).
  destruct rf as [f|e|]; [|done..].
  destruct (IngestFrame_inv f _ Hinv2 (Hwf f eq_refl)) as (cb3 & -> & Hinv3 & Hprev3).
  simpl. by rewrite Hprev3.
Qed.

(** Pruning is first-in first-out and minimal: it removes the shortest prefix of
    the queue of channels after which the total size is within the limit, and
    touches no other channel. *)
Theorem prune_oldest_first cb :
  prunable (channelQueue cb) (channels cb) ->
  exists k cb', prune cb = Ok cb' /\
    channelQueue cb' = drop k (channelQueue cb) /\
    (forall id, channels cb' !! id =
       if decide (id ∈ take k (channelQueue cb)) then None else channels cb !! id) /\
    bank_size (channels cb') <= MaxChannelBankSize /\
    (forall j id ch, k = S j -> channelQueue cb !! j = Some id -> channels cb !! id = Some ch ->
       MaxChannelBankSize < ch_size ch + bank_size (channels cb')).
Proof.
  intros Hp. destruct (prune_loop_spec _ _ Hp) as (k & q' & c' & Hl & _ & Hq & Hc & Hsz & Hmin).
  exists k, (mk c' q' (prev cb)). unfold prune. by rewrite total_size_spec, Hl.
Qed.
End ChannelBank.
Arguments t : clear implicits.

(** A bank over a scripted source that offers one frame of a new channel. *)
Definition example_bank : t (FrameQueue.t scripted) :=
  new (FrameQueue.mk [] (mkScripted
    [DerivationVersion0 :: MarshalBinary (mkFrame 7 0 [Byte.x61] true)] zeroL1)).

Definition example_cfg : Config :=
  mkConfig (mkGenesis (mkBlockID 1 1) (mkBlockID 2 0) 1000 (mkSystemConfig 1 1 1 1))
    2 600 3600 300 (Some 1) (Some 10) None 3 4 5.

Lemma NextData_preserves_bank_inv_witness :
  (NextData example_cfg example_bank).1 <> Panic /\
  bank_inv (NextData example_cfg example_bank).2 /\
  nfp_inv (prev (NextData example_cfg example_bank).2).
Proof.
  apply (NextData_preserves_bank_inv example_cfg example_bank).
  - apply new_inv.
  - by split.
Defined.

(** The same bank after one frame. *)
Definition example_frame : Frame := mkFrame 7 0 [Byte.x61] false.
Definition one_channel_bank : t (FrameQueue.t scripted) :=
  mk {[7 := (AddFrame example_frame zeroL1 (NewChannel 7 zeroL1)).2]} [7] (prev example_bank).

Lemma one_channel_bank_inv : bank_inv one_channel_bank.
Proof.
  destruct (IngestFrame_inv example_cfg example_frame example_bank) as (cb' & H & Hinv & _).
  - apply new_inv.
  - by_decide.
  - assert (IngestFrame example_cfg example_frame example_bank = Ok one_channel_bank) as Hc
      by (vm_compute; reflexivity).
    rewrite Hc in H. by injection H as <-.
Qed.

Lemma prune_oldest_first_witness :
  exists k cb', prune one_channel_bank = Ok cb' /\
    channelQueue cb' = drop k (channelQueue one_channel_bank) /\
    (forall id, channels cb' !! id =
       if decide (id ∈ take k (channelQueue one_channel_bank)) then None
       else channels one_channel_bank !! id) /\
    bank_size (channels cb') <= MaxChannelBankSize /\
    (forall j id ch, k = S j -> channelQueue one_channel_bank !! j = Some id ->
       channels one_channel_bank !! id = Some ch ->
       MaxChannelBankSize < ch_size ch + bank_size (channels cb')).
Proof. apply (prune_oldest_first one_channel_bank), bank_inv_prunable, one_channel_bank_inv. Defined.
End ChannelBank.

(** The channel bank offers its data to the channel reader. *)
Module ChannelInReader.
Section ChannelInReader.
Context {P : Type} `{NextFrameProvider P}.
Context (cfg : Config).

(** The decompression and RLP streams are library code: [stream] is the state of
    an RLP stream over a zlib reader, [zlib_NewReader] and [rlp_NewStream] open
    it (the latter with the size limit), [rlp_Decode] reads one RLP string. *)
Context {Z0 stream : Type}.
Context (zlib_NewReader : Data -> result Z0).
Context (rlp_NewStream : Z0 -> Z -> stream).
Context (rlp_Decode : M stream BatchData).

(** [BatchReader]: the closure it returns keeps the stream and the inclusion
    block. *)
Record batchFn := mkBatchFn { bf_stream : stream; bf_l1InclusionBlock : L1BlockRef }.

Definition BatchReader (r : Data) (l1InclusionBlock : L1BlockRef) : result batchFn :=
  let? zr := zlib_NewReader r in
  Ok (mkBatchFn (rlp_NewStream zr MaxRLPBytesPerChannel) l1InclusionBlock).

Definition call_batchFn : M batchFn BatchWithL1InclusionBlock := fun bf =>
  let '(r, s') := rlp_Decode (bf_stream bf) in
  (result_map (mkBatchL1 (bf_l1InclusionBlock bf)) r, mkBatchFn s' (bf_l1InclusionBlock bf)).

Record t := mk { nextBatchFn : option batchFn; prev : ChannelBank.t P }.

(** [ChannelInReader.Origin]. *)
Definition Origin (cr : t) : L1BlockRef := ChannelBank.Origin (prev cr).

(** [ChannelInReader.WriteChannel]. *)
Definition WriteChannel (data : Data) : M t unit := fun cr =>
  match BatchReader data (Origin cr) with
  | Ok f => (Ok tt, mk (Some f) (prev cr))
  | Err e => (Err e, cr)
  | Panic => (Panic, cr)
  end.

(** [ChannelInReader.NextChannel]. *)
Definition NextChannel (cr : t) : t := mk None (prev cr).

(** [ChannelInReader.NextBatch]. *)
Definition NextBatch : M t BatchData := fun cr =>
  let opened : result batchFn * t :=
    match nextBatchFn cr with
    | Some f => (Ok f, cr)
    | None =>
        match ChannelBank.NextData cfg (prev cr) with
        | (Err err, cb) => (Err err, mk None cb)
        | (Panic, cb) => (Panic, mk None cb)
        | (Ok data, cb) =>
            match WriteChannel data (mk None cb) with
            | (Err err, cr1) => (Err (NewTemporaryError err), cr1)
            | (Panic, cr1) => (Panic, cr1)
            | (Ok _, cr1) =>
                match nextBatchFn cr1 with
                | Some f => (Ok f, cr1)
                | None => (Panic, cr1)
                end
            end
        end
    end in
  match opened with
  | (Err err, cr1) => (Err err, cr1)
  | (Panic, cr1) => (Panic, cr1)
  | (Ok f, cr1) =>
      match call_batchFn f with
      | (Ok batch, f') => (Ok (Batch batch), mk (Some f') (prev cr1))
      | (Err _, f') => (Err NotEnoughData, NextChannel (mk (Some f') (prev cr1)))
      | (Panic, f') => (Panic, mk (Some f') (prev cr1))
      end
  end.

(** [ChannelInReader.Reset]. *)
Definition Reset : M t unit := fun cr => (Err EOF, mk None (prev cr)).

#[global] Instance provider : NextBatchProvider t :=
  {| nbp_NextBatch := NextBatch; nbp_Origin := Origin |}.
End ChannelInReader.
Arguments t : clear implicits.
End ChannelInReader.
