(* ===== verification/L1Stages.v ===== *)
(** * The L1 stages: traversal and retrieval

    [op-node/rollup/derive/l1_traversal.go], [l1_retrieval.go] and
    [calldata_source.go]: walking the L1 chain block by block and taking the
    batcher's transactions out of each block.  The L1 node is reached through an
    environment state [E]: a request is code over [E], so that two requests of the
    same call may be answered differently. *)
From S2P Require Import Prelude GoErrors GoBytes EthTypes Geth Solabi SystemConfigUpdate Frame.
#[local] Open Scope Z_scope.

(** [L1BlockRefByNumberFetcher]. *)
Class L1BlockRefByNumberFetcher (E : Type) := {
  L1BlockRefByNumber : Z -> M E L1BlockRef;
  FetchReceipts : Hash -> M E (BlockInfo * list Receipt) }.

(** [NextBlockProvider]: what the retrieval stage needs of the traversal. *)
Class NextBlockProvider (P : Type) := {
  nbk_NextL1Block : M P L1BlockRef;
  nbk_Origin : P -> L1BlockRef;
  nbk_SystemConfig : P -> SystemConfig }.

(** ** Traversal *)
Module L1Traversal.
Section L1Traversal.
Context {E : Type} `{L1BlockRefByNumberFetcher E} `{Keccak}.
Context (cfg : Config).

Record t := mk {
  block : L1BlockRef;
  done : bool;
  l1Blocks : E;
  sysCfg : SystemConfig }.

(** [NewL1Traversal]. *)
Definition new (l1Blocks : E) : t := mk zeroL1 false l1Blocks zeroSystemConfig.

(** [L1Traversal.Origin] and [L1Traversal.SystemConfig]. *)
Definition Origin (l1t : t) : L1BlockRef := block l1t.
Definition SystemConfig_ (l1t : t) : SystemConfig := sysCfg l1t.

(** [L1Traversal.NextL1Block]. *)
Definition NextL1Block : M t L1BlockRef := fun l1t =>
  if negb (done l1t) then (Ok (block l1t), mk (block l1t) true (l1Blocks l1t) (sysCfg l1t))
  else (Err EOF, l1t).

(** [L1Traversal.AdvanceL1Block].  The updates of the receipts are written to the
    receiver even when one of them fails. *)
Definition AdvanceL1Block : M t unit := fun l1t =>
  let origin := block l1t in
  match L1BlockRefByNumber (l1_Number origin +u 1) (l1Blocks l1t) with
  | (Panic, e) => (Panic, mk origin (done l1t) e (sysCfg l1t))
  | (Err err, e) =>
      let l1t1 := mk origin (done l1t) e (sysCfg l1t) in
      if errors_Is err NotFound then (Err EOF, l1t1)
      else (Err (NewTemporaryError (ErrWrap "failed to find L1 block info by number" err)), l1t1)
  | (Ok nextL1Origin, e) =>
      let l1t1 := mk origin (done l1t) e (sysCfg l1t) in
      if negb (l1_Hash origin =? l1_ParentHash nextL1Origin) then
        (Err (NewResetError (ErrNew "detected L1 reorg")), l1t1)
      else
        match FetchReceipts (l1_Hash nextL1Origin) e with
        | (Panic, e') => (Panic, mk origin (done l1t) e' (sysCfg l1t))
        | (Err err, e') =>
            (Err (NewTemporaryError (ErrWrap "failed to fetch receipts" err)),
             mk origin (done l1t) e' (sysCfg l1t))
        | (Ok (_, receipts), e') =>
            match UpdateSystemConfigWithL1Receipts (sysCfg l1t) receipts cfg with
            | (Some err, sysCfg') =>
                (Err (NewCriticalError (ErrWrap "failed to update L1 sysCfg" err)),
                 mk origin (done l1t) e' sysCfg')
            | (None, sysCfg') => (Ok tt, mk nextL1Origin false e' sysCfg')
            end
        end
  end.

(** [L1Traversal.Reset]. *)
Definition Reset (base : L1BlockRef) (cfg : SystemConfig) : M t unit := fun l1t =>
  (Err EOF, mk base false (l1Blocks l1t) cfg).

#[global] Instance provider : NextBlockProvider t :=
  {| nbk_NextL1Block := NextL1Block; nbk_Origin := Origin; nbk_SystemConfig := SystemConfig_ |}.

(** The traversal only ever moves along the chain.  When it advances, the new
    block's parent is the old one, the new block has not been handed out yet, and the
    configuration is the old one with the updates of a list of receipts of the new
    block; when it does not advance, the block and the hand-out flag are unchanged,
    and the configuration too unless the error is critical. *)
Theorem AdvanceL1Block_spec l1t r l1t' :
  AdvanceL1Block l1t = (r, l1t') ->
  match r with
  | Ok _ =>
      l1_ParentHash (block l1t') = l1_Hash (block l1t) /\ done l1t' = false /\
      exists e e' info receipts,
        L1BlockRefByNumber (l1_Number (block l1t) +u 1) (l1Blocks l1t) = (Ok (block l1t'), e) /\
        FetchReceipts (l1_Hash (block l1t')) e = (Ok (info, receipts), e') /\
        config_events (config_logs (L1SystemConfigAddress cfg) receipts) (sysCfg l1t) (sysCfg l1t')
  | Err err =>
      block l1t' = block l1t /\ done l1t' = done l1t /\
      (errors_Is err ErrCritical = false -> sysCfg l1t' = sysCfg l1t)
  | Panic => block l1t' = block l1t /\ done l1t' = done l1t /\ sysCfg l1t' = sysCfg l1t
  end.
Proof.
  unfold AdvanceL1Block.
  destruct (L1BlockRefByNumber _ _) as [[next|err|] e] eqn:E1; [|by case_if; intros [= <- <-]|by intros [= <- <-]].
  destruct (Z.eqb_spec (l1_Hash (block l1t)) (l1_ParentHash next)) as [Hp|Hp]; cbn [negb];
    [|by intros [= <- <-]].
  destruct (FetchReceipts _ _) as [[[info receipts]|err|] e'] eqn:E2; [|by intros [= <- <-]..].
  destruct (UpdateSystemConfigWithL1Receipts _ _ _) as [[err|] s'] eqn:E3; intros [= <- <-].
  - split_and!; [done..|]. unfold NewCriticalError, ErrCritical. by rewrite errors_Is_refl_level.
  - cbn [block sysCfg done]. split_and!; [done..|].
    exists e, e', info, receipts. split_and!; [done..|]. by apply UpdateSystemConfig_config_events.
Qed.
End L1Traversal.
Arguments t : clear implicits.
End L1Traversal.

(** ** Data sources *)

(** An L1 transaction, as far as retrieval looks at it; its signature is part of the
    opaque bytes. *)
Record EVMTransaction := mkEVMTx {
  etx_To : option Address;
  etx_Data : Data;
  etx_Raw : Data }.

(** [L1TransactionFetcher]. *)
Class L1TransactionFetcher (E : Type) := {
  InfoAndTxsByHash : Hash -> M E (BlockInfo * list EVMTransaction) }.

(** The signer of go-ethereum recovers the sender of a transaction. *)
Class L1Signer := { Sender : EVMTransaction -> result Address }.

Section DataSource.
Context {E : Type} `{L1TransactionFetcher E} `{L1Signer}.

(** One iteration of the loop of [DataFromEVMTransactions]. *)
Definition data_from_tx (config : Config) (batcherAddr : Address) (out : list Data)
    (tx : EVMTransaction) : list Data :=
  match etx_To tx with
  | Some to =>
      if to =? BatchInboxAddress config then
        match Sender tx with
        | Ok seqDataSubmitter =>
            if negb (seqDataSubmitter =? batcherAddr) then out else out ++ [etx_Data tx]
        | _ => out
        end
      else out
  | None => out
  end.

(** [DataFromEVMTransactions]. *)
Definition DataFromEVMTransactions (config : Config) (batcherAddr : Address)
    (txs : list EVMTransaction) : list Data :=
  foldl (data_from_tx config batcherAddr) [] txs.

(** [DataSource]; the fetcher it retries with is the one of the stage. *)
Record DataSource := mkDataSource {
  ds_open : bool;
  ds_data : list Data;
  ds_id : BlockID;
  ds_batcherAddr : Address }.

(** [NewDataSource] and [DataSourceFactory.OpenData]: an error is kept for later. *)
Definition NewDataSource (cfg : Config) (block : BlockID) (batcherAddr : Address)
    : M E DataSource := fun e =>
  match InfoAndTxsByHash (id_Hash block) e with
  | (Err _, e') => (Ok (mkDataSource false [] block batcherAddr), e')
  | (Panic, e') => (Panic, e')
  | (Ok (_, txs), e') =>
      (Ok (mkDataSource true (DataFromEVMTransactions cfg batcherAddr txs) zeroID 0), e')
  end.

Definition OpenData := NewDataSource.

(** [DataSource.Next], over the source and the fetcher. *)
Definition Next (cfg : Config) : M (DataSource * E) Data := fun '(ds, e) =>
  let opened : result unit * (DataSource * E) :=
    if negb (ds_open ds) then
      match InfoAndTxsByHash (id_Hash (ds_id ds)) e with
      | (Ok (_, txs), e') =>
          (Ok tt, (mkDataSource true (DataFromEVMTransactions cfg (ds_batcherAddr ds) txs)
                     (ds_id ds) (ds_batcherAddr ds), e'))
      | (Err err, e') =>
          if errors_Is err NotFound
          then (Err (NewResetError (ErrWrap "failed to open calldata source" err)), (ds, e'))
          else (Err (NewTemporaryError (ErrWrap "failed to open calldata source" err)), (ds, e'))
      | (Panic, e') => (Panic, (ds, e'))
      end
    else (Ok tt, (ds, e)) in
  match opened with
  | (Err err, s) => (Err err, s)
  | (Panic, s) => (Panic, s)
  | (Ok _, (ds1, e1)) =>
      match ds_data ds1 with
      | [] => (Err EOF, (ds1, e1))
      | data :: rest =>
          (Ok data, (mkDataSource (ds_open ds1) rest (ds_id ds1) (ds_batcherAddr ds1), e1))
      end
  end.
End DataSource.

(** ** Retrieval *)
Module L1Retrieval.
Section L1Retrieval.
Context {E P : Type} `{L1TransactionFetcher E} `{L1Signer} `{NextBlockProvider P}.
Context (cfg : Config).

Record t := mk { dataSrc : E; prev : P; datas : option DataSource }.

(** [NewL1Retrieval]. *)
Definition new (dataSrc : E) (prev : P) : t := mk dataSrc prev None.

(** [L1Retrieval.Origin]. *)
Definition Origin (l1r : t) : L1BlockRef := nbk_Origin (prev l1r).

(** The first half of [NextData]: a source is opened on the next block when there is
    none. *)
Definition open_next : M t DataSource := fun l1r =>
  match datas l1r with
  | Some ds => (Ok ds, l1r)
  | None =>
      match nbk_NextL1Block (prev l1r) with
      | (Err err, p) => (Err err, mk (dataSrc l1r) p None)
      | (Panic, p) => (Panic, mk (dataSrc l1r) p None)
      | (Ok next, p) =>
          match OpenData cfg (l1_ID next) (BatcherAddr (nbk_SystemConfig p)) (dataSrc l1r) with
          | (Ok ds, e) => (Ok ds, mk e p (Some ds))
          | (Err err, e) => (Err err, mk e p None)
          | (Panic, e) => (Panic, mk e p None)
          end
      end
  end.

(** [L1Retrieval.NextData]. *)
Definition NextData : M t Data := fun l1r =>
  match open_next l1r with
  | (Err err, l1r1) => (Err err, l1r1)
  | (Panic, l1r1) => (Panic, l1r1)
  | (Ok ds, l1r1) =>
      match Next cfg (ds, dataSrc l1r1) with
      | (Ok data, (ds', e)) => (Ok data, mk e (prev l1r1) (Some ds'))
      | (Panic, (ds', e)) => (Panic, mk e (prev l1r1) (Some ds'))
      | (Err err, (ds', e)) =>
          if err_eqb err EOF then (Err EOF, mk e (prev l1r1) None)
          else (Err err, mk e (prev l1r1) (Some ds'))
      end
  end.

(** [L1Retrieval.Reset] opens the base block at once. *)
Definition Reset (base : L1BlockRef) (sysCfg : SystemConfig) : M t unit := fun l1r =>
  match OpenData cfg (l1_ID base) (BatcherAddr sysCfg) (dataSrc l1r) with
  | (Ok ds, e) => (Err EOF, mk e (prev l1r) (Some ds))
  | (Err err, e) => (Err err, mk e (prev l1r) (datas l1r))
  | (Panic, e) => (Panic, mk e (prev l1r) (datas l1r))
  end.

#[global] Instance provider : NextDataProvider t :=
  {| ndp_NextData := NextData; ndp_Origin := Origin |}.

(** Calling [NextData] until it stops handing out data. *)
Fixpoint drain (fuel : nat) (l1r : t) : list Data * result Data * t :=
  match fuel with
  | O => ([], Panic, l1r)
  | S fuel' =>
      match NextData l1r with
      | (Ok d, l1r') => let '(ds, r, l1r'') := drain fuel' l1r' in (d :: ds, r, l1r'')
      | (r, l1r') => ([], r, l1r')
      end
  end.
End L1Retrieval.
Arguments t : clear implicits.
End L1Retrieval.

(** ** Laws of the interfaces *)

Class LawfulL1TransactionFetcher (E : Type) `{L1TransactionFetcher E} := {
  InfoAndTxsByHash_no_panic h e : (InfoAndTxsByHash h e).1 <> Panic }.

Class LawfulBlockProvider (P : Type) `{NextBlockProvider P} := {
  nbk_no_panic p : (nbk_NextL1Block p).1 <> Panic }.

#[global] Instance L1Traversal_lawful {E} : LawfulBlockProvider (L1Traversal.t E).
Proof. split. intros p. simpl. unfold L1Traversal.NextL1Block. by destruct (L1Traversal.done p). Qed.

(** ** Lemmas *)
Section Retrieval.
Context {E P : Type} `{L1TransactionFetcher E} `{L1Signer} `{NextBlockProvider P}.
Context (cfg : Config).

(** The transactions of the batcher: sent to the inbox, with a valid signature of the
    batcher's key. *)
Definition authorized (batcherAddr : Address) (tx : EVMTransaction) : Prop :=
  etx_To tx = Some (BatchInboxAddress cfg) /\ Sender tx = Ok batcherAddr.

#[export] Instance authorized_dec b tx : Decision (authorized b tx).
Proof.
  unfold authorized. destruct (Sender tx) as [a|e|];
    [|right; by intros [_ ?]..].
  destruct (decide (a = b)) as [->|]; [|right; intros [_ [=]]; congruence].
  destruct (decide (etx_To tx = Some (BatchInboxAddress cfg))); [by left|right; by intros [? _]].
Defined.

Lemma DataFromEVMTransactions_filter b txs :
  DataFromEVMTransactions cfg b txs = etx_Data <$> filter (authorized b) txs.
Proof.
  unfold DataFromEVMTransactions.
  enough (forall out, foldl (data_from_tx cfg b) out txs = out ++ (etx_Data <$> filter (authorized b) txs))
    as Hf by apply (Hf []).
  induction txs as [|tx txs IH]; intros out; cbn [foldl]; [by rewrite app_nil_r|].
  rewrite IH, filter_cons. unfold data_from_tx.
  destruct (decide (authorized b tx)) as [[-> ->]|Hn].
  - rewrite !Z.eqb_refl. cbn [negb]. by rewrite <- app_assoc.
  - destruct (etx_To tx) as [to|] eqn:Eto; [|done].
    destruct (Z.eqb_spec to (BatchInboxAddress cfg)) as [->|]; [|done].
    destruct (Sender tx) as [a|err|] eqn:Es; [|done..].
    destruct (Z.eqb_spec a b) as [->|]; [|done]. destruct Hn. by split.
Qed.

(** A fetch that succeeds at once, or fails once and succeeds when retried. *)
Definition fetched (h : Hash) (e : E) (txs : list EVMTransaction) (e' : E) : Prop :=
  (exists info, InfoAndTxsByHash h e = (Ok (info, txs), e')) \/
  (exists err e1 info, InfoAndTxsByHash h e = (Err err, e1) /\
     InfoAndTxsByHash h e1 = (Ok (info, txs), e')).

Lemma drain_open data e p id b fuel :
  (length data < fuel)%nat ->
  L1Retrieval.drain cfg fuel (L1Retrieval.mk e p (Some (mkDataSource true data id b))) =
  (data, Err EOF, L1Retrieval.mk e p None).
Proof.
  revert fuel. induction data as [|d data IH]; intros [|fuel] Hf; cbn [length] in Hf; try lia; [done|].
  cbn. rewrite IH by lia. done.
Qed.

(** Retrieval delivers every batcher transaction of a block once.  When the
    traversal hands out a block and the block's transactions can be fetched (possibly
    only on a second attempt), the calls of [NextData] return the data of exactly the
    transactions sent to the inbox and signed by the batcher of the current
    configuration, in the order of the block, and then [io.EOF] with the stage ready
    for the next block. *)
Theorem retrieval_delivers_block l1r blk p txs e' fuel :
  L1Retrieval.datas l1r = None ->
  nbk_NextL1Block (L1Retrieval.prev l1r) = (Ok blk, p) ->
  fetched (l1_Hash blk) (L1Retrieval.dataSrc l1r) txs e' ->
  (length txs < fuel)%nat ->
  L1Retrieval.drain cfg fuel l1r =
  (etx_Data <$> filter (authorized (BatcherAddr (nbk_SystemConfig p))) txs, Err EOF,
   L1Retrieval.mk e' p None).
Proof.
  intros Hd Hn Hf Hfuel.
  set (b := BatcherAddr (nbk_SystemConfig p)).
  pose proof (length_filter (authorized b) txs) as Hlen.
  destruct l1r as [e prev d]. cbn [L1Retrieval.datas L1Retrieval.prev L1Retrieval.dataSrc] in *.
  subst d. rewrite <- DataFromEVMTransactions_filter. fold b.
  set (data := DataFromEVMTransactions cfg b txs).
  assert (Hl : (length data < fuel)%nat)
    by (unfold data; rewrite DataFromEVMTransactions_filter, length_fmap; lia).
  (* the first call opens the source; it then behaves like an opened one *)
  assert (exists id b', L1Retrieval.NextData cfg (L1Retrieval.mk e prev None) =
            L1Retrieval.NextData cfg (L1Retrieval.mk e' p (Some (mkDataSource true data id b'))))
    as (id & b' & Heq).
  { unfold L1Retrieval.NextData, L1Retrieval.open_next.
    cbn [L1Retrieval.datas L1Retrieval.prev L1Retrieval.dataSrc]. rewrite Hn.
    unfold OpenData, NewDataSource, l1_ID. cbn [id_Hash]. fold b.
    destruct Hf as [[info ->]|(err & e1 & info & -> & H2)]; [by eexists _, _|].
    eexists (mkBlockID (l1_Hash blk) (l1_Number blk)), b. cbn. rewrite H2. done. }
  rewrite <- (drain_open data e' p id b' fuel) by done.
  destruct fuel as [|fuel]; [lia|]. cbn [L1Retrieval.drain]. by rewrite Heq.
Qed.

Lemma NextData_no_panic `{!LawfulL1TransactionFetcher E} `{!LawfulBlockProvider P} l1r :
  (L1Retrieval.NextData cfg l1r).1 <> Panic.
Proof.
  unfold L1Retrieval.NextData, L1Retrieval.open_next.
  assert (Hnext : forall ds e, (Next cfg (ds, e)).1 <> Panic).
  { intros ds e. unfold Next. pose proof (InfoAndTxsByHash_no_panic (id_Hash (ds_id ds)) e).
    destruct (negb (ds_open ds)).
    - destruct (InfoAndTxsByHash _ _) as [[[info txs]|err|] e1]; cbn [ds_data]; [|by case_if|done].
      by destruct (DataFromEVMTransactions _ _ _).
    - by destruct (ds_data ds). }
  assert (Hfin : forall (ds : DataSource) (e : E) (p : P),
    (match Next cfg (ds, e) with
     | (Ok data, (ds', e)) => (Ok data, L1Retrieval.mk e p (Some ds'))
     | (Panic, (ds', e)) => (Panic, L1Retrieval.mk e p (Some ds'))
     | (Err err, (ds', e)) =>
         if err_eqb err EOF then (Err EOF, L1Retrieval.mk e p None)
         else (Err err, L1Retrieval.mk e p (Some ds'))
     end).1 <> Panic).
  { intros ds e p. specialize (Hnext ds e).
    destruct (Next cfg (ds, e)) as [[d|err|] [ds' e'']]; [done|by case_if|done]. }
  destruct (L1Retrieval.datas l1r) as [ds|]; [apply Hfin|].
  pose proof (nbk_no_panic (L1Retrieval.prev l1r)).
  destruct (nbk_NextL1Block _) as [[next|err|] p]; [|done..].
  unfold OpenData, NewDataSource.
  pose proof (InfoAndTxsByHash_no_panic (id_Hash (l1_ID next)) (L1Retrieval.dataSrc l1r)).
  destruct (InfoAndTxsByHash (id_Hash (l1_ID next)) (L1Retrieval.dataSrc l1r))
    as [[[info txs]|err|] e1]; [apply Hfin|apply Hfin|done].
Qed.
End Retrieval.

(** The retrieval stage keeps the law the frame queue relies on. *)
#[global] Program Instance L1Retrieval_lawful {E P} `{LawfulL1TransactionFetcher E} `{L1Signer}
    `{LawfulBlockProvider P} (cfg : Config) :
  @LawfulDataProvider (L1Retrieval.t E P) (L1Retrieval.provider cfg) :=
  {| ndp_inv := fun _ => True |}.
Next Obligation.
  intros E P ? ? ? ? ? cfg p r p' _ Heq. split; [done|].
  pose proof (NextData_no_panic cfg p). simpl in Heq. rewrite Heq in *. done.
Qed.

(** ** Examples *)
Module L1Examples.
Import ToyGeth.

(** A chain in which block [n] has hash [100 + n], with one batcher transaction and
    one stray transaction in every block. *)
#[export] Instance toy_blocks : L1BlockRefByNumberFetcher unit :=
  {| L1BlockRefByNumber := fun n => ret (mkL1BlockRef (100 + n) n (99 + n) (12 * n));
     FetchReceipts := fun h => ret (mkBlockInfo h (h - 1) (h - 100) 0 0 7, []) |}.

Definition toy_txs : list EVMTransaction :=
  [mkEVMTx (Some 3) [Byte.x01] []; mkEVMTx (Some 4) [Byte.x02] []; mkEVMTx (Some 3) [Byte.x03] [Byte.x00]].

#[export] Instance toy_fetcher : L1TransactionFetcher unit :=
  {| InfoAndTxsByHash := fun h => ret (mkBlockInfo h (h - 1) (h - 100) 0 0 7, toy_txs) |}.

(** Transactions with an empty signature come from the batcher. *)
#[export] Instance toy_signer : L1Signer :=
  {| Sender := fun tx => match etx_Raw tx with [] => Ok 77 | _ => Err (ErrNew "bad signature") end |}.

Definition toy_cfg : Config :=
  mkConfig (mkGenesis (mkBlockID 100 0) (mkBlockID 2 0) 1000 (mkSystemConfig 77 1 1 1))
    2 600 3600 300 (Some 1) (Some 10) None 3 4 5.

Definition toy_traversal : L1Traversal.t unit :=
  L1Traversal.mk (mkL1BlockRef 105 5 104 60) false tt (mkSystemConfig 77 1 1 1).

Lemma AdvanceL1Block_spec_witness :
  let l1t' := (L1Traversal.AdvanceL1Block toy_cfg toy_traversal).2 in
  l1_ParentHash (L1Traversal.block l1t') = 105 /\ L1Traversal.done l1t' = false /\
  exists e e' info receipts,
    L1BlockRefByNumber 6 tt = (Ok (L1Traversal.block l1t'), e) /\
    FetchReceipts (l1_Hash (L1Traversal.block l1t')) e = (Ok (info, receipts), e') /\
    config_events (config_logs (L1SystemConfigAddress toy_cfg) receipts)
      (L1Traversal.sysCfg toy_traversal) (L1Traversal.sysCfg l1t').
Proof.
  intros l1t'. apply (L1Traversal.AdvanceL1Block_spec toy_cfg toy_traversal (Ok tt) l1t').
  vm_compute. reflexivity.
Defined.

Lemma retrieval_delivers_block_witness :
  L1Retrieval.drain toy_cfg 4 (L1Retrieval.mk tt toy_traversal None) =
  ([[Byte.x01]], Err EOF, L1Retrieval.mk tt (L1Traversal.NextL1Block toy_traversal).2 None).
Proof.
  rewrite (retrieval_delivers_block toy_cfg (L1Retrieval.mk tt toy_traversal None)
    (L1Traversal.block toy_traversal) (L1Traversal.NextL1Block toy_traversal).2 toy_txs tt 4);
    [reflexivity|done|done| |simpl; lia].
  left. eexists. reflexivity.
Defined.
End L1Examples.
