(* ===== verification/Payloads.v ===== *)
(** * Reading derivation inputs back out of L2 blocks

    [op-node/rollup/derive/payload_util.go], [l2block_util.go] and
    [engine_consolidate.go]: the L1 origin, the sequence number and the system
    configuration are recovered from the first transaction of a block, and a block
    is compared with the attributes it should have been built from. *)
From S2P Require Import Prelude GoErrors GoBytes EthTypes Geth Solabi Deposits L1Info.
#[local] Open Scope Z_scope.

Section Payloads.
Context `{Keccak} `{TxCodec}.

(** The decoding both payload functions start with. *)
Definition payload_l1_info (payload : ExecutionPayload) : result L1BlockInfo :=
  match ep_Transactions payload with
  | [] => Err (ErrNew "l2 block is missing L1 info deposit tx")
  | tx0 :: _ =>
      let? tx := map_err (ErrWrap "failed to decode first tx to read l1 info from")
                   (tx_UnmarshalBinary tx0) in
      if negb (tx_Type tx =? Z_of_byte DepositTxType) then
        Err (ErrNew "first payload tx has unexpected tx type")
      else map_err (ErrWrap "failed to parse L1 info deposit tx from L2 block")
             (L1InfoDepositTxData (tx_Data tx))
  end.

(** [PayloadToBlockRef]. *)
Definition PayloadToBlockRef (payload : ExecutionPayload) (genesis : Genesis) : result L2BlockRef :=
  let? (l1Origin, sequenceNumber) :=
    (if ep_BlockNumber payload =? id_Number (gen_L2 genesis) then
       if negb (ep_BlockHash payload =? id_Hash (gen_L2 genesis)) then
         Err (ErrNew "expected L2 genesis hash to match L2 block at genesis block number")
       else Ok (gen_L1 genesis, 0)
     else
       let? info := payload_l1_info payload in
       Ok (mkBlockID (li_BlockHash info) (li_Number info), li_SequenceNumber info)) in
  Ok (mkL2BlockRef (ep_BlockHash payload) (ep_BlockNumber payload) (ep_ParentHash payload)
        (ep_Timestamp payload) l1Origin sequenceNumber).

(** [PayloadToSystemConfig]. *)
Definition PayloadToSystemConfig (payload : ExecutionPayload) (cfg : Config) : result SystemConfig :=
  if ep_BlockNumber payload =? id_Number (gen_L2 (cfg_Genesis cfg)) then
    if negb (ep_BlockHash payload =? id_Hash (gen_L2 (cfg_Genesis cfg))) then
      Err (ErrNew "expected L2 genesis hash to match L2 block at genesis block number")
    else Ok (gen_SystemConfig (cfg_Genesis cfg))
  else
    let? info := payload_l1_info payload in
    Ok (mkSystemConfig (li_BatcherAddr info) (li_L1FeeOverhead info) (li_L1FeeScalar info)
          (ep_GasLimit payload)).

(** [L2BlockRefSource], as the values its methods return. *)
Record L2BlockRefSource := mkL2Source {
  src_Hash : Hash;
  src_ParentHash : Hash;
  src_NumberU64 : Z;
  src_Time : Z;
  src_Transactions : list Transaction }.

(** [L2BlockToBlockRef]. *)
Definition L2BlockToBlockRef (block : L2BlockRefSource) (genesis : Genesis) : result L2BlockRef :=
  let? (l1Origin, sequenceNumber) :=
    (if src_NumberU64 block =? id_Number (gen_L2 genesis) then
       if negb (src_Hash block =? id_Hash (gen_L2 genesis)) then
         Err (ErrNew "expected L2 genesis hash to match L2 block at genesis block number")
       else Ok (gen_L1 genesis, 0)
     else
       match src_Transactions block with
       | [] => Err (ErrNew "l2 block is missing L1 info deposit tx")
       | tx :: _ =>
           if negb (tx_Type tx =? Z_of_byte DepositTxType) then
             Err (ErrNew "first payload tx has unexpected tx type")
           else
             let? info := map_err (ErrWrap "failed to parse L1 info deposit tx from L2 block")
                            (L1InfoDepositTxData (tx_Data tx)) in
             Ok (mkBlockID (li_BlockHash info) (li_Number info), li_SequenceNumber info)
       end) in
  Ok (mkL2BlockRef (src_Hash block) (src_NumberU64 block) (src_ParentHash block) (src_Time block)
        l1Origin sequenceNumber).
End Payloads.

(** The loop of [AttributesMatchBlock] over the two transaction lists. *)
Fixpoint match_transactions (attrTxs blockTxs : list Data) : result unit :=
  match attrTxs with
  | [] => Ok tt
  | otx :: attrTxs' =>
      match blockTxs with
      | [] => Panic
      | expect :: blockTxs' =>
          if bool_decide (otx <> expect) then Err (ErrNew "transaction does not match")
          else match_transactions attrTxs' blockTxs'
      end
  end.

(** [AttributesMatchBlock]; the debugging output is omitted. *)
Definition AttributesMatchBlock (attrs : PayloadAttributes) (parentHash : Hash)
    (block : ExecutionPayload) : result unit :=
  if negb (parentHash =? ep_ParentHash block) then
    Err (ErrNew "parent hash field does not match") else
  if negb (pa_Timestamp attrs =? ep_Timestamp block) then
    Err (ErrNew "timestamp field does not match") else
  if negb (pa_PrevRandao attrs =? ep_PrevRandao block) then
    Err (ErrNew "random field does not match") else
  if negb (length (pa_Transactions attrs) =? length (ep_Transactions block))%nat then
    Err (ErrNew "transaction count does not match") else
  let? _ := match_transactions (pa_Transactions attrs) (ep_Transactions block) in
  match pa_GasLimit attrs with
  | None => Err (ErrNew "expected gaslimit in attributes to not be nil")
  | Some gl => if negb (gl =? ep_GasLimit block) then Err (ErrNew "gas limit does not match")
               else Ok tt
  end.

(** ** Lemmas *)

Lemma match_transactions_iff a b :
  length a = length b -> match_transactions a b = Ok tt <-> a = b.
Proof.
  revert b. induction a as [|x a IH]; intros [|y b]; simpl; try done; intros [= Hl].
  case_bool_decide as Hx.
  - split; [done|]. intros [= ? _]. done.
  - rewrite (IH b Hl). naive_solver.
Qed.

Lemma match_transactions_no_panic a b :
  length a = length b -> match_transactions a b <> Panic.
Proof.
  revert b. induction a as [|x a IH]; intros [|y b]; simpl; try done; intros [= Hl].
  case_bool_decide; [done|]. by apply IH.
Qed.

Lemma AttributesMatchBlock_spec attrs parentHash block :
  (AttributesMatchBlock attrs parentHash block = Ok tt <->
   parentHash = ep_ParentHash block /\ pa_Timestamp attrs = ep_Timestamp block /\
   pa_PrevRandao attrs = ep_PrevRandao block /\ pa_Transactions attrs = ep_Transactions block /\
   pa_GasLimit attrs = Some (ep_GasLimit block)) /\
  AttributesMatchBlock attrs parentHash block <> Panic.
Proof.
  unfold AttributesMatchBlock.
  destruct (Z.eqb_spec parentHash (ep_ParentHash block)); cbn [negb]; [|naive_solver].
  destruct (Z.eqb_spec (pa_Timestamp attrs) (ep_Timestamp block)); cbn [negb]; [|naive_solver].
  destruct (Z.eqb_spec (pa_PrevRandao attrs) (ep_PrevRandao block)); cbn [negb]; [|naive_solver].
  destruct (Nat.eqb_spec (length (pa_Transactions attrs)) (length (ep_Transactions block))) as [Hl|Hl];
    cbn [negb]; [|split; [|done]; split; [done|]; intros (_ & _ & _ & Hx & _); by rewrite Hx in Hl].
  pose proof (match_transactions_iff _ _ Hl) as Hm. pose proof (match_transactions_no_panic _ _ Hl).
  destruct (match_transactions _ _) as [[]|err|]; [|naive_solver..].
  destruct (pa_GasLimit attrs) as [gl|]; [|naive_solver].
  destruct (Z.eqb_spec gl (ep_GasLimit block)); cbn [negb]; naive_solver.
Qed.

Lemma AttributesMatchBlock_fields attrs parentHash block :
  AttributesMatchBlock attrs parentHash block = Ok tt <->
  parentHash = ep_ParentHash block /\ pa_Timestamp attrs = ep_Timestamp block /\
  pa_PrevRandao attrs = ep_PrevRandao block /\ pa_Transactions attrs = ep_Transactions block /\
  pa_GasLimit attrs = Some (ep_GasLimit block).
Proof. apply AttributesMatchBlock_spec. Qed.

(** Consolidation compares exactly these fields: the attributes match a block if
    and only if the block has the given parent, the timestamp, randomness, gas limit
    and the transactions of the attributes, in order; the comparison does not panic.
    The fee recipient is not compared. *)
Theorem AttributesMatchBlock_iff attrs parentHash block :
  (AttributesMatchBlock attrs parentHash block = Ok tt <->
   parentHash = ep_ParentHash block /\ pa_Timestamp attrs = ep_Timestamp block /\
   pa_PrevRandao attrs = ep_PrevRandao block /\ pa_Transactions attrs = ep_Transactions block /\
   pa_GasLimit attrs = Some (ep_GasLimit block)) /\
  AttributesMatchBlock attrs parentHash block <> Panic.
Proof. apply AttributesMatchBlock_spec. Qed.

Section PayloadLemmas.
Context `{Keccak} `{TxCodec} `{!LawfulTxCodec}.

(** A block whose first transaction is the L1 information deposit gives the
    information back. *)
Lemma payload_l1_info_deposit payload l1Info seqNumber sysCfg regolith tx0 rest :
  L1InfoDepositBytes seqNumber l1Info sysCfg regolith = Ok tx0 ->
  l1_info_wf (l1_info_of seqNumber l1Info sysCfg) ->
  ep_Transactions payload = tx0 :: rest ->
  payload_l1_info payload = Ok (l1_info_of seqNumber l1Info sysCfg).
Proof.
  intros Hb Hwf Htx. destruct (L1InfoDepositBytes_decodes _ _ _ regolith Hwf) as (enc & data & Hb' & Hu & Hd).
  rewrite Hb in Hb'. injection Hb' as ->.
  unfold payload_l1_info. rewrite Htx, Hu. cbn [map_err tx_Type tx_Data].
  rewrite Z.eqb_refl. cbn [negb]. by rewrite Hd.
Qed.
End PayloadLemmas.
