(* ===== verification/BatchSubmitter.v ===== *)
(** * The batcher's driver

    [op-batcher/batcher/driver.go] and the queue of transactions it uses,
    [op-service/txmgr/queue.go]: the unsafe blocks after the safe head are loaded into the
    channel manager, its transactions are sent by at most so many goroutines at a time, and
    what became of each is reported back.  The goroutines are a step relation; what
    [TxManager.Send] returns is a parameter, which [TxmgrSpec.v] describes. *)
From S2P Require Import Prelude GoErrors GoBytes EthTypes Geth L1Info Frame Channel Batch Payloads ChannelOut Compressor ChannelBuilder ChannelManager Txmgr.
#[local] Open Scope Z_scope.

(** The rollup node, the L2 client and the L1 client. *)
Class BatcherEnv (E : Type) := {
  RollupNode_SyncStatus : M E SyncStatus;
  L2Client_BlockByNumber : Z -> M E Block;
  L1Client_HeaderByNumber : M E BlockInfo }.

(** ** [BatchSubmitter] *)
Record BatchSubmitter (E C R : Type) := mkBatchSubmitter {
  bs_lastStoredBlock : BlockID;
  bs_lastL1Tip : L1BlockRef;
  bs_state : ChannelManager.t C R;
  bs_env : E }.
Arguments mkBatchSubmitter {E C R} _ _ _ _.
Arguments bs_lastStoredBlock {E C R} _.
Arguments bs_lastL1Tip {E C R} _.
Arguments bs_state {E C R} _.
Arguments bs_env {E C R} _.

Section Driver.
Context {E C R : Type} `{Compressor C} `{Keccak} `{Rand R} `{BatcherEnv E}.
Context (rlp_encode_batch : BatchV1 -> result Data) (rlp_encode_bytes : Data -> result Data).
Context (cfg : ChannelConfig) (NewCompressor : result C).
Context (Genesis_ : Genesis) (BatchInboxAddress : Address) (IntrinsicGas : Data -> result Z).
Context (MaxPendingTransactions : nat) (fuel : nat).
Abbreviation submitter := (BatchSubmitter E C R).

Definition on_env {A} (m : M E A) : M submitter A :=
  zoom bs_env (fun e l => mkBatchSubmitter (bs_lastStoredBlock l) (bs_lastL1Tip l) (bs_state l) e) m.
Definition on_state {A} (m : M (ChannelManager.t C R) A) : M submitter A :=
  zoom bs_state (fun s l => mkBatchSubmitter (bs_lastStoredBlock l) (bs_lastL1Tip l) s (bs_env l)) m.
Definition set_lastStoredBlock (id : BlockID) : M submitter unit :=
  modify (fun l => mkBatchSubmitter id (bs_lastL1Tip l) (bs_state l) (bs_env l)).

(** [calculateL2BlockRangeToStore]. *)
Definition calculateL2BlockRangeToStore : M submitter (BlockID * BlockID) :=
  syncStatus <- wrapE (ErrWrap "failed to get sync status") (on_env RollupNode_SyncStatus) ;;
  if bool_decide (ss_HeadL1 syncStatus = zeroL1) then throw (ErrNew "empty sync status")
  else
    l <- get ;;
    (if bool_decide (bs_lastStoredBlock l = zeroID) then set_lastStoredBlock (l2_ID (ss_SafeL2 syncStatus))
     else if id_Number (bs_lastStoredBlock l) <? l2_Number (ss_SafeL2 syncStatus) then
       set_lastStoredBlock (l2_ID (ss_SafeL2 syncStatus))
     else ret tt) ;;;
    if l2_Number (ss_UnsafeL2 syncStatus) <=? l2_Number (ss_SafeL2 syncStatus) then
      throw (ErrNew "L2 safe head ahead of L2 unsafe head")
    else
      l <- get ;;
      ret (bs_lastStoredBlock l, l2_ID (ss_UnsafeL2 syncStatus)).

(** [loadBlockIntoState]. *)
Definition loadBlockIntoState (blockNumber : Z) : M submitter Block :=
  block <- wrapE (ErrWrap "getting L2 block") (on_env (L2Client_BlockByNumber blockNumber)) ;;
  wrapE (ErrWrap "adding L2 block to state") (on_state (ChannelManager.AddL2Block block)) ;;;
  ret block.

(** The loop of [loadBlocksIntoState], for so many blocks from the number [i]. *)
Definition block_ID (b : Block) : BlockID := mkBlockID (blk_Hash b) (blk_NumberU64 b).
Fixpoint load_blocks (n : nat) (i : Z) (latestBlock : option Block) : M submitter (option Block) :=
  match n with
  | O => ret latestBlock
  | S n' =>
      r <- attempt (loadBlockIntoState i) ;;
      match r with
      | inr err =>
          (if errors_Is err ErrReorg then set_lastStoredBlock zeroID else ret tt) ;;;
          throw err
      | inl block =>
          set_lastStoredBlock (block_ID block) ;;;
          load_blocks n' (i +u 1) (Some block)
      end
  end.

(** A block as a source of an L2 block reference. *)
Definition block_source (b : Block) : L2BlockRefSource :=
  mkL2Source (blk_Hash b) (blk_ParentHash b) (blk_NumberU64 b) (blk_Time b) (btx_tx <$> blk_Transactions b).

(** [loadBlocksIntoState]; when the number after the last block wraps around the loop loads
    nothing, and the nil block is dereferenced. *)
Definition loadBlocksIntoState : M submitter unit :=
  range <- calculateL2BlockRangeToStore ;;
  let '(start, end_) := range in
  if id_Number end_ <=? id_Number start then throw (ErrNew "start number is >= end number")
  else
    latestBlock <- load_blocks (Z.to_nat ((id_Number end_ +u 1) - (id_Number start +u 1))) (id_Number start +u 1) None ;;
    match latestBlock with
    | None => lift Panic
    | Some block => lift (L2BlockToBlockRef (block_source block) Genesis_) ;;; ret tt
    end.

(** [l1Tip] and [recordL1Tip]. *)
Definition l1Tip : M submitter L1BlockRef :=
  head <- wrapE (ErrWrap "getting latest L1 block") (on_env L1Client_HeaderByNumber) ;;
  ret (InfoToL1BlockRef head).
Definition recordL1Tip (l1tip : L1BlockRef) : M submitter unit :=
  modify (fun l => if bool_decide (bs_lastL1Tip l = l1tip) then l
                   else mkBatchSubmitter (bs_lastStoredBlock l) l1tip (bs_state l) (bs_env l)).

(** [publishTxToL1] up to [sendTransaction]: the data to send.  [None] is a run of [TxData]
    that the fuel does not suffice for. *)
Definition next_txdata : M submitter (option txData) :=
  l1tip <- l1Tip ;;
  recordL1Tip l1tip ;;;
  on_state (ChannelManager.TxData rlp_encode_batch rlp_encode_bytes cfg NewCompressor fuel (l1_ID l1tip)).

(** The candidate of [sendTransaction]. *)
Definition tx_candidate (txdata : txData) : result TxCandidate :=
  let data := td_Bytes txdata in
  let? intrinsicGas := IntrinsicGas data in
  Ok (mkCandidate data (Some BatchInboxAddress) intrinsicGas None).

(** [handleReceipt], [recordFailedTx] and [recordConfirmedTx]. *)
Definition handleReceipt (id : txData) (r : MinedReceipt + error) : M submitter unit :=
  match r with
  | inr _ => on_state (ChannelManager.TxFailed (td_ID id))
  | inl receipt =>
      let l1block := mkBlockID (mr_BlockHash receipt) (u64 (mr_BlockNumber receipt)) in
      on_state (ChannelManager.TxConfirmed cfg (td_ID id) l1block)
  end.

(** ** The loop and the queue

    A goroutine of the queue: in [txMgr.Send], with its result for the channel of receipts,
    or about to return to its group, with an error or not. *)
Inductive tx_status := InSend | Reporting (r : MinedReceipt + error) | LeavingGroup (is_error : bool).
Record tx_job := mkTxJob {
  tj_ID : txData;
  tj_candidate : TxCandidate;
  tj_status : tx_status }.

(** What [publishStateToL1] is called for: after blocks were loaded, and draining the state
    after a reorg or at the end. *)
Inductive publish_kind := AfterLoad | AfterReorg | AfterShutdown.
Definition drain (k : publish_kind) : bool := match k with AfterLoad => false | _ => true end.

(** The goroutine of [publishStateToL1]: about to publish, with a transaction for
    [groupContext] and then for [group.Go], in [queue.Wait], or done. *)
Inductive publish_control :=
  | Publish
  | EnterGroup (txdata : txData) (candidate : TxCandidate)
  | Go (txdata : txData) (candidate : TxCandidate)
  | WaitAll
  | TxDone.

Inductive batcher_loop :=
  | Selecting_
  | PublishState (k : publish_kind) (p : publish_control)
  | Stopped_.

Record batcher := mkBatcher {
  b_submitter : submitter;
  b_loop : batcher_loop;
  b_jobs : list tx_job;
  b_group_failed : bool;
  b_shutdown : bool;
  b_killed : bool }.

(** The start of the loop, as [Start] leaves the state. *)
Definition start_batcher (l : submitter) : batcher :=
  mkBatcher (mkBatchSubmitter zeroID (bs_lastL1Tip l) (ChannelManager.Clear (bs_state l)) (bs_env l)) Selecting_ [] false false false.

Definition set_control (x : batcher_loop) (b : batcher) : batcher :=
  mkBatcher (b_submitter b) x (b_jobs b) (b_group_failed b) (b_shutdown b) (b_killed b).
Definition set_submitter (l : submitter) (b : batcher) : batcher :=
  mkBatcher l (b_loop b) (b_jobs b) (b_group_failed b) (b_shutdown b) (b_killed b).
Definition set_jobs (jobs : list tx_job) (failed : bool) (b : batcher) : batcher :=
  mkBatcher (b_submitter b) (b_loop b) jobs failed (b_shutdown b) (b_killed b).

(** [state.Close], whose error is logged, at a reorg and at the end. *)
Definition close_state : M submitter (option unit + error) :=
  attempt (on_state (ChannelManager.Close cfg fuel)).
Definition clear_state : M submitter unit := on_state (modify ChannelManager.Clear).

(** Whether the group of the queue has a free place. *)
Definition has_place (jobs : list tx_job) : bool :=
  Nat.eqb MaxPendingTransactions 0 || Nat.ltb (length jobs) MaxPendingTransactions.

(** What [txMgr.Send] can return for a candidate. *)
Variable Send : TxCandidate -> MinedReceipt + error -> Prop.

(** The steps of the loop. *)
Inductive driver_step : batcher -> batcher -> Prop :=
  | drv_load b r l :
      b_loop b = Selecting_ -> attempt loadBlocksIntoState (b_submitter b) = (Ok r, l) ->
      (forall err, r = inr err -> errors_Is err ErrReorg = false) ->
      driver_step b (set_control (PublishState AfterLoad Publish) (set_submitter l b))
  | drv_reorg b err l r l' :
      b_loop b = Selecting_ -> loadBlocksIntoState (b_submitter b) = (Err err, l) ->
      errors_Is err ErrReorg = true -> close_state l = (Ok r, l') ->
      driver_step b (set_control (PublishState AfterReorg Publish) (set_submitter l' b))
  | drv_shutdown b r l :
      b_loop b = Selecting_ -> b_shutdown b = true -> close_state (b_submitter b) = (Ok r, l) ->
      driver_step b (set_control (PublishState AfterShutdown Publish) (set_submitter l b))
  | drv_receipt b jobs1 id candidate r jobs2 l :
      b_loop b <> Stopped_ -> b_jobs b = jobs1 ++ mkTxJob id candidate (Reporting r) :: jobs2 ->
      handleReceipt id r (b_submitter b) = (Ok tt, l) ->
      driver_step b (set_jobs (jobs1 ++ mkTxJob id candidate (LeavingGroup (match r with inl _ => false | inr _ => true end)) :: jobs2)
                       (b_group_failed b) (set_submitter l b))
  | drv_published b :
      b_loop b = PublishState AfterLoad TxDone ->
      driver_step b (set_control Selecting_ b)
  | drv_drained b l :
      b_loop b = PublishState AfterReorg TxDone -> clear_state (b_submitter b) = (Ok tt, l) ->
      driver_step b (set_control Selecting_ (set_submitter l b))
  | drv_stopped b :
      b_loop b = PublishState AfterShutdown TxDone ->
      driver_step b (set_control Stopped_ b).

(** The steps of the goroutine of [publishStateToL1].  Data whose intrinsic gas cannot be
    computed is dropped.  A new group is made when the context of the old one has ended,
    after all its goroutines; when the batcher is killed the new one has ended as well. *)
Inductive publish_step : batcher -> batcher -> Prop :=
  | pub_next b k txdata candidate l :
      b_loop b = PublishState k Publish -> next_txdata (b_submitter b) = (Ok (Some txdata), l) ->
      tx_candidate txdata = Ok candidate ->
      publish_step b (set_control (PublishState k (EnterGroup txdata candidate)) (set_submitter l b))
  | pub_dropped b k txdata err l :
      b_loop b = PublishState k Publish -> next_txdata (b_submitter b) = (Ok (Some txdata), l) ->
      tx_candidate txdata = Err err ->
      publish_step b (set_submitter l b)
  | pub_end b k err l :
      b_loop b = PublishState k Publish -> next_txdata (b_submitter b) = (Err err, l) ->
      publish_step b (set_control (PublishState k (if drain k then WaitAll else TxDone)) (set_submitter l b))
  | pub_group b k txdata candidate :
      b_loop b = PublishState k (EnterGroup txdata candidate) -> b_group_failed b || b_killed b = false ->
      publish_step b (set_control (PublishState k (Go txdata candidate)) b)
  | pub_new_group b k txdata candidate :
      b_loop b = PublishState k (EnterGroup txdata candidate) -> b_group_failed b || b_killed b = true -> b_jobs b = [] ->
      publish_step b (set_control (PublishState k (Go txdata candidate)) (set_jobs [] false b))
  | pub_go b k txdata candidate :
      b_loop b = PublishState k (Go txdata candidate) -> has_place (b_jobs b) = true ->
      publish_step b (set_control (PublishState k Publish)
                        (set_jobs (b_jobs b ++ [mkTxJob txdata candidate InSend]) (b_group_failed b) b))
  | pub_wait b k :
      b_loop b = PublishState k WaitAll -> b_jobs b = [] ->
      publish_step b (set_control (PublishState k TxDone) b).

(** The steps of a goroutine of the queue: [txMgr.Send] returns; it returns to its group,
    whose context an error ends. *)
Inductive job_step : batcher -> batcher -> Prop :=
  | job_Send b jobs1 id candidate r jobs2 :
      b_jobs b = jobs1 ++ mkTxJob id candidate InSend :: jobs2 -> Send candidate r ->
      job_step b (set_jobs (jobs1 ++ mkTxJob id candidate (Reporting r) :: jobs2) (b_group_failed b) b)
  | job_return b jobs1 id candidate is_error jobs2 :
      b_jobs b = jobs1 ++ mkTxJob id candidate (LeavingGroup is_error) :: jobs2 ->
      job_step b (set_jobs (jobs1 ++ jobs2) (is_error || b_group_failed b) b).

(** The other steps: the environment changes, and the contexts are cancelled by [Stop]. *)
Inductive batcher_step : batcher -> batcher -> Prop :=
  | batcher_driver b b' : driver_step b b' -> batcher_step b b'
  | batcher_publish b b' : publish_step b b' -> batcher_step b b'
  | batcher_job b b' : job_step b b' -> batcher_step b b'
  | batcher_env b e :
      batcher_step b (set_submitter (mkBatchSubmitter (bs_lastStoredBlock (b_submitter b)) (bs_lastL1Tip (b_submitter b))
                                       (bs_state (b_submitter b)) e) b)
  | batcher_Stop b killed :
      batcher_step b (mkBatcher (b_submitter b) (b_loop b) (b_jobs b) (b_group_failed b) true (killed || b_killed b)).
End Driver.
