(* ===== verification/BatchSubmitterSpec.v ===== *)
(** * What the batcher's driver promises

    The blocks that are loaded form a chain and are all held by the channel manager, every
    transaction whose outcome is awaited is on its way, and publishing never blocks. *)
From stdpp Require Import relations.
From S2P Require Import Prelude GoErrors GoBytes EthTypes Geth L1Info Frame Channel Batch Solabi Payloads ChannelOut Compressor ChannelBuilder ChannelManager BatcherChannelSpec ChannelManagerSpec Txmgr TxmgrSpec BatchSubmitter.
#[local] Open Scope Z_scope.

(** ** What the operations of the channel manager leave alone *)
Section Manager.
Context {C R : Type} `{Compressor C} `{Keccak} `{Rand R}.
Context (rlp_encode_batch : BatchV1 -> result Data) (rlp_encode_bytes : Data -> result Data).
Context (cfg : ChannelConfig) (NewCompressor : result C).
Import ChannelManager.
Implicit Types s : t C R.

(** The tip and whether the manager is closed; the transactions that are awaited. *)
Definition tip_closed s : Hash * bool := (tip s, closed s).

Section Same.
Context {B : Type} (f : t C R -> B).

Lemma on_channel_same {A} p (m : M (BatcherChannel.t C) A) :
  (forall p c s, f (set_channel p c s) = f s) -> preserves (same f) (on_channel p m).
Proof.
  intros Hf s r s'. unfold on_channel. destruct (heap s !! p) as [c|]; [|by intros [= _ <-]].
  destruct (m c) as [r' c']. intros [= _ <-]. apply Hf.
Qed.
Lemma on_current_same {A} (m : M (BatcherChannel.t C) A) :
  (forall p c s, f (set_channel p c s) = f s) -> preserves (same f) (on_current m).
Proof. intros Hf. unfold on_current. pose proof (fun p => on_channel_same p m Hf). go_code. Qed.
End Same.

Lemma tip_closed_channel p (c : BatcherChannel.t C) s : tip_closed (set_channel p c s) = tip_closed s.
Proof. done. Qed.
Lemma txChannels_channel p (c : BatcherChannel.t C) s : txChannels (set_channel p c s) = txChannels s.
Proof. done. Qed.

Lemma removePendingChannel_same p s :
  tip_closed (removePendingChannel p s) = tip_closed s /\ txChannels (removePendingChannel p s) = txChannels s.
Proof. unfold removePendingChannel, tip_closed. case_if; destruct (list_find _ _) as [[? ?]|]; done. Qed.

Ltac keep_field := intros; unfold same; first [done | apply removePendingChannel_same].

Lemma process_loop_same {B} (f : t C R -> B) bs :
  (forall p c s, f (set_channel p c s) = f s) -> preserves (same f) (process_loop rlp_encode_batch rlp_encode_bytes cfg bs).
Proof.
  intros Hf. pose proof (fun A m => on_current_same (A := A) f m Hf). induction bs as [|b bs IH]; cbn [process_loop]; go_code.
Qed.

Lemma TxFailed_tip id : preserves (same tip_closed) (TxFailed (C := C) (R := R) id).
Proof.
  unfold TxFailed. pose proof (fun A p m => on_channel_same (A := A) tip_closed p m tip_closed_channel).
  go_code; apply preserves_modify; keep_field.
Qed.
Lemma TxConfirmed_tip id b : preserves (same tip_closed) (TxConfirmed (C := C) (R := R) cfg id b).
Proof.
  unfold TxConfirmed. pose proof (fun A p m => on_channel_same (A := A) tip_closed p m tip_closed_channel).
  go_code; apply preserves_modify; keep_field.
Qed.
Lemma nextTxData_tip po : preserves (same tip_closed) (nextTxData (C := C) (R := R) po).
Proof.
  unfold nextTxData. pose proof (fun A p m => on_channel_same (A := A) tip_closed p m tip_closed_channel).
  go_code; apply preserves_modify; keep_field.
Qed.
Lemma ensureChannelWithSpace_same {B} (f : t C R -> B) :
  (forall p c s, f (set_channel p c s) = f s) ->
  (forall s r', f (mk (blocks s) (tip s) (heap s) (currentChannel s) (channelQueue s) (txChannels s) (closed s) r') = f s) ->
  (forall s q p, f (set_channelQueue q (set_currentChannel p s)) = f s) ->
  preserves (same f) (ensureChannelWithSpace NewCompressor).
Proof.
  intros Hf Hr Hq. unfold ensureChannelWithSpace. pose proof (fun A p m => on_channel_same (A := A) f p m Hf).
  go_code; try apply preserves_modify; try (intros s; unfold same; auto).
  match goal with c : BatcherChannel.t C |- _ => rewrite <- (Hf (fresh (dom (heap s))) c s);
    apply (Hq (set_channel (fresh (dom (heap s))) c s)) end.
Qed.

(** The part of [TxData] that fills a channel. *)
Definition fill (fuel : nat) (l1Head : BlockID) : M (t C R) (option unit) :=
  ensureChannelWithSpace NewCompressor ;;;
  processBlocks rlp_encode_batch rlp_encode_bytes cfg ;;;
  registerL1Block cfg l1Head ;;;
  outputFrames cfg fuel.

Lemma fill_same {B} (f : t C R -> B) fuel l1Head :
  (forall p c s, f (set_channel p c s) = f s) ->
  (forall s r', f (mk (blocks s) (tip s) (heap s) (currentChannel s) (channelQueue s) (txChannels s) (closed s) r') = f s) ->
  (forall s q p, f (set_channelQueue q (set_currentChannel p s)) = f s) ->
  (forall s bs, f (set_blocks bs s) = f s) -> preserves (same f) (fill fuel l1Head).
Proof.
  intros Hf Hr Hq Hb. unfold fill, processBlocks, registerL1Block, outputFrames.
  pose proof (ensureChannelWithSpace_same f Hf Hr Hq). pose proof (fun A m => on_current_same (A := A) f m Hf).
  pose proof (fun bs => process_loop_same f bs Hf). go_code. apply preserves_modify. intros s. unfold same. auto.
Qed.

Lemma TxData_eq fuel l1Head s :
  TxData rlp_encode_batch rlp_encode_bytes cfg NewCompressor fuel l1Head s =
  let firstWithFrame := first_with_frame s in
  if bool_decide (is_Some firstWithFrame) || closed s then (Some <$$> nextTxData firstWithFrame) s
  else if bool_decide (blocks s = []) then (Err EOF, s)
  else (out <- fill fuel l1Head ;;
        match out with None => ret None | Some _ => s <- get ;; Some <$$> nextTxData (currentChannel s) end) s.
Proof.
  unfold TxData, bind at 1, get. case_if; [done|]. case_if; [done|]. unfold fill, bind.
  destruct (ensureChannelWithSpace _ s) as [[[]|e|] s1]; [|done..]. destruct (processBlocks _ _ _ s1) as [[[]|e|] s2]; [|done..].
  destruct (registerL1Block _ _ s2) as [[[]|e|] s3]; done.
Qed.

Lemma TxData_tip fuel l1Head : preserves (same tip_closed) (TxData rlp_encode_batch rlp_encode_bytes cfg NewCompressor fuel l1Head).
Proof.
  intros s r s'. rewrite TxData_eq. cbv zeta.
  assert (preserves (same tip_closed) (fill fuel l1Head)) as Hfill by (by apply fill_same).
  pose proof nextTxData_tip as Hn.
  assert (forall po, preserves (same tip_closed) (Some <$$> nextTxData (C := C) (R := R) po)) as Hn' by (intros po; unfold mapM_result; go_code).
  case_if; [apply Hn'|]. case_if; [by intros [= <- <-]|]. match goal with |- ?m s = _ -> _ => assert (preserves (same tip_closed) m) as Hm by go_code end. apply Hm.
Qed.

(** The awaited transactions after handing one out. *)
Lemma nextTxData_awaits po s r s' : nextTxData po s = (r, s') ->
  dom (txChannels s') ⊆ dom (txChannels s) ∪ match r with Ok td => {[td_ID td]} | _ => ∅ end.
Proof.
  unfold nextTxData. destruct po as [p|]; [|intros [= <- <-]; set_solver].
  pose proof (fun A m => on_channel_same (A := A) txChannels p m txChannels_channel) as Hc.
  intros [(has & s1 & Hx & Hy)|[(e & Hx & ->)|[Hx ->]]]%bind_cases; apply Hc in Hx; unfold same in Hx; [|rewrite Hx; set_solver..].
  destruct (negb has); [injection Hy as <- <-; rewrite Hx; set_solver|].
  apply bind_cases in Hy as [(td & s2 & Hz & Hy)|[(e & Hz & ->)|[Hz ->]]]; apply Hc in Hz; unfold same in Hz; [|rewrite Hz, Hx; set_solver..].
  injection Hy as <- <-. simpl. rewrite dom_insert, Hz, Hx. set_solver.
Qed.

Lemma TxData_awaits fuel l1Head s r s' : TxData rlp_encode_batch rlp_encode_bytes cfg NewCompressor fuel l1Head s = (r, s') ->
  dom (txChannels s') ⊆ dom (txChannels s) ∪ match r with Ok (Some td) => {[td_ID td]} | _ => ∅ end.
Proof.
  assert (forall po s r s', (Some <$$> nextTxData po) s = (r, s') ->
    dom (txChannels s') ⊆ dom (txChannels s) ∪ match r with Ok (Some td) => {[td_ID td]} | _ => ∅ end) as Hn.
  { clear. intros po s r s'. unfold mapM_result. intros [(td & s1 & Hx & Hy)|[(e & Hx & ->)|[Hx ->]]]%bind_cases; apply nextTxData_awaits in Hx; [|done..].
    by injection Hy as <- <-. }
  rewrite TxData_eq. cbv zeta. case_if; [apply Hn|]. case_if; [intros [= <- <-]; set_solver|].
  assert (preserves (same txChannels) (fill fuel l1Head)) as Hfill by (by apply fill_same).
  intros [(out & s1 & Hx & Hy)|[(e & Hx & ->)|[Hx ->]]]%bind_cases; apply Hfill in Hx; unfold same in Hx; [|rewrite Hx; set_solver..].
  destruct out; [|injection Hy as <- <-; rewrite Hx; set_solver]. unfold bind at 1, get in Hy. apply Hn in Hy. by rewrite Hx in Hy.
Qed.

(** A report: the transaction is not awaited any more. *)
Lemma TxFailed_awaits id s r s' : TxFailed id s = (r, s') -> dom (txChannels s') ⊆ dom (txChannels s) ∖ {[id]}.
Proof.
  unfold TxFailed, bind at 1, get. destruct (txChannels s !! id) as [p|] eqn:Hp.
  - intros Hx. set (s1 := set_txChannels (delete id (txChannels s)) s). assert (txChannels s' = txChannels s1) as ->; [|simpl; rewrite dom_delete; done].
    unfold bind at 1, modify in Hx. fold s1 in Hx.
    pose proof (fun A p m => on_channel_same (A := A) txChannels p m txChannels_channel) as Hc.
    refine ((_ : preserves (same txChannels) (_ ;;; _)) s1 r s' Hx). go_code. apply preserves_modify. keep_field.
  - intros [= <- <-]. assert (id ∉ dom (txChannels s)) by (by apply not_elem_of_dom). set_solver.
Qed.
Lemma TxConfirmed_awaits id b s r s' : TxConfirmed cfg id b s = (r, s') -> dom (txChannels s') ⊆ dom (txChannels s) ∖ {[id]}.
Proof.
  unfold TxConfirmed, bind at 1, get. destruct (txChannels s !! id) as [p|] eqn:Hp.
  - intros Hx. set (s1 := set_txChannels (delete id (txChannels s)) s). assert (txChannels s' = txChannels s1) as ->; [|simpl; rewrite dom_delete; done].
    unfold bind at 1, modify in Hx. fold s1 in Hx.
    pose proof (fun A p m => on_channel_same (A := A) txChannels p m txChannels_channel) as Hc.
    refine ((_ : preserves (same txChannels) (bind _ _)) s1 r s' Hx). go_code; apply preserves_modify; keep_field.
  - intros [= <- <-]. assert (id ∉ dom (txChannels s)) by (by apply not_elem_of_dom). set_solver.
Qed.

(** [Close] marks the manager as closed and awaits the same transactions. *)
Lemma close_loop_same {B} (f : t C R -> B) i n :
  (forall p c s, f (set_channel p c s) = f s) -> (forall p s, f (removePendingChannel p s) = f s) -> preserves (same f) (close_loop i n).
Proof.
  intros Hf Hr. pose proof (fun A p m => on_channel_same (A := A) f p m Hf). revert i. induction n as [|n IH]; intros i; cbn [close_loop]; go_code.
  apply preserves_modify. intros s. unfold same. auto.
Qed.
Lemma manager_Close_same fuel s r s' : ChannelManager.Close cfg fuel s = (r, s') -> closed s' = true /\ txChannels s' = txChannels s.
Proof.
  unfold ChannelManager.Close, bind at 1, get. destruct (closed s) eqn:Hcl; [by intros [= <- <-]|]. unfold bind at 1, put. intros Hx.
  assert (same (fun s => (closed s, txChannels s)) (set_closed true s) s') as Hs; [|unfold same in Hs; simpl in Hs; split; congruence].
  set (f := fun s : t C R => (closed s, txChannels s)) in *. assert (forall p c s, f (set_channel p c s) = f s) as Hf by done.
  assert (forall p s, f (removePendingChannel p s) = f s) as Hr.
  { intros p s0. subst f. simpl. destruct (removePendingChannel_same p s0) as [[= _ E1] E2]. congruence. }
  pose proof (fun i n => close_loop_same f i n Hf Hr). pose proof (fun A m => on_current_same (A := A) f m Hf).
  refine ((_ : preserves (same f) (_ ;;; _)) _ r s' Hx). unfold outputFrames. go_code.
Qed.

Lemma AddL2Block_tip block s r s' : AddL2Block block s = (r, s') -> closed s' = closed s /\ txChannels s' = txChannels s /\
  (r = Ok tt /\ tip s' = blk_Hash block /\ (tip s = 0 \/ tip s = blk_ParentHash block) \/
   r = Err ErrReorg /\ s' = s /\ tip s <> 0 /\ tip s <> blk_ParentHash block).
Proof.
  unfold AddL2Block, bind, get. destruct (Z.eqb_spec (tip s) 0), (Z.eqb_spec (tip s) (blk_ParentHash block)); simpl; intros [= <- <-]; simpl; auto 10.
Qed.
End Manager.

(** ** Errors that are not a reorg *)
Definition not_reorg (e : error) : Prop := errors_Is e ErrReorg = false.

Lemma ReadFull_not_reorg n : fails_with not_reorg (ReadFull n).
Proof. intros r e r'. unfold ReadFull. repeat case_if; by intros [= <- _]. Qed.

Lemma L2BlockToBlockRef_not_reorg `{Keccak} block genesis err : L2BlockToBlockRef block genesis = Err err -> not_reorg err.
Proof.
  unfold L2BlockToBlockRef, L1InfoDepositTxData, L1BlockInfo_UnmarshalBinary. intros Hx.
  assert (fails_with not_reorg read_L1BlockInfo) as Hr.
  { pose proof ReadFull_not_reorg.
    unfold read_L1BlockInfo, ReadAndValidateSignature, ReadHash, ReadEthBytes32, ReadAddress, ReadUint64, ReadUint256, binary_Read.
    go_code; try by apply fails_throw. all: try by apply fails_wrapE. by intros r e r'; unfold EmptyReader; destruct r. }
  case_if_in Hx; [case_if_in Hx; by simplify_eq|].
  destruct (src_Transactions block) as [|tx txs]; [by simplify_eq|]. case_if_in Hx; [by simplify_eq|].
  destruct (negb _) in Hx; [by simplify_eq/=|]. specialize (Hr (tx_Data tx)). unfold fails_with in Hr.
  destruct (read_L1BlockInfo (tx_Data tx)) as [[info|e|] r']; simpl in Hx; simplify_eq. by apply (Hr e r').
Qed.

(** ** What the driver relies on

    Blocks are identified by their number and linked by their hashes; the errors of the
    clients are not the batcher's own. *)
Class LawfulBatcherEnv (E : Type) `{BatcherEnv E} := {
  BlockByNumber_number n e b e' : L2Client_BlockByNumber n e = (Ok b, e') ->
    blk_NumberU64 b = n /\ is_u64 n /\ blk_Hash b <> 0;
  BlockByNumber_parent n e b e1 n' e' b' e1' :
    L2Client_BlockByNumber n e = (Ok b, e1) -> L2Client_BlockByNumber n' e' = (Ok b', e1') ->
    blk_ParentHash b' = blk_Hash b -> blk_NumberU64 b' = blk_NumberU64 b + 1;
  BlockByNumber_error n e err e' : L2Client_BlockByNumber n e = (Err err, e') -> errors_Is err ErrReorg = false;
  SyncStatus_u64 e st e' : RollupNode_SyncStatus e = (Ok st, e') ->
    is_u64 (l2_Number (ss_SafeL2 st)) /\ is_u64 (l2_Number (ss_UnsafeL2 st));
  SyncStatus_error e err e' : RollupNode_SyncStatus e = (Err err, e') -> errors_Is err ErrReorg = false }.

Section Driver.
Context {E C R : Type} `{Compressor C} `{Keccak} `{Rand R} `{LawfulBatcherEnv E}.
Context (rlp_encode_batch : BatchV1 -> result Data) (rlp_encode_bytes : Data -> result Data).
Context (cfg : ChannelConfig) (NewCompressor : result C).
Context (Genesis_ : Genesis) (BatchInboxAddress : Address) (IntrinsicGas : Data -> result Z).
Context (MaxPendingTransactions : nat) (fuel : nat).
Context (Send : TxCandidate -> MinedReceipt + error -> Prop).
Implicit Types l : BatchSubmitter E C R.

(** A block that the client returns, and the number of a safe head that the rollup node
    reports. *)
Definition served (b : Block) : Prop := exists n e e', L2Client_BlockByNumber n e = (Ok b, e').
Definition reported (n : Z) : Prop := exists e st e', RollupNode_SyncStatus e = (Ok st, e') /\ l2_Number (ss_SafeL2 st) = n.

(** The blocks that were loaded since the start or the last reorg: each the child of the one
    before it, the first one after a safe head; [lastStoredBlock] is the last of them, or a
    safe head that has overtaken it. *)
Record loaded (added : list Block) (last_ : BlockID) (tip_ : Hash) : Prop := {
  ld_served : Forall served added;
  ld_tip : tip_ = match last added with Some b => blk_Hash b | None => 0 end;
  ld_chain i b b' : added !! i = Some b -> added !! S i = Some b' -> blk_ParentHash b' = blk_Hash b;
  ld_first b : added !! O = Some b -> reported (blk_NumberU64 b - 1);
  ld_last : match last added with
    | None => last_ = zeroID \/ reported (id_Number last_)
    | Some b => last_ = block_ID b \/ reported (id_Number last_) /\ blk_NumberU64 b < id_Number last_
    end }.

Definition loaded_in (added : list Block) l : Prop :=
  loaded added (bs_lastStoredBlock l) (ChannelManager.tip (bs_state l)).

Lemma served_number b : served b -> is_u64 (blk_NumberU64 b) /\ blk_Hash b <> 0.
Proof. intros (n & e & e' & Hb). apply BlockByNumber_number in Hb as (-> & ? & ?). done. Qed.

Lemma last_served added b : Forall served added -> last added = Some b -> served b.
Proof. intros Hs Hl. rewrite Forall_forall in Hs. apply Hs. by apply last_Some_elem_of. Qed.

Lemma loaded_nil last_ : last_ = zeroID \/ reported (id_Number last_) -> loaded [] last_ 0.
Proof. intros Hl. by split. Qed.

(** A block is loaded after the last one. *)
Lemma loaded_app added last_ tip_ b :
  loaded added last_ tip_ -> served b -> blk_NumberU64 b = id_Number last_ + 1 -> reported (id_Number last_) \/ added <> [] ->
  tip_ = 0 \/ tip_ = blk_ParentHash b -> loaded (added ++ [b]) (block_ID b) (blk_Hash b).
Proof.
  intros [L1 L2 L3 L4 L5] Hb Hn Hrep Htip.
  destruct (last added) as [bl|] eqn:El.
  - pose proof (last_served _ _ L1 El) as Hbl. pose proof (served_number _ Hbl) as [_ Hne].
    assert (blk_ParentHash b = blk_Hash bl) as Hpar by (destruct Htip; congruence). apply last_Some in El as [pre ->]. split.
    + apply Forall_app. split; [done|by constructor].
    + by rewrite last_snoc.
    + intros i x y Hx Hy. destruct (decide (S i < length (pre ++ [bl]))%nat) as [Hlt|Hge].
      * rewrite lookup_app_l in Hx, Hy by lia. by eapply L3.
      * rewrite length_app in Hge. simpl in Hge. pose proof (lookup_lt_Some _ _ _ Hy) as Hl. rewrite !length_app in Hl. simpl in Hl.
        assert (i = length pre) as -> by lia. rewrite lookup_app_r in Hy by (rewrite length_app; simpl; lia).
        rewrite length_app in Hy. replace (S (length pre) - (length pre + length [bl]))%nat with O in Hy by (simpl; lia). injection Hy as <-.
        rewrite lookup_app_l in Hx by (rewrite length_app; simpl; lia). rewrite list_lookup_middle in Hx by done. by injection Hx as <-.
    + intros x Hx. apply L4. by destruct pre.
    + rewrite last_snoc. by left.
  - apply last_None in El as ->. split; simpl; [by constructor|done|by intros [|i] x y| |by left].
    intros x [= <-]. rewrite Hn. replace (id_Number last_ + 1 - 1) with (id_Number last_) by lia. by destruct Hrep.
Qed.

(** Their numbers follow one another. *)
Lemma loaded_numbers added last_ tip_ : loaded added last_ tip_ ->
  forall i b b0, added !! O = Some b0 -> added !! i = Some b -> blk_NumberU64 b = blk_NumberU64 b0 + Z.of_nat i.
Proof.
  intros [L1 L2 L3 L4 L5] i b b0 Hb0. revert b. induction i as [|i IH]; intros b Hb; [rewrite Hb0 in Hb; injection Hb as <-; lia|].
  assert (is_Some (added !! i)) as [x Hx] by (apply lookup_lt_is_Some; apply lookup_lt_Some in Hb; lia).
  pose proof (L3 i x b Hx Hb) as Hp. pose proof (IH x Hx).
  destruct (Forall_lookup_1 _ _ _ _ L1 Hx) as (n & e & e' & Sx). destruct (Forall_lookup_1 _ _ _ _ L1 Hb) as (n' & e2 & e2' & Sb).
  pose proof (BlockByNumber_parent _ _ _ _ _ _ _ _ Sx Sb Hp). lia.
Qed.

(** ** Loading blocks *)
Abbreviation calculateL2BlockRangeToStore := (calculateL2BlockRangeToStore (C := C) (R := R) (E := E)).

Lemma on_env_same {A} (m : M E A) l r l' : on_env m l = (r, l') ->
  bs_state l' = bs_state l /\ bs_lastStoredBlock l' = bs_lastStoredBlock l /\ exists e', m (bs_env l) = (r, e').
Proof. unfold on_env, zoom. destruct (m (bs_env l)) as [r' e'] eqn:Em. intros [= <- <-]. simpl. eauto. Qed.

(** A loaded block has a number above that of its parent, so that its identity is not zero. *)
Lemma loaded_last added last_ tip_ b : loaded added last_ tip_ -> last added = Some b ->
  last_ <> zeroID /\ blk_NumberU64 b <= id_Number last_.
Proof.
  intros [L1 _ _ _ L5] Hl. rewrite Hl in L5. pose proof (last_served _ _ L1 Hl) as Hs. pose proof (served_number _ Hs) as [Hu Hne].
  unfold is_u64 in Hu. destruct L5 as [->|[_ Hlt]]; [|split; [|lia]].
  - split; [|done]. by intros [= ?].
  - intros ->. simpl in Hlt. lia.
Qed.

Lemma calculate_ok added l r l' : loaded_in added l -> calculateL2BlockRangeToStore l = (r, l') ->
  loaded_in added l' /\ bs_state l' = bs_state l /\
  match r with
  | Ok (start, end_) => start = bs_lastStoredBlock l' /\ is_u64 (id_Number end_) /\ (reported (id_Number start) \/ added <> [])
  | Err e => not_reorg e
  | Panic => True
  end.
Proof.
  intros Hl. unfold BatchSubmitter.calculateL2BlockRangeToStore.
  intros [(st & l1 & Hx & Hy)|[(e & Hx & ->)|[Hx ->]]]%bind_cases.
  2:{ unfold wrapE in Hx. destruct (on_env _ l) as [r0 l0] eqn:Eo. apply on_env_same in Eo as (E1 & E2 & e' & Ee).
      injection Hx as Hr <-. unfold loaded_in. rewrite E1, E2. split; [done|]. split; [done|].
      destruct r0; simpl in Hr; simplify_eq. by apply SyncStatus_error in Ee. }
  2:{ unfold wrapE in Hx. destruct (on_env _ l) as [r0 l0] eqn:Eo. apply on_env_same in Eo as (E1 & E2 & _).
      injection Hx as _ <-. unfold loaded_in. by rewrite E1, E2. }
  apply wrapE_Ok, on_env_same in Hx as (E1 & E2 & e' & Ee). pose proof (SyncStatus_u64 _ _ _ Ee) as [Us Uu].
  assert (loaded_in added l1) as Hl1 by (unfold loaded_in; by rewrite E1, E2). clear E2.
  assert (reported (l2_Number (ss_SafeL2 st))) as Hrep by (by exists (bs_env l), st, e').
  case_if_in Hy; [injection Hy as <- <-; by split_and!|]. unfold bind at 1, get in Hy.
  apply bind_cases in Hy as [([] & l2 & Hs & Hy)|[(e & Hs & ->)|[Hs ->]]].
  2,3: repeat case_if_in Hs; by simplify_eq.
  assert (loaded_in added l2 /\ bs_state l2 = bs_state l1 /\ (reported (id_Number (bs_lastStoredBlock l2)) \/ added <> [])) as (Hl2 & Es & Hor).
  { unfold set_lastStoredBlock, modify in Hs. case_if_in Hs; [|case_if_in Hs]; injection Hs as <-; unfold loaded_in in *; simpl.
    - destruct (last added) as [b|] eqn:El; [by destruct (loaded_last _ _ _ _ Hl1 El)|].
      apply last_None in El as ->. split; [|split; [done|by left]]. destruct Hl1 as [_ Ht _ _ _]. simpl in Ht. rewrite Ht.
      apply loaded_nil. by right.
    - split; [|split; [done|by left]]. pose proof (fun b => loaded_last _ _ _ b Hl1) as Hlast. destruct Hl1 as [L1 L2 L3 L4 L5].
      split; try done. destruct (last added) as [b|] eqn:El; [|by right].
      right. split; [done|]. simpl. destruct (Hlast b eq_refl). lia.
    - split; [done|]. split; [done|]. destruct Hl1 as [_ _ _ _ L5]. destruct (last added) as [b|] eqn:El.
      + right. by intros ->.
      + left. by destruct L5. }
  case_if_in Hy; [injection Hy as <- <-; split; [done|]; split; [congruence|done]|].
  unfold bind, get in Hy. injection Hy as <- <-. split; [done|]. split; [congruence|]. by split.
Qed.

Lemma on_state_eq {A} (m : M (ChannelManager.t C R) A) l r l' : on_state m l = (r, l') ->
  m (bs_state l) = (r, bs_state l') /\ bs_lastStoredBlock l' = bs_lastStoredBlock l.
Proof. unfold on_state, zoom. destruct (m (bs_state l)) as [r' s']. intros [= <- <-]. done. Qed.

Lemma loadBlockIntoState_ok added l i r l' :
  mgr_inv added (bs_state l) -> ChannelManager.closed (bs_state l) = false -> loaded_in added l ->
  reported (id_Number (bs_lastStoredBlock l)) \/ added <> [] -> i = id_Number (bs_lastStoredBlock l) + 1 ->
  loadBlockIntoState i l = (r, l') ->
  ChannelManager.closed (bs_state l') = false /\ ChannelManager.txChannels (bs_state l') = ChannelManager.txChannels (bs_state l) /\
  match r with
  | Ok b => mgr_inv (added ++ [b]) (bs_state l') /\ loaded (added ++ [b]) (block_ID b) (ChannelManager.tip (bs_state l')) /\ blk_NumberU64 b = i
  | Err e => mgr_inv added (bs_state l') /\ loaded_in added l'
  | Panic => True
  end.
Proof.
  intros Hm Hc Hl Hrep Hi. unfold loadBlockIntoState.
  intros [(b & l1 & Hx & Hy)|[(e & Hx & ->)|[Hx ->]]]%bind_cases.
  2,3: unfold wrapE in Hx; destruct (on_env _ l) as [r0 l0] eqn:Eo; apply on_env_same in Eo as (E1 & E2 & _); injection Hx as _ <-;
    unfold loaded_in; by rewrite E1, ?E2.
  apply wrapE_Ok, on_env_same in Hx as (E1 & E2 & e' & Ee).
  assert (loaded_in added l1) as Hl1 by (unfold loaded_in; by rewrite E1, E2). rewrite <- E1 in Hm, Hc |- *.
  apply bind_cases in Hy as [([] & l2 & Ha & Hy)|[(e & Ha & ->)|[Ha ->]]].
  - injection Hy as <- <-. apply wrapE_Ok, on_state_eq in Ha as [Ha E3].
    pose proof (AddL2Block_inv _ _ _ _ _ Hm Ha) as Hm2. simpl in Hm2.
    destruct (AddL2Block_tip _ _ _ _ Ha) as (Hc2 & Ht2 & [(_ & Htip & Hpar)|(? & _)]); [|done].
    split; [congruence|]. split; [done|]. split; [done|].
    pose proof (BlockByNumber_number _ _ _ _ Ee) as (Hn & _ & _). split; [|done]. rewrite Htip.
    eapply loaded_app; [exact Hl1|by exists i, (bs_env l), e'|rewrite E2; congruence|by rewrite E2|done].
  - unfold wrapE in Ha. destruct (on_state _ l1) as [r0 l0] eqn:Eo. apply on_state_eq in Eo as [Eo E3]. injection Ha as Hr <-.
    pose proof (AddL2Block_inv _ _ _ _ _ Hm Eo) as Hm2.
    destruct (AddL2Block_tip _ _ _ _ Eo) as (Hc2 & Ht2 & [(-> & _)|(-> & Hs & _)]); [done|]. simpl in Hm2.
    split; [congruence|]. split; [done|]. split; [done|]. unfold loaded_in. by rewrite Hs, E3.
  - unfold wrapE in Ha. destruct (on_state _ l1) as [r0 l0] eqn:Eo. apply on_state_eq in Eo as [Eo E3]. injection Ha as Hr <-.
    destruct (AddL2Block_tip _ _ _ _ Eo) as (Hc2 & Ht2 & _). split; [congruence|]. by split.
Qed.

(** What loading leaves behind: a reorg was found, or the blocks that were loaded are a
    chain as before. *)
Record after_load {A} (l : BatchSubmitter E C R) (added : list Block) (r : result A) l' : Prop := {
  al_inv : mgr_inv added (bs_state l');
  al_open : ChannelManager.closed (bs_state l') = false;
  al_txs : ChannelManager.txChannels (bs_state l') = ChannelManager.txChannels (bs_state l);
  al_result : match r with
    | Err e => if errors_Is e ErrReorg then bs_lastStoredBlock l' = zeroID else loaded_in added l'
    | Ok _ => loaded_in added l'
    | Panic => True
    end }.

Lemma load_blocks_ok n : forall i latest added l r l',
  mgr_inv added (bs_state l) -> ChannelManager.closed (bs_state l) = false -> loaded_in added l ->
  reported (id_Number (bs_lastStoredBlock l)) \/ added <> [] -> i = id_Number (bs_lastStoredBlock l) + 1 ->
  0 <= i -> i + Z.of_nat n <= two64 ->
  load_blocks n i latest l = (r, l') -> r <> Panic -> exists added', after_load l added' r l'.
Proof.
  induction n as [|n IH]; intros i latest added l r l' Hm Hc Hl Hrep Hi Hi0 Hi1; cbn [load_blocks].
  { intros [= <- <-] _. by exists added. }
  intros Hx Hnp. apply bind_cases in Hx as [(ra & l1 & Ha & Hx)|[(e & Ha & ->)|[_ ->]]]; [|by apply attempt_not_Err in Ha|done].
  unfold attempt in Ha. destruct (loadBlockIntoState i l) as [[b|err|] l0] eqn:El; [| |done]; injection Ha as <- <-;
    destruct (loadBlockIntoState_ok _ _ _ _ _ Hm Hc Hl Hrep Hi El) as (Hc1 & Ht1 & Hres).
  - destruct Hres as (Hm1 & Hl1 & Hn). unfold bind at 1, set_lastStoredBlock, modify in Hx.
    destruct (decide (n = O)) as [->|Hn0].
    { simpl in Hx. injection Hx as <- <-. exists (added ++ [b]). by split. }
    rewrite (u64_small (i + 1)) in Hx by lia.
    set (l2 := mkBatchSubmitter (block_ID b) _ _ _) in Hx.
    destruct (IH (i + 1) (Some b) (added ++ [b]) l2 _ _ Hm1 Hc1 Hl1 ltac:(right; by destruct added) ltac:(simpl; lia) ltac:(lia) ltac:(lia) Hx Hnp)
      as [added' [A1 A2 A3 A4]]. exists added'. split; try done. simpl in A3. congruence.
  - destruct Hres as [Hm1 Hl1]. exists added. apply bind_cases in Hx as [([] & l2 & Hs & Hx)|[(e & Hs & ->)|[Hs ->]]].
    2,3: case_if_in Hs; by simplify_eq.
    injection Hx as <- <-. destruct (errors_Is err ErrReorg) eqn:Er; injection Hs as <-; (split; [done..|]); by rewrite Er.
Qed.

Lemma loadBlocksIntoState_ok added l r l' :
  mgr_inv added (bs_state l) -> ChannelManager.closed (bs_state l) = false -> loaded_in added l ->
  loadBlocksIntoState Genesis_ l = (r, l') -> r <> Panic -> exists added', after_load l added' r l'.
Proof.
  intros Hm Hc Hl Hx Hnp. unfold loadBlocksIntoState in Hx.
  apply bind_cases in Hx as [([start end_] & l1 & Hr & Hx)|[(e & Hr & ->)|[_ ->]]]; [|..|done];
    destruct (calculate_ok _ _ _ _ Hl Hr) as (Hl1 & Es & Hres).
  2:{ exists added. split; [by rewrite Es|by rewrite Es|by rewrite Es|]. by rewrite Hres. }
  destruct Hres as (-> & Hu & Hrep). rewrite <- Es in Hm, Hc.
  destruct (Z.leb_spec (id_Number end_) (id_Number (bs_lastStoredBlock l1))) as [|Hlt].
  { injection Hx as <- <-. exists added. split; [done|done|by rewrite Es|done]. }
  assert (0 <= id_Number (bs_lastStoredBlock l1)) as Hpos.
  { destruct Hrep as [(e & st & e' & Hst & Hnum)|Hne]; [pose proof (proj1 (SyncStatus_u64 _ _ _ Hst)) as Hu'; unfold is_u64 in Hu'; lia|].
    destruct (last added) as [b|] eqn:El; [|by apply last_None in El].
    pose proof (proj2 (loaded_last _ _ _ _ Hl1 El)). pose proof (proj1 (served_number _ (last_served _ _ (ld_served _ _ _ Hl1) El))) as Hu'. unfold is_u64 in Hu'. lia. }
  unfold is_u64 in Hu. rewrite (u64_small (id_Number (bs_lastStoredBlock l1) + 1)) in Hx by lia.
  set (n := Z.to_nat _) in Hx. assert (id_Number (bs_lastStoredBlock l1) + 1 + Z.of_nat n <= two64) as Hn.
  { subst n. pose proof (u64_range (id_Number end_ + 1)). lia. }
  apply bind_cases in Hx as [(latest & l2 & Hlb & Hx)|[(e & Hlb & ->)|[_ ->]]]; [|..|done].
  - destruct (load_blocks_ok _ _ _ _ _ _ _ Hm Hc Hl1 Hrep eq_refl ltac:(lia) Hn Hlb ltac:(done)) as [added' [A1 A2 A3 A4]].
    exists added'. destruct latest as [block|]; [|by injection Hx as <- <-].
    apply bind_cases in Hx as [(ref & l3 & Hb & Hx)|[(e & Hb & ->)|[_ ->]]]; [| |done].
    + injection Hb as Hb <-. injection Hx as <- <-. split; [done|done|congruence|done].
    + injection Hb as Hb <-. apply L2BlockToBlockRef_not_reorg in Hb. split; [done|done|congruence|]. by rewrite Hb.
  - destruct (load_blocks_ok _ _ _ _ _ _ _ Hm Hc Hl1 Hrep eq_refl ltac:(lia) Hn Hlb ltac:(done)) as [added' [A1 A2 A3 A4]].
    exists added'. split; [done|done|congruence|done].
Qed.

(** ** The parts of a step *)
Abbreviation next_txdata := (next_txdata (E := E) (C := C) (R := R) rlp_encode_batch rlp_encode_bytes cfg NewCompressor fuel).
Abbreviation driver_step := (driver_step (E := E) (C := C) (R := R) cfg Genesis_ fuel).
Abbreviation publish_step := (publish_step (E := E) (C := C) (R := R) rlp_encode_batch rlp_encode_bytes cfg NewCompressor
  BatchInboxAddress IntrinsicGas MaxPendingTransactions fuel).
Abbreviation job_step := (job_step (E := E) (C := C) (R := R) Send).
Abbreviation batcher_step := (batcher_step (E := E) (C := C) (R := R) rlp_encode_batch rlp_encode_bytes cfg NewCompressor Genesis_
  BatchInboxAddress IntrinsicGas MaxPendingTransactions fuel Send).
Abbreviation batcher := (batcher (E := E) (C := C) (R := R)).

Lemma next_txdata_cases l r l' : next_txdata l = (r, l') ->
  bs_lastStoredBlock l' = bs_lastStoredBlock l /\
  (bs_state l' = bs_state l /\ (forall td, r <> Ok (Some td)) \/
   exists tip, ChannelManager.TxData rlp_encode_batch rlp_encode_bytes cfg NewCompressor fuel tip (bs_state l) = (r, bs_state l')).
Proof.
  unfold BatchSubmitter.next_txdata. intros [(tip & l1 & Hx & Hy)|[(e & Hx & ->)|[Hx ->]]]%bind_cases;
    unfold l1Tip in Hx; apply bind_cases in Hx as [(head & l2 & Hh & Hz)|[(e' & Hh & Hr)|[Hh Hr]]]; try done;
    unfold wrapE in Hh; destruct (on_env _ l) as [r0 l0] eqn:Eo; apply on_env_same in Eo as (E1 & E2 & _); injection Hh as _ <-.
  2,3: by rewrite E1, E2; eauto.
  injection Hz as _ <-. unfold bind at 1, recordL1Tip, modify in Hy. apply on_state_eq in Hy as [Hy E3].
  assert (forall x, bs_state (if bool_decide (bs_lastL1Tip x = tip) then x
    else mkBatchSubmitter (bs_lastStoredBlock x) tip (bs_state x) (bs_env x) : BatchSubmitter E C R) = bs_state x /\
    bs_lastStoredBlock (if bool_decide (bs_lastL1Tip x = tip) then x
    else mkBatchSubmitter (bs_lastStoredBlock x) tip (bs_state x) (bs_env x) : BatchSubmitter E C R) = bs_lastStoredBlock x) as Hrec
    by (intros x; by case_if).
  destruct (Hrec l0) as [R1 R2]. rewrite R1, E1 in Hy. split; [congruence|]. right. by exists (l1_ID tip).
Qed.

Lemma next_txdata_ok added l r l' : next_txdata l = (r, l') -> mgr_inv added (bs_state l) ->
  mgr_inv added (bs_state l') /\ tip_closed (bs_state l') = tip_closed (bs_state l) /\
  bs_lastStoredBlock l' = bs_lastStoredBlock l /\
  (forall id, id ∈ dom (ChannelManager.txChannels (bs_state l')) -> id ∈ dom (ChannelManager.txChannels (bs_state l)) \/
     exists td, r = Ok (Some td) /\ td_ID td = id).
Proof.
  intros [El [[Es Hr]|(tip & Ht)]]%next_txdata_cases Hm.
  - rewrite Es. split_and!; auto.
  - split; [by eapply TxData_inv|]. split; [by eapply TxData_tip|]. split; [done|].
    apply TxData_awaits in Ht. intros id Hid. apply Ht in Hid. apply elem_of_union in Hid as [?|Hid]; [by left|right].
    destruct r as [[td|]|e|]; [|by apply not_elem_of_empty in Hid..]. apply elem_of_singleton in Hid. eauto.
Qed.

Lemma handleReceipt_ok added id r l : mgr_inv added (bs_state l) ->
  exists l', handleReceipt cfg id r l = (Ok tt, l') /\ mgr_inv added (bs_state l') /\
    tip_closed (bs_state l') = tip_closed (bs_state l) /\ bs_lastStoredBlock l' = bs_lastStoredBlock l /\
    dom (ChannelManager.txChannels (bs_state l')) ⊆ dom (ChannelManager.txChannels (bs_state l)) ∖ {[td_ID id]}.
Proof.
  intros Hm. unfold handleReceipt, on_state, zoom. destruct r as [receipt|err].
  - destruct (manager_TxConfirmed_inv cfg added (td_ID id) (mkBlockID (mr_BlockHash receipt) (u64 (mr_BlockNumber receipt))) _ Hm) as (s' & Hs & Hm').
    rewrite Hs. eexists. split; [done|]. simpl. split; [done|]. split; [by eapply TxConfirmed_tip|]. split; [done|]. by eapply TxConfirmed_awaits.
  - destruct (manager_TxFailed_inv added (td_ID id) _ Hm) as (s' & Hs & Hm'). rewrite Hs. eexists. split; [done|]. simpl.
    split; [done|]. split; [by eapply TxFailed_tip|]. split; [done|]. by eapply TxFailed_awaits.
Qed.

Lemma close_state_ok added l r l' : close_state cfg fuel l = (r, l') -> mgr_inv added (bs_state l) ->
  mgr_inv added (bs_state l') /\ ChannelManager.closed (bs_state l') = true /\ bs_lastStoredBlock l' = bs_lastStoredBlock l /\
  ChannelManager.txChannels (bs_state l') = ChannelManager.txChannels (bs_state l).
Proof.
  unfold close_state, attempt. destruct (on_state _ l) as [r0 l0] eqn:Eo. intros Hx Hm.
  assert (l0 = l') as -> by (destruct r0; by simplify_eq). apply on_state_eq in Eo as [Eo El].
  split; [by eapply manager_Close_inv|]. apply manager_Close_same in Eo as [? ?]. done.
Qed.

(** ** The invariant of the driver *)
Definition is_open (b : batcher) : Prop := ChannelManager.closed (bs_state (b_submitter b)) = false.

Record batcher_ok (b : batcher) : Prop := {
  bo_state : exists added, mgr_inv added (bs_state (b_submitter b)) /\ (is_open b -> loaded_in added (b_submitter b));
  bo_loop : match b_loop b with
    | Selecting_ | PublishState AfterLoad _ => is_open b
    | PublishState AfterReorg _ => ~ is_open b /\ bs_lastStoredBlock (b_submitter b) = zeroID
    | _ => ~ is_open b
    end }.

(** A step of the submitter that leaves the tip, whether the manager is closed and the last
    block as they are. *)
Lemma batcher_ok_same b b' :
  batcher_ok b -> b_loop b' = b_loop b \/ (exists k p p', b_loop b = PublishState k p /\ b_loop b' = PublishState k p') ->
  (forall added, mgr_inv added (bs_state (b_submitter b)) -> mgr_inv added (bs_state (b_submitter b'))) ->
  tip_closed (bs_state (b_submitter b')) = tip_closed (bs_state (b_submitter b)) ->
  bs_lastStoredBlock (b_submitter b') = bs_lastStoredBlock (b_submitter b) -> batcher_ok b'.
Proof.
  intros [(added & Hm & Hl) Hk] Hloop Hkeep [= Ht Hc] Hlast. unfold is_open, loaded_in in *. split; unfold is_open, loaded_in.
  - exists added. rewrite Ht, Hc, Hlast. auto.
  - rewrite Hc, Hlast. destruct Hloop as [->|(k & p & p' & E1 & ->)]; [done|]. by rewrite E1 in Hk; destruct k.
Qed.

Lemma driver_step_ok b b' : driver_step b b' -> batcher_ok b -> batcher_ok b'.
Proof.
  intros Hst Hok. pose proof Hok as [(added & Hm & Hl) Hk]. destruct Hst as [b r l Hs Hx Hr|b err l r l' Hs Hx He Hc|b r l Hs Hd Hc|
    b jobs1 id cand r jobs2 l Hs Hj Hh|b Hs|b l Hs Hc|b Hs].
  - rewrite Hs in Hk. assert (exists r0, loadBlocksIntoState Genesis_ (b_submitter b) = (r0, l) /\ r0 <> Panic /\
      (forall e, r0 = Err e -> errors_Is e ErrReorg = false)) as (r0 & Hx0 & Hnp & Hne).
    { unfold attempt in Hx. destruct (loadBlocksIntoState _ _) as [[a|e|] l0]; simplify_eq; [by exists (Ok a)|exists (Err e)].
      split_and!; [done..|]. intros e' [= <-]. by apply Hr. }
    destruct (loadBlocksIntoState_ok _ _ _ _ Hm Hk (Hl Hk) Hx0 Hnp) as [added' [A1 A2 A3 A4]].
    split; simpl; [exists added'; split; [done|]; intros _|done]. destruct r0 as [a|e|]; [done| |done]. by rewrite (Hne e) in A4.
  - rewrite Hs in Hk. destruct (loadBlocksIntoState_ok _ _ _ _ Hm Hk (Hl Hk) Hx ltac:(done)) as [added' [A1 A2 A3 A4]]. rewrite He in A4.
    destruct (close_state_ok _ _ _ _ Hc A1) as (C1 & C2 & C3 & C4). unfold is_open. split; simpl; unfold is_open; simpl.
    + exists added'. split; [done|congruence].
    + split; congruence.
  - destruct (close_state_ok _ _ _ _ Hc Hm) as (C1 & C2 & C3 & C4). split; simpl; unfold is_open; simpl; [|congruence].
    exists added. split; [done|congruence].
  - destruct (handleReceipt_ok added id r _ Hm) as (l0 & Hh0 & H1' & H2' & H3' & H4'). rewrite Hh0 in Hh. injection Hh as <-.
    apply (batcher_ok_same b); simpl; try done; [by left|]. intros a Ha. destruct (handleReceipt_ok a id r _ Ha) as (l1 & Hh1 & ? & _).
    rewrite Hh0 in Hh1. by injection Hh1 as <-.
  - split; simpl; [by exists added|]. by rewrite Hs in Hk.
  - rewrite Hs in Hk. destruct Hk as [_ Hz]. unfold clear_state, on_state, zoom, modify in Hc. simpl in Hc. injection Hc as <-.
    split; simpl; [|done]. exists []. split; [by eapply Clear_inv|]. intros _. unfold loaded_in. simpl. rewrite Hz. apply loaded_nil. by left.
  - split; simpl; [by exists added|]. by rewrite Hs in Hk.
Qed.

Lemma publish_step_ok b b' : publish_step b b' -> batcher_ok b -> batcher_ok b'.
Proof.
  intros Hst Hok. pose proof Hok as [(added & Hm & _) _].
  destruct Hst as [b k td cand l Hs Hx Hc|b k td err l Hs Hx Hc|b k err l Hs Hx|b k td cand Hs Hf|b k td cand Hs Hf Hj|b k td cand Hs Hp|b k Hs Hj];
    apply (batcher_ok_same _ _ Hok); simpl; try done; try (right; by do 3 eexists); try (by left);
    try (destruct (next_txdata_ok _ _ _ _ Hx Hm) as (? & ? & ? & _); done);
    intros a Ha; by destruct (next_txdata_ok _ _ _ _ Hx Ha) as (? & _).
Qed.

Lemma batcher_step_ok b b' : batcher_step b b' -> batcher_ok b -> batcher_ok b'.
Proof.
  intros [b1 b2 Hd|b1 b2 Hp|b1 b2 Hj|b1 e|b1 killed] Hok; [by eapply driver_step_ok|by eapply publish_step_ok|..].
  - by destruct Hj; apply (batcher_ok_same _ _ Hok); simpl; auto.
  - by apply (batcher_ok_same _ _ Hok); simpl; auto.
  - by apply (batcher_ok_same _ _ Hok); simpl; auto.
Qed.

Lemma start_batcher_ok r0 l : (exists added, mgr_inv added (bs_state l)) -> r0 = start_batcher l -> batcher_ok r0.
Proof.
  intros [added Hm] ->. split; [|done]. exists []. split; [by eapply Clear_inv|]. intros _. apply loaded_nil. by left.
Qed.

(** C15: every loaded block is held.  However the goroutines of the batcher run, whatever the
    clients and the transaction manager answer: while the channel manager is open, the
    blocks that were loaded are a chain of children whose numbers follow one another, the
    first one after a safe head that the rollup node reported; [lastStoredBlock] is the last
    of them, or a safe head that has overtaken it; and each of them waits for a channel, is
    in a channel of the queue, or in one all of whose frames are confirmed. *)
Theorem loaded_blocks_are_held R0 rand env b :
  R0 = start_batcher (mkBatchSubmitter zeroID zeroL1 (ChannelManager.new rand) env) ->
  rtc batcher_step R0 b -> is_open b ->
  exists added, loaded_in added (b_submitter b) /\
    (forall i x x0, added !! O = Some x0 -> added !! i = Some x -> blk_NumberU64 x = blk_NumberU64 x0 + Z.of_nat i) /\
    forall x, x ∈ added -> held (bs_state (b_submitter b)) x.
Proof.
  intros HR Hrun Hopen.
  assert (batcher_ok b) as [(added & Hm & Hl) _].
  { refine (run_keeps _ batcher_ok batcher_step_ok _ _ Hrun _). eapply start_batcher_ok; [|exact HR]. exists []. apply new_mgr_inv. }
  exists added. split; [by apply Hl|]. split; [eapply loaded_numbers; by apply Hl|]. intros x Hx. by apply (mi_held _ _ Hm).
Qed.

(** ** The transactions on their way *)

(** The identifiers for which a report will come: those of the goroutines that have not
    reported, and that of the transaction that is about to be sent. *)
Definition reports (j : tx_job) : Prop := match tj_status j with LeavingGroup _ => False | _ => True end.
Definition in_flight (b : batcher) (id : txID) : Prop :=
  (exists j, j ∈ b_jobs b /\ reports j /\ td_ID (tj_ID j) = id) \/
  exists k td cand, (b_loop b = PublishState k (EnterGroup td cand) \/ b_loop b = PublishState k (Go td cand)) /\ td_ID td = id.

(** What holds of the awaited outcomes, apart from the transactions [A] that were given up. *)
Record flight_ok (A : txID -> Prop) (b : batcher) : Prop := {
  fo_awaited id : id ∈ dom (ChannelManager.txChannels (bs_state (b_submitter b))) -> in_flight b id \/ A id;
  fo_places : MaxPendingTransactions <> O -> (length (b_jobs b) <= MaxPendingTransactions)%nat;
  fo_drained k : b_loop b = PublishState k TxDone -> drain k = true -> b_jobs b = [];
  fo_stopped : b_loop b = Stopped_ -> b_jobs b = [] }.

Lemma jobs_change jobs1 j j' jobs2 P : (P j -> P j') -> (exists x, x ∈ jobs1 ++ j :: jobs2 /\ P x) ->
  exists x : tx_job, x ∈ jobs1 ++ j' :: jobs2 /\ P x.
Proof.
  intros Hj (x & Hx & HP). rewrite elem_of_app, elem_of_cons in Hx. destruct Hx as [Hx|[->|Hx]].
  - exists x. split; [apply elem_of_app; by left|done].
  - exists j'. split; [apply elem_of_app; right; by left|auto].
  - exists x. split; [apply elem_of_app; right; by right|done].
Qed.

Lemma set_jobs_drained jobs1 (j : tx_job) jobs2 : jobs1 ++ j :: jobs2 <> [].
Proof. by destruct jobs1. Qed.

(** The loop moves on while no transaction is being handed to the queue. *)
Lemma flight_ok_loop A b b' : flight_ok A b -> b_jobs b' = b_jobs b ->
  dom (ChannelManager.txChannels (bs_state (b_submitter b'))) ⊆ dom (ChannelManager.txChannels (bs_state (b_submitter b))) ->
  (forall k td cand, b_loop b <> PublishState k (EnterGroup td cand) /\ b_loop b <> PublishState k (Go td cand)) ->
  (forall k, b_loop b' = PublishState k TxDone -> drain k = true -> b_jobs b = []) ->
  (b_loop b' = Stopped_ -> b_jobs b = []) -> flight_ok A b'.
Proof.
  intros [F1 F2 F3 F4] Hj Ht Hl Hd Hs. split; rewrite ?Hj; try done.
  intros id Hid. apply Ht, F1 in Hid as [[Hid|(k & td & cand & [Hc|Hc] & _)]|Hid]; [left; left; by rewrite Hj|by destruct (Hl k td cand)..|by right].
Qed.

Lemma driver_step_flight A b b' : driver_step b b' -> batcher_ok b -> flight_ok A b -> flight_ok A b'.
Proof.
  intros Hst [(added & Hm & Hl) Hk] Hf. pose proof Hf as [F1 F2 F3 F4].
  destruct Hst as [b r l Hs Hx Hr|b err l r l' Hs Hx He Hc|b r l Hs Hd Hc|
    b jobs1 id cand r jobs2 l Hs Hj Hh|b Hs|b l Hs Hc|b Hs].
  - rewrite Hs in Hk. apply (flight_ok_loop A b); simpl; try done; [|by rewrite Hs].
    unfold attempt in Hx. destruct (loadBlocksIntoState _ _) as [[a|e|] l0] eqn:El; [..|done]; injection Hx as _ <-;
      destruct (loadBlocksIntoState_ok _ _ _ _ Hm Hk (Hl Hk) El ltac:(done)) as [added' [_ _ A3 _]]; by rewrite A3.
  - rewrite Hs in Hk. destruct (loadBlocksIntoState_ok _ _ _ _ Hm Hk (Hl Hk) Hx ltac:(done)) as [added' [A1 _ A3 _]].
    destruct (close_state_ok _ _ _ _ Hc A1) as (_ & _ & _ & C4). apply (flight_ok_loop A b); simpl; try done; [by rewrite C4, A3|by rewrite Hs].
  - destruct (close_state_ok _ _ _ _ Hc Hm) as (_ & _ & _ & C4). apply (flight_ok_loop A b); simpl; try done; [by rewrite C4|by rewrite Hs].
  - destruct (handleReceipt_ok added id r _ Hm) as (l0 & Hh0 & _ & _ & _ & Ha). rewrite Hh0 in Hh. injection Hh as <-.
    split; simpl.
    + intros id' Hid. apply Ha, elem_of_difference in Hid as [Hid Hne]. apply F1 in Hid as [[Hid|Hid]|Hid]; [left; left; simpl|left; right; done|by right].
      rewrite Hj in Hid. revert Hid. apply jobs_change. intros [_ <-]. simpl in Hne. set_solver.
    + intros Hmax. specialize (F2 Hmax). rewrite Hj in F2. by rewrite length_app in *.
    + intros k Hk' Hd. rewrite (F3 k Hk' Hd) in Hj. by destruct jobs1.
    + intros Hst. by rewrite Hst in Hs.
  - apply (flight_ok_loop A b); simpl; try done. by rewrite Hs.
  - unfold clear_state, on_state, zoom, modify in Hc. simpl in Hc. injection Hc as <-. apply (flight_ok_loop A b); simpl; try done; by rewrite Hs.
  - apply (flight_ok_loop A b); simpl; try done; [by rewrite Hs|]. intros _. by eapply F3.
Qed.

(** The goroutine of [publishStateToL1] gives a transaction up, because its gas cannot be
    computed. *)
Definition gives_up (td : txData) (b b' : batcher) : Prop :=
  exists k err l, b_loop b = PublishState k Publish /\ next_txdata (b_submitter b) = (Ok (Some td), l) /\
    IntrinsicGas (td_Bytes td) = Err err /\ b' = set_submitter l b.

Lemma publish_step_flight A b b' : publish_step b b' -> batcher_ok b -> flight_ok A b ->
  flight_ok A b' \/ exists td, gives_up td b b' /\ flight_ok (fun id => A id \/ td_ID td = id) b'.
Proof.
  intros Hst [(added & Hm & _) _] Hf. pose proof Hf as [F1 F2 F3 F4].
  destruct Hst as [b k td cand l Hs Hx Hc|b k td err l Hs Hx Hc|b k err l Hs Hx|b k td cand Hs Hg|b k td cand Hs Hg Hj|b k td cand Hs Hp|b k Hs Hj].
  2: { right. exists td. destruct (next_txdata_ok _ _ _ _ Hx Hm) as (_ & _ & _ & Ha). split.
    - exists k. unfold tx_candidate in Hc. destruct (IntrinsicGas (td_Bytes td)) as [gas|e|] eqn:Eg; [done| |done]. by exists e, l.
    - split; simpl; try done. intros id Hid. destruct (Ha id Hid) as [Hin|(td' & [= <-] & <-)]; [|by right; right].
      apply F1 in Hin as [[Hin|(k' & td' & c' & [Hl|Hl] & _)]|Hin]; [by left; left|congruence..|by right; left]. }
  all: left.
  - destruct (next_txdata_ok _ _ _ _ Hx Hm) as (_ & _ & _ & Ha). split; simpl; try done. intros id Hid.
    destruct (Ha id Hid) as [Hin|(td' & [= <-] & <-)]; [|left; right; eauto 10].
    apply F1 in Hin as [[Hin|(k' & td' & c' & [Hl|Hl] & _)]|Hin]; [by left; left|congruence..|by right].
  - destruct (next_txdata_ok _ _ _ _ Hx Hm) as (_ & _ & _ & Ha). apply (flight_ok_loop A b); simpl; try done; [|by rewrite Hs|].
    + intros id Hid. by destruct (Ha id Hid) as [Hin|(td' & ? & _)].
    + intros k' [= <- Hd] Hd'. by rewrite Hd' in Hd.
  - split; simpl; try done. intros id Hid. apply F1 in Hid as [[Hin|(k' & td' & c' & [Hl|Hl] & Hid)]|Hid]; [by left; left| |congruence|by right].
    rewrite Hs in Hl. injection Hl as <- <- <-. left. right. simpl. eauto 10.
  - split; simpl; try done; [|lia]. intros id Hid. apply F1 in Hid as [[(j & Hin & _)|(k' & td' & c' & [Hl|Hl] & Hid)]|Hid]; [rewrite Hj in Hin; by apply not_elem_of_nil in Hin| |congruence|by right].
    rewrite Hs in Hl. injection Hl as <- <- <-. left. right. simpl. eauto 10.
  - split; simpl; try done.
    + intros id Hid. apply F1 in Hid as [[(j & Hin & Hj)|(k' & td' & c' & [Hl|Hl] & Hid)]|Hid]; [|congruence| |by right]; left; left; simpl.
      * exists j. split; [apply elem_of_app; by left|done].
      * rewrite Hs in Hl. injection Hl as <- <- <-. exists (mkTxJob td cand InSend). split; [apply elem_of_app; right; by left|done].
    + intros Hmax. unfold has_place in Hp. apply orb_true_iff in Hp as [Hz%Nat.eqb_eq|Hlt%Nat.ltb_lt]; [done|]. rewrite length_app. simpl. lia.
  - apply (flight_ok_loop A b); simpl; try done; by rewrite Hs.
Qed.

Lemma job_step_flight A b b' : job_step b b' -> flight_ok A b -> flight_ok A b'.
Proof.
  intros Hst [F1 F2 F3 F4]. destruct Hst as [b jobs1 id cand r jobs2 Hj Hr|b jobs1 id cand is_err jobs2 Hj]; rewrite Hj in *.
  - split; simpl.
    + intros id' Hid. apply F1 in Hid as [[Hid|Hid]|Hid]; [left; left; simpl|by left; right|by right]. rewrite Hj in Hid. revert Hid. by apply jobs_change.
    + intros Hmax. specialize (F2 Hmax). by rewrite length_app in *.
    + intros k Hk Hd. specialize (F3 k Hk Hd). by destruct jobs1.
    + intros Hs. specialize (F4 Hs). by destruct jobs1.
  - split; simpl.
    + intros id' Hid. apply F1 in Hid as [[(x & Hx & Hr & Hi)|Hid]|Hid]; [left; left; simpl|by left; right|by right]. exists x. split; [|done].
      rewrite Hj in Hx. rewrite elem_of_app, elem_of_cons in Hx. rewrite elem_of_app. destruct Hx as [?|[->|?]]; [by left|done|by right].
    + intros Hmax. specialize (F2 Hmax). rewrite length_app in *. simpl in F2. lia.
    + intros k Hk Hd. specialize (F3 k Hk Hd). by destruct jobs1.
    + intros Hs. specialize (F4 Hs). by destruct jobs1.
Qed.

Lemma flight_ok_mono (A A' : txID -> Prop) b : (forall id, A id -> A' id) -> flight_ok A b -> flight_ok A' b.
Proof. intros Hm [F1 F2 F3 F4]. split; try done. intros id [Hid|Hid]%F1; [by left|right; by apply Hm]. Qed.

(** The transactions that were given up on the way from [b0] to [b]. *)
Definition given_up (b0 b : batcher) (id : txID) : Prop :=
  exists td b1 b2, td_ID td = id /\ rtc batcher_step b0 b1 /\ gives_up td b1 b2 /\ rtc batcher_step b2 b.

Lemma batcher_step_flight b0 b b' : rtc batcher_step b0 b -> batcher_step b b' -> batcher_ok b ->
  flight_ok (given_up b0 b) b -> flight_ok (given_up b0 b') b'.
Proof.
  intros Hr Hst Hok Hf.
  assert (flight_ok (given_up b0 b') b) as Hf'.
  { revert Hf. apply flight_ok_mono. intros id (td & b1 & b2 & Hid & Hb1 & Hg & Hb2). exists td, b1, b2. split_and!; try done. by eapply rtc_r. }
  destruct Hst as [b1 b2 Hd|b1 b2 Hp|b1 b2 Hj|b1 e|b1 killed].
  - by eapply driver_step_flight.
  - destruct (publish_step_flight _ _ _ Hp Hok Hf') as [?|(td & Hg & Hf2)]; [done|]. revert Hf2. apply flight_ok_mono.
    intros id [Hid|Hid]; [done|]. by exists td, b1, b2.
  - by eapply job_step_flight.
  - destruct Hf' as [F1 F2 F3 F4]; by split.
  - destruct Hf' as [F1 F2 F3 F4]; by split.
Qed.

(** C17: every transaction that is awaited is on its way.  Whatever happens, an outcome that
    the channel manager waits for will be reported by a goroutine of the queue, unless the
    gas of the transaction could not be computed when it was its turn, in which case it was
    given up without a report.  There are never more goroutines than
    [MaxPendingTransactions], unless that is zero, which means no limit; when the batcher
    has stopped, all of them have ended and no outcome is waited for but those that were
    given up. *)
Theorem awaited_is_in_flight R0 rand env b :
  R0 = start_batcher (mkBatchSubmitter zeroID zeroL1 (ChannelManager.new rand) env) ->
  rtc batcher_step R0 b ->
  (forall id, id ∈ dom (ChannelManager.txChannels (bs_state (b_submitter b))) -> in_flight b id \/ given_up R0 b id) /\
  (MaxPendingTransactions <> O -> (length (b_jobs b) <= MaxPendingTransactions)%nat) /\
  (b_loop b = Stopped_ -> b_jobs b = [] /\
     forall id, id ∈ dom (ChannelManager.txChannels (bs_state (b_submitter b))) -> given_up R0 b id).
Proof.
  intros HR Hrun.
  assert (batcher_ok b /\ flight_ok (given_up R0 b) b) as [_ [F1 F2 F3 F4]].
  { refine (rtc_ind_r (fun b => batcher_ok b /\ flight_ok (given_up R0 b) b) R0 _ _ b Hrun).
    - split; [eapply start_batcher_ok; [|exact HR]; exists []; apply new_mgr_inv|]. clear Hrun. subst R0. split; simpl; try done; lia.
    - intros x y Hx Hst [Hok Hf]. split; [by eapply batcher_step_ok|by eapply batcher_step_flight]. }
  split; [done|]. split; [done|]. intros Hs. split; [by apply F4|]. intros id Hid.
  apply F1 in Hid as [[(j & Hj & _)|(k & td & cand & [Hl|Hl] & _)]|Hid]; [|congruence..|done].
  rewrite (F4 Hs) in Hj. by apply not_elem_of_nil in Hj.
Qed.

(** ** Publishing goes on *)

(** The steps that the batcher and the transaction manager take by themselves, and how much
    is left to do before the goroutine of [publishStateToL1] publishes again or ends. *)
Definition progress_step (b b' : batcher) : Prop := driver_step b b' \/ publish_step b b' \/ job_step b b'.
Definition busy (b : batcher) : Prop := exists k p, b_loop b = PublishState k p /\ p <> Publish.
Definition job_weight (j : tx_job) : nat := match tj_status j with InSend => 3 | Reporting _ => 2 | LeavingGroup _ => 1 end.
Definition weight (b : batcher) : nat :=
  (list_sum (job_weight <$> b_jobs b) +
   match b_loop b with
   | PublishState _ (EnterGroup _ _) => 5
   | PublishState _ (Go _ _) => 4
   | PublishState _ WaitAll => 2
   | PublishState _ TxDone => 1
   | _ => 0
   end)%nat.

Lemma busy_progress b : batcher_ok b -> (forall candidate, exists r, Send candidate r) -> busy b -> exists b', progress_step b b'.
Proof.
  intros [(added & Hm & _) _] HSend (k & p & Hl & Hp). destruct (b_jobs b) as [|[id cand [|r|is_error]] jobs] eqn:Hj.
  - destruct p as [|td cand|td cand| |]; [done|..].
    + destruct (b_group_failed b || b_killed b) eqn:Hg; eexists; right; left; [by eapply pub_new_group|by eapply pub_group].
    + eexists. right. left. eapply pub_go; [exact Hl|]. rewrite Hj. unfold has_place. simpl. by destruct MaxPendingTransactions.
    + eexists. right. left. by eapply pub_wait.
    + destruct k; eexists; left; [by eapply drv_published| |by eapply drv_stopped]. by eapply drv_drained.
  - destruct (HSend cand) as [r Hr]. eexists. right. right. by eapply (job_Send _ b []).
  - destruct (handleReceipt_ok added id r _ Hm) as (l & Hh & _). eexists. left. eapply (drv_receipt _ _ _ b []); [by rewrite Hl|exact Hj|exact Hh].
  - eexists. right. right. by eapply (job_return _ b []).
Qed.

Lemma busy_decreases b b' : progress_step b b' -> busy b -> (weight b' < weight b)%nat.
Proof.
  intros [Hst|[Hst|Hst]] (k & p & Hl & Hp); unfold weight.
  - destruct Hst as [b r l Hs Hx Hr|b err l r l' Hs Hx He Hc|b r l Hs Hd Hc|b jobs1 id cand r jobs2 l Hs Hj Hh|b Hs|b l Hs Hc|b Hs];
      simpl; rewrite ?Hs; try congruence; try lia.
    rewrite Hj, !fmap_app, !fmap_cons, !list_sum_app. simpl. lia.
  - destruct Hst as [b k' td cand l Hs Hx Hc|b k' td err l Hs Hx Hc|b k' err l Hs Hx|b k' td cand Hs Hg|b k' td cand Hs Hg Hj|b k' td cand Hs Hpl|b k' Hs Hj];
      simpl; rewrite Hs in Hl; injection Hl as <- <-; try done; rewrite Hs, ?Hj; simpl; try lia.
    rewrite fmap_app, list_sum_app. simpl. lia.
  - destruct Hst as [b jobs1 id cand r jobs2 Hj Hr|b jobs1 id cand is_err jobs2 Hj]; simpl; rewrite Hj, !fmap_app, ?fmap_cons, !list_sum_app; simpl; lia.
Qed.

(** C18: publishing never blocks.  As long as [txMgr.Send] returns, the batcher can take a
    step whenever it is in [publishStateToL1] with a transaction to hand over or waiting for
    its transactions, and every such step brings it nearer, by a measure that bounds their
    number, to publishing the next transaction or to the end of [publishStateToL1]: the
    receipts are always taken while the queue is full or drained. *)
Theorem publishing_never_blocks R0 rand env b :
  R0 = start_batcher (mkBatchSubmitter zeroID zeroL1 (ChannelManager.new rand) env) ->
  (forall candidate, exists r, Send candidate r) -> rtc batcher_step R0 b -> busy b ->
  (exists b', progress_step b b') /\ forall b', progress_step b b' -> (weight b' < weight b)%nat.
Proof.
  intros HR HSend Hrun Hb. split; [|by intros b' Hst; apply busy_decreases].
  apply busy_progress; [|done..]. refine (run_keeps _ batcher_ok batcher_step_ok _ _ Hrun _).
  eapply start_batcher_ok; [|exact HR]. exists []. apply new_mgr_inv.
Qed.
End Driver.

(** ** The batcher over the transaction manager *)
Section OnL1.
Context {E C R X : Type} `{Compressor C} `{Keccak} `{Rand R} `{BatcherEnv E} `{LawfulBackend X} `{ErrorText}.
Context (rlp_encode_batch : BatchV1 -> result Data) (rlp_encode_bytes : Data -> result Data).
Context (cfg : ChannelConfig) (NewCompressor : result C).
Context (Genesis_ : Genesis) (BatchInboxAddress : Address) (IntrinsicGas : Data -> result Z).
Context (MaxPendingTransactions : nat) (fuel : nat).
Context (tx_cfg : TxConfig).

(** What [SimpleTxManager.Send] returns in some run. *)
Definition SimpleTxManager_Send (candidate : TxCandidate) (r : MinedReceipt + error) : Prop :=
  exists e0 x tx, rtc (Send_step (E := X) tx_cfg) (new_manager e0) x /\
    Finished candidate tx (match r with inl receipt => Ok receipt | inr err => Err err end) ∈ mg_calls x.

Abbreviation batcher_step := (batcher_step (E := E) (C := C) (R := R) rlp_encode_batch rlp_encode_bytes cfg NewCompressor Genesis_
  BatchInboxAddress IntrinsicGas MaxPendingTransactions fuel SimpleTxManager_Send).

(** A transaction of the queue carries its data, and its receipt is one that [Send] returned. *)
Definition job_ok (j : tx_job) : Prop :=
  tc_TxData (tj_candidate j) = td_Bytes (tj_ID j) /\ tc_To (tj_candidate j) = Some BatchInboxAddress /\
  forall r, tj_status j = Reporting r -> SimpleTxManager_Send (tj_candidate j) r.
Definition sending_ok (x : batcher_loop) : Prop :=
  match x with
  | PublishState _ (EnterGroup td candidate) | PublishState _ (Go td candidate) =>
      tc_TxData candidate = td_Bytes td /\ tc_To candidate = Some BatchInboxAddress
  | _ => True
  end.

Lemma tx_candidate_ok td candidate : tx_candidate BatchInboxAddress IntrinsicGas td = Ok candidate ->
  tc_TxData candidate = td_Bytes td /\ tc_To candidate = Some BatchInboxAddress.
Proof. unfold tx_candidate. destruct (IntrinsicGas _); intros; by simplify_eq. Qed.

Lemma jobs_ok_step b b' : batcher_step b b' ->
  Forall job_ok (b_jobs b) /\ sending_ok (b_loop b) -> Forall job_ok (b_jobs b') /\ sending_ok (b_loop b').
Proof.
  intros Hst [HF Hs]. destruct Hst as [b b' Hst|b b' Hst|b b' Hst|b e|b killed]; simpl; [..|done|done].
  - destruct Hst as [b r l Hl Hx Hr|b err l r l' Hl Hx He Hc|b r l Hl Hd Hc|b jobs1 id cand r jobs2 l Hl Hj Hh|b Hl|b l Hl Hc|b Hl]; simpl; try done. split; [|done].
    rewrite Hj in HF. apply Forall_app in HF as [F1 [[F2 [F3 _]] F4]%Forall_cons]. apply Forall_app. split; [done|]. by constructor.
  - destruct Hst as [b k td cand l Hl Hx Hc|b k td err l Hl Hx Hc|b k err l Hl Hx|b k td cand Hl Hg|b k td cand Hl Hg Hj|b k td cand Hl Hp|b k Hl Hj]; simpl; try done.
    + split; [done|]. by apply tx_candidate_ok in Hc.
    + split; [done|]. by destruct (drain k).
    + split; [done|]. by rewrite Hl in Hs.
    + split; [by constructor|]. by rewrite Hl in Hs.
    + rewrite Hl in Hs. destruct Hs as [S1 S2]. split; [|done]. apply Forall_app. split; [done|]. by repeat constructor.
  - destruct Hst as [b jobs1 id cand r jobs2 Hj Hr|b jobs1 id cand is_err jobs2 Hj]; simpl; rewrite Hj in HF;
      apply Forall_app in HF as [F1 [[F2 [F3 _]] F4]%Forall_cons]; (split; [|done]); apply Forall_app; split; try done.
    constructor; [|done]. split; [done|]. split; [done|]. by intros r' [= <-].
Qed.

(** C16: what is confirmed is on L1.  When the batcher is told that the transaction of a
    frame was confirmed, the backend has accepted a transaction to the batch inbox whose data
    are the version byte and that frame, the receipt is its receipt, and its block was seen
    to be [NumConfirmations] blocks deep. *)
Theorem confirmed_frames_are_on_L1 R0 rand env b id candidate receipt :
  R0 = start_batcher (mkBatchSubmitter zeroID zeroL1 (ChannelManager.new rand) env) ->
  rtc batcher_step R0 b -> mkTxJob id candidate (Reporting (inl receipt)) ∈ b_jobs b ->
  exists tx0 (x0 : X * sending), dt_To (st_tx tx0) = Some BatchInboxAddress /\ dt_Data (st_tx tx0) = td_Bytes id /\
    (exists ea, start_sending tx_cfg tx0 ea = (Ok x0.2, x0.1)) /\ confirmed_in tx_cfg x0 tx0 receipt.
Proof.
  intros -> Hrun Hj.
  pose proof (run_keeps _ (fun b => Forall job_ok (b_jobs b) /\ sending_ok (b_loop b)) jobs_ok_step _ _ Hrun ltac:(by split; [constructor|])) as [HF _].
  rewrite Forall_forall in HF. destruct (HF _ Hj) as (J1 & J2 & J3). simpl in *.
  destruct (J3 _ eq_refl) as (e0 & x & tx & Hx & Hin).
  destruct (Send_receipt tx_cfg e0 x candidate tx receipt Hx Hin) as (tx0 & x0 & -> & (_ & T1 & T2 & _) & Hst & Hc).
  exists tx0, x0. split; [congruence|]. split; [congruence|]. by split.
Qed.
End OnL1.
