(* ===== verification/BatchSubmitterExamples.v ===== *)
(** * The batcher's driver on concrete inputs

    A batcher that loads two blocks, is stopped, and sends the frames of the channel with
    the transaction manager of [TxmgrExamples.v]. *)
From stdpp Require Import relations.
From S2P Require Import Prelude GoErrors GoBytes EthTypes Geth L1Info Frame Channel Batch Payloads ChannelOut Compressor ChannelBuilder ChannelManager BatcherChannelSpec ChannelManagerSpec BatcherExamples Txmgr TxmgrSpec TxmgrExamples BatchSubmitter BatchSubmitterSpec.
#[local] Open Scope Z_scope.
Import ToyGeth.

(** The clients: the safe head is block 7; the head of L1 and the unsafe head move. *)
Record toy_world := mkWorld { w_l1 : Z; w_unsafe : Z }.
Definition toy_safe : L2BlockRef := mkL2BlockRef 7 7 6 14 zeroID 0.
Definition toy_unsafe (n : Z) : L2BlockRef := mkL2BlockRef (u64 n) (u64 n) 8 18 zeroID 0.
#[export] Instance toy_clients : BatcherEnv toy_world := {
  RollupNode_SyncStatus w := (Ok (mkSyncStatus zeroL1 zeroL1 (mkL1BlockRef 1 1 0 0) zeroL1 zeroL1 (toy_unsafe (w_unsafe w)) toy_safe zeroL2 zeroL2 zeroL2), w);
  L2Client_BlockByNumber n :=
    if n =? 8 then ret toy_block1 else if n =? 9 then ret toy_block2 else throw NotFound;
  L1Client_HeaderByNumber w := (Ok (mkBlockInfo 50 49 (w_l1 w) 1000 0 7), w) }.

Lemma toy_served n e b e' : L2Client_BlockByNumber n e = (Ok b, e') -> n = 8 /\ b = toy_block1 \/ n = 9 /\ b = toy_block2.
Proof.
  simpl. destruct (Z.eqb_spec n 8) as [->|]; [by intros [= <- _]; left|].
  destruct (Z.eqb_spec n 9) as [->|]; [by intros [= <- _]; right|done].
Qed.

#[export] Instance toy_clients_lawful : LawfulBatcherEnv toy_world.
Proof.
  split.
  - by intros n e b e' [[-> ->]|[-> ->]]%toy_served.
  - by intros n e b e1 n' e2 b' e3 [[-> ->]|[-> ->]]%toy_served [[-> ->]|[-> ->]]%toy_served.
  - intros n e err e'. simpl. destruct (n =? 8); [done|]. destruct (n =? 9); [done|]. by intros [= <- _].
  - intros e st e' [= <- _]. split; [by unfold is_u64|apply u64_range].
  - by intros e err e' [=].
Qed.

Definition toy_genesis : Genesis := mkGenesis (mkBlockID 1 1) (mkBlockID 2 0) 0 zeroSystemConfig.
Definition toy_gas (data : Data) : result Z := Ok 21000.
Abbreviation toy_Send := (SimpleTxManager_Send (X := demo) demo_cfg).
Abbreviation toy_batcher_step := (batcher_step (E := toy_world) (C := toy_compressor) (R := Z)
  toy_rlp_batch toy_rlp_bytes toy_cfg (Ok toy_writer) toy_genesis 9 toy_gas 1 60 toy_Send).

Abbreviation toy_batcher := (batcher (E := toy_world) (C := toy_compressor) (R := Z)).
Definition toy_start : toy_batcher :=
  start_batcher (mkBatchSubmitter zeroID zeroL1 (ChannelManager.new (C := toy_compressor) (R := Z) 7) (mkWorld 100 8)).

(** One load, and one look for data to send. *)
Abbreviation toy_load b := (attempt (loadBlocksIntoState (E := toy_world) (C := toy_compressor) (R := Z) toy_genesis) (b_submitter b)).
Abbreviation toy_next b := (next_txdata (E := toy_world) (C := toy_compressor) (R := Z) toy_rlp_batch toy_rlp_bytes toy_cfg (Ok toy_writer) 60 (b_submitter b)).
Definition after_toy_load (b : toy_batcher) := set_control (PublishState AfterLoad Publish) (set_submitter (toy_load b).2 b).
Definition after_toy_eof (b : toy_batcher) :=
  set_control Selecting_ (set_control (PublishState AfterLoad TxDone) (set_submitter (toy_next b).2 b)).

Lemma pair_run {A B} (p : A * B) a : p.1 = a -> p = (a, p.2).
Proof. intros <-. by destruct p. Qed.

Lemma toy_loads b : b_loop b = Selecting_ -> (toy_load b).1 = Ok (inl tt) -> toy_batcher_step b (after_toy_load b).
Proof. intros Hb Hl. apply batcher_driver. by eapply drv_load; [..|exact (pair_run _ _ Hl)|]. Qed.
Lemma toy_eof b : b_loop b = PublishState AfterLoad Publish -> (toy_next b).1 = Err EOF -> rtc toy_batcher_step b (after_toy_eof b).
Proof.
  intros Hb Hn. eapply rtc_l; [|apply rtc_once; apply batcher_driver; by apply (drv_published _ _ _ (set_control (PublishState AfterLoad TxDone) (set_submitter (toy_next b).2 b)))].
  apply batcher_publish. by apply (pub_end _ _ _ _ _ _ _ _ b AfterLoad EOF (toy_next b).2 Hb (pair_run _ _ Hn)).
Qed.

(** Block 8 is loaded, and its channel has no frame yet; with block 9 comes an L1 block at
    which the channel is closed, and its first frame is sent. *)
Definition toy_b1 := after_toy_load toy_start.
Definition toy_b2 := after_toy_eof toy_b1.
Definition toy_b3 : toy_batcher :=
  set_submitter (mkBatchSubmitter (bs_lastStoredBlock (b_submitter toy_b2)) (bs_lastL1Tip (b_submitter toy_b2)) (bs_state (b_submitter toy_b2)) (mkWorld 130 9)) toy_b2.
Definition toy_b4 := after_toy_load toy_b3.
Definition toy_data : txData := match (toy_next toy_b4).1 with Ok (Some td) => td | _ => mkTxData (mkFrameData [] (toy_frame_id 0)) end.
Definition toy_b5 := set_control (PublishState AfterLoad (EnterGroup toy_data (demo_candidate (td_Bytes toy_data)))) (set_submitter (toy_next toy_b4).2 toy_b4).
Definition toy_b6 := set_control (PublishState AfterLoad (Go toy_data (demo_candidate (td_Bytes toy_data)))) toy_b5.
Definition toy_jobs (st : tx_status) : list tx_job := [mkTxJob toy_data (demo_candidate (td_Bytes toy_data)) st].
Definition toy_b7 := set_control (PublishState AfterLoad Publish) (set_jobs (toy_jobs InSend) false toy_b6).
Definition toy_b8 := set_jobs (toy_jobs (Reporting (inl demo_receipt))) false toy_b7.

Lemma toy_runs_b2 : rtc toy_batcher_step toy_start toy_b2.
Proof.
  eapply rtc_l; [apply toy_loads; [done|vm_compute; reflexivity]|]. apply toy_eof; [done|]. vm_compute. reflexivity.
Qed.
Lemma toy_moves : toy_batcher_step toy_b2 toy_b3.
Proof. exact (batcher_env _ _ _ _ _ _ _ _ _ _ toy_b2 (mkWorld 130 9)). Qed.
Lemma toy_loads_9 : toy_batcher_step toy_b3 toy_b4.
Proof. apply (toy_loads toy_b3); [done|vm_compute; reflexivity]. Qed.
Lemma toy_has_data : (toy_next toy_b4).1 = Ok (Some toy_data).
Proof. vm_compute. reflexivity. Qed.
Lemma toy_publishes : toy_batcher_step toy_b4 toy_b5.
Proof.
  apply batcher_publish.
  by refine (pub_next _ _ _ _ _ _ _ _ toy_b4 AfterLoad toy_data (demo_candidate (td_Bytes toy_data)) (toy_next toy_b4).2 eq_refl (pair_run _ _ toy_has_data) _).
Qed.
Lemma toy_runs_b5 : rtc toy_batcher_step toy_start toy_b5.
Proof.
  etrans; [exact toy_runs_b2|]. eapply rtc_l; [exact toy_moves|]. eapply rtc_l; [exact toy_loads_9|].
  apply rtc_once. exact toy_publishes.
Qed.

Lemma toy_Send_returns data : toy_Send (demo_candidate data) (inl demo_receipt).
Proof. exists (mkDemo 0 [] []), (demo_finished data), (Some (demo_tx data)). split; [apply demo_calls_Send|by left]. Qed.

Lemma toy_runs_b8 : rtc toy_batcher_step toy_start toy_b8.
Proof.
  etrans; [exact toy_runs_b5|].
  eapply rtc_l; [by apply batcher_publish, (pub_group _ _ _ _ _ _ _ _ toy_b5 AfterLoad)|].
  eapply rtc_l; [by apply batcher_publish, (pub_go _ _ _ _ _ _ _ _ toy_b6 AfterLoad)|].
  eapply rtc_l; [|apply rtc_refl]. apply batcher_job. apply (job_Send _ toy_b7 [] _ _ _ []); [done|apply toy_Send_returns].
Qed.

(** ** The hypotheses of the theorems hold *)
Lemma loaded_blocks_are_held_witness :
  exists added, loaded_in added (b_submitter toy_b2) /\
    (forall i x x0, added !! O = Some x0 -> added !! i = Some x -> blk_NumberU64 x = blk_NumberU64 x0 + Z.of_nat i) /\
    forall x, x ∈ added -> held (bs_state (b_submitter toy_b2)) x.
Proof.
  apply (loaded_blocks_are_held toy_rlp_batch toy_rlp_bytes toy_cfg (Ok toy_writer) toy_genesis 9 toy_gas 1 60 toy_Send
    toy_start 7 (mkWorld 100 8) toy_b2 eq_refl toy_runs_b2). vm_compute. reflexivity.
Defined.

Abbreviation toy_given_up := (given_up toy_rlp_batch toy_rlp_bytes toy_cfg (Ok toy_writer) toy_genesis 9 toy_gas 1 60 toy_Send toy_start).
Lemma awaited_is_in_flight_witness :
  (forall id, id ∈ dom (ChannelManager.txChannels (bs_state (b_submitter toy_b8))) -> in_flight toy_b8 id \/ toy_given_up toy_b8 id) /\
  (1%nat <> O -> (length (b_jobs toy_b8) <= 1)%nat) /\
  (b_loop toy_b8 = Stopped_ -> b_jobs toy_b8 = [] /\
     forall id, id ∈ dom (ChannelManager.txChannels (bs_state (b_submitter toy_b8))) -> toy_given_up toy_b8 id).
Proof.
  exact (awaited_is_in_flight toy_rlp_batch toy_rlp_bytes toy_cfg (Ok toy_writer) toy_genesis 9 toy_gas 1 60 toy_Send
    toy_start 7 (mkWorld 100 8) toy_b8 eq_refl toy_runs_b8).
Defined.

Lemma publishing_never_blocks_witness :
  (exists b', progress_step toy_rlp_batch toy_rlp_bytes toy_cfg (Ok toy_writer) toy_genesis 9 toy_gas 1 60 (fun _ _ => True) toy_b5 b') /\
  forall b', progress_step toy_rlp_batch toy_rlp_bytes toy_cfg (Ok toy_writer) toy_genesis 9 toy_gas 1 60 (fun _ _ => True) toy_b5 b' ->
    (weight b' < weight toy_b5)%nat.
Proof.
  apply (publishing_never_blocks toy_rlp_batch toy_rlp_bytes toy_cfg (Ok toy_writer) toy_genesis 9 toy_gas 1 60 (fun _ _ => True)
    toy_start 7 (mkWorld 100 8) toy_b5 eq_refl); [by intros c; exists (inr (ErrNew ""))| |by do 2 eexists].
  refine (rtc_subrel _ _ _ _ _ toy_runs_b5). intros x y [b b' Hd|b b' Hp|b b' Hj|b e|b killed];
    [by apply batcher_driver|by apply batcher_publish| |by apply batcher_env|by apply batcher_Stop].
  apply batcher_job. destruct Hj; [by eapply job_Send|by eapply job_return].
Defined.

Lemma confirmed_frames_are_on_L1_witness :
  exists tx0 (x0 : demo * sending), dt_To (st_tx tx0) = Some 9 /\ dt_Data (st_tx tx0) = td_Bytes toy_data /\
    (exists ea, start_sending demo_cfg tx0 ea = (Ok x0.2, x0.1)) /\ confirmed_in demo_cfg x0 tx0 demo_receipt.
Proof.
  apply (confirmed_frames_are_on_L1 toy_rlp_batch toy_rlp_bytes toy_cfg (Ok toy_writer) toy_genesis 9 toy_gas 1 60 demo_cfg
    toy_start 7 (mkWorld 100 8) toy_b8 toy_data (demo_candidate (td_Bytes toy_data)) demo_receipt eq_refl toy_runs_b8). by left.
Defined.
