(* ===== verification/Batches.v ===== *)
(** * Batch validity

    [op-node/rollup/derive/batches.go]: the rule that decides whether a batch may
    become the next L2 block. *)
From S2P Require Import Prelude GoErrors GoBytes EthTypes Geth Batch.
#[local] Open Scope Z_scope.

Inductive BatchValidity := BatchDrop | BatchAccept | BatchUndecided | BatchFuture.

#[export] Instance BatchValidity_eq_dec : EqDecision BatchValidity.
Proof. solve_decision. Defined.

(** The final loop of [CheckBatch]: no empty transaction and no deposit. *)
Fixpoint check_txs (txs : list Data) : BatchValidity :=
  match txs with
  | [] => BatchAccept
  | [] :: _ => BatchDrop
  | (ty :: _) :: txs' => if bool_decide (ty = DepositTxType) then BatchDrop else check_txs txs'
  end.

(** The checks of [CheckBatch] once the L1 origin of the batch is known. *)
Definition check_origin (cfg : Config) (l1Blocks : list L1BlockRef) (epoch batchOrigin : L1BlockRef)
    (batch : BatchWithL1InclusionBlock) : BatchValidity :=
  if negb (bt_EpochHash batch =? l1_Hash batchOrigin) then BatchDrop else
  if bt_Timestamp batch <? l1_Time batchOrigin then BatchDrop else
  let max := l1_Time batchOrigin +u MaxSequencerDrift cfg in
  if max <? bt_Timestamp batch then
    if (length (bt_Transactions batch) =? 0)%nat then
      if l1_Number epoch =? l1_Number batchOrigin then
        match l1Blocks with
        | _ :: nextOrigin :: _ =>
            if l1_Time nextOrigin <=? bt_Timestamp batch then BatchDrop
            else check_txs (bt_Transactions batch)
        | _ => BatchUndecided
        end
      else check_txs (bt_Transactions batch)
    else BatchDrop
  else check_txs (bt_Transactions batch).

(** [CheckBatch]. *)
Definition CheckBatch (cfg : Config) (l1Blocks : list L1BlockRef) (l2SafeHead : L2BlockRef)
    (batch : BatchWithL1InclusionBlock) : BatchValidity :=
  match l1Blocks with
  | [] => BatchUndecided
  | epoch :: l1Blocks' =>
      let nextTimestamp := l2_Time l2SafeHead +u BlockTime cfg in
      if nextTimestamp <? bt_Timestamp batch then BatchFuture else
      if bt_Timestamp batch <? nextTimestamp then BatchDrop else
      if negb (bt_ParentHash batch =? l2_Hash l2SafeHead) then BatchDrop else
      if bt_EpochNum batch +u SeqWindowSize cfg <? l1_Number (L1InclusionBlock batch) then BatchDrop else
      if bt_EpochNum batch <? l1_Number epoch then BatchDrop
      else if bt_EpochNum batch =? l1_Number epoch then
        check_origin cfg l1Blocks epoch epoch batch
      else if bt_EpochNum batch =? l1_Number epoch +u 1 then
        match l1Blocks' with
        | [] => BatchUndecided
        | batchOrigin :: _ => check_origin cfg l1Blocks epoch batchOrigin batch
        end
      else BatchDrop
  end.

(** ** Specification *)

(** A transaction a sequencer may put in a batch. *)
Definition sequencer_tx (tx : Data) : Prop := exists ty d, tx = ty :: d /\ ty <> DepositTxType.

(** The batch respects the sequencer drift, or is an empty batch that could not have
    adopted the next origin. *)
Definition drift_ok (cfg : Config) (l1Blocks : list L1BlockRef) (epoch origin : L1BlockRef)
    (batch : BatchWithL1InclusionBlock) : Prop :=
  bt_Timestamp batch <= l1_Time origin +u MaxSequencerDrift cfg \/
  bt_Transactions batch = [] /\
  (l1_Number epoch = l1_Number origin ->
   exists next, l1Blocks !! 1%nat = Some next /\ bt_Timestamp batch < l1_Time next).

(** The origin a batch refers to: the current epoch, or the next L1 block. *)
Definition origin_of (l1Blocks : list L1BlockRef) (batch : BatchWithL1InclusionBlock)
    (epoch origin : L1BlockRef) : Prop :=
  l1Blocks !! 0%nat = Some epoch /\
  (bt_EpochNum batch = l1_Number epoch /\ origin = epoch \/
   l1_Number epoch < bt_EpochNum batch /\ bt_EpochNum batch = l1_Number epoch +u 1 /\
   l1Blocks !! 1%nat = Some origin).

(** A batch that is valid on top of the safe head. *)
Record valid_batch (cfg : Config) (l1Blocks : list L1BlockRef) (head : L2BlockRef)
    (batch : BatchWithL1InclusionBlock) (epoch origin : L1BlockRef) : Prop := {
  vb_timestamp : bt_Timestamp batch = l2_Time head +u BlockTime cfg;
  vb_parent : bt_ParentHash batch = l2_Hash head;
  vb_window : l1_Number (L1InclusionBlock batch) <= bt_EpochNum batch +u SeqWindowSize cfg;
  vb_origin : origin_of l1Blocks batch epoch origin;
  vb_hash : bt_EpochHash batch = l1_Hash origin;
  vb_time : l1_Time origin <= bt_Timestamp batch;
  vb_drift : drift_ok cfg l1Blocks epoch origin batch;
  vb_txs : Forall sequencer_tx (bt_Transactions batch) }.

(** ** Lemmas *)

Lemma check_txs_iff txs : check_txs txs = BatchAccept <-> Forall sequencer_tx txs.
Proof.
  induction txs as [|[|ty d] txs IH]; simpl; [by split|split; [done|]|].
  - intros [(ty & d & ? & _) _]%Forall_cons_1. done.
  - rewrite Forall_cons. case_bool_decide as Hty.
    + split; [done|]. intros [(? & ? & [= -> ->] & ?) _]. done.
    + rewrite IH. split; [|naive_solver]. intros. split; [|done]. by exists ty, d.
Qed.

Lemma check_txs_decided txs : check_txs txs = BatchAccept \/ check_txs txs = BatchDrop.
Proof. induction txs as [|[|ty d] txs IH]; simpl; [by left|by right|]. by case_bool_decide; [right|]. Qed.

Lemma check_origin_accept cfg l1Blocks epoch origin batch :
  check_origin cfg l1Blocks epoch origin batch = BatchAccept <->
  bt_EpochHash batch = l1_Hash origin /\ l1_Time origin <= bt_Timestamp batch /\
  drift_ok cfg l1Blocks epoch origin batch /\ Forall sequencer_tx (bt_Transactions batch).
Proof.
  unfold check_origin, drift_ok.
  destruct (Z.eqb_spec (bt_EpochHash batch) (l1_Hash origin)); cbn [negb]; [|naive_solver].
  destruct (Z.ltb_spec (bt_Timestamp batch) (l1_Time origin)); [naive_solver lia|].
  destruct (Z.ltb_spec (l1_Time origin +u MaxSequencerDrift cfg) (bt_Timestamp batch)) as [Hd|Hd].
  2:{ rewrite check_txs_iff. naive_solver. }
  destruct (bt_Transactions batch) as [|tx txs] eqn:Et; cbn [length Nat.eqb].
  2:{ split; [done|]. intros (_ & _ & [?|[? _]] & _); [lia|done]. }
  destruct (Z.eqb_spec (l1_Number epoch) (l1_Number origin)) as [Hn|Hn].
  2:{ rewrite check_txs_iff. naive_solver. }
  destruct l1Blocks as [|b0 [|next l1Blocks]]; simpl;
    [split; [done|]; intros (_ & _ & [?|[_ Hx]] & _); [lia|destruct (Hx Hn) as (? & ? & _); done]..|].
  destruct (Z.leb_spec (l1_Time next) (bt_Timestamp batch)).
  - split; [done|]. intros (_ & _ & [?|[_ Hx]] & _); [lia|].
    destruct (Hx Hn) as (? & [= ->] & ?). lia.
  - split; [|done]. intros _. split_and!; [done|done| |constructor]. right. split; [done|].
    intros _. by exists next.
Qed.

Lemma CheckBatch_accept cfg l1Blocks head batch :
  CheckBatch cfg l1Blocks head batch = BatchAccept <->
  exists epoch origin, valid_batch cfg l1Blocks head batch epoch origin.
Proof.
  unfold CheckBatch. split.
  - destruct l1Blocks as [|epoch l1Blocks]; [done|].
    repeat case_if; zify_bools; try done; intros Hx.
    + apply check_origin_accept in Hx as (? & ? & ? & ?).
      exists epoch, epoch. split; try done; [lia|]. split; [done|by left].
    + destruct l1Blocks as [|origin l1Blocks]; [done|].
      apply check_origin_accept in Hx as (? & ? & ? & ?).
      exists epoch, origin. split; try done; [lia|]. split; [done|]. right. split_and!; [lia|done..].
  - intros (epoch & origin & [Hts Hp Hw [He Ho] Hh Ht Hd Htx]).
    destruct l1Blocks as [|epoch' l1Blocks]; [done|]. injection He as ->.
    rewrite <- Hts, Hp, Z.eqb_refl, Z.ltb_irrefl. cbn [negb].
    destruct (Z.ltb_spec (bt_EpochNum batch +u SeqWindowSize cfg) (l1_Number (L1InclusionBlock batch)));
      [lia|].
    destruct Ho as [[Hn ->]|(Hlt & Hn & Ho)].
    + rewrite Hn, Z.ltb_irrefl, Z.eqb_refl. by apply check_origin_accept.
    + destruct (Z.ltb_spec (bt_EpochNum batch) (l1_Number epoch)); [lia|].
      destruct (Z.eqb_spec (bt_EpochNum batch) (l1_Number epoch)); [lia|].
      rewrite <- Hn, Z.eqb_refl. destruct l1Blocks as [|o l1Blocks]; [done|].
      injection Ho as ->. by apply check_origin_accept.
Qed.

(** C30: a batch is accepted exactly when it satisfies the derivation rules: it has the
    next timestamp, extends the safe head, was included before its sequencing window
    expired, refers by number and hash to the current epoch or to the L1 block after
    it, is not older than that block, respects the sequencer drift (or is empty and
    could not have adopted the next origin), and contains no empty transaction and no
    deposit. *)
Theorem CheckBatch_accept_iff cfg l1Blocks head batch :
  CheckBatch cfg l1Blocks head batch = BatchAccept <->
  exists epoch origin, valid_batch cfg l1Blocks head batch epoch origin.
Proof. apply CheckBatch_accept. Qed.

Lemma check_origin_stable cfg l1Blocks more epoch origin batch :
  check_origin cfg l1Blocks epoch origin batch <> BatchUndecided ->
  check_origin cfg (l1Blocks ++ more) epoch origin batch = check_origin cfg l1Blocks epoch origin batch.
Proof.
  unfold check_origin. repeat (case_if; [|try done]); try done.
  - by destruct l1Blocks as [|b0 [|b1 l1Blocks]].
Qed.

Lemma CheckBatch_stable cfg l1Blocks more head batch :
  CheckBatch cfg l1Blocks head batch <> BatchUndecided ->
  CheckBatch cfg (l1Blocks ++ more) head batch = CheckBatch cfg l1Blocks head batch.
Proof.
  unfold CheckBatch. destruct l1Blocks as [|epoch l1Blocks]; [done|]. cbn [app].
  repeat case_if; try done.
  - apply (check_origin_stable cfg (epoch :: l1Blocks)).
  - destruct l1Blocks as [|o l1Blocks]; [done|].
    apply (check_origin_stable cfg (epoch :: o :: l1Blocks)).
Qed.

(** A decision is final.  Once a batch is dropped, accepted or put off, learning
    about more L1 blocks does not change the verdict; and with two known L1 blocks the
    verdict is never open. *)
Theorem CheckBatch_decision_final cfg l1Blocks more head batch :
  (CheckBatch cfg l1Blocks head batch <> BatchUndecided ->
   CheckBatch cfg (l1Blocks ++ more) head batch = CheckBatch cfg l1Blocks head batch) /\
  ((2 <= length l1Blocks)%nat -> CheckBatch cfg l1Blocks head batch <> BatchUndecided).
Proof.
  split; [apply CheckBatch_stable|].
  intros Hl. destruct l1Blocks as [|epoch [|next l1Blocks]]; [simpl in Hl; lia..|].
  unfold CheckBatch, check_origin. destruct (check_txs_decided (bt_Transactions batch)) as [-> | ->];
    repeat case_if; done.
Qed.
