(* ===== verification/BatchQueue.v ===== *)
(** * The batch queue stage

    [op-node/rollup/derive/batch_queue.go]: orders batches by timestamp, hands out the
    next valid one on top of the safe head, and generates empty batches when the
    sequencing window has expired. *)
From S2P Require Import Prelude GoErrors GoBytes EthTypes Geth Batch Batches.
#[local] Open Scope Z_scope.

(** The state of the queue; the map groups batches by timestamp, in the order they
    were first seen. *)
Record BatchQueue {P : Type} := mkBatchQueue {
  bq_prev : P;
  bq_origin : L1BlockRef;
  bq_l1Blocks : list L1BlockRef;
  bq_batches : gmap Z (list BatchWithL1InclusionBlock) }.
Arguments BatchQueue : clear implicits.

Section BatchQueue.
Context {P : Type} `{NextBatchProvider P}.
Context (config : Config).

(** [NewBatchQueue]. *)
Definition NewBatchQueue (prev : P) : BatchQueue P := mkBatchQueue P prev zeroL1 [] ∅.

(** [BatchQueue.Origin]. *)
Definition bq_Origin (bq : BatchQueue P) : L1BlockRef := nbp_Origin (bq_prev bq).

Definition set_prev (p : P) (bq : BatchQueue P) : BatchQueue P :=
  mkBatchQueue P p (bq_origin bq) (bq_l1Blocks bq) (bq_batches bq).
Definition set_origin (o : L1BlockRef) (bq : BatchQueue P) : BatchQueue P :=
  mkBatchQueue P (bq_prev bq) o (bq_l1Blocks bq) (bq_batches bq).
Definition set_l1Blocks (bs : list L1BlockRef) (bq : BatchQueue P) : BatchQueue P :=
  mkBatchQueue P (bq_prev bq) (bq_origin bq) bs (bq_batches bq).
Definition set_batches (m : gmap Z (list BatchWithL1InclusionBlock)) (bq : BatchQueue P)
    : BatchQueue P :=
  mkBatchQueue P (bq_prev bq) (bq_origin bq) (bq_l1Blocks bq) m.

(** The batches of a timestamp; a missing entry reads as the empty list. *)
Definition batches_at (ts : Z) (bq : BatchQueue P) : list BatchWithL1InclusionBlock :=
  default [] (bq_batches bq !! ts).

(** [BatchQueue.AddBatch]; it panics when no origin was prepared. *)
Definition AddBatch (batch : BatchData) (l2SafeHead : L2BlockRef) : M (BatchQueue P) unit := fun bq =>
  if (length (bq_l1Blocks bq) =? 0)%nat then (Panic, bq) else
  let data := mkBatchL1 (bq_origin bq) batch in
  if bool_decide (CheckBatch config (bq_l1Blocks bq) l2SafeHead data = BatchDrop) then (Ok tt, bq)
  else
    let ts := b_Timestamp (bd_V1 batch) in
    (Ok tt, set_batches (<[ts := batches_at ts bq ++ [data]]> (bq_batches bq)) bq).

(** The loop over the candidates: the batch found, if any, and the batches that
    remain. *)
Inductive scan_result :=
  | ScanFound (next : option BatchWithL1InclusionBlock) (remaining : list BatchWithL1InclusionBlock)
  | ScanUndecided (remaining : list BatchWithL1InclusionBlock)
  | ScanError.

Fixpoint scan_candidates (l1Blocks : list L1BlockRef) (l2SafeHead : L2BlockRef)
    (remaining candidates : list BatchWithL1InclusionBlock) : scan_result :=
  match candidates with
  | [] => ScanFound None remaining
  | batch :: candidates' =>
      match CheckBatch config l1Blocks l2SafeHead batch with
      | BatchFuture => ScanError
      | BatchDrop => scan_candidates l1Blocks l2SafeHead remaining candidates'
      | BatchAccept => ScanFound (Some batch) (remaining ++ candidates')
      | BatchUndecided => ScanUndecided (remaining ++ [batch])
      end
  end.

(** [batches[nextTimestamp] = remaining], or the removal of an empty entry. *)
Definition keep_remaining (ts : Z) (remaining : list BatchWithL1InclusionBlock)
    (bq : BatchQueue P) : BatchQueue P :=
  set_batches (if (length remaining =? 0)%nat then delete ts (bq_batches bq)
               else <[ts := remaining]> (bq_batches bq)) bq.

(** The empty batch generated for an expired epoch. *)
Definition empty_batch (l2SafeHead : L2BlockRef) (epoch : L1BlockRef) (nextTimestamp : Z) : BatchData :=
  mkBatchData (mkBatchV1 (l2_Hash l2SafeHead) (l1_Number epoch) (l1_Hash epoch) nextTimestamp []).

(** The end of [deriveNextBatch], when no candidate was accepted. *)
Definition derive_empty_batch (outOfData : bool) (l2SafeHead : L2BlockRef) (epoch : L1BlockRef)
    (nextTimestamp : Z) : M (BatchQueue P) BatchData := fun bq =>
  let expiryEpoch := l1_Number epoch +u SeqWindowSize config in
  let forceEmptyBatches := ((expiryEpoch =? l1_Number (bq_origin bq)) && outOfData)
                           || (expiryEpoch <? l1_Number (bq_origin bq)) in
  let firstOfEpoch := l1_Number epoch =? id_Number (l2_L1Origin l2SafeHead) +u 1 in
  if negb forceEmptyBatches then (Err EOF, bq) else
  match bq_l1Blocks bq with
  | _ :: nextEpoch :: _ =>
      if (nextTimestamp <? l1_Time nextEpoch) || firstOfEpoch then
        (Ok (empty_batch l2SafeHead epoch nextTimestamp), bq)
      else (Err EOF, set_l1Blocks (tail (bq_l1Blocks bq)) bq)
  | _ => (Err EOF, bq)
  end.

(** [BatchQueue.deriveNextBatch]. *)
Definition deriveNextBatch (outOfData : bool) (l2SafeHead : L2BlockRef)
    : M (BatchQueue P) BatchData := fun bq =>
  match bq_l1Blocks bq with
  | [] => (Err (NewCriticalError (ErrNew "cannot derive next batch, no origin was prepared")), bq)
  | epoch :: l1Blocks' =>
      if bool_decide (l2_L1Origin l2SafeHead <> l1_ID epoch) &&
         negb (id_Number (l2_L1Origin l2SafeHead) =? l1_Number epoch -u 1) then
        (Err (NewResetError (ErrNew "buffered L1 chain epoch does not match safe head origin")), bq)
      else
        let nextTimestamp := l2_Time l2SafeHead +u BlockTime config in
        match scan_candidates (bq_l1Blocks bq) l2SafeHead [] (batches_at nextTimestamp bq) with
        | ScanError =>
            (Err (NewCriticalError (ErrNew "found batch marked as future batch")), bq)
        | ScanUndecided remaining =>
            (Err EOF, set_batches (<[nextTimestamp := remaining]> (bq_batches bq)) bq)
        | ScanFound nextBatch remaining =>
            let bq1 := keep_remaining nextTimestamp remaining bq in
            match nextBatch with
            | Some b =>
                let bq2 := if bt_EpochNum b =? l1_Number epoch +u 1
                           then set_l1Blocks l1Blocks' bq1 else bq1 in
                (Ok (Batch b), bq2)
            | None => derive_empty_batch outOfData l2SafeHead epoch nextTimestamp bq1
            end
        end
  end.

(** [BatchQueue.NextBatch]. *)
Definition bq_NextBatch (safeL2Head : L2BlockRef) : M (BatchQueue P) BatchData := fun bq =>
  let prevOrigin := nbp_Origin (bq_prev bq) in
  let originBehind := l1_Number prevOrigin <? id_Number (l2_L1Origin safeL2Head) in
  let bq1 :=
    if bool_decide (bq_origin bq <> prevOrigin) then
      let bq' := set_origin prevOrigin bq in
      if negb originBehind then set_l1Blocks (bq_l1Blocks bq' ++ [prevOrigin]) bq'
      else set_l1Blocks [] bq'
    else bq in
  let loaded : result bool * BatchQueue P :=
    match nbp_NextBatch (bq_prev bq1) with
    | (Panic, p) => (Panic, set_prev p bq1)
    | (Err err, p) =>
        if err_eqb err EOF then (Ok true, set_prev p bq1) else (Err err, set_prev p bq1)
    | (Ok batch, p) =>
        if negb originBehind then
          match AddBatch batch safeL2Head (set_prev p bq1) with
          | (Ok _, bq') => (Ok false, bq')
          | (Err err, bq') => (Err err, bq')
          | (Panic, bq') => (Panic, bq')
          end
        else (Ok false, set_prev p bq1)
    end in
  match loaded with
  | (Err err, bq2) => (Err err, bq2)
  | (Panic, bq2) => (Panic, bq2)
  | (Ok outOfData, bq2) =>
      if originBehind then (Err (if outOfData : bool then EOF else NotEnoughData), bq2) else
      match deriveNextBatch outOfData safeL2Head bq2 with
      | (Ok batch, bq3) => (Ok batch, bq3)
      | (Panic, bq3) => (Panic, bq3)
      | (Err err, bq3) =>
          if err_eqb err EOF then (Err (if outOfData : bool then EOF else NotEnoughData), bq3)
          else (Err err, bq3)
      end
  end.

(** [BatchQueue.Reset]. *)
Definition bq_Reset (base : L1BlockRef) (_ : SystemConfig) : M (BatchQueue P) unit := fun bq =>
  (Err EOF, mkBatchQueue P (bq_prev bq) base [base] ∅).
End BatchQueue.

(** What the batch queue promises to the attributes stage. *)
Class NextSafeBatchProvider (P : Type) := {
  nsb_NextBatch : L2BlockRef -> M P BatchData;
  nsb_Origin : P -> L1BlockRef }.

#[export] Instance bq_provider {P} `{NextBatchProvider P} (config : Config) :
  NextSafeBatchProvider (BatchQueue P) :=
  {| nsb_NextBatch := bq_NextBatch config; nsb_Origin := bq_Origin |}.

(** The law of the batch provider. *)
Class LawfulBatchSource (P : Type) `{NextBatchProvider P} := {
  nbp_inv : P -> Prop;
  nbp_law p r p' : nbp_inv p -> nbp_NextBatch p = (r, p') -> nbp_inv p' /\ r <> Panic }.

(** ** Lemmas *)
Section Lemmas.
Context {P : Type} `{NextBatchProvider P}.
Context (config : Config).
Implicit Types (bq : BatchQueue P) (b cand : BatchWithL1InclusionBlock).

Lemma lookup_keep_remaining ts remaining bq ts' :
  batches_at ts' (keep_remaining ts remaining bq) =
  if decide (ts' = ts) then remaining else batches_at ts' bq.
Proof.
  unfold keep_remaining, batches_at, set_batches. cbn [bq_batches].
  destruct (Nat.eqb_spec (length remaining) 0) as [Hz|Hz]; case_decide; subst.
  - apply nil_length_inv in Hz as ->. by rewrite lookup_delete_eq.
  - by rewrite lookup_delete_ne.
  - by rewrite lookup_insert_eq.
  - by rewrite lookup_insert_ne.
Qed.

(** What the scan over the candidates returns. *)
Lemma scan_found l1Blocks head acc cands next rest :
  scan_candidates config l1Blocks head acc cands = ScanFound next rest ->
  match next with
  | Some b => exists dropped later, cands = dropped ++ b :: later /\ rest = acc ++ later /\
      Forall (fun c => CheckBatch config l1Blocks head c = BatchDrop) dropped /\
      CheckBatch config l1Blocks head b = BatchAccept
  | None => rest = acc /\ Forall (fun c => CheckBatch config l1Blocks head c = BatchDrop) cands
  end.
Proof.
  induction cands as [|c cands IH]; cbn [scan_candidates]; [by intros [= <- <-]|].
  destruct (CheckBatch config l1Blocks head c) eqn:E; [|intros [= <- <-]|done..].
  - intros Hx%IH. destruct next as [b|].
    + destruct Hx as (dropped & later & -> & -> & Hd & Hb). exists (c :: dropped), later.
      split_and!; [done..| |done]. by constructor.
    + destruct Hx as [-> Hd]. split; [done|]. by constructor.
  - exists [], cands. done.
Qed.

Lemma scan_undecided l1Blocks head acc dropped u later :
  Forall (fun c => CheckBatch config l1Blocks head c = BatchDrop) dropped ->
  CheckBatch config l1Blocks head u = BatchUndecided ->
  scan_candidates config l1Blocks head acc (dropped ++ u :: later) = ScanUndecided (acc ++ [u]).
Proof.
  intros Hd Hu. induction Hd as [|c dropped Hc Hd IH]; cbn [app scan_candidates]; [by rewrite Hu|].
  by rewrite Hc.
Qed.

Lemma CheckBatch_future l1Blocks head b :
  CheckBatch config l1Blocks head b = BatchFuture ->
  bt_Timestamp b <> l2_Time head +u BlockTime config.
Proof.
  unfold CheckBatch. destruct l1Blocks as [|epoch l1Blocks]; [done|].
  destruct (Z.ltb_spec (l2_Time head +u BlockTime config) (bt_Timestamp b)); [lia|].
  unfold check_origin. destruct (check_txs_decided (bt_Transactions b)) as [-> | ->];
    repeat (case_if || case_goal); done.
Qed.

Lemma scan_no_error l1Blocks head acc cands :
  Forall (fun c => bt_Timestamp c = l2_Time head +u BlockTime config) cands ->
  scan_candidates config l1Blocks head acc cands <> ScanError.
Proof.
  intros Hc. revert acc. induction Hc as [|c cands Hc Hcs IH]; intros acc; cbn [scan_candidates]; [done|].
  destruct (CheckBatch config l1Blocks head c) eqn:E; [apply IH|done..|].
  by apply CheckBatch_future in E.
Qed.

(** Consecutive L1 blocks, by number. *)
Definition numbered (bs : list L1BlockRef) : Prop :=
  forall i x y, bs !! i = Some x -> bs !! S i = Some y -> l1_Number y = l1_Number x +u 1.

(** The empty batch is due: every candidate is invalid, the sequencing window of the
    current epoch has expired, and the next timestamp is still before the next L1
    block (or the epoch has no L2 block yet). *)
Record empty_batch_due (outOfData : bool) (head : L2BlockRef) (bq : BatchQueue P)
    (epoch next : L1BlockRef) : Prop := {
  ed_dropped : Forall (fun c => CheckBatch config (bq_l1Blocks bq) head c = BatchDrop)
    (batches_at (l2_Time head +u BlockTime config) bq);
  ed_next : bq_l1Blocks bq !! 1%nat = Some next;
  ed_expired : l1_Number epoch +u SeqWindowSize config < l1_Number (bq_origin bq) \/
    (l1_Number epoch +u SeqWindowSize config = l1_Number (bq_origin bq) /\ outOfData = true);
  ed_time : l2_Time head +u BlockTime config < l1_Time next \/
    l1_Number epoch = id_Number (l2_L1Origin head) +u 1 }.

(** C32: the batch queue hands out the right batch.  A batch it returns has the safe
    head as parent and the next timestamp, and is either the first candidate for that
    timestamp that the validity rules accept, all earlier ones being invalid, or the
    empty batch of the current epoch, and that only when it is due.  Afterwards the
    queue continues from the L1 block that is the epoch of the returned batch. *)
Theorem deriveNextBatch_sound outOfData head bq batch bq' :
  numbered (bq_l1Blocks bq) ->
  deriveNextBatch config outOfData head bq = (Ok batch, bq') ->
  let ts := l2_Time head +u BlockTime config in
  b_ParentHash (bd_V1 batch) = l2_Hash head /\ b_Timestamp (bd_V1 batch) = ts /\
  (exists origin, bq_l1Blocks bq' !! 0%nat = Some origin /\ Epoch (bd_V1 batch) = l1_ID origin) /\
  ((exists dropped b later,
      batches_at ts bq = dropped ++ b :: later /\ Batch b = batch /\
      Forall (fun c => CheckBatch config (bq_l1Blocks bq) head c = BatchDrop) dropped /\
      CheckBatch config (bq_l1Blocks bq) head b = BatchAccept /\
      batches_at ts bq' = later) \/
   (exists epoch next, bq_l1Blocks bq !! 0%nat = Some epoch /\
      batch = empty_batch head epoch ts /\ empty_batch_due outOfData head bq epoch next)).
Proof.
  intros Hnum. unfold deriveNextBatch.
  destruct (bq_l1Blocks bq) as [|epoch l1Blocks] eqn:Hl1; [done|].
  case_if; [done|]. clear E.
  destruct (scan_candidates _ _ _ _ _) as [[b|] remaining|?|] eqn:Hscan; [| |done..];
    apply scan_found in Hscan.
  - destruct Hscan as (dropped & later & Hb & -> & Hd & Ha). intros [= <- <-].
    pose proof Ha as (ep & o & [Hts Hp _ [Hep Ho] Hh _ _ _])%CheckBatch_accept.
    injection Hep as <-. split_and!; [done..| |].
    + destruct Ho as [[Hn ->]|(Hlt & Hn & Ho)].
      * exists epoch. rewrite Hn. destruct (Z.eqb_spec (l1_Number epoch) (l1_Number epoch +u 1)) as [Hw|_].
        { by apply u64_succ_ne in Hw. }
        cbn. rewrite Hl1. split; [done|]. unfold Epoch, l1_ID. by rewrite <- Hn, <- Hh.
      * rewrite Hn, Z.eqb_refl. exists o. cbn. split; [done|].
        unfold Epoch, l1_ID. rewrite <- Hh. f_equal. rewrite (Hnum 0%nat epoch o); done.
    + left. exists dropped, b, later. split_and!; [done..|].
      assert (batches_at (l2_Time head +u BlockTime config)
        (keep_remaining (l2_Time head +u BlockTime config) later bq) = later) as Hk
        by (rewrite lookup_keep_remaining; by rewrite decide_True).
      by case_if.
  - destruct Hscan as [-> Hd]. unfold derive_empty_batch.
    cbn [keep_remaining set_batches bq_l1Blocks bq_origin]. rewrite Hl1.
    destruct (negb _) eqn:Ef; [done|]. apply negb_false_iff in Ef.
    destruct l1Blocks as [|next l1Blocks]; [done|].
    destruct (_ || _) eqn:Eg in |- *; [|done].
    intros [= <- <-]. cbn. split_and!; [done..| |].
    + exists epoch. by rewrite Hl1.
    + right. exists epoch, next. split_and!; [done..|]. split; [by rewrite Hl1|by rewrite Hl1| |].
      * apply orb_true_iff in Ef as [[? ?]%andb_true_iff|?]; zify_bools; auto.
      * apply orb_true_iff in Eg as [?|?]; zify_bools; auto.
Qed.

(** Batches behind an undecided one are forgotten.  When the first candidate that
    is not invalid cannot be decided yet, the queue waits for more L1 data and keeps
    only that candidate: every later candidate for the same timestamp is gone, valid
    or not, and is not considered when the open candidate turns out invalid. *)
Theorem undecided_forgets_later outOfData head bq epoch l1Blocks dropped u later :
  bq_l1Blocks bq = epoch :: l1Blocks ->
  l2_L1Origin head = l1_ID epoch ->
  batches_at (l2_Time head +u BlockTime config) bq = dropped ++ u :: later ->
  Forall (fun c => CheckBatch config (bq_l1Blocks bq) head c = BatchDrop) dropped ->
  CheckBatch config (bq_l1Blocks bq) head u = BatchUndecided ->
  exists bq', deriveNextBatch config outOfData head bq = (Err EOF, bq') /\
    batches_at (l2_Time head +u BlockTime config) bq' = [u].
Proof.
  intros Hl1 Horig Hcand Hd Hu. unfold deriveNextBatch. rewrite Hcand, (scan_undecided _ _ []) by done.
  rewrite Hl1, Horig. rewrite bool_decide_eq_false_2 by (by intros []). cbn [andb].
  eexists. split; [done|]. unfold batches_at. cbn. by rewrite lookup_insert_eq.
Qed.

(** *** The queue never panics

    The invariant, relative to the safe head: batches are filed under their own
    timestamp, and the queue is without L1 blocks only while it is behind the origin
    of the safe head. *)
Record bq_inv (head : L2BlockRef) (bq : BatchQueue P) : Prop := {
  qi_filed ts : Forall (fun b => bt_Timestamp b = ts) (batches_at ts bq);
  qi_blocks : bq_l1Blocks bq = [] -> l1_Number (bq_origin bq) < id_Number (l2_L1Origin head) }.

Lemma scan_remaining_incl l1Blocks head acc cands r :
  (exists next, scan_candidates config l1Blocks head acc cands = ScanFound next r) \/
  scan_candidates config l1Blocks head acc cands = ScanUndecided r ->
  r ⊆ acc ++ cands.
Proof.
  revert acc. induction cands as [|c cands IH]; intros acc; cbn [scan_candidates].
  { intros [[next [= _ <-]]|[=]]. by rewrite app_nil_r. }
  destruct (CheckBatch config l1Blocks head c).
  - intros Hx%IH. set_solver.
  - intros [[next [= _ <-]]|[=]]. set_solver.
  - intros [[next [=]]|[= <-]]. set_solver.
  - by intros [[next [=]]|[=]].
Qed.

Lemma filed_set_batches_at ts r bq (bq' : BatchQueue P) :
  (forall t, Forall (fun b => bt_Timestamp b = t) (batches_at t bq)) ->
  r ⊆ batches_at ts bq ->
  (forall t, batches_at t bq' = if decide (t = ts) then r else batches_at t bq) ->
  forall t, Forall (fun b => bt_Timestamp b = t) (batches_at t bq').
Proof.
  intros Hf Hsub Hat t. rewrite Hat. case_decide; [subst|done].
  specialize (Hf ts). rewrite Forall_forall in *. auto.
Qed.

Lemma batches_at_set_batches ts r bq t :
  batches_at t (set_batches (<[ts := r]> (bq_batches bq)) bq) =
  if decide (t = ts) then r else batches_at t bq.
Proof.
  unfold batches_at, set_batches. cbn. rewrite lookup_insert. repeat case_decide; by subst.
Qed.

Lemma deriveNextBatch_inv outOfData head bq :
  bq_inv head bq -> bq_l1Blocks bq <> [] ->
  let '(r, bq') := deriveNextBatch config outOfData head bq in
  r <> Panic /\ bq_inv head bq' /\ bq_prev bq' = bq_prev bq.
Proof.
  intros [Hf Hb] Hne. unfold deriveNextBatch.
  destruct (bq_l1Blocks bq) as [|epoch l1Blocks] eqn:Hl1; [done|].
  case_if; [split; [done|]; split; [by split; [|rewrite Hl1]|done]|]. clear E.
  set (ts := l2_Time head +u BlockTime config).
  destruct (scan_candidates _ _ _ _ _) as [next remaining|remaining|] eqn:Hscan.
  - assert (Hsub : remaining ⊆ batches_at ts bq) by (eapply (scan_remaining_incl _ _ []); eauto).
    assert (Hfk := filed_set_batches_at ts remaining bq (keep_remaining ts remaining bq) Hf Hsub
                     (lookup_keep_remaining ts remaining bq)).
    destruct next as [b|].
    + apply scan_found in Hscan as (dropped & later & _ & _ & _ & Ha).
      apply CheckBatch_accept in Ha as (ep & o & [_ _ _ [Hep Ho] _ _ _ _]). injection Hep as <-.
      split; [done|]. case_if; (split; [|done]); split; try done; cbn [set_l1Blocks bq_l1Blocks].
      * intros ->. destruct Ho as [[Hn _]|(_ & _ & Ho)]; [|done].
        rewrite Hn in E. by apply u64_succ_ne in E.
      * cbn. by rewrite Hl1.
    + unfold derive_empty_batch. cbn [keep_remaining set_batches bq_l1Blocks bq_origin]. rewrite Hl1.
      repeat (case_if || case_goal); split; try done; (split; [|done]); split; try done; cbn; by rewrite ?Hl1.
  - split; [done|]. split; [|done]. split; [|cbn; by rewrite Hl1].
    eapply filed_set_batches_at; [done| |apply batches_at_set_batches].
    eapply (scan_remaining_incl _ _ []); eauto.
  - split; [done|]. split; [by split; [|rewrite Hl1]|done].
Qed.

Lemma AddBatch_inv batch head bq :
  bq_inv head bq -> bq_l1Blocks bq <> [] ->
  let '(r, bq') := AddBatch config batch head bq in
  r = Ok tt /\ bq_inv head bq' /\ bq_prev bq' = bq_prev bq /\ bq_l1Blocks bq' = bq_l1Blocks bq.
Proof.
  intros [Hf Hb] Hne. unfold AddBatch. destruct (bq_l1Blocks bq) as [|e l] eqn:Hl1; [done|].
  cbn [length Nat.eqb]. case_if; [split_and!; try done; split; [done|by rewrite Hl1]|].
  split_and!; [done| |done|done]. split; [|cbn; by rewrite Hl1].
  intros t. rewrite batches_at_set_batches. case_decide; [|done].
  apply Forall_app. subst. split; [apply Hf|by repeat constructor].
Qed.

Lemma app_nil_inv_snoc {A} (l : list A) x : l ++ [x] = [] -> False.
Proof. by destruct l. Qed.

Lemma bq_NextBatch_inv `{!LawfulBatchSource P} head bq :
  bq_inv head bq -> nbp_inv (bq_prev bq) ->
  let '(r, bq') := bq_NextBatch config head bq in
  r <> Panic /\ nbp_inv (bq_prev bq') /\ bq_inv head bq'.
Proof.
  intros Hinv Hp.
  destruct Hinv as [Hf Hb]. unfold bq_NextBatch.
  set (behind := l1_Number (nbp_Origin (bq_prev bq)) <? id_Number (l2_L1Origin head)).
  set (bq1 := if bool_decide (bq_origin bq <> nbp_Origin (bq_prev bq)) then _ else bq).
  assert (H1 : bq_inv head bq1 /\ bq_prev bq1 = bq_prev bq /\
               (behind = false -> bq_l1Blocks bq1 <> [])).
  { unfold bq1. case_bool_decide as Ho.
    - destruct behind eqn:Eb; cbn [negb]; subst behind; zify_bools.
      + split; [|done]. by split.
      + split; [split; [done|]; by intros ?%app_nil_inv_snoc|].
        split; [done|]. by intros _ ?%app_nil_inv_snoc.
    - split; [done|]. split; [done|]. intros Hbeh Hnil. specialize (Hb Hnil).
      assert (bq_origin bq = nbp_Origin (bq_prev bq)) as Heq.
      { destruct (decide (bq_origin bq = nbp_Origin (bq_prev bq))); [done|by destruct Ho]. }
      rewrite Heq in Hb. subst behind. zify_bools. lia. }
  clearbody bq1. destruct H1 as (Hinv1 & Hprev1 & Hne1).
  destruct (nbp_NextBatch (bq_prev bq1)) as [r p] eqn:En.
  apply nbp_law in En as [Hp' Hnp]; [|by rewrite Hprev1].
  assert (Hinv2 : bq_inv head (set_prev p bq1)) by (by destruct Hinv1; split).
  set (loaded := match r with Ok batch => _ | Err err => _ | Panic => _ end).
  assert (Hl : match loaded with
               | (Ok _, bq2) => bq_inv head bq2 /\ nbp_inv (bq_prev bq2) /\
                                (behind = false -> bq_l1Blocks bq2 <> [])
               | (Err _, bq2) => bq_inv head bq2 /\ nbp_inv (bq_prev bq2)
               | (Panic, _) => False
               end).
  { unfold loaded. destruct r as [batch|err|]; [|by case_if|done].
    destruct behind; cbn [negb]; [done|].
    pose proof (AddBatch_inv batch head (set_prev p bq1) Hinv2 (Hne1 eq_refl)) as Ha.
    destruct (AddBatch config batch head (set_prev p bq1)) as [ra bq2].
    destruct Ha as (-> & Ha & Hpa & Hla). rewrite Hpa, Hla. by split_and!; [| |intros _; apply Hne1]. }
  clearbody loaded. destruct loaded as [[outOfData|err|] bq2]; [|destruct Hl; done|done].
  destruct Hl as (Hinv3 & Hp3 & Hne3). destruct behind; [done|].
  pose proof (deriveNextBatch_inv outOfData head bq2 Hinv3 (Hne3 eq_refl)) as Hdv.
  destruct (deriveNextBatch config outOfData head bq2) as [rd bq3].
  destruct Hdv as (Hrd & Hinv4 & Hp4). rewrite <- Hp4 in Hp3.
  destruct rd as [b|err|]; [done| |done]. case_if; done.
Qed.

(** The panic in [AddBatch] is unreachable.  From a state in which batches are
    filed by timestamp and the L1 block list is empty only while the queue is behind
    the safe head, over a source that does not panic, [NextBatch] does not panic and
    the state it leaves satisfies the same for this safe head and for every later one
    with the same or a higher origin; [Reset] establishes it. *)
Theorem bq_NextBatch_no_panic `{!LawfulBatchSource P} head bq :
  bq_inv head bq -> nbp_inv (bq_prev bq) ->
  (bq_NextBatch config head bq).1 <> Panic /\
  nbp_inv (bq_prev (bq_NextBatch config head bq).2) /\
  (forall head', id_Number (l2_L1Origin head) <= id_Number (l2_L1Origin head') ->
     bq_inv head' (bq_NextBatch config head bq).2) /\
  (forall base sysCfg bq0, bq_inv head (bq_Reset base sysCfg bq0).2).
Proof.
  intros Hinv Hp. pose proof (bq_NextBatch_inv head bq Hinv Hp) as Hmain.
  destruct (bq_NextBatch config head bq) as [r bq']. destruct Hmain as (? & ? & [Hf Hb]).
  cbn [fst snd]. split_and!; [done|done| |].
  - intros head' Hle. split; [done|]. intros Hnil. specialize (Hb Hnil). lia.
  - intros. split; [|done]. intros ts. unfold batches_at. cbn. by rewrite lookup_empty.
Qed.
End Lemmas.

(** ** Examples *)
Module BatchQueueExamples.

(** A source scripted as a list of batches, with a fixed origin. *)
Record toy_source := mkToySource { toy_batches : list BatchData; toy_origin : L1BlockRef }.

#[export] Instance toy_source_provider : NextBatchProvider toy_source :=
  {| nbp_NextBatch := fun s =>
       match toy_batches s with
       | [] => (Err EOF, s)
       | b :: bs => (Ok b, mkToySource bs (toy_origin s))
       end;
     nbp_Origin := toy_origin |}.

#[export] Program Instance toy_source_lawful : LawfulBatchSource toy_source :=
  {| nbp_inv := fun _ => True |}.
Next Obligation. intros s r s' _. simpl. by destruct (toy_batches s); intros [= <- <-]. Qed.

Definition toy_cfg : Config :=
  mkConfig (mkGenesis (mkBlockID 100 0) (mkBlockID 2 0) 1000 (mkSystemConfig 77 1 1 1))
    2 600 3600 300 (Some 1) (Some 10) None 3 4 5.

Definition epoch5 : L1BlockRef := mkL1BlockRef 105 5 104 60.
Definition epoch6 : L1BlockRef := mkL1BlockRef 106 6 105 72.
Definition toy_head : L2BlockRef := mkL2BlockRef 900 30 899 64 (mkBlockID 105 5) 2.

(** A batch that stays in the current epoch, and one that moves to the next epoch
    before its time. *)
Definition good_batch : BatchWithL1InclusionBlock :=
  mkBatchL1 epoch5 (mkBatchData (mkBatchV1 900 5 105 66 [[Byte.x02]])).
Definition early_batch : BatchWithL1InclusionBlock :=
  mkBatchL1 epoch5 (mkBatchData (mkBatchV1 900 6 106 66 [])).

Definition toy_queue (l1Blocks : list L1BlockRef) (batches : list BatchWithL1InclusionBlock)
    : BatchQueue toy_source :=
  mkBatchQueue _ (mkToySource [] epoch5) epoch5 l1Blocks {[ 66 := batches ]}.

Lemma deriveNextBatch_sound_witness :
  let bq := toy_queue [epoch5; epoch6] [early_batch; good_batch] in
  let bq' := (deriveNextBatch toy_cfg false toy_head bq).2 in
  b_ParentHash (bd_V1 (Batch good_batch)) = 900 /\ b_Timestamp (bd_V1 (Batch good_batch)) = 66 /\
  (exists origin, bq_l1Blocks bq' !! 0%nat = Some origin /\
     Epoch (bd_V1 (Batch good_batch)) = l1_ID origin) /\
  ((exists dropped b later,
      batches_at 66 bq = dropped ++ b :: later /\ Batch b = Batch good_batch /\
      Forall (fun c => CheckBatch toy_cfg (bq_l1Blocks bq) toy_head c = BatchDrop) dropped /\
      CheckBatch toy_cfg (bq_l1Blocks bq) toy_head b = BatchAccept /\
      batches_at 66 bq' = later) \/
   (exists epoch next, bq_l1Blocks bq !! 0%nat = Some epoch /\
      Batch good_batch = empty_batch toy_head epoch 66 /\
      empty_batch_due toy_cfg false toy_head bq epoch next)).
Proof.
  intros bq bq'. apply (deriveNextBatch_sound toy_cfg false toy_head bq (Batch good_batch) bq').
  - intros [|[|i]] x y; simpl; intros; simplify_eq; done.
  - vm_compute. reflexivity.
Defined.

(** Had both L1 blocks been known, the good batch would have been returned (above);
    with the first alone it is lost. *)
Lemma undecided_forgets_later_witness :
  exists bq', deriveNextBatch toy_cfg false toy_head (toy_queue [epoch5] [early_batch; good_batch]) =
    (Err EOF, bq') /\ batches_at 66 bq' = [early_batch].
Proof.
  apply (undecided_forgets_later toy_cfg false toy_head (toy_queue [epoch5] [early_batch; good_batch])
    epoch5 [] [] early_batch [good_batch]); [done..|constructor|].
  vm_compute. reflexivity.
Defined.

Lemma toy_queue_inv : bq_inv toy_head (toy_queue [epoch5] [early_batch; good_batch]).
Proof.
  split; [|done]. intros ts. unfold batches_at. cbn. rewrite lookup_singleton.
  case_decide; subst; by repeat constructor.
Qed.

Lemma bq_NextBatch_no_panic_witness :
  let bq := toy_queue [epoch5] [early_batch; good_batch] in
  (bq_NextBatch toy_cfg toy_head bq).1 <> Panic /\
  nbp_inv (bq_prev (bq_NextBatch toy_cfg toy_head bq).2) /\
  (forall head', id_Number (l2_L1Origin toy_head) <= id_Number (l2_L1Origin head') ->
     bq_inv head' (bq_NextBatch toy_cfg toy_head bq).2) /\
  (forall base sysCfg (bq0 : BatchQueue toy_source), bq_inv toy_head (bq_Reset base sysCfg bq0).2).
Proof. apply (bq_NextBatch_no_panic toy_cfg toy_head); [apply toy_queue_inv|done]. Defined.
End BatchQueueExamples.
