(* ===== verification/Attributes.v ===== *)
(** * Payload attributes

    [op-node/rollup/derive/attributes.go] and [attributes_queue.go]: the attributes of
    the next L2 block are the L1 information deposit, the user deposits when the block
    starts a new epoch, and the transactions of the batch. *)
From S2P Require Import Prelude GoErrors GoBytes EthTypes Geth Solabi Deposits SystemConfigUpdate.
From S2P Require Import L1Info Batch BatchQueue Payloads.
#[local] Open Scope Z_scope.

(** [predeploys.SequencerFeeVaultAddr]. *)
Definition SequencerFeeVaultAddr : Address := 0x4200000000000000000000000000000000000011.

(** [L1ReceiptsFetcher] and [SystemConfigL2Fetcher], over environment states. *)
Class L1ReceiptsFetcher (E : Type) := {
  InfoByHash : Hash -> M E BlockInfo;
  lrf_FetchReceipts : Hash -> M E (BlockInfo * list Receipt) }.

Class SystemConfigL2Fetcher (E : Type) := {
  SystemConfigByL2Hash : Hash -> M E SystemConfig }.

(** [AttributesBuilder]. *)
Class AttributesBuilder (B : Type) := {
  PreparePayloadAttributes : L2BlockRef -> BlockID -> M B PayloadAttributes }.

Section Builder.
Context {E1 E2 : Type} `{L1ReceiptsFetcher E1} `{SystemConfigL2Fetcher E2} `{Keccak} `{TxCodec}.
Context (cfg : Config).

Record FetchingAttributesBuilder := mkFetchingBuilder { fab_l1 : E1; fab_l2 : E2 }.

Definition on_l1 {A} (m : M E1 A) : M FetchingAttributesBuilder A :=
  zoom fab_l1 (fun e b => mkFetchingBuilder e (fab_l2 b)) m.
Definition on_l2 {A} (m : M E2 A) : M FetchingAttributesBuilder A :=
  zoom fab_l2 (fun e b => mkFetchingBuilder (fab_l1 b) e) m.

(** The inputs of the attributes: L1 information, deposits, configuration and sequence
    number. *)
Record attributes_inputs := mkInputs {
  in_l1Info : BlockInfo;
  in_depositTxs : list Data;
  in_sysConfig : SystemConfig;
  in_seqNumber : Z }.

(** The branch for the first block of an epoch. *)
Definition new_epoch_inputs (l2Parent : L2BlockRef) (epoch : BlockID) (sysConfig : SystemConfig)
    : M FetchingAttributesBuilder attributes_inputs :=
  fetched <- wrapE (fun e => NewTemporaryError (ErrWrap "failed to fetch L1 block info and receipts" e))
               (on_l1 (lrf_FetchReceipts (id_Hash epoch))) ;;
  if negb (id_Hash (l2_L1Origin l2Parent) =? bi_ParentHash fetched.1) then
    throw (NewResetError (ErrNew "cannot create new block with L1 origin on top of L1 origin"))
  else
    match DeriveDeposits fetched.2 (DepositContractAddress cfg) with
    | (_, Some err) => throw (NewCriticalError (ErrWrap "failed to derive some deposits" err))
    | (deposits, None) =>
        match UpdateSystemConfigWithL1Receipts sysConfig fetched.2 cfg with
        | (Some err, _) => throw (NewCriticalError (ErrWrap "failed to apply derived L1 sysCfg updates" err))
        | (None, sysConfig') => ret (mkInputs fetched.1 deposits sysConfig' 0)
        end
    end.

(** The branch for a block that stays in the epoch of its parent. *)
Definition same_epoch_inputs (l2Parent : L2BlockRef) (epoch : BlockID) (sysConfig : SystemConfig)
    : M FetchingAttributesBuilder attributes_inputs :=
  if negb (id_Hash (l2_L1Origin l2Parent) =? id_Hash epoch) then
    throw (NewResetError (ErrNew "cannot create new block with L1 origin in conflict with L1 origin"))
  else
    info <- wrapE (fun e => NewTemporaryError (ErrWrap "failed to fetch L1 block info" e))
              (on_l1 (InfoByHash (id_Hash epoch))) ;;
    ret (mkInputs info [] sysConfig (l2_SequenceNumber l2Parent +u 1)).

(** The end of [PreparePayloadAttributes], once the inputs are known. *)
Definition attributes_of (l2Parent : L2BlockRef) (inp : attributes_inputs) : result PayloadAttributes :=
  let nextL2Time := l2_Time l2Parent +u BlockTime cfg in
  if nextL2Time <? bi_Time (in_l1Info inp) then
    Err (NewResetError (ErrNew "cannot build L2 block before L1 origin"))
  else
    let? l1InfoTx :=
      map_err (fun e => NewCriticalError (ErrWrap "failed to create l1InfoTx" e))
        (L1InfoDepositBytes (in_seqNumber inp) (in_l1Info inp) (in_sysConfig inp)
           (IsRegolith cfg nextL2Time)) in
    Ok (mkAttributes nextL2Time (bi_MixDigest (in_l1Info inp)) SequencerFeeVaultAddr
          (l1InfoTx :: in_depositTxs inp) true (Some (GasLimit (in_sysConfig inp)))).

(** [FetchingAttributesBuilder.PreparePayloadAttributes]. *)
Definition fab_PreparePayloadAttributes (l2Parent : L2BlockRef) (epoch : BlockID)
    : M FetchingAttributesBuilder PayloadAttributes :=
  sysConfig <- wrapE (fun e => NewTemporaryError (ErrWrap "failed to retrieve L2 parent block" e))
                 (on_l2 (SystemConfigByL2Hash (l2_Hash l2Parent))) ;;
  inp <- (if negb (id_Number (l2_L1Origin l2Parent) =? id_Number epoch)
          then new_epoch_inputs l2Parent epoch sysConfig
          else same_epoch_inputs l2Parent epoch sysConfig) ;;
  lift (attributes_of l2Parent inp).

#[global] Instance fab_builder : AttributesBuilder FetchingAttributesBuilder :=
  {| PreparePayloadAttributes := fab_PreparePayloadAttributes |}.

(** ** Specification *)

(** The inputs a correct builder uses for a block on [l2Parent] with origin [epoch],
    given the configuration of the parent: either the next origin, with its deposits
    and configuration changes and sequence number zero, or the same origin with the
    next sequence number. *)
Inductive inputs_for (l2Parent : L2BlockRef) (epoch : BlockID) (sysConfig : SystemConfig)
    : attributes_inputs -> E1 -> E1 -> Prop :=
  | inputs_new_epoch info receipts deposits sysConfig' e e' :
      id_Number (l2_L1Origin l2Parent) <> id_Number epoch ->
      lrf_FetchReceipts (id_Hash epoch) e = (Ok (info, receipts), e') ->
      bi_ParentHash info = id_Hash (l2_L1Origin l2Parent) ->
      Forall2 (fun log tx => exists dep,
          UnmarshalDepositLogEvent log = Ok dep /\ tx_MarshalBinary dep = Ok tx)
        (deposit_logs (DepositContractAddress cfg) receipts) deposits ->
      config_events (config_logs (L1SystemConfigAddress cfg) receipts) sysConfig sysConfig' ->
      inputs_for l2Parent epoch sysConfig (mkInputs info deposits sysConfig' 0) e e'
  | inputs_same_epoch info e e' :
      l2_L1Origin l2Parent = epoch ->
      InfoByHash (id_Hash epoch) e = (Ok info, e') ->
      inputs_for l2Parent epoch sysConfig
        (mkInputs info [] sysConfig (l2_SequenceNumber l2Parent +u 1)) e e'.

(** The attributes made of them. *)
Definition attributes_from (l2Parent : L2BlockRef) (inp : attributes_inputs)
    (attrs : PayloadAttributes) : Prop :=
  bi_Time (in_l1Info inp) <= pa_Timestamp attrs /\
  exists l1InfoTx,
    L1InfoDepositBytes (in_seqNumber inp) (in_l1Info inp) (in_sysConfig inp)
      (IsRegolith cfg (pa_Timestamp attrs)) = Ok l1InfoTx /\
    attrs = mkAttributes (l2_Time l2Parent +u BlockTime cfg) (bi_MixDigest (in_l1Info inp))
              SequencerFeeVaultAddr (l1InfoTx :: in_depositTxs inp) true
              (Some (GasLimit (in_sysConfig inp))).
End Builder.
Arguments FetchingAttributesBuilder : clear implicits.

(** ** Lemmas *)
Section BuilderLemmas.
Context {E1 E2 : Type} `{L1ReceiptsFetcher E1} `{SystemConfigL2Fetcher E2} `{Keccak} `{TxCodec}.
Context (cfg : Config).
Implicit Types b : FetchingAttributesBuilder E1 E2.

Lemma on_l1_Ok {A} (m : M E1 A) b a b' :
  on_l1 m b = (Ok a, b') <-> m (fab_l1 b) = (Ok a, fab_l1 b') /\ fab_l2 b' = fab_l2 b.
Proof.
  unfold on_l1, zoom. destruct (m (fab_l1 b)) as [r e]. destruct b, b'. cbn.
  split; [intros [= <- <- <-]; done|intros [[= -> ->] ->]; done].
Qed.

Lemma on_l2_Ok {A} (m : M E2 A) b a b' :
  on_l2 m b = (Ok a, b') <-> m (fab_l2 b) = (Ok a, fab_l2 b') /\ fab_l1 b' = fab_l1 b.
Proof.
  unfold on_l2, zoom. destruct (m (fab_l2 b)) as [r e]. destruct b, b'. cbn.
  split; [intros [= <- <- <-]; done|intros [[= -> ->] ->]; done].
Qed.

Lemma new_epoch_inputs_Ok l2Parent epoch sysConfig b inp b' :
  id_Number (l2_L1Origin l2Parent) <> id_Number epoch ->
  new_epoch_inputs cfg l2Parent epoch sysConfig b = (Ok inp, b') <->
  inputs_for cfg l2Parent epoch sysConfig inp (fab_l1 b) (fab_l1 b') /\ fab_l2 b' = fab_l2 b.
Proof.
  intros Hne. unfold new_epoch_inputs. rewrite bind_Ok. split.
  - intros ([info receipts] & b1 & [Hf Hl2]%wrapE_Ok%on_l1_Ok & Hx). cbn [fst snd] in Hx.
    destruct (Z.eqb_spec (id_Hash (l2_L1Origin l2Parent)) (bi_ParentHash info)); cbn [negb] in Hx; [|done].
    destruct (DeriveDeposits receipts _) as [deposits [err|]] eqn:Ed; [done|].
    destruct (UpdateSystemConfigWithL1Receipts _ _ _) as [[err|] s'] eqn:Es; [done|].
    injection Hx as <- <-. split; [|done].
    eapply inputs_new_epoch; [done|done|done|by apply DeriveDeposits_Forall2|].
    by apply UpdateSystemConfig_config_events.
  - intros [Hi Hl2]. inversion Hi as [info receipts deposits s' e e' _ Hf Hp Hd Hc|? ? ? Heq]; subst;
      [|done].
    apply DeriveDeposits_Forall2 in Hd. apply UpdateSystemConfig_config_events in Hc.
    exists (info, receipts), b'. rewrite wrapE_Ok, on_l1_Ok. split; [done|]. cbn [fst snd].
    rewrite Hp, Z.eqb_refl, Hd, Hc. done.
Qed.

Lemma same_epoch_inputs_Ok l2Parent epoch sysConfig b inp b' :
  id_Number (l2_L1Origin l2Parent) = id_Number epoch ->
  same_epoch_inputs l2Parent epoch sysConfig b = (Ok inp, b') <->
  inputs_for cfg l2Parent epoch sysConfig inp (fab_l1 b) (fab_l1 b') /\ fab_l2 b' = fab_l2 b.
Proof.
  intros Heq. unfold same_epoch_inputs. split.
  - destruct (Z.eqb_spec (id_Hash (l2_L1Origin l2Parent)) (id_Hash epoch)); cbn [negb]; [|done].
    intros (info & b1 & [Hf Hl2]%wrapE_Ok%on_l1_Ok & [= <- <-])%bind_Ok. split; [|done].
    apply inputs_same_epoch; [|done]. destruct (l2_L1Origin l2Parent), epoch. simpl in *. congruence.
  - intros [Hi Hl2]. inversion Hi as [? ? ? ? ? ? Hne|info e e' He Hf]; subst; [done|].
    rewrite Z.eqb_refl. cbn [negb]. apply bind_Ok. exists info, b'. by rewrite wrapE_Ok, on_l1_Ok.
Qed.

Lemma attributes_of_Ok l2Parent inp attrs :
  attributes_of cfg l2Parent inp = Ok attrs <-> attributes_from cfg l2Parent inp attrs.
Proof.
  unfold attributes_of, attributes_from. split.
  - case_if; [done|].
    destruct (L1InfoDepositBytes _ _ _ _) as [tx|err|] eqn:Et; cbn [map_err]; [|done..].
    intros [= <-]. cbn [pa_Timestamp]. split; [done|]. by exists tx.
  - intros (Ht & tx & Hb & ->). cbn [pa_Timestamp] in *. case_if; [lia|]. by rewrite Hb.
Qed.

Lemma PreparePayloadAttributes_ok l2Parent epoch b attrs b' :
  fab_PreparePayloadAttributes cfg l2Parent epoch b = (Ok attrs, b') <->
  exists sysConfig inp,
    SystemConfigByL2Hash (l2_Hash l2Parent) (fab_l2 b) = (Ok sysConfig, fab_l2 b') /\
    inputs_for cfg l2Parent epoch sysConfig inp (fab_l1 b) (fab_l1 b') /\
    attributes_from cfg l2Parent inp attrs.
Proof.
  unfold fab_PreparePayloadAttributes.
  assert (Hin : forall sysConfig b1 inp b2,
    (if negb (id_Number (l2_L1Origin l2Parent) =? id_Number epoch)
     then new_epoch_inputs cfg l2Parent epoch sysConfig
     else same_epoch_inputs l2Parent epoch sysConfig) b1 = (Ok inp, b2) <->
    inputs_for cfg l2Parent epoch sysConfig inp (fab_l1 b1) (fab_l1 b2) /\ fab_l2 b2 = fab_l2 b1).
  { intros. destruct (Z.eqb_spec (id_Number (l2_L1Origin l2Parent)) (id_Number epoch)); cbn [negb];
      [by apply same_epoch_inputs_Ok|by apply new_epoch_inputs_Ok]. }
  rewrite bind_Ok. split.
  - intros (sysConfig & b1 & [Hs Hl1]%wrapE_Ok%on_l2_Ok & Hx).
    apply bind_Ok in Hx as (inp & b2 & [Hi Hl2]%Hin & Ha). unfold lift in Ha.
    injection Ha as Ha ->. apply attributes_of_Ok in Ha.
    exists sysConfig, inp. rewrite Hl2, <- Hl1. done.
  - intros (sysConfig & inp & Hs & Hi & Ha). apply attributes_of_Ok in Ha.
    exists sysConfig, (mkFetchingBuilder (fab_l1 b) (fab_l2 b')). rewrite wrapE_Ok, on_l2_Ok.
    split; [done|]. apply bind_Ok. exists inp, b'. rewrite Hin. split; [done|].
    unfold lift. by rewrite Ha.
Qed.

(** The attributes builder is correct and complete.  It returns attributes exactly
    when the parent's configuration and the L1 data can be fetched and the requested
    origin is the parent's origin or a child of it with a timestamp not after the new
    block; the attributes then have the next timestamp, start with the L1 information
    deposit for the right origin, configuration and sequence number, continue with
    exactly the user deposits of a new epoch, allow no pool transactions, and set the
    gas limit of the (updated) configuration. *)
Theorem PreparePayloadAttributes_iff l2Parent epoch b attrs b' :
  fab_PreparePayloadAttributes cfg l2Parent epoch b = (Ok attrs, b') <->
  exists sysConfig inp,
    SystemConfigByL2Hash (l2_Hash l2Parent) (fab_l2 b) = (Ok sysConfig, fab_l2 b') /\
    inputs_for cfg l2Parent epoch sysConfig inp (fab_l1 b) (fab_l1 b') /\
    attributes_from cfg l2Parent inp attrs.
Proof. apply PreparePayloadAttributes_ok. Qed.
End BuilderLemmas.

(** ** The attributes queue stage *)
Module AttributesQueue.
Section AttributesQueue.
Context {B P : Type} `{AttributesBuilder B} `{NextSafeBatchProvider P}.
Context (config : Config).

Record t := mk { builder : B; prev : P; batch : option BatchData }.

(** [NewAttributesQueue]. *)
Definition new (builder : B) (prev : P) : t := mk builder prev None.

(** [AttributesQueue.Origin]. *)
Definition Origin (aq : t) : L1BlockRef := nsb_Origin (prev aq).

Definition set_NoTxPool_Transactions (noTxPool : bool) (txs : list Data) (attrs : PayloadAttributes)
    : PayloadAttributes :=
  mkAttributes (pa_Timestamp attrs) (pa_PrevRandao attrs) (pa_SuggestedFeeRecipient attrs) txs
    noTxPool (pa_GasLimit attrs).

(** [AttributesQueue.createNextAttributes]. *)
Definition createNextAttributes (b : BatchData) (l2SafeHead : L2BlockRef) : M t PayloadAttributes :=
  if negb (b_ParentHash (bd_V1 b) =? l2_Hash l2SafeHead) then
    throw (NewResetError (ErrNew "valid batch has bad parent hash")) else
  if negb (l2_Time l2SafeHead +u BlockTime config =? b_Timestamp (bd_V1 b)) then
    throw (NewResetError (ErrNew "valid batch has bad timestamp")) else
  attrs <- zoom builder (fun bl aq => mk bl (prev aq) (batch aq))
             (PreparePayloadAttributes l2SafeHead (Epoch (bd_V1 b))) ;;
  ret (set_NoTxPool_Transactions true (pa_Transactions attrs ++ b_Transactions (bd_V1 b)) attrs).

(** [AttributesQueue.NextAttributes]: the batch is kept until attributes were made of
    it. *)
Definition NextAttributes (l2SafeHead : L2BlockRef) : M t PayloadAttributes :=
  aq <- get ;;
  b <- (match batch aq with
        | Some b => ret b
        | None =>
            b <- zoom prev (fun p aq => mk (builder aq) p (batch aq)) (nsb_NextBatch l2SafeHead) ;;
            modify (fun aq => mk (builder aq) (prev aq) (Some b)) ;;;
            ret b
        end) ;;
  attrs <- createNextAttributes b l2SafeHead ;;
  modify (fun aq => mk (builder aq) (prev aq) None) ;;;
  ret attrs.

(** [AttributesQueue.Reset]. *)
Definition Reset (_ : L1BlockRef) (_ : SystemConfig) : M t unit := fun aq =>
  (Err EOF, mk (builder aq) (prev aq) None).
End AttributesQueue.
Arguments t : clear implicits.
End AttributesQueue.

(** What the attributes queue promises to the engine queue. *)
Class NextAttributesProvider (P : Type) := {
  nap_Origin : P -> L1BlockRef;
  nap_NextAttributes : L2BlockRef -> M P PayloadAttributes }.

#[export] Instance aq_provider {B P} `{AttributesBuilder B} `{NextSafeBatchProvider P}
    (config : Config) : NextAttributesProvider (AttributesQueue.t B P) :=
  {| nap_Origin := AttributesQueue.Origin; nap_NextAttributes := AttributesQueue.NextAttributes config |}.

Section AttributesQueueProperties.
Context {B P : Type} `{AttributesBuilder B} `{NextSafeBatchProvider P}.
Context (config : Config).

(** A batch is never lost.  When making attributes fails, the batch taken from the
    previous stage (or kept from before) stays in the queue for the next call; when it
    succeeds, the attributes are those the builder prepared for the batch's epoch with
    the batch's transactions appended and no pool transactions, the batch extends the
    safe head, and the queue is empty again. *)
Theorem NextAttributes_keeps_batch l2SafeHead aq r aq' :
  AttributesQueue.NextAttributes config l2SafeHead aq = (r, aq') ->
  let from := match AttributesQueue.batch aq with
              | Some b => (Ok b, AttributesQueue.prev aq)
              | None => nsb_NextBatch l2SafeHead (AttributesQueue.prev aq)
              end in
  AttributesQueue.prev aq' = from.2 /\
  match from.1 with
  | Ok b =>
      match r with
      | Ok attrs =>
          AttributesQueue.batch aq' = None /\
          b_ParentHash (bd_V1 b) = l2_Hash l2SafeHead /\
          b_Timestamp (bd_V1 b) = l2_Time l2SafeHead +u BlockTime config /\
          exists prepared,
            PreparePayloadAttributes l2SafeHead (Epoch (bd_V1 b)) (AttributesQueue.builder aq) =
              (Ok prepared, AttributesQueue.builder aq') /\
            attrs = AttributesQueue.set_NoTxPool_Transactions true
                      (pa_Transactions prepared ++ b_Transactions (bd_V1 b)) prepared
      | _ => AttributesQueue.batch aq' = Some b
      end
  | Err err => r = Err err /\ AttributesQueue.batch aq' = None
  | Panic => r = Panic
  end.
Proof.
  assert (Hcreate : forall b (s : AttributesQueue.t B P), AttributesQueue.batch s = Some b ->
    forall r (s' : AttributesQueue.t B P),
    bind (AttributesQueue.createNextAttributes config b l2SafeHead)
      (fun attrs => modify (fun aq => AttributesQueue.mk (AttributesQueue.builder aq)
         (AttributesQueue.prev aq) None) ;;; ret attrs) s = (r, s') ->
    AttributesQueue.prev s' = AttributesQueue.prev s /\
    match r with
    | Ok attrs =>
        AttributesQueue.batch s' = None /\ b_ParentHash (bd_V1 b) = l2_Hash l2SafeHead /\
        b_Timestamp (bd_V1 b) = l2_Time l2SafeHead +u BlockTime config /\
        exists prepared,
          PreparePayloadAttributes l2SafeHead (Epoch (bd_V1 b)) (AttributesQueue.builder s) =
            (Ok prepared, AttributesQueue.builder s') /\
          attrs = AttributesQueue.set_NoTxPool_Transactions true
                    (pa_Transactions prepared ++ b_Transactions (bd_V1 b)) prepared
    | _ => AttributesQueue.batch s' = Some b
    end).
  { intros b s Hb r0 s'. unfold AttributesQueue.createNextAttributes, bind, throw, zoom, modify, ret.
    destruct (Z.eqb_spec (b_ParentHash (bd_V1 b)) (l2_Hash l2SafeHead)); cbn [negb];
      [|by intros [= <- <-]].
    destruct (Z.eqb_spec (l2_Time l2SafeHead +u BlockTime config) (b_Timestamp (bd_V1 b))); cbn [negb];
      [|by intros [= <- <-]].
    destruct (PreparePayloadAttributes _ _ _) as [[attrs|err|] bl] eqn:Ep; intros [= <- <-];
      [|done..]. split_and!; [done..|]. by exists attrs. }
  unfold AttributesQueue.NextAttributes. unfold bind at 1. cbn [get].
  destruct (AttributesQueue.batch aq) as [b|] eqn:Eb.
  - intros Hx. cbn [fst snd]. exact (Hcreate b aq Eb r aq' Hx).
  - unfold bind at 1. unfold bind at 1, zoom, modify, ret at 1.
    destruct (nsb_NextBatch _ _) as [[b|err|] p]; cbn; [|intros [= <- <-]; by rewrite ?Eb..].
    intros Hx. exact (Hcreate b (AttributesQueue.mk (AttributesQueue.builder aq) p (Some b)) eq_refl r aq' Hx).
Qed.
End AttributesQueueProperties.

(** ** A block built from attributes gives its derivation inputs back *)

Definition sysconfig_wf (s : SystemConfig) : Prop :=
  is_address (BatcherAddr s) /\ is_u256 (Overhead s) /\ is_u256 (Scalar s) /\ is_u64 (GasLimit s).

(** The information of a block has the hash it was asked for and fields in range. *)
Definition honest_info (h : Hash) (info : BlockInfo) : Prop :=
  bi_Hash info = h /\ is_hash h /\ is_u64 (bi_NumberU64 info) /\ is_u64 (bi_Time info) /\
  is_u256 (bi_BaseFee info).

(** The nodes answer a request for a hash with data of that hash. *)
Class LawfulL1ReceiptsFetcher (E : Type) `{L1ReceiptsFetcher E} := {
  InfoByHash_honest h e info e' : InfoByHash h e = (Ok info, e') -> honest_info h info;
  lrf_FetchReceipts_honest h e info receipts e' :
    lrf_FetchReceipts h e = (Ok (info, receipts), e') -> honest_info h info }.

Class LawfulSystemConfigFetcher (E : Type) `{SystemConfigL2Fetcher E} := {
  SystemConfigByL2Hash_wf h e s e' : SystemConfigByL2Hash h e = (Ok s, e') -> sysconfig_wf s }.

Lemma config_events_wf `{Keccak} evs s s' : config_events evs s s' -> sysconfig_wf s -> sysconfig_wf s'.
Proof.
  induction 1 as [|ev evs s s1 s2 (ty & _ & Hu) _ IH]; [done|].
  intros (Ha & Ho & Hs & Hg). apply IH. inversion Hu; subst; by split_and!.
Qed.

Section BuildAndRead.
Context {E1 E2 : Type} `{LawfulL1ReceiptsFetcher E1} `{LawfulSystemConfigFetcher E2}.
Context `{Keccak} `{LawfulTxCodec}.
Context (cfg : Config).

(** C33: what a block was built from can be read back from it.  If the builder prepares
    attributes on a parent for an origin, then any block past genesis that consolidates
    with those attributes (whatever follows the prepared transactions) is read as a child
    of the parent, one block time later, with that origin, the number the L1 node gave for
    it, the sequence number zero or the parent's plus one as the origin changed or not, and
    the whole system configuration the attributes were made with: that of the parent, after
    the update events of the origin if the origin changed. *)
Theorem built_block_recovers l2Parent epoch (b b' : FetchingAttributesBuilder E1 E2) attrs block rest :
  fab_PreparePayloadAttributes cfg l2Parent epoch b = (Ok attrs, b') ->
  AttributesMatchBlock (AttributesQueue.set_NoTxPool_Transactions true
    (pa_Transactions attrs ++ rest) attrs) (l2_Hash l2Parent) block = Ok tt ->
  ep_BlockNumber block <> id_Number (gen_L2 (cfg_Genesis cfg)) ->
  exists parentConfig inp,
    SystemConfigByL2Hash (l2_Hash l2Parent) (fab_l2 b) = (Ok parentConfig, fab_l2 b') /\
    inputs_for cfg l2Parent epoch parentConfig inp (fab_l1 b) (fab_l1 b') /\
    PayloadToSystemConfig block cfg = Ok (in_sysConfig inp) /\
    pa_GasLimit attrs = Some (GasLimit (in_sysConfig inp)) /\
    PayloadToBlockRef block (cfg_Genesis cfg) = Ok (mkL2BlockRef
      (ep_BlockHash block) (ep_BlockNumber block) (l2_Hash l2Parent) (l2_Time l2Parent +u BlockTime cfg)
      (mkBlockID (id_Hash epoch) (bi_NumberU64 (in_l1Info inp)))
      (if decide (id_Number (l2_L1Origin l2Parent) = id_Number epoch)
       then l2_SequenceNumber l2Parent +u 1 else 0)).
Proof.
  intros Hprep Hmatch Hgen.
  apply PreparePayloadAttributes_ok in Hprep as (s0 & inp & Hs0 & Hin & Ht & tx & Htx & ->).
  exists s0, inp. split; [done|]. split; [done|]. apply SystemConfigByL2Hash_wf in Hs0.
  apply AttributesMatchBlock_fields in Hmatch as (Hp & Hts & _ & Htxs & Hgl).
  cbn [AttributesQueue.set_NoTxPool_Transactions pa_Timestamp pa_Transactions pa_GasLimit app] in *.
  assert (Hwf : honest_info (id_Hash epoch) (in_l1Info inp) /\ sysconfig_wf (in_sysConfig inp) /\
    is_u64 (in_seqNumber inp) /\ in_seqNumber inp =
      (if decide (id_Number (l2_L1Origin l2Parent) = id_Number epoch)
       then l2_SequenceNumber l2Parent +u 1 else 0)).
  { inversion Hin as [info receipts deps s' e e' Hne Hf _ _ Hc|info e e' He Hf]; subst; cbn.
    - split_and!; [by eapply lrf_FetchReceipts_honest|by eapply config_events_wf|by_decide|].
      by rewrite decide_False.
    - split_and!; [by eapply InfoByHash_honest|done|apply u64_range|]. by rewrite decide_True. }
  destruct Hwf as ((Hh & Hhash & Hn & Htm & Hbf) & (Ha & Ho & Hsc & Hg) & Hsn & Hsn').
  assert (Hinfo : l1_info_wf (l1_info_of (in_seqNumber inp) (in_l1Info inp) (in_sysConfig inp))).
  { split; try done. cbn. by rewrite Hh. }
  pose proof (payload_l1_info_deposit block _ _ _ _ _ _ Htx Hinfo (eq_sym Htxs)) as Hl1.
  unfold PayloadToBlockRef, PayloadToSystemConfig. rewrite Hl1.
  destruct (Z.eqb_spec (ep_BlockNumber block) (id_Number (gen_L2 (cfg_Genesis cfg)))); [done|].
  injection Hgl as Hgl. cbn. rewrite <- Hgl, <- Hp, <- Hts, Hh, Hsn'. by destruct (in_sysConfig inp).
Qed.
End BuildAndRead.

(** ** Examples *)
Module AttributesExamples.
Import ToyGeth.

(** Nodes that know every hash in range. *)
Definition toy_info (h : Hash) : BlockInfo := mkBlockInfo h (h - 1) 5 60 9 7.

#[export] Instance toy_receipts_fetcher : L1ReceiptsFetcher unit :=
  {| InfoByHash := fun h => if bool_decide (0 <= h < 256 ^ 32) then ret (toy_info h) else throw NotFound;
     lrf_FetchReceipts := fun h =>
       if bool_decide (0 <= h < 256 ^ 32) then ret (toy_info h, []) else throw NotFound |}.

#[export] Instance toy_receipts_fetcher_lawful : LawfulL1ReceiptsFetcher unit.
Proof.
  split; simpl; intros h e; [intros info e'|intros info receipts e'];
    (case_bool_decide as Hh; [|done]); intros [= <- <-]; unfold honest_info; cbn;
    (split_and!; [done|apply Hh|by_decide..]).
Qed.

#[export] Instance toy_config_fetcher : SystemConfigL2Fetcher unit :=
  {| SystemConfigByL2Hash := fun _ => ret (mkSystemConfig 77 1 2 30000000) |}.

#[export] Instance toy_config_fetcher_lawful : LawfulSystemConfigFetcher unit.
Proof. split. simpl. intros h e s e' [= <- <-]. split_and!; by_decide. Qed.

Definition toy_cfg : Config :=
  mkConfig (mkGenesis (mkBlockID 100 0) (mkBlockID 2 0) 1000 (mkSystemConfig 77 1 1 1))
    2 600 3600 300 (Some 1) (Some 10) None 3 4 5.

Definition toy_parent : L2BlockRef := mkL2BlockRef 900 30 899 64 (mkBlockID 105 5) 2.
Definition toy_fab : FetchingAttributesBuilder unit unit := mkFetchingBuilder tt tt.

Definition toy_attrs : PayloadAttributes :=
  match (fab_PreparePayloadAttributes toy_cfg toy_parent (mkBlockID 105 5) toy_fab).1 with
  | Ok attrs => attrs
  | _ => mkAttributes 0 0 0 [] false None
  end.

(** A block made of the attributes and one batch transaction. *)
Definition toy_block : ExecutionPayload :=
  mkPayload 900 SequencerFeeVaultAddr 0 0 [] 9 31 30000000 0 66 [] 0 901
    (pa_Transactions toy_attrs ++ [[Byte.x02]]).

Lemma built_block_recovers_witness :
  exists parentConfig inp,
    SystemConfigByL2Hash (l2_Hash toy_parent) (fab_l2 toy_fab) = (Ok parentConfig, fab_l2 toy_fab) /\
    inputs_for toy_cfg toy_parent (mkBlockID 105 5) parentConfig inp (fab_l1 toy_fab) (fab_l1 toy_fab) /\
    PayloadToSystemConfig toy_block toy_cfg = Ok (in_sysConfig inp) /\
    pa_GasLimit toy_attrs = Some (GasLimit (in_sysConfig inp)) /\
    PayloadToBlockRef toy_block (cfg_Genesis toy_cfg) = Ok (mkL2BlockRef
      (ep_BlockHash toy_block) (ep_BlockNumber toy_block) 900 (64 +u 2)
      (mkBlockID 105 (bi_NumberU64 (in_l1Info inp))) (if decide (5 = 5) then 2 +u 1 else 0)).
Proof.
  apply (built_block_recovers toy_cfg toy_parent (mkBlockID 105 5) toy_fab toy_fab toy_attrs toy_block
    [[Byte.x02]]); [vm_compute; reflexivity|vm_compute; reflexivity|by_decide].
Defined.

(** A batch provider with one batch for the toy parent, and one that fails. *)
#[export] Instance toy_batches : NextSafeBatchProvider (list BatchData) :=
  {| nsb_NextBatch := fun _ s =>
       match s with [] => (Err EOF, []) | b :: bs => (Ok b, bs) end;
     nsb_Origin := fun _ => zeroL1 |}.

Definition toy_batch : BatchData := mkBatchData (mkBatchV1 900 5 105 66 [[Byte.x02]]).
Definition toy_aq : AttributesQueue.t (FetchingAttributesBuilder unit unit) (list BatchData) :=
  AttributesQueue.new toy_fab [toy_batch].

#[export] Instance toy_builder : AttributesBuilder (FetchingAttributesBuilder unit unit) :=
  fab_builder toy_cfg.

Lemma NextAttributes_keeps_batch_witness :
  let aq' := (AttributesQueue.NextAttributes toy_cfg toy_parent toy_aq).2 in
  AttributesQueue.prev aq' = [] /\ AttributesQueue.batch aq' = None /\
  b_ParentHash (bd_V1 toy_batch) = 900 /\ b_Timestamp (bd_V1 toy_batch) = 64 +u 2 /\
  exists prepared,
    PreparePayloadAttributes toy_parent (Epoch (bd_V1 toy_batch)) toy_fab =
      (Ok prepared, AttributesQueue.builder aq') /\
    AttributesQueue.set_NoTxPool_Transactions true (pa_Transactions toy_attrs ++ [[Byte.x02]]) toy_attrs =
    AttributesQueue.set_NoTxPool_Transactions true
      (pa_Transactions prepared ++ b_Transactions (bd_V1 toy_batch)) prepared.
Proof.
  intros aq'.
  destruct (NextAttributes_keeps_batch toy_cfg toy_parent toy_aq
    (Ok (AttributesQueue.set_NoTxPool_Transactions true (pa_Transactions toy_attrs ++ [[Byte.x02]]) toy_attrs))
    aq') as (H1 & H2 & H3 & H4 & H5); [vm_compute; reflexivity|].
  split_and!; assumption.
Defined.
End AttributesExamples.
