(* ===== verification/Heap.v ===== *)
(** * The binary heap of Go's standard library

    [container/heap] over a slice, as [op-node/rollup/derive/payloads_queue.go] uses it:
    [heap.Push] and [heap.Pop] sift an element up or down by swapping it with its
    parent or its smaller child. *)
From S2P Require Import Prelude.

Section Heap.
Context {A : Type} `{Inhabited A}.
(** [Less i j] compares keys. *)
Context (key : A -> Z).

Definition Less (l : list A) (i j : nat) : bool := (key (l !!! i) <? key (l !!! j))%Z.
Definition Swap (i j : nat) (l : list A) : list A := <[i := l !!! j]> (<[j := l !!! i]> l).

(** The parent of a position; the root is its own parent, as in Go, where [(0 - 1) / 2]
    is zero. *)
Definition parent (j : nat) : nat := (j - 1) / 2.

(** [up]: every step moves to a smaller position, so the position is enough fuel. *)
Fixpoint up (fuel j : nat) (l : list A) : list A :=
  match fuel with
  | O => l
  | S fuel' =>
      let i := parent j in
      if (i =? j)%nat || negb (Less l j i) then l else up fuel' i (Swap i j l)
  end.

(** [down] among the first [n] elements; the position grows, so [n] is enough fuel. *)
Fixpoint down (fuel i n : nat) (l : list A) : list A :=
  match fuel with
  | O => l
  | S fuel' =>
      let j1 := (2 * i + 1)%nat in
      if (n <=? j1)%nat then l else
      let j2 := (j1 + 1)%nat in
      let j := if (j2 <? n)%nat && Less l j2 j1 then j2 else j1 in
      if negb (Less l j i) then l else down fuel' j n (Swap i j l)
  end.

(** [heap.Push] and [heap.Pop]. *)
Definition heap_Push (x : A) (l : list A) : list A :=
  up (S (length l)) (length l) (l ++ [x]).

Definition heap_Pop (l : list A) : option (A * list A) :=
  match l with
  | [] => None
  | _ =>
      let n := (length l - 1)%nat in
      let l' := down (S n) 0 n (Swap 0 n l) in
      Some (l' !!! n, take n l')
  end.

(** ** The heap order *)

(** Among the first [n] elements no child has a smaller key than its parent. *)
Definition heap_ordered (l : list A) (n : nat) : Prop :=
  forall k, (0 < k < n)%nat -> (key (l !!! parent k) <= key (l !!! k))%Z.

Lemma parent_children k : (0 < k)%nat -> k = (2 * parent k + 1)%nat \/ k = (2 * parent k + 2)%nat.
Proof.
  intros Hk. unfold parent. pose proof (Nat.div_mod (k - 1) 2 ltac:(lia)).
  pose proof (Nat.mod_upper_bound (k - 1) 2 ltac:(lia)). lia.
Qed.

Lemma parent_le k : (parent k <= k)%nat.
Proof. unfold parent. apply Nat.Div0.div_le_upper_bound. lia. Qed.

Lemma length_Swap i j l : length (Swap i j l) = length l.
Proof. unfold Swap. by rewrite !length_insert. Qed.

Lemma lookup_Swap i j l k : (i < length l)%nat -> (j < length l)%nat ->
  Swap i j l !!! k = if decide (k = i) then l !!! j else if decide (k = j) then l !!! i else l !!! k.
Proof.
  intros Hi Hj. unfold Swap. repeat case_decide; subst.
  - by rewrite list_lookup_total_insert_eq by (by rewrite length_insert).
  - rewrite list_lookup_total_insert_ne by done. by rewrite list_lookup_total_insert_eq.
  - by rewrite !list_lookup_total_insert_ne.
Qed.

Lemma Swap_perm i j l : (i < length l)%nat -> (j < length l)%nat -> Swap i j l ≡ₚ l.
Proof.
  intros Hi Hj. unfold Swap. destruct (decide (i = j)) as [->|Hne].
  - by rewrite list_insert_insert_eq, list_insert_id by (by apply list_lookup_lookup_total_lt).
  - pose proof (list_lookup_lookup_total_lt l i Hi) as Ei.
    pose proof (list_lookup_lookup_total_lt l j Hj) as Ej.
    apply Permutation_inj. split; [by rewrite !length_insert|].
    exists (fun k => if decide (k = i) then j else if decide (k = j) then i else k). split.
    + intros x y. repeat case_decide; lia.
    + intros k. repeat case_decide; subst.
      * rewrite list_lookup_insert_eq by (by rewrite length_insert). done.
      * rewrite list_lookup_insert_ne, list_lookup_insert_eq by (rewrite ?length_insert; done). done.
      * rewrite !list_lookup_insert_ne by done. done.
Qed.

Lemma up_perm fuel j l : (j < length l)%nat -> up fuel j l ≡ₚ l /\ length (up fuel j l) = length l.
Proof.
  revert j l. induction fuel as [|fuel IH]; intros j l Hj; cbn [up]; [done|].
  destruct (_ || _); [done|].
  assert (parent j < length l)%nat by (pose proof (parent_le j); lia).
  destruct (IH (parent j) (Swap (parent j) j l)) as [Hp Hl]; [by rewrite length_Swap|].
  rewrite Hl, length_Swap. split; [|done]. rewrite Hp. by apply Swap_perm.
Qed.

(** Sifting up repairs an order that is broken at one position only. *)
Lemma up_ordered fuel j l :
  (j < fuel)%nat -> (j < length l)%nat ->
  (forall k, (0 < k < length l)%nat -> k <> j -> (key (l !!! parent k) <= key (l !!! k))%Z) ->
  (forall k, (0 < k < length l)%nat -> parent k = j -> (0 < j)%nat ->
     (key (l !!! parent j) <= key (l !!! k))%Z) ->
  heap_ordered (up fuel j l) (length l).
Proof.
  revert j l. induction fuel as [|fuel IH]; intros j l Hf Hj H1 H2; [lia|]. cbn [up].
  destruct (Nat.eqb_spec (parent j) j) as [Hz|Hnz]; cbn [orb].
  { intros k Hk. apply H1; [done|]. intros ->. destruct (parent_children j); lia. }
  unfold Less. destruct (Z.ltb_spec (key (l !!! j)) (key (l !!! parent j))) as [Hlt|Hge]; cbn [negb].
  2:{ intros k Hk. destruct (decide (k = j)) as [->|]; [lia|]. by apply H1. }
  assert (Hj0 : (0 < j)%nat) by (destruct j; [by destruct Hnz|lia]).
  pose proof (parent_children j Hj0) as Hpj.
  rewrite <- (length_Swap (parent j) j l). set (i := parent j) in *.
  assert (Hi : (i < j)%nat) by lia.
  apply IH; rewrite ?length_Swap; [lia|lia| |]; intros k Hk; pose proof (parent_children k ltac:(lia)) as Hpk;
    rewrite !lookup_Swap by lia.
  - intros Hki. pose proof (H1 k Hk) as Hk1.
    destruct (decide (k = j)) as [->|Hkj].
    + fold i. rewrite decide_True by done. case_decide; lia.
    + specialize (Hk1 Hkj). rewrite (decide_False (P := k = i)) by done.
      destruct (decide (parent k = i)) as [E|E]; [rewrite E in Hk1; lia|].
      destruct (decide (parent k = j)) as [E'|E']; [|done]. by apply H2.
  - intros Hpi Hi0. pose proof (parent_children i Hi0).
    rewrite (decide_False (P := parent i = i)), (decide_False (P := parent i = j)) by lia.
    assert (key (l !!! parent i) <= key (l !!! i))%Z by (apply H1; lia).
    rewrite (decide_False (P := k = i)) by lia.
    destruct (decide (k = j)) as [->|Hkj]; [done|].
    pose proof (H1 k Hk Hkj) as Hk1. rewrite Hpi in Hk1. lia.
Qed.

Lemma down_perm fuel i n l :
  (i < n)%nat \/ n = 0%nat -> (n <= length l)%nat ->
  down fuel i n l ≡ₚ l /\ length (down fuel i n l) = length l /\
  (forall k, (n <= k)%nat -> down fuel i n l !!! k = l !!! k).
Proof.
  revert i l. induction fuel as [|fuel IH]; intros i l Hi Hn; cbn [down]; [done|].
  destruct (Nat.leb_spec n (2 * i + 1)); [done|].
  set (j := if (2 * i + 1 + 1 <? n)%nat && Less l (2 * i + 1 + 1) (2 * i + 1) then (2 * i + 1 + 1)%nat else (2 * i + 1)%nat).
  assert (Hj : (i < j < n)%nat).
  { unfold j. destruct (Nat.ltb_spec (2 * i + 1 + 1) n), (Less l (2 * i + 1 + 1) (2 * i + 1)); simpl; lia. }
  destruct (negb _); [done|].
  destruct (IH j (Swap i j l)) as (Hp & Hl & Hk); [lia|by rewrite length_Swap|].
  rewrite Hl, length_Swap. split; [rewrite Hp; apply Swap_perm; lia|]. split; [done|].
  intros k Hkn. rewrite Hk, lookup_Swap by lia. by rewrite !decide_False by lia.
Qed.

(** Sifting down repairs an order that is broken below one position only. *)
Lemma down_ordered fuel i n l :
  (n < i + fuel)%nat -> (i < n)%nat \/ n = 0%nat -> (n <= length l)%nat ->
  (forall k, (0 < k < n)%nat -> parent k <> i -> (key (l !!! parent k) <= key (l !!! k))%Z) ->
  (forall k, (0 < k < n)%nat -> parent k = i -> (0 < i)%nat ->
     (key (l !!! parent i) <= key (l !!! k))%Z) ->
  heap_ordered (down fuel i n l) n.
Proof.
  revert i l. induction fuel as [|fuel IH]; intros i l Hf Hi Hn H1 H2.
  { intros k Hk. lia. }
  cbn [down]. destruct (Nat.leb_spec n (2 * i + 1)) as [Hleaf|Hchild].
  { intros k Hk. apply H1; [done|]. pose proof (parent_children k). lia. }
  set (j := if (2 * i + 1 + 1 <? n)%nat && Less l (2 * i + 1 + 1) (2 * i + 1) then (2 * i + 1 + 1)%nat else (2 * i + 1)%nat).
  assert (Hj : (j = 2 * i + 1 \/ j = 2 * i + 2)%nat /\ (j < n)%nat /\
    forall k, (0 < k < n)%nat -> parent k = i -> (key (l !!! j) <= key (l !!! k))%Z).
  { unfold j, Less. destruct (Nat.ltb_spec (2 * i + 1 + 1) n); cbn [andb].
    - destruct (Z.ltb_spec (key (l !!! (2 * i + 1 + 1)%nat)) (key (l !!! (2 * i + 1)%nat)));
        (split; [lia|]; split; [lia|]); intros k Hk Hpk;
        (destruct (parent_children k) as [E|E]; [lia|..]; rewrite E, Hpk;
         replace (2 * i + 2)%nat with (2 * i + 1 + 1)%nat by lia; lia).
    - split; [lia|]. split; [lia|]. intros k Hk Hpk.
      destruct (parent_children k) as [E|E]; [lia| |lia]. rewrite E, Hpk. lia. }
  clearbody j. destruct Hj as (Hj & Hjn & Hmin).
  assert (Hpj : parent j = i) by (destruct (parent_children j); lia).
  unfold Less. destruct (Z.ltb_spec (key (l !!! j)) (key (l !!! i))) as [Hlt|Hge]; cbn [negb].
  2:{ intros k Hk. destruct (decide (parent k = i)) as [E|]; [|by apply H1].
      rewrite E. pose proof (Hmin k Hk E). lia. }
  apply IH; rewrite ?length_Swap; [lia|lia|lia| |]; intros k Hk;
    pose proof (parent_children k ltac:(lia)) as Hpk; rewrite !lookup_Swap by lia.
  - intros Hkj. destruct (decide (parent k = i)) as [E|E].
    + rewrite (decide_False (P := k = i)) by lia. pose proof (Hmin k Hk E).
      case_decide; [lia|done].
    + rewrite (decide_False (P := parent k = j)) by done.
      destruct (decide (k = i)) as [->|Hki]; [apply H2; lia|].
      rewrite decide_False by lia. by apply H1.
  - intros Hkj _. rewrite Hpj, (decide_True (P := i = i)) by done.
    rewrite !decide_False by lia. rewrite <- Hkj. apply H1; lia.
Qed.

(** ** Push and Pop *)

Lemma heap_Push_spec x l :
  heap_ordered l (length l) ->
  heap_ordered (heap_Push x l) (length (heap_Push x l)) /\ heap_Push x l ≡ₚ x :: l.
Proof.
  intros Hh. unfold heap_Push.
  destruct (up_perm (S (length l)) (length l) (l ++ [x])) as [Hp Hl]; [rewrite length_app; simpl; lia|].
  rewrite Hl. split; [|rewrite Hp; by rewrite Permutation_app_comm].
  apply up_ordered; rewrite ?length_app; cbn [length]; [lia|lia| |]; intros k Hk;
    pose proof (parent_children k ltac:(lia)).
  - intros Hne. rewrite !lookup_total_app_l by lia. apply Hh. lia.
  - intros Hpk. lia.
Qed.

Lemma heap_ordered_root l : heap_ordered l (length l) ->
  forall k, (k < length l)%nat -> (key (l !!! 0%nat) <= key (l !!! k))%Z.
Proof.
  intros Hh k. induction (lt_wf k) as [k _ IH]. intros Hk.
  destruct (decide (k = 0%nat)) as [->|]; [lia|].
  pose proof (parent_children k ltac:(lia)). specialize (IH (parent k) ltac:(lia) ltac:(lia)).
  specialize (Hh k ltac:(lia)). lia.
Qed.

Lemma heap_Pop_spec l :
  heap_ordered l (length l) -> l <> [] ->
  exists rest, heap_Pop l = Some (l !!! 0%nat, rest) /\ heap_ordered rest (length rest) /\
    l ≡ₚ (l !!! 0%nat) :: rest /\ Forall (fun y => (key (l !!! 0%nat) <= key y)%Z) rest.
Proof.
  intros Hh Hne.
  assert (Hlen : (0 < length l)%nat) by (destruct l; [done|simpl; lia]).
  assert (Hdef : heap_Pop l = (let n := (length l - 1)%nat in
    let l' := down (S n) 0 n (Swap 0 n l) in Some (l' !!! n, take n l'))) by (by destruct l).
  rewrite Hdef. cbv zeta. clear Hdef. set (n := (length l - 1)%nat).
  destruct (down_perm (S n) 0 n (Swap 0 n l)) as (Hp & Hl & Hk); [lia|rewrite length_Swap; lia|].
  rewrite length_Swap in Hl. set (l' := down (S n) 0 n (Swap 0 n l)) in *.
  assert (Hlast : l' !!! n = l !!! 0%nat).
  { rewrite Hk, lookup_Swap by lia. case_decide as E; [by rewrite E|]. by rewrite decide_True. }
  assert (Hord : heap_ordered l' n).
  { apply down_ordered; rewrite ?length_Swap; [lia|lia|lia| |lia].
    intros k Hkn Hpk. pose proof (parent_children k ltac:(lia)).
    rewrite !lookup_Swap by lia. rewrite !decide_False by lia. apply Hh. lia. }
  assert (Hperm : l ≡ₚ (l !!! 0%nat) :: take n l').
  { rewrite <- Hlast, Permutation_cons_append.
    rewrite <- take_S_r by (apply list_lookup_lookup_total_lt; lia).
    rewrite firstn_all2 by lia. rewrite Hp. symmetry. apply Swap_perm; lia. }
  rewrite Hlast. exists (take n l'). split; [done|]. split; [|split; [done|]].
  - rewrite length_take. replace (n `min` length l')%nat with n by lia.
    intros k Hkn. pose proof (parent_children k ltac:(lia)).
    rewrite !lookup_total_take_lt by lia. by apply Hord.
  - apply Forall_forall. intros y Hy.
    assert (y ∈ l) as [k Hky]%list_elem_of_lookup by (rewrite Hperm; by right).
    pose proof (lookup_lt_Some _ _ _ Hky). apply list_lookup_total_correct in Hky as <-.
    by apply heap_ordered_root.
Qed.
End Heap.
