(* ===== verification/PayloadsQueue.v ===== *)
(** * The queue of unsafe payloads

    [op-node/rollup/derive/payloads_queue.go]: payloads received from the network,
    ordered by block number in a binary heap, with a bound on their total size and a
    set of the block hashes to refuse duplicates. *)
From S2P Require Import Prelude GoErrors GoBytes EthTypes Heap.
#[local] Open Scope Z_scope.

Record payloadAndSize := mkPS { ps_payload : ExecutionPayload; ps_size : Z }.

Definition zero_payload : ExecutionPayload := mkPayload 0 0 0 0 [] 0 0 0 0 0 [] 0 0 [].
#[export] Instance payloadAndSize_inhabited : Inhabited payloadAndSize := populate (mkPS zero_payload 0).

(** [payloadsByNumber.Less] compares block numbers. *)
Definition ps_key (ps : payloadAndSize) : Z := ep_BlockNumber (ps_payload ps).

Definition payloadMemFixedCost : Z := 800.
Definition payloadTxMemOverhead : Z := 24.

(** [payloadMemSize]. *)
Definition payloadMemSize (p : option ExecutionPayload) : Z :=
  match p with
  | None => payloadMemFixedCost
  | Some p =>
      foldl (fun out tx => out +u (u64 (Z.of_nat (length tx)) +u payloadTxMemOverhead))
        payloadMemFixedCost (ep_Transactions p)
  end.

Record PayloadsQueue := mkPayloadsQueue {
  pq : list payloadAndSize;
  currentSize : Z;
  MaxSize : Z;
  blockHashes : gset Hash;
  SizeFn : ExecutionPayload -> Z }.

(** [NewPayloadsQueue]. *)
Definition NewPayloadsQueue (maxSize : Z) (sizeFn : ExecutionPayload -> Z) : PayloadsQueue :=
  mkPayloadsQueue [] 0 maxSize ∅ sizeFn.

(** [PayloadsQueue.Len] and [PayloadsQueue.MemSize]. *)
Definition pq_Len (upq : PayloadsQueue) : Z := Z.of_nat (length (pq upq)).
Definition MemSize (upq : PayloadsQueue) : Z := currentSize upq.

(** [PayloadsQueue.Peek]. *)
Definition Peek (upq : PayloadsQueue) : option ExecutionPayload :=
  match pq upq with
  | [] => None
  | ps :: _ => Some (ps_payload ps)
  end.

(** [PayloadsQueue.Pop]. *)
Definition Pop (upq : PayloadsQueue) : option ExecutionPayload * PayloadsQueue :=
  match heap_Pop ps_key (pq upq) with
  | None => (None, upq)
  | Some (ps, rest) =>
      (Some (ps_payload ps),
       mkPayloadsQueue rest (currentSize upq -u ps_size ps) (MaxSize upq)
         (blockHashes upq ∖ {[ ep_BlockHash (ps_payload ps) ]}) (SizeFn upq))
  end.

(** The eviction loop of [Push]; [None] when it does not end, which would happen on an
    empty queue whose counter exceeds the limit. *)
Fixpoint evict (fuel : nat) (upq : PayloadsQueue) : option PayloadsQueue :=
  if MaxSize upq <? currentSize upq then
    match fuel with
    | O => None
    | S fuel' => evict fuel' (Pop upq).2
    end
  else Some upq.

(** [PayloadsQueue.Push]. *)
Definition Push (p : option ExecutionPayload) (upq : PayloadsQueue)
    : option (result unit * PayloadsQueue) :=
  match p with
  | None => Some (Err (ErrNew "cannot add nil payload"), upq)
  | Some p =>
      if bool_decide (ep_BlockHash p ∈ blockHashes upq) then
        Some (Err (ErrNew "cannot add duplicate payload"), upq)
      else
        let size := SizeFn upq p in
        if MaxSize upq <? size then
          Some (Err (ErrNew "cannot add payload, larger than max queue size"), upq)
        else
          let upq1 := mkPayloadsQueue (heap_Push ps_key (mkPS p size) (pq upq))
                        (currentSize upq +u size) (MaxSize upq) (blockHashes upq) (SizeFn upq) in
          match evict (length (pq upq1)) upq1 with
          | None => None
          | Some upq2 =>
              Some (Ok tt,
                mkPayloadsQueue (pq upq2) (currentSize upq2) (MaxSize upq2)
                  ({[ ep_BlockHash p ]} ∪ blockHashes upq2) (SizeFn upq2))
          end
  end.

Lemma payloadMemSize_nonneg p : 0 <= payloadMemSize p.
Proof.
  unfold payloadMemSize. destruct p as [p|]; [|done].
  assert (0 <= payloadMemFixedCost) as H0 by done. revert H0. generalize payloadMemFixedCost.
  induction (ep_Transactions p) as [|tx txs IH]; intros z Hz; cbn [foldl]; [done|].
  apply IH. apply u64_range.
Qed.

(** ** The invariant *)

Definition queued_hashes (l : list payloadAndSize) : list Hash := (fun ps => ep_BlockHash (ps_payload ps)) <$> l.

#[export] Instance queued_hashes_Proper : Proper ((≡ₚ) ==> (≡ₚ)) queued_hashes.
Proof. intros l k Hp. unfold queued_hashes. by rewrite Hp. Qed.

(** The facts that hold throughout, also in the middle of [Push]. *)
Record pq_ok (upq : PayloadsQueue) : Prop := {
  po_heap : heap_ordered ps_key (pq upq) (length (pq upq));
  po_sizes : Forall (fun ps => ps_size ps = SizeFn upq (ps_payload ps) /\ 0 <= ps_size ps) (pq upq);
  po_current : currentSize upq = sumZ (ps_size <$> pq upq);
  po_small : currentSize upq < two64;
  po_max : 0 <= MaxSize upq;
  po_distinct : NoDup (queued_hashes (pq upq)) }.

Record pq_inv (upq : PayloadsQueue) : Prop := {
  pi_ok : pq_ok upq;
  pi_bound : currentSize upq <= MaxSize upq;
  pi_double : 2 * MaxSize upq < two64;
  pi_known : list_to_set (queued_hashes (pq upq)) ⊆ blockHashes upq }.

Lemma NewPayloadsQueue_inv maxSize sizeFn :
  0 <= maxSize -> 2 * maxSize < two64 -> pq_inv (NewPayloadsQueue maxSize sizeFn).
Proof.
  intros H0 H1. split; [split|..]; simpl; try done; try constructor.
Qed.

(** What [Pop] does. *)
Lemma Pop_spec upq :
  pq_ok upq -> pq upq <> [] ->
  exists ps rest, Pop upq = (Some (ps_payload ps),
      mkPayloadsQueue rest (currentSize upq - ps_size ps) (MaxSize upq)
        (blockHashes upq ∖ {[ ep_BlockHash (ps_payload ps) ]}) (SizeFn upq)) /\
    Peek upq = Some (ps_payload ps) /\ pq upq ≡ₚ ps :: rest /\
    Forall (fun q => ps_key ps <= ps_key q) rest /\ pq_ok (Pop upq).2.
Proof.
  intros [Hh Hs Hc Hsm Hm Hd] Hne.
  destruct (heap_Pop_spec ps_key (pq upq) Hh Hne) as (rest & Hp & Hr & Hperm & Hmin).
  set (ps := pq upq !!! 0%nat) in *. exists ps, rest.
  rewrite Hperm in Hs, Hc, Hd. apply Forall_cons in Hs as [[Hsz Hsz0] Hs].
  cbn [fmap list_fmap sumZ foldr queued_hashes] in Hc. apply NoDup_cons in Hd as [_ Hd].
  assert (0 <= sumZ (ps_size <$> rest)).
  { apply sumZ_nonneg, Forall_fmap. eapply Forall_impl; [exact Hs|]. intros q Hq. apply Hq. }
  fold (sumZ (ps_size <$> rest)) in Hc.
  unfold Pop. rewrite Hp, u64_small by lia. cbn [fst snd]. split_and!; try done.
  - unfold Peek, ps. by destruct (pq upq).
  - split; cbn [pq currentSize MaxSize SizeFn]; try done; lia.
Qed.

(** The eviction loop ends, and removes lowest numbers first. *)
Lemma evict_spec fuel upq :
  pq_ok upq -> (length (pq upq) <= fuel)%nat ->
  exists upq' evicted, evict fuel upq = Some upq' /\ pq_ok upq' /\
    currentSize upq' <= MaxSize upq' /\ MaxSize upq' = MaxSize upq /\ SizeFn upq' = SizeFn upq /\
    pq upq ≡ₚ evicted ++ pq upq' /\
    Forall (fun e => Forall (fun q => ps_key e <= ps_key q) (pq upq')) evicted /\
    blockHashes upq' = blockHashes upq ∖ list_to_set (queued_hashes evicted) /\
    (evicted <> [] -> MaxSize upq < currentSize upq).
Proof.
  revert upq. induction fuel as [|fuel IH]; intros upq Hok Hf; cbn [evict].
  - assert (pq upq = []) as Hnil by (destruct (pq upq); [done|simpl in Hf; lia]).
    pose proof (po_current _ Hok) as Hc. rewrite Hnil in Hc. simpl in Hc. pose proof (po_max _ Hok).
    case_if; [lia|]. exists upq, []. split_and!; try done; set_solver.
  - case_if; [|exists upq, []; split_and!; try done; set_solver].
    assert (pq upq <> []) as Hne.
    { intros Hnil. pose proof (po_current _ Hok) as Hc. rewrite Hnil in Hc. simpl in Hc.
      pose proof (po_max _ Hok). lia. }
    destruct (Pop_spec upq Hok Hne) as (ps & rest & Hp & _ & Hperm & Hmin & Hok').
    rewrite Hp in Hok' |- *. cbn [snd] in *.
    destruct (IH _ Hok') as (u' & ev & -> & Hok'' & Hb & Hmx & Hsf & Hpm & Hlow & Hbh & _).
    { cbn [pq]. apply Permutation_length in Hperm. simpl in Hperm. lia. }
    cbn [pq MaxSize SizeFn blockHashes] in *.
    exists u', (ps :: ev). split_and!; try done.
    + by rewrite Hperm, Hpm.
    + constructor; [|done]. rewrite Hpm in Hmin. by apply Forall_app in Hmin as [_ ?].
    + rewrite Hbh. cbn [queued_hashes fmap list_fmap list_to_set]. set_solver.
Qed.

(** The state of [Push] after the heap insertion. *)
Lemma inserted_ok p upq :
  pq_inv upq -> ep_BlockHash p ∉ blockHashes upq -> 0 <= SizeFn upq p <= MaxSize upq ->
  pq_ok (mkPayloadsQueue (heap_Push ps_key (mkPS p (SizeFn upq p)) (pq upq))
           (currentSize upq +u SizeFn upq p) (MaxSize upq) (blockHashes upq) (SizeFn upq)) /\
  heap_Push ps_key (mkPS p (SizeFn upq p)) (pq upq) ≡ₚ mkPS p (SizeFn upq p) :: pq upq /\
  currentSize upq +u SizeFn upq p = currentSize upq + SizeFn upq p.
Proof.
  intros [[Hh Hs Hc Hsm Hm Hd] Hb H2 Hk] Hnew Hsz.
  destruct (heap_Push_spec ps_key (mkPS p (SizeFn upq p)) (pq upq) Hh) as [Hh' Hp].
  assert (Hc0 : 0 <= currentSize upq).
  { rewrite Hc. apply sumZ_nonneg, Forall_fmap. eapply Forall_impl; [exact Hs|]. intros q Hq. apply Hq. }
  assert (Hadd : currentSize upq +u SizeFn upq p = currentSize upq + SizeFn upq p)
    by (apply u64_small; lia).
  split_and!; [|done|done]. split; cbn [pq currentSize MaxSize SizeFn]; try done.
  - rewrite Hp. constructor; [cbn; lia|done].
  - rewrite Hadd, Hp, Hc. cbn. unfold sumZ. lia.
  - rewrite Hadd. lia.
  - rewrite Hp. cbn [queued_hashes fmap list_fmap]. apply NoDup_cons. split; [|done].
    intros Hin. apply Hnew, Hk. by apply elem_of_list_to_set.
Qed.

Lemma Push_accepted p upq :
  pq_inv upq -> ep_BlockHash p ∉ blockHashes upq -> 0 <= SizeFn upq p <= MaxSize upq ->
  exists upq' evicted, Push (Some p) upq = Some (Ok tt, upq') /\ pq_inv upq' /\
    MaxSize upq' = MaxSize upq /\ SizeFn upq' = SizeFn upq /\
    mkPS p (SizeFn upq p) :: pq upq ≡ₚ evicted ++ pq upq' /\
    Forall (fun e => Forall (fun q => ps_key e <= ps_key q) (pq upq')) evicted /\
    blockHashes upq' = {[ ep_BlockHash p ]} ∪ blockHashes upq ∖ list_to_set (queued_hashes evicted) /\
    (evicted <> [] -> MaxSize upq < currentSize upq + SizeFn upq p).
Proof.
  intros Hinv Hnew Hsz. destruct (inserted_ok p upq Hinv Hnew Hsz) as (Hok & Hperm & Hadd).
  destruct (evict_spec _ _ Hok (le_n _)) as (u & ev & He & Hok' & Hb & Hmx & Hsf & Hp & Hlow & Hbh & Hev).
  cbn [pq MaxSize SizeFn blockHashes currentSize] in *. rewrite Hperm in Hp. rewrite Hadd in Hev.
  unfold Push. rewrite bool_decide_eq_false_2 by done.
  destruct (Z.ltb_spec (MaxSize upq) (SizeFn upq p)); [lia|]. cbv zeta. cbn [pq]. rewrite He.
  eexists _, ev. split; [done|]. cbn [pq MaxSize SizeFn blockHashes currentSize].
  split; [|rewrite Hbh; done].
  split; cbn [pq MaxSize SizeFn blockHashes currentSize]; [by destruct Hok'; split|done| |].
  - rewrite Hmx. apply Hinv.
  - intros h [q [-> Hq]]%elem_of_list_to_set%list_elem_of_fmap. rewrite Hbh.
    assert (q ∈ mkPS p (SizeFn upq p) :: pq upq) as [->|Hq']%elem_of_cons
      by (rewrite Hp; apply elem_of_app; by right); [set_solver|].
    apply elem_of_union_r, elem_of_difference. split.
    + apply (pi_known _ Hinv), elem_of_list_to_set, list_elem_of_fmap. by exists q.
    + intros [q' [Heq Hq'']]%elem_of_list_to_set%list_elem_of_fmap.
      pose proof (po_distinct _ Hok) as Hnd. cbn [pq] in Hnd. rewrite Hperm, Hp in Hnd.
      unfold queued_hashes in Hnd. rewrite fmap_app in Hnd. apply NoDup_app in Hnd as (_ & Hdis & _).
      apply (Hdis (ep_BlockHash (ps_payload q'))); [apply list_elem_of_fmap; by exists q'|].
      rewrite <- Heq. apply list_elem_of_fmap. by exists q.
Qed.

(** Pushing keeps the queue well formed and within its memory limit, and always
    returns.  From a state that satisfies the invariant (heap order, the counter is the
    sum of the sizes and at most [MaxSize], no block twice, every queued hash known), a
    push either is refused and changes nothing, exactly when the hash is known or the
    payload alone exceeds the limit, or adds the payload and evicts payloads with the
    lowest block numbers until the limit holds, and only then. *)
Theorem Push_spec p upq :
  pq_inv upq -> 0 <= SizeFn upq p ->
  exists r upq', Push (Some p) upq = Some (r, upq') /\ pq_inv upq' /\
    (if decide (ep_BlockHash p ∈ blockHashes upq \/ MaxSize upq < SizeFn upq p)
     then (exists e, r = Err e) /\ upq' = upq
     else r = Ok tt /\ exists evicted,
       mkPS p (SizeFn upq p) :: pq upq ≡ₚ evicted ++ pq upq' /\
       Forall (fun e => Forall (fun q => ps_key e <= ps_key q) (pq upq')) evicted /\
       (evicted <> [] -> MaxSize upq < currentSize upq + SizeFn upq p)).
Proof.
  intros Hinv Hsz. case_decide as Hd.
  - unfold Push. case_bool_decide as Hk.
    + do 2 eexists. split; [done|]. split; [done|]. split; [by eexists|done].
    + destruct Hd as [?|Hd]; [done|]. apply Z.ltb_lt in Hd as ->.
      do 2 eexists. split; [done|]. split; [done|]. split; [by eexists|done].
  - destruct (Push_accepted p upq Hinv) as (u & ev & Hp & Hi & _ & _ & H1 & H2 & _ & H3);
      [naive_solver|destruct (decide (MaxSize upq < SizeFn upq p)); [naive_solver|lia]|].
    exists (Ok tt), u. split_and!; [done..|]. by exists ev.
Qed.

Lemma Pop_inv upq ps rest :
  pq_inv upq -> Pop upq = (Some (ps_payload ps),
      mkPayloadsQueue rest (currentSize upq - ps_size ps) (MaxSize upq)
        (blockHashes upq ∖ {[ ep_BlockHash (ps_payload ps) ]}) (SizeFn upq)) ->
  pq upq ≡ₚ ps :: rest -> pq_ok (Pop upq).2 -> pq_inv (Pop upq).2.
Proof.
  intros [Hok Hb H2 Hk] Hpop Hperm Hok'. split; [done|..]; rewrite Hpop;
    cbn [snd pq currentSize MaxSize blockHashes].
  - pose proof (po_sizes _ Hok) as Hs. rewrite Hperm in Hs. apply Forall_cons in Hs as [[_ ?] _]. lia.
  - done.
  - pose proof (po_distinct _ Hok) as Hd. rewrite Hperm in Hd. apply NoDup_cons in Hd as [Hn _].
    intros h Hh%elem_of_list_to_set. apply elem_of_difference. split.
    + apply Hk. rewrite elem_of_list_to_set, Hperm. by right.
    + rewrite elem_of_singleton. by intros ->.
Qed.

(** [Pop] keeps the invariant and the configuration on every queue. *)
Lemma Pop_keeps upq :
  pq_inv upq ->
  pq_inv (Pop upq).2 /\ MaxSize (Pop upq).2 = MaxSize upq /\ SizeFn (Pop upq).2 = SizeFn upq.
Proof.
  intros Hinv. destruct (decide (pq upq = [])) as [Hnil|Hne].
  { assert (Pop upq = (None, upq)) as -> by (unfold Pop; by rewrite Hnil). done. }
  destruct (Pop_spec upq (pi_ok _ Hinv) Hne) as (ps & rest & Hp & _ & Hperm & _ & Hok').
  split; [by eapply Pop_inv|]. by rewrite Hp.
Qed.

(** The eviction never empties a queue whose payloads all fit. *)
Lemma evict_nonempty fuel upq upq' :
  pq_ok upq -> pq upq <> [] -> Forall (fun ps => ps_size ps <= MaxSize upq) (pq upq) ->
  evict fuel upq = Some upq' -> pq upq' <> [].
Proof.
  revert upq. induction fuel as [|fuel IH]; intros upq Hok Hne Hs; cbn [evict];
    (case_if; [|by intros [= <-]]); [done|].
  destruct (Pop_spec upq Hok Hne) as (ps & rest & Hp & _ & Hperm & _ & Hok'). rewrite Hp in Hok' |- *.
  cbn [snd] in *. rewrite Hperm in Hs. apply Forall_cons in Hs as [Hps Hs].
  apply (IH _ Hok'); [|done]. cbn [pq]. intros ->.
  pose proof (po_current _ Hok) as Hc. rewrite Hperm in Hc. cbn in Hc. lia.
Qed.

Lemma sizes_fit upq : pq_inv upq -> Forall (fun ps => ps_size ps <= MaxSize upq) (pq upq).
Proof.
  intros Hinv. apply Forall_forall. intros ps Hin.
  pose proof (pi_bound _ Hinv) as Hb. rewrite (po_current _ (pi_ok _ Hinv)) in Hb.
  pose proof (po_sizes _ (pi_ok _ Hinv)) as Hs.
  apply list_elem_of_split in Hin as (l1 & l2 & Heq). rewrite Heq in Hb, Hs.
  rewrite fmap_app, fmap_cons in Hb.
  assert (forall l, Forall (fun ps => ps_size ps = SizeFn upq (ps_payload ps) /\ 0 <= ps_size ps) l ->
    0 <= sumZ (ps_size <$> l)) as Hnn.
  { intros l Hl. apply sumZ_nonneg, Forall_fmap. eapply Forall_impl; [exact Hl|]. intros q Hq. apply Hq. }
  apply Forall_app in Hs as [H1%Hnn [_ H2%Hnn]%Forall_cons]. rewrite sumZ_app in Hb.
  cbn in Hb. fold (sumZ (ps_size <$> l2)) in Hb. lia.
Qed.

(** A push always returns, keeps the invariant and the configuration, and leaves a
    non-empty queue when it succeeds. *)
Lemma Push_total p upq :
  pq_inv upq -> 0 <= SizeFn upq p ->
  exists r upq', Push (Some p) upq = Some (r, upq') /\ pq_inv upq' /\ MaxSize upq' = MaxSize upq /\ SizeFn upq' = SizeFn upq /\
    match r with Ok _ => Peek upq' <> None | Err _ => upq' = upq | Panic => False end.
Proof.
  intros Hinv Hsz. destruct (decide (ep_BlockHash p ∈ blockHashes upq)) as [Hk|Hk].
  { unfold Push. rewrite bool_decide_eq_true_2 by done. do 2 eexists. by split_and!. }
  destruct (decide (MaxSize upq < SizeFn upq p)) as [Hb|Hb].
  { unfold Push. rewrite bool_decide_eq_false_2 by done. apply Z.ltb_lt in Hb as ->.
    do 2 eexists. by split_and!. }
  destruct (Push_accepted p upq Hinv Hk) as (u & ev & Hp & Hi & Hm & Hf & _); [lia|].
  exists (Ok tt), u. split_and!; try done.
  destruct (inserted_ok p upq Hinv Hk) as (Hok & Hperm & _); [lia|].
  unfold Push in Hp. rewrite bool_decide_eq_false_2 in Hp by done.
  destruct (Z.ltb_spec (MaxSize upq) (SizeFn upq p)); [lia|]. cbv zeta in Hp.
  destruct (evict _ _) as [u'|] eqn:Ee; [|done]. injection Hp as <-.
  apply evict_nonempty in Ee; cbn [pq MaxSize] in *; [|done|intros Hnil; rewrite Hnil in Hperm; by apply Permutation_nil_cons in Hperm|].
  - unfold Peek. cbn [pq]. by destruct (pq u').
  - rewrite Hperm. constructor; [cbn; lia|by apply sizes_fit].
Qed.

(** Payloads leave the queue in order of block number: on a non-empty queue that
    satisfies the invariant, [Peek] and [Pop] return the same payload, its number is
    the lowest, [Pop] removes exactly this payload, and the invariant is kept. *)
Theorem Pop_takes_lowest upq :
  pq_inv upq -> pq upq <> [] ->
  exists ps upq', Pop upq = (Some (ps_payload ps), upq') /\ Peek upq = Some (ps_payload ps) /\
    pq upq ≡ₚ ps :: pq upq' /\
    Forall (fun q => ep_BlockNumber (ps_payload ps) <= ep_BlockNumber (ps_payload q)) (pq upq') /\
    pq_inv upq'.
Proof.
  intros Hinv Hne. destruct (Pop_spec upq (pi_ok _ Hinv) Hne) as (ps & rest & Hp & Hpk & Hperm & Hmin & Hok').
  pose proof (Pop_inv upq ps rest Hinv Hp Hperm Hok') as Hi. rewrite Hp in Hi.
  exists ps. eexists. split_and!; done.
Qed.

(** Dropping the first payload again and again. *)
Definition pops (n : nat) (upq : PayloadsQueue) : PayloadsQueue := Nat.iter n (fun q => (Pop q).2) upq.

Lemma pops_inv h n upq :
  pq_inv upq -> h ∈ blockHashes upq -> h ∉ queued_hashes (pq upq) ->
  pq_inv (pops n upq) /\ h ∈ blockHashes (pops n upq) /\ h ∉ queued_hashes (pq (pops n upq)).
Proof.
  intros Hinv Hin Hout. induction n as [|n (IHi & IHin & IHout)]; [done|].
  change (pops (S n) upq) with (Pop (pops n upq)).2. destruct (decide (pq (pops n upq) = [])) as [Hnil|Hne].
  { assert (Pop (pops n upq) = (None, pops n upq)) as -> by (unfold Pop; by rewrite Hnil). done. }
  destruct (Pop_spec _ (pi_ok _ IHi) Hne) as (ps & rest & Hp & _ & Hperm & _ & Hok').
  split; [by eapply Pop_inv|]. rewrite Hp. cbn [snd pq blockHashes].
  rewrite Hperm in IHout. apply not_elem_of_cons in IHout as [Hh Hr].
  split; [|done]. apply elem_of_difference. split; [done|]. by rewrite elem_of_singleton.
Qed.

(** A payload that is evicted by its own push is refused from then on.  When the
    pushed payload has the lowest number and the queue is full, the push reports
    success although the payload is evicted at once, its hash is recorded after the
    eviction, and every later push of the same block fails as a duplicate, even when
    other payloads have been popped and there is room again. *)
Theorem evicted_push_refused p upq :
  pq_inv upq -> ep_BlockHash p ∉ blockHashes upq ->
  0 <= SizeFn upq p <= MaxSize upq -> MaxSize upq < currentSize upq + SizeFn upq p ->
  Forall (fun q => ep_BlockNumber p < ep_BlockNumber (ps_payload q)) (pq upq) ->
  exists upq', Push (Some p) upq = Some (Ok tt, upq') /\
    (ep_BlockHash p ∉ queued_hashes (pq upq')) /\
    (forall n, Push (Some p) (pops n upq') =
       Some (Err (ErrNew "cannot add duplicate payload"), pops n upq')).
Proof.
  intros Hinv Hnew Hsz Hfull Hlow.
  destruct (Push_accepted p upq Hinv Hnew Hsz) as (u & ev & Hp & Hi & Hmx & Hsf & Hperm & Hev & Hbh & _).
  exists u. split; [done|].
  assert (Hout : ep_BlockHash p ∉ queued_hashes (pq u)).
  { assert (Hnd : NoDup (queued_hashes (ev ++ pq u))).
    { rewrite <- Hperm. cbn. apply NoDup_cons. split; [|apply Hinv].
      intros Hin. apply Hnew, (pi_known _ Hinv), elem_of_list_to_set, Hin. }
    destruct ev as [|e ev].
    - (* nothing evicted: the total would exceed the limit *)
      pose proof (po_current _ (pi_ok _ Hi)) as Hc. pose proof (pi_bound _ Hi) as Hb.
      rewrite Hc, Hmx, <- (app_nil_l (pq u)), <- Hperm in Hb. cbn in Hb. fold (sumZ (ps_size <$> pq upq)) in Hb.
      rewrite <- (po_current _ (pi_ok _ Hinv)) in Hb. lia.
    - intros [q [Heq Hq]]%list_elem_of_fmap.
      assert (q ∈ mkPS p (SizeFn upq p) :: pq upq) as [->|Hq']%elem_of_cons
        by (rewrite Hperm; apply elem_of_app; by right).
      + assert (e ∈ mkPS p (SizeFn upq p) :: pq upq) as [->|He]%elem_of_cons by (rewrite Hperm; by left).
        * unfold queued_hashes in Hnd. rewrite fmap_app in Hnd. apply NoDup_app in Hnd as (_ & Hdis & _).
          apply (Hdis (ep_BlockHash p)); [by left|]. apply list_elem_of_fmap. by eexists.
        * apply Forall_cons in Hev as [Hev _]. rewrite Forall_forall in Hev, Hlow.
          specialize (Hev _ Hq). specialize (Hlow _ He). unfold ps_key in Hev. cbn in Hev. lia.
      + apply Hnew, (pi_known _ Hinv), elem_of_list_to_set, list_elem_of_fmap. by exists q. }
  split; [done|]. intros n.
  destruct (pops_inv (ep_BlockHash p) n u Hi) as (_ & Hin & _); [rewrite Hbh; set_solver|done|].
  unfold Push. by rewrite bool_decide_eq_true_2.
Qed.

(** ** Examples *)
Module PayloadsQueueExamples.

Definition payload_n (n : Z) : ExecutionPayload := mkPayload (99 + n) 0 0 0 [] 0 n 0 0 0 [] 0 (100 + n) [].

(** Room for two payloads of a fixed size, holding numbers 2 and 3. *)
Definition full_queue : PayloadsQueue :=
  mkPayloadsQueue [mkPS (payload_n 2) 10; mkPS (payload_n 3) 10] 20 25 {[ 102; 103 ]} (fun _ => 10).

Lemma full_queue_inv : pq_inv full_queue.
Proof.
  split; [split|..]; simpl; try done.
  - intros k Hk. assert (k = 1)%nat as -> by (simpl in Hk; lia). cbn. lia.
  - repeat constructor; simpl; lia.
  - by_decide.
Qed.

Lemma Push_spec_witness :
  exists r upq', Push (Some (payload_n 4)) full_queue = Some (r, upq') /\ pq_inv upq' /\
    (if decide (104 ∈ blockHashes full_queue \/ 25 < 10)
     then (exists e, r = Err e) /\ upq' = full_queue
     else r = Ok tt /\ exists evicted,
       mkPS (payload_n 4) 10 :: pq full_queue ≡ₚ evicted ++ pq upq' /\
       Forall (fun e => Forall (fun q => ps_key e <= ps_key q) (pq upq')) evicted /\
       (evicted <> [] -> 25 < 20 + 10)).
Proof. apply (Push_spec (payload_n 4) full_queue); [apply full_queue_inv|simpl; lia]. Defined.

Lemma Pop_takes_lowest_witness :
  exists ps upq', Pop full_queue = (Some (ps_payload ps), upq') /\
    Peek full_queue = Some (ps_payload ps) /\ pq full_queue ≡ₚ ps :: pq upq' /\
    Forall (fun q => ep_BlockNumber (ps_payload ps) <= ep_BlockNumber (ps_payload q)) (pq upq') /\
    pq_inv upq'.
Proof. apply (Pop_takes_lowest full_queue); [apply full_queue_inv|done]. Defined.

Lemma evicted_push_refused_witness :
  exists upq', Push (Some (payload_n 1)) full_queue = Some (Ok tt, upq') /\
    (101 ∉ queued_hashes (pq upq')) /\
    (forall n, Push (Some (payload_n 1)) (pops n upq') =
       Some (Err (ErrNew "cannot add duplicate payload"), pops n upq')).
Proof.
  apply (evicted_push_refused (payload_n 1) full_queue); [apply full_queue_inv| | | |].
  - by_decide.
  - simpl. lia.
  - simpl. lia.
  - repeat constructor; simpl; lia.
Defined.
End PayloadsQueueExamples.
