(* ===== verification/EngineUpdate.v ===== *)
(** * Building and inserting blocks through the engine API

    [op-node/rollup/derive/engine_update.go] and the [Engine] interface of
    [engine_queue.go].  The execution engine is an environment: its calls are code over
    a state [E]. *)
From S2P Require Import Prelude GoErrors GoBytes EthTypes Geth.
#[local] Open Scope Z_scope.

(** [eth.BlockLabel]. *)
Inductive BlockLabel := Unsafe | Safe | Finalized.

(** [Engine]. *)
Class Engine (E : Type) := {
  eng_GetPayload : Z -> M E ExecutionPayload;
  eng_ForkchoiceUpdate : ForkchoiceState -> option PayloadAttributes -> M E ForkchoiceUpdatedResult;
  eng_NewPayload : ExecutionPayload -> M E ExecutePayloadStatus;
  eng_PayloadByHash : Hash -> M E ExecutionPayload;
  eng_PayloadByNumber : Z -> M E ExecutionPayload;
  eng_L2BlockRefByLabel : BlockLabel -> M E L2BlockRef;
  eng_L2BlockRefByHash : Hash -> M E L2BlockRef;
  eng_SystemConfigByL2Hash : Hash -> M E SystemConfig }.

(** ** Sanity checks of a payload *)

(** [isDepositTx]. *)
Definition isDepositTx (opaqueTx : Data) : result bool :=
  match opaqueTx with
  | [] => Err (ErrNew "empty transaction")
  | ty :: _ => Ok (bool_decide (ty = DepositTxType))
  end.

(** The loop of [lastDeposit], at index [i] with the last index found. *)
Fixpoint last_deposit_loop (i last : nat) (txns : list Data) : result nat :=
  match txns with
  | [] => Ok last
  | tx :: txns' =>
      match isDepositTx tx with
      | Err _ => Err (ErrNew "invalid transaction")
      | Panic => Panic
      | Ok deposit => if deposit : bool then last_deposit_loop (S i) i txns' else Ok last
      end
  end.

(** [lastDeposit]. *)
Definition lastDeposit (txns : list Data) : result nat := last_deposit_loop 0 0 txns.

(** The final loop of [sanityCheckPayload]. *)
Fixpoint no_later_deposit (txns : list Data) : result unit :=
  match txns with
  | [] => Ok tt
  | tx :: txns' =>
      let? deposit := map_err (ErrWrap "failed to decode transaction") (isDepositTx tx) in
      if deposit : bool then Err (ErrNew "deposit tx after other tx in l2 block")
      else no_later_deposit txns'
  end.

(** [sanityCheckPayload]; it indexes the first byte of the first transaction. *)
Definition sanityCheckPayload (payload : ExecutionPayload) : result unit :=
  match ep_Transactions payload with
  | [] => Err (ErrNew "no transactions in returned payload")
  | [] :: _ => Panic
  | (ty :: _) :: _ =>
      if bool_decide (ty <> DepositTxType) then Err (ErrNew "first transaction was not deposit tx") else
      let? last := map_err (ErrWrap "failed to find last deposit") (lastDeposit (ep_Transactions payload)) in
      no_later_deposit (drop (S last) (ep_Transactions payload))
  end.

(** ** Insertion *)

Inductive BlockInsertionErrType :=
  | BlockInsertOK
  | BlockInsertTemporaryErr
  | BlockInsertPrestateErr
  | BlockInsertPayloadErr.

#[export] Instance BlockInsertionErrType_eq_dec : EqDecision BlockInsertionErrType.
Proof. solve_decision. Defined.

(** The results [(value, errType, err)] of the insertion functions: a value (with
    [BlockInsertOK] and no error), or an error with its type. *)
Definition insertion (A : Type) : Type := A + (BlockInsertionErrType * error).
Definition inserted {S A} (a : A) : M S (insertion A) := ret (inl a).
Definition not_inserted {S A} (errType : BlockInsertionErrType) (err : error) : M S (insertion A) :=
  ret (inr (errType, err)).

(** The severity of a failed forkchoice update of [StartPayload]. *)
Definition start_payload_err (err : error) : BlockInsertionErrType * error :=
  match errors_As_InputError err with
  | Some (code, inner) =>
      if code =? InvalidForkchoiceState then
        (BlockInsertPrestateErr, ErrWrap "pre-block-creation forkchoice update was inconsistent" inner)
      else if code =? InvalidPayloadAttributes then
        (BlockInsertPayloadErr, ErrWrap "payload attributes are not valid, cannot build block" inner)
      else (BlockInsertPrestateErr, ErrWrap "unexpected error code in forkchoice-updated response" err)
  | None => (BlockInsertTemporaryErr, ErrWrap "failed to create new block via forkchoice" err)
  end.

(** The severity of a failed forkchoice update of [ConfirmPayload]. *)
Definition confirm_payload_err (err : error) : BlockInsertionErrType * error :=
  match errors_As_InputError err with
  | Some (code, inner) =>
      if code =? InvalidForkchoiceState then
        (BlockInsertPayloadErr, ErrWrap "post-block-creation forkchoice update was inconsistent" inner)
      else (BlockInsertPrestateErr, ErrWrap "unexpected error code in forkchoice-updated response" err)
  | None => (BlockInsertTemporaryErr, ErrWrap "failed to make the new L2 block canonical via forkchoice" err)
  end.

(** [eth.ForkchoiceUpdateErr] and [eth.NewPayloadErr]: errors that name the status. *)
Definition ForkchoiceUpdateErr (s : ExecutePayloadStatus) : error := ErrNew "forkchoice update".
Definition NewPayloadErr (p : ExecutionPayload) (s : ExecutePayloadStatus) : error := ErrNew "new payload".

Section EngineUpdate.
Context {E : Type} `{Engine E}.

(** [StartPayload]. *)
Definition StartPayload (fc : ForkchoiceState) (attrs : PayloadAttributes) : M E (insertion Z) :=
  fcRes <- attempt (eng_ForkchoiceUpdate fc (Some attrs)) ;;
  match fcRes with
  | inr err => ret (inr (start_payload_err err))
  | inl fcRes =>
      match PayloadStatus fcRes with
      | ExecutionInvalid | ExecutionInvalidBlockHash =>
          not_inserted BlockInsertPayloadErr (ForkchoiceUpdateErr (PayloadStatus fcRes))
      | ExecutionValid =>
          match PayloadID fcRes with
          | None => not_inserted BlockInsertTemporaryErr (ErrNew "nil id in forkchoice result")
          | Some id => inserted id
          end
      | _ => not_inserted BlockInsertTemporaryErr (ForkchoiceUpdateErr (PayloadStatus fcRes))
      end
  end.

(** The last part of [ConfirmPayload], once the payload was accepted. *)
Definition make_canonical (fc : ForkchoiceState) (payload : ExecutionPayload) (updateSafe : bool)
    : M E (insertion ExecutionPayload) :=
  let fc' := mkForkchoiceState (ep_BlockHash payload)
               (if updateSafe then ep_BlockHash payload else SafeBlockHash fc)
               (FinalizedBlockHash fc) in
  fcRes <- attempt (eng_ForkchoiceUpdate fc' None) ;;
  match fcRes with
  | inr err => ret (inr (confirm_payload_err err))
  | inl fcRes =>
      if bool_decide (PayloadStatus fcRes <> ExecutionValid)
      then not_inserted BlockInsertPayloadErr (ForkchoiceUpdateErr (PayloadStatus fcRes))
      else inserted payload
  end.

(** [ConfirmPayload]. *)
Definition ConfirmPayload (fc : ForkchoiceState) (id : Z) (updateSafe : bool)
    : M E (insertion ExecutionPayload) :=
  payload <- attempt (eng_GetPayload id) ;;
  match payload with
  | inr err => not_inserted BlockInsertTemporaryErr (ErrWrap "failed to get execution payload" err)
  | inl payload =>
      match sanityCheckPayload payload with
      | Panic => lift Panic
      | Err err => not_inserted BlockInsertPayloadErr err
      | Ok _ =>
          status <- attempt (eng_NewPayload payload) ;;
          match status with
          | inr err => not_inserted BlockInsertTemporaryErr (ErrWrap "failed to insert execution payload" err)
          | inl status =>
              if bool_decide (status = ExecutionInvalid) || bool_decide (status = ExecutionInvalidBlockHash) then
                not_inserted BlockInsertPayloadErr (NewPayloadErr payload status)
              else if bool_decide (status <> ExecutionValid) then
                not_inserted BlockInsertTemporaryErr (NewPayloadErr payload status)
              else make_canonical fc payload updateSafe
          end
      end
  end.
End EngineUpdate.

(** ** Lemmas *)

Definition deposit_tx (tx : Data) : Prop := exists d, tx = DepositTxType :: d.
Definition other_tx (tx : Data) : Prop := exists ty d, tx = ty :: d /\ ty <> DepositTxType.

Lemma isDepositTx_true tx : isDepositTx tx = Ok true <-> deposit_tx tx.
Proof.
  unfold deposit_tx. destruct tx as [|ty d]; simpl; [naive_solver|].
  case_bool_decide; subst; split; try done; [by eexists|]. by intros [? [= -> _]].
Qed.

Lemma isDepositTx_false tx : isDepositTx tx = Ok false <-> other_tx tx.
Proof.
  unfold other_tx. destruct tx as [|ty d]; simpl; [naive_solver|].
  case_bool_decide; subst; split; try done; [by intros (? & ? & [= -> ->] & ?)|]. by eexists _, _.
Qed.

Lemma no_later_deposit_iff txns : no_later_deposit txns = Ok tt <-> Forall other_tx txns.
Proof.
  induction txns as [|tx txns IH]; cbn [no_later_deposit]; [by split|].
  rewrite Forall_cons, <- isDepositTx_false, <- IH.
  destruct (isDepositTx tx) as [[]|e|]; cbn [map_err]; naive_solver.
Qed.

Lemma last_deposit_loop_spec i last txns n :
  last_deposit_loop i last txns = Ok n ->
  exists deps rest, txns = deps ++ rest /\ Forall deposit_tx deps /\
    (forall tx rest', rest = tx :: rest' -> other_tx tx) /\
    n = (match length deps with O => last | S k => i + k end)%nat.
Proof.
  revert i last. induction txns as [|tx txns IH]; intros i last; cbn [last_deposit_loop].
  { intros [= <-]. by exists [], []. }
  destruct (isDepositTx tx) as [[]|e|] eqn:Et; [| |done..].
  - intros (deps & rest & -> & Hd & Hr & ->)%IH. exists (tx :: deps), rest.
    split_and!; [done| |done|].
    + constructor; [by apply isDepositTx_true|done].
    + simpl. destruct (length deps); lia.
  - intros [= <-]. exists [], (tx :: txns). split_and!; [done..| |done].
    intros ? ? [= <- <-]. by apply isDepositTx_false.
Qed.

Lemma last_deposit_loop_deps i last deps rest :
  Forall deposit_tx deps -> Forall other_tx rest ->
  last_deposit_loop i last (deps ++ rest) = Ok (match length deps with O => last | S k => i + k end)%nat.
Proof.
  intros Hd Hr. revert i last. induction Hd as [|tx deps Ht Hd IH]; intros i last; cbn [app last_deposit_loop].
  - destruct Hr as [|tx rest Ht Hr]; cbn [last_deposit_loop]; [done|].
    apply isDepositTx_false in Ht. by rewrite Ht.
  - apply isDepositTx_true in Ht. rewrite Ht, IH. f_equal. simpl. destruct (length deps); lia.
Qed.

Lemma sanityCheck_iff payload :
  sanityCheckPayload payload = Ok tt <->
  exists deps rest, ep_Transactions payload = deps ++ rest /\ deps <> [] /\
    Forall deposit_tx deps /\ Forall other_tx rest.
Proof.
  unfold sanityCheckPayload. split.
  - destruct (ep_Transactions payload) as [|[|ty d] txs] eqn:Et; [done..|].
    case_bool_decide as Hty; [done|].
    assert (ty = DepositTxType) as -> by (by destruct (decide (ty = DepositTxType))).
    destruct (lastDeposit _) as [n|e|] eqn:El; cbn [map_err]; [|done..].
    apply last_deposit_loop_spec in El as (deps & rest & Heq & Hd & Hr & Hn).
    destruct deps as [|dep deps].
    { exfalso. destruct rest as [|tx rest]; [done|]. destruct (Hr tx rest eq_refl) as (? & ? & -> & ?).
      simpl in Heq. congruence. }
    cbn [length] in Hn. intros Hl%no_later_deposit_iff.
    exists (dep :: deps), rest. split_and!; [done..|]. rewrite Heq in Hl.
    rewrite drop_app_exact in Hl; [done|]. simpl. lia.
  - intros (deps & rest & Heq & Hne & Hd & Hr). rewrite Heq.
    destruct Hd as [|dep deps Hdep Hd]; [done|]. pose proof Hdep as [d ->]. cbn [app].
    rewrite bool_decide_eq_false_2 by (by intros []).
    unfold lastDeposit. change ((DepositTxType :: d) :: deps ++ rest) with (((DepositTxType :: d) :: deps) ++ rest).
    rewrite last_deposit_loop_deps by (done || by constructor). cbn [map_err length].
    rewrite drop_app_exact by (simpl; lia). by apply no_later_deposit_iff.
Qed.

(** A payload passes the sanity check exactly when its transactions are one or more
    deposits followed by non-empty transactions that are not deposits; the check panics
    exactly when the first transaction is the empty byte string. *)
Theorem sanityCheckPayload_iff payload :
  (sanityCheckPayload payload = Ok tt <->
   exists deps rest, ep_Transactions payload = deps ++ rest /\ deps <> [] /\
     Forall deposit_tx deps /\ Forall other_tx rest) /\
  (sanityCheckPayload payload = Panic <-> exists rest, ep_Transactions payload = [] :: rest).
Proof.
  split; [apply sanityCheck_iff|]. unfold sanityCheckPayload.
  destruct (ep_Transactions payload) as [|[|ty d] txs]; [naive_solver|naive_solver|].
  split; [|by intros [? [=]]]. case_bool_decide; [done|].
  assert (Hl : forall i last t, last_deposit_loop i last t <> Panic).
  { intros i last t. revert i last. induction t as [|[|y e] t IH]; intros i last; cbn; try done.
    case_bool_decide; [apply IH|done]. }
  assert (Hn : forall t, no_later_deposit t <> Panic).
  { intros t. induction t as [|[|y e] t IH]; cbn; try done. by case_bool_decide. }
  unfold lastDeposit. specialize (Hl 0%nat 0%nat ((ty :: d) :: txs)).
  destruct (last_deposit_loop _ _ _) as [n|e|]; cbn [map_err]; [|done..].
  intros Hp. by apply Hn in Hp.
Qed.

Section ConfirmProperties.
Context {E : Type} `{Engine E}.

Lemma ConfirmPayload_inserted fc id updateSafe e payload e' :
  ConfirmPayload fc id updateSafe e = (Ok (inl payload), e') <->
  exists e1 e2 res,
    eng_GetPayload id e = (Ok payload, e1) /\ sanityCheckPayload payload = Ok tt /\
    eng_NewPayload payload e1 = (Ok ExecutionValid, e2) /\
    eng_ForkchoiceUpdate (mkForkchoiceState (ep_BlockHash payload)
      (if updateSafe then ep_BlockHash payload else SafeBlockHash fc) (FinalizedBlockHash fc)) None e2
      = (Ok res, e') /\ PayloadStatus res = ExecutionValid.
Proof.
  unfold ConfirmPayload, make_canonical, attempt, bind, ret, lift, not_inserted, inserted. cbv zeta. split.
  - destruct (eng_GetPayload id e) as [[p|err|] e1] eqn:Eg; [|done..].
    destruct (sanityCheckPayload p) as [[]|err|] eqn:Es; [|done..].
    destruct (eng_NewPayload p e1) as [[st|err|] e2] eqn:En; [|done..].
    destruct (_ || _); [done|]. case_bool_decide as Hv; [done|].
    assert (st = ExecutionValid) as -> by (by destruct (decide (st = ExecutionValid))).
    destruct (eng_ForkchoiceUpdate _ _ e2) as [[res|err|] e3] eqn:Ef; [|done..].
    case_bool_decide as Hf; [done|]. intros [= <- <-].
    exists e1, e2, res. split_and!; [done..|]. by destruct (decide (PayloadStatus res = ExecutionValid)).
  - intros (e1 & e2 & res & -> & -> & -> & Hf & Hs).
    rewrite (bool_decide_eq_false_2 (ExecutionValid = ExecutionInvalid)) by done.
    rewrite (bool_decide_eq_false_2 (ExecutionValid = ExecutionInvalidBlockHash)) by done.
    rewrite (bool_decide_eq_false_2 (ExecutionValid <> ExecutionValid)) by (by intros []).
    cbn [orb]. rewrite Hf, Hs. by rewrite bool_decide_eq_false_2 by (by intros []).
Qed.

(** A block is reported as inserted exactly when the engine returned the payload
    for the building job, the payload passed the sanity check, the engine judged it
    valid, and the engine then accepted it as head (and as safe head when asked to)
    with the finalized block unchanged, in this order. *)
Theorem ConfirmPayload_inserts_iff fc id updateSafe e payload e' :
  ConfirmPayload fc id updateSafe e = (Ok (inl payload), e') <->
  exists e1 e2 res,
    eng_GetPayload id e = (Ok payload, e1) /\ sanityCheckPayload payload = Ok tt /\
    eng_NewPayload payload e1 = (Ok ExecutionValid, e2) /\
    eng_ForkchoiceUpdate (mkForkchoiceState (ep_BlockHash payload)
      (if updateSafe then ep_BlockHash payload else SafeBlockHash fc) (FinalizedBlockHash fc)) None e2
      = (Ok res, e') /\ PayloadStatus res = ExecutionValid.
Proof. apply ConfirmPayload_inserted. Qed.
End ConfirmProperties.
