(* ===== verification/SyncStart.v ===== *)
(** * Finding the L2 heads to start from

    [op-node/rollup/sync/start.go]: after a restart or a reorg the node walks the L2
    chain back from the unsafe head until it knows which unsafe, safe and finalized
    heads agree with the L1 chain it sees. *)
From S2P Require Import Prelude GoErrors GoBytes EthTypes EngineUpdate.
#[local] Open Scope Z_scope.

(** [L1Chain] and [L2Chain]: the two nodes, as code over environment states. *)
Class L1Chain (E : Type) := {
  l1c_L1BlockRefByLabel : BlockLabel -> M E L1BlockRef;
  l1c_L1BlockRefByNumber : Z -> M E L1BlockRef;
  l1c_L1BlockRefByHash : Hash -> M E L1BlockRef }.

Class L2Chain (E : Type) := {
  l2c_L2BlockRefByHash : Hash -> M E L2BlockRef;
  l2c_L2BlockRefByLabel : BlockLabel -> M E L2BlockRef }.

#[export] Instance Engine_L2Chain {E} `{Engine E} : L2Chain E :=
  {| l2c_L2BlockRefByHash := eng_L2BlockRefByHash; l2c_L2BlockRefByLabel := eng_L2BlockRefByLabel |}.

Definition MaxReorgSeqWindows : Z := 5.

(** [sync.Config]. *)
Record SyncConfig := mkSyncConfig { EngineSync : bool; SkipSyncStartCheck : bool }.

Record FindHeadsResult := mkHeads {
  fh_Unsafe : L2BlockRef;
  fh_Safe : L2BlockRef;
  fh_Finalized : L2BlockRef }.

Section SyncStart.
Context {E1 E2 : Type} `{L1Chain E1} `{L2Chain E2}.
Context (cfg : Config) (syncCfg : SyncConfig).

(** The two nodes together. *)
Definition nodes : Type := E1 * E2.
Definition l1 {A} (m : M E1 A) : M nodes A := zoom fst (fun e s => (e, s.2)) m.
Definition l2 {A} (m : M E2 A) : M nodes A := zoom snd (fun e s => (s.1, e)) m.

(** [currentHeads]. *)
Definition currentHeads : M nodes FindHeadsResult :=
  fin <- attempt (l2 (l2c_L2BlockRefByLabel Finalized)) ;;
  finalized <- wrapE (ErrWrap "failed to find the finalized L2 block")
    (match fin with
     | inl f => ret f
     | inr err =>
         if errors_Is err NotFound
         then l2 (l2c_L2BlockRefByHash (id_Hash (gen_L2 (cfg_Genesis cfg))))
         else throw err
     end) ;;
  sf <- attempt (l2 (l2c_L2BlockRefByLabel Safe)) ;;
  safe <- (match sf with
           | inl s => ret s
           | inr err =>
               if errors_Is err NotFound then ret finalized
               else throw (ErrWrap "failed to find the safe L2 block" err)
           end) ;;
  unsafe <- wrapE (ErrWrap "failed to find the L2 head block") (l2 (l2c_L2BlockRefByLabel Unsafe)) ;;
  ret (mkHeads unsafe safe finalized).

(** The variables of the loop of [FindL2Heads]. *)
Record walk := mkWalk {
  w_unsafe : L2BlockRef;
  w_safe : L2BlockRef;
  w_finalized : L2BlockRef;
  w_n : L2BlockRef;
  w_highest : L2BlockRef;
  w_l1Block : L1BlockRef;
  w_ahead : bool;
  w_ready : bool }.

Definition result_of (w : walk) : FindHeadsResult := mkHeads (w_unsafe w) (w_safe w) (w_finalized w).

(** The fetch at the start of an iteration: the L1 block at the height of the origin of
    [n], and whether that origin is ahead of L1. *)
Definition fetch_origin (n : L2BlockRef) (l1Block : L1BlockRef) (ahead : bool)
    : M nodes (L1BlockRef * bool) :=
  if id_Hash (l2_L1Origin n) =? l1_ParentHash l1Block then
    b <- wrapE (ErrWrap "failed to retrieve L1 block")
           (l1 (l1c_L1BlockRefByHash (id_Hash (l2_L1Origin n)))) ;;
    ret (b, false)
  else if bool_decide (l1Block = zeroL1) || negb (id_Hash (l2_L1Origin n) =? l1_Hash l1Block) then
    r <- attempt (l1 (l1c_L1BlockRefByNumber (id_Number (l2_L1Origin n)))) ;;
    match r with
    | inl b => ret (b, false)
    | inr err =>
        if negb (errors_Is err NotFound) then throw (ErrWrap "failed to retrieve block from L1" err)
        else ret (zeroL1, true)
    end
  else ret (l1Block, ahead).

(** The checks against the genesis and the finalized block. *)
Definition check_walk (finalized n : L2BlockRef) (l1Block : L1BlockRef) (ahead : bool) : result unit :=
  let g := cfg_Genesis cfg in
  if (l2_Number n =? id_Number (gen_L2 g)) && negb (l2_Hash n =? id_Hash (gen_L2 g)) then
    Err (ErrWrap "L2 genesis" WrongChainErr)
  else if (l2_Number n =? id_Number (gen_L2 g)) && negb ahead
          && negb (l1_Hash l1Block =? id_Hash (gen_L1 g)) then
    Err (ErrWrap "L1 genesis" WrongChainErr)
  else if (l2_Number n =? l2_Number finalized) && negb (l2_Hash n =? l2_Hash finalized) then
    Err (ErrWrap "finalized" ReorgFinalizedErr)
  else Ok tt.

(** The consistency of [n] with its parent. *)
Definition check_parent (n parent : L2BlockRef) (l1Block : L1BlockRef) : result unit :=
  if bool_decide (l2_L1Origin parent <> l2_L1Origin n) then
    if negb (id_Number (l2_L1Origin parent) +u 1 =? id_Number (l2_L1Origin n)) then
      Err (ErrNew "l2 parent has L1 origin that is not before")
    else if negb (l2_SequenceNumber n =? 0) then
      Err (ErrNew "different L1 origin, but non-zero sequence number")
    else if (l1_Hash l1Block =? id_Hash (l2_L1Origin n))
            && negb (l1_ParentHash l1Block =? id_Hash (l2_L1Origin parent)) then
      Err (ErrNew "parent L2 block has unexpected origin")
    else Ok tt
  else if negb (l2_SequenceNumber parent +u 1 =? l2_SequenceNumber n) then
    Err (ErrNew "sequence number inconsistency")
  else Ok tt.

(** One iteration of the loop: it ends with a result, or goes on. *)
Definition walk_step (prevUnsafe : L2BlockRef) (w : walk) : M nodes (walk + FindHeadsResult) :=
  let n := w_n w in
  fetched <- fetch_origin n (w_l1Block w) (w_ahead w) ;;
  let '(l1Block, ahead) := fetched in
  lift (check_walk (w_finalized w) n l1Block ahead) ;;;
  let reset := bool_decide (w_unsafe w = zeroL2) in
  let unsafe := if reset then n else w_unsafe w in
  if reset && (id_Number (l2_L1Origin n) +u (MaxReorgSeqWindows *u SeqWindowSize cfg)
               <? id_Number (l2_L1Origin prevUnsafe)) then
    throw (ErrWrap "traversed back too deep" TooDeepReorgErr)
  else
    let canonical := l1_Hash l1Block =? id_Hash (l2_L1Origin n) in
    let '(unsafe, highest) :=
      if ahead then (unsafe, w_highest w)
      else if canonical then
        (unsafe, if bool_decide (w_highest w = zeroL2) then n else w_highest w)
      else (zeroL2, zeroL2) in
    let ready :=
      w_ready w ||
      ((l2_Number n <=? l2_Number (w_safe w)) &&
       (id_Number (l2_L1Origin n) +u SeqWindowSize cfg <? id_Number (l2_L1Origin highest)) &&
       (l2_SequenceNumber n =? 0)) in
    if l2_Number n =? l2_Number (w_finalized w) then
      ret (inr (mkHeads unsafe n (w_finalized w)))
    else if SkipSyncStartCheck syncCfg && (l2_Hash highest =? l2_Hash n) then
      ret (inl (mkWalk unsafe (w_safe w) (w_finalized w) (w_safe w) highest l1Block ahead ready))
    else
      parent <- wrapE (ErrWrap "failed to fetch L2 block by hash") (l2 (l2c_L2BlockRefByHash (l2_ParentHash n))) ;;
      lift (check_parent n parent l1Block) ;;;
      if ready then ret (inr (mkHeads unsafe parent (w_finalized w)))
      else ret (inl (mkWalk unsafe (w_safe w) (w_finalized w) parent highest l1Block ahead ready)).

(** The loop, with a bound on its iterations; [None] when the bound is reached. *)
Fixpoint walk_back (fuel : nat) (prevUnsafe : L2BlockRef) (w : walk) : M nodes (option FindHeadsResult) :=
  match fuel with
  | O => ret None
  | S fuel' =>
      r <- walk_step prevUnsafe w ;;
      match r with
      | inl w' => walk_back fuel' prevUnsafe w'
      | inr res => ret (Some res)
      end
  end.

(** The variables before the first iteration. *)
Definition start_walk (heads : FindHeadsResult) : walk :=
  mkWalk (fh_Unsafe heads) (fh_Safe heads) (fh_Finalized heads) (fh_Unsafe heads) zeroL2 zeroL1 false false.

(** [FindL2Heads], with at most [fuel] iterations. *)
Definition FindL2Heads (fuel : nat) : M nodes (option FindHeadsResult) :=
  heads <- wrapE (ErrWrap "failed to fetch current L2 forkchoice state") currentHeads ;;
  walk_back fuel (fh_Unsafe heads) (start_walk heads).
End SyncStart.

(** ** The law of an L2 chain

    The blocks the engine answers with have numbers, and the block found by a block's
    parent hash is one lower. *)
Class LawfulL2Chain (E : Type) `{L2Chain E} := {
  is_l2_block : L2BlockRef -> Prop;
  l2_number_nonneg b : is_l2_block b -> 0 <= l2_Number b;
  l2_by_hash_block h e b e' : l2c_L2BlockRefByHash h e = (Ok b, e') -> is_l2_block b;
  l2_by_label_block lbl e b e' : l2c_L2BlockRefByLabel lbl e = (Ok b, e') -> is_l2_block b;
  l2_parent_number n e p e' : is_l2_block n ->
    l2c_L2BlockRefByHash (l2_ParentHash n) e = (Ok p, e') -> l2_Number n = l2_Number p + 1 }.

(** ** Lemmas *)
Section SyncProperties.
Context {E1 E2 : Type} `{L1Chain E1} `{L2Chain E2}.
Context (cfg : Config) (syncCfg : SyncConfig).

Lemma l2_Ok {A} (m : M E2 A) (s : E1 * E2) a (s' : E1 * E2) :
  l2 m s = (Ok a, s') -> m s.2 = (Ok a, s'.2).
Proof. unfold l2, zoom. destruct (m s.2) as [r e]. by intros [= -> <-]. Qed.

(** Without the shortcut an iteration that goes on moves to a block fetched by the
    parent hash of the current one. *)
Lemma walk_step_parent prev w s w' s' :
  SkipSyncStartCheck syncCfg = false ->
  walk_step cfg syncCfg prev w s = (Ok (inl w'), s') ->
  exists e e', l2c_L2BlockRefByHash (l2_ParentHash (w_n w)) e = (Ok (w_n w'), e').
Proof.
  intros Hskip. unfold walk_step. intros ([l1Block ahead] & s1 & _ & Hx)%bind_Ok.
  apply bind_Ok in Hx as ([] & s2 & _ & Hx). case_if_in Hx; [done|].
  destruct (if ahead then _ else _) as [unsafe highest]. rewrite Hskip in Hx. cbn [andb] in Hx.
  case_if_in Hx; [done|].
  apply bind_Ok in Hx as (parent & s3 & Hp%wrapE_Ok%l2_Ok & Hx).
  apply bind_Ok in Hx as ([] & s4 & _ & Hx).
  destruct (w_ready w || _); [done|]. injection Hx as <- <-. cbn [w_n]. eauto.
Qed.

Lemma walk_back_ends `{!LawfulL2Chain E2} fuel prev w s :
  SkipSyncStartCheck syncCfg = false -> is_l2_block (w_n w) -> l2_Number (w_n w) < Z.of_nat fuel ->
  (walk_back cfg syncCfg fuel prev w s).1 <> Ok None.
Proof.
  intros Hskip. revert w s. induction fuel as [|fuel IH]; intros w s Hn Hf.
  { apply l2_number_nonneg in Hn. lia. }
  cbn [walk_back]. unfold bind.
  destruct (walk_step cfg syncCfg prev w s) as [[[w'|res]|err|] s'] eqn:Es; [|done..].
  destruct (walk_step_parent prev w s w' s' Hskip Es) as (e & e' & Hp).
  apply IH; [by eapply l2_by_hash_block|].
  pose proof (l2_parent_number _ _ _ _ Hn Hp). lia.
Qed.

Lemma FindL2Heads_ends `{!LawfulL2Chain E2} fuel s heads s1 :
  SkipSyncStartCheck syncCfg = false ->
  currentHeads cfg s = (Ok heads, s1) ->
  l2_Number (fh_Unsafe heads) < Z.of_nat fuel ->
  (FindL2Heads cfg syncCfg fuel s).1 <> Ok None.
Proof.
  intros Hskip Hh Hf. unfold FindL2Heads, bind, wrapE. rewrite Hh. cbn [map_err].
  apply walk_back_ends; [done| |done]. cbn [start_walk w_n].
  unfold currentHeads in Hh. do 4 (apply bind_Ok in Hh as (? & ? & _ & Hh)).
  apply bind_Ok in Hh as (unsafe & s3 & Hu%wrapE_Ok%l2_Ok & [= <- <-]). by eapply l2_by_label_block.
Qed.

(** Finding the start terminates.  Without the shortcut, over an L2 node whose
    blocks are numbered, the loop ends after at most as many iterations as the number
    of the current unsafe head plus one: with that fuel the search returns a result or
    an error, never the fuel-exhausted outcome. *)
Theorem FindL2Heads_terminates `{!LawfulL2Chain E2} fuel s heads s1 :
  SkipSyncStartCheck syncCfg = false ->
  currentHeads cfg s = (Ok heads, s1) ->
  l2_Number (fh_Unsafe heads) < Z.of_nat fuel ->
  (FindL2Heads cfg syncCfg fuel s).1 <> Ok None.
Proof. apply FindL2Heads_ends. Qed.

(** The block an iteration moves to, and the result it can end with. *)
Lemma walk_step_inv prev w s r s' :
  walk_step cfg syncCfg prev w s = (Ok r, s') ->
  exists unsafe,
    (unsafe = w_n w \/ unsafe = w_unsafe w \/ unsafe = zeroL2) /\
    match r with
    | inr res => fh_Unsafe res = unsafe /\ fh_Finalized res = w_finalized w /\
        ((fh_Safe res = w_n w /\ l2_Number (w_n w) = l2_Number (w_finalized w)) \/
         ((w_ready w = true \/ l2_Number (w_n w) <= l2_Number (w_safe w)) /\
          exists e e', l2c_L2BlockRefByHash (l2_ParentHash (w_n w)) e = (Ok (fh_Safe res), e')))
    | inl w' => w_unsafe w' = unsafe /\ w_safe w' = w_safe w /\ w_finalized w' = w_finalized w /\
        (w_ready w' = true -> w_ready w = true \/ l2_Number (w_n w) <= l2_Number (w_safe w)) /\
        (w_n w' = w_safe w \/
         exists e e', l2c_L2BlockRefByHash (l2_ParentHash (w_n w)) e = (Ok (w_n w'), e'))
    end.
Proof.
  unfold walk_step. intros ([l1Block ahead] & s1 & _ & Hx)%bind_Ok.
  apply bind_Ok in Hx as ([] & s2 & _ & Hx). case_if_in Hx; [done|].
  set (u := if bool_decide (w_unsafe w = zeroL2) then w_n w else w_unsafe w) in *.
  destruct (if ahead then _ else _) as [unsafe highest] eqn:Eu.
  exists unsafe. split.
  { destruct ahead; [|destruct (l1_Hash l1Block =? id_Hash (l2_L1Origin (w_n w)))];
      injection Eu as <- _; unfold u; repeat case_bool_decide; auto. }
  assert (forall c d, w_ready w || ((l2_Number (w_n w) <=? l2_Number (w_safe w)) && c && d) = true ->
    w_ready w = true \/ l2_Number (w_n w) <= l2_Number (w_safe w)) as Hr.
  { intros c d. rewrite orb_true_iff, !andb_true_iff. intros [?|[[?%Z.leb_le _] _]]; auto. }
  case_if_in Hx.
  { injection Hx as <- <-. cbn. split_and!; [done..|]. left. split; [done|]. lia. }
  case_if_in Hx.
  { injection Hx as <- <-. cbn. split_and!; [done..| |by left]. apply Hr. }
  apply bind_Ok in Hx as (parent & s3 & Hp%wrapE_Ok%l2_Ok & Hx).
  apply bind_Ok in Hx as ([] & s4 & _ & Hx).
  destruct (w_ready w || _) eqn:Ery; injection Hx as <- <-; cbn.
  - split_and!; [done..|]. right. split; [by eapply Hr|]. eauto.
  - split_and!; [done..| |by eauto]. done.
Qed.

(** What holds of the variables of the loop: everything stays below the heads it
    started from. *)
Record walk_ok `{!LawfulL2Chain E2} (heads : FindHeadsResult) (w : walk) : Prop := {
  wo_block : is_l2_block (w_n w);
  wo_n : l2_Number (w_n w) <= l2_Number (fh_Unsafe heads);
  wo_unsafe : l2_Number (w_unsafe w) <= l2_Number (fh_Unsafe heads);
  wo_safe : w_safe w = fh_Safe heads;
  wo_finalized : w_finalized w = fh_Finalized heads;
  wo_ready : w_ready w = true -> l2_Number (w_n w) <= l2_Number (fh_Safe heads) }.

Definition heads_below (heads res : FindHeadsResult) : Prop :=
  fh_Finalized res = fh_Finalized heads /\
  l2_Number (fh_Safe res) <= l2_Number (fh_Safe heads) /\
  l2_Number (fh_Unsafe res) <= l2_Number (fh_Unsafe heads).

Lemma walk_back_below `{!LawfulL2Chain E2} heads fuel prev w s res s' :
  is_l2_block (fh_Safe heads) ->
  l2_Number (fh_Finalized heads) <= l2_Number (fh_Safe heads) <= l2_Number (fh_Unsafe heads) ->
  walk_ok heads w -> walk_back cfg syncCfg fuel prev w s = (Ok (Some res), s') ->
  heads_below heads res.
Proof.
  intros Hsb Ho. revert w s. induction fuel as [|fuel IH]; intros w s Hw Hx; [done|].
  cbn [walk_back] in Hx. apply bind_Ok in Hx as (r & s1 & Hs & Hx).
  destruct Hw as [Hb Hn Hu Hsf Hfn Hr].
  pose proof (l2_number_nonneg _ Hb) as Hpos.
  apply walk_step_inv in Hs as (unsafe & Hun & Hs). rewrite Hsf, Hfn in Hs.
  assert (l2_Number unsafe <= l2_Number (fh_Unsafe heads)) as Hun'.
  { destruct Hun as [->|[->| ->]]; [done..|]. cbn. lia. }
  assert (forall p e e', l2c_L2BlockRefByHash (l2_ParentHash (w_n w)) e = (Ok p, e') ->
    is_l2_block p /\ l2_Number (w_n w) = l2_Number p + 1) as Hpar.
  { intros p e e' Hp. split; [by eapply l2_by_hash_block|by eapply l2_parent_number]. }
  destruct r as [w'|res'].
  - destruct Hs as (Hu' & Hs' & Hf' & Hr' & Hn'). eapply IH; [|exact Hx].
    destruct Hn' as [Hn'|(e & e' & [Hpb Hp]%Hpar)]; split; rewrite ?Hs', ?Hf', ?Hu', ?Hn'; try done; try lia.
    intros [Hrd|?]%Hr'; [apply Hr in Hrd|]; lia.
  - injection Hx as -> _. destruct Hs as (Hu2 & Hf' & Hs'). split_and!; [done| |by rewrite Hu2].
    destruct Hs' as [[Hs2 ?]|[Hc (e & e' & [_ Hp]%Hpar)]]; [rewrite Hs2; lia|].
    destruct Hc as [Hrd%Hr|?]; lia.
Qed.

(** The blocks [currentHeads] returns. *)
Lemma currentHeads_blocks `{!LawfulL2Chain E2} (s : E1 * E2) heads (s1 : E1 * E2) :
  currentHeads cfg s = (Ok heads, s1) ->
  is_l2_block (fh_Unsafe heads) /\ is_l2_block (fh_Safe heads) /\ is_l2_block (fh_Finalized heads).
Proof.
  intros Hh. unfold currentHeads in Hh. apply bind_Ok in Hh as (fin & s2 & Hfin & Hh).
  apply bind_Ok in Hh as (f & s3 & Hf%wrapE_Ok & Hh).
  apply bind_Ok in Hh as (sf & s4 & Hsf & Hh).
  apply bind_Ok in Hh as (sb & s5 & Hs & Hh).
  apply bind_Ok in Hh as (unsafe & s6 & Hu%wrapE_Ok%l2_Ok & [= <- <-]). cbn.
  assert (is_l2_block f) as Hfb.
  { destruct fin as [f'|err].
    - injection Hf as -> _. apply attempt_Ok_inl, l2_Ok in Hfin. by eapply l2_by_label_block.
    - destruct (errors_Is err NotFound); [|done]. apply l2_Ok in Hf. by eapply l2_by_hash_block. }
  split_and!; [by eapply l2_by_label_block| |done].
  destruct sf as [s'|err].
  - injection Hs as -> _. apply attempt_Ok_inl, l2_Ok in Hsf. by eapply l2_by_label_block.
  - destruct (errors_Is err NotFound); [|done]. by injection Hs as -> _.
Qed.

Lemma FindL2Heads_below `{!LawfulL2Chain E2} fuel (s : E1 * E2) heads s1 res s2 :
  currentHeads cfg s = (Ok heads, s1) ->
  l2_Number (fh_Finalized heads) <= l2_Number (fh_Safe heads) <= l2_Number (fh_Unsafe heads) ->
  FindL2Heads cfg syncCfg fuel s = (Ok (Some res), s2) ->
  heads_below heads res.
Proof.
  intros Hh Ho Hx. destruct (currentHeads_blocks s heads s1 Hh) as (Hu & Hsf & _).
  unfold FindL2Heads, bind, wrapE in Hx. rewrite Hh in Hx. cbn [map_err] in Hx.
  eapply walk_back_below; [exact Hsf|exact Ho| |exact Hx].
  split; cbn [start_walk w_n w_unsafe w_safe w_finalized w_ready]; try done; lia.
Qed.

(** The search only moves back.  Over an L2 node whose finalized, safe and unsafe
    heads are in order, whatever it returns keeps the finalized head, and neither the
    safe nor the unsafe head is above the one the node had before. *)
Theorem FindL2Heads_only_back `{!LawfulL2Chain E2} fuel (s : E1 * E2) heads s1 res s2 :
  currentHeads cfg s = (Ok heads, s1) ->
  l2_Number (fh_Finalized heads) <= l2_Number (fh_Safe heads) <= l2_Number (fh_Unsafe heads) ->
  FindL2Heads cfg syncCfg fuel s = (Ok (Some res), s2) ->
  heads_below heads res.
Proof. apply FindL2Heads_below. Qed.

(** The safe head the search returns is a block of the L2 node. *)
Lemma walk_back_safe_block `{!LawfulL2Chain E2} fuel prev w (s : E1 * E2) res s' :
  is_l2_block (w_n w) -> is_l2_block (w_safe w) ->
  walk_back cfg syncCfg fuel prev w s = (Ok (Some res), s') -> is_l2_block (fh_Safe res).
Proof.
  revert w s. induction fuel as [|fuel IH]; intros w s Hn Hs Hx; [done|].
  cbn [walk_back] in Hx. apply bind_Ok in Hx as (r & s1 & Hw & Hx).
  apply walk_step_inv in Hw as (unsafe & _ & Hw). destruct r as [w'|res'].
  - destruct Hw as (_ & Hs' & _ & _ & Hn'). eapply IH; [| |exact Hx]; [|by rewrite Hs'].
    destruct Hn' as [->|(e & e' & Hp)]; [done|by eapply l2_by_hash_block].
  - injection Hx as -> _. destruct Hw as (_ & _ & [[-> _]|[_ (e & e' & Hp)]]); [done|].
    by eapply l2_by_hash_block.
Qed.

Lemma FindL2Heads_safe_block `{!LawfulL2Chain E2} fuel (s : E1 * E2) res s' :
  FindL2Heads cfg syncCfg fuel s = (Ok (Some res), s') -> is_l2_block (fh_Safe res).
Proof.
  unfold FindL2Heads. intros (heads & s1 & Hh%wrapE_Ok & Hx)%bind_Ok.
  pose proof (currentHeads_blocks _ _ _ Hh) as (Hu & Hs & _).
  by eapply walk_back_safe_block; [| |exact Hx].
Qed.

(** The conditions under which an iteration with the shortcut comes back to itself. *)
Record stuck (w : walk) : Prop := {
  st_n : w_n w = w_safe w;
  st_zero : w_n w <> zeroL2;
  st_unsafe : w_unsafe w <> zeroL2;
  st_l1 : l1_Hash (w_l1Block w) = id_Hash (l2_L1Origin (w_n w));
  st_l1_parent : l1_ParentHash (w_l1Block w) <> id_Hash (l2_L1Origin (w_n w));
  st_l1_zero : w_l1Block w <> zeroL1;
  st_ahead : w_ahead w = false;
  st_highest : w_highest w = w_n w;
  st_genesis : l2_Number (w_n w) <> id_Number (gen_L2 (cfg_Genesis cfg));
  st_finalized : l2_Number (w_n w) <> l2_Number (w_finalized w) }.

(** The end of an iteration that takes the shortcut, from the fetched L1 block on. *)
Lemma walk_step_shortcut prev w s b ahead s1 :
  SkipSyncStartCheck syncCfg = true ->
  fetch_origin (w_n w) (w_l1Block w) (w_ahead w) s = (Ok (b, ahead), s1) ->
  ahead = false -> l1_Hash b = id_Hash (l2_L1Origin (w_n w)) ->
  w_unsafe w <> zeroL2 ->
  (if bool_decide (w_highest w = zeroL2) then w_n w else w_highest w) = w_n w ->
  l2_Number (w_n w) <> id_Number (gen_L2 (cfg_Genesis cfg)) ->
  l2_Number (w_n w) <> l2_Number (w_finalized w) ->
  exists ready, walk_step cfg syncCfg prev w s =
    (Ok (inl (mkWalk (w_unsafe w) (w_safe w) (w_finalized w) (w_safe w) (w_n w) b false ready)), s1).
Proof.
  intros Hskip Hf -> Hb Hu Hh Hg Hfin. unfold walk_step. unfold bind at 1. rewrite Hf.
  unfold bind at 1, lift at 1, check_walk.
  apply Z.eqb_neq in Hg as ->. apply Z.eqb_neq in Hfin as ->. cbn [andb].
  rewrite bool_decide_eq_false_2 by done. cbn [andb].
  rewrite Hb, Z.eqb_refl, Hh, Hskip, Z.eqb_refl. cbn [andb]. by eexists.
Qed.

Lemma stuck_forever fuel prev w s :
  SkipSyncStartCheck syncCfg = true -> stuck w ->
  (walk_back cfg syncCfg fuel prev w s).1 = Ok None.
Proof.
  intros Hskip. revert w s. induction fuel as [|fuel IH]; intros w s Hs; [done|].
  cbn [walk_back]. unfold bind.
  destruct (walk_step_shortcut prev w s (w_l1Block w) false s) as [ready ->]; try apply Hs; [done| |done| |].
  - unfold fetch_origin. destruct Hs as [_ _ _ Hl Hp Hz Ha _ _ _].
    destruct (Z.eqb_spec (id_Hash (l2_L1Origin (w_n w))) (l1_ParentHash (w_l1Block w))); [congruence|].
    rewrite bool_decide_eq_false_2, Hl, Z.eqb_refl, Ha by done. done.
  - rewrite (st_highest _ Hs). by case_bool_decide.
  - apply IH. destruct Hs as [Hn Hz Hu Hl Hp Hlz Ha Hh Hg Hf]. by split; cbn; rewrite <- ?Hn.
Qed.

(** With the shortcut enabled the search can run forever.  If the unsafe and the
    safe head are the same block, this block is neither genesis nor finalized, and its
    L1 origin is canonical, then no number of iterations is enough: every iteration
    jumps to the safe head, which is the block it is at. *)
Theorem FindL2Heads_shortcut_diverges s heads s1 b e1 :
  SkipSyncStartCheck syncCfg = true ->
  currentHeads cfg s = (Ok heads, s1) ->
  let n := fh_Unsafe heads in
  fh_Safe heads = n -> n <> zeroL2 ->
  l2_Number n <> id_Number (gen_L2 (cfg_Genesis cfg)) -> l2_Number n <> l2_Number (fh_Finalized heads) ->
  id_Hash (l2_L1Origin n) <> 0 ->
  l1c_L1BlockRefByNumber (id_Number (l2_L1Origin n)) s1.1 = (Ok b, e1) ->
  l1_Hash b = id_Hash (l2_L1Origin n) -> l1_ParentHash b <> l1_Hash b ->
  forall fuel, (FindL2Heads cfg syncCfg fuel s).1 = Ok None.
Proof.
  intros Hskip Hh n Hsafe Hnz Hg Hf Hoz Hb Hbh Hbp fuel.
  unfold FindL2Heads, bind, wrapE. rewrite Hh. cbn [map_err].
  destruct fuel as [|fuel]; [done|]. cbn [walk_back]. unfold bind.
  destruct (walk_step_shortcut (fh_Unsafe heads) (start_walk heads) s1 b false (e1, s1.2)) as [ready ->];
    try done; cbn [start_walk w_n w_l1Block w_ahead w_unsafe w_safe w_finalized w_highest]; fold n.
  - unfold fetch_origin. cbn [l1_ParentHash zeroL1].
    destruct (Z.eqb_spec (id_Hash (l2_L1Origin n)) 0); [done|].
    rewrite bool_decide_eq_true_2 by done. cbn [orb].
    unfold bind, attempt, l1, zoom. by rewrite Hb.
  - apply stuck_forever; [done|]. split; cbn; fold n; rewrite ?Hsafe; try done.
    + by rewrite <- Hbh.
    + intros ->. by rewrite <- Hbh in Hoz.
Qed.

(** When the L1 node does not have the origin of the finalized head on its chain,
    the search does not fail: at the finalized head it returns the zero block as the
    unsafe head.  (Shown for a node whose three heads are the same block.) *)
Theorem FindL2Heads_zero_unsafe s heads s1 b e1 fuel :
  currentHeads cfg s = (Ok heads, s1) ->
  let n := fh_Unsafe heads in
  fh_Safe heads = n -> fh_Finalized heads = n ->
  l2_Number n <> id_Number (gen_L2 (cfg_Genesis cfg)) ->
  id_Hash (l2_L1Origin n) <> 0 -> n <> zeroL2 ->
  l1c_L1BlockRefByNumber (id_Number (l2_L1Origin n)) s1.1 = (Ok b, e1) ->
  l1_Hash b <> id_Hash (l2_L1Origin n) ->
  (FindL2Heads cfg syncCfg (S fuel) s).1 = Ok (Some (mkHeads zeroL2 n n)).
Proof.
  intros Hh n Hsafe Hfin Hg Hoz Hnz Hb Hbh.
  unfold FindL2Heads, bind, wrapE. rewrite Hh. cbn [map_err walk_back]. unfold walk_step, bind at 1 2.
  cbn [start_walk w_n w_l1Block w_ahead w_unsafe w_safe w_finalized w_highest w_ready]. fold n.
  assert (fetch_origin n zeroL1 false s1 = (Ok (b, false), (e1, s1.2))) as ->.
  { unfold fetch_origin. cbn [l1_ParentHash zeroL1].
    destruct (Z.eqb_spec (id_Hash (l2_L1Origin n)) 0); [done|].
    rewrite bool_decide_eq_true_2 by done. cbn [orb]. unfold bind, attempt, l1, zoom. by rewrite Hb. }
  rewrite Hfin, Hsafe. unfold bind at 1, lift, check_walk. apply Z.eqb_neq in Hg as ->. cbn [andb].
  rewrite !Z.eqb_refl. cbn [andb negb]. rewrite bool_decide_eq_false_2 by done. cbn [andb].
  apply Z.eqb_neq in Hbh as ->. done.
Qed.
End SyncProperties.

(** ** A concrete pair of nodes

    The L1 node has blocks [0..9], hashed from the number in its state; the L2 node has
    blocks [0..3] with one block per epoch, its unsafe and safe head are block 3 and its
    finalized head is the number in its state. *)
Module SyncExamples.
Definition l1_block (off k : Z) : L1BlockRef := mkL1BlockRef (off + k) k (off + k - 1) (1000 + 12 * k).
Definition l2_block (k : Z) : L2BlockRef :=
  mkL2BlockRef (900 + k) k (899 + k) (1000 + 12 * k) (mkBlockID (100 + k) k) 0.

#[export] Instance toy_L1 : L1Chain Z :=
  {| l1c_L1BlockRefByLabel _ := fun off => (Ok (l1_block off 9), off);
     l1c_L1BlockRefByNumber k := fun off =>
       (if (0 <=? k) && (k <=? 9) then Ok (l1_block off k) else Err (ErrSentinel NotFound), off);
     l1c_L1BlockRefByHash h := fun off =>
       (if (off <=? h) && (h <=? off + 9) then Ok (l1_block off (h - off))
        else Err (ErrSentinel NotFound), off) |}.

#[export] Instance toy_L2 : L2Chain Z :=
  {| l2c_L2BlockRefByLabel lbl := fun fin =>
       (Ok (l2_block (match lbl with Finalized => if (0 <=? fin) && (fin <=? 3) then fin else 0 | _ => 3 end)), fin);
     l2c_L2BlockRefByHash h := fun fin =>
       (if (900 <=? h) && (h <=? 903) then Ok (l2_block (h - 900)) else Err (ErrSentinel NotFound), fin) |}.

#[export] Instance toy_L2_lawful : LawfulL2Chain Z.
Proof.
  refine {| is_l2_block b := exists k, 0 <= k <= 3 /\ b = l2_block k |}.
  - intros b (k & Hk & ->). cbn. lia.
  - intros h e b e'. cbn. destruct (_ && _) eqn:E; [|done]. intros [= <- <-].
    exists (h - 900). apply andb_prop in E as [?%Z.leb_le ?%Z.leb_le]. split; [lia|done].
  - intros lbl e b e'. cbn. intros [= <- <-]. eexists. split; [|done].
    destruct lbl; [lia..|]. destruct (_ && _) eqn:E; [|lia].
    apply andb_prop in E as [?%Z.leb_le ?%Z.leb_le]. lia.
  - intros n e p e' (k & Hk & ->). cbn. destruct (_ && _); [|done].
    intros [= <- _]. cbn. lia.
Defined.

Definition toy_cfg : Config :=
  mkConfig (mkGenesis (mkBlockID 100 0) (mkBlockID 900 0) 1000 (mkSystemConfig 77 1 1 1))
    2 10 10 20 (Some 1) (Some 2) (Some 0) 55 66 77.

Definition toy_heads (fin : Z) : FindHeadsResult := mkHeads (l2_block 3) (l2_block 3) (l2_block fin).

Lemma FindL2Heads_terminates_witness :
  (FindL2Heads toy_cfg (mkSyncConfig false false) 4 (100, 1)).1 <> Ok None.
Proof.
  apply (FindL2Heads_terminates toy_cfg (mkSyncConfig false false) 4 (100, 1) (toy_heads 1) (100, 1));
    by vm_compute.
Defined.

Lemma FindL2Heads_only_back_witness :
  heads_below (toy_heads 1) (mkHeads (l2_block 3) (l2_block 1) (l2_block 1)).
Proof.
  apply (FindL2Heads_only_back toy_cfg (mkSyncConfig false false) 4 (100, 1) _ (100, 1) _ (100, 1));
    [by vm_compute|by vm_compute|by vm_compute].
Defined.

Lemma FindL2Heads_shortcut_diverges_witness :
  ~ exists fuel, (FindL2Heads toy_cfg (mkSyncConfig false true) fuel (100, 1)).1 <> Ok None.
Proof.
  intros [fuel Hends]. apply Hends.
  apply (FindL2Heads_shortcut_diverges toy_cfg (mkSyncConfig false true) (100, 1) (toy_heads 1) (100, 1)
           (l1_block 100 3) 100); by vm_compute.
Defined.

Lemma FindL2Heads_zero_unsafe_witness :
  (FindL2Heads toy_cfg (mkSyncConfig false false) 1 (500, 3)).1 =
  Ok (Some (mkHeads zeroL2 (l2_block 3) (l2_block 3))).
Proof.
  apply (FindL2Heads_zero_unsafe toy_cfg (mkSyncConfig false false) (500, 3) (toy_heads 3) (500, 3)
           (l1_block 500 3) 500); by vm_compute.
Defined.
End SyncExamples.
