(* ===== verification/EngineQueue.v ===== *)
(** * The engine queue

    [op-node/rollup/derive/engine_queue.go]: the last stage of the derivation pipeline.
    It keeps the unsafe, safe and finalized heads of the L2 chain, inserts the unsafe
    payloads received from the network, consolidates or forces the attributes derived
    from L1, and finalizes L2 blocks when the L1 blocks they came from are final. *)
From S2P Require Import Prelude GoErrors GoBytes EthTypes Geth Payloads Attributes PayloadsQueue EngineUpdate SyncStart.
#[local] Open Scope Z_scope.

Record attributesWithParent := mkAttributesWithParent {
  awp_attributes : PayloadAttributes;
  awp_parent : L2BlockRef }.

(** [maxUnsafePayloadsMemory], [finalityLookback] and [finalityDelay]. *)
Definition maxUnsafePayloadsMemory : Z := 500 * 1024 * 1024.
Definition finalityLookback : nat := 4 * 32 + 1.
Definition finalityDelay : Z := 64.

(** [FinalityData]: the last L2 block derived while at an L1 block. *)
Record FinalityData := mkFinalityData {
  fd_L2Block : L2BlockRef;
  fd_L1Block : BlockID }.

Module EngineQueue.
Section EngineQueue.
Context {E P L : Type} `{Engine E} `{NextAttributesProvider P} `{L1Chain L} `{Keccak} `{TxCodec}.
Context (cfg : Config) (syncCfg : SyncConfig).

(** The engine, the previous stage and the L1 fetcher are environments that the calls
    to them change. *)
Record t := mk {
  finalized : L2BlockRef;
  safeHead : L2BlockRef;
  unsafeHead : L2BlockRef;
  engineSyncTarget : L2BlockRef;
  buildingOnto : L2BlockRef;
  buildingID : Z;
  buildingSafe : bool;
  needForkchoiceUpdate : bool;
  finalizedL1 : L1BlockRef;
  triedFinalizeAt : L1BlockRef;
  safeAttributes : option attributesWithParent;
  unsafePayloads : PayloadsQueue;
  finalityData : list FinalityData;
  engine : E;
  prev : P;
  origin : L1BlockRef;
  sysCfg : SystemConfig;
  l1Fetcher : L }.

(** Assignments to the fields. *)
Definition set_finalized (v : L2BlockRef) (q : t) : t :=
  mk v (safeHead q) (unsafeHead q) (engineSyncTarget q) (buildingOnto q) (buildingID q)
     (buildingSafe q) (needForkchoiceUpdate q) (finalizedL1 q) (triedFinalizeAt q)
     (safeAttributes q) (unsafePayloads q) (finalityData q) (engine q) (prev q) (origin q)
     (sysCfg q) (l1Fetcher q).
Definition set_safeHead (v : L2BlockRef) (q : t) : t :=
  mk (finalized q) v (unsafeHead q) (engineSyncTarget q) (buildingOnto q) (buildingID q)
     (buildingSafe q) (needForkchoiceUpdate q) (finalizedL1 q) (triedFinalizeAt q)
     (safeAttributes q) (unsafePayloads q) (finalityData q) (engine q) (prev q) (origin q)
     (sysCfg q) (l1Fetcher q).
Definition set_unsafeHead (v : L2BlockRef) (q : t) : t :=
  mk (finalized q) (safeHead q) v (engineSyncTarget q) (buildingOnto q) (buildingID q)
     (buildingSafe q) (needForkchoiceUpdate q) (finalizedL1 q) (triedFinalizeAt q)
     (safeAttributes q) (unsafePayloads q) (finalityData q) (engine q) (prev q) (origin q)
     (sysCfg q) (l1Fetcher q).
Definition set_engineSyncTarget (v : L2BlockRef) (q : t) : t :=
  mk (finalized q) (safeHead q) (unsafeHead q) v (buildingOnto q) (buildingID q) (buildingSafe
     q) (needForkchoiceUpdate q) (finalizedL1 q) (triedFinalizeAt q) (safeAttributes q)
     (unsafePayloads q) (finalityData q) (engine q) (prev q) (origin q) (sysCfg q) (l1Fetcher q).
Definition set_buildingOnto (v : L2BlockRef) (q : t) : t :=
  mk (finalized q) (safeHead q) (unsafeHead q) (engineSyncTarget q) v (buildingID q)
     (buildingSafe q) (needForkchoiceUpdate q) (finalizedL1 q) (triedFinalizeAt q)
     (safeAttributes q) (unsafePayloads q) (finalityData q) (engine q) (prev q) (origin q)
     (sysCfg q) (l1Fetcher q).
Definition set_buildingID (v : Z) (q : t) : t :=
  mk (finalized q) (safeHead q) (unsafeHead q) (engineSyncTarget q) (buildingOnto q) v
     (buildingSafe q) (needForkchoiceUpdate q) (finalizedL1 q) (triedFinalizeAt q)
     (safeAttributes q) (unsafePayloads q) (finalityData q) (engine q) (prev q) (origin q)
     (sysCfg q) (l1Fetcher q).
Definition set_buildingSafe (v : bool) (q : t) : t :=
  mk (finalized q) (safeHead q) (unsafeHead q) (engineSyncTarget q) (buildingOnto q) (buildingID
     q) v (needForkchoiceUpdate q) (finalizedL1 q) (triedFinalizeAt q) (safeAttributes q)
     (unsafePayloads q) (finalityData q) (engine q) (prev q) (origin q) (sysCfg q) (l1Fetcher q).
Definition set_needForkchoiceUpdate (v : bool) (q : t) : t :=
  mk (finalized q) (safeHead q) (unsafeHead q) (engineSyncTarget q) (buildingOnto q) (buildingID
     q) (buildingSafe q) v (finalizedL1 q) (triedFinalizeAt q) (safeAttributes q)
     (unsafePayloads q) (finalityData q) (engine q) (prev q) (origin q) (sysCfg q) (l1Fetcher q).
Definition set_finalizedL1 (v : L1BlockRef) (q : t) : t :=
  mk (finalized q) (safeHead q) (unsafeHead q) (engineSyncTarget q) (buildingOnto q) (buildingID
     q) (buildingSafe q) (needForkchoiceUpdate q) v (triedFinalizeAt q) (safeAttributes q)
     (unsafePayloads q) (finalityData q) (engine q) (prev q) (origin q) (sysCfg q) (l1Fetcher q).
Definition set_triedFinalizeAt (v : L1BlockRef) (q : t) : t :=
  mk (finalized q) (safeHead q) (unsafeHead q) (engineSyncTarget q) (buildingOnto q) (buildingID
     q) (buildingSafe q) (needForkchoiceUpdate q) (finalizedL1 q) v (safeAttributes q)
     (unsafePayloads q) (finalityData q) (engine q) (prev q) (origin q) (sysCfg q) (l1Fetcher q).
Definition set_safeAttributes (v : option attributesWithParent) (q : t) : t :=
  mk (finalized q) (safeHead q) (unsafeHead q) (engineSyncTarget q) (buildingOnto q) (buildingID
     q) (buildingSafe q) (needForkchoiceUpdate q) (finalizedL1 q) (triedFinalizeAt q) v
     (unsafePayloads q) (finalityData q) (engine q) (prev q) (origin q) (sysCfg q) (l1Fetcher q).
Definition set_unsafePayloads (v : PayloadsQueue) (q : t) : t :=
  mk (finalized q) (safeHead q) (unsafeHead q) (engineSyncTarget q) (buildingOnto q) (buildingID
     q) (buildingSafe q) (needForkchoiceUpdate q) (finalizedL1 q) (triedFinalizeAt q)
     (safeAttributes q) v (finalityData q) (engine q) (prev q) (origin q) (sysCfg q) (l1Fetcher
     q).
Definition set_finalityData (v : list FinalityData) (q : t) : t :=
  mk (finalized q) (safeHead q) (unsafeHead q) (engineSyncTarget q) (buildingOnto q) (buildingID
     q) (buildingSafe q) (needForkchoiceUpdate q) (finalizedL1 q) (triedFinalizeAt q)
     (safeAttributes q) (unsafePayloads q) v (engine q) (prev q) (origin q) (sysCfg q)
     (l1Fetcher q).
Definition set_engine (v : E) (q : t) : t :=
  mk (finalized q) (safeHead q) (unsafeHead q) (engineSyncTarget q) (buildingOnto q) (buildingID
     q) (buildingSafe q) (needForkchoiceUpdate q) (finalizedL1 q) (triedFinalizeAt q)
     (safeAttributes q) (unsafePayloads q) (finalityData q) v (prev q) (origin q) (sysCfg q)
     (l1Fetcher q).
Definition set_prev (v : P) (q : t) : t :=
  mk (finalized q) (safeHead q) (unsafeHead q) (engineSyncTarget q) (buildingOnto q) (buildingID
     q) (buildingSafe q) (needForkchoiceUpdate q) (finalizedL1 q) (triedFinalizeAt q)
     (safeAttributes q) (unsafePayloads q) (finalityData q) (engine q) v (origin q) (sysCfg q)
     (l1Fetcher q).
Definition set_origin (v : L1BlockRef) (q : t) : t :=
  mk (finalized q) (safeHead q) (unsafeHead q) (engineSyncTarget q) (buildingOnto q) (buildingID
     q) (buildingSafe q) (needForkchoiceUpdate q) (finalizedL1 q) (triedFinalizeAt q)
     (safeAttributes q) (unsafePayloads q) (finalityData q) (engine q) (prev q) v (sysCfg q)
     (l1Fetcher q).
Definition set_sysCfg (v : SystemConfig) (q : t) : t :=
  mk (finalized q) (safeHead q) (unsafeHead q) (engineSyncTarget q) (buildingOnto q) (buildingID
     q) (buildingSafe q) (needForkchoiceUpdate q) (finalizedL1 q) (triedFinalizeAt q)
     (safeAttributes q) (unsafePayloads q) (finalityData q) (engine q) (prev q) (origin q) v
     (l1Fetcher q).
Definition set_l1Fetcher (v : L) (q : t) : t :=
  mk (finalized q) (safeHead q) (unsafeHead q) (engineSyncTarget q) (buildingOnto q) (buildingID
     q) (buildingSafe q) (needForkchoiceUpdate q) (finalizedL1 q) (triedFinalizeAt q)
     (safeAttributes q) (unsafePayloads q) (finalityData q) (engine q) (prev q) (origin q)
     (sysCfg q) v.

(** Calls to the environments. *)
Definition on_engine {A} (m : M E A) : M t A := zoom engine set_engine m.
Definition on_prev {A} (m : M P A) : M t A := zoom prev set_prev m.
Definition on_l1 {A} (m : M L A) : M t A := zoom l1Fetcher set_l1Fetcher m.

(** [NewEngineQueue]. *)
Definition new (engine : E) (prev : P) (l1Fetcher : L) : t :=
  mk zeroL2 zeroL2 zeroL2 zeroL2 zeroL2 0 false false zeroL1 zeroL1 None
     (NewPayloadsQueue maxUnsafePayloadsMemory (fun p => payloadMemSize (Some p))) []
     engine prev zeroL1 zeroSystemConfig l1Fetcher.

(** [EngineQueue.Origin] and [EngineQueue.SystemConfig]. *)
Definition Origin (eq : t) : L1BlockRef := origin eq.
Definition SystemConfig_ (eq : t) : SystemConfig := sysCfg eq.

(** [EngineQueue.SetUnsafeHead] and [EngineQueue.SetEngineSyncTarget]. *)
Definition SetUnsafeHead (head : L2BlockRef) (eq : t) : t := set_unsafeHead head eq.
Definition SetEngineSyncTarget (head : L2BlockRef) (eq : t) : t := set_engineSyncTarget head eq.

(** [EngineQueue.AddUnsafePayload]; [None] when the eviction of the queue does not end,
    a panic when the queue is empty after the push. *)
Definition AddUnsafePayload (payload : option ExecutionPayload) (eq : t) : option (result unit * t) :=
  match payload with
  | None => Some (Ok tt, eq)
  | Some _ =>
      match Push payload (unsafePayloads eq) with
      | None => None
      | Some (Ok _, upq) =>
          let eq' := set_unsafePayloads upq eq in
          match Peek upq with
          | None => Some (Panic, eq')
          | Some _ => Some (Ok tt, eq')
          end
      | Some (Err _, upq) => Some (Ok tt, set_unsafePayloads upq eq)
      | Some (Panic, upq) => Some (Panic, set_unsafePayloads upq eq)
      end
  end.

(** Dropping the first unsafe payload. *)
Definition pop_unsafe : M t unit := fun eq => (Ok tt, set_unsafePayloads (Pop (unsafePayloads eq)).2 eq).

(** ** Finality *)

(** The loop of [tryFinalizeL2]: the block to finalize and [needForkchoiceUpdate]. *)
Definition finalize_entry (finalizedL1 : L1BlockRef) (acc : L2BlockRef * bool) (fd : FinalityData)
    : L2BlockRef * bool :=
  let '(finalizedL2, need) := acc in
  if (l2_Number finalizedL2 <? l2_Number (fd_L2Block fd)) && (id_Number (fd_L1Block fd) <=? l1_Number finalizedL1)
  then (fd_L2Block fd, true)
  else (finalizedL2, need).

(** [EngineQueue.tryFinalizeL2]. *)
Definition tryFinalizeL2 (eq : t) : t :=
  if bool_decide (finalizedL1 eq = zeroL1) then eq
  else
    let eq1 := set_triedFinalizeAt (origin eq) eq in
    let '(finalizedL2, need) :=
      foldl (finalize_entry (finalizedL1 eq)) (finalized eq, needForkchoiceUpdate eq) (finalityData eq) in
    set_finalized finalizedL2 (set_needForkchoiceUpdate need eq1).

(** [EngineQueue.Finalize]. *)
Definition Finalize (l1Origin : L1BlockRef) (eq : t) : t :=
  if l1_Number l1Origin <? l1_Number (finalizedL1 eq) then eq
  else
    let eq1 := set_finalizedL1 l1Origin eq in
    if existsb (fun fd => bool_decide (fd_L1Block fd = l1_ID l1Origin)) (finalityData eq1)
    then tryFinalizeL2 eq1
    else eq1.

(** [EngineQueue.postProcessSafeL2]. *)
Definition postProcessSafeL2 (eq : t) : t :=
  let data :=
    if (finalityLookback <=? length (finalityData eq))%nat
    then take (finalityLookback - 1) (drop 1 (finalityData eq))
    else finalityData eq in
  let entry := mkFinalityData (safeHead eq) (l1_ID (origin eq)) in
  set_finalityData
    (match last data with
     | None => data ++ [entry]
     | Some fd =>
         if id_Number (fd_L1Block fd) <? l1_Number (origin eq) then data ++ [entry]
         else <[(length data - 1)%nat := mkFinalityData (safeHead eq) (fd_L1Block fd)]> data
     end) eq.

(** [EngineQueue.tryFinalizePastL2Blocks]. *)
Definition tryFinalizePastL2Blocks : M t unit :=
  eq <- get ;;
  if bool_decide (finalizedL1 eq = zeroL1) then ret tt
  else if l1_Number (finalizedL1 eq) <? l1_Number (origin eq) then ret tt
  else if bool_decide (triedFinalizeAt eq <> zeroL1)
          && (l1_Number (origin eq) <=? l1_Number (triedFinalizeAt eq) +u finalityDelay) then ret tt
  else
    ref <- wrapE (fun e => NewTemporaryError (ErrWrap "failed to check if on finalizing L1 chain" e))
             (on_l1 (l1c_L1BlockRefByNumber (l1_Number (origin eq)))) ;;
    if negb (l1_Hash ref =? l1_Hash (origin eq)) then
      throw (NewResetError (ErrNew "need to reset, not on the finalizing L1 chain"))
    else modify tryFinalizeL2.

(** ** Forkchoice updates *)

(** [EngineQueue.isEngineSyncing]. *)
Definition isEngineSyncing (eq : t) : bool :=
  negb (l2_Hash (unsafeHead eq) =? l2_Hash (engineSyncTarget eq)).

(** The errors of a forkchoice update of the queue. *)
Definition forkchoice_err (inconsistent other : string) (err : error) : error :=
  match errors_As_InputError err with
  | Some (code, inner) =>
      if code =? InvalidForkchoiceState then NewResetError (ErrWrap inconsistent inner)
      else NewTemporaryError (ErrWrap "unexpected error code in forkchoice-updated response" err)
  | None => NewTemporaryError (ErrWrap other err)
  end.

(** [EngineQueue.tryUpdateEngine]. *)
Definition tryUpdateEngine : M t unit :=
  eq <- get ;;
  wrapE (forkchoice_err "forkchoice update was inconsistent with engine" "failed to sync forkchoice with engine")
    (on_engine (eng_ForkchoiceUpdate
       (mkForkchoiceState (l2_Hash (engineSyncTarget eq)) (l2_Hash (safeHead eq)) (l2_Hash (finalized eq)))
       None)) ;;;
  modify (set_needForkchoiceUpdate false).

(** [EngineQueue.checkNewPayloadStatus]. *)
Definition checkNewPayloadStatus (status : ExecutePayloadStatus) : bool :=
  if EngineSync syncCfg then
    bool_decide (status = ExecutionValid) || bool_decide (status = ExecutionSyncing)
    || bool_decide (status = ExecutionAccepted)
  else bool_decide (status = ExecutionValid).

(** [EngineQueue.checkForkchoiceUpdatedStatus]. *)
Definition checkForkchoiceUpdatedStatus (status : ExecutePayloadStatus) : bool :=
  if EngineSync syncCfg then
    bool_decide (status = ExecutionValid) || bool_decide (status = ExecutionSyncing)
  else bool_decide (status = ExecutionValid).

(** ** Unsafe payloads *)

(** The end of [tryNextUnsafePayload], once the payload is known to extend the chain
    and its block reference was decoded. *)
Definition insert_unsafe_payload (first : ExecutionPayload) (ref : L2BlockRef) : M t unit :=
  status <- wrapE (fun e => NewTemporaryError (ErrWrap "failed to update insert payload" e))
              (on_engine (eng_NewPayload first)) ;;
  if negb (checkNewPayloadStatus status) then
    pop_unsafe ;;;
    throw (NewTemporaryError (ErrWrap "cannot process unsafe payload" (NewPayloadErr first status)))
  else
    eq <- get ;;
    fcRes <- wrapE (forkchoice_err "pre-unsafe-block forkchoice update was inconsistent with engine"
                      "failed to update forkchoice to prepare for new unsafe payload")
               (on_engine (eng_ForkchoiceUpdate
                  (mkForkchoiceState (ep_BlockHash first) (l2_Hash (safeHead eq)) (l2_Hash (finalized eq)))
                  None)) ;;
    if negb (checkForkchoiceUpdatedStatus (PayloadStatus fcRes)) then
      pop_unsafe ;;;
      throw (NewTemporaryError (ErrWrap "cannot prepare unsafe chain for new payload"
                                  (ForkchoiceUpdateErr (PayloadStatus fcRes))))
    else
      modify (set_engineSyncTarget ref) ;;;
      (if bool_decide (PayloadStatus fcRes = ExecutionValid) then modify (set_unsafeHead ref) else ret tt) ;;;
      pop_unsafe.

(** [EngineQueue.tryNextUnsafePayload]. *)
Definition tryNextUnsafePayload : M t unit :=
  eq <- get ;;
  match Peek (unsafePayloads eq) with
  | None => lift Panic
  | Some first =>
      if ep_BlockNumber first <=? l2_Number (safeHead eq) then pop_unsafe
      else if ep_BlockNumber first <=? l2_Number (unsafeHead eq) then pop_unsafe
      else if negb (EngineSync syncCfg) && negb (ep_ParentHash first =? l2_Hash (unsafeHead eq)) then
        (if ep_BlockNumber first =? l2_Number (unsafeHead eq) +u 1 then pop_unsafe else ret tt) ;;;
        throw EOF
      else
        match PayloadToBlockRef first (cfg_Genesis cfg) with
        | Panic => lift Panic
        | Err _ => pop_unsafe
        | Ok ref => insert_unsafe_payload first ref
        end
  end.

(** ** Building blocks *)

(** [EngineQueue.resetBuildingState]. *)
Definition resetBuildingState (eq : t) : t :=
  set_buildingSafe false (set_buildingOnto zeroL2 (set_buildingID 0 eq)).

(** [EngineQueue.StartPayload]. *)
Definition StartPayload (parent : L2BlockRef) (attrs : PayloadAttributes) (updateSafe : bool)
    : M t (insertion unit) :=
  eq <- get ;;
  if isEngineSyncing eq then not_inserted BlockInsertTemporaryErr (ErrNew "engine is in progess of p2p sync")
  else
    id <- on_engine (EngineUpdate.StartPayload
            (mkForkchoiceState (l2_Hash parent) (l2_Hash (safeHead eq)) (l2_Hash (finalized eq))) attrs) ;;
    match id with
    | inr (errTyp, err) => not_inserted errTyp err
    | inl id =>
        modify (fun eq => set_buildingOnto parent (set_buildingSafe updateSafe (set_buildingID id eq))) ;;;
        inserted tt
    end.

(** [EngineQueue.ConfirmPayload]. *)
Definition ConfirmPayload : M t (insertion ExecutionPayload) :=
  eq <- get ;;
  if buildingID eq =? 0 then
    not_inserted BlockInsertPrestateErr
      (ErrNew "cannot complete payload building: not currently building a payload")
  else
    payload <- on_engine (EngineUpdate.ConfirmPayload
                 (mkForkchoiceState 0 (l2_Hash (safeHead eq)) (l2_Hash (finalized eq)))
                 (buildingID eq) (buildingSafe eq)) ;;
    match payload with
    | inr (errTyp, err) => not_inserted errTyp (ErrWrap "failed to complete building on top of L2 chain" err)
    | inl payload =>
        match PayloadToBlockRef payload (cfg_Genesis cfg) with
        | Panic => lift Panic
        | Err err =>
            not_inserted BlockInsertPayloadErr
              (NewResetError (ErrWrap "failed to decode L2 block ref from payload" err))
        | Ok ref =>
            modify (fun eq => set_engineSyncTarget ref (set_unsafeHead ref eq)) ;;;
            (if buildingSafe eq then modify (fun eq => postProcessSafeL2 (set_safeHead ref eq)) else ret tt) ;;;
            modify resetBuildingState ;;;
            inserted payload
        end
    end.

(** [EngineQueue.CancelPayload]. *)
Definition CancelPayload (force : bool) : M t unit :=
  eq <- get ;;
  if buildingID eq =? 0 then ret tt
  else
    r <- attempt (on_engine (eng_GetPayload (buildingID eq))) ;;
    match r with
    | inr err => if negb force then throw err else modify resetBuildingState
    | inl _ => modify resetBuildingState
    end.

(** [EngineQueue.BuildingPayload]. *)
Definition BuildingPayload (eq : t) : L2BlockRef * Z * bool := (buildingOnto eq, buildingID eq, buildingSafe eq).

(** ** Safe attributes *)

(** The number of deposit transactions, [depositCount] in [forceNextSafeAttributes]. *)
Definition depositCount (txs : list Data) : nat :=
  foldl (fun count tx => match tx with
                         | ty :: _ => if bool_decide (ty = DepositTxType) then S count else count
                         | [] => count
                         end) O txs.

(** The start of [forceNextSafeAttributes]: a block is started and, when this succeeds,
    completed; the type and error of the call that failed, if one did. *)
Definition start_and_confirm (parent : L2BlockRef) (attrs : PayloadAttributes)
    : M t (option (BlockInsertionErrType * error)) :=
  started <- StartPayload parent attrs true ;;
  match started with
  | inl _ =>
      confirmed <- ConfirmPayload ;;
      ret (match confirmed with inl _ => None | inr e => Some e end)
  | inr e => ret (Some e)
  end.

(** [EngineQueue.forceNextSafeAttributes]. *)
Definition forceNextSafeAttributes : M t unit :=
  eq <- get ;;
  match safeAttributes eq with
  | None => ret tt
  | Some awp =>
      let attrs := awp_attributes awp in
      confirmed <- start_and_confirm (safeHead eq) attrs ;;
      match confirmed with
      | Some (BlockInsertTemporaryErr, err) =>
          throw (NewTemporaryError (ErrWrap "temporarily cannot insert new safe block" err))
      | Some (BlockInsertPrestateErr, err) =>
          attempt (CancelPayload true) ;;;
          throw (NewResetError (ErrWrap "need reset to resolve pre-state problem" err))
      | Some (BlockInsertPayloadErr, err) =>
          attempt (CancelPayload true) ;;;
          if (length (pa_Transactions attrs) =? depositCount (pa_Transactions attrs))%nat then
            throw (NewCriticalError (ErrWrap "failed to process block with only deposit transactions" err))
          else modify (set_safeAttributes None)
      | Some (BlockInsertOK, err) =>
          throw (NewCriticalError (ErrWrap "unknown InsertHeadBlock error type" err))
      | None => modify (set_safeAttributes None)
      end
  end.

(** [EngineQueue.consolidateNextSafeAttributes]; it is called with attributes queued. *)
Definition consolidateNextSafeAttributes : M t unit :=
  eq <- get ;;
  payload <- wrapE (fun err =>
               if errors_Is err NotFound
               then NewResetError (ErrWrap "expected engine was synced, but cannot find the block" err)
               else NewTemporaryError (ErrWrap "failed to get existing unsafe payload" err))
             (on_engine (eng_PayloadByNumber (l2_Number (safeHead eq) +u 1))) ;;
  match safeAttributes eq with
  | None => lift Panic
  | Some awp =>
      match AttributesMatchBlock (awp_attributes awp) (l2_Hash (safeHead eq)) payload with
      | Panic => lift Panic
      | Err _ => forceNextSafeAttributes
      | Ok _ =>
          ref <- wrapE (fun err => NewResetError (ErrWrap "failed to decode L2 block ref from payload" err))
                   (lift (PayloadToBlockRef payload (cfg_Genesis cfg))) ;;
          modify (fun eq =>
            postProcessSafeL2 (set_safeAttributes None (set_needForkchoiceUpdate true (set_safeHead ref eq))))
      end
  end.

(** [EngineQueue.tryNextSafeAttributes]. *)
Definition tryNextSafeAttributes : M t unit :=
  eq <- get ;;
  match safeAttributes eq with
  | None => ret tt
  | Some awp =>
      if bool_decide (safeHead eq <> awp_parent awp) then
        if l2_ParentHash (safeHead eq) =? l2_Hash (awp_parent awp)
        then modify (set_safeAttributes None)
        else throw (NewResetError (ErrNew "safe head changed, conflicting with queued safe attributes"))
      else if l2_Number (safeHead eq) <? l2_Number (unsafeHead eq) then consolidateNextSafeAttributes
      else if l2_Number (safeHead eq) =? l2_Number (unsafeHead eq) then forceNextSafeAttributes
      else modify (fun eq => set_engineSyncTarget (safeHead eq) (set_unsafeHead (safeHead eq) eq))
  end.

(** ** The step *)

(** [EngineQueue.verifyNewL1Origin]. *)
Definition verifyNewL1Origin (newOrigin : L1BlockRef) : M t unit :=
  eq <- get ;;
  let unsafeOrigin := l2_L1Origin (unsafeHead eq) in
  if bool_decide (newOrigin = origin eq) then ret tt
  else if (l1_Number newOrigin =? id_Number unsafeOrigin) && bool_decide (l1_ID newOrigin <> unsafeOrigin) then
    throw (NewResetError (ErrNew "l1 origin was inconsistent with l2 unsafe head origin"))
  else if (l1_Number newOrigin =? id_Number unsafeOrigin +u 1)
          && negb (l1_ParentHash newOrigin =? id_Hash unsafeOrigin) then
    throw (NewResetError (ErrNew "l2 unsafe head origin is no longer canonical"))
  else if id_Number unsafeOrigin +u 1 <? l1_Number newOrigin then
    canonical <- wrapE (fun e => NewTemporaryError (ErrWrap "failed to fetch canonical L1 block" e))
                   (on_l1 (l1c_L1BlockRefByNumber (id_Number unsafeOrigin))) ;;
    if bool_decide (l1_ID canonical <> unsafeOrigin) then
      throw (NewResetError (ErrNew "l2 unsafe head origin is no longer canonical"))
    else ret tt
  else ret tt.

(** The last part of [Step]: pulling the next attributes from the previous stage. *)
Definition pull_attributes : M t unit :=
  eq <- get ;;
  let newOrigin := nap_Origin (prev eq) in
  verifyNewL1Origin newOrigin ;;;
  modify (fun eq => postProcessSafeL2 (set_origin newOrigin eq)) ;;;
  tryFinalizePastL2Blocks ;;;
  eq <- get ;;
  next <- on_prev (nap_NextAttributes (safeHead eq)) ;;
  modify (fun eq => set_safeAttributes (Some (mkAttributesWithParent next (safeHead eq))) eq) ;;;
  throw NotEnoughData.

(** The part of [Step] after the unsafe payloads. *)
Definition step_safe : M t unit :=
  eq <- get ;;
  if isEngineSyncing eq then throw EngineP2PSyncing
  else match safeAttributes eq with
       | Some _ => tryNextSafeAttributes
       | None => pull_attributes
       end.

(** [EngineQueue.Step]. *)
Definition Step : M t unit :=
  eq <- get ;;
  if needForkchoiceUpdate eq then tryUpdateEngine
  else if 0 <? pq_Len (unsafePayloads eq) then
    r <- attempt tryNextUnsafePayload ;;
    match r with
    | inl _ => ret tt
    | inr err => if err_eqb err EOF then step_safe else throw err
    end
  else step_safe.

(** ** Reset *)

(** [Engine] and the L1 fetcher as the two nodes of [FindL2Heads]. *)
Definition on_nodes {A} (m : M (L * E) A) : M t A :=
  zoom (fun eq => (l1Fetcher eq, engine eq))
       (fun n eq => set_engine n.2 (set_l1Fetcher n.1 eq)) m.

(** The loop of [Reset], with a bound on its iterations: it walks back to an L2 block
    whose L1 origin is at least a channel timeout behind. *)
Fixpoint walk_pipeline (fuel : nat) (l1Origin : L1BlockRef) (pipelineL2 : L2BlockRef)
    : M t (option L2BlockRef) :=
  let g := cfg_Genesis cfg in
  if (id_Number (gen_L2 g) <? l2_Number pipelineL2)
     && (id_Number (gen_L1 g) <? id_Number (l2_L1Origin pipelineL2))
     && (l1_Number l1Origin <? id_Number (l2_L1Origin pipelineL2) +u ChannelTimeout cfg) then
    match fuel with
    | O => ret None
    | S fuel' =>
        parent <- wrapE (fun _ => NewResetError (ErrNew "failed to fetch L2 parent block"))
                    (on_engine (eng_L2BlockRefByHash (l2_ParentHash pipelineL2))) ;;
        walk_pipeline fuel' l1Origin parent
    end
  else ret (Some pipelineL2).

(** The assignments at the end of [Reset]. *)
Definition reset_state (heads : FindHeadsResult) (pipelineOrigin : L1BlockRef) (l1Cfg : SystemConfig)
    (eq : t) : t :=
  set_sysCfg l1Cfg (set_origin pipelineOrigin (set_finalityData [] (set_needForkchoiceUpdate true
    (resetBuildingState (set_finalized (fh_Finalized heads) (set_safeAttributes None
      (set_safeHead (fh_Safe heads) (set_engineSyncTarget (fh_Unsafe heads)
        (set_unsafeHead (fh_Unsafe heads) eq))))))))).

(** [EngineQueue.Reset], with at most [fuel] iterations in each of its two loops; it
    ends with an error, [EOF] when it succeeded, and returns only when the fuel was not
    enough. *)
Definition Reset (fuel : nat) : M t unit :=
  result <- wrapE (fun e => NewTemporaryError (ErrWrap "failed to find the L2 Heads to start from" e))
              (on_nodes (FindL2Heads cfg syncCfg fuel)) ;;
  match result with
  | None => ret tt
  | Some heads =>
      let safe := fh_Safe heads in
      l1Origin <- wrapE (fun e => NewTemporaryError (ErrWrap "failed to fetch the new L1 progress" e))
                    (on_l1 (l1c_L1BlockRefByHash (id_Hash (l2_L1Origin safe)))) ;;
      if l2_Time safe <? l1_Time l1Origin then
        throw (NewResetError (ErrNew "cannot reset block derivation to start at L2 block older than its L1 origin"))
      else
        pipelineL2 <- walk_pipeline fuel l1Origin safe ;;
        match pipelineL2 with
        | None => ret tt
        | Some pipelineL2 =>
            pipelineOrigin <- wrapE (fun e => NewTemporaryError (ErrWrap "failed to fetch the new L1 progress" e))
                                (on_l1 (l1c_L1BlockRefByHash (id_Hash (l2_L1Origin pipelineL2)))) ;;
            l1Cfg <- wrapE (fun e => NewTemporaryError (ErrWrap "failed to fetch L1 config of L2 block" e))
                       (on_engine (eng_SystemConfigByL2Hash (l2_Hash pipelineL2))) ;;
            modify (reset_state heads pipelineOrigin l1Cfg) ;;;
            throw EOF
        end
  end.

(** [EngineQueue.UnsafeL2SyncTarget]. *)
Definition UnsafeL2SyncTarget (eq : t) : result L2BlockRef :=
  match Peek (unsafePayloads eq) with
  | Some first =>
      match PayloadToBlockRef first (cfg_Genesis cfg) with
      | Ok ref => Ok ref
      | Err _ => Ok zeroL2
      | Panic => Panic
      end
  | None => Ok zeroL2
  end.
End EngineQueue.
Arguments t : clear implicits.
End EngineQueue.
