(* ===== verification/EngineQueueSpec.v ===== *)
(** * What the engine queue guarantees: buffers, finality, engine sync

    Theorems on [EngineQueue]: the meaning of finality, the invariant of its buffers in
    every reachable state, and the absence of engine sync when it is disabled.  The
    theorems on the safe chain, errors and resets are in [EngineQueueSafety]. *)
From S2P Require Import Prelude GoErrors GoBytes EthTypes Geth Payloads Attributes PayloadsQueue EngineUpdate SyncStart EngineQueue.
#[local] Open Scope Z_scope.
Import EngineQueue.

(** ** The pieces of state each operation can touch *)
Section Frames.
Context {E P L : Type} `{Engine E} `{NextAttributesProvider P} `{L1Chain L} `{Keccak} `{TxCodec}.
Context (cfg : Config) (syncCfg : SyncConfig).
Implicit Types q : t E P L.

(** A relation that the calls to the environments, and the assignments that do not
    concern it, respect. *)
Context (R : t E P L -> t E P L -> Prop) `{!PreOrder R}.

Class Respects : Prop := {
  r_engine e q : R q (set_engine e q);
  r_prev p q : R q (set_prev p q);
  r_l1 l q : R q (set_l1Fetcher l q);
  r_pop q : R q (set_unsafePayloads (Pop (unsafePayloads q)).2 q) }.
Context `{!Respects}.

Lemma preserves_on_engine {A} (m : M E A) : preserves R (on_engine m).
Proof. apply preserves_zoom. intros. apply r_engine. Qed.
Lemma preserves_on_prev {A} (m : M P A) : preserves R (on_prev m).
Proof. apply preserves_zoom. intros. apply r_prev. Qed.
Lemma preserves_on_l1 {A} (m : M L A) : preserves R (on_l1 m).
Proof. apply preserves_zoom. intros. apply r_l1. Qed.
Lemma preserves_on_nodes {A} (m : M (L * E) A) : preserves R (on_nodes m).
Proof. apply preserves_zoom. intros. etrans; [apply r_l1|apply r_engine]. Qed.
Lemma preserves_pop : preserves R pop_unsafe.
Proof. intros q r q' [= _ <-]. apply r_pop. Qed.
End Frames.

Ltac queue_code := repeat first
  [ progress go_code
  | refine (preserves_on_engine _ _) | refine (preserves_on_prev _ _) | refine (preserves_on_l1 _ _)
  | refine (preserves_on_nodes _ _) | refine (preserves_pop _) | apply preserves_modify; intros ? ].

(** ** Finality *)
Section Finality.
Context {E P L : Type} `{Engine E} `{NextAttributesProvider P} `{L1Chain L} `{Keccak} `{TxCodec}.
Context (cfg : Config) (syncCfg : SyncConfig).
Implicit Types q : t E P L.

Lemma finalize_fold l1 f need data f' need' :
  foldl (finalize_entry l1) (f, need) data = (f', need') ->
  ((f' = f /\ need' = need) \/
   (need' = true /\ l2_Number f < l2_Number f' /\
    exists fd, fd ∈ data /\ f' = fd_L2Block fd /\ id_Number (fd_L1Block fd) <= l1_Number l1)) /\
  Forall (fun fd => id_Number (fd_L1Block fd) <= l1_Number l1 ->
                    l2_Number (fd_L2Block fd) <= l2_Number f') data.
Proof.
  revert f need. induction data as [|fd data IH]; intros f need; cbn [foldl].
  { intros [= <- <-]. split; [by left|constructor]. }
  unfold finalize_entry at 2.
  destruct (_ && _) eqn:Ec; intros [Hc Hall]%IH.
  - apply andb_prop in Ec as [Hn%Z.ltb_lt Hl%Z.leb_le]. split.
    + right. destruct Hc as [[-> ->]|(-> & Hlt & fd' & Hin & -> & Hfin)].
      * split_and!; [done..|]. exists fd. split_and!; [constructor|done..].
      * split_and!; [done|lia|]. exists fd'. split_and!; [by constructor|done..].
    + constructor; [|done]. intros _. destruct Hc as [[-> _]|(_ & ? & _)]; lia.
  - split.
    + destruct Hc as [?|(-> & Hlt & fd' & Hin & -> & Hfin)]; [by left|right].
      split_and!; [done..|]. exists fd'. split_and!; [by constructor|done..].
    + constructor; [|done]. intros Hle. apply andb_false_iff in Ec as [?%Z.ltb_ge|?%Z.leb_gt]; [|lia].
      destruct Hc as [[-> _]|(_ & ? & _)]; lia.
Qed.

(** C29: finality is safe and complete for the data the node has.  Trying to finalize
    leaves the finalized block alone, or moves it up to a block that was fully derived
    from an L1 block at or below the finalized L1 block; afterwards no recorded block
    derived from finalized L1 data is above the finalized block; the engine is told
    exactly when it moved; and no other field of the queue changes but the place of the
    last try. *)
Theorem tryFinalizeL2_spec q :
  let q' := tryFinalizeL2 q in
  (if decide (finalizedL1 q = zeroL1) then q' = q
   else
     (finalized q' = finalized q \/
      l2_Number (finalized q) < l2_Number (finalized q') /\ needForkchoiceUpdate q' = true /\
      exists fd, fd ∈ finalityData q /\ finalized q' = fd_L2Block fd /\
        id_Number (fd_L1Block fd) <= l1_Number (finalizedL1 q)) /\
     Forall (fun fd => id_Number (fd_L1Block fd) <= l1_Number (finalizedL1 q) ->
                       l2_Number (fd_L2Block fd) <= l2_Number (finalized q')) (finalityData q) /\
     triedFinalizeAt q' = origin q) /\
  (finalized q' = finalized q -> needForkchoiceUpdate q' = needForkchoiceUpdate q) /\
  q' = set_finalized (finalized q') (set_needForkchoiceUpdate (needForkchoiceUpdate q')
         (set_triedFinalizeAt (triedFinalizeAt q') q)).
Proof.
  cbv zeta. unfold tryFinalizeL2.
  case_bool_decide as Hz; [rewrite decide_True by done; split_and!; [done..|by destruct q]|]. rewrite decide_False by done.
  destruct (foldl _ _ _) as [f' need'] eqn:Ef. apply finalize_fold in Ef as [Hc Hall].
  cbn. split_and!; try done.
  - destruct Hc as [[-> _]|(-> & Hlt & Hex)]; [by left|by right].
  - destruct Hc as [[-> ->]|(-> & Hlt & Hex)]; [done|]. intros Heq. rewrite Heq in Hlt. lia.
Qed.

(** The recorded L1 blocks increase strictly, and there are at most [finalityLookback]. *)
Definition fd_lt (a b : FinalityData) : Prop := id_Number (fd_L1Block a) < id_Number (fd_L1Block b).

Definition finality_ok (data : list FinalityData) : Prop :=
  StronglySorted fd_lt data /\ (length data <= finalityLookback)%nat.

Lemma finality_snoc data fd :
  StronglySorted fd_lt data -> (forall fd', last data = Some fd' -> fd_lt fd' fd) ->
  StronglySorted fd_lt (data ++ [fd]).
Proof.
  intros Hs Hl. apply StronglySorted_app. split_and!; [|done|by repeat constructor].
  intros x y Hx ->%list_elem_of_singleton.
  destruct (last data) as [fd'|] eqn:El; [|by apply last_None in El; subst; apply not_elem_of_nil in Hx].
  pose proof (Hl fd' eq_refl) as Hlt. apply last_Some in El as [l' ->].
  apply StronglySorted_app in Hs as (Hs & _ & _). apply elem_of_app in Hx as [Hx| ->%list_elem_of_singleton]; [|done].
  pose proof (Hs x fd' Hx (list_elem_of_here _ _)). unfold fd_lt in *. lia.
Qed.

Lemma postProcess_ok q : finality_ok (finalityData q) -> finality_ok (finalityData (postProcessSafeL2 q)).
Proof.
  intros [Hs Hl]. unfold postProcessSafeL2. cbn [finalityData set_finalityData].
  set (data := if (_ <=? _)%nat then _ else finalityData q).
  assert (StronglySorted fd_lt data /\ (length data < finalityLookback)%nat) as [Hs' Hl'].
  { unfold data. destruct (Nat.leb_spec finalityLookback (length (finalityData q))); [|done].
    rewrite length_take, length_drop. split; [|unfold finalityLookback in *; lia].
    eapply StronglySorted_app_1_l. rewrite take_drop. eapply StronglySorted_app_1_r. by rewrite take_drop. }
  clearbody data. destruct (last data) as [fd|] eqn:El.
  - case_if.
    + split; [|rewrite length_app; simpl; lia]. apply finality_snoc; [done|].
      intros fd' [= <-]%(transitivity (eq_sym El)). unfold fd_lt. cbn. lia.
    + split; [|rewrite length_insert; lia]. apply last_Some in El as [l ->].
      rewrite length_app, insert_app_r_alt by (simpl; lia). cbn [length].
      replace (length l + 1 - 1 - length l)%nat with 0%nat by lia. cbn.
      apply StronglySorted_app in Hs' as (H12 & Hs1 & _). apply StronglySorted_app.
      split_and!; [|done|by repeat constructor].
      intros x y Hx ->%list_elem_of_singleton. exact (H12 x fd Hx (list_elem_of_here _ _)).
  - apply last_None in El as ->. split; [by repeat constructor|]. cbn. unfold finalityLookback. lia.
Qed.

(** The invariant of the queue. *)
Record inv q : Prop := {
  i_finality : finality_ok (finalityData q);
  i_payloads : pq_inv (unsafePayloads q);
  i_max : MaxSize (unsafePayloads q) = maxUnsafePayloadsMemory;
  i_size : SizeFn (unsafePayloads q) = fun p => payloadMemSize (Some p) }.

#[export] Instance keeps_inv_respects : Respects (keeps inv).
Proof.
  split; try (intros ? q [Hf Hp Hm Hs]; by split).
  intros q [Hf Hp Hm Hs]. destruct (Pop_keeps _ Hp) as (Hp' & Hm' & Hs'). split; cbn; by rewrite ?Hm', ?Hs'.
Qed.

Lemma new_queue_inv e p l : inv (new e p l).
Proof.
  split; [|apply NewPayloadsQueue_inv; done|done..].
  split; [constructor|]. cbn. lia.
Qed.

Lemma postProcess_inv q : inv q -> inv (postProcessSafeL2 q).
Proof. intros [Hf Hp Hm Hs]. split; [by apply postProcess_ok|done..]. Qed.

Lemma tryFinalize_inv q : inv q -> inv (tryFinalizeL2 q).
Proof.
  intros [Hf Hp Hm Hs]. unfold tryFinalizeL2. case_bool_decide; [by split|].
  destruct (foldl _ _ _). by split.
Qed.

Lemma reset_state_inv heads o c q : inv q -> inv (reset_state heads o c q).
Proof. intros [Hf Hp Hm Hs]. split; [|done..]. split; [constructor|]. cbn. lia. Qed.

Lemma AddUnsafe_total payload q :
  inv q -> exists q', AddUnsafePayload payload q = Some (Ok tt, q') /\ inv q'.
Proof.
  intros [Hf Hp Hm Hs]. unfold AddUnsafePayload. destruct payload as [p|]; [|by eexists].
  assert (0 <= SizeFn (unsafePayloads q) p) as Hpos.
  { rewrite Hs. apply payloadMemSize_nonneg. }
  destruct (Push_total p (unsafePayloads q) Hp Hpos) as (r & upq & -> & Hi & Hm' & Hs' & Hr).
  destruct r as [[]|e|]; [|subst|done].
  - destruct (Peek upq); [|done]. eexists. split; [done|]. split; cbn; by rewrite ?Hm', ?Hs'.
  - eexists. split; [done|]. by split.
Qed.
End Finality.

Ltac keep_inv :=
  unfold keeps; cbv beta;
  first [ apply tryFinalize_inv | apply reset_state_inv | idtac ];
  let Hi := fresh "Hi" in intros Hi;
  try apply postProcess_inv; destruct Hi; by split.

Section Invariant.
Context {E P L : Type} `{Engine E} `{NextAttributesProvider P} `{L1Chain L} `{Keccak} `{TxCodec}.
Context (cfg : Config) (syncCfg : SyncConfig).
Implicit Types q : t E P L.

Lemma tryUpdateEngine_inv : preserves (S:=t E P L) (keeps inv) tryUpdateEngine.
Proof. unfold tryUpdateEngine. queue_code. keep_inv. Qed.

Lemma tryNextUnsafePayload_inv : preserves (S:=t E P L) (keeps inv) (tryNextUnsafePayload cfg syncCfg).
Proof. unfold tryNextUnsafePayload, insert_unsafe_payload. queue_code; keep_inv. Qed.

Lemma StartPayload_inv parent attrs safe : preserves (S:=t E P L) (keeps inv) (StartPayload parent attrs safe).
Proof. unfold StartPayload, not_inserted, inserted. queue_code; keep_inv. Qed.

Lemma ConfirmPayload_inv : preserves (S:=t E P L) (keeps inv) (ConfirmPayload cfg).
Proof. unfold ConfirmPayload, not_inserted, inserted. queue_code; keep_inv. Qed.

Lemma CancelPayload_inv force : preserves (S:=t E P L) (keeps inv) (CancelPayload force).
Proof. unfold CancelPayload. queue_code; keep_inv. Qed.

Lemma tryNextSafeAttributes_inv : preserves (S:=t E P L) (keeps inv) (tryNextSafeAttributes cfg).
Proof.
  assert (preserves (S:=t E P L) (keeps inv) (forceNextSafeAttributes cfg)).
  { unfold forceNextSafeAttributes. queue_code; first
      [apply StartPayload_inv|apply ConfirmPayload_inv|apply CancelPayload_inv|keep_inv]. }
  unfold tryNextSafeAttributes, consolidateNextSafeAttributes. queue_code; keep_inv.
Qed.

Lemma Step_inv : preserves (S:=t E P L) (keeps inv) (Step cfg syncCfg).
Proof.
  assert (preserves (S:=t E P L) (keeps inv) (step_safe cfg)).
  { pose proof tryNextSafeAttributes_inv.
    unfold step_safe, pull_attributes, verifyNewL1Origin, tryFinalizePastL2Blocks. queue_code; keep_inv. }
  pose proof tryUpdateEngine_inv. pose proof tryNextUnsafePayload_inv.
  unfold Step. queue_code.
Qed.

Lemma walk_pipeline_respects (R : t E P L -> t E P L -> Prop) `{!PreOrder R, !Respects R} fuel o b :
  preserves R (walk_pipeline cfg fuel o b).
Proof. revert b. induction fuel as [|fuel IH]; intros b; cbn [walk_pipeline]; queue_code. Qed.

Lemma Reset_inv fuel : preserves (S:=t E P L) (keeps inv) (Reset cfg syncCfg fuel).
Proof. unfold Reset. queue_code; first [apply walk_pipeline_respects; apply _|keep_inv]. Qed.

(** The calls other parts of the node make to the queue: the pipeline steps and resets
    it, the driver signals finality and adds payloads, the sequencer builds blocks. *)
Inductive call : t E P L -> t E P L -> Prop :=
  | call_Step q r q' : Step cfg syncCfg q = (r, q') -> call q q'
  | call_Reset fuel q r q' : Reset cfg syncCfg fuel q = (r, q') -> call q q'
  | call_Finalize l1Origin q : call q (Finalize l1Origin q)
  | call_AddUnsafePayload payload q r q' : AddUnsafePayload payload q = Some (r, q') -> call q q'
  | call_StartPayload parent attrs safe q r q' : StartPayload parent attrs safe q = (r, q') -> call q q'
  | call_ConfirmPayload q r q' : ConfirmPayload cfg q = (r, q') -> call q q'
  | call_CancelPayload force q r q' : CancelPayload force q = (r, q') -> call q q'.

Lemma call_inv q q' : call q q' -> inv q -> inv q'.
Proof.
  intros [q0 r q1 Hx|fuel q0 r q1 Hx|o q0|p q0 r q1 Hx|parent attrs safe q0 r q1 Hx|q0 r q1 Hx|force q0 r q1 Hx] Hi.
  - by eapply Step_inv.
  - by eapply Reset_inv.
  - unfold Finalize. case_if; [done|]. case_if; [apply tryFinalize_inv|]; destruct Hi; by split.
  - destruct (AddUnsafe_total p q0 Hi) as (q2 & Heq & ?). by rewrite Hx in Heq; injection Heq as _ ->.
  - by eapply StartPayload_inv.
  - by eapply ConfirmPayload_inv.
  - by eapply CancelPayload_inv.
Qed.

(** In every state the queue can reach, by any sequence of the calls the node makes
    to it, whatever the engine, the L1 node and the previous stage answer: the finality
    data is strictly increasing in L1 block numbers and holds at most 129 entries; the
    queue of unsafe payloads is well formed and within its memory limit; and adding any
    payload returns without an error or panic. *)
Theorem reachable_inv e p l q :
  rtc call (new e p l) q ->
  StronglySorted fd_lt (finalityData q) /\ (length (finalityData q) <= 129)%nat /\
  pq_inv (unsafePayloads q) /\ MemSize (unsafePayloads q) <= maxUnsafePayloadsMemory /\
  (forall payload, exists q', AddUnsafePayload payload q = Some (Ok tt, q')).
Proof.
  intros Hr. assert (inv q) as Hi.
  { pose proof (new_queue_inv e p l) as Hi. induction Hr as [|q1 q2 q3 Hc _ IH]; [done|].
    apply IH. by eapply call_inv. }
  pose proof Hi as [[Hf Hl] Hp Hm _]. split_and!; [done..| |].
  - rewrite <- Hm. apply Hp.
  - intros payload. destruct (AddUnsafe_total payload q Hi) as (q' & ? & _). eauto.
Qed.
End Invariant.

(** ** Without engine sync the queue never waits for the engine *)
Section SyncTarget.
Context {E P L : Type} `{Engine E} `{NextAttributesProvider P} `{L1Chain L} `{Keccak} `{TxCodec}.
Context (cfg : Config) (syncCfg : SyncConfig) (Hsync : EngineSync syncCfg = false).
Implicit Types q : t E P L.

Definition at_target q : Prop := engineSyncTarget q = unsafeHead q.

#[export] Instance at_target_respects : Respects (keeps at_target).
Proof. split; unfold keeps, at_target; cbn; intros; done. Qed.

Lemma postProcess_target q : at_target q -> at_target (postProcessSafeL2 q).
Proof. done. Qed.

Lemma tryFinalize_target q : at_target q -> at_target (tryFinalizeL2 q).
Proof. unfold tryFinalizeL2. case_bool_decide; [done|]. by destruct (foldl _ _ _). Qed.

(** The insertion moves both heads: an accepted status is [VALID]. *)
Lemma insert_unsafe_target first ref : preserves (keeps at_target) (insert_unsafe_payload syncCfg first ref).
Proof.
  unfold insert_unsafe_payload. refine (preserves_bind _ _ _ _ _); [queue_code|intros status].
  destruct (negb _); [by queue_code|]. refine (preserves_bind _ _ _ _ _); [queue_code|intros q0].
  refine (preserves_bind _ _ _ _ _); [queue_code|intros fcRes].
  intros q r q' Hx Ht. unfold checkForkchoiceUpdatedStatus in Hx. rewrite Hsync in Hx.
  destruct (PayloadStatus _); by injection Hx as _ <-.
Qed.

Lemma new_target e p l : at_target (new e p l).
Proof. done. Qed.

Ltac keep_target := unfold keeps, at_target; cbn; first [by eauto|by intros].

Lemma call_target q q' : call cfg syncCfg q q' -> at_target q -> at_target q'.
Proof.
  assert (forall parent attrs safe, preserves (keeps at_target) (StartPayload parent attrs safe)).
  { intros. unfold StartPayload, not_inserted, inserted. queue_code; keep_target. }
  assert (preserves (keeps at_target) (ConfirmPayload cfg)).
  { unfold ConfirmPayload, not_inserted, inserted. queue_code; keep_target. }
  assert (forall force, preserves (keeps at_target) (CancelPayload force)).
  { intros. unfold CancelPayload. queue_code; keep_target. }
  assert (preserves (keeps at_target) (forceNextSafeAttributes cfg)).
  { unfold forceNextSafeAttributes. queue_code; keep_target. }
  assert (preserves (keeps at_target) (step_safe cfg)).
  { unfold step_safe, tryNextSafeAttributes, consolidateNextSafeAttributes, pull_attributes,
      verifyNewL1Origin, tryFinalizePastL2Blocks. queue_code; first [exact (tryFinalize_target _)|keep_target]. }
  pose proof insert_unsafe_target.
  intros [q0 r q1 Hx|fuel q0 r q1 Hx|o q0|p q0 r q1 Hx|parent attrs safe q0 r q1 Hx|q0 r q1 Hx|force q0 r q1 Hx].
  - revert Hx. unfold Step, tryUpdateEngine, tryNextUnsafePayload. revert q0 r q1.
    change (preserves (keeps at_target) (Step cfg syncCfg)).
    unfold Step, tryUpdateEngine, tryNextUnsafePayload. queue_code; keep_target.
  - revert Hx. revert q0 r q1. change (preserves (keeps at_target) (Reset cfg syncCfg fuel)).
    unfold Reset. queue_code; first [refine (walk_pipeline_respects _ _ _ _ _)|keep_target].
  - unfold Finalize. case_if; [done|]. intros Hq. case_if; [|done]. by apply tryFinalize_target.
  - unfold AddUnsafePayload in Hx. destruct p; [|by injection Hx as _ <-].
    destruct (Push _ _) as [[[|?|] ?]|]; [destruct (Peek _)|..]; try done; by injection Hx as _ <-.
  - by eapply (H4 parent attrs safe).
  - by eapply H5.
  - by eapply (H6 force).
Qed.

(** Without engine sync the target of the engine's sync is always the unsafe head,
    in every state the queue can reach: it is never considered to be syncing, so that
    neither the derivation nor the building of blocks is ever held up by it. *)
Theorem target_is_unsafe_head e p l q :
  rtc (call cfg syncCfg) (new e p l) q ->
  engineSyncTarget q = unsafeHead q /\ isEngineSyncing q = false.
Proof.
  intros Hr. assert (at_target q) as Hq.
  { pose proof (new_target e p l) as Hn. induction Hr as [|q1 q2 q3 Hc _ IH]; [done|].
    apply IH. by eapply call_target. }
  unfold isEngineSyncing. by rewrite Hq, Z.eqb_refl.
Qed.
End SyncTarget.
