(* ===== verification/EngineQueueSafety.v ===== *)
(** * What the engine queue guarantees: the safe chain, errors and resets

    Theorems on [EngineQueue]: the safe chain only grows, every error has a severity,
    and a reset is all or nothing and ends; with a concrete engine for all of them. *)
From S2P Require Import Prelude GoErrors GoBytes EthTypes Geth Payloads Attributes PayloadsQueue EngineUpdate SyncStart EngineQueue EngineQueueSpec.
#[local] Open Scope Z_scope.
Import EngineQueue.

(** ** The safe chain *)

(** A payload built at the request of a forkchoice update is built on the requested
    head. *)
Class LawfulBuilder (E : Type) `{Engine E} := {
  built_on (fc : ForkchoiceState) attrs (e : E) res id (e1 : E) p (e2 : E) :
    eng_ForkchoiceUpdate fc (Some attrs) e = (Ok res, e1) -> PayloadID res = Some id ->
    eng_GetPayload id e1 = (Ok p, e2) -> ep_ParentHash p = HeadBlockHash fc }.

Lemma PayloadToBlockRef_parent `{Keccak} `{TxCodec} payload g ref :
  PayloadToBlockRef payload g = Ok ref ->
  l2_Hash ref = ep_BlockHash payload /\ l2_ParentHash ref = ep_ParentHash payload /\
  l2_Number ref = ep_BlockNumber payload.
Proof.
  unfold PayloadToBlockRef.
  destruct (if ep_BlockNumber payload =? _ then _ else _) as [[o n]|e|]; [|done..]. by intros [= <-].
Qed.

Section SafeChain.
Context {E P L : Type} `{Engine E} `{NextAttributesProvider P} `{L1Chain L} `{Keccak} `{TxCodec}.
Context (cfg : Config) (syncCfg : SyncConfig).
Implicit Types q : t E P L.

(** The three heads and the attributes. *)
Definition heads q : L2BlockRef * L2BlockRef * L2BlockRef * option attributesWithParent :=
  (safeHead q, unsafeHead q, finalized q, safeAttributes q).

#[export] Instance same_heads_respects : Respects (same heads).
Proof. by split. Qed.

Lemma engine_StartPayload_inv fc attrs e r e' :
  EngineUpdate.StartPayload fc attrs e = (Ok r, e') ->
  match r with
  | inl id => exists res, eng_ForkchoiceUpdate fc (Some attrs) e = (Ok res, e') /\ PayloadID res = Some id
  | inr (ty, _) => ty <> BlockInsertOK
  end.
Proof.
  unfold EngineUpdate.StartPayload, bind, attempt, not_inserted, inserted, ret.
  destruct (eng_ForkchoiceUpdate fc (Some attrs) e) as [[res|err|] e1]; [| |done].
  - destruct (PayloadStatus res); [destruct (PayloadID res) eqn:Ei|..]; intros [= <- <-]; eauto.
  - intros [= <- <-]. unfold start_payload_err.
    destruct (errors_As_InputError err) as [[code inner]|]; [repeat case_if|]; done.
Qed.

Lemma engine_ConfirmPayload_not_OK fc id safe e ty err e' :
  EngineUpdate.ConfirmPayload fc id safe e = (Ok (inr (ty, err)), e') -> ty <> BlockInsertOK.
Proof.
  unfold EngineUpdate.ConfirmPayload, make_canonical, bind, attempt, not_inserted, inserted, ret, lift.
  destruct (eng_GetPayload id e) as [[p|er|] e1]; [|by intros [= <- _ _]|done].
  destruct (sanityCheckPayload p) as [[]|er|]; [|by intros [= <- _ _]|done].
  destruct (eng_NewPayload p e1) as [[st|er|] e2]; [|by intros [= <- _ _]|done].
  destruct (_ || _); [by intros [= <- _ _]|]. case_bool_decide; [by intros [= <- _ _]|].
  destruct (eng_ForkchoiceUpdate _ _ e2) as [[res|er|] e3]; [case_bool_decide; [by intros [= <- _ _]|done]| |done].
  unfold confirm_payload_err.
  destruct (errors_As_InputError er) as [[code inner]|]; [case_if|]; by intros [= <- _ _].
Qed.

Lemma zoom_Ok {S T A} (getT : S -> T) setT (m : M T A) s r s' :
  zoom getT setT m s = (r, s') -> exists u, m (getT s) = (r, u) /\ s' = setT u s.
Proof. unfold zoom. destruct (m (getT s)) as [r' u]. intros [= <- <-]. by exists u. Qed.

(** Starting a block. *)
Lemma StartPayload_spec parent attrs safe q r q' :
  StartPayload parent attrs safe q = (r, q') ->
  heads q' = heads q /\
  match r with
  | Ok (inl _) => exists res,
      eng_ForkchoiceUpdate (mkForkchoiceState (l2_Hash parent) (l2_Hash (safeHead q)) (l2_Hash (finalized q)))
        (Some attrs) (engine q) = (Ok res, engine q') /\
      PayloadID res = Some (buildingID q') /\ buildingSafe q' = safe /\ buildingOnto q' = parent
  | Ok (inr (ty, _)) => ty <> BlockInsertOK
  | _ => True
  end.
Proof.
  unfold StartPayload, bind at 1, get. case_if; [by intros [= <- <-]|].
  intros [(id & q1 & (e1 & He & ->)%zoom_Ok & Hk)|[(e & (e1 & _ & ->)%zoom_Ok & ->)|[(e1 & _ & ->)%zoom_Ok ->]]]%bind_cases;
    [|done..].
  apply engine_StartPayload_inv in He. destruct id as [id|[ty err]].
  - injection Hk as <- <-. split; [done|]. destruct He as (res & He & Hi). by exists res.
  - injection Hk as <- <-. done.
Qed.

(** Completing a block. *)
Lemma ConfirmPayload_spec q r q' :
  ConfirmPayload cfg q = (r, q') ->
  match r with
  | Ok (inl payload) => exists ref e1 e2,
      eng_GetPayload (buildingID q) (engine q) = (Ok payload, e1) /\
      EngineUpdate.ConfirmPayload (mkForkchoiceState 0 (l2_Hash (safeHead q)) (l2_Hash (finalized q)))
        (buildingID q) (buildingSafe q) (engine q) = (Ok (inl payload), e2) /\
      PayloadToBlockRef payload (cfg_Genesis cfg) = Ok ref /\
      heads q' = ((if buildingSafe q then ref else safeHead q), ref, finalized q, safeAttributes q) /\
      buildingID q' = 0
  | Ok (inr (ty, _)) => heads q' = heads q /\ ty <> BlockInsertOK
  | _ => heads q' = heads q
  end.
Proof.
  unfold ConfirmPayload, bind at 1, get. case_if; [by intros [= <- <-]|].
  intros [(p & q1 & (e1 & He & ->)%zoom_Ok & Hk)|[(e & (e1 & _ & ->)%zoom_Ok & ->)|[(e1 & _ & ->)%zoom_Ok ->]]]%bind_cases;
    [|done..].
  destruct p as [payload|[ty err]].
  - destruct (PayloadToBlockRef payload (cfg_Genesis cfg)) as [ref|err|] eqn:Er; [|by injection Hk as <- <-..].
    pose proof He as (e2 & _ & _ & Hg & _)%ConfirmPayload_inserted.
    destruct (buildingSafe q) eqn:Eb; injection Hk as <- <-; by exists ref, e2, e1.
  - injection Hk as <- <-. split; [done|]. by eapply engine_ConfirmPayload_not_OK.
Qed.

Lemma CancelPayload_heads force : preserves (same heads) (CancelPayload force).
Proof. unfold CancelPayload. queue_code; done. Qed.

(** The insertion calls report their errors with a type. *)
Lemma StartPayload_no_err parent attrs safe : fails_with (S:=t E P L) (fun _ => False) (StartPayload parent attrs safe).
Proof.
  unfold StartPayload, on_engine, not_inserted, inserted. go_code. apply fails_zoom.
  unfold EngineUpdate.StartPayload, not_inserted, inserted. go_code.
Qed.

Lemma ConfirmPayload_no_err : fails_with (S:=t E P L) (fun _ => False) (ConfirmPayload cfg).
Proof.
  unfold ConfirmPayload, on_engine, not_inserted, inserted. go_code. apply fails_zoom.
  unfold EngineUpdate.ConfirmPayload, make_canonical, not_inserted, inserted. go_code.
Qed.

(** The outcome of starting and completing a block on [parent]. *)
Lemma start_confirm_spec `{!LawfulBuilder E} parent attrs q r q' :
  start_and_confirm cfg parent attrs q = (r, q') ->
  match r with
  | Ok None => exists ref, heads q' = (ref, ref, finalized q, safeAttributes q) /\
      l2_ParentHash ref = l2_Hash parent /\ buildingID q' = 0
  | Ok (Some (ty, _)) => heads q' = heads q /\ ty <> BlockInsertOK
  | Err _ => False
  | Panic => heads q' = heads q
  end.
Proof.
  intros [(started & q1 & Hs & Hx)|[(e & Hs & ->)|[Hs ->]]]%bind_cases.
  2: by apply StartPayload_no_err in Hs.
  2: by apply StartPayload_spec in Hs as [? _].
  pose proof Hs as [Hh Hst]%StartPayload_spec. destruct started as [[]|[ty err]].
  2: by injection Hx as <- <-.
  destruct Hst as (res & Hf & Hid & Hb & _).
  apply bind_cases in Hx as [(c & q2 & Hc & [= <- <-])|[(e & Hc & ->)|[Hc ->]]].
  2: by apply ConfirmPayload_no_err in Hc.
  2: by apply ConfirmPayload_spec in Hc as ->.
  apply ConfirmPayload_spec in Hc. destruct c as [payload|[ty err]]; [|by rewrite <- Hh].
  destruct Hc as (ref & e1 & e2 & Hg & _ & Hr & Hq & Hz). exists ref.
  pose proof (PayloadToBlockRef_parent _ _ _ Hr) as (_ & -> & _). rewrite Hb in Hq.
  injection Hh as _ _ Hfin Hsa. rewrite Hq, Hfin, Hsa. split_and!; try done.
  by rewrite (built_on _ _ _ _ _ _ _ _ Hf Hid Hg).
Qed.

Lemma attempt_then {A B} (m : M (t E P L) A) (k : M (t E P L) B) q r q' :
  preserves (same heads) m -> (attempt m ;;; k) q = (r, q') ->
  exists q1, heads q1 = heads q /\ (k q1 = (r, q') \/ (r = Panic /\ q' = q1)).
Proof.
  intros Hm [(a & q1 & Ha & Hk)|[(e & Ha & ->)|[Ha ->]]]%bind_cases.
  - exists q1. split; [|by left]. by apply (preserves_attempt _ _ Hm) in Ha.
  - by apply fails_attempt with (Q := fun _ => False) in Ha.
  - exists q'. split; [|by right]. by apply (preserves_attempt _ _ Hm) in Ha.
Qed.

Lemma heads_clear q : heads (set_safeAttributes None q) = ((heads q).1, None).
Proof. done. Qed.

Lemma forceNext_spec `{!LawfulBuilder E} awp q r q' :
  safeAttributes q = Some awp -> forceNextSafeAttributes cfg q = (r, q') ->
  let txs := pa_Transactions (awp_attributes awp) in
  match r with
  | Ok _ =>
      (exists ref, heads q' = (ref, ref, finalized q, None) /\ l2_ParentHash ref = l2_Hash (safeHead q)) \/
      (heads q' = (safeHead q, unsafeHead q, finalized q, None) /\ depositCount txs <> length txs)
  | Err e =>
      heads q' = heads q /\
      exists lvl inner, e = NewError (Some inner) lvl /\ (lvl = LevelCritical -> depositCount txs = length txs)
  | Panic => heads q' = heads q
  end.
Proof.
  intros Hawp Hx. cbv zeta. unfold forceNextSafeAttributes, bind at 1, get in Hx. rewrite Hawp in Hx.
  set (txs := pa_Transactions (awp_attributes awp)) in *.
  apply bind_cases in Hx as [(c & q1 & Hs%start_confirm_spec & Hx)|[(e & Hs%start_confirm_spec & ->)|[Hs%start_confirm_spec ->]]];
    [|done..].
  destruct c as [[ty err]|].
  2: { destruct Hs as (ref & Hq & Hp & _). injection Hx as <- <-. left. exists ref.
       split; [|done]. by rewrite heads_clear, Hq. }
  destruct Hs as [Hq Hty]. destruct ty; [done|..].
  - injection Hx as <- <-. split; [done|]. by do 2 eexists.
  - apply (attempt_then _ _ _ _ _ (CancelPayload_heads true)) in Hx as (q2 & Hq2 & [[= <- <-]|[-> ->]]);
      rewrite Hq2; [split; [done|]; by do 2 eexists|done].
  - apply (attempt_then _ _ _ _ _ (CancelPayload_heads true)) in Hx as (q2 & Hq2 & [Hx|[-> ->]]);
      [|by rewrite Hq2]. rewrite Hq in Hq2.
    destruct (Nat.eqb_spec (length txs) (depositCount txs)); injection Hx as <- <-.
    + split; [done|]. by do 2 eexists.
    + right. split; [|done]. by rewrite heads_clear, Hq2.
Qed.

(** Forcing attributes derived from L1.  When it returns without an error the
    attributes are gone, and either a new block on the previous safe head became both
    the safe and the unsafe head, or no head moved and the attributes carried
    transactions of a batch (they are dropped so that the next batch can be tried).
    Every error keeps the heads and the attributes, so that the same attributes are
    tried again, has a severity level, and is critical only when the block had nothing
    but deposits. *)
Theorem forceNextSafeAttributes_spec `{!LawfulBuilder E} awp q r q' :
  safeAttributes q = Some awp -> forceNextSafeAttributes cfg q = (r, q') ->
  let txs := pa_Transactions (awp_attributes awp) in
  match r with
  | Ok _ =>
      (exists ref, heads q' = (ref, ref, finalized q, None) /\ l2_ParentHash ref = l2_Hash (safeHead q)) \/
      (heads q' = (safeHead q, unsafeHead q, finalized q, None) /\ depositCount txs <> length txs)
  | Err e =>
      heads q' = heads q /\
      exists lvl inner, e = NewError (Some inner) lvl /\ (lvl = LevelCritical -> depositCount txs = length txs)
  | Panic => heads q' = heads q
  end.
Proof. apply forceNext_spec. Qed.

(** Finality moves up only, and the safe head stays or is replaced by a child. *)
Definition up (a b : L2BlockRef) : Prop := b = a \/ l2_Number a < l2_Number b.

Lemma up_trans a b c : up a b -> up b c -> up a c.
Proof. unfold up. intros [->|?] [->|?]; auto; right; lia. Qed.

Definition fin_grows q q' : Prop := safeHead q' = safeHead q /\ up (finalized q) (finalized q').

Definition grows q q' : Prop :=
  (safeHead q' = safeHead q \/ l2_ParentHash (safeHead q') = l2_Hash (safeHead q)) /\
  up (finalized q) (finalized q').

#[export] Instance fin_grows_preorder : PreOrder fin_grows.
Proof.
  split; [intros q; split; [done|by left]|]. intros q1 q2 q3 [H12 F12] [H23 F23].
  split; [congruence|by eapply up_trans].
Qed.

#[export] Instance fin_grows_respects : Respects fin_grows.
Proof. split; intros; (split; [done|by left]). Qed.

Lemma fin_grows_then q1 q2 q3 : fin_grows q1 q2 -> grows q2 q3 -> grows q1 q3.
Proof. intros [H12 F12] [H23 F23]. split; [by rewrite <- H12|by eapply up_trans]. Qed.

Lemma fin_grows_weaken q q' : fin_grows q q' -> grows q q'.
Proof. intros [Hs Hf]. split; auto. Qed.

Lemma heads_grows q q' : heads q' = heads q -> grows q q'.
Proof. intros [= Hs _ Hf _]. split; by left. Qed.

Lemma tryFinalize_grows q : fin_grows q (tryFinalizeL2 q).
Proof.
  unfold tryFinalizeL2. case_bool_decide; [done|]. destruct (foldl _ _ _) as [f' n'] eqn:Ef.
  apply finalize_fold in Ef as [[[-> _]|(_ & Hlt & _)] _]; (split; [done|]); [by left|by right].
Qed.

Lemma pull_attributes_grows : preserves fin_grows pull_attributes.
Proof.
  unfold pull_attributes, verifyNewL1Origin, tryFinalizePastL2Blocks. queue_code;
    first [apply tryFinalize_grows|split; [done|by left]].
Qed.

Lemma tryNextUnsafePayload_grows : preserves fin_grows (tryNextUnsafePayload cfg syncCfg).
Proof. unfold tryNextUnsafePayload, insert_unsafe_payload. queue_code; (split; [done|by left]). Qed.

Lemma tryUpdateEngine_grows : preserves fin_grows tryUpdateEngine.
Proof. unfold tryUpdateEngine. queue_code. split; [done|by left]. Qed.

Lemma forceNext_grows `{!LawfulBuilder E} : preserves grows (forceNextSafeAttributes cfg).
Proof.
  intros q r q' Hx. destruct (safeAttributes q) as [awp|] eqn:Hawp.
  2: { unfold forceNextSafeAttributes, bind, get in Hx. rewrite Hawp in Hx. injection Hx as _ <-.
       by apply fin_grows_weaken. }
  apply (forceNext_spec awp) in Hx; [|done]. destruct r as [[]|e|].
  - destruct Hx as [(ref & [= Hs _ Hf _] & Hp)|[[= Hs _ Hf _] _]]; (split; [|by left]); rewrite Hs; auto.
  - by apply heads_grows, Hx.
  - by apply heads_grows.
Qed.

(** Every change of the safe head is recorded in the last entry of the finality data. *)
Lemma postProcess_last q :
  exists fd, last (finalityData (postProcessSafeL2 q)) = Some fd /\ fd_L2Block fd = safeHead q.
Proof.
  unfold postProcessSafeL2. cbn [finalityData set_finalityData].
  generalize (if (finalityLookback <=? length (finalityData q))%nat
              then take (finalityLookback - 1) (drop 1 (finalityData q)) else finalityData q).
  intros data. destruct (last data) as [fd|] eqn:El; [case_if|].
  - rewrite last_snoc. by eexists.
  - apply last_Some in El as [l ->].
    rewrite length_app, insert_app_r_alt by (simpl; lia). cbn [length].
    replace (length l + 1 - 1 - length l)%nat with 0%nat by lia. cbn. rewrite last_snoc. by eexists.
  - rewrite last_snoc. by eexists.
Qed.

Lemma postProcess_heads q : heads (postProcessSafeL2 q) = heads q.
Proof. done. Qed.

Lemma consolidate_match q awp payload e' ref :
  safeAttributes q = Some awp ->
  eng_PayloadByNumber (l2_Number (safeHead q) +u 1) (engine q) = (Ok payload, e') ->
  AttributesMatchBlock (awp_attributes awp) (l2_Hash (safeHead q)) payload = Ok tt ->
  PayloadToBlockRef payload (cfg_Genesis cfg) = Ok ref ->
  exists q', consolidateNextSafeAttributes cfg q = (Ok tt, q') /\
    heads q' = (ref, unsafeHead q, finalized q, None) /\ l2_ParentHash ref = l2_Hash (safeHead q) /\
    needForkchoiceUpdate q' = true /\
    exists fd, last (finalityData q') = Some fd /\ fd_L2Block fd = ref.
Proof.
  intros Hawp Hp Hm Hr. unfold consolidateNextSafeAttributes, bind, get, wrapE, on_engine, zoom, lift.
  rewrite Hp. cbn [map_err]. rewrite Hawp, Hm, Hr. cbn [map_err]. eexists. split; [done|].
  rewrite postProcess_heads. split_and!; [done| |done|].
  - apply AttributesMatchBlock_fields in Hm as [-> _].
    by apply PayloadToBlockRef_parent in Hr as (_ & -> & _).
  - apply postProcess_last.
Qed.

(** Consolidating attributes with the unsafe chain.  When the engine has a block at
    the height after the safe head that matches the attributes, this block becomes the
    safe head: it is a child of the previous one, its parent, timestamp, randomness,
    transactions and gas limit are those derived from L1, the unsafe and the finalized
    head are kept, the engine will be told, and the last finality record names it. *)
Theorem consolidate_matching q awp payload e' ref :
  safeAttributes q = Some awp ->
  eng_PayloadByNumber (l2_Number (safeHead q) +u 1) (engine q) = (Ok payload, e') ->
  let attrs := awp_attributes awp in
  l2_Hash (safeHead q) = ep_ParentHash payload -> pa_Timestamp attrs = ep_Timestamp payload ->
  pa_PrevRandao attrs = ep_PrevRandao payload -> pa_Transactions attrs = ep_Transactions payload ->
  pa_GasLimit attrs = Some (ep_GasLimit payload) ->
  PayloadToBlockRef payload (cfg_Genesis cfg) = Ok ref ->
  exists q', consolidateNextSafeAttributes cfg q = (Ok tt, q') /\
    heads q' = (ref, unsafeHead q, finalized q, None) /\ l2_ParentHash ref = l2_Hash (safeHead q) /\
    needForkchoiceUpdate q' = true /\
    exists fd, last (finalityData q') = Some fd /\ fd_L2Block fd = ref.
Proof.
  intros Hawp Hp attrs H1' H2' H3' H4' H5' Hr. eapply consolidate_match; [done|done| |done].
  by apply AttributesMatchBlock_fields.
Qed.

Lemma engine_call_heads {A} f (m : M E A) q r q' :
  wrapE f (on_engine m) q = (r, q') -> heads q' = heads q.
Proof.
  intros Hx. eapply (preserves_wrapE (same heads)); [|exact Hx]. refine (preserves_on_engine _ _).
Qed.

Lemma consolidate_grows `{!LawfulBuilder E} : preserves grows (consolidateNextSafeAttributes cfg).
Proof.
  intros q r q' Hx. unfold consolidateNextSafeAttributes, bind at 1, get in Hx.
  apply bind_cases in Hx as [(payload & q2 & Hq%engine_call_heads & Hx)|[(e & Hq%engine_call_heads & ->)
    |[Hq%engine_call_heads ->]]]; [|by apply heads_grows..].
  injection Hq as Hsq _ Hfq _.
  assert (fin_grows q q2) as Hg by (split; [done|by left]).
  destruct (safeAttributes q) as [awp|]; [|by injection Hx as _ <-; apply fin_grows_weaken].
  destruct (AttributesMatchBlock _ _ _) as [[]|err|] eqn:Em.
  - apply bind_cases in Hx as [(ref & q3 & Hr & Hx)|[(e & Hr & ->)|[Hr ->]]].
    + apply wrapE_Ok in Hr. injection Hr as Hr <-. injection Hx as _ <-.
      eapply fin_grows_then; [exact Hg|]. split; [right|by left]. cbn.
      apply PayloadToBlockRef_parent in Hr as (_ & -> & _). rewrite Hsq.
      by apply AttributesMatchBlock_fields in Em as [<- _].
    + injection Hr as _ <-. by apply fin_grows_weaken.
    + injection Hr as _ <-. by apply fin_grows_weaken.
  - eapply fin_grows_then; [exact Hg|]. by eapply forceNext_grows.
  - injection Hx as _ <-. by apply fin_grows_weaken.
Qed.

Lemma step_safe_grows `{!LawfulBuilder E} : preserves grows (step_safe cfg).
Proof.
  intros q r q'. unfold step_safe, bind, get. case_if.
  { intros [= _ <-]. by apply fin_grows_weaken. }
  destruct (safeAttributes q) as [awp|] eqn:Ea.
  2: { intros Hx. apply fin_grows_weaken. by eapply pull_attributes_grows. }
  unfold tryNextSafeAttributes, bind, get. rewrite Ea.
  repeat case_if; first [by apply consolidate_grows|by apply forceNext_grows|idtac];
    intros [= _ <-]; apply fin_grows_weaken; (split; [done|by left]).
Qed.

(** C28: a step of the queue never abandons safe or finalized blocks.  Over an engine
    that builds on the requested parent, whatever the step does and whatever it
    returns, the safe head is kept or replaced by one of its children, and the
    finalized head is kept or replaced by a higher block; only a reset can go back. *)
Theorem Step_never_goes_back `{!LawfulBuilder E} q r q' :
  Step cfg syncCfg q = (r, q') ->
  (safeHead q' = safeHead q \/ l2_ParentHash (safeHead q') = l2_Hash (safeHead q)) /\
  (finalized q' = finalized q \/ l2_Number (finalized q) < l2_Number (finalized q')).
Proof.
  intros Hx. change (grows q q'). revert Hx. unfold Step, bind at 1, get. case_if.
  { intros Hx. apply fin_grows_weaken. by eapply tryUpdateEngine_grows. }
  case_if; [|apply step_safe_grows].
  intros [(a & q1 & Ha & Hx)|[(e & Ha & ->)|[Ha ->]]]%bind_cases;
    apply (preserves_attempt fin_grows) in Ha; try apply tryNextUnsafePayload_grows;
    try (by apply fin_grows_weaken).
  eapply fin_grows_then; [exact Ha|]. destruct a as [[]|err]; [by injection Hx as _ <-; apply fin_grows_weaken|].
  case_if_in Hx; [by eapply step_safe_grows|by injection Hx as _ <-; apply fin_grows_weaken].
Qed.
End SafeChain.

(** ** Errors *)

(** The errors the driver knows how to handle: the end of the data, the two requests to
    try again, and the errors with a severity level. *)
Definition classified (e : error) : Prop :=
  e = EOF \/ e = NotEnoughData \/ e = EngineP2PSyncing \/ exists lvl inner, e = NewError (Some inner) lvl.

Lemma classified_level lvl inner : classified (NewError (Some inner) lvl).
Proof. right; right; right. eauto. Qed.
Lemma classified_temp e : classified (NewTemporaryError e). Proof. apply classified_level. Qed.
Lemma classified_reset e : classified (NewResetError e). Proof. apply classified_level. Qed.
Lemma classified_crit e : classified (NewCriticalError e). Proof. apply classified_level. Qed.
Lemma classified_eof : classified EOF. Proof. by left. Qed.
Lemma classified_data : classified NotEnoughData. Proof. by right; left. Qed.
Lemma classified_sync : classified EngineP2PSyncing. Proof. by right; right; left. Qed.
#[export] Hint Resolve classified_temp classified_reset classified_crit classified_eof classified_data
  classified_sync : code.

Lemma classified_forkchoice s1 s2 e : classified (forkchoice_err s1 s2 e).
Proof.
  unfold forkchoice_err. destruct (errors_As_InputError e) as [[code inner]|]; [case_if|]; auto with code.
Qed.
#[export] Hint Resolve classified_forkchoice : code.

Ltac error_code := repeat first
  [ progress go_code
  | apply fails_throw; solve [auto with code]
  | apply fails_wrapE; intros ?; solve [auto with code | case_if; auto with code] ].

Section Errors.
Context {E P L : Type} `{Engine E} `{NextAttributesProvider P} `{L1Chain L} `{Keccak} `{TxCodec}.
Context (cfg : Config) (syncCfg : SyncConfig).
Context (Hprev : forall head, fails_with classified (nap_NextAttributes (P:=P) head)).
Implicit Types q : t E P L.

Lemma start_confirm_no_err parent attrs :
  fails_with (S:=t E P L) classified (start_and_confirm cfg parent attrs).
Proof.
  assert (fails_with (S:=t E P L) classified (StartPayload parent attrs true)) as Hs.
  { by intros q e q' Hx%StartPayload_no_err. }
  assert (fails_with (S:=t E P L) classified (ConfirmPayload cfg)) as Hc.
  { by intros q e q' Hx%ConfirmPayload_no_err. }
  unfold start_and_confirm. go_code.
Qed.

Lemma forceNext_classified : fails_with (S:=t E P L) classified (forceNextSafeAttributes cfg).
Proof. pose proof start_confirm_no_err. unfold forceNextSafeAttributes. error_code. Qed.

Lemma tryNextSafe_classified : fails_with (S:=t E P L) classified (tryNextSafeAttributes cfg).
Proof.
  pose proof forceNext_classified. unfold tryNextSafeAttributes, consolidateNextSafeAttributes. error_code.
Qed.

Lemma pull_attributes_classified : fails_with (S:=t E P L) classified pull_attributes.
Proof.
  unfold pull_attributes, verifyNewL1Origin, tryFinalizePastL2Blocks. error_code.
  by apply fails_zoom.
Qed.

Lemma tryNextUnsafe_classified : fails_with (S:=t E P L) classified (tryNextUnsafePayload cfg syncCfg).
Proof. unfold tryNextUnsafePayload, insert_unsafe_payload, pop_unsafe. error_code. Qed.

Lemma Step_classified : fails_with (S:=t E P L) classified (Step cfg syncCfg).
Proof.
  assert (fails_with (S:=t E P L) classified (step_safe cfg)).
  { pose proof tryNextSafe_classified. pose proof pull_attributes_classified. unfold step_safe. error_code. }
  pose proof tryNextUnsafe_classified as Hu.
  unfold Step, tryUpdateEngine. apply fails_bind; [error_code|intros q]. cbv beta. case_if; [error_code|].
  case_if; [|done]. apply (fails_attempt_bind _ classified); [done|intros ?; error_code|].
  intros e He. cbv beta iota. case_if; [done|by apply fails_throw].
Qed.

Lemma Reset_classified fuel : fails_with (S:=t E P L) classified (Reset cfg syncCfg fuel).
Proof.
  assert (forall n o b, fails_with (S:=t E P L) classified (walk_pipeline cfg n o b)).
  { intros n o. induction n as [|n IH]; intros b; cbn [walk_pipeline]; error_code. }
  unfold Reset. error_code.
Qed.

(** Every error of a step or a reset is one the driver has a reaction for: the end
    of the L1 data, the two retry signals, or an error with a severity level; given that
    the errors of the previous stage are. *)
Theorem queue_errors_classified q e q' fuel :
  (Step cfg syncCfg q = (Err e, q') -> classified e) /\
  (Reset cfg syncCfg fuel q = (Err e, q') -> classified e).
Proof. split; [apply Step_classified|apply Reset_classified]. Qed.
End Errors.

(** ** Reset *)
Section ResetSpec.
Context {E P L : Type} `{Engine E} `{NextAttributesProvider P} `{L1Chain L} `{Keccak} `{TxCodec}.
Context (cfg : Config) (syncCfg : SyncConfig).
Implicit Types q : t E P L.

(** Everything but the environments. *)
Definition own_state q :=
  (heads q, engineSyncTarget q, (buildingOnto q, buildingID q, buildingSafe q), needForkchoiceUpdate q,
   (finalizedL1 q, triedFinalizeAt q), unsafePayloads q, finalityData q, (origin q, sysCfg q), prev q).

Definition keeps_own : t E P L -> t E P L -> Prop := same own_state.

(** The calls of a reset. *)
Lemma own_engine {A} (m : M E A) : preserves keeps_own (on_engine m).
Proof. by apply preserves_zoom. Qed.
Lemma own_l1 {A} (m : M L A) : preserves keeps_own (on_l1 m).
Proof. by apply preserves_zoom. Qed.
Lemma own_nodes {A} (m : M (L * E) A) : preserves keeps_own (on_nodes m).
Proof. by apply preserves_zoom. Qed.

#[export] Instance keeps_own_preorder : PreOrder keeps_own.
Proof. unfold keeps_own. apply _. Qed.

Lemma own_walk fuel o b : preserves keeps_own (walk_pipeline cfg fuel o b).
Proof.
  revert b. induction fuel as [|fuel IH]; intros b; cbn [walk_pipeline]; go_code. apply own_engine.
Qed.

(** A block an L2 block was found to have as parent. *)
Definition l2_parent (b p : L2BlockRef) : Prop :=
  exists e e', eng_L2BlockRefByHash (l2_ParentHash b) e = (Ok p, e').

(** The L2 block whose L1 origin the pipeline restarts from. *)
Definition start_block (l1Origin : L1BlockRef) (b : L2BlockRef) : Prop :=
  l2_Number b <= id_Number (gen_L2 (cfg_Genesis cfg)) \/
  id_Number (l2_L1Origin b) <= id_Number (gen_L1 (cfg_Genesis cfg)) \/
  id_Number (l2_L1Origin b) +u ChannelTimeout cfg <= l1_Number l1Origin.

Lemma walk_pipeline_spec fuel o b q b' q' :
  walk_pipeline cfg fuel o b q = (Ok (Some b'), q') -> rtc l2_parent b b' /\ start_block o b'.
Proof.
  revert b q. induction fuel as [|fuel IH]; intros b q; cbn [walk_pipeline]; case_if; try done.
  all: try (intros [= -> _]; split; [done|]; unfold start_block; lia).
  intros (p & q1 & Hp%wrapE_Ok & [Hr Hs]%IH)%bind_Ok. split; [|done].
  eapply rtc_l; [|exact Hr]. unfold on_engine in Hp. apply zoom_Ok in Hp as (e & Hp & _). by do 2 eexists.
Qed.

(** Code that keeps the state of the queue unless it ends with [EOF]. *)
Definition keeps_or_eof {A} (m : M (t E P L) A) : Prop :=
  forall q r q', m q = (r, q') -> r = Err EOF \/ own_state q' = own_state q.

Lemma keeps_then {A B} (m : M (t E P L) A) (k : A -> M (t E P L) B) :
  preserves keeps_own m -> (forall a, keeps_or_eof (k a)) -> keeps_or_eof (bind m k).
Proof.
  intros Hm Hk q r q' [(a & q1 & Ha & Hx)|[(e & Ha & ->)|[Ha ->]]]%bind_cases;
    apply Hm in Ha; try (by right). destruct (Hk a q1 r q' Hx) as [?|Ho]; [by left|right].
  by rewrite Ho.
Qed.

Lemma Reset_keeps fuel : keeps_or_eof (Reset cfg syncCfg fuel).
Proof.
  assert (forall u : unit, keeps_or_eof (ret u)) by (intros u q r q' [= <- <-]; by right).
  unfold Reset. apply keeps_then; [apply preserves_wrapE, own_nodes|intros [found|]; [|done]].
  apply keeps_then; [apply preserves_wrapE, own_l1|intros l1Origin; cbv beta zeta].
  case_if; [intros q r q' [= <- <-]; by right|].
  apply keeps_then; [apply own_walk|intros [pipelineL2|]; [|done]].
  apply keeps_then; [apply preserves_wrapE, own_l1|intros pipelineOrigin].
  apply keeps_then; [apply preserves_wrapE, own_engine|intros l1Cfg].
  intros q r q' [= <- <-]. by left.
Qed.

(** A sequence that ends with [EOF] when its first call cannot. *)
Lemma bind_eof {A B} (f : error -> error) (m : M (t E P L) A) (k : A -> M (t E P L) B) q q' :
  (forall e, f e <> ErrSentinel EOF) -> bind (wrapE f m) k q = (Err EOF, q') ->
  exists a q1, m q = (Ok a, q1) /\ k a q1 = (Err EOF, q').
Proof.
  intros Hf [(a & q1 & Ha%wrapE_Ok & Hx)|[(e & He & Heq)|[_ [=]]]]%bind_cases; [by eauto|].
  exfalso. unfold wrapE in He. destruct (m q) as [[a|e'|] q1]; injection He as He _; try done.
  apply (Hf e'). congruence.
Qed.

Lemma walk_not_eof fuel o b : fails_with (S:=t E P L) (fun e => e <> ErrSentinel EOF) (walk_pipeline cfg fuel o b).
Proof.
  revert b. induction fuel as [|fuel IH]; intros b; cbn [walk_pipeline]; go_code.
  by apply fails_wrapE.
Qed.

(** What a successful reset sets. *)
Record reset_to (found : FindHeadsResult) q q' : Prop := {
  rt_heads : heads q' = (fh_Safe found, fh_Unsafe found, fh_Finalized found, None);
  rt_target : engineSyncTarget q' = fh_Unsafe found;
  rt_finality : finalityData q' = [];
  rt_building : buildingID q' = 0 /\ buildingOnto q' = zeroL2;
  rt_forkchoice : needForkchoiceUpdate q' = true;
  rt_payloads : unsafePayloads q' = unsafePayloads q;
  rt_finalizedL1 : finalizedL1 q' = finalizedL1 q;
  rt_origin : exists l1Origin pipelineL2 e1 e2 e3 e4,
    l1c_L1BlockRefByHash (id_Hash (l2_L1Origin (fh_Safe found))) e1 = (Ok l1Origin, e2) /\
    l1_Time l1Origin <= l2_Time (fh_Safe found) /\
    rtc l2_parent (fh_Safe found) pipelineL2 /\ start_block l1Origin pipelineL2 /\
    l1c_L1BlockRefByHash (id_Hash (l2_L1Origin pipelineL2)) e3 = (Ok (origin q'), e4) }.

Lemma Reset_eof fuel q q' :
  Reset cfg syncCfg fuel q = (Err EOF, q') ->
  exists found n, FindL2Heads cfg syncCfg fuel (l1Fetcher q, engine q) = (Ok (Some found), n) /\
    reset_to found q q'.
Proof.
  unfold Reset. intros (res & q1 & Hf & Hx)%bind_eof; [|done].
  pose proof (own_nodes _ _ _ _ Hf) as Ho. apply zoom_Ok in Hf as (n & Hf & _).
  destruct res as [found|]; [|done]. exists found, n. split; [done|].
  apply bind_eof in Hx as (l1Origin & q2 & Hl & Hx); [|done].
  pose proof (own_l1 _ _ _ _ Hl) as Ho2. apply zoom_Ok in Hl as (e2 & Hl & _).
  case_if_in Hx; [done|].
  apply bind_cases in Hx as [(b & q3 & Hw & Hx)|[(e & Hw & Heq)|[_ [=]]]].
  2: { apply walk_not_eof in Hw. congruence. }
  pose proof (own_walk _ _ _ _ _ _ Hw) as Ho3. destruct b as [pipelineL2|]; [|done].
  apply walk_pipeline_spec in Hw as [Hr Hs].
  apply bind_eof in Hx as (po & q4 & Hp & Hx); [|done].
  pose proof (own_l1 _ _ _ _ Hp) as Ho4. apply zoom_Ok in Hp as (e4 & Hp & _).
  apply bind_eof in Hx as (l1Cfg & q5 & Hc & Hx); [|done].
  pose proof (own_engine _ _ _ _ Hc) as Ho5. injection Hx as <-.
  assert (own_state q5 = own_state q) as Ho6 by (unfold keeps_own, same in *; congruence).
  injection Ho6 as _ _ _ _ _ _ _ _ _ Hfl _ Hup _ _ _ _.
  split; cbn; try done. by do 6 eexists.
Qed.

(** C37: a reset either succeeds as a whole or changes nothing.  It succeeds exactly when
    it returns [EOF]: then the heads are those found by [FindL2Heads], no block is being
    built, the finality data is cleared, the engine will be told, the unsafe payloads
    and the finality signal survive, and the pipeline restarts at the L1 origin of an
    ancestor of the safe head that is a channel timeout behind the origin of the safe
    head (or at genesis).  On any other outcome the queue is as it was. *)
Theorem Reset_all_or_nothing fuel q r q' :
  Reset cfg syncCfg fuel q = (r, q') ->
  (r = Err EOF -> exists found n,
     FindL2Heads cfg syncCfg fuel (l1Fetcher q, engine q) = (Ok (Some found), n) /\ reset_to found q q') /\
  (r <> Err EOF -> own_state q' = own_state q).
Proof.
  intros Hx. split; [intros ->; by eapply Reset_eof|].
  intros Hr. by destruct (Reset_keeps _ _ _ _ Hx).
Qed.

(** The walk back to the start of the pipeline ends. *)
Lemma walk_pipeline_ends `{!LawfulL2Chain E} fuel o b q :
  is_l2_block b -> l2_Number b < Z.of_nat fuel -> (walk_pipeline cfg fuel o b q).1 <> Ok None.
Proof.
  revert b q. induction fuel as [|fuel IH]; intros b q Hb Hf.
  { apply l2_number_nonneg in Hb. lia. }
  cbn [walk_pipeline]. case_if; [|done]. unfold bind.
  destruct (wrapE _ _ q) as [[p|e|] q1] eqn:Ep; [|done..].
  apply wrapE_Ok in Ep. unfold on_engine in Ep. apply zoom_Ok in Ep as (e & Hp & _).
  apply IH; [by eapply (l2_by_hash_block (E:=E))|].
  pose proof (l2_parent_number (E:=E) _ _ _ _ Hb Hp). lia.
Qed.

(** C38: a reset terminates, unless it is configured to take the shortcut of the sync
    start, with which it can diverge ([FindL2Heads_shortcut_diverges]).  With
    [SkipSyncStartCheck] off, over an engine whose blocks are numbered and whose heads are
    in order, both loops of a reset end: with as much fuel as the number of the
    unsafe head plus one, the reset ends with an error ([EOF] on success) or panics,
    and does not run out of fuel. *)
Theorem Reset_terminates `{!LawfulL2Chain E} fuel q found n :
  SkipSyncStartCheck syncCfg = false ->
  currentHeads cfg (l1Fetcher q, engine q) = (Ok found, n) ->
  l2_Number (fh_Finalized found) <= l2_Number (fh_Safe found) <= l2_Number (fh_Unsafe found) ->
  l2_Number (fh_Unsafe found) < Z.of_nat fuel ->
  (Reset cfg syncCfg fuel q).1 <> Ok tt.
Proof.
  intros Hskip Hh Hord Hf Hx.
  pose proof (FindL2Heads_ends cfg syncCfg fuel _ _ _ Hskip Hh Hf) as Hends.
  destruct (Reset cfg syncCfg fuel q) as [r q'] eqn:Er. simpl in Hx. subst r.
  unfold Reset in Er. apply bind_Ok in Er as (res & q1 & Hr%wrapE_Ok & Hx).
  apply zoom_Ok in Hr as (n' & Hr & _). destruct res as [res|]; [|by rewrite Hr in Hends].
  pose proof (FindL2Heads_below _ _ _ _ _ _ _ _ Hh Hord Hr) as (_ & Hsafe & _).
  pose proof (FindL2Heads_safe_block _ _ _ _ _ _ Hr) as Hsb.
  apply bind_Ok in Hx as (l1Origin & q2 & _ & Hx). case_if_in Hx; [done|].
  apply bind_Ok in Hx as (b & q3 & Hw & Hx).
  destruct b as [b|].
  - apply bind_Ok in Hx as (? & ? & _ & Hx). apply bind_Ok in Hx as (? & ? & _ & Hx).
    by apply bind_Ok in Hx as (? & ? & _ & [=]).
  - apply (walk_pipeline_ends fuel l1Origin (fh_Safe res) q2 Hsb); [lia|by rewrite Hw].
Qed.
End ResetSpec.

(** ** A concrete engine

    An engine that builds on the head it is told, over the L2 blocks [0..3] of one
    block per epoch; block 4 is the one that gets built. *)
Module EngineQueueExamples.
Import ToyGeth SyncExamples.

Record toy_engine := mkToyEngine { te_head : Hash }.

Definition toy_payload (parent k : Z) : ExecutionPayload :=
  mkPayload parent 0 0 0 [] 9 k 30000000 0 (1000 + 12 * k) [] 0 (900 + k) [[DepositTxType]].

#[export] Instance toy_engine_api : Engine toy_engine :=
  {| eng_GetPayload _ := fun e => (Ok (toy_payload (te_head e) 4), e);
     eng_ForkchoiceUpdate fc _ := fun _ =>
       (Ok (mkForkchoiceResult ExecutionValid (Some 7)), mkToyEngine (HeadBlockHash fc));
     eng_NewPayload _ := ret ExecutionValid;
     eng_PayloadByHash _ := throw NotFound;
     eng_PayloadByNumber k := ret (toy_payload (899 + k) k);
     eng_L2BlockRefByLabel lbl := ret (l2_block (match lbl with Finalized => 1 | _ => 3 end));
     eng_L2BlockRefByHash h := fun e =>
       (if (900 <=? h) && (h <=? 903) then Ok (l2_block (h - 900)) else Err NotFound, e);
     eng_SystemConfigByL2Hash _ := ret (mkSystemConfig 77 1 1 1) |}.

#[export] Instance toy_engine_builds : LawfulBuilder toy_engine.
Proof.
  split. intros fc attrs e res id e1 p e2 Hf _ Hg. cbn in Hf, Hg.
  injection Hf as <- <-. by injection Hg as <- <-.
Defined.

#[export] Instance toy_engine_chain : LawfulL2Chain toy_engine.
Proof.
  refine {| is_l2_block b := exists k, 0 <= k <= 3 /\ b = l2_block k |}.
  - intros b (k & Hk & ->). cbn. lia.
  - intros h e b e'. cbn. destruct (_ && _) eqn:E; [|done]. intros [= <- <-].
    exists (h - 900). apply andb_prop in E as [?%Z.leb_le ?%Z.leb_le]. split; [lia|done].
  - intros lbl e b e'. cbn. intros [= <- <-]. eexists. split; [|done]. destruct lbl; lia.
  - intros n e p e' (k & Hk & ->). cbn. destruct (_ && _); [|done].
    intros [= <- _]. cbn. lia.
Defined.

#[export] Instance toy_stage : NextAttributesProvider unit :=
  {| nap_Origin _ := l1_block 100 3; nap_NextAttributes _ := throw EOF |}.

(** A chain whose genesis is the block to build, so that its reference needs no L1
    information, and the chain of the sync example. *)
Definition build_cfg : Config :=
  mkConfig (mkGenesis (mkBlockID 104 4) (mkBlockID 904 4) 1000 (mkSystemConfig 77 1 1 1))
    2 10 10 20 (Some 1) (Some 2) (Some 0) 55 66 77.
Definition no_sync : SyncConfig := mkSyncConfig false false.

Definition toy_new : t toy_engine unit Z := new (mkToyEngine 0) tt 100.
Definition toy_attrs : PayloadAttributes :=
  mkAttributes (1000 + 12 * 4) 9 0 [[DepositTxType]] true (Some 30000000).
Definition new_block : L2BlockRef := mkL2BlockRef 904 4 903 (1000 + 12 * 4) (mkBlockID 104 4) 0.

(** A queue at block 3 with attributes for block 4, and one with a longer unsafe chain. *)
Definition toy_queue : t toy_engine unit Z :=
  set_safeAttributes (Some (mkAttributesWithParent toy_attrs (l2_block 3)))
    (set_safeHead (l2_block 3) (set_unsafeHead (l2_block 3) (set_engineSyncTarget (l2_block 3) toy_new))).
Definition ahead_queue : t toy_engine unit Z :=
  set_unsafeHead new_block (set_engineSyncTarget new_block toy_queue).

(** The states after one call. *)
Definition signalled_queue : t toy_engine unit Z := Finalize (l1_block 100 1) toy_new.
Definition forced_queue : t toy_engine unit Z := (forceNextSafeAttributes build_cfg toy_queue).2.
Definition stepped_queue : t toy_engine unit Z := (Step build_cfg no_sync toy_queue).2.
Definition idle_queue : t toy_engine unit Z := set_safeAttributes None toy_queue.
Definition drained_queue : t toy_engine unit Z := (Step build_cfg no_sync idle_queue).2.
Definition restarted_queue : t toy_engine unit Z := (Reset toy_cfg no_sync 4 toy_queue).2.
Definition ahead_awp : attributesWithParent := mkAttributesWithParent toy_attrs (l2_block 3).

Lemma reachable_inv_witness :
  StronglySorted fd_lt (finalityData signalled_queue) /\ (length (finalityData signalled_queue) <= 129)%nat /\
  pq_inv (unsafePayloads signalled_queue) /\ MemSize (unsafePayloads signalled_queue) <= maxUnsafePayloadsMemory /\
  (forall payload, exists q', AddUnsafePayload payload signalled_queue = Some (Ok tt, q')).
Proof.
  apply (reachable_inv build_cfg no_sync (mkToyEngine 0) tt 100 signalled_queue). apply rtc_once.
  apply call_Finalize.
Defined.

Lemma target_is_unsafe_head_witness :
  engineSyncTarget (Finalize (l1_block 100 1) toy_new) = unsafeHead (Finalize (l1_block 100 1) toy_new) /\
  isEngineSyncing (Finalize (l1_block 100 1) toy_new) = false.
Proof.
  apply (target_is_unsafe_head build_cfg no_sync eq_refl (mkToyEngine 0) tt 100).
  apply rtc_once, call_Finalize.
Defined.

Lemma forceNextSafeAttributes_spec_witness :
  (exists ref, heads forced_queue = (ref, ref, finalized toy_queue, None) /\
     l2_ParentHash ref = l2_Hash (safeHead toy_queue)) \/
  (heads forced_queue = (safeHead toy_queue, unsafeHead toy_queue, finalized toy_queue, None) /\
   depositCount (pa_Transactions (awp_attributes ahead_awp)) <> length (pa_Transactions (awp_attributes ahead_awp))).
Proof.
  assert (forceNextSafeAttributes build_cfg toy_queue = (Ok tt, forced_queue)) as Hx
    by (apply run_eq; vm_compute; reflexivity).
  exact (forceNextSafeAttributes_spec build_cfg ahead_awp toy_queue (Ok tt) forced_queue eq_refl Hx).
Defined.

Lemma consolidate_matching_witness :
  exists q', consolidateNextSafeAttributes build_cfg ahead_queue = (Ok tt, q') /\
    heads q' = (new_block, unsafeHead ahead_queue, finalized ahead_queue, None) /\
    l2_ParentHash new_block = l2_Hash (safeHead ahead_queue) /\
    needForkchoiceUpdate q' = true /\
    exists fd, last (finalityData q') = Some fd /\ fd_L2Block fd = new_block.
Proof.
  refine (consolidate_matching build_cfg ahead_queue ahead_awp (toy_payload 903 4) (mkToyEngine 0) new_block
    _ _ _ _ _ _ _ _); vm_compute; reflexivity.
Defined.

Lemma Step_never_goes_back_witness :
  (safeHead stepped_queue = safeHead toy_queue \/ l2_ParentHash (safeHead stepped_queue) = l2_Hash (safeHead toy_queue)) /\
  (finalized stepped_queue = finalized toy_queue \/
   l2_Number (finalized toy_queue) < l2_Number (finalized stepped_queue)).
Proof.
  assert (Step build_cfg no_sync toy_queue = (Ok tt, stepped_queue)) as Hx
    by (apply run_eq; vm_compute; reflexivity).
  exact (Step_never_goes_back build_cfg no_sync toy_queue (Ok tt) stepped_queue Hx).
Defined.

Lemma queue_errors_classified_witness : classified EOF.
Proof.
  assert (Step build_cfg no_sync idle_queue = (Err EOF, drained_queue)) as Hx
    by (apply run_eq; vm_compute; reflexivity).
  exact (proj1 (queue_errors_classified build_cfg no_sync
           (fun head => fails_throw classified (ErrSentinel EOF) classified_eof)
           idle_queue EOF drained_queue 0%nat) Hx).
Defined.

Lemma Reset_all_or_nothing_witness :
  exists found n,
    FindL2Heads toy_cfg no_sync 4 (l1Fetcher toy_queue, engine toy_queue) = (Ok (Some found), n) /\
    reset_to toy_cfg found toy_queue restarted_queue.
Proof.
  assert (Reset toy_cfg no_sync 4 toy_queue = (Err EOF, restarted_queue)) as Hx
    by (apply run_eq; vm_compute; reflexivity).
  exact (proj1 (Reset_all_or_nothing toy_cfg no_sync 4 toy_queue (Err EOF) restarted_queue Hx) eq_refl).
Defined.

Lemma Reset_terminates_witness : (Reset toy_cfg no_sync 4 toy_queue).1 <> Ok tt.
Proof.
  refine (Reset_terminates toy_cfg no_sync 4 toy_queue (toy_heads 1) (100, mkToyEngine 0) eq_refl _ _ _);
    [vm_compute; reflexivity|vm_compute; split; done|done].
Defined.
End EngineQueueExamples.
