(* ===== verification/Pipeline.v ===== *)
(** * The derivation pipeline

    [op-node/rollup/derive/pipeline.go]: the tower of the stages modelled in the other
    files, from the L1 traversal up to the engine queue, with the reset of one stage
    after the other and the step that pulls data through all of them.  Every stage owns
    the stage below it, as its field [prev], and its view of the L1 node or the engine. *)
From S2P Require Import Prelude GoErrors GoBytes EthTypes Geth Solabi SystemConfigUpdate Frame Channel Batch.
From S2P Require Import ChannelBank L1Stages BatchQueue Attributes PayloadsQueue EngineUpdate SyncStart EngineQueue.
#[local] Open Scope Z_scope.

(** [L1Fetcher] combines what the stages ask of the L1 node. *)
Class L1Fetcher (X : Type) := {
  l1f_chain :: L1Chain X;
  l1f_traversal :: L1BlockRefByNumberFetcher X;
  l1f_receipts :: L1ReceiptsFetcher X;
  l1f_transactions :: L1TransactionFetcher X }.

#[export] Instance Engine_SystemConfig {E} `{Engine E} : SystemConfigL2Fetcher E :=
  {| SystemConfigByL2Hash := eng_SystemConfigByL2Hash |}.

Section Pipeline.
Context {X E : Type} `{L1Fetcher X} `{Engine E} `{Keccak} `{TxCodec} `{L1Signer}.
Context {Z0 stream : Type}.
Context (zlib_NewReader : Data -> result Z0) (rlp_NewStream : Z0 -> Z -> stream).
Context (rlp_Decode : M stream BatchData).
Context (cfg : Config) (syncCfg : SyncConfig).

(** The types of the stages. *)
Definition traversal_t : Type := L1Traversal.t X.
Definition l1Src_t : Type := L1Retrieval.t X traversal_t.
Definition frameQueue_t : Type := FrameQueue.t l1Src_t.
Definition bank_t : Type := ChannelBank.t frameQueue_t.
Definition chInReader_t : Type := ChannelInReader.t frameQueue_t stream.
Definition batchQueue_t : Type := BatchQueue chInReader_t.
Definition attrBuilder_t : Type := FetchingAttributesBuilder X E.
Definition attributesQueue_t : Type := AttributesQueue.t attrBuilder_t batchQueue_t.
Definition eng_t : Type := EngineQueue.t E attributesQueue_t X.

#[global] Instance l1Src_provider : NextDataProvider l1Src_t := L1Retrieval.provider cfg.
#[global] Instance frameQueue_provider : NextFrameProvider frameQueue_t := FrameQueue.provider.
#[global] Instance chInReader_provider : NextBatchProvider chInReader_t :=
  ChannelInReader.provider cfg zlib_NewReader rlp_NewStream rlp_Decode.
#[global] Instance batchQueue_provider : NextSafeBatchProvider batchQueue_t := bq_provider cfg.
#[global] Instance attrBuilder_builder : AttributesBuilder attrBuilder_t := fab_builder cfg.
#[global] Instance attributesQueue_provider : NextAttributesProvider attributesQueue_t := aq_provider cfg.

(** [DerivationPipeline]; [traversal] is the bottom of the tower [eng] stands on. *)
Record DerivationPipeline := mkPipeline { resetting : nat; eng : eng_t }.

(** The number of [stages]: eng, l1Traversal, l1Src, frameQueue, bank, chInReader,
    batchQueue and attributesQueue. *)
Definition num_stages : nat := 8.

(** [NewDerivationPipeline]. *)
Definition NewDerivationPipeline (l1Fetcher : X) (engine : E) : DerivationPipeline :=
  let l1Traversal := L1Traversal.new l1Fetcher in
  let l1Src := L1Retrieval.new l1Fetcher l1Traversal in
  let frameQueue := FrameQueue.mk [] l1Src in
  let bank := ChannelBank.new frameQueue in
  let chInReader := ChannelInReader.mk None bank in
  let batchQueue := NewBatchQueue chInReader in
  let attrBuilder := mkFetchingBuilder l1Fetcher engine in
  let attributesQueue := AttributesQueue.new attrBuilder batchQueue in
  mkPipeline 0 (EngineQueue.new engine attributesQueue l1Fetcher).

(** [DerivationPipeline.EngineReady] and [DerivationPipeline.Reset]. *)
Definition EngineReady (dp : DerivationPipeline) : bool := (0 <? resetting dp)%nat.
Definition Reset (dp : DerivationPipeline) : DerivationPipeline := mkPipeline 0 (eng dp).

(** Reaching the stages. *)
Definition on_eng {A} (m : M eng_t A) : M DerivationPipeline A :=
  zoom eng (fun q dp => mkPipeline (resetting dp) q) m.
Definition on_attributesQueue {A} (m : M attributesQueue_t A) : M eng_t A :=
  zoom EngineQueue.prev EngineQueue.set_prev m.
Definition on_batchQueue {A} (m : M batchQueue_t A) : M eng_t A :=
  on_attributesQueue (zoom AttributesQueue.prev
    (fun p aq => AttributesQueue.mk (AttributesQueue.builder aq) p (AttributesQueue.batch aq)) m).
Definition on_chInReader {A} (m : M chInReader_t A) : M eng_t A :=
  on_batchQueue (zoom bq_prev set_prev m).
Definition on_bank {A} (m : M bank_t A) : M eng_t A :=
  on_chInReader (zoom ChannelInReader.prev
    (fun p cr => ChannelInReader.mk (ChannelInReader.nextBatchFn cr) p) m).
Definition on_frameQueue {A} (m : M frameQueue_t A) : M eng_t A :=
  on_bank (zoom ChannelBank.prev
    (fun p cb => ChannelBank.mk (ChannelBank.channels cb) (ChannelBank.channelQueue cb) p) m).
Definition on_l1Src {A} (m : M l1Src_t A) : M eng_t A :=
  on_frameQueue (zoom FrameQueue.prev (fun p fq => FrameQueue.mk (FrameQueue.frames fq) p) m).
Definition on_traversal {A} (m : M traversal_t A) : M eng_t A :=
  on_l1Src (zoom L1Retrieval.prev
    (fun p l1r => L1Retrieval.mk (L1Retrieval.dataSrc l1r) p (L1Retrieval.datas l1r)) m).

(** [dp.stages[i].Reset(base, baseCfg)]: the stages in the order of the list; the fuel
    bounds the loops of the reset of the engine queue. *)
Definition stage_Reset (fuel : nat) (i : nat) (base : L1BlockRef) (baseCfg : SystemConfig) : M eng_t unit :=
  match i with
  | 0%nat => EngineQueue.Reset cfg syncCfg fuel
  | 1%nat => on_traversal (L1Traversal.Reset base baseCfg)
  | 2%nat => on_l1Src (L1Retrieval.Reset cfg base baseCfg)
  | 3%nat => on_frameQueue FrameQueue.Reset
  | 4%nat => on_bank ChannelBank.Reset
  | 5%nat => on_chInReader ChannelInReader.Reset
  | 6%nat => on_batchQueue (bq_Reset base baseCfg)
  | 7%nat => on_attributesQueue (AttributesQueue.Reset base baseCfg)
  | _ => lift Panic
  end.

(** The second half of [Step]: the engine queue steps, and the L1 origin advances when
    every stage ran out of data. *)
Definition step_engine : M DerivationPipeline (option unit) :=
  r <- attempt (on_eng (EngineQueue.Step cfg syncCfg)) ;;
  match r with
  | inl _ => ret (Some tt)
  | inr err =>
      if err_eqb err EOF then on_eng (on_traversal (L1Traversal.AdvanceL1Block cfg)) ;;; ret (Some tt)
      else if errors_Is err EngineP2PSyncing then throw err
      else throw (ErrWrap "engine stage failed" err)
  end.

(** [DerivationPipeline.Step]; [Ok None] when the fuel was not enough for the reset of
    the engine queue. *)
Definition Step (fuel : nat) : M DerivationPipeline (option unit) :=
  dp <- get ;;
  if (resetting dp <? num_stages)%nat then
    r <- attempt (on_eng (stage_Reset fuel (resetting dp) (EngineQueue.Origin (eng dp))
                            (EngineQueue.SystemConfig_ (eng dp)))) ;;
    match r with
    | inl _ => ret (if (resetting dp =? 0)%nat then None else Some tt)
    | inr err =>
        if err_eqb err EOF then
          modify (fun dp => mkPipeline (S (resetting dp)) (eng dp)) ;;; ret (Some tt)
        else throw (ErrWrap "stage failed resetting" err)
    end
  else step_engine.

(** The calls of the driver that are passed on to the engine queue. *)
Definition Finalize (l1Origin : L1BlockRef) (dp : DerivationPipeline) : DerivationPipeline :=
  mkPipeline (resetting dp) (EngineQueue.Finalize l1Origin (eng dp)).
Definition AddUnsafePayload (payload : option ExecutionPayload) (dp : DerivationPipeline)
    : option (result unit * DerivationPipeline) :=
  match EngineQueue.AddUnsafePayload payload (eng dp) with
  | None => None
  | Some (r, q) => Some (r, mkPipeline (resetting dp) q)
  end.
Definition StartPayload (parent : L2BlockRef) (attrs : PayloadAttributes) (updateSafe : bool)
    : M DerivationPipeline (insertion unit) := on_eng (EngineQueue.StartPayload parent attrs updateSafe).
Definition ConfirmPayload : M DerivationPipeline (insertion ExecutionPayload) :=
  on_eng (EngineQueue.ConfirmPayload cfg).
Definition CancelPayload (force : bool) : M DerivationPipeline unit := on_eng (EngineQueue.CancelPayload force).
End Pipeline.
Arguments DerivationPipeline : clear implicits.

(** ** The reaction of the driver

    [op-node/rollup/driver/state.go], [eventLoop]: what the driver does after a step,
    by the error it returned ([None] when it returned nil). *)
Inductive reaction :=
  | Idle            (* the derivation is out of data and waits for a new L1 head *)
  | WaitForSync     (* retry while the engine syncs *)
  | ResetPipeline
  | RetryTemporary
  | Shutdown        (* a critical error ends the driver *)
  | RetryData       (* retry without backoff *)
  | UnknownError    (* an error of no known kind is logged and retried *)
  | NextStep.

Definition driver_reaction (err : option error) : reaction :=
  match err with
  | Some e =>
      if err_eqb e EOF then Idle
      else if errors_Is e EngineP2PSyncing then WaitForSync
      else if errors_Is e ErrReset then ResetPipeline
      else if errors_Is e ErrTemporary then RetryTemporary
      else if errors_Is e ErrCritical then Shutdown
      else if errors_Is e NotEnoughData then RetryData
      else UnknownError
  | None => NextStep
  end.
