(* ===== verification/PipelineSpec.v ===== *)
(** * What the derivation pipeline guarantees

    After a reset every stage agrees with the origin and configuration the engine queue
    restarted from, whatever the driver does in between; and every error of the
    pipeline is one the driver can classify. *)
From S2P Require Import Prelude GoErrors GoBytes EthTypes Geth Solabi SystemConfigUpdate Frame Channel Batch.
From S2P Require Import ChannelBank L1Stages BatchQueue Attributes PayloadsQueue EngineUpdate SyncStart EngineQueue.
From S2P Require Import L1Info EngineQueueSpec EngineQueueSafety Pipeline.
#[local] Open Scope Z_scope.

(** ** The errors of the stages *)

Lemma err_eq {A S} e e' (s s' : S) : (Err (A:=A) e, s) = (Err e', s') -> e = e'.
Proof. congruence. Qed.

Ltac err_cases :=
  let Hx := fresh "Hx" in intros Hx; cbn in Hx; repeat (case_in Hx; cbn in Hx);
  first [discriminate Hx | apply err_eq in Hx; subst; auto with code].
Ltac err_inj H := first [discriminate H | apply err_eq in H; subst].

Section StageErrors.

Lemma retrieval_classified {X P : Type} `{L1TransactionFetcher X} `{L1Signer} `{NextBlockProvider P} cfg :
  fails_with classified (nbk_NextL1Block (P:=P)) ->
  fails_with classified (L1Retrieval.NextData (E:=X) (P:=P) cfg).
Proof.
  intros Hp s e s' Hx. unfold L1Retrieval.NextData in Hx.
  destruct (L1Retrieval.open_next cfg s) as [[ds|er|] s1] eqn:Eo; [| |done].
  - destruct (Next cfg (ds, L1Retrieval.dataSrc s1)) as [[d|er|] [ds' x]] eqn:En; [done| |done].
    case_if_in Hx; err_inj Hx; [auto with code|].
    unfold Next in En. destruct (negb (ds_open ds)).
    + destruct (InfoAndTxsByHash _ _) as [[[i t]|er'|] y].
      * destruct (ds_data _); err_inj En; auto with code.
      * case_if_in En; err_inj En; auto with code.
      * done.
    + destruct (ds_data ds); err_inj En; auto with code.
  - err_inj Hx. unfold L1Retrieval.open_next in Eo. destruct (L1Retrieval.datas s); [done|].
    destruct (nbk_NextL1Block (L1Retrieval.prev s)) as [[n|er'|] p] eqn:En; [| |done].
    + unfold OpenData, NewDataSource in Eo. by destruct (InfoAndTxsByHash _ _) as [[[i t]|?|] y].
    + err_inj Eo. by apply Hp in En.
Qed.

Lemma traversal_classified {X : Type} : fails_with classified (L1Traversal.NextL1Block (E:=X)).
Proof. intros s e s'. unfold L1Traversal.NextL1Block. case_if; [done|]. intros ?%err_eq; subst. auto with code. Qed.

Lemma frames_classified {P : Type} `{NextDataProvider P} :
  fails_with classified (ndp_NextData (P:=P)) -> fails_with classified (FrameQueue.NextFrame (P:=P)).
Proof.
  intros Hp s e s'. unfold FrameQueue.NextFrame. case_if.
  - destruct (ndp_NextData _) as [[d|er|] p] eqn:En; [| |done].
    + destruct (ParseFrames d) as [new|er|]; [err_cases..|done].
    + intros ?%err_eq; subst. by apply Hp in En.
  - err_cases.
Qed.

Lemma bank_classified {P : Type} `{NextFrameProvider P} cfg :
  fails_with classified (nfp_NextFrame (P:=P)) -> fails_with classified (ChannelBank.NextData (P:=P) cfg).
Proof.
  intros Hp s e s'. unfold ChannelBank.NextData.
  destruct (ChannelBank.Read cfg s) as [[d|er|] s1] eqn:Er; [done| |done].
  case_if.
  - intros ?%err_eq; subst. unfold ChannelBank.Read in Er. destruct (ChannelBank.channelQueue s).
    + err_inj Er. auto with code.
    + destruct (_ !! _); [|done]. case_if_in Er; [done|]. case_if_in Er; [err_inj Er; auto with code|].
      by destruct (Reader _).
  - destruct (nfp_NextFrame _) as [[f|er'|] p] eqn:En; [| |done].
    + destruct (ChannelBank.IngestFrame _ _ _); try done. intros ?%err_eq; subst. auto with code.
    + intros ?%err_eq; subst. by apply Hp in En.
Qed.

Lemma reader_classified {P Z0 stream : Type} `{NextFrameProvider P} cfg nr ns rd :
  fails_with classified (nfp_NextFrame (P:=P)) ->
  fails_with classified (ChannelInReader.NextBatch (P:=P) (Z0:=Z0) (stream:=stream) cfg nr ns rd).
Proof.
  intros Hp s e s'. unfold ChannelInReader.NextBatch.
  set (opened := match ChannelInReader.nextBatchFn s with Some f => _ | None => _ end).
  assert (forall er s1, opened = (Err er, s1) -> classified er) as Ho.
  { unfold opened. intros er s1. destruct (ChannelInReader.nextBatchFn s); [done|].
    destruct (ChannelBank.NextData cfg _) as [[d|er'|] cb] eqn:En; [| |done].
    - destruct (ChannelInReader.WriteChannel _ _ _ _) as [[u|er'|] cr]; [| |done].
      + by destruct (ChannelInReader.nextBatchFn cr).
      + intros ?%err_eq; subst. auto with code.
    - intros ?%err_eq; subst. by apply (bank_classified cfg Hp) in En. }
  destruct opened as [[f|er|] s1]; [| |done].
  - destruct (ChannelInReader.call_batchFn _ f) as [[b|er|] f']; try done. intros ?%err_eq; subst. auto with code.
  - intros ?%err_eq; subst. by eapply Ho.
Qed.

Lemma batches_classified {P : Type} `{NextBatchProvider P} cfg head :
  fails_with classified (nbp_NextBatch (P:=P)) -> fails_with classified (bq_NextBatch cfg (P:=P) head).
Proof.
  intros Hp s e s'. unfold bq_NextBatch.
  set (bq1 := if bool_decide _ then _ else s). cbv zeta.
  set (behind := l1_Number (nbp_Origin (bq_prev s)) <? id_Number (l2_L1Origin head)).
  set (loaded := match nbp_NextBatch (bq_prev bq1) with (Ok _, _) => _ | _ => _ end).
  assert (forall er s1, loaded = (Err er, s1) -> classified er) as Hl.
  { unfold loaded. intros er s1. destruct (nbp_NextBatch (bq_prev bq1)) as [[b|er'|] p] eqn:En; [| |done].
    - case_if; [|done]. unfold AddBatch. case_if; [done|]. by case_if.
    - case_if; [done|]. intros ?%err_eq; subst. by apply Hp in En. }
  destruct loaded as [[ood|er|] s1]; [| |done].
  - case_if; [intros ?%err_eq; subst; destruct ood; auto with code|].
    destruct (deriveNextBatch cfg ood head s1) as [[b|er|] s2] eqn:Ed; [done| |done].
    case_if; [intros ?%err_eq; subst; destruct ood; auto with code|]. intros ?%err_eq; subst.
    unfold deriveNextBatch in Ed. destruct (bq_l1Blocks s1) as [|ep eps]; [err_inj Ed; auto with code|].
    case_if_in Ed; [err_inj Ed; auto with code|].
    destruct (scan_candidates _ _ _ _ _) as [[n|] rem|rem|]; [done| |err_inj Ed; auto with code..].
    unfold derive_empty_batch in Ed. case_if_in Ed; [err_inj Ed; auto with code|].
    destruct (bq_l1Blocks (keep_remaining _ _ _)) as [|? [|? ?]]; try (err_inj Ed; auto with code).
    case_if_in Ed; [done|err_inj Ed; auto with code].
  - intros ?%err_eq; subst. by eapply Hl.
Qed.

Lemma builder_classified {X E : Type} `{L1ReceiptsFetcher X} `{SystemConfigL2Fetcher E} `{Keccak} `{TxCodec}
    cfg parent epoch :
  fails_with classified (fab_PreparePayloadAttributes (E1:=X) (E2:=E) cfg parent epoch).
Proof.
  unfold fab_PreparePayloadAttributes, new_epoch_inputs, same_epoch_inputs. error_code.
  intros s e s'. unfold lift, attributes_of. case_if; [intros ?%err_eq; subst; auto with code|].
  destruct (L1InfoDepositBytes _ _ _ _); [done| |done]. intros ?%err_eq; subst. auto with code.
Qed.

Lemma attributes_classified {B P : Type} `{AttributesBuilder B} `{NextSafeBatchProvider P} cfg head :
  (forall p o, fails_with classified (PreparePayloadAttributes (B:=B) p o)) ->
  fails_with classified (nsb_NextBatch (P:=P) head) ->
  fails_with classified (AttributesQueue.NextAttributes (B:=B) (P:=P) cfg head).
Proof.
  intros Hb Hp. unfold AttributesQueue.NextAttributes, AttributesQueue.createNextAttributes.
  error_code; apply fails_zoom; auto.
Qed.
End StageErrors.

Section PipelineSpec.
Context {X E : Type} `{L1Fetcher X} `{Engine E} `{Keccak} `{TxCodec} `{L1Signer}.
Context {Z0 stream : Type}.
Context (zlib_NewReader : Data -> result Z0) (rlp_NewStream : Z0 -> Z -> stream).
Context (rlp_Decode : M stream BatchData).
Context (cfg : Config) (syncCfg : SyncConfig).

#[local] Instance tower_provider :
  NextAttributesProvider (attributesQueue_t (X:=X) (E:=E) (stream:=stream)) :=
  attributesQueue_provider zlib_NewReader rlp_NewStream rlp_Decode cfg.

Implicit Types q : eng_t (X:=X) (E:=E) (stream:=stream).
Implicit Types dp : DerivationPipeline X E stream.

(** ** The stages after a reset *)

(** The stages of the tower. *)
Definition the_attributesQueue q := EngineQueue.prev q.
Definition the_batchQueue q := AttributesQueue.prev (the_attributesQueue q).
Definition the_chInReader q := bq_prev (the_batchQueue q).
Definition the_bank q := ChannelInReader.prev (the_chInReader q).
Definition the_frameQueue q := ChannelBank.prev (the_bank q).
Definition the_l1Src q := FrameQueue.prev (the_frameQueue q).
Definition the_traversal q := L1Retrieval.prev (the_l1Src q).

(** Stage [i] is as after its reset to [base] with [baseCfg]: it holds no data of
    before, the engine queue has no attributes to apply and records finality only for
    blocks derived at [base], the traversal is about to hand out [base], the retrieval has
    opened the data of [base] for the batcher of the configuration, and the batch queue
    starts with the epoch [base]. *)
Definition fresh (base : L1BlockRef) (baseCfg : SystemConfig) (i : nat) q : Prop :=
  match i with
  | 0%nat => EngineQueue.safeAttributes q = None /\
      Forall (fun fd => EngineQueue.fd_L1Block fd = l1_ID base) (EngineQueue.finalityData q)
  | 1%nat => L1Traversal.block (the_traversal q) = base /\ L1Traversal.done (the_traversal q) = false /\
      L1Traversal.sysCfg (the_traversal q) = baseCfg
  | 2%nat => exists ds e e', L1Retrieval.datas (the_l1Src q) = Some ds /\
      OpenData (E:=X) cfg (l1_ID base) (BatcherAddr baseCfg) e = (Ok ds, e')
  | 3%nat => FrameQueue.frames (the_frameQueue q) = []
  | 4%nat => ChannelBank.channels (the_bank q) = ∅ /\ ChannelBank.channelQueue (the_bank q) = []
  | 5%nat => ChannelInReader.nextBatchFn (the_chInReader q) = None
  | 6%nat => bq_origin (the_batchQueue q) = base /\ bq_l1Blocks (the_batchQueue q) = [base] /\
      bq_batches (the_batchQueue q) = ∅
  | 7%nat => AttributesQueue.batch (the_attributesQueue q) = None
  | _ => True
  end.

Definition all_fresh (k : nat) q : Prop :=
  forall i, (i < k)%nat -> fresh (EngineQueue.origin q) (EngineQueue.sysCfg q) i q.

(** What the freshness of the stages depends on. *)
Definition below q := (EngineQueue.prev q, EngineQueue.origin q, EngineQueue.sysCfg q, EngineQueue.safeAttributes q).
Definition own_finality q : Prop :=
  Forall (fun fd => EngineQueue.fd_L1Block fd = l1_ID (EngineQueue.origin q)) (EngineQueue.finalityData q).
Definition stays_fresh q q' : Prop := below q' = below q /\ (own_finality q -> own_finality q').
#[local] Instance stays_fresh_preorder : PreOrder stays_fresh.
Proof. split; [by split|]. intros q1 q2 q3 [B12 O12] [B23 O23]. split; [congruence|auto]. Qed.

(** An assignment that concerns neither. *)
Lemma stays_fresh_same q q' :
  below q' = below q -> EngineQueue.finalityData q' = EngineQueue.finalityData q -> stays_fresh q q'.
Proof. intros Hb Hd. split; [done|]. injection Hb as _ Ho _ _. unfold own_finality. by rewrite Hd, Ho. Qed.

Lemma all_fresh_below k q q' : stays_fresh q q' -> all_fresh k q -> all_fresh k q'.
Proof.
  intros [Hb Hd] Hf i Hi. specialize (Hf i Hi). injection Hb as Hp Ho Hs Ha.
  destruct i as [|[|[|[|[|[|[|[|i]]]]]]]]; [cbn in *; destruct Hf as [Hf Hfin]; split; [congruence|exact (Hd Hfin)]|cbn in *..];
    unfold the_traversal, the_l1Src, the_frameQueue, the_bank, the_chInReader, the_batchQueue,
      the_attributesQueue in *; by rewrite ?Ho, ?Hs, ?Hp.
Qed.

Lemma postProcess_fresh q : stays_fresh q (EngineQueue.postProcessSafeL2 q).
Proof.
  split; [done|]. unfold own_finality, EngineQueue.postProcessSafeL2. intros Hf. cbn.
  match goal with |- context [last ?d] => set (data := d) end.
  assert (Forall (fun fd => EngineQueue.fd_L1Block fd = l1_ID (EngineQueue.origin q)) data) as Hdata.
  { subst data. case_match; [by apply Forall_take, Forall_drop|done]. }
  destruct (last data) as [fd|] eqn:El; [case_if|].
  - apply Forall_app. split; [done|by repeat constructor].
  - apply Forall_insert; [done|]. simpl. rewrite Forall_forall in Hdata. apply Hdata. by apply last_Some_elem_of.
  - apply Forall_app. split; [done|by repeat constructor].
Qed.

Lemma all_fresh_snoc k q : all_fresh k q -> fresh (EngineQueue.origin q) (EngineQueue.sysCfg q) k q -> all_fresh (S k) q.
Proof. intros Hf Hk i Hi. destruct (decide (i = k)) as [->|]; [done|]. apply Hf. lia. Qed.

Ltac below_stages Hf :=
  let i := fresh "i" in let Hi := fresh "Hi" in
  intros i Hi; specialize (Hf i Hi); do 8 (destruct i as [|i]; [exact Hf|lia || idtac]); lia.

Lemma OpenData_no_err block addr : fails_with (fun _ => False) (OpenData (E:=X) cfg block addr).
Proof.
  intros x e x'. unfold OpenData, NewDataSource. by destruct (InfoAndTxsByHash _ x) as [[[i t]|er|] y].
Qed.

(** One stage reset: the origin and configuration stay, the stages below keep their
    state, and the stage itself is fresh when it reports [EOF]. *)
Lemma stage_Reset_fresh fuel k q r q' :
  (0 < k < num_stages)%nat ->
  stage_Reset cfg syncCfg fuel k (EngineQueue.origin q) (EngineQueue.sysCfg q) q = (r, q') ->
  all_fresh k q -> all_fresh k q' /\ (r = Err EOF -> all_fresh (S k) q').
Proof.
  intros Hk Hx Hf. unfold num_stages in Hk.
  assert (all_fresh k q' /\ EngineQueue.origin q' = EngineQueue.origin q /\
    EngineQueue.sysCfg q' = EngineQueue.sysCfg q /\
    (r = Err EOF -> fresh (EngineQueue.origin q) (EngineQueue.sysCfg q) k q')) as (Hf' & Ho & Hs & Hn).
  { destruct k as [|[|[|[|[|[|[|[|k]]]]]]]]; [lia|..|lia];
      cbv [stage_Reset on_traversal on_l1Src on_frameQueue on_bank on_chInReader on_batchQueue
           on_attributesQueue zoom L1Traversal.Reset L1Retrieval.Reset FrameQueue.Reset ChannelBank.Reset
           ChannelInReader.Reset bq_Reset AttributesQueue.Reset] in Hx.
    2: { destruct (OpenData _ _ _ _) as [[ds|e|] x] eqn:Eo; injection Hx as <- <-;
           (split_and!; [below_stages Hf|done|done|]); try done.
         - intros _. exists ds. do 2 eexists. split; [done|exact Eo].
         - by apply OpenData_no_err in Eo. }
    all: injection Hx as <- <-; split_and!; [below_stages Hf|done..]. }
  split; [done|]. intros Hr. apply all_fresh_snoc; [done|]. rewrite Ho, Hs. by apply Hn.
Qed.

(** The calls of the driver keep what the freshness depends on. *)
Lemma below_zoom_engine {A} (m : M E A) : preserves stays_fresh (EngineQueue.on_engine m).
Proof. apply preserves_zoom. by intros. Qed.

Lemma StartPayload_below parent attrs safe : preserves stays_fresh (EngineQueue.StartPayload parent attrs safe).
Proof.
  unfold EngineQueue.StartPayload, not_inserted, inserted. go_code; try apply below_zoom_engine.
  by apply preserves_modify.
Qed.

Lemma ConfirmPayload_below : preserves stays_fresh (EngineQueue.ConfirmPayload cfg).
Proof.
  unfold EngineQueue.ConfirmPayload, not_inserted, inserted. go_code; try apply below_zoom_engine;
    apply preserves_modify; intros q; try done. etrans; [|apply postProcess_fresh]. by apply stays_fresh_same.
Qed.

Lemma CancelPayload_below force : preserves stays_fresh (EngineQueue.CancelPayload force).
Proof.
  unfold EngineQueue.CancelPayload. go_code; try apply below_zoom_engine; by apply preserves_modify.
Qed.

Lemma Finalize_below o q : stays_fresh q (EngineQueue.Finalize o q).
Proof.
  assert (forall q, stays_fresh q (EngineQueue.tryFinalizeL2 q)) as Ht.
  { intros q0. unfold EngineQueue.tryFinalizeL2. case_bool_decide; [done|]. destruct (foldl _ _ _). by apply stays_fresh_same. }
  unfold EngineQueue.Finalize. case_if; [done|]. case_if; [|by apply stays_fresh_same].
  etrans; [|apply Ht]. by apply stays_fresh_same.
Qed.

Lemma AddUnsafePayload_below p q r q' : EngineQueue.AddUnsafePayload p q = Some (r, q') -> stays_fresh q q'.
Proof.
  unfold EngineQueue.AddUnsafePayload. destruct p; [|by intros [= _ <-]].
  destruct (Push _ _) as [[[|?|] ?]|]; [destruct (Peek _)|..]; try done; by intros [= _ <-].
Qed.

(** ** The events of the pipeline *)

Inductive event : DerivationPipeline X E stream -> DerivationPipeline X E stream -> Prop :=
  | ev_Step fuel dp r dp' :
      Step zlib_NewReader rlp_NewStream rlp_Decode cfg syncCfg fuel dp = (r, dp') -> event dp dp'
  | ev_Reset dp : event dp (Reset dp)
  | ev_Finalize l1Origin dp : event dp (Finalize l1Origin dp)
  | ev_AddUnsafePayload payload dp r dp' : AddUnsafePayload payload dp = Some (r, dp') -> event dp dp'
  | ev_StartPayload parent attrs safe dp r dp' : StartPayload parent attrs safe dp = (r, dp') -> event dp dp'
  | ev_ConfirmPayload dp r dp' : ConfirmPayload cfg dp = (r, dp') -> event dp dp'
  | ev_CancelPayload force dp r dp' : CancelPayload force dp = (r, dp') -> event dp dp'.

(** While the pipeline resets, the stages passed are fresh. *)
Definition resetting_ok dp : Prop := (resetting dp < num_stages)%nat -> all_fresh (resetting dp) (eng dp).

Lemma Step_resetting fuel dp r dp' :
  Step zlib_NewReader rlp_NewStream rlp_Decode cfg syncCfg fuel dp = (r, dp') ->
  (resetting dp < num_stages)%nat -> resetting_ok dp ->
  (resetting dp' = resetting dp \/ resetting dp' = S (resetting dp)) /\ all_fresh (resetting dp') (eng dp').
Proof.
  intros Hx Hlt Hok. specialize (Hok Hlt). unfold Step, bind at 1, get in Hx.
  apply Nat.ltb_lt in Hlt as Hb. rewrite Hb in Hx.
  unfold bind at 1, attempt, on_eng, zoom in Hx.
  destruct (stage_Reset cfg syncCfg fuel (resetting dp) _ _ (eng dp)) as [rr q1] eqn:Er.
  assert (all_fresh (resetting dp) q1 /\ (rr = Err EOF -> all_fresh (S (resetting dp)) q1)) as [Hf Hs].
  { destruct (resetting dp) as [|k] eqn:Ek.
    - split; [intros i Hi; lia|]. intros ->. apply Reset_eof in Er as (found & n & _ & [Hh _ Hd _ _ _ _ _]).
      injection Hh as _ _ _ Ha. intros [|i] Hi; [|lia]. cbn. by rewrite Ha, Hd.
    - eapply stage_Reset_fresh; [|exact Er|exact Hok]. lia. }
  destruct rr as [u|err|].
  - injection Hx as <- <-. split; [by left|done].
  - unfold bind, modify, ret, throw in Hx. case_if_in Hx.
    + injection Hx as <- <-. split; [by right|]. apply Hs. apply err_eqb_true in E0. by rewrite E0.
    + injection Hx as <- <-. split; [by left|done].
  - injection Hx as <- <-. split; [by left|done].
Qed.

Lemma preserves_step_engine (R : DerivationPipeline X E stream -> DerivationPipeline X E stream -> Prop)
    `{!PreOrder R} :
  (forall A (m : M (eng_t (X:=X) (E:=E) (stream:=stream)) A), preserves R (on_eng m)) ->
  preserves R (step_engine zlib_NewReader rlp_NewStream rlp_Decode cfg syncCfg).
Proof. intros Hz. unfold step_engine. go_code. Qed.

Lemma Step_resetting_done fuel dp r dp' :
  Step zlib_NewReader rlp_NewStream rlp_Decode cfg syncCfg fuel dp = (r, dp') ->
  (num_stages <= resetting dp)%nat -> resetting dp' = resetting dp.
Proof.
  intros Hx Hge. unfold Step, bind at 1, get in Hx.
  apply Nat.ltb_ge in Hge as Hb. rewrite Hb in Hx.
  assert (forall A (m : M (eng_t (X:=X) (E:=E) (stream:=stream)) A),
    preserves (S:=DerivationPipeline X E stream) (same resetting) (on_eng m)) as Hz.
  { intros A m. by apply preserves_zoom. }
  exact (preserves_step_engine _ Hz _ _ _ Hx).
Qed.

Lemma event_resetting dp dp' : event dp dp' -> resetting_ok dp -> resetting_ok dp'.
Proof.
  intros [fuel dp0 r dp1 Hx|dp0|o dp0|p dp0 r dp1 Hx|parent attrs safe dp0 r dp1 Hx|dp0 r dp1 Hx|force dp0 r dp1 Hx] Hok.
  - intros Hlt. destruct (decide (resetting dp0 < num_stages)%nat) as [Hl|Hl].
    + by eapply Step_resetting.
    + rewrite (Step_resetting_done _ _ _ _ Hx) in Hlt by lia. lia.
  - intros _ i Hi. simpl in Hi. lia.
  - intros Hlt. eapply all_fresh_below; [apply Finalize_below|by apply Hok].
  - unfold AddUnsafePayload in Hx.
    destruct (EngineQueue.AddUnsafePayload p (eng dp0)) as [[r' q]|] eqn:Ea; [|done]. injection Hx as _ <-.
    intros Hlt. eapply all_fresh_below; [by eapply AddUnsafePayload_below|by apply Hok].
  - apply zoom_Ok in Hx as (q & Hx & ->). intros Hlt.
    eapply all_fresh_below; [by eapply StartPayload_below|by apply Hok].
  - apply zoom_Ok in Hx as (q & Hx & ->). intros Hlt.
    eapply all_fresh_below; [by eapply ConfirmPayload_below|by apply Hok].
  - apply zoom_Ok in Hx as (q & Hx & ->). intros Hlt.
    eapply all_fresh_below; [by eapply CancelPayload_below|by apply Hok].
Qed.

(** A reset of the pipeline is complete.  Start with any pipeline, reset it, and let
    the driver interleave steps, further resets, finality signals, unsafe payloads and
    block building in any order.  At the step that completes the reset, every stage is
    fresh: no frames, channels, batches, attributes or finality data of before are left, and
    the traversal, the retrieval and the batch queue all start at the very block and
    configuration the engine queue restarted from. *)
Theorem reset_makes_all_fresh dp0 dp1 fuel r dp2 :
  rtc event (Reset dp0) dp1 ->
  Step zlib_NewReader rlp_NewStream rlp_Decode cfg syncCfg fuel dp1 = (r, dp2) ->
  (resetting dp1 < num_stages)%nat -> resetting dp2 = num_stages ->
  all_fresh num_stages (eng dp2).
Proof.
  intros Hr Hx Hlt Heq. assert (resetting_ok dp1) as Hok.
  { assert (resetting_ok (Reset dp0)) as H0' by (intros _ i Hi; simpl in Hi; lia).
    clear Hx Hlt. induction Hr as [|a b c Hab _ IH]; [done|]. by apply IH, (event_resetting a). }
  destruct (Step_resetting _ _ _ _ Hx Hlt Hok) as [_ Hf]. by rewrite Heq in Hf.
Qed.

(** ** The errors of the pipeline *)

Lemma tower_classified head :
  fails_with classified (nap_NextAttributes (P:=attributesQueue_t (X:=X) (E:=E) (stream:=stream)) head).
Proof.
  apply (attributes_classified cfg head); [apply builder_classified|].
  apply (batches_classified cfg head), reader_classified, frames_classified, retrieval_classified,
    traversal_classified.
Qed.

Lemma advance_classified : fails_with classified (L1Traversal.AdvanceL1Block (E:=X) cfg).
Proof.
  intros s e s'. unfold L1Traversal.AdvanceL1Block.
  destruct (L1BlockRefByNumber _ _) as [[b|er|] x]; [|case_if; intros ?%err_eq; subst; auto with code|done].
  case_if; [intros ?%err_eq; subst; auto with code|].
  destruct (FetchReceipts _ _) as [[[i rs]|er|] y]; [|intros ?%err_eq; subst; auto with code|done].
  destruct (UpdateSystemConfigWithL1Receipts _ _ _) as [[er|] c]; [intros ?%err_eq; subst; auto with code|done].
Qed.

Lemma stage_Reset_classified fuel i base c :
  fails_with classified (stage_Reset (X:=X) (E:=E) (stream:=stream) cfg syncCfg fuel i base c).
Proof.
  destruct i as [|[|[|[|[|[|[|[|i]]]]]]]]; cbn [stage_Reset];
    unfold on_traversal, on_l1Src, on_frameQueue, on_bank, on_chInReader, on_batchQueue, on_attributesQueue;
    repeat apply fails_zoom; [apply Reset_classified|..];
    intros s e s' Hx; try (cbv in Hx; discriminate Hx); try (injection Hx as <- _; auto with code; fail).
  unfold L1Retrieval.Reset in Hx. destruct (OpenData _ _ _ _) as [[ds|er|] x] eqn:Eo; [| |done].
  - err_inj Hx. auto with code.
  - by apply OpenData_no_err in Eo.
Qed.

(** An error of the pipeline: one of the classes, bare or with a message of the
    pipeline around it. *)
Definition pipeline_error (e : error) : Prop :=
  classified e \/ exists msg e0, e = ErrWrap msg e0 /\ classified e0 /\ e0 <> EOF.

Lemma pipeline_error_wrap msg e : classified e -> err_eqb e EOF = false -> pipeline_error (ErrWrap msg e).
Proof. intros Hc Hn. right. exists msg, e. split_and!; [done..|]. by intros ->. Qed.

Lemma Step_error fuel :
  fails_with (S:=DerivationPipeline X E stream) pipeline_error
    (Step zlib_NewReader rlp_NewStream rlp_Decode cfg syncCfg fuel).
Proof.
  unfold Step. apply fails_bind; [apply fails_get|intros dp]. cbv beta. case_if.
  - apply (fails_attempt_bind _ classified); [apply fails_zoom, stage_Reset_classified|intros u; apply fails_ret|].
    intros e He. cbv beta iota. destruct (err_eqb e EOF) eqn:En; [go_code|].
    apply fails_throw. by apply pipeline_error_wrap.
  - unfold step_engine.
    apply (fails_attempt_bind _ classified).
    + apply fails_zoom. by apply Step_classified, tower_classified.
    + intros u. apply fails_ret.
    + intros e He. cbv beta iota. destruct (err_eqb e EOF) eqn:En; [|case_if; apply fails_throw; [by left|]].
      * apply fails_bind; [|intros; apply fails_ret]. intros s e0 s' Hx. left. revert Hx.
        apply fails_zoom.
        unfold on_traversal, on_l1Src, on_frameQueue, on_bank, on_chInReader, on_batchQueue, on_attributesQueue.
        repeat apply fails_zoom. apply advance_classified.
      * by apply pipeline_error_wrap.
Qed.

Lemma reaction_classified e : pipeline_error e -> driver_reaction (Some e) <> UnknownError.
Proof.
  unfold driver_reaction. intros Hp Hx.
  destruct (err_eqb e EOF) eqn:E1; [done|].
  destruct (errors_Is e EngineP2PSyncing) eqn:E2; [done|].
  destruct (errors_Is e ErrReset) eqn:E3; [done|].
  destruct (errors_Is e ErrTemporary) eqn:E4; [done|].
  destruct (errors_Is e ErrCritical) eqn:E5; [done|].
  destruct (errors_Is e NotEnoughData) eqn:E6; [done|].
  assert (forall e0, classified e0 -> e0 <> EOF -> errors_Is e0 EngineP2PSyncing = false ->
    errors_Is e0 ErrReset = false -> errors_Is e0 ErrTemporary = false -> errors_Is e0 ErrCritical = false ->
    errors_Is e0 NotEnoughData = false -> False) as Hc.
  { intros e0 [->|[->|[->|(lvl & inner & ->)]]] Hne; try done.
    unfold ErrReset, ErrTemporary, ErrCritical.
    destruct lvl; by rewrite ?errors_Is_refl_level. }
  destruct Hp as [Hcl|(msg & e0 & -> & Hcl & Hne)]; [|by eapply Hc].
  eapply Hc; try done. intros ->. done.
Qed.

(** C23: the driver knows every error of the pipeline.  Whatever the L1 node, the engine
    and the decoders answer, and in whatever state the pipeline is, an error of [Step]
    makes the driver wait, retry, reset or shut down for a reason it recognizes: the
    branch for an unknown error is never taken. *)
Theorem driver_recognizes_errors fuel dp e dp' :
  Step zlib_NewReader rlp_NewStream rlp_Decode cfg syncCfg fuel dp = (Err e, dp') ->
  driver_reaction (Some e) <> UnknownError.
Proof. intros Hx. apply reaction_classified. by eapply Step_error. Qed.
End PipelineSpec.

(** ** A concrete pipeline *)
Module PipelineExamples.
Import ToyGeth SyncExamples EngineQueueExamples.

#[export] Instance toy_fetcher : L1Fetcher Z :=
  {| l1f_chain := toy_L1;
     l1f_traversal := {| L1BlockRefByNumber := l1c_L1BlockRefByNumber; FetchReceipts _ := throw NotFound |};
     l1f_receipts := {| InfoByHash _ := throw NotFound; lrf_FetchReceipts _ := throw NotFound |};
     l1f_transactions := {| InfoAndTxsByHash _ := throw NotFound |} |}.

#[export] Instance toy_signer : L1Signer := {| Sender _ := Err NotFound |}.

(** No channel is ever decompressed in these runs. *)
Definition toy_NewReader (_ : Data) : result unit := Err EOF.
Definition toy_NewStream (_ : unit) (_ : Z) : unit := tt.
Definition toy_Decode : M unit BatchData := throw EOF.

Definition toy_step : M (DerivationPipeline Z toy_engine unit) (option unit) :=
  Step toy_NewReader toy_NewStream toy_Decode toy_cfg no_sync 4.

(** The pipeline after [n] steps. *)
Fixpoint after (n : nat) (dp : DerivationPipeline Z toy_engine unit) : DerivationPipeline Z toy_engine unit :=
  match n with
  | O => dp
  | S n' => (toy_step (after n' dp)).2
  end.

Definition toy_pipeline : DerivationPipeline Z toy_engine unit :=
  NewDerivationPipeline 100 (mkToyEngine 0).
Definition lost_pipeline : DerivationPipeline Z toy_engine unit :=
  NewDerivationPipeline 500 (mkToyEngine 0).

Lemma after_events n dp :
  rtc (event toy_NewReader toy_NewStream toy_Decode toy_cfg no_sync) dp (after n dp).
Proof.
  induction n as [|n IH]; [done|]. eapply rtc_r; [exact IH|].
  eapply (ev_Step _ _ _ _ _ 4). by apply run_eq.
Qed.

Definition almost_reset : DerivationPipeline Z toy_engine unit := after 7 (Reset toy_pipeline).
Definition fully_reset : DerivationPipeline Z toy_engine unit := (toy_step almost_reset).2.

Lemma almost_reset_reached :
  rtc (event toy_NewReader toy_NewStream toy_Decode toy_cfg no_sync) (Reset toy_pipeline) almost_reset.
Proof. exact (after_events 7 (Reset toy_pipeline)). Qed.

Lemma fully_reset_step : toy_step almost_reset = (Ok (Some tt), fully_reset).
Proof. apply run_eq. vm_compute. reflexivity. Qed.

Lemma reset_counts : resetting almost_reset = 7%nat /\ resetting fully_reset = 8%nat.
Proof. split; vm_compute; reflexivity. Qed.

Lemma reset_makes_all_fresh_witness :
  all_fresh toy_cfg num_stages (eng fully_reset) /\
  EngineQueue.origin (eng fully_reset) = l1_block 100 0.
Proof.
  split; [|vm_compute; reflexivity].
  refine (reset_makes_all_fresh toy_NewReader toy_NewStream toy_Decode toy_cfg no_sync toy_pipeline
           almost_reset 4 (Ok (Some tt)) fully_reset almost_reset_reached fully_reset_step _ (proj2 reset_counts)).
  rewrite (proj1 reset_counts). unfold num_stages. lia.
Defined.

Lemma driver_recognizes_errors_witness :
  driver_reaction (Some (NewTemporaryError (ErrWrap "failed to fetch the new L1 progress" NotFound)))
  = RetryTemporary /\
  exists e, (toy_step lost_pipeline).1 = Err e /\ driver_reaction (Some e) <> UnknownError.
Proof.
  split; [vm_compute; reflexivity|].
  exists (ErrWrap "stage failed resetting"
    (NewTemporaryError (ErrWrap "failed to fetch the new L1 progress" NotFound))).
  assert ((toy_step lost_pipeline).1 = Err (ErrWrap "stage failed resetting"
    (NewTemporaryError (ErrWrap "failed to fetch the new L1 progress" NotFound)))) as Hx
    by (vm_compute; reflexivity).
  split; [exact Hx|].
  exact (driver_recognizes_errors toy_NewReader toy_NewStream toy_Decode toy_cfg no_sync 4 lost_pipeline
           _ _ (run_eq _ _ _ Hx)).
Defined.
End PipelineExamples.
