(* ===== verification/Ssz.v ===== *)
(** * The SSZ encoding of execution payloads

    [op-service/eth/ssz.go]: the encoder writes into a buffer taken from a pool, which holds
    the bytes of earlier payloads; the decoder reads offsets and checks them. *)
From S2P Require Import Prelude GoErrors GoBytes EthTypes.
#[local] Open Scope Z_scope.

(** ** Little-endian integers *)
Definition le_encode (n : nat) (z : Z) : Data := rev (be_encode n z).
Definition le_decode (bs : Data) : Z := be_decode (rev bs).

Lemma length_le_encode n z : length (le_encode n z) = n.
Proof. unfold le_encode. by rewrite length_rev, length_be_encode. Qed.
#[export] Hint Rewrite length_le_encode : opstack.

Lemma le_decode_encode n z : 0 <= z < 256 ^ Z.of_nat n -> le_decode (le_encode n z) = z.
Proof. intros. unfold le_decode, le_encode. rewrite rev_involutive. by apply be_decode_encode_small. Qed.

Lemma le_encode_decode n bs : length bs = n -> le_encode n (le_decode bs) = bs.
Proof.
  intros Hl. unfold le_decode, le_encode. rewrite be_encode_decode_len by (by rewrite length_rev).
  apply rev_involutive.
Qed.

Lemma le_decode_range bs : 0 <= le_decode bs < 256 ^ Z.of_nat (length bs).
Proof. unfold le_decode. rewrite <- (length_rev bs). apply be_decode_range. Qed.

(** The length of a slice as a [uint32]. *)
Definition len32 (d : Data) : Z := u32 (Z.of_nat (length d)).

(** ** The buffer

    [copy(buf[lo:hi], src)]: slicing panics when the bounds are not in order or exceed the
    capacity, and copies as much as fits.  The state is the array behind the slice. *)
Definition slice_copy (lo hi : Z) (src : Data) : M Data unit := fun buf =>
  if (lo <=? hi) && (hi <=? Z.of_nat (length buf)) then
    let k := Nat.min (Z.to_nat (hi - lo)) (length src) in
    (Ok tt, take (Z.to_nat lo) buf ++ take k src ++ drop (Z.to_nat lo + k) buf)
  else (Panic, buf).

(** ** Encoding *)
Definition executionPayloadFixedPart : Z := 508.
Definition maxTransactionsPerPayload : Z := 1048576.
Definition MaxUint32 : Z := 4294967295.

(** [ExecutionPayload.SizeSSZ], in the arithmetic of [uint32]. *)
Definition SizeSSZ (p : ExecutionPayload) : Z :=
  let full := u32 (executionPayloadFixedPart + len32 (ep_ExtraData p)) in
  let full := u32 (full + u32 (u32 (Z.of_nat (length (ep_Transactions p))) * 4)) in
  foldl (fun full tx => u32 (full + len32 tx)) full (ep_Transactions p).

(** [marshalBytes32LE] and [unmarshalBytes32LE]: four words, the lowest one first. *)
Definition marshalBytes32LE (z : Z) : Data :=
  le_encode 8 z ++ le_encode 8 (z / 2 ^ 64) ++ le_encode 8 (z / 2 ^ 128) ++ le_encode 8 (z / 2 ^ 192).
Definition unmarshalBytes32LE (b : Data) : Z :=
  le_decode (take 8 b) + 2 ^ 64 * le_decode (take 8 (drop 8 b)) +
  2 ^ 128 * le_decode (take 8 (drop 16 b)) + 2 ^ 192 * le_decode (take 8 (drop 24 b)).

(** The fields of the fixed part, each with the size the source reserves for it. *)
Definition fixed_fields (p : ExecutionPayload) : list (Z * Data) :=
  [ (32, be_encode 32 (ep_ParentHash p));
    (20, be_encode 20 (ep_FeeRecipient p));
    (32, be_encode 32 (ep_StateRoot p));
    (32, be_encode 32 (ep_ReceiptsRoot p));
    (256, ep_LogsBloom p);
    (32, be_encode 32 (ep_PrevRandao p));
    (8, le_encode 8 (ep_BlockNumber p));
    (8, le_encode 8 (ep_GasLimit p));
    (8, le_encode 8 (ep_GasUsed p));
    (8, le_encode 8 (ep_Timestamp p));
    (4, le_encode 4 executionPayloadFixedPart);
    (32, marshalBytes32LE (ep_BaseFeePerGas p));
    (32, be_encode 32 (ep_BlockHash p));
    (4, le_encode 4 (executionPayloadFixedPart + len32 (ep_ExtraData p))) ].

(** The fields are copied one after the other; the offset after the last one. *)
Fixpoint put_fields (fields : list (Z * Data)) (offset : Z) : M Data Z :=
  match fields with
  | [] => ret offset
  | (n, d) :: fields' =>
      slice_copy offset (u32 (offset + n)) d ;;;
      put_fields fields' (u32 (offset + n))
  end.

(** The loop of [marshalTransactions], for the slice of the buffer that starts at [base]. *)
Fixpoint put_transactions (base offset txOffset : Z) (txs : list Data) : M Data unit :=
  match txs with
  | [] => ret tt
  | tx :: txs' =>
      let nextTxOffset := u32 (txOffset + len32 tx) in
      slice_copy (base + offset) (base + u32 (offset + 4)) (le_encode 4 txOffset) ;;;
      slice_copy (base + txOffset) (base + nextTxOffset) tx ;;;
      put_transactions base (u32 (offset + 4)) nextTxOffset txs'
  end.
Definition marshalTransactions (base : Z) (txs : list Data) : M Data unit :=
  put_transactions base 0 (u32 (u32 (Z.of_nat (length txs)) * 4)) txs.

(** The body of [MarshalSSZ] over the buffer. *)
Definition marshal_body (p : ExecutionPayload) (scope : Z) : M Data unit :=
  offset <- put_fields (fixed_fields p) 0 ;;
  if negb (offset =? executionPayloadFixedPart) then lift Panic
  else
    let offset' := u32 (offset + len32 (ep_ExtraData p)) in
    slice_copy offset offset' (ep_ExtraData p) ;;;
    if scope <? offset' then lift Panic else marshalTransactions offset' (ep_Transactions p).

(** [ExecutionPayload.MarshalSSZ]: the bytes handed to the writer, given the array of the
    buffer the pool returns. *)
Definition MarshalSSZ (pooled : Data) (p : ExecutionPayload) : result Data :=
  if MaxUint32 - executionPayloadFixedPart <? len32 (ep_ExtraData p) then Err (ErrNew "extra data too large")
  else
    let scope := SizeSSZ p in
    let buf := if u32 (Z.of_nat (length pooled)) <? scope then repeat Byte.x00 (Z.to_nat scope) else pooled in
    match marshal_body p scope buf with
    | (Ok _, buf') => Ok (take (Z.to_nat scope) buf')
    | (Err e, _) => Err e
    | (Panic, _) => Panic
    end.

(** ** Decoding *)

(** [in[lo:hi]] for reading; the slices of the decoder are not resliced beyond their
    length. *)
Definition sub (lo hi : Z) (b : Data) : result Data :=
  if (0 <=? lo) && (lo <=? hi) && (hi <=? Z.of_nat (length b))
  then Ok (take (Z.to_nat (hi - lo)) (drop (Z.to_nat lo) b)) else Panic.

(** The loop of [unmarshalTransactions], with the number of transactions left. *)
Fixpoint unmarshal_loop (left : nat) (input : Data) (offset currentTxOffset : Z) : result (list Data) :=
  match left with
  | O => Ok []
  | S left' =>
      let scope := len32 input in
      let? (nextTxOffset, offset) :=
        (if (0 <? left')%nat
         then let? w := sub offset (u32 (offset + 4)) input in Ok (le_decode w, u32 (offset + 4))
         else Ok (scope, offset)) in
      if (nextTxOffset <? currentTxOffset) || (scope <? nextTxOffset) then Err (ErrNew "bad next offset")
      else
        let? tx := sub currentTxOffset nextTxOffset input in
        let? txs := unmarshal_loop left' input offset nextTxOffset in
        Ok (tx :: txs)
  end.

(** [unmarshalTransactions]. *)
Definition unmarshalTransactions (input : Data) : result (list Data) :=
  let scope := len32 input in
  if scope =? 0 then Ok []
  else if scope <? 4 then Err (ErrNew "not enough scope to read first tx offset")
  else
    let? w := sub 0 4 input in
    let firstTxOffset := le_decode w in
    if negb (firstTxOffset mod 4 =? 0) then Err (ErrNew "invalid first tx offset: not a multiple of offset size")
    else if scope <? firstTxOffset then Err (ErrNew "invalid first tx offset: out of scope")
    else
      let txCount := firstTxOffset / 4 in
      if maxTransactionsPerPayload <? txCount then Err (ErrNew "too many transactions")
      else unmarshal_loop (Z.to_nat txCount) input 4 firstTxOffset.

(** The fields of the fixed part, read from the buffer. *)
Definition field (lo n : nat) (buf : Data) : Data := take n (drop lo buf).

(** The part of [UnmarshalSSZ] after the buffer was filled. *)
Definition unmarshal_body (scope : Z) (buf : Data) : result ExecutionPayload :=
  let extraDataOffset := le_decode (field 436 4 buf) in
  if negb (extraDataOffset =? executionPayloadFixedPart) then Err (ErrNew "unexpected extra data offset")
  else
    let transactionsOffset := le_decode (field 504 4 buf) in
    if transactionsOffset <? extraDataOffset then Err (ErrNew "transactions offset is smaller than extra data offset, aborting")
    else if (u32 (extraDataOffset + 32) <? transactionsOffset) || (scope <? transactionsOffset)
    then Err (ErrNew "extra-data is too large")
    else
      let? extra := sub extraDataOffset transactionsOffset buf in
      let? rest := sub transactionsOffset (Z.of_nat (length buf)) buf in
      let? txs := map_err (ErrWrap "failed to unmarshal transactions list") (unmarshalTransactions rest) in
      Ok (mkPayload (be_decode (field 0 32 buf)) (be_decode (field 32 20 buf)) (be_decode (field 52 32 buf))
            (be_decode (field 84 32 buf)) (field 116 256 buf) (be_decode (field 372 32 buf))
            (le_decode (field 404 8 buf)) (le_decode (field 412 8 buf)) (le_decode (field 420 8 buf))
            (le_decode (field 428 8 buf)) extra (unmarshalBytes32LE (field 440 32 buf))
            (be_decode (field 472 32 buf)) txs).

(** [ExecutionPayload.UnmarshalSSZ] into a new payload, from a reader over the unread
    bytes.  Every caller drops the payload on an error. *)
Definition UnmarshalSSZ (scope : Z) : M Data ExecutionPayload :=
  if scope <? executionPayloadFixedPart then throw (ErrNew "scope too small to decode execution payload")
  else
    buf <- wrapE (ErrWrap "failed to read fixed-size part of ExecutionPayload") (ReadFull (Z.to_nat scope)) ;;
    lift (unmarshal_body scope buf).

(** ** The reference encoding *)
Fixpoint ssz_offsets (start : Z) (txs : list Data) : Data :=
  match txs with
  | [] => []
  | tx :: txs' => le_encode 4 start ++ ssz_offsets (start + Z.of_nat (length tx)) txs'
  end.
Definition ssz_transactions (txs : list Data) : Data :=
  ssz_offsets (4 * Z.of_nat (length txs)) txs ++ concat txs.
Definition ssz_encoding (p : ExecutionPayload) : Data :=
  concat (snd <$> fixed_fields p) ++ ep_ExtraData p ++ ssz_transactions (ep_Transactions p).

(** A payload whose fields are in range and whose encoding has fewer than 2^32 bytes. *)
Definition total_size (p : ExecutionPayload) : Z :=
  508 + Z.of_nat (length (ep_ExtraData p)) + 4 * Z.of_nat (length (ep_Transactions p)) +
  Z.of_nat (length (concat (ep_Transactions p))).

(** ** Encoding is independent of the pooled buffer *)
Lemma len32_small d : Z.of_nat (length d) < 4294967296 -> len32 d = Z.of_nat (length d).
Proof. intros. apply u32_small. lia. Qed.

Lemma slice_copy_at (a b c src : Data) lo hi :
  lo = Z.of_nat (length a) -> hi = lo + Z.of_nat (length src) -> length b = length src ->
  slice_copy lo hi src (a ++ b ++ c) = (Ok tt, a ++ src ++ c).
Proof.
  intros -> -> Hb. unfold slice_copy. rewrite !length_app.
  destruct (Z.leb_spec (Z.of_nat (length a)) (Z.of_nat (length a) + Z.of_nat (length src))); [|lia].
  destruct (Z.leb_spec (Z.of_nat (length a) + Z.of_nat (length src))
    (Z.of_nat (length a + (length b + length c)))); [|lia]. cbn [andb].
  replace (Z.to_nat (Z.of_nat (length a) + Z.of_nat (length src) - Z.of_nat (length a)) `min` length src)%nat
    with (length src) by lia.
  rewrite Nat2Z.id, take_app_length, firstn_all. do 3 f_equal.
  rewrite app_assoc. apply drop_app_exact. rewrite length_app. lia.
Qed.

(** Writing at the front of what is not written yet. *)
Lemma slice_copy_next (done rest src : Data) lo hi :
  lo = Z.of_nat (length done) -> hi = lo + Z.of_nat (length src) -> (length src <= length rest)%nat ->
  slice_copy lo hi src (done ++ rest) = (Ok tt, (done ++ src) ++ drop (length src) rest).
Proof.
  intros Hlo Hhi Hle. rewrite <- (take_drop (length src) rest) at 1.
  rewrite (slice_copy_at done (take (length src) rest) _ src) by (try done; rewrite length_take; lia).
  by rewrite app_assoc.
Qed.

Lemma put_fields_spec fields (done rest : Data) :
  Forall (fun nd => nd.1 = Z.of_nat (length nd.2)) fields ->
  (length (concat (snd <$> fields)) <= length rest)%nat ->
  Z.of_nat (length done) + Z.of_nat (length (concat (snd <$> fields))) < 4294967296 ->
  put_fields fields (Z.of_nat (length done)) (done ++ rest) =
  (Ok (Z.of_nat (length done) + Z.of_nat (length (concat (snd <$> fields)))),
   (done ++ concat (snd <$> fields)) ++ drop (length (concat (snd <$> fields))) rest).
Proof.
  revert done rest. induction fields as [|[n d] fields IH]; intros done rest Hf Hr Ho;
    cbn [put_fields fmap list_fmap concat snd length] in *.
  { rewrite app_nil_r, drop_0. unfold ret. do 2 f_equal. lia. }
  apply Forall_cons in Hf as [Hn Hf]. cbn in Hn. subst n. rewrite length_app in *.
  unfold bind at 1. rewrite u32_small by lia. rewrite slice_copy_next by (try done; lia).
  replace (Z.of_nat (length done) + Z.of_nat (length d)) with (Z.of_nat (length (done ++ d)))
    by (rewrite length_app; lia).
  rewrite IH by (try done; rewrite ?length_drop, ?length_app; lia).
  rewrite length_app, app_assoc, drop_drop. f_equal. f_equal. lia.
Qed.

(** The loop over the transactions: offsets are written behind [offs], data behind [data]. *)
Lemma put_transactions_spec txs (pre offs gap data rest : Data) :
  length gap = (4 * length txs)%nat -> (length (concat txs) <= length rest)%nat ->
  Z.of_nat (length offs) + Z.of_nat (length gap) + Z.of_nat (length data) + Z.of_nat (length (concat txs)) < 4294967296 ->
  let start := Z.of_nat (length offs) + Z.of_nat (length gap) + Z.of_nat (length data) in
  put_transactions (Z.of_nat (length pre)) (Z.of_nat (length offs)) start txs (pre ++ offs ++ gap ++ data ++ rest) =
  (Ok tt, pre ++ offs ++ ssz_offsets start txs ++ data ++ concat txs ++ drop (length (concat txs)) rest).
Proof.
  revert offs gap data rest. induction txs as [|tx txs IH]; intros offs gap data rest Hg Hr Ho start;
    cbn [put_transactions ssz_offsets concat length] in *.
  { apply nil_length_inv in Hg. subst gap. by rewrite drop_0. }
  rewrite length_app in *. rewrite <- (take_drop 4 gap).
  assert (Hg1 : length (take 4 gap) = 4%nat) by (rewrite length_take; lia).
  set (g1 := take 4 gap) in *. set (g2 := drop 4 gap).
  assert (Hg2 : length g2 = (4 * length txs)%nat) by (unfold g2; rewrite length_drop; lia).
  unfold bind at 1. rewrite len32_small, !u32_small by lia.
  replace (pre ++ offs ++ (g1 ++ g2) ++ data ++ rest) with ((pre ++ offs) ++ g1 ++ (g2 ++ data ++ rest))
    by (by rewrite <- !app_assoc).
  rewrite (slice_copy_at (pre ++ offs) g1) by (rewrite ?length_app, ?length_le_encode; lia).
  set (w := le_encode 4 start). assert (Hw : length w = 4%nat) by apply length_le_encode.
  replace ((pre ++ offs) ++ w ++ g2 ++ data ++ rest) with ((pre ++ offs ++ w ++ g2 ++ data) ++ rest)
    by (by rewrite <- !app_assoc).
  unfold bind at 1. rewrite slice_copy_next by (rewrite ?length_app; lia).
  replace (((pre ++ offs ++ w ++ g2 ++ data) ++ tx) ++ drop (length tx) rest)
    with (pre ++ (offs ++ w) ++ g2 ++ (data ++ tx) ++ drop (length tx) rest) by (by rewrite <- !app_assoc).
  replace (Z.of_nat (length offs) + 4) with (Z.of_nat (length (offs ++ w))) by (rewrite length_app; lia).
  replace (start + Z.of_nat (length tx))
    with (Z.of_nat (length (offs ++ w)) + Z.of_nat (length g2) + Z.of_nat (length (data ++ tx)))
    by (rewrite !length_app; lia).
  rewrite IH by (rewrite ?length_drop, ?length_app; lia).
  rewrite drop_drop, <- !app_assoc. done.
Qed.

Lemma length_marshalBytes32LE z : length (marshalBytes32LE z) = 32%nat.
Proof. unfold marshalBytes32LE. rewrite !length_app, !length_le_encode. done. Qed.
#[export] Hint Rewrite length_marshalBytes32LE : opstack.

Lemma fixed_fields_wf p :
  length (ep_LogsBloom p) = 256%nat -> Forall (fun nd => nd.1 = Z.of_nat (length nd.2)) (fixed_fields p).
Proof.
  intros Hb. unfold fixed_fields. repeat constructor; cbn [fst snd]; autorewrite with opstack; lia.
Qed.

Lemma length_fixed p : length (ep_LogsBloom p) = 256%nat -> length (concat (snd <$> fixed_fields p)) = 508%nat.
Proof.
  intros Hb. unfold fixed_fields. cbn [fmap list_fmap concat snd]. rewrite !length_app. autorewrite with opstack.
  rewrite Hb. done.
Qed.

Lemma foldl_size txs z :
  0 <= z -> z + Z.of_nat (length (concat txs)) < 4294967296 ->
  foldl (fun full tx => u32 (full + len32 tx)) z txs = z + Z.of_nat (length (concat txs)).
Proof.
  revert z. induction txs as [|tx txs IH]; intros z Hz Hs; cbn [foldl concat length] in *; [lia|].
  rewrite length_app in *. rewrite len32_small, u32_small by lia. rewrite IH by lia. lia.
Qed.

Lemma SizeSSZ_small p : total_size p < 4294967296 -> SizeSSZ p = total_size p.
Proof.
  unfold total_size, SizeSSZ, executionPayloadFixedPart. intros Hs.
  rewrite len32_small, !(u32_small (_ * 4)), !u32_small by (rewrite ?u32_small; lia).
  rewrite foldl_size by lia. lia.
Qed.

Lemma length_ssz_offsets start txs : length (ssz_offsets start txs) = (4 * length txs)%nat.
Proof.
  revert start. induction txs as [|tx txs IH]; intros start; cbn [ssz_offsets length]; [done|].
  rewrite length_app, length_le_encode, IH. lia.
Qed.

Lemma length_ssz_encoding p :
  length (ep_LogsBloom p) = 256%nat -> Z.of_nat (length (ssz_encoding p)) = total_size p.
Proof.
  intros Hb. unfold ssz_encoding, ssz_transactions, total_size.
  rewrite !length_app, length_fixed, length_ssz_offsets by done. lia.
Qed.

Lemma marshal_body_spec p (buf : Data) :
  length (ep_LogsBloom p) = 256%nat -> total_size p < 4294967296 -> total_size p <= Z.of_nat (length buf) ->
  marshal_body p (total_size p) buf =
  (Ok tt, ssz_encoding p ++ drop (Z.to_nat (total_size p)) buf).
Proof.
  intros Hb Hs Hl. pose proof (length_fixed p Hb) as Hf. unfold total_size in *.
  unfold marshal_body, bind at 1. 
  pose proof (put_fields_spec (fixed_fields p) [] buf (fixed_fields_wf p Hb)) as Hp.
  rewrite Hf in Hp. cbn [length app] in Hp. change (Z.of_nat 0) with 0 in Hp. rewrite Hp by lia. clear Hp.
  cbn [negb]. unfold executionPayloadFixedPart. change (negb (0 + Z.of_nat 508 =? 508)) with false. cbn iota.
  set (fx := concat (snd <$> fixed_fields p)) in *.
  rewrite len32_small, u32_small by lia. unfold bind at 1.
  rewrite slice_copy_next by (rewrite ?length_drop; lia).
  destruct (Z.ltb_spec (508 + Z.of_nat (length (ep_ExtraData p)) + 4 * Z.of_nat (length (ep_Transactions p)) +
     Z.of_nat (length (concat (ep_Transactions p)))) (0 + Z.of_nat 508 + Z.of_nat (length (ep_ExtraData p)))); [lia|].
  rewrite drop_drop. set (txs := ep_Transactions p) in *. set (ex := ep_ExtraData p) in *.
  set (rest := drop (508 + length ex) buf).
  assert (Hrest : (4 * length txs + length (concat txs) <= length rest)%nat) by (unfold rest; rewrite length_drop; lia).
  unfold marshalTransactions. rewrite !u32_small by (rewrite ?u32_small; lia).
  rewrite <- (take_drop (4 * length txs) rest).
  pose proof (put_transactions_spec txs (fx ++ ex) [] (take (4 * length txs) rest) [] (drop (4 * length txs) rest)) as Ht.
  cbn [app length] in Ht. rewrite length_take, Nat.min_l in Ht by lia.
  replace (Z.of_nat 0 + Z.of_nat (4 * length txs) + Z.of_nat 0) with (Z.of_nat (length txs) * 4) in Ht by lia.
  replace (0 + Z.of_nat 508 + Z.of_nat (length ex)) with (Z.of_nat (length (fx ++ ex))) by (rewrite length_app; lia).
  change (Z.of_nat 0) with 0 in Ht.
  rewrite Ht by (rewrite ?length_drop; lia). unfold ssz_encoding, ssz_transactions. fold txs ex fx.
  rewrite !drop_drop. unfold rest. rewrite !drop_drop, <- !app_assoc.
  replace (Z.of_nat (length txs) * 4) with (4 * Z.of_nat (length txs)) by lia.
  do 6 f_equal. lia.
Qed.

Lemma MarshalSSZ_encoding pooled p :
  length (ep_LogsBloom p) = 256%nat -> total_size p < 4294967296 -> Z.of_nat (length pooled) < 4294967296 ->
  MarshalSSZ pooled p = Ok (ssz_encoding p).
Proof.
  intros Hb Hs Hp. unfold MarshalSSZ. rewrite SizeSSZ_small by done.
  assert (He : len32 (ep_ExtraData p) <= MaxUint32 - executionPayloadFixedPart).
  { unfold total_size, MaxUint32, executionPayloadFixedPart in *. rewrite len32_small by lia. lia. }
  destruct (Z.ltb_spec (MaxUint32 - executionPayloadFixedPart) (len32 (ep_ExtraData p))); [lia|].
  rewrite u32_small by lia. cbv zeta.
  rewrite marshal_body_spec; [|done..|].
  - f_equal. rewrite <- length_ssz_encoding by done. rewrite Nat2Z.id. by rewrite take_app_length.
  - destruct (Z.ltb_spec (Z.of_nat (length pooled)) (total_size p)); [|lia].
    rewrite repeat_length. unfold total_size in *. lia.
Qed.

(** ** Decoding accepts the reference encoding *)
Lemma sub_app (a b c : Data) lo hi :
  lo = Z.of_nat (length a) -> hi = Z.of_nat (length a + length b) -> sub lo hi (a ++ b ++ c) = Ok b.
Proof.
  intros -> ->. unfold sub. rewrite !length_app.
  destruct (Z.leb_spec 0 (Z.of_nat (length a))); [|lia].
  destruct (Z.leb_spec (Z.of_nat (length a)) (Z.of_nat (length a + length b))); [|lia].
  destruct (Z.leb_spec (Z.of_nat (length a + length b)) (Z.of_nat (length a + (length b + length c)))); [|lia].
  cbn [andb]. replace (Z.to_nat (Z.of_nat (length a + length b) - Z.of_nat (length a))) with (length b) by lia.
  rewrite Nat2Z.id, drop_app_length. by rewrite take_app_length.
Qed.

Lemma sub_Ok lo hi b d :
  sub lo hi b = Ok d -> 0 <= lo <= hi /\ hi <= Z.of_nat (length b) /\ d = take (Z.to_nat (hi - lo)) (drop (Z.to_nat lo) b).
Proof. unfold sub. destruct ((_ && _) && _) eqn:E; [|done]. zify_bools. intros [= <-]. done. Qed.

Lemma sub_intro lo hi (b : Data) :
  0 <= lo <= hi -> hi <= Z.of_nat (length b) -> sub lo hi b = Ok (take (Z.to_nat (hi - lo)) (drop (Z.to_nat lo) b)).
Proof.
  intros ? ?. unfold sub. destruct (Z.leb_spec 0 lo); [|lia].
  destruct (Z.leb_spec lo hi); [|lia]. by destruct (Z.leb_spec hi (Z.of_nat (length b))); [|lia].
Qed.

Lemma take_4_more {A} n (l : list A) : take (4 * S n) l = take 4 l ++ take (4 * n) (drop 4 l).
Proof. replace (4 * S n)%nat with (4 + 4 * n)%nat by lia. symmetry. apply take_take_drop. Qed.

(** Where the loop stands: [S left] transactions are to be read, from [current] to the end,
    and [left] offsets from [offset] on. *)
Definition loop_result (left : nat) (input : Data) (offset : nat) (current : Z) (txs : list Data) : Prop :=
  length txs = S left /\ concat txs = drop (Z.to_nat current) input /\
  exists tx txs', txs = tx :: txs' /\
    take (4 * left) (drop offset input) = ssz_offsets (current + Z.of_nat (length tx)) txs'.

(** One round of the loop that has an offset to read. *)
Lemma unmarshal_loop_S left (input : Data) (offset : nat) current :
  Z.of_nat (length input) < 4294967296 -> (offset + 4 <= length input)%nat -> 
  unmarshal_loop (S (S left)) input (Z.of_nat offset) current =
  let next := le_decode (take 4 (drop offset input)) in
  if (next <? current) || (Z.of_nat (length input) <? next) then Err (ErrNew "bad next offset")
  else
    let? tx := sub current next input in
    let? txs := unmarshal_loop (S left) input (Z.of_nat (offset + 4)) next in
    Ok (tx :: txs).
Proof.
  intros Hl Ho. remember (S left) as n eqn:Hn. cbn [unmarshal_loop].
  rewrite (proj2 (Nat.ltb_lt 0 n)) by lia. rewrite u32_small by lia.
  rewrite sub_intro by lia. rewrite len32_small by lia.
  replace (Z.to_nat (Z.of_nat offset + 4 - Z.of_nat offset)) with 4%nat by lia.
  rewrite Nat2Z.id. replace (Z.of_nat offset + 4) with (Z.of_nat (offset + 4)) by lia. done.
Qed.

Lemma unmarshal_loop_sound left (input : Data) (offset : nat) current txs :
  Z.of_nat (length input) < 4294967296 -> (offset + 4 * left <= length input)%nat ->
  0 <= current <= Z.of_nat (length input) ->
  unmarshal_loop (S left) input (Z.of_nat offset) current = Ok txs -> loop_result left input offset current txs.
Proof.
  intros Hl. revert offset current txs. induction left as [|left IH]; intros offset current txs Ho Hc.
  - cbn [unmarshal_loop Nat.ltb Nat.leb]. rewrite len32_small by lia.
    destruct (_ || _); [done|]. rewrite sub_intro by lia. intros [= <-].
    assert (Hd : take (Z.to_nat (Z.of_nat (length input) - current)) (drop (Z.to_nat current) input) =
      drop (Z.to_nat current) input) by (apply take_ge; rewrite length_drop; lia).
    rewrite Hd. split_and!; [done|cbn; by rewrite app_nil_r|]. by eexists _, [].
  - rewrite unmarshal_loop_S by lia. cbv zeta. set (next := le_decode _).
    destruct ((next <? current) || _) eqn:Hb; [done|]. zify_bools.
    rewrite sub_intro by lia. set (tx := take _ _).
    destruct (unmarshal_loop (S left) input (Z.of_nat (offset + 4)) next) as [txs0|e|] eqn:Hr; [|done..].
    intros [= <-]. apply IH in Hr as (Hn & Hcat & tx1 & txs1 & -> & Hoff); [|lia..].
    assert (Htx : Z.of_nat (length tx) = next - current).
    { unfold tx. rewrite length_take, length_drop. lia. }
    split_and!.
    + cbn in *. lia.
    + cbn [concat] in *. rewrite Hcat. unfold tx.
      replace (Z.to_nat next) with (Z.to_nat current + Z.to_nat (next - current))%nat by lia.
      rewrite <- drop_drop. apply take_drop.
    + exists tx, (tx1 :: txs1). split; [done|]. cbn [ssz_offsets]. rewrite take_4_more, drop_drop, Hoff, Htx.
      replace (current + (next - current)) with next by lia. f_equal.
      symmetry. unfold next. apply le_encode_decode. rewrite length_take, length_drop. lia.
Qed.

Lemma unmarshal_loop_complete left (input : Data) (offset : nat) current txs :
  Z.of_nat (length input) < 4294967296 -> (offset + 4 * left <= length input)%nat ->
  0 <= current <= Z.of_nat (length input) ->
  loop_result left input offset current txs -> unmarshal_loop (S left) input (Z.of_nat offset) current = Ok txs.
Proof.
  intros Hl. revert offset current txs. induction left as [|left IH];
    intros offset current txs Ho Hc (Hn & Hcat & tx & txs' & -> & Hoff).
  - cbn in Hn. assert (txs' = []) as -> by (by apply nil_length_inv; lia).
    cbn [unmarshal_loop Nat.ltb Nat.leb]. rewrite len32_small by lia.
    destruct (Z.ltb_spec (Z.of_nat (length input)) current); [lia|].
    destruct (Z.ltb_spec (Z.of_nat (length input)) (Z.of_nat (length input))); [lia|]. cbn [orb].
    rewrite sub_intro by lia. cbn in Hcat. rewrite app_nil_r in Hcat. rewrite Hcat.
    by rewrite take_ge by (rewrite length_drop; lia).
  - destruct txs' as [|tx1 txs1]; [done|]. cbn [ssz_offsets] in Hoff. rewrite take_4_more in Hoff.
    apply app_inj_1 in Hoff as [Hw Hoff]; [|rewrite length_take, length_drop, length_le_encode; lia].
    pose proof (f_equal length Hcat) as Hlen. cbn [concat] in Hlen. rewrite length_app, length_drop in Hlen.
    set (next := current + Z.of_nat (length tx)) in *.
    rewrite unmarshal_loop_S, Hw, le_decode_encode by (cbn; lia). cbv zeta.
    destruct (Z.ltb_spec next current); [lia|]. destruct (Z.ltb_spec (Z.of_nat (length input)) next); [lia|].
    cbn [orb]. rewrite sub_intro by lia.
    rewrite (IH (offset + 4)%nat next (tx1 :: txs1)); [|lia..|].
    + do 2 f_equal. cbn [concat] in Hcat. rewrite <- Hcat. apply take_app_exact. lia.
    + split_and!; [cbn in *; lia| |].
      * cbn [concat] in Hcat |- *. apply (f_equal (drop (length tx))) in Hcat.
        rewrite drop_app_length in Hcat. rewrite Hcat, drop_drop. f_equal. lia.
      * exists tx1, txs1. split; [done|]. by rewrite drop_drop in Hoff.
Qed.

(** The position after the first offset was read. *)
Lemma loop_result_start n (input : Data) txs :
  take 4 input = le_encode 4 (4 * Z.of_nat (S n)) -> (4 * S n <= length input)%nat ->
  loop_result n input 4 (4 * Z.of_nat (S n)) txs <-> length txs = S n /\ input = ssz_transactions txs.
Proof.
  intros Hfirst Hl. set (start := 4 * Z.of_nat (S n)) in *. unfold ssz_transactions.
  assert (Hsplit : input = le_encode 4 start ++ take (4 * n) (drop 4 input) ++ drop (Z.to_nat start) input).
  { rewrite <- Hfirst. replace (Z.to_nat start) with (4 + 4 * n)%nat by (unfold start; lia).
    rewrite <- drop_drop, take_drop. by rewrite take_drop. }
  split.
  - intros (Hn & Hcat & tx & txs' & -> & Hoff). split; [done|]. rewrite Hsplit, Hoff, <- Hcat.
    cbn [ssz_offsets]. rewrite Hn. fold start. by rewrite <- app_assoc.
  - intros [Hn Hin]. destruct txs as [|tx txs']; [done|]. rewrite Hn in Hin. fold start in Hin.
    cbn [ssz_offsets] in Hin. rewrite <- app_assoc in Hin. split_and!; [done| |exists tx, txs'; split; [done|]].
    + rewrite Hin, app_assoc. symmetry. apply drop_app_exact.
      rewrite length_app, length_le_encode, length_ssz_offsets. cbn in Hn. unfold start. lia.
    + rewrite Hin. rewrite (drop_app_exact (le_encode 4 start)) by (by rewrite length_le_encode).
      apply take_app_exact. rewrite length_ssz_offsets. cbn in Hn. lia.
Qed.

Lemma length_ssz_transactions txs :
  length (ssz_transactions txs) = (4 * length txs + length (concat txs))%nat.
Proof. unfold ssz_transactions. by rewrite length_app, length_ssz_offsets. Qed.

(** The first offset of an encoding tells the number of transactions. *)
Lemma ssz_transactions_first txs :
  txs <> [] -> take 4 (ssz_transactions txs) = le_encode 4 (4 * Z.of_nat (length txs)).
Proof.
  intros Hne. destruct txs as [|tx txs]; [done|]. unfold ssz_transactions. cbn [ssz_offsets].
  rewrite <- app_assoc. apply take_app_exact. by rewrite length_le_encode.
Qed.

(** The decoder of transactions accepts the reference encodings of lists that are not too
    long, and besides them every input that starts with a zero offset, as the empty list. *)
Lemma unmarshalTransactions_iff (input : Data) txs :
  Z.of_nat (length input) < 4294967296 ->
  unmarshalTransactions input = Ok txs <->
  (input = ssz_transactions txs /\ Z.of_nat (length txs) <= maxTransactionsPerPayload) \/
  (txs = [] /\ (4 <= length input)%nat /\ take 4 input = le_encode 4 0).
Proof.
  intros Hl. unfold unmarshalTransactions. rewrite len32_small by done.
  assert (Hlen : input = ssz_transactions txs -> length input = (4 * length txs + length (concat txs))%nat).
  { intros ->. apply length_ssz_transactions. }
  destruct (Z.eqb_spec (Z.of_nat (length input)) 0) as [Hz|Hz].
  { assert (input = []) as -> by (apply nil_length_inv; lia). split.
    - intros [= <-]. by left.
    - intros [[Hx _]|(-> & ? & _)]; [|done]. destruct txs as [|tx txs]; [done|]. specialize (Hlen Hx). cbn in Hlen. lia. }
  destruct (Z.ltb_spec (Z.of_nat (length input)) 4) as [Hs|Hs].
  { split; [done|]. intros [[Hx _]|(_ & ? & _)]; [|lia]. destruct txs; [by rewrite Hx in Hz|].
    specialize (Hlen Hx). cbn in Hlen. lia. }
  rewrite sub_intro by lia. change (Z.to_nat (4 - 0)) with 4%nat. change (Z.to_nat 0) with 0%nat. rewrite drop_0.
  set (first := le_decode (take 4 input)).
  pose proof (le_decode_range (take 4 input)) as Hfr. fold first in Hfr. rewrite length_take, Nat.min_l in Hfr by lia.
  assert (Hfirst : take 4 input = le_encode 4 first).
  { symmetry. apply le_encode_decode. rewrite length_take. lia. }
  assert (Henc : input = ssz_transactions txs -> first = 4 * Z.of_nat (length txs) /\ txs <> []).
  { intros Hx. assert (txs <> []) as Hne by (intros ->; by rewrite Hx in Hz). split; [|done].
    unfold first. rewrite Hx, ssz_transactions_first by done. apply le_decode_encode. cbn. rewrite Hlen in Hl by done. lia. }
  assert (Hzero : take 4 input = le_encode 4 0 -> first = 0).
  { intros Hx. unfold first. rewrite Hx. by apply le_decode_encode. }
  destruct (Z.eqb_spec (first mod 4) 0) as [Hm|Hm]; cbn [negb].
  2:{ split; [done|]. intros [[Hx _]|(_ & _ & Hx)]; exfalso; apply Hm.
      - destruct (Henc Hx) as [-> _]. rewrite Z.mul_comm. apply Z.mod_mul. lia.
      - by rewrite Hzero. }
  destruct (Z.ltb_spec (Z.of_nat (length input)) first) as [Ho|Ho].
  { split; [done|]. intros [[Hx _]|(_ & _ & Hx)]; exfalso; [|rewrite Hzero in Ho; [lia|done]].
    destruct (Henc Hx) as [Hf _]. specialize (Hlen Hx). lia. }
  assert (Hq : first = 4 * (first / 4)) by (apply Z.div_exact; lia). set (n := first / 4) in *.
  destruct (Z.ltb_spec maxTransactionsPerPayload n) as [Hmax|Hmax].
  { unfold maxTransactionsPerPayload in *. split; [done|]. intros [[Hx Hc]|(_ & _ & Hx)]; exfalso; [|apply Hzero in Hx; lia].
    destruct (Henc Hx) as [Hf _]. lia. }
  destruct (Z.to_nat n) as [|k] eqn:Hk.
  { assert (first = 0) as H0 by lia. rewrite H0 in Hfirst. split.
    - intros [= <-]. right. split_and!; [done|lia|done].
    - intros [[Hx _]|(-> & _)]; [|done]. destruct (Henc Hx) as [? Hne]. assert (length txs = 0)%nat by lia. by destruct txs. }
  assert (Hf : first = 4 * Z.of_nat (S k)) by lia. rewrite Hf. change 4 with (Z.of_nat 4) at 1.
  rewrite Hf in Hfirst. assert (H4 : (4 * S k <= length input)%nat) by lia.
  transitivity (loop_result k input 4 (4 * Z.of_nat (S k)) txs).
  { split; [apply unmarshal_loop_sound|apply unmarshal_loop_complete]; lia. }
  rewrite loop_result_start by done. split.
  - intros [Hn Hx]. left. split; [done|]. lia.
  - intros [[Hx _]|(-> & _ & Hx%Hzero)]; [|lia]. destruct (Henc Hx) as [Hf' _]. split; [lia|done].
Qed.

(** ** The fields of the fixed part *)
Fixpoint cut (lo : nat) (sizes : list nat) (buf : Data) : list Data :=
  match sizes with
  | [] => []
  | n :: sizes' => field lo n buf :: cut (lo + n) sizes' buf
  end.
Definition field_sizes : list nat := [32; 20; 32; 32; 256; 32; 8; 8; 8; 8; 4; 32; 32; 4]%nat.

Lemma concat_cut lo sizes (buf : Data) :
  concat (cut lo sizes buf) ++ drop (lo + sum_list sizes) buf = drop lo buf.
Proof.
  revert lo. induction sizes as [|n sizes IH]; intros lo; cbn [cut concat].
  - by rewrite Nat.add_0_r.
  - rewrite <- app_assoc. cbn [sum_list]. rewrite Nat.add_assoc, IH. unfold field.
    rewrite <- drop_drop. apply take_drop.
Qed.

Lemma cut_concat lo sizes (pre rest : Data) ds :
  length pre = lo -> Forall2 (fun n (d : Data) => length d = n) sizes ds ->
  cut lo sizes (pre ++ concat ds ++ rest) = ds.
Proof.
  intros Hp Hf. revert lo pre Hp. induction Hf as [|n d sizes ds Hn Hf IH]; intros lo pre Hp; [done|].
  cbn [cut concat]. f_equal.
  - unfold field. rewrite drop_app_exact by done. rewrite <- app_assoc. by apply take_app_exact.
  - rewrite <- app_assoc, app_assoc. apply IH. rewrite length_app. lia.
Qed.

Lemma length_field lo n (buf : Data) : (lo + n <= length buf)%nat -> length (field lo n buf) = n.
Proof. intros. unfold field. rewrite length_take, length_drop. lia. Qed.

(** ** The words of a 256-bit integer *)
Lemma le_decode_encode_8 z : le_decode (le_encode 8 z) = z mod 2 ^ 64.
Proof. unfold le_decode, le_encode. rewrite rev_involutive, be_decode_encode. done. Qed.

Lemma le_encode_8_mod z : le_encode 8 (z mod 2 ^ 64) = le_encode 8 z.
Proof. unfold le_encode. change (2 ^ 64) with (256 ^ Z.of_nat 8). by rewrite be_encode_mod. Qed.

Lemma unmarshal_marshalBytes32LE z : 0 <= z < 2 ^ 256 -> unmarshalBytes32LE (marshalBytes32LE z) = z.
Proof.
  intros Hz. unfold unmarshalBytes32LE, marshalBytes32LE.
  rewrite take_app_exact by (by rewrite length_le_encode).
  rewrite (drop_app_exact (le_encode 8 z)) by (by rewrite length_le_encode).
  rewrite (take_app_exact (le_encode 8 (z / 2 ^ 64))) by (by rewrite length_le_encode).
  rewrite (app_assoc (le_encode 8 z)), (drop_app_exact (le_encode 8 z ++ _)) by (by rewrite length_app, !length_le_encode).
  rewrite (take_app_exact (le_encode 8 (z / 2 ^ 128))) by (by rewrite length_le_encode).
  rewrite (app_assoc (_ ++ _)), (drop_app_exact ((le_encode 8 z ++ _) ++ _))
    by (by rewrite !length_app, !length_le_encode).
  rewrite take_ge by (by rewrite length_le_encode). rewrite !le_decode_encode_8.
  change (2 ^ 128) with (2 ^ 64 * 2 ^ 64). change (2 ^ 192) with (2 ^ 64 * 2 ^ 64 * 2 ^ 64).
  rewrite <- !Z.div_div by lia.
  change (2 ^ 256) with (2 ^ 64 * 2 ^ 64 * 2 ^ 64 * 2 ^ 64) in Hz.
  set (B := 2 ^ 64) in *. assert (0 < B) as HB by done. clearbody B.
  pose proof (Z.div_mod z B ltac:(lia)). pose proof (Z.div_mod (z / B) B ltac:(lia)).
  pose proof (Z.div_mod (z / B / B) B ltac:(lia)).
  assert (0 <= z / B / B / B < B).
  { split; [repeat apply Z.div_pos; lia|]. repeat (apply Z.div_lt_upper_bound; [lia|]). nia. }
  rewrite (Z.mod_small (z / B / B / B)) by done. nia.
Qed.

Lemma marshal_unmarshalBytes32LE (b : Data) : length b = 32%nat -> marshalBytes32LE (unmarshalBytes32LE b) = b.
Proof.
  intros Hb. unfold unmarshalBytes32LE, marshalBytes32LE.
  assert (Hw : forall c : Data, length c = 8%nat -> 0 <= le_decode c < 2 ^ 64).
  { intros c Hc. pose proof (le_decode_range c) as Hr. by rewrite Hc in Hr. }
  set (c0 := take 8 b). set (c1 := take 8 (drop 8 b)). set (c2 := take 8 (drop 16 b)). set (c3 := take 8 (drop 24 b)).
  assert (length c0 = 8 /\ length c1 = 8 /\ length c2 = 8 /\ length c3 = 8)%nat as (L0 & L1 & L2 & L3)
    by (unfold c0, c1, c2, c3; rewrite !length_take, !length_drop; lia).
  pose proof (Hw c0 L0). pose proof (Hw c1 L1). pose proof (Hw c2 L2). pose proof (Hw c3 L3).
  change (2 ^ 128) with (2 ^ 64 * 2 ^ 64). change (2 ^ 192) with (2 ^ 64 * 2 ^ 64 * 2 ^ 64).
  rewrite <- !Z.div_div by lia.
  rewrite <- (le_encode_8_mod (_ + _)), <- (le_encode_8_mod ((_ + _) / 2 ^ 64)),
    <- (le_encode_8_mod ((_ + _) / 2 ^ 64 / 2 ^ 64)), <- (le_encode_8_mod ((_ + _) / 2 ^ 64 / 2 ^ 64 / 2 ^ 64)).
  set (B := 2 ^ 64) in *. assert (0 < B) as HB by done. clearbody B.
  replace (le_decode c0 + B * le_decode c1 + B * B * le_decode c2 + B * B * B * le_decode c3)
    with (le_decode c0 + (le_decode c1 + (le_decode c2 + le_decode c3 * B) * B) * B) by lia.
  assert (Hdm : forall a q, 0 <= a < B -> (a + q * B) / B = q /\ (a + q * B) mod B = a).
  { intros a q Ha. rewrite Z.div_add, Z.mod_add, Z.div_small, Z.mod_small by lia. lia. }
  rewrite (proj2 (Hdm (le_decode c0) _ ltac:(done))), (proj1 (Hdm (le_decode c0) _ ltac:(done))).
  rewrite (proj2 (Hdm (le_decode c1) _ ltac:(done))), (proj1 (Hdm (le_decode c1) _ ltac:(done))).
  rewrite (proj2 (Hdm (le_decode c2) _ ltac:(done))), (proj1 (Hdm (le_decode c2) _ ltac:(done))).
  rewrite (Z.mod_small (le_decode c3)) by done. rewrite !le_encode_decode by done.
  unfold c0, c1, c2, c3.
  pose proof (concat_cut 0 [8; 8; 8; 8]%nat b) as Hcut. rewrite drop_0, (drop_ge b) in Hcut by (cbn; lia).
  rewrite app_nil_r in Hcut. cbn in Hcut. rewrite app_nil_r in Hcut. exact Hcut.
Qed.

(** A payload whose fields are in the ranges of their types, and that the decoder accepts:
    at most 32 bytes of extra data and 2^20 transactions. *)
Record payload_wf (p : ExecutionPayload) : Prop := {
  wf_ParentHash : 0 <= ep_ParentHash p < 256 ^ 32;
  wf_FeeRecipient : 0 <= ep_FeeRecipient p < 256 ^ 20;
  wf_StateRoot : 0 <= ep_StateRoot p < 256 ^ 32;
  wf_ReceiptsRoot : 0 <= ep_ReceiptsRoot p < 256 ^ 32;
  wf_LogsBloom : length (ep_LogsBloom p) = 256%nat;
  wf_PrevRandao : 0 <= ep_PrevRandao p < 256 ^ 32;
  wf_BlockNumber : 0 <= ep_BlockNumber p < 256 ^ 8;
  wf_GasLimit : 0 <= ep_GasLimit p < 256 ^ 8;
  wf_GasUsed : 0 <= ep_GasUsed p < 256 ^ 8;
  wf_Timestamp : 0 <= ep_Timestamp p < 256 ^ 8;
  wf_BaseFeePerGas : 0 <= ep_BaseFeePerGas p < 2 ^ 256;
  wf_BlockHash : 0 <= ep_BlockHash p < 256 ^ 32;
  wf_ExtraData : (length (ep_ExtraData p) <= 32)%nat;
  wf_Transactions : Z.of_nat (length (ep_Transactions p)) <= maxTransactionsPerPayload }.

Lemma fixed_fields_sizes p :
  length (ep_LogsBloom p) = 256%nat -> Forall2 (fun n (d : Data) => length d = n) field_sizes (snd <$> fixed_fields p).
Proof. intros Hb. unfold field_sizes, fixed_fields. repeat constructor; cbn [snd]; by autorewrite with opstack. Qed.

(** The fields that the decoder finds in front of an encoding. *)
Lemma cut_fixed p (rest : Data) :
  length (ep_LogsBloom p) = 256%nat ->
  cut 0 field_sizes (concat (snd <$> fixed_fields p) ++ rest) = snd <$> fixed_fields p.
Proof. intros Hb. apply (cut_concat 0 _ []); [done|by apply fixed_fields_sizes]. Qed.

(** The fields that the decoder finds are encoded again as they were. *)
Lemma encode_decode_fixed (buf extra : Data) txs :
  (508 <= length buf)%nat -> le_decode (field 436 4 buf) = executionPayloadFixedPart ->
  le_decode (field 504 4 buf) = executionPayloadFixedPart + len32 extra ->
  (snd <$> fixed_fields (mkPayload (be_decode (field 0 32 buf)) (be_decode (field 32 20 buf)) (be_decode (field 52 32 buf))
            (be_decode (field 84 32 buf)) (field 116 256 buf) (be_decode (field 372 32 buf))
            (le_decode (field 404 8 buf)) (le_decode (field 412 8 buf)) (le_decode (field 420 8 buf))
            (le_decode (field 428 8 buf)) extra (unmarshalBytes32LE (field 440 32 buf))
            (be_decode (field 472 32 buf)) txs)) = cut 0 field_sizes buf.
Proof.
  intros Hl H1 H2.
  assert (E1 : le_encode 4 executionPayloadFixedPart = field 436 4 buf).
  { rewrite <- H1. apply le_encode_decode, length_field. lia. }
  assert (E2 : le_encode 4 (executionPayloadFixedPart + len32 extra) = field 504 4 buf).
  { rewrite <- H2. apply le_encode_decode, length_field. lia. }
  clear H1 H2. unfold fixed_fields. cbn [fmap list_fmap snd ep_ParentHash ep_FeeRecipient ep_StateRoot ep_ReceiptsRoot
    ep_LogsBloom ep_PrevRandao ep_BlockNumber ep_GasLimit ep_GasUsed ep_Timestamp ep_ExtraData ep_BaseFeePerGas ep_BlockHash].
  rewrite E1, E2.
  rewrite marshal_unmarshalBytes32LE by (apply length_field; lia).
  rewrite !be_encode_decode_len by (apply length_field; lia).
  rewrite !le_encode_decode by (apply length_field; lia). reflexivity.
Qed.

Lemma decoded_wf (buf extra : Data) txs :
  (508 <= length buf)%nat -> (length extra <= 32)%nat -> Z.of_nat (length txs) <= maxTransactionsPerPayload ->
  payload_wf (mkPayload (be_decode (field 0 32 buf)) (be_decode (field 32 20 buf)) (be_decode (field 52 32 buf))
            (be_decode (field 84 32 buf)) (field 116 256 buf) (be_decode (field 372 32 buf))
            (le_decode (field 404 8 buf)) (le_decode (field 412 8 buf)) (le_decode (field 420 8 buf))
            (le_decode (field 428 8 buf)) extra (unmarshalBytes32LE (field 440 32 buf))
            (be_decode (field 472 32 buf)) txs).
Proof.
  intros Hl He Ht.
  assert (Hb : forall lo n, (lo + n <= 508)%nat -> 0 <= be_decode (field lo n buf) < 256 ^ Z.of_nat n).
  { intros lo n Hn. pose proof (be_decode_range (field lo n buf)) as Hr. rewrite length_field in Hr by lia. done. }
  assert (Hle : forall lo n, (lo + n <= 508)%nat -> 0 <= le_decode (field lo n buf) < 256 ^ Z.of_nat n).
  { intros lo n Hn. pose proof (le_decode_range (field lo n buf)) as Hr. rewrite length_field in Hr by lia. done. }
  split; cbn [ep_ParentHash ep_FeeRecipient ep_StateRoot ep_ReceiptsRoot ep_LogsBloom ep_PrevRandao ep_BlockNumber
    ep_GasLimit ep_GasUsed ep_Timestamp ep_ExtraData ep_BaseFeePerGas ep_BlockHash ep_Transactions]; try done.
  1, 3, 4, 6: apply (Hb _ 32%nat); lia.
  1: apply (Hb _ 20%nat); lia.
  2-5: apply (Hle _ 8%nat); lia.
  1: apply length_field; lia.
  2: apply (Hb _ 32%nat); lia.
  unfold unmarshalBytes32LE. set (b := field 440 32 buf).
  assert (length b = 32%nat) as Lb by (apply length_field; lia).
  assert (Hw : forall n, 0 <= le_decode (take 8 (drop n b)) < 2 ^ 64).
  { intros n. pose proof (le_decode_range (take 8 (drop n b))) as Hr.
    assert (256 ^ Z.of_nat (length (take 8 (drop n b))) <= 2 ^ 64); [|lia].
    change (2 ^ 64) with (256 ^ 8). apply Z.pow_le_mono_r; [lia|]. rewrite length_take. lia. }
  pose proof (Hw 0%nat) as W0. rewrite drop_0 in W0.
  change (2 ^ 128) with (2 ^ 64 * 2 ^ 64). change (2 ^ 192) with (2 ^ 64 * 2 ^ 64 * 2 ^ 64).
  change (2 ^ 256) with (2 ^ 64 * 2 ^ 64 * 2 ^ 64 * 2 ^ 64).
  set (B := 2 ^ 64) in *. clearbody B.
  assert (Hh : forall a x m, 0 <= a < B -> 0 <= x < m -> 0 <= a + B * x < B * m) by (intros; nia).
  pose proof (Hh _ _ _ (Hw 16%nat) (Hw 24%nat)) as H2. pose proof (Hh _ _ _ (Hw 8%nat) H2) as H1.
  pose proof (Hh _ _ _ W0 H1). lia.
Qed.

Lemma unmarshal_body_sound (buf : Data) p :
  508 <= Z.of_nat (length buf) < 4294967296 -> unmarshal_body (Z.of_nat (length buf)) buf = Ok p ->
  payload_wf p /\ exists rest, buf = concat (snd <$> fixed_fields p) ++ ep_ExtraData p ++ rest /\
    unmarshalTransactions rest = Ok (ep_Transactions p).
Proof.
  intros Hl. unfold unmarshal_body.
  destruct (Z.eqb_spec (le_decode (field 436 4 buf)) executionPayloadFixedPart) as [E1|]; [|done]. cbn [negb].
  rewrite E1. set (toff := le_decode (field 504 4 buf)).
  destruct (Z.ltb_spec toff executionPayloadFixedPart); [done|].
  destruct ((u32 (executionPayloadFixedPart + 32) <? toff) || _) eqn:Hb; [done|].
  unfold executionPayloadFixedPart in *. rewrite u32_small in Hb by lia. zify_bools.
  rewrite !sub_intro by lia. change (Z.to_nat 508) with 508%nat.
  set (rest := take (Z.to_nat (Z.of_nat (length buf) - toff)) _). set (extra := take (Z.to_nat (toff - 508)) _).
  assert (Hrest : rest = drop (Z.to_nat toff) buf) by (apply take_ge; rewrite length_drop; lia). clearbody rest. subst rest.
  assert (Hextra : length extra = Z.to_nat (toff - 508)) by (unfold extra; rewrite length_take, length_drop; lia).
  destruct (unmarshalTransactions (drop (Z.to_nat toff) buf)) as [txs|e|] eqn:Ht; [|done..]. cbn [map_err].
  intros [= <-]. split.
  - apply decoded_wf; [lia|lia|]. apply unmarshalTransactions_iff in Ht as [[_ ?]|(-> & _)]; [done|done|].
    rewrite length_drop. lia.
  - cbn [ep_ExtraData ep_Transactions]. exists (drop (Z.to_nat toff) buf). split; [|done].
    rewrite encode_decode_fixed; [|lia|done|].
    + rewrite <- (drop_0 buf) at 1. rewrite <- (concat_cut 0 field_sizes buf). f_equal.
      change (0 + sum_list field_sizes)%nat with 508%nat. unfold extra.
      replace (Z.to_nat toff) with (508 + Z.to_nat (toff - 508))%nat by lia. rewrite <- drop_drop.
      by rewrite take_drop.
    + fold toff. unfold executionPayloadFixedPart. rewrite len32_small by lia. lia.
Qed.

Lemma unmarshal_body_complete (rest : Data) p :
  payload_wf p -> unmarshalTransactions rest = Ok (ep_Transactions p) ->
  let buf := concat (snd <$> fixed_fields p) ++ ep_ExtraData p ++ rest in
  Z.of_nat (length buf) < 4294967296 ->
  unmarshal_body (Z.of_nat (length buf)) buf = Ok p.
Proof.
  intros [] Ht buf Hl. pose proof (cut_fixed p (ep_ExtraData p ++ rest) wf_LogsBloom0) as Hcut. fold buf in Hcut.
  pose proof (length_fixed p wf_LogsBloom0) as Hfix.
  assert (Hlen : length buf = (508 + length (ep_ExtraData p) + length rest)%nat) by (unfold buf; rewrite !length_app; lia).
  assert (C : forall i, nth i (cut 0 field_sizes buf) [] = nth i (snd <$> fixed_fields p) []) by (by rewrite <- Hcut).
  pose proof (C 0%nat) as C0. pose proof (C 1%nat) as C1. pose proof (C 2%nat) as C2. pose proof (C 3%nat) as C3.
  pose proof (C 4%nat) as C4. pose proof (C 5%nat) as C5. pose proof (C 6%nat) as C6. pose proof (C 7%nat) as C7.
  pose proof (C 8%nat) as C8. pose proof (C 9%nat) as C9. pose proof (C 10%nat) as C10. pose proof (C 11%nat) as C11.
  pose proof (C 12%nat) as C12. pose proof (C 13%nat) as C13. clear C Hcut.
  cbn [nth cut field_sizes fixed_fields fmap list_fmap snd Nat.add] in C0, C1, C2, C3, C4, C5, C6, C7, C8, C9, C10, C11, C12, C13.
  rewrite len32_small in C13 by lia. unfold executionPayloadFixedPart in *.
  unfold unmarshal_body. rewrite C0, C1, C2, C3, C4, C5, C6, C7, C8, C9, C10, C11, C12, C13.
  rewrite (le_decode_encode 4 508) by done. rewrite (le_decode_encode 4 (508 + _)) by (cbn; lia).
  unfold executionPayloadFixedPart. rewrite Z.eqb_refl. cbn [negb].
  destruct (Z.ltb_spec (508 + Z.of_nat (length (ep_ExtraData p))) 508); [lia|].
  rewrite u32_small by lia.
  destruct (Z.ltb_spec (508 + 32) (508 + Z.of_nat (length (ep_ExtraData p)))); [lia|].
  destruct (Z.ltb_spec (Z.of_nat (length buf)) (508 + Z.of_nat (length (ep_ExtraData p)))); [lia|]. cbn [orb].
  unfold buf at 1. rewrite (sub_app _ (ep_ExtraData p)) by lia.
  replace buf with ((concat (snd <$> fixed_fields p) ++ ep_ExtraData p) ++ rest ++ [])
    by (by rewrite app_nil_r, <- app_assoc).
  rewrite sub_app by (rewrite ?length_app; cbn [length]; lia). rewrite Ht. cbn [map_err].
  rewrite !be_decode_encode_small by (cbn; lia). rewrite !le_decode_encode by (cbn; lia).
  rewrite unmarshal_marshalBytes32LE by done. by destruct p.
Qed.

Lemma ssz_encoding_no_txs p :
  ep_Transactions p = [] -> ssz_encoding p = concat (snd <$> fixed_fields p) ++ ep_ExtraData p.
Proof. intros Hno. unfold ssz_encoding. rewrite Hno. unfold ssz_transactions. by rewrite !app_nil_r. Qed.

(** ** Properties *)

(** The encoder computes the reference encoding, whatever the buffer of the pool holds.
    For a payload of fewer than 2^32 bytes, every byte handed to the writer was written by
    this call: the bytes of an earlier payload never leak into the message. *)
Theorem MarshalSSZ_equals_reference pooled p :
  length (ep_LogsBloom p) = 256%nat -> total_size p < 4294967296 -> Z.of_nat (length pooled) < 4294967296 ->
  MarshalSSZ pooled p = Ok (ssz_encoding p).
Proof. apply MarshalSSZ_encoding. Qed.

Lemma UnmarshalSSZ_accepts (message : Data) p :
  Z.of_nat (length message) < 4294967296 ->
  (UnmarshalSSZ (Z.of_nat (length message)) message).1 = Ok p <->
  payload_wf p /\
  (message = ssz_encoding p \/
   ep_Transactions p = [] /\ exists more, message = ssz_encoding p ++ le_encode 4 0 ++ more).
Proof.
  intros Hl. unfold UnmarshalSSZ. destruct (Z.ltb_spec (Z.of_nat (length message)) executionPayloadFixedPart) as [Hs|Hs].
  { split; [done|]. intros [Hwf Hm]. exfalso. pose proof (length_fixed p (wf_LogsBloom p Hwf)).
    unfold executionPayloadFixedPart, ssz_encoding in *.
    destruct Hm as [->|(_ & more & ->)]; rewrite !length_app in Hs; lia. }
  rewrite Nat2Z.id. unfold bind, wrapE.
  assert (Hread : ReadFull (length message) message = (Ok message, [])).
  { rewrite <- (app_nil_r message) at 2. by apply ReadFull_app. }
  rewrite Hread. cbn [map_err lift fst].
  unfold executionPayloadFixedPart in Hs. split.
  - intros [Hwf (rest & Hm & Ht)]%unmarshal_body_sound; [|lia]. split; [done|].
    apply unmarshalTransactions_iff in Ht as [[-> _]|(Hno & H4 & Hz)].
    + by left.
    + right. split; [done|]. exists (drop 4 rest).
      rewrite Hm, (ssz_encoding_no_txs p Hno), <- app_assoc, <- Hz. by rewrite take_drop.
    + rewrite Hm, !length_app in Hl. lia.
  - intros [Hwf Hm].
    assert (exists rest, message = concat (snd <$> fixed_fields p) ++ ep_ExtraData p ++ rest /\
      unmarshalTransactions rest = Ok (ep_Transactions p)) as (rest & -> & Ht).
    { destruct Hm as [Hm|(Hno & more & Hm)].
      - eexists. split; [exact Hm|]. apply unmarshalTransactions_iff; [|left; split; [done|apply Hwf]].
        rewrite Hm in Hl. unfold ssz_encoding in Hl. rewrite !length_app in Hl. lia.
      - exists (le_encode 4 0 ++ more). split.
        + by rewrite Hm, (ssz_encoding_no_txs p Hno), <- app_assoc.
        + rewrite Hno. apply unmarshalTransactions_iff.
          * rewrite Hm, !length_app in Hl. rewrite length_app. lia.
          * right. split_and!; [done|rewrite length_app, length_le_encode; lia|].
            apply take_app_exact. by rewrite length_le_encode. }
    by apply unmarshal_body_complete.
Qed.

(** C40: what the decoder accepts.  It reads a payload from a message of fewer than 2^32
    bytes if and only if the fields are in range and the message is the encoding of the
    payload, or the payload has no transactions and the message is its encoding followed by
    any bytes that start with four zeros: these are the only messages besides the encodings
    that it accepts. *)
Theorem UnmarshalSSZ_iff (message : Data) p :
  Z.of_nat (length message) < 4294967296 ->
  (UnmarshalSSZ (Z.of_nat (length message)) message).1 = Ok p <->
  payload_wf p /\
  (message = ssz_encoding p \/
   ep_Transactions p = [] /\ exists more, message = ssz_encoding p ++ le_encode 4 0 ++ more).
Proof. apply UnmarshalSSZ_accepts. Qed.

Lemma unmarshal_loop_no_panic left (input : Data) (offset : nat) current :
  Z.of_nat (length input) < 4294967296 -> (offset + 4 * left <= length input)%nat ->
  0 <= current <= Z.of_nat (length input) ->
  unmarshal_loop (S left) input (Z.of_nat offset) current <> Panic.
Proof.
  intros Hl. revert offset current. induction left as [|left IH]; intros offset current Ho Hc.
  - cbn [unmarshal_loop Nat.ltb Nat.leb]. rewrite len32_small by lia. destruct (_ || _); [done|].
    by rewrite sub_intro by lia.
  - rewrite unmarshal_loop_S by lia. cbv zeta. set (next := le_decode _).
    destruct ((next <? current) || _) eqn:Hb; [done|]. zify_bools. rewrite sub_intro by lia.
    specialize (IH (offset + 4)%nat next ltac:(lia) ltac:(lia)).
    by destruct (unmarshal_loop (S left) input (Z.of_nat (offset + 4)) next).
Qed.

Lemma unmarshalTransactions_no_panic (input : Data) :
  Z.of_nat (length input) < 4294967296 -> unmarshalTransactions input <> Panic.
Proof.
  intros Hl. unfold unmarshalTransactions. rewrite len32_small by done.
  destruct (Z.eqb_spec (Z.of_nat (length input)) 0); [done|].
  destruct (Z.ltb_spec (Z.of_nat (length input)) 4); [done|]. rewrite sub_intro by lia.
  set (first := le_decode _). destruct (Z.eqb_spec (first mod 4) 0); [|done]. cbn [negb].
  destruct (Z.ltb_spec (Z.of_nat (length input)) first); [done|].
  destruct (Z.ltb_spec maxTransactionsPerPayload (first / 4)); [done|].
  assert (Hf : 0 <= first).
  { unfold first. match goal with |- 0 <= le_decode ?b => pose proof (le_decode_range b) end. lia. }
  assert (Hq : first = 4 * (first / 4)) by (apply Z.div_exact; lia).
  destruct (Z.to_nat (first / 4)) as [|k] eqn:Hk; [done|]. change 4 with (Z.of_nat 4) at 1.
  apply unmarshal_loop_no_panic; lia.
Qed.

Lemma UnmarshalSSZ_never_panics scope (r : Data) :
  0 <= scope < 4294967296 -> (UnmarshalSSZ scope r).1 <> Panic.
Proof.
  intros Hs. unfold UnmarshalSSZ. destruct (Z.ltb_spec scope executionPayloadFixedPart) as [|Hf]; [done|].
  unfold bind, wrapE. destruct (ReadFull (Z.to_nat scope) r) as [[buf|e|] r'] eqn:Hr; [|done|].
  2:{ by pose proof (ReadFull_no_panic (Z.to_nat scope) r); rewrite Hr in *. }
  apply ReadFull_Ok in Hr as [Hlen _]. cbn [map_err lift fst].
  unfold executionPayloadFixedPart in *. unfold unmarshal_body.
  destruct (Z.eqb_spec (le_decode (field 436 4 buf)) executionPayloadFixedPart) as [->|]; [|done]. cbn [negb].
  set (toff := le_decode (field 504 4 buf)). unfold executionPayloadFixedPart.
  destruct (Z.ltb_spec toff 508); [done|].
  destruct ((u32 (508 + 32) <? toff) || _) eqn:Hb; [done|]. zify_bools.
  rewrite !sub_intro by lia. match goal with |- context [unmarshalTransactions ?d] =>
    pose proof (unmarshalTransactions_no_panic d) as Hn; destruct (unmarshalTransactions d) end; [done..|].
  exfalso. apply Hn; [|done]. rewrite length_take, length_drop. lia.
Qed.

(** The decoder never panics.  Whatever bytes a peer sends, and however many it sends
    less or more than announced, decoding returns a payload or an error: no offset in the
    message makes it read outside the message. *)
Theorem UnmarshalSSZ_no_panic scope (r : Data) :
  0 <= scope < 4294967296 -> (UnmarshalSSZ scope r).1 <> Panic.
Proof. apply UnmarshalSSZ_never_panics. Qed.

(** Encoding and decoding are inverse.  A payload in the ranges of its types, with at
    most 32 bytes of extra data and 2^20 transactions and fewer than 2^32 bytes in all, is
    read back from its encoding, whatever buffers are used. *)
Theorem payload_roundtrip pooled p :
  payload_wf p -> total_size p < 4294967296 -> Z.of_nat (length pooled) < 4294967296 ->
  exists message, MarshalSSZ pooled p = Ok message /\
    (UnmarshalSSZ (Z.of_nat (length message)) message).1 = Ok p.
Proof.
  intros Hwf Hs Hp. exists (ssz_encoding p). pose proof (wf_LogsBloom _ Hwf) as Hb.
  split; [by apply MarshalSSZ_encoding|]. apply UnmarshalSSZ_accepts.
  - by rewrite length_ssz_encoding.
  - split; [done|by left].
Qed.

(** ** A small payload *)
Module SszExamples.
Definition toy_payload : ExecutionPayload :=
  mkPayload 1 2 3 4 (repeat Byte.x01 256) 5 6 7 8 9 [Byte.x0a] 11 12 [[Byte.x7e; Byte.x01]; []; [Byte.x02]].
Definition toy_empty : ExecutionPayload :=
  mkPayload 1 2 3 4 (repeat Byte.x01 256) 5 6 7 8 9 [Byte.x0a] 11 12 [].

Lemma toy_payload_wf : payload_wf toy_payload.
Proof. split; first [reflexivity | vm_compute; split; congruence | vm_compute; congruence | cbn; lia]. Qed.

Lemma toy_empty_wf : payload_wf toy_empty.
Proof. split; first [reflexivity | vm_compute; split; congruence | vm_compute; congruence | cbn; lia]. Qed.

Lemma MarshalSSZ_equals_reference_witness :
  MarshalSSZ (repeat Byte.xff 600) toy_payload = Ok (ssz_encoding toy_payload) /\
  MarshalSSZ [] toy_payload = Ok (ssz_encoding toy_payload).
Proof.
  split; apply MarshalSSZ_equals_reference; vm_compute; reflexivity.
Defined.

Lemma UnmarshalSSZ_iff_witness :
  let message := ssz_encoding toy_empty ++ le_encode 4 0 ++ [Byte.xff] in
  (UnmarshalSSZ (Z.of_nat (length message)) message).1 = Ok toy_empty.
Proof.
  intros message. apply UnmarshalSSZ_iff; [vm_compute; reflexivity|].
  split; [apply toy_empty_wf|]. right. split; [reflexivity|]. by exists [Byte.xff].
Defined.

Lemma UnmarshalSSZ_no_panic_witness : (UnmarshalSSZ 600 (repeat Byte.xff 700)).1 <> Panic.
Proof. apply UnmarshalSSZ_no_panic. lia. Defined.

Lemma payload_roundtrip_witness :
  exists message, MarshalSSZ (repeat Byte.xff 600) toy_payload = Ok message /\
    (UnmarshalSSZ (Z.of_nat (length message)) message).1 = Ok toy_payload.
Proof. apply payload_roundtrip; [apply toy_payload_wf|vm_compute; reflexivity..]. Defined.
End SszExamples.
