(* ===== verification/Commitments.v ===== *)
(** * Sequencer commitments

    [op-node/node/pepc.go] and the two gates of [op-node/node/node.go] that use it: a
    payload is handed to the driver, or published, only when the screening contract on
    L1 says that it satisfies the commitments of the sequencer.  With the sequencer
    address of [op-node/node/runtime_config.go]. *)
From S2P Require Import Prelude GoErrors GoBytes EthTypes.
#[local] Open Scope Z_scope.

(** ** The screened bytes *)

(** [encodeTransactions]: the transactions one after the other. *)
Definition encodeTransactions (txs : list Data) : Data :=
  foldl (fun res v => res ++ v) [] txs.

(** The tuple [encodePayload] packs; its field types are those of the ABI tuple. *)
Record packed_payload := mkPacked {
  pk_ParentHash : Hash;
  pk_FeeRecipient : Address;
  pk_StateRoot : Hash;
  pk_ReceiptsRoot : Hash;
  pk_LogsBloom : Data;
  pk_PrevRandao : Hash;
  pk_BlockNumber : Z;
  pk_GasLimit : Z;
  pk_GasUsed : Z;
  pk_Timestamp : Z;
  pk_ExtraData : Data;
  pk_BaseFeePerGas : Z;
  pk_BlockHash : Hash;
  pk_Transactions : Data }.

(** The ABI encoder and the hexadecimal encoder of go-ethereum, and its
    [common.Hex2BytesFixed]. *)
Class CommitmentCodec := {
  abi_Pack : packed_payload -> result Data;
  hexutil_Encode : Data -> string;
  Hex2BytesFixed : string -> nat -> Data }.

(** The bytes of a Go string. *)
Definition bytes_of_string (s : string) : Data := String.list_byte_of_string s.

Section Encoding.
Context `{CommitmentCodec}.

(** [Bytes256.String]. *)
Definition Bytes256_String (b : Data) : string := hexutil_Encode b.

(** The struct literal of [encodePayload]. *)
Definition to_packed (payload : ExecutionPayload) : packed_payload :=
  mkPacked (ep_ParentHash payload) (ep_FeeRecipient payload) (ep_StateRoot payload)
    (ep_ReceiptsRoot payload) (bytes_of_string (Bytes256_String (ep_LogsBloom payload)))
    (ep_PrevRandao payload) (ep_BlockNumber payload) (ep_GasLimit payload) (ep_GasUsed payload)
    (ep_Timestamp payload) (ep_ExtraData payload) (ep_BaseFeePerGas payload)
    (ep_BlockHash payload) (encodeTransactions (ep_Transactions payload)).

(** [OpNode.encodePayload]. *)
Definition encodePayload (payload : ExecutionPayload) : result Data := abi_Pack (to_packed payload).

(** [OpNode.target]; the copy into an array of 32 bytes. *)
Definition target : Data :=
  take 32 (Hex2BytesFixed "0x0000000000000000000000000000000000000000000000000000000000000001" 32
           ++ replicate 32 Byte.x00).
End Encoding.

(** ** The node *)

(** The screening contract on L1: binding to the contract at an address, and its view
    function [Screen]. *)
Class Screener (C : Type) := {
  NewSystemConfig : Address -> M C unit;
  Screen : Address -> Data -> Data -> M C bool }.

(** What the gates pass payloads on to: the driver and the gossip network. *)
Class PayloadSink (D : Type) := { sink_payload : ExecutionPayload -> M D unit }.

(** [RuntimeCfgL1Source]. *)
Class RuntimeCfgL1Source (R : Type) := { ReadStorageAt : Address -> Hash -> Hash -> M R Hash }.

(** [UnsafeBlockSignerAddressSystemConfigStorageSlot]. *)
Definition UnsafeBlockSignerAddressSystemConfigStorageSlot : Hash :=
  0x65a7ed542fb37fe237fdfbdd70b31598523fe5b32879e307bae27a0bd9581c08.

Section Node.
Context {C D G R : Type} `{Screener C} `{PayloadSink D} `{PayloadSink G} `{RuntimeCfgL1Source R}.
Context `{CommitmentCodec}.
Context (rollupCfg : Config).

(** The part of [OpNode] the gates use: the contract, the driver, the network with the
    peer ID of the node (if there is one), whether there is a signer, and the runtime
    configuration with its L1 source. *)
Record OpNode := mkOpNode {
  n_contract : C;
  n_l2Driver : D;
  n_gossip : G;
  n_p2pNode : option Z;
  n_p2pSigner : bool;
  n_l1Client : R;
  n_l1Ref : L1BlockRef;
  n_p2pBlockSignerAddr : Address }.

Definition on_contract {A} (m : M C A) : M OpNode A :=
  zoom n_contract (fun c n => mkOpNode c (n_l2Driver n) (n_gossip n) (n_p2pNode n) (n_p2pSigner n)
                                (n_l1Client n) (n_l1Ref n) (n_p2pBlockSignerAddr n)) m.
Definition on_driver {A} (m : M D A) : M OpNode A :=
  zoom n_l2Driver (fun d n => mkOpNode (n_contract n) d (n_gossip n) (n_p2pNode n) (n_p2pSigner n)
                                (n_l1Client n) (n_l1Ref n) (n_p2pBlockSignerAddr n)) m.
Definition on_gossip {A} (m : M G A) : M OpNode A :=
  zoom n_gossip (fun g n => mkOpNode (n_contract n) (n_l2Driver n) g (n_p2pNode n) (n_p2pSigner n)
                              (n_l1Client n) (n_l1Ref n) (n_p2pBlockSignerAddr n)) m.

(** [RuntimeConfig.P2PSequencerAddress]. *)
Definition P2PSequencerAddress (n : OpNode) : Address := n_p2pBlockSignerAddr n.

(** [RuntimeConfig.Load]: the address is the low 20 bytes of the storage slot. *)
Definition Load (l1Ref : L1BlockRef) : M OpNode unit := fun n =>
  match ReadStorageAt (L1SystemConfigAddress rollupCfg) UnsafeBlockSignerAddressSystemConfigStorageSlot
          (l1_Hash l1Ref) (n_l1Client n) with
  | (Ok val, r) =>
      (Ok tt, mkOpNode (n_contract n) (n_l2Driver n) (n_gossip n) (n_p2pNode n) (n_p2pSigner n)
                r l1Ref (val mod 2 ^ 160))
  | (Err err, r) =>
      (Err (ErrWrap "failed to fetch unsafe block signing address from system config" err),
       mkOpNode (n_contract n) (n_l2Driver n) (n_gossip n) (n_p2pNode n) (n_p2pSigner n)
         r (n_l1Ref n) (n_p2pBlockSignerAddr n))
  | (Panic, r) =>
      (Panic, mkOpNode (n_contract n) (n_l2Driver n) (n_gossip n) (n_p2pNode n) (n_p2pSigner n)
                r (n_l1Ref n) (n_p2pBlockSignerAddr n))
  end.

(** [OpNode.validateCommitments]. *)
Definition validateCommitments (payload : ExecutionPayload) : M OpNode unit :=
  on_contract (NewSystemConfig (L1SystemConfigAddress rollupCfg)) ;;;
  payloadBytes <- lift (encodePayload payload) ;;
  n <- get ;;
  satisfied <- on_contract (Screen (P2PSequencerAddress n) target payloadBytes) ;;
  if negb satisfied then throw (ErrNew "Failed_Screening") else ret tt.

(** [OpNode.PublishL2Payload]. *)
Definition PublishL2Payload (payload : ExecutionPayload) : M OpNode unit :=
  validateCommitments payload ;;;
  n <- get ;;
  match n_p2pNode n with
  | Some _ =>
      if negb (n_p2pSigner n) then throw (ErrNew "node has no p2p signer, payload cannot be published")
      else on_gossip (sink_payload payload)
  | None => ret tt
  end.

(** [OpNode.OnUnsafeL2Payload]. *)
Definition OnUnsafeL2Payload (from : Z) (payload : ExecutionPayload) : M OpNode unit :=
  n <- get ;;
  if bool_decide (n_p2pNode n = Some from) then ret tt
  else
    validateCommitments payload ;;;
    attempt (on_driver (sink_payload payload)) ;;;
    ret tt.
End Node.
Arguments OpNode : clear implicits.

(** ** What the libraries promise *)

(** [encoding/hex]: the value of a digit, and [hex.DecodeString] up to the first
    malformed pair. *)
Definition fromHexChar (c : Ascii.ascii) : option Z :=
  let n := Z.of_N (Ascii.N_of_ascii c) in
  if (48 <=? n) && (n <=? 57) then Some (n - 48)
  else if (97 <=? n) && (n <=? 102) then Some (n - 87)
  else if (65 <=? n) && (n <=? 70) then Some (n - 55)
  else None.

Fixpoint hex_DecodeString (s : string) : Data :=
  match s with
  | String a (String b s') =>
      match fromHexChar a, fromHexChar b with
      | Some x, Some y => byte_of_Z (16 * x + y) :: hex_DecodeString s'
      | _, _ => []
      end
  | _ => []
  end.

(** The ABI encoding of a tuple can be decoded, the hexadecimal encoding too, and
    [Hex2BytesFixed] decodes with [encoding/hex], ignores the error, and aligns the
    bytes to the right. *)
Class LawfulCommitmentCodec `{CommitmentCodec} := {
  pack_inj p p' b : abi_Pack p = Ok b -> abi_Pack p' = Ok b -> p = p';
  hex_inj b b' : hexutil_Encode b = hexutil_Encode b' -> b = b';
  hex_fixed s n : Hex2BytesFixed s n =
    (let h := hex_DecodeString s in replicate (n - length h) Byte.x00 ++ drop (length h - n) h) }.

(** ** Properties *)
Section Properties.
Context {C D G R : Type} `{Screener C} `{PayloadSink D} `{PayloadSink G} `{RuntimeCfgL1Source R}.
Context `{CommitmentCodec}.
Context (rollupCfg : Config).
Implicit Types n : OpNode C D G R.

Definition set_contract (c : C) n : OpNode C D G R :=
  mkOpNode c (n_l2Driver n) (n_gossip n) (n_p2pNode n) (n_p2pSigner n) (n_l1Client n) (n_l1Ref n)
    (n_p2pBlockSignerAddr n).

(** The screening of a payload: the contract could be bound, the payload was encoded,
    and the contract answered that the commitments of the current sequencer hold. *)
Definition screened (payload : ExecutionPayload) n (c' : C) : Prop :=
  exists c1 payloadBytes,
    NewSystemConfig (L1SystemConfigAddress rollupCfg) (n_contract n) = (Ok tt, c1) /\
    encodePayload payload = Ok payloadBytes /\
    Screen (P2PSequencerAddress n) target payloadBytes c1 = (Ok true, c').

Lemma validate_Ok payload n u n' :
  validateCommitments rollupCfg payload n = (Ok u, n') <->
  exists c', screened payload n c' /\ n' = set_contract c' n.
Proof.
  unfold validateCommitments, screened, on_contract, bind, lift, get, zoom, throw, ret. destruct u. split.
  - destruct (NewSystemConfig _ _) as [[[]|e|] c1]; [|done..].
    destruct (encodePayload payload) as [b|e|]; [|done..]. cbn [n_contract].
    destruct (Screen _ _ _ _) as [[[]|e|] c2] eqn:Es; cbn [negb]; [|done..].
    intros [= <-]. exists c2. split; [|done]. by exists c1, b.
  - intros (c' & (c1 & b & -> & -> & Hs) & ->). cbn. unfold P2PSequencerAddress in *. cbn.
    by rewrite Hs.
Qed.

Lemma validate_keeps payload n r n' :
  validateCommitments rollupCfg payload n = (r, n') -> exists c', n' = set_contract c' n.
Proof.
  unfold validateCommitments. intros Hx.
  assert (forall A (m : M C A), preserves (fun n n' => exists c', n' = set_contract c' n) (on_contract m)) as Hz.
  { intros A m s x s'. unfold on_contract, zoom. destruct (m _). intros [= _ <-]. by eexists. }
  assert (PreOrder (fun n n' => exists c', n' = set_contract c' n)).
  { split; [intros []; by eexists|]. intros a b c (c1 & ->) (c2 & ->). by exists c2. }
  revert Hx. revert n r n'.
  match goal with |- forall a b c, ?m a = (b, c) -> _ => change (preserves (fun n n' => exists c', n' = set_contract c' n) m) end.
  go_code.
Qed.

Lemma received_payload_gated from payload n r n' :
  OnUnsafeL2Payload rollupCfg from payload n = (r, n') ->
  n_gossip n' = n_gossip n /\ n_p2pBlockSignerAddr n' = n_p2pBlockSignerAddr n /\
  ((n_p2pNode n = Some from /\ r = Ok tt /\ n' = n) \/
   (n_p2pNode n <> Some from /\ (forall c', ~ screened payload n c') /\ is_ok r = false /\
    n_l2Driver n' = n_l2Driver n) \/
   (n_p2pNode n <> Some from /\ screened payload n (n_contract n') /\
    n_l2Driver n' = (sink_payload payload (n_l2Driver n)).2 /\
    r = match (sink_payload payload (n_l2Driver n)).1 with Panic => Panic | _ => Ok tt end)).
Proof.
  unfold OnUnsafeL2Payload, bind at 1, get. case_bool_decide as Hs.
  { intros [= <- <-]. split_and!; [done..|]. by left. }
  intros [([] & n1 & Hv & Hx)|[(e & Hv & ->)|[Hv ->]]]%bind_cases.
  - apply validate_Ok in Hv as (c' & Hc & ->).
    unfold bind, attempt, on_driver, zoom in Hx. cbn [n_l2Driver set_contract] in Hx.
    destruct (sink_payload payload (n_l2Driver n)) as [[u|e|] d]; injection Hx as <- <-;
      (split_and!; [done..|]; right; right; by split_and!).
  - pose proof (validate_keeps _ _ _ _ Hv) as (c' & ->). split_and!; [done..|]. right; left.
    split_and!; [done| |done..]. intros c2 Hc.
    assert (validateCommitments rollupCfg payload n = (Ok tt, set_contract c2 n)) as Hv'
      by (apply validate_Ok; eauto). by rewrite Hv in Hv'.
  - pose proof (validate_keeps _ _ _ _ Hv) as (c' & ->). split_and!; [done..|]. right; left.
    split_and!; [done| |done..]. intros c2 Hc.
    assert (validateCommitments rollupCfg payload n = (Ok tt, set_contract c2 n)) as Hv'
      by (apply validate_Ok; eauto). by rewrite Hv in Hv'.
Qed.

(** C1: commitments gate the payloads of the network.  A payload received from a peer
    reaches the driver exactly when it is not the node's own and the screening contract
    answered, for the current sequencer address, the target and the encoded payload,
    that the commitments are satisfied; otherwise the driver is untouched.  Nothing is
    published, and an error of the driver is not reported. *)
Theorem OnUnsafeL2Payload_gated from payload n r n' :
  OnUnsafeL2Payload rollupCfg from payload n = (r, n') ->
  n_gossip n' = n_gossip n /\ n_p2pBlockSignerAddr n' = n_p2pBlockSignerAddr n /\
  ((n_p2pNode n = Some from /\ r = Ok tt /\ n' = n) \/
   (n_p2pNode n <> Some from /\ (forall c', ~ screened payload n c') /\ is_ok r = false /\
    n_l2Driver n' = n_l2Driver n) \/
   (n_p2pNode n <> Some from /\ screened payload n (n_contract n') /\
    n_l2Driver n' = (sink_payload payload (n_l2Driver n)).2 /\
    r = match (sink_payload payload (n_l2Driver n)).1 with Panic => Panic | _ => Ok tt end)).
Proof. apply received_payload_gated. Qed.

(** Commitments gate what the node publishes.  The gossip network is handed a
    payload only if its screening succeeded and the node has a signer; the driver is
    never involved. *)
Theorem PublishL2Payload_gated payload n r n' :
  PublishL2Payload rollupCfg payload n = (r, n') ->
  n_l2Driver n' = n_l2Driver n /\
  (n_gossip n' = n_gossip n \/
   (screened payload n (n_contract n') /\ n_p2pSigner n = true /\ is_Some (n_p2pNode n) /\
    (r, n_gossip n') = sink_payload payload (n_gossip n))).
Proof.
  intros [([] & n1 & Hv & Hx)|[(e & Hv & ->)|[Hv ->]]]%bind_cases.
  2,3: apply validate_keeps in Hv as (c' & ->); by split; [|left].
  apply validate_Ok in Hv as (c' & Hc & ->). unfold bind, get in Hx. cbn in Hx.
  destruct (n_p2pNode n) as [id|] eqn:Ep; [|injection Hx as <- <-; by split; [|left]].
  destruct (n_p2pSigner n) eqn:Esg; cbn in Hx; [|injection Hx as <- <-; by split; [|left]].
  unfold on_gossip, zoom in Hx. cbn in Hx.
  destruct (sink_payload payload (n_gossip n)) as [rg g]. injection Hx as <- <-.
  split; [done|]. right. by split_and!.
Qed.

(** A payload with other transactions. *)
Definition set_Transactions (txs : list Data) (p : ExecutionPayload) : ExecutionPayload :=
  mkPayload (ep_ParentHash p) (ep_FeeRecipient p) (ep_StateRoot p) (ep_ReceiptsRoot p) (ep_LogsBloom p)
    (ep_PrevRandao p) (ep_BlockNumber p) (ep_GasLimit p) (ep_GasUsed p) (ep_Timestamp p)
    (ep_ExtraData p) (ep_BaseFeePerGas p) (ep_BlockHash p) txs.

Lemma encodeTransactions_concat txs : encodeTransactions txs = concat txs.
Proof.
  unfold encodeTransactions. rewrite <- (app_nil_l (concat txs)). generalize (@nil byte).
  induction txs as [|tx txs IH]; intros acc; cbn [foldl concat]; [by rewrite app_nil_r|].
  by rewrite IH, app_assoc.
Qed.

(** What the contract can and cannot tell apart.  Two payloads have the same encoding
    exactly when they agree on every field but the transactions, and the transactions
    agree after concatenation: the contract sees every other field faithfully, but not
    where one transaction ends and the next begins, nor how many there are. *)
Theorem encodePayload_same_iff `{!LawfulCommitmentCodec} p p' b :
  encodePayload p = Ok b ->
  (encodePayload p' = Ok b <->
   p' = set_Transactions (ep_Transactions p') p /\ concat (ep_Transactions p') = concat (ep_Transactions p)).
Proof.
  unfold encodePayload. intros Hp. split.
  - intros Hp'. pose proof (pack_inj _ _ _ Hp Hp') as Heq. destruct p, p'.
    injection Heq as -> -> -> -> Hbloom -> -> -> -> -> -> -> -> Htx.
    rewrite !encodeTransactions_concat in Htx. split; [|done].
    apply (f_equal String.string_of_list_byte) in Hbloom. unfold bytes_of_string in Hbloom.
    rewrite !String.string_of_list_byte_of_string in Hbloom. apply hex_inj in Hbloom.
    cbn in Hbloom |- *. by subst.
  - intros [-> Htx]. rewrite <- Hp. unfold to_packed. cbn in *.
    by rewrite !encodeTransactions_concat, Htx.
Qed.

(** The screening target is zero.  The literal of [target] spells the number one, but
    starts with [0x], which is not hexadecimal: the decoder stops at once, and the
    contract is always called with the target of 32 zero bytes. *)
Theorem target_is_zero `{!LawfulCommitmentCodec} :
  target = replicate 32 Byte.x00 /\ target <> be_encode 32 1.
Proof.
  assert (target = replicate 32 Byte.x00) as ->; [|by split].
  unfold target. rewrite hex_fixed. reflexivity.
Qed.

(** Loading the runtime configuration either takes the low 20 bytes of the unsafe block
    signer slot at the L1 block, or fails and keeps the previous address and block. *)
Lemma Load_sets_sequencer l1Ref n r n' :
  Load rollupCfg l1Ref n = (r, n') ->
  match r with
  | Ok _ => exists val e',
      ReadStorageAt (L1SystemConfigAddress rollupCfg) UnsafeBlockSignerAddressSystemConfigStorageSlot
        (l1_Hash l1Ref) (n_l1Client n) = (Ok val, e') /\
      be_encode 20 (P2PSequencerAddress n') = drop 12 (be_encode 32 val) /\ n_l1Ref n' = l1Ref
  | _ => P2PSequencerAddress n' = P2PSequencerAddress n /\ n_l1Ref n' = n_l1Ref n
  end.
Proof.
  unfold Load. destruct (ReadStorageAt _ _ _ _) as [[val|e|] x] eqn:Er; intros [= <- <-]; [|done..].
  exists val, x. split_and!; [done| |done]. exact (be_encode_mod 20 val).
Qed.
End Properties.

(** ** A concrete node

    The contract is a list of answers, the driver and the network keep what they get. *)
Module CommitmentExamples.
#[export] Instance toy_screener : Screener (list bool) :=
  {| NewSystemConfig _ := ret tt;
     Screen _ _ _ := fun s => match s with [] => (Err NotFound, []) | a :: s' => (Ok a, s') end |}.
#[export] Instance toy_sink : PayloadSink (list ExecutionPayload) :=
  {| sink_payload p := fun l => (Ok tt, l ++ [p]) |}.
#[export] Instance toy_l1 : RuntimeCfgL1Source unit := {| ReadStorageAt _ _ _ := ret 77 |}.

Definition toy_payload (txs : list Data) : ExecutionPayload :=
  mkPayload 1 2 3 4 [Byte.x05] 6 7 8 9 10 [] 11 12 txs.
Definition one_tx : ExecutionPayload := toy_payload [[Byte.x01; Byte.x02]].
Definition two_txs : ExecutionPayload := toy_payload [[Byte.x01]; [Byte.x02]].

#[export] Instance packed_eq_dec : EqDecision packed_payload.
Proof. solve_decision. Defined.

Definition toy_packed : packed_payload :=
  mkPacked 1 2 3 4 [Byte.x05] 6 7 8 9 10 [] 11 12 [Byte.x01; Byte.x02].

(** An encoder that knows one tuple. *)
#[export] Instance toy_codec : CommitmentCodec :=
  {| abi_Pack p := if decide (p = toy_packed) then Ok [Byte.x2a] else Err (ErrNew "unknown");
     hexutil_Encode := String.string_of_list_byte;
     Hex2BytesFixed s n :=
       (let h := hex_DecodeString s in replicate (n - length h) Byte.x00 ++ drop (length h - n) h) |}.

#[export] Instance toy_codec_lawful : LawfulCommitmentCodec.
Proof.
  split; [| |done].
  - intros p p' b. cbn. by destruct (decide (p = toy_packed)) as [->|], (decide (p' = toy_packed)) as [->|].
  - intros b b' Hb. unfold hexutil_Encode in Hb. simpl hexutil_Encode in Hb.
    apply (f_equal String.list_byte_of_string) in Hb.
    by rewrite !String.list_byte_of_string_of_list_byte in Hb.
Defined.

Definition toy_cfg : Config :=
  mkConfig (mkGenesis (mkBlockID 100 0) (mkBlockID 2 0) 1000 (mkSystemConfig 77 1 1 1))
    2 600 3600 300 (Some 1) (Some 10) None 3 4 5.
Definition toy_node (answers : list bool) :
    OpNode (list bool) (list ExecutionPayload) (list ExecutionPayload) unit :=
  mkOpNode answers [] [] (Some 1) true tt zeroL1 77.

(** A payload of another peer that passes the screening. *)
Lemma OnUnsafeL2Payload_gated_witness :
  screened toy_cfg one_tx (toy_node [true]) [] /\
  n_l2Driver (OnUnsafeL2Payload toy_cfg 2 one_tx (toy_node [true])).2 = [one_tx].
Proof.
  destruct (OnUnsafeL2Payload_gated toy_cfg 2 one_tx (toy_node [true]) (Ok tt)
    (OnUnsafeL2Payload toy_cfg 2 one_tx (toy_node [true])).2) as (_ & _ & Hc);
    [apply run_eq; vm_compute; reflexivity|].
  destruct Hc as [(Hp & _)|[(_ & _ & Hr & _)|(_ & Hs & Hd & _)]]; [discriminate Hp|discriminate Hr|].
  split; [exact Hs|exact Hd].
Defined.

Lemma PublishL2Payload_gated_witness :
  n_gossip (PublishL2Payload toy_cfg one_tx (toy_node [false])).2 = [] /\
  n_l2Driver (PublishL2Payload toy_cfg one_tx (toy_node [false])).2 = [].
Proof.
  assert (PublishL2Payload toy_cfg one_tx (toy_node [false]) =
    (Err (ErrNew "Failed_Screening"), (PublishL2Payload toy_cfg one_tx (toy_node [false])).2)) as Hx
    by (apply run_eq; vm_compute; reflexivity).
  destruct (PublishL2Payload_gated toy_cfg one_tx (toy_node [false]) _ _ Hx) as [Hd [Hg|(_ & _ & _ & Hr)]];
    [split; [exact Hg|exact Hd]|discriminate Hr].
Defined.

(** One transaction and two look the same to the contract. *)
Lemma encodePayload_same_iff_witness : encodePayload two_txs = Ok [Byte.x2a] /\ two_txs <> one_tx.
Proof.
  split; [|discriminate].
  apply (encodePayload_same_iff one_tx two_txs [Byte.x2a]); [vm_compute; reflexivity|].
  split; reflexivity.
Defined.

Lemma target_is_zero_witness : target = replicate 32 Byte.x00 /\ target <> be_encode 32 1.
Proof. exact target_is_zero. Defined.
End CommitmentExamples.
