(* ===== verification/Gossip.v ===== *)
(** * Gossip of payloads

    [op-node/p2p/gossip.go] and [signer.go]: which messages of the network are accepted,
    the signature over a payload, and the publication of payloads. *)
From Stdlib Require Import DecimalString.
From S2P Require Import Prelude GoErrors GoBytes EthTypes Geth Solabi Deposits Ssz Commitments.
#[local] Open Scope Z_scope.

Definition maxGossipSize : Z := 10 * 1048576.
Definition minGossipSize : Z := 66.

(** ** Libraries

    Snappy, the recovery of signers, and the hashes of headers and transaction lists. *)
Class Snappy := {
  snappy_DecodedLen : Data -> result Z;
  snappy_Decode : Data -> result Data;
  snappy_Encode : Data -> Data }.
Class Secp256k1 (PubKey PrivKey : Type) := {
  SigToPub : Hash -> Data -> result PubKey;
  PubkeyToAddress : PubKey -> Address;
  crypto_Sign : Hash -> PrivKey -> result Data;
  address_of : PrivKey -> Address }.
Class Sha256 := { sha256_Sum : Data -> Data }.
(** [types.Header] as [CheckBlockHash] fills it; the rest of it is constant. *)
Record Header := mkHeader {
  h_ParentHash : Hash;
  h_UncleHash : Hash;
  h_Coinbase : Address;
  h_Root : Hash;
  h_TxHash : Hash;
  h_ReceiptHash : Hash;
  h_Bloom : Data;
  h_Difficulty : Z;
  h_Number : Z;
  h_GasLimit : Z;
  h_GasUsed : Z;
  h_Time : Z;
  h_Extra : Data;
  h_MixDigest : Hash;
  h_Nonce : Z;
  h_BaseFee : Z }.
Class BlockHashing := {
  EmptyUncleHash : Hash;
  DeriveSha : list Data -> Hash;
  Header_Hash : Header -> Hash }.

(** [lru.Cache], from heights to pointers: what is found after an insertion is what was inserted last, or what was
    there before; looking something up does not change what can be found. *)
Class LRU (L : Type) := { lru_Get : Z -> L -> option nat * L; lru_Add : Z -> nat -> L -> L }.
Class LawfulLRU (L : Type) `{LRU L} := {
  lru_find : Z -> L -> option nat;
  lru_get k l : (lru_Get k l).1 = lru_find k l;
  lru_get_find k k' l : lru_find k' (lru_Get k l).2 = lru_find k' l;
  lru_add_same k v l : lru_find k (lru_Add k v l) = Some v;
  lru_add_other k v k' l x : k' <> k -> lru_find k' (lru_Add k v l) = Some x -> lru_find k' l = Some x }.

(** Snappy decompresses what it compressed, and announces the length it decompresses to. *)
Class LawfulSnappy `{Snappy} := {
  snappy_roundtrip d : snappy_Decode (snappy_Encode d) = Ok d;
  snappy_decoded m d : snappy_Decode m = Ok d -> snappy_DecodedLen m = Ok (Z.of_nat (length d));
  snappy_total m : snappy_Decode m <> Panic /\ snappy_DecodedLen m <> Panic }.

(** A signature has 65 bytes, and its signer can be recovered from it; recovering does not
    panic. *)
Class LawfulSecp256k1 (PubKey PrivKey : Type) `{Secp256k1 PubKey PrivKey} := {
  recover_total h s : SigToPub h s <> Panic;
  sign_length h k s : crypto_Sign h k = Ok s -> length s = 65%nat;
  sign_recover h k s : crypto_Sign h k = Ok s ->
    exists pub, SigToPub h s = Ok pub /\ PubkeyToAddress pub = address_of k }.

(** ** Topics and message ids *)

(** [big.Int.String]. *)
Definition BigInt_String (x : option Z) : string :=
  match x with None => "<nil>" | Some z => NilZero.string_of_int (Z.to_int z) end.
(** [blocksTopicV1]. *)
Definition blocksTopicV1 (cfg : Config) : string :=
  ("/optimism/" ++ BigInt_String (L2ChainID cfg) ++ "/0/blocks")%string.

Definition MessageDomainInvalidSnappy : Data := [Byte.x00; Byte.x00; Byte.x00; Byte.x00].
Definition MessageDomainValidSnappy : Data := [Byte.x01; Byte.x00; Byte.x00; Byte.x00].

Section MsgId.
Context `{Snappy} `{Sha256}.

(** What the function [BuildMsgIdFn] returns hashes: the domain, the length of the topic,
    the topic, and the decompressed data if there is any. *)
Definition msg_id_input (topic : string) (data : Data) : result Data :=
  let? decoded :=
    match snappy_DecodedLen data with
    | Panic => Panic
    | Err _ => Ok None
    | Ok dLen =>
        if dLen <=? maxGossipSize then
          match snappy_Decode data with
          | Panic => Panic
          | Err _ => Ok None
          | Ok d => Ok (Some d)
          end
        else Ok None
    end in
  Ok (match decoded with Some _ => MessageDomainValidSnappy | None => MessageDomainInvalidSnappy end ++
      le_encode 8 (Z.of_nat (String.length topic)) ++ String.list_byte_of_string topic ++
      match decoded with Some d => d | None => data end).
Definition MsgIdFn (topic : string) (data : Data) : result Data :=
  let? input := msg_id_input topic data in
  Ok (take 20 (sha256_Sum input)).
End MsgId.

(** ** Signatures *)
Section Signing.
Context `{Keccak}.

(** [SigningDomainBlocksV1], [SigningHash] and [BlockSigningHash]; a nil chain id panics. *)
Definition SigningDomainBlocksV1 : Data := replicate 32 Byte.x00.
Definition SigningHash (domain : Data) (chainID : option Z) (payloadBytes : Data) : result Hash :=
  match chainID with
  | None => Panic
  | Some chainID =>
      if 256 <? BitLen chainID then Err (ErrNew "chain_id is too large")
      else Ok (Keccak256Hash (domain ++ be_encode 32 (Z.abs chainID) ++ be_encode 32 (Keccak256Hash payloadBytes)))
  end.
Definition BlockSigningHash (cfg : Config) (payloadBytes : Data) : result Hash :=
  SigningHash SigningDomainBlocksV1 (L2ChainID cfg) payloadBytes.

Context {PubKey PrivKey : Type} `{Secp256k1 PubKey PrivKey}.

(** [LocalSigner]: closed when it has no key. *)
Record LocalSigner := mkLocalSigner { ls_priv : option PrivKey }.
Definition LocalSigner_Sign (domain : Data) (chainID : option Z) (encodedMsg : Data) (s : LocalSigner) : result Data :=
  match ls_priv s with
  | None => Err (ErrNew "signer is closed")
  | Some priv =>
      let? signingHash := SigningHash domain chainID encodedMsg in
      crypto_Sign signingHash priv
  end.
Definition LocalSigner_Close (s : LocalSigner) : LocalSigner := mkLocalSigner None.
End Signing.
Arguments LocalSigner : clear implicits.

(** ** Block hashes *)


(** [ExecutionPayload.CheckBlockHash]. *)
Definition payload_header `{BlockHashing} (payload : ExecutionPayload) : Header :=
  {| h_ParentHash := ep_ParentHash payload;
     h_UncleHash := EmptyUncleHash;
     h_Coinbase := ep_FeeRecipient payload;
     h_Root := ep_StateRoot payload;
     h_TxHash := DeriveSha (ep_Transactions payload);
     h_ReceiptHash := ep_ReceiptsRoot payload;
     h_Bloom := ep_LogsBloom payload;
     h_Difficulty := 0;
     h_Number := i64 (ep_BlockNumber payload);
     h_GasLimit := ep_GasLimit payload;
     h_GasUsed := ep_GasUsed payload;
     h_Time := ep_Timestamp payload;
     h_Extra := ep_ExtraData payload;
     h_MixDigest := ep_PrevRandao payload;
     h_Nonce := 0;
     h_BaseFee := ep_BaseFeePerGas payload |}.
Definition CheckBlockHash `{BlockHashing} (payload : ExecutionPayload) : Hash * bool :=
  let blockHash := Header_Hash (payload_header payload) in
  (blockHash, blockHash =? ep_BlockHash payload).

(** ** Validation *)
Inductive ValidationResult := ValidationAccept | ValidationIgnore | ValidationReject.

#[export] Instance ValidationResult_eq_dec : EqDecision ValidationResult.
Proof. solve_decision. Defined.

(** [validationResultString]. *)
Definition validationResultString (v : ValidationResult) : string :=
  match v with
  | ValidationAccept => "ACCEPT"
  | ValidationIgnore => "IGNORE"
  | ValidationReject => "REJECT"
  end.

Section Validator.
Context `{Keccak} `{Snappy} `{BlockHashing} {PubKey PrivKey L : Type} `{Secp256k1 PubKey PrivKey} `{LRU L}.

(** What the validator remembers: the cache from heights to pointers, and the [seenBlocks]
    behind the pointers. *)
Record Validator := mkValidator {
  v_blockHeightLRU : L;
  v_seenBlocks : gmap nat (list Hash) }.

(** [seenBlocks.hasSeen] and [markSeen]. *)
Definition hasSeen (h : Hash) (sb : list Hash) : nat * bool :=
  (length sb, existsb (fun prev => prev =? h) sb).
Definition markSeen (h : Hash) (sb : list Hash) : list Hash := sb ++ [h].

(** [verifyBlockSignature]. *)
Definition verifyBlockSignature (cfg : Config) (P2PSequencerAddress : Address)
    (signatureBytes payloadBytes : Data) : result ValidationResult :=
  match BlockSigningHash cfg payloadBytes with
  | Panic => Panic
  | Err _ => Ok ValidationReject
  | Ok signingHash =>
      match SigToPub signingHash signatureBytes with
      | Panic => Panic
      | Err _ => Ok ValidationReject
      | Ok pub =>
          let addr := PubkeyToAddress pub in
          if P2PSequencerAddress =? 0 then Ok ValidationIgnore
          else if negb (addr =? P2PSequencerAddress) then Ok ValidationReject
          else Ok ValidationAccept
      end
  end.

(** The checks of the validator that do not depend on what it remembers: the payload, or
    the verdict. *)
Definition check_message (cfg : Config) (P2PSequencerAddress : Address) (now : Z) (message : Data) :
    result (ValidationResult + ExecutionPayload) :=
  match snappy_DecodedLen message with
  | Panic => Panic
  | Err _ => Ok (inl ValidationReject)
  | Ok outLen =>
      if maxGossipSize <? outLen then Ok (inl ValidationReject)
      else if outLen <? minGossipSize then Ok (inl ValidationReject)
      else
        match snappy_Decode message with
        | Panic => Panic
        | Err _ => Ok (inl ValidationReject)
        | Ok data =>
            let? signatureBytes := sub 0 65 data in
            let? payloadBytes := sub 65 (Z.of_nat (length data)) data in
            let? verdict := verifyBlockSignature cfg P2PSequencerAddress signatureBytes payloadBytes in
            if negb (bool_decide (verdict = ValidationAccept)) then Ok (inl verdict)
            else
              match (UnmarshalSSZ (len32 payloadBytes) payloadBytes).1 with
              | Panic => Panic
              | Err _ => Ok (inl ValidationReject)
              | Ok payload =>
                  if ep_Timestamp payload <? now -u 60 then Ok (inl ValidationReject)
                  else if now +u 5 <? ep_Timestamp payload then Ok (inl ValidationReject)
                  else if negb (CheckBlockHash payload).2 then Ok (inl ValidationReject)
                  else Ok (inr payload)
              end
        end
  end.

(** The rest of the validator: the blocks seen at a height. *)
Definition check_seen (payload : ExecutionPayload) : M Validator ValidationResult := fun v =>
  let '(found, lru) := lru_Get (ep_BlockNumber payload) (v_blockHeightLRU v) in
  let '(p, lru, heap) :=
    match found with
    | Some p => (p, lru, v_seenBlocks v)
    | None =>
        let p := fresh (dom (v_seenBlocks v)) in
        (p, lru_Add (ep_BlockNumber payload) p lru, <[p := []]> (v_seenBlocks v))
    end in
  match heap !! p with
  | None => (Panic, mkValidator lru heap)
  | Some seen =>
      let '(count, has) := hasSeen (ep_BlockHash payload) seen in
      if (5 <? count)%nat then (Ok ValidationReject, mkValidator lru heap)
      else if has then (Ok ValidationIgnore, mkValidator lru heap)
      else (Ok ValidationAccept, mkValidator lru (<[p := markSeen (ep_BlockHash payload) seen]> heap))
  end.

(** The function [BuildBlocksValidator] returns: the verdict, and the payload that is
    attached to an accepted message.  The sequencer address is that of the moment. *)
Definition BlocksValidator (cfg : Config) (P2PSequencerAddress : Address) (now : Z) (message : Data) :
    M Validator (ValidationResult * option ExecutionPayload) :=
  r <- lift (check_message cfg P2PSequencerAddress now message) ;;
  match r with
  | inl verdict => ret (verdict, None)
  | inr payload =>
      verdict <- check_seen payload ;;
      if bool_decide (verdict = ValidationAccept) then ret (verdict, Some payload) else ret (verdict, None)
  end.

(** The same with the goroutines of the topic's validator: what each of them has done so
    far with its payload.  The cache and each list are locked for one call at a time. *)
Inductive worker :=
  | Idle
  | Adding (payload : ExecutionPayload) (seen : nat)
  | Holding (payload : ExecutionPayload) (seen : nat)
  | Unseen (payload : ExecutionPayload) (seen : nat).

Inductive worker_step : Validator * worker -> Validator * worker -> Prop :=
  | step_Get_ok v payload q lru :
      lru_Get (ep_BlockNumber payload) (v_blockHeightLRU v) = (Some q, lru) ->
      worker_step (v, Idle) (mkValidator lru (v_seenBlocks v), Holding payload q)
  | step_Get_miss v payload q lru :
      lru_Get (ep_BlockNumber payload) (v_blockHeightLRU v) = (None, lru) ->
      v_seenBlocks v !! q = None ->
      worker_step (v, Idle) (mkValidator lru (<[q := []]> (v_seenBlocks v)), Adding payload q)
  | step_Add v payload q :
      worker_step (v, Adding payload q)
        (mkValidator (lru_Add (ep_BlockNumber payload) q (v_blockHeightLRU v)) (v_seenBlocks v), Holding payload q)
  | step_seen v payload q l :
      v_seenBlocks v !! q = Some l ->
      (5 <? (hasSeen (ep_BlockHash payload) l).1)%nat || (hasSeen (ep_BlockHash payload) l).2 = true ->
      worker_step (v, Holding payload q) (v, Idle)
  | step_unseen v payload q l :
      v_seenBlocks v !! q = Some l ->
      (5 <? (hasSeen (ep_BlockHash payload) l).1)%nat || (hasSeen (ep_BlockHash payload) l).2 = false ->
      worker_step (v, Holding payload q) (v, Unseen payload q)
  | step_mark v payload q l :
      v_seenBlocks v !! q = Some l ->
      worker_step (v, Unseen payload q)
        (mkValidator (v_blockHeightLRU v) (<[q := markSeen (ep_BlockHash payload) l]> (v_seenBlocks v)), Idle).

(** Any of the workers goes on. *)
Inductive workers_step : Validator * list worker -> Validator * list worker -> Prop :=
  | one_worker v v' ws i w w' :
      ws !! i = Some w -> worker_step (v, w) (v', w') -> workers_step (v, ws) (v', <[i := w']> ws).

(** [guardGossipValidator] turns a panic into a rejection. *)
Definition guardGossipValidator
    (fn : M Validator (ValidationResult * option ExecutionPayload)) : M Validator (ValidationResult * option ExecutionPayload) :=
  fun v =>
    match fn v with
    | (Panic, v') => (Ok (ValidationReject, None), v')
    | rv => rv
    end.
End Validator.
Arguments Validator : clear implicits.

(** ** Publication *)

(** [pubsub.Topic.Publish], and [Signer.Sign]. *)
Class Topic (T : Type) := { topic_Publish : Data -> M T unit }.
Class Signer (S : Type) := { signer_Sign : Data -> option Z -> Data -> M S Data }.

#[export] Instance LocalSigner_signer `{Keccak} {PubKey PrivKey} `{Secp256k1 PubKey PrivKey} :
    Signer (LocalSigner PrivKey) :=
  {| signer_Sign domain chainID msg := fun s => (LocalSigner_Sign domain chainID msg s, s) |}.

Section Publisher.
Context `{Snappy} {T S : Type} `{Topic T} `{Signer S}.

(** [publisher.PublishL2Payload], given the arrays of the pooled buffers: the signature is
    copied over the 65 bytes in front of the encoding. *)
Definition publisher_PublishL2Payload (cfg : Config) (pooled : Data) (payload : ExecutionPayload) : M (T * S) unit :=
  payloadData <- wrapE (ErrWrap "failed to encoded execution payload to publish") (lift (MarshalSSZ pooled payload)) ;;
  sig <- wrapE (ErrWrap "failed to sign execution payload with signer")
           (zoom snd (fun s ts => (ts.1, s)) (signer_Sign SigningDomainBlocksV1 (L2ChainID cfg) payloadData)) ;;
  zoom fst (fun t ts => (t, ts.2)) (topic_Publish (snappy_Encode (sig ++ payloadData))).
End Publisher.

(** ** Reception *)

(** [BlocksHandler]: the data is what the validator attached. *)
Definition BlocksHandler {N} (onBlock : Z -> ExecutionPayload -> M N unit) (from : Z)
    (msg : option ExecutionPayload) : M N unit :=
  match msg with
  | None => throw (ErrNew "expected topic validator to parse and validate data into execution payload")
  | Some payload => onBlock from payload
  end.

(** A round of the loop of [MakeSubscriber]; errors of the handler are only logged. *)
Definition subscriber_round {N} (msgHandler : Z -> option ExecutionPayload -> M N unit) (from : Z)
    (ValidatorData : option ExecutionPayload) : M N unit :=
  match ValidatorData with
  | None => ret tt
  | Some _ => attempt (msgHandler from ValidatorData) ;;; ret tt
  end.

Section Reception.
Context `{Keccak} `{Snappy} `{BlockHashing} {PubKey PrivKey L : Type} `{Secp256k1 PubKey PrivKey} `{LRU L}.
Context {C D G R : Type} `{Screener C} `{PayloadSink D} `{PayloadSink G} `{RuntimeCfgL1Source R}.
Context `{CommitmentCodec}.

(** A message of the blocks topic, as [JoinGossip] wires it for the node: the guarded
    validator with the sequencer address of the node, and the subscriber on what it
    accepted. *)
Definition gossip_message (cfg : Config) (now from : Z) (message : Data) :
    M (Validator L * OpNode C D G R) ValidationResult :=
  s <- get ;;
  rv <- zoom fst (fun v s => (v, s.2))
          (guardGossipValidator (BlocksValidator cfg (P2PSequencerAddress s.2) now message)) ;;
  (if bool_decide (rv.1 = ValidationAccept)
   then zoom snd (fun n s => (s.1, n)) (subscriber_round (BlocksHandler (OnUnsafeL2Payload cfg)) from rv.2)
   else ret tt) ;;;
  ret rv.1.
End Reception.
