(* ===== verification/GossipSpec.v ===== *)
(** * What gossip guarantees

    Which messages the validator accepts, what it remembers, that it never panics, that
    what the sequencer publishes is accepted, and what a message can do to a node. *)
From stdpp Require Import relations.
From S2P Require Import Prelude GoErrors GoBytes EthTypes Geth Solabi Deposits Ssz Commitments Gossip.
#[local] Open Scope Z_scope.

(** ** Signatures *)
Section SigningSpec.
Context `{Keccak} `{!LawfulKeccak}.

Definition signing_input (domain : Data) (chainID : Z) (payloadBytes : Data) : Data :=
  domain ++ be_encode 32 (Z.abs chainID) ++ be_encode 32 (Keccak256Hash payloadBytes).

Lemma SigningHash_Ok domain chainID b h :
  SigningHash domain chainID b = Ok h <->
  exists c, chainID = Some c /\ BitLen c <= 256 /\ h = Keccak256Hash (signing_input domain c b).
Proof.
  unfold SigningHash, signing_input. split.
  - destruct chainID as [c|]; [|done]. case_if; [done|]. intros [= <-]. eauto.
  - intros (c & -> & Hc & ->). by destruct (Z.ltb_spec 256 (BitLen c)); [lia|].
Qed.

Lemma BitLen_le_256 c : BitLen c <= 256 -> 0 <= Z.abs c < 256 ^ Z.of_nat 32.
Proof.
  intros Hc. change (256 ^ Z.of_nat 32) with (2 ^ 256). revert Hc. unfold BitLen.
  destruct (Z.eqb_spec c 0) as [->|Hn]; [done|]. intros Hc.
  pose proof (Z.log2_spec (Z.abs c) ltac:(lia)) as [_ Hl]. split; [lia|].
  eapply Z.lt_le_trans; [exact Hl|]. apply Z.pow_le_mono_r; lia.
Qed.

Lemma signing_input_inj d c b d' c' b' :
  length d = 32%nat -> length d' = 32%nat -> BitLen c <= 256 -> BitLen c' <= 256 ->
  signing_input d c b = signing_input d' c' b' ->
  d = d' /\ Z.abs c = Z.abs c' /\ Keccak256Hash b = Keccak256Hash b'.
Proof.
  intros Hd Hd' Hc Hc' E. unfold signing_input in E.
  apply app_inj_1 in E as [-> E]; [|congruence].
  apply app_inj_1 in E as [Ec Eb]; [|by rewrite !length_be_encode].
  pose proof (BitLen_le_256 c Hc). pose proof (BitLen_le_256 c' Hc').
  apply (f_equal be_decode) in Ec, Eb. rewrite !be_decode_encode_small in Ec by done.
  rewrite !be_decode_encode_small in Eb by apply Keccak256Hash_range. done.
Qed.

(** A signature binds the domain, the chain and the payload.  Two signing hashes are
    equal only if they are for the same domain, the same chain id up to its sign and the
    same encoding, unless one of the two named pairs is a collision of the hash function. *)
Theorem signing_hash_identifies d c b d' c' b' h :
  length d = 32%nat -> length d' = 32%nat ->
  SigningHash d (Some c) b = Ok h -> SigningHash d' (Some c') b' = Ok h ->
  (d = d' /\ Z.abs c = Z.abs c' /\ b = b') \/ collision b b' \/
  collision (signing_input d c b) (signing_input d' c' b').
Proof.
  intros Hd Hd' (? & [= <-] & Hc & ->)%SigningHash_Ok (? & [= <-] & Hc' & Hh)%SigningHash_Ok.
  destruct (decide (signing_input d c b = signing_input d' c' b')) as [E|E]; [|by right; right].
  apply signing_input_inj in E as (-> & ? & Hb); [|done..].
  destruct (decide (b = b')) as [->|]; [by left|]. right; left. by split.
Qed.
End SigningSpec.

(** ** The validator *)
Section ValidatorSpec.
Context `{Keccak} `{Snappy} `{!LawfulSnappy} `{BlockHashing}.
Context {PubKey PrivKey L : Type} `{Secp256k1 PubKey PrivKey} `{!LawfulSecp256k1 PubKey PrivKey}.
Context `{LRU L} `{!LawfulLRU L}.
Implicit Types v : Validator L.
Implicit Types p : ExecutionPayload.

(** The signature of a body by the configured sequencer. *)
Definition signed_by_sequencer (cfg : Config) (addr : Address) (sig body : Data) : Prop :=
  addr <> 0 /\ exists h pub,
    BlockSigningHash cfg body = Ok h /\ SigToPub h sig = Ok pub /\ PubkeyToAddress pub = addr.

(** A message that carries a payload: a signature of the sequencer followed by an
    encoding, compressed, of a payload of the present with a right block hash. *)
Definition acceptable (cfg : Config) (addr : Address) (now : Z) (message : Data) p : Prop :=
  exists sig body,
    snappy_Decode message = Ok (sig ++ body) /\ length sig = 65%nat /\
    1 <= Z.of_nat (length body) <= maxGossipSize - 65 /\
    signed_by_sequencer cfg addr sig body /\
    payload_wf p /\
    (body = ssz_encoding p \/ ep_Transactions p = [] /\ exists more, body = ssz_encoding p ++ le_encode 4 0 ++ more) /\
    now -u 60 <= ep_Timestamp p <= now +u 5 /\
    (CheckBlockHash p).2 = true.

Lemma verifyBlockSignature_accept cfg addr sig body :
  verifyBlockSignature cfg addr sig body = Ok ValidationAccept <-> signed_by_sequencer cfg addr sig body.
Proof.
  unfold verifyBlockSignature, signed_by_sequencer. split.
  - destruct (BlockSigningHash cfg body) as [h|e|] eqn:Eh; [|done..].
    destruct (SigToPub h sig) as [pub|e|] eqn:Es; [|done..].
    destruct (Z.eqb_spec addr 0); [done|]. destruct (Z.eqb_spec (PubkeyToAddress pub) addr); [|done]. eauto 6.
  - intros (Ha & h & pub & -> & -> & ->). destruct (Z.eqb_spec addr 0); [done|]. by rewrite Z.eqb_refl.
Qed.

(** The message passes the checks on its contents exactly if it carries the payload. *)
Lemma check_message_accepts cfg addr now message p :
  check_message cfg addr now message = Ok (inr p) <-> acceptable cfg addr now message p.
Proof.
  unfold check_message, maxGossipSize, minGossipSize. split.
  - destruct (snappy_DecodedLen message) as [outLen|e|] eqn:El; [|done..].
    case_if; [done|]. case_if; [done|].
    destruct (snappy_Decode message) as [data|e|] eqn:Ed; [|done..].
    pose proof (snappy_decoded _ _ Ed) as Hl. rewrite El in Hl. injection Hl as ->.
    rewrite !sub_intro by lia.
    set (sig := take _ (drop _ data)). set (body := take _ (drop (Z.to_nat 65) data)).
    assert (data = sig ++ body) as Hdata.
    { subst sig body. rewrite drop_0. change (Z.to_nat (65 - 0)) with 65%nat. change (Z.to_nat 65) with 65%nat.
      rewrite (take_ge (drop 65 data)) by (rewrite length_drop; lia). by rewrite take_drop. }
    assert (length sig = 65%nat) as Hsig by (subst sig; rewrite length_take, length_drop; lia).
    assert (Z.of_nat (length body) = Z.of_nat (length data) - 65) as Hbody
      by (apply (f_equal length) in Hdata; rewrite length_app in Hdata; lia).
    destruct (verifyBlockSignature _ _ _ _) as [verdict|e|] eqn:Ev; [|done..].
    case_bool_decide; [|done]. subst verdict. cbn [negb]. apply verifyBlockSignature_accept in Ev.
    rewrite len32_small by lia.
    destruct (UnmarshalSSZ _ _).1 as [payload|e|] eqn:Eu; [|done..].
    apply UnmarshalSSZ_accepts in Eu as [Hwf Hbytes]; [|lia].
    case_if; [done|]. case_if; [done|].
    destruct (CheckBlockHash payload).2 eqn:Ec; [|done]. cbn [negb]. intros [= <-].
    exists sig, body. rewrite <- Hdata. split_and!; try done; unfold maxGossipSize; lia.
  - intros (sig & body & Hd & Hsig & Hl & Hs & Hwf & Hbytes & [Hlo Hhi] & Hc). unfold maxGossipSize in Hl.
    rewrite (snappy_decoded _ _ Hd), Hd, length_app.
    destruct (Z.ltb_spec (10 * 1048576) (Z.of_nat (length sig + length body))); [lia|].
    destruct (Z.ltb_spec (Z.of_nat (length sig + length body)) 66); [lia|].
    rewrite !sub_intro by (rewrite ?length_app; lia). rewrite drop_0, take_app_exact by lia.
    rewrite drop_app_exact by lia. rewrite take_ge by lia.
    apply verifyBlockSignature_accept in Hs as ->. rewrite bool_decide_true by done. cbn [negb].
    rewrite len32_small by lia.
    rewrite (proj2 (UnmarshalSSZ_accepts body p ltac:(lia))) by done.
    destruct (Z.ltb_spec (ep_Timestamp p) (now -u 60)); [lia|].
    destruct (Z.ltb_spec (now +u 5) (ep_Timestamp p)); [lia|]. by rewrite Hc.
Qed.

(** What is remembered at a height; the state of a new validator. *)
Definition seen_at (height : Z) v : list Hash :=
  match lru_find height (v_blockHeightLRU v) with
  | Some q => default [] (v_seenBlocks v !! q)
  | None => []
  end.

(** The cache points to lists, different heights to different ones, and no list has more
    than six entries or an entry twice. *)
Record seen_inv v : Prop := {
  seen_valid k q : lru_find k (v_blockHeightLRU v) = Some q -> is_Some (v_seenBlocks v !! q);
  seen_apart k k' q : lru_find k (v_blockHeightLRU v) = Some q -> lru_find k' (v_blockHeightLRU v) = Some q -> k = k';
  seen_bounded q l : v_seenBlocks v !! q = Some l -> (length l <= 6)%nat /\ NoDup l }.

Lemma existsb_In (h : Hash) l : existsb (fun prev => prev =? h) l = true <-> h ∈ l.
Proof.
  rewrite existsb_exists, list_elem_of_In. split.
  - by intros (x & Hx & ->%Z.eqb_eq).
  - intros Hx. exists h. by rewrite Z.eqb_refl.
Qed.

(** The pointer for a height, found or new. *)
Definition seen_entry (height : Z) v : nat * Validator L :=
  let '(found, lru) := lru_Get height (v_blockHeightLRU v) in
  match found with
  | Some q => (q, mkValidator lru (v_seenBlocks v))
  | None =>
      let q := fresh (dom (v_seenBlocks v)) in
      (q, mkValidator (lru_Add height q lru) (<[q := []]> (v_seenBlocks v)))
  end.

Lemma seen_entry_spec height v q v' :
  seen_inv v -> seen_entry height v = (q, v') ->
  seen_inv v' /\ lru_find height (v_blockHeightLRU v') = Some q /\
  v_seenBlocks v' !! q = Some (seen_at height v).
Proof.
  intros [Hv Ha Hb]. unfold seen_entry, seen_at. pose proof (lru_get height (v_blockHeightLRU v)) as Hg.
  pose proof (fun k => lru_get_find height k (v_blockHeightLRU v)) as Hf.
  destruct (lru_Get _ _) as [found lru]. cbn [fst snd] in *. rewrite <- Hg. destruct found as [x|]; intros [= <- <-].
  - cbn [v_blockHeightLRU v_seenBlocks]. destruct (Hv height x) as [l Hl]; [done|]. rewrite Hl.
    split_and!; [split; cbn; intros *; rewrite ?Hf; eauto|by rewrite Hf|done].
  - cbn [v_blockHeightLRU v_seenBlocks].
    assert (v_seenBlocks v !! fresh (dom (v_seenBlocks v)) = None) as Hn
      by (apply not_elem_of_dom, is_fresh).
    assert (forall k x, lru_find k (lru_Add height (fresh (dom (v_seenBlocks v))) lru) = Some x ->
      k = height /\ x = fresh (dom (v_seenBlocks v)) \/ lru_find k (v_blockHeightLRU v) = Some x) as Hk.
    { intros k x Hx. destruct (decide (k = height)) as [->|Hne].
      - rewrite lru_add_same in Hx. left. by injection Hx.
      - right. rewrite <- Hf. by eapply lru_add_other. }
    split_and!; [|apply lru_add_same|by rewrite lookup_insert_eq].
    split; cbn [v_blockHeightLRU v_seenBlocks].
    + intros k x [[_ ->]|Hx]%Hk; [by rewrite lookup_insert_eq|]. apply lookup_insert_is_Some'. right. eauto.
    + intros k k' x [[-> ->]|Hx]%Hk [[-> Hx']|Hx']%Hk; [done| | |by eapply Ha].
      all: [> destruct (Hv _ _ Hx') as [? He] | destruct (Hv _ _ Hx) as [? He]]; subst; congruence.
    + intros x l. rewrite lookup_insert_Some. intros [[_ <-]|[_ Hl]]; [split; [cbn; lia|constructor]|eauto].
Qed.

Lemma check_seen_unfold p v :
  check_seen p v =
  let '(q, v1) := seen_entry (ep_BlockNumber p) v in
  match v_seenBlocks v1 !! q with
  | None => (Panic, v1)
  | Some seen =>
      let '(count, has) := hasSeen (ep_BlockHash p) seen in
      if (5 <? count)%nat then (Ok ValidationReject, v1)
      else if has then (Ok ValidationIgnore, v1)
      else (Ok ValidationAccept,
            mkValidator (v_blockHeightLRU v1) (<[q := markSeen (ep_BlockHash p) seen]> (v_seenBlocks v1)))
  end.
Proof. unfold check_seen, seen_entry. destruct (lru_Get _ _) as [[x|] lru]; reflexivity. Qed.

(** The verdict on a payload, and what is remembered after it. *)
Lemma check_seen_spec p v r v' :
  seen_inv v -> check_seen p v = (r, v') ->
  let seen := seen_at (ep_BlockNumber p) v in
  seen_inv v' /\
  r = Ok (if (5 <? length seen)%nat then ValidationReject
          else if bool_decide (ep_BlockHash p ∈ seen) then ValidationIgnore else ValidationAccept) /\
  seen_at (ep_BlockNumber p) v' =
    (if (length seen <=? 5)%nat && negb (bool_decide (ep_BlockHash p ∈ seen))
     then seen ++ [ep_BlockHash p] else seen).
Proof.
  intros Hi. rewrite check_seen_unfold. destruct (seen_entry _ v) as [q v1] eqn:Ee.
  destruct (seen_entry_spec _ _ _ _ Hi Ee) as (Hi1 & Hq & Hl). rewrite Hl.
  assert (seen_at (ep_BlockNumber p) v1 = seen_at (ep_BlockNumber p) v) as Hs
    by (unfold seen_at at 1; by rewrite Hq, Hl).
  set (seen := seen_at (ep_BlockNumber p) v) in *. cbv zeta. unfold hasSeen, markSeen.
  assert (existsb (fun prev => prev =? ep_BlockHash p) seen = bool_decide (ep_BlockHash p ∈ seen)) as ->.
  { apply eq_bool_prop_intro. rewrite bool_decide_spec, <- existsb_In. by rewrite Is_true_true. }
  destruct (Nat.ltb_spec 5 (length seen)) as [H5|H5];
    [destruct (Nat.leb_spec (length seen) 5); [lia|]|destruct (Nat.leb_spec (length seen) 5); [|lia]]; cbn [andb].
  { intros [= <- <-]. by split_and!. }
  case_bool_decide as Hin; cbn [negb]; intros [= <- <-]; [by split_and!|]. split_and!; [|done|].
  - destruct Hi1 as [Hv Ha Hb]. split; cbn [v_blockHeightLRU v_seenBlocks].
    + intros k x Hx. apply lookup_insert_is_Some'. right. eauto.
    + exact Ha.
    + intros x l. rewrite lookup_insert_Some. intros [[_ <-]|[_ Hx]]; [|eauto].
      destruct (Hb _ _ Hl) as [_ Hnd]. split; [rewrite length_app; cbn; lia|].
      apply NoDup_app. split_and!; [done| |apply NoDup_singleton].
      intros y Hy ->%list_elem_of_singleton. done.
  - unfold seen_at. cbn. by rewrite Hq, lookup_insert_eq.
Qed.

(** A validator meets messages, each with the sequencer address and the clock of its moment. *)
Definition validator_step (cfg : Config) v v' : Prop :=
  exists addr now message r, BlocksValidator cfg addr now message v = (r, v').
Definition new_validator v : Prop := forall k, lru_find k (v_blockHeightLRU v) = None.

Lemma validator_cases cfg addr now message v r v' :
  BlocksValidator cfg addr now message v = (r, v') ->
  (exists p verdict, acceptable cfg addr now message p /\ check_seen p v = (verdict, v') /\
     r = match verdict with
         | Ok x => Ok (x, if bool_decide (x = ValidationAccept) then Some p else None)
         | Err e => Err e
         | Panic => Panic
         end) \/
  ((forall p, ~ acceptable cfg addr now message p) /\ v' = v /\
   r = match check_message cfg addr now message with
       | Ok (inl x) => Ok (x, None) | Ok (inr _) => Panic | Err e => Err e | Panic => Panic end).
Proof.
  unfold BlocksValidator, bind at 1, lift.
  destruct (check_message cfg addr now message) as [[x|p]|e|] eqn:Em.
  1,3,4: intros [= <- <-]; right; split; [|done]; intros p Hp;
         apply check_message_accepts in Hp; congruence.
  apply check_message_accepts in Em. unfold bind, ret. intros Hx. left. exists p.
  destruct (check_seen p v) as [[x|e|] v1]; [|injection Hx as <- <-; by eexists..].
  exists (Ok x). case_bool_decide; injection Hx as <- <-; done.
Qed.

Lemma step_keeps_inv cfg v v' : seen_inv v -> validator_step cfg v v' -> seen_inv v'.
Proof.
  intros Hi (addr & now & message & r & [(p & x & _ & Hc & _)|(_ & -> & _)]%validator_cases); [|done].
  by apply check_seen_spec in Hc as [? _].
Qed.

Lemma reached_inv cfg v0 v : new_validator v0 -> v_seenBlocks v0 = ∅ -> rtc (validator_step cfg) v0 v -> seen_inv v.
Proof.
  intros Hn He Hr. assert (seen_inv v0) as Hi.
  { split; [intros k q; by rewrite Hn|intros k k' q; by rewrite Hn|intros q l; by rewrite He]. }
  clear Hn He. induction Hr as [|v0 v1 v2 Hs Hr IH]; [done|]. by apply IH, (step_keeps_inv cfg v0).
Qed.

Lemma validator_exact cfg v0 v addr now message r v' p :
  new_validator v0 -> v_seenBlocks v0 = ∅ -> rtc (validator_step cfg) v0 v ->
  BlocksValidator cfg addr now message v = (r, v') ->
  r = Ok (ValidationAccept, Some p) <->
  acceptable cfg addr now message p /\
  (length (seen_at (ep_BlockNumber p) v) <= 5)%nat /\ ep_BlockHash p ∉ seen_at (ep_BlockNumber p) v.
Proof.
  intros Hn He Hr Hx. pose proof (reached_inv _ _ _ Hn He Hr) as Hi.
  apply validator_cases in Hx as [(p' & x & Ha & Hc & ->)|(Hno & -> & ->)].
  - apply check_seen_spec in Hc as (_ & -> & _); [|done]. split.
    + destruct (Nat.ltb_spec 5 (length (seen_at (ep_BlockNumber p') v))); [done|].
      case_bool_decide; [done|]. cbn. intros [= <-]. by split_and!.
    + intros (Ha' & Hl & Hnin). apply check_message_accepts in Ha, Ha'. rewrite Ha in Ha'. injection Ha' as ->.
      destruct (Nat.ltb_spec 5 (length (seen_at (ep_BlockNumber p) v))); [lia|].
      by rewrite (bool_decide_false (ep_BlockHash p ∈ _)) by done.
  - split; [|intros [Ha _]; by apply Hno in Ha].
    destruct (check_message _ _ _ _) as [[x|p']|e|] eqn:Em; done.
Qed.

(** C3: exactly the right messages are accepted.  In every state the validator reaches, a
    message is accepted with a payload exactly when it decompresses to a signature and an
    encoding, of at most ten megabytes; the signer of the encoding for this chain is the
    sequencer of the moment, and one is configured; the encoding is that of the payload, or,
    when the payload has no transactions, its encoding followed by four zero bytes and any
    further bytes, which the decoder reads as the same payload; its timestamp is between a minute ago and five seconds ahead; its hash is right; and at most
    five other payloads, and not this one, were seen at its height. *)
Theorem validator_accepts_iff cfg v0 v addr now message r v' p :
  new_validator v0 -> v_seenBlocks v0 = ∅ -> rtc (validator_step cfg) v0 v ->
  BlocksValidator cfg addr now message v = (r, v') ->
  r = Ok (ValidationAccept, Some p) <->
  acceptable cfg addr now message p /\
  (length (seen_at (ep_BlockNumber p) v) <= 5)%nat /\ ep_BlockHash p ∉ seen_at (ep_BlockNumber p) v.
Proof. apply validator_exact. Qed.

Lemma check_message_total cfg addr now message :
  is_Some (L2ChainID cfg) -> exists x, check_message cfg addr now message = Ok x.
Proof.
  intros [c Hc]. unfold check_message. pose proof (snappy_total message) as [Hd Hl].
  destruct (snappy_DecodedLen message) as [outLen|e|] eqn:El; [|by eexists|done].
  unfold maxGossipSize, minGossipSize. case_if; [by eexists|]. case_if; [by eexists|].
  destruct (snappy_Decode message) as [data|e|] eqn:Ed; [|by eexists|done].
  apply snappy_decoded in Ed. rewrite El in Ed. injection Ed as ->. rewrite !sub_intro by lia.
  set (body := take _ (drop (Z.to_nat 65) data)).
  assert (exists x, verifyBlockSignature cfg addr (take (Z.to_nat (65 - 0)) (drop (Z.to_nat 0) data)) body = Ok x) as [x ->].
  { unfold verifyBlockSignature, BlockSigningHash, SigningHash. rewrite Hc.
    case_if; [by eexists|]. pose proof recover_total. destruct (SigToPub _ _) eqn:Es; [|by eexists|congruence].
    repeat case_if; by eexists. }
  case_if; [by eexists|]. assert (Z.of_nat (length body) <= Z.of_nat (length data))
    by (subst body; rewrite length_take, length_drop; lia).
  destruct (UnmarshalSSZ _ _).1 as [payload|e|] eqn:Eu; [|by eexists|].
  - repeat case_if; by eexists.
  - exfalso. revert Eu. apply UnmarshalSSZ_never_panics. rewrite len32_small; lia.
Qed.

(** The validator never panics.  When the chain has an id, validation gives a verdict in
    every state that is reached, whatever bytes were sent: the guard around it has nothing to
    recover from.  And whatever the configuration, the guarded validator gives a verdict. *)
Theorem validator_never_panics cfg v0 v addr now message :
  new_validator v0 -> v_seenBlocks v0 = ∅ -> rtc (validator_step cfg) v0 v -> is_Some (L2ChainID cfg) ->
  (exists x, (BlocksValidator cfg addr now message v).1 = Ok x) /\
  guardGossipValidator (BlocksValidator cfg addr now message) v = BlocksValidator cfg addr now message v.
Proof.
  intros Hn He Hr Hc. pose proof (reached_inv _ _ _ Hn He Hr) as Hi.
  destruct (check_message_total cfg addr now message Hc) as [m Hm].
  destruct (BlocksValidator cfg addr now message v) as [r v'] eqn:Hx.
  assert (exists x, r = Ok x) as [x ->].
  { apply validator_cases in Hx as [(p & x & _ & Hs & ->)|(Hno & -> & ->)].
    - apply check_seen_spec in Hs as (_ & -> & _); [|done]. by eexists.
    - rewrite Hm. destruct m as [x|p]; [by eexists|]. apply check_message_accepts in Hm. by apply Hno in Hm. }
  split; [by eexists|]. unfold guardGossipValidator. by rewrite Hx.
Qed.

(** At most six blocks are passed on per height.  In every state that is reached, the
    hashes remembered for a height are different and at most six; and a message changes
    them only by adding the hash of the payload it is accepted with. *)
Theorem seen_blocks_bounded cfg v0 v addr now message r v' height :
  new_validator v0 -> v_seenBlocks v0 = ∅ -> rtc (validator_step cfg) v0 v ->
  BlocksValidator cfg addr now message v = (r, v') ->
  (length (seen_at height v) <= 6)%nat /\ NoDup (seen_at height v) /\
  forall p, r = Ok (ValidationAccept, Some p) ->
    seen_at (ep_BlockNumber p) v' = seen_at (ep_BlockNumber p) v ++ [ep_BlockHash p].
Proof.
  intros Hn He Hr Hx. pose proof (reached_inv _ _ _ Hn He Hr) as Hi.
  assert ((length (seen_at height v) <= 6)%nat /\ NoDup (seen_at height v)) as [? ?].
  { unfold seen_at. destruct (lru_find height _) as [q|]; [|split; [cbn; lia|constructor]].
    destruct (v_seenBlocks v !! q) as [l|] eqn:El; cbn; [|split; [lia|constructor]].
    by apply (seen_bounded v Hi q). }
  split_and!; [done..|]. intros p ->.
  pose proof (proj1 (validator_exact _ _ _ _ _ _ _ _ p Hn He Hr Hx) eq_refl) as (Ha & Hl & Hnin).
  apply validator_cases in Hx as [(p' & x & Ha' & Hc & _)|(Hno & _)]; [|by apply Hno in Ha].
  apply check_message_accepts in Ha, Ha'. rewrite Ha in Ha'. injection Ha' as ->.
  apply check_seen_spec in Hc as (_ & _ & ->); [|done].
  rewrite bool_decide_false by done. by destruct (Nat.leb_spec (length (seen_at (ep_BlockNumber p') v)) 5); [|lia].
Qed.

(** ** Concurrent validation *)

(** Whether a worker is about to mark the list behind a pointer. *)
Definition unseen_of (q : nat) (w : worker) : bool :=
  match w with Unseen _ q' => bool_decide (q' = q) | _ => false end.
Definition pending (q : nat) (ws : list worker) : nat := length (filter (fun w => unseen_of q w) ws).

Lemma pending_insert q ws i w w' :
  ws !! i = Some w ->
  (pending q (<[i := w']> ws) + (if unseen_of q w then 1 else 0) =
   pending q ws + (if unseen_of q w' then 1 else 0))%nat.
Proof.
  intros Hw. unfold pending. rewrite <- (take_drop_middle ws i w Hw) at 2.
  rewrite insert_take_drop by (by eapply lookup_lt_Some). rewrite !filter_app, !filter_cons, !length_app.
  repeat case_decide; destruct (unseen_of q w), (unseen_of q w'); try done; cbn; lia.
Qed.

Lemma pending_le q ws : (pending q ws <= length ws)%nat.
Proof. apply length_filter. Qed.

(** Each list has room for what the workers are about to mark. *)
Definition room n (s : Validator L * list worker) : Prop :=
  length s.2 = n /\
  forall q l, v_seenBlocks s.1 !! q = Some l -> (length l + pending q s.2 <= 5 + n)%nat.

Lemma workers_keep_room n s s' : room n s -> workers_step s s' -> room n s'.
Proof.
  intros [Hn Hr] Hs. destruct Hs as [v v' ws i w w' Hw Hs]. cbn [fst snd] in *.
  split; cbn [fst snd]; [by rewrite length_insert|]. intros q l Hl.
  pose proof (pending_insert q ws i w w' Hw) as Hp.
  pose proof (pending_le q (<[i := w']> ws)) as Hle. rewrite length_insert in Hle.
  inversion Hs as [? ? ? ? Hg|? ? ? ? Hg Hnew|? ? ?|? ? ? ? Hq Hc|? ? ? ? Hq Hc|? ? ? ? Hq]; subst;
    cbn [v_seenBlocks unseen_of] in *.
  - specialize (Hr _ _ Hl). lia.
  - apply lookup_insert_Some in Hl as [[<- <-]|[_ Hl]]; [cbn; lia|]. specialize (Hr _ _ Hl). lia.
  - specialize (Hr _ _ Hl). lia.
  - specialize (Hr _ _ Hl). lia.
  - destruct (decide (q0 = q)) as [->|Hne].
    + rewrite Hl in Hq. injection Hq as <-. apply orb_false_iff in Hc as [Hc%Nat.ltb_ge _]. unfold hasSeen in Hc. cbn [fst] in Hc. lia.
    + rewrite bool_decide_false in Hp by done. specialize (Hr _ _ Hl). lia.
  - apply lookup_insert_Some in Hl as [[<- <-]|[Hne Hl]].
    + specialize (Hr _ _ Hq). rewrite bool_decide_true in Hp by done. unfold markSeen.
      rewrite length_app. cbn [length]. lia.
    + rewrite bool_decide_false in Hp by done. specialize (Hr _ _ Hl). lia.
Qed.

(** Concurrent validation exceeds the limit by the number of workers at most.  When
    [n] goroutines validate payloads, however their steps interleave, a list of seen blocks
    has never more than [5 + n] entries; with the four of the blocks topic, nine. *)
Theorem concurrent_seen_bounded n v0 v ws q l :
  v_seenBlocks v0 = ∅ -> rtc workers_step (v0, replicate n Idle) (v, ws) ->
  v_seenBlocks v !! q = Some l -> (length l <= 5 + n)%nat.
Proof.
  intros He Hr Hl. assert (room n (v0, replicate n Idle)) as Hroom.
  { split; [apply length_replicate|]. intros q' l'. cbn. by rewrite He. }
  assert (room n (v, ws)) as [_ H'].
  { revert Hr Hroom. generalize (v0, replicate n Idle) (v, ws). clear. intros s s' Hr Hs.
    induction Hr as [|s s1 s' Hst Hr IH]; [done|]. by eapply IH, workers_keep_room. }
  specialize (H' _ _ Hl). cbn [fst snd] in H'. lia.
Qed.

(** Undisturbed, a worker does what [check_seen] says. *)
Lemma one_worker_step v v' w w' : worker_step (v, w) (v', w') -> workers_step (v, [w]) (v', [w']).
Proof. intros Hs. exact (one_worker v v' [w] 0 w w' eq_refl Hs). Qed.

Lemma check_seen_run p v x v' :
  check_seen p v = (Ok x, v') -> rtc workers_step (v, [Idle]) (v', [Idle]).
Proof.
  rewrite check_seen_unfold. destruct (seen_entry _ v) as [q v1] eqn:Ee.
  destruct (v_seenBlocks v1 !! q) as [l|] eqn:El; [|done]. intros Hx.
  assert (rtc workers_step (v, [Idle]) (v1, [Holding p q])) as Hget.
  { unfold seen_entry in Ee. destruct (lru_Get _ _) as [[x'|] lru] eqn:Eg; injection Ee as <- <-.
    - apply rtc_once, one_worker_step. by apply step_Get_ok.
    - eapply rtc_l; [apply one_worker_step, step_Get_miss; [done|]|apply rtc_once, one_worker_step].
      + apply not_elem_of_dom, is_fresh.
      + exact (step_Add (mkValidator lru _) p _). }
  etrans; [exact Hget|]. destruct (hasSeen (ep_BlockHash p) l) as [count has] eqn:Eh.
  pose proof (step_seen v1 p q l El) as Hseen. pose proof (step_unseen v1 p q l El) as Hunseen.
  rewrite Eh in Hseen, Hunseen. cbn [fst snd] in *.
  destruct (5 <? count)%nat; [|destruct has]; injection Hx as _ <-.
  1,2: by apply rtc_once, one_worker_step, Hseen.
  eapply rtc_l; [by apply one_worker_step, Hunseen|]. apply rtc_once, one_worker_step. by apply step_mark.
Qed.

(** Validation in sequence is one of the interleavings.  What the validator does to its
    memory, message after message, is a run of a single worker. *)
Theorem validator_is_a_worker cfg v0 v :
  new_validator v0 -> v_seenBlocks v0 = ∅ ->
  rtc (validator_step cfg) v0 v -> rtc workers_step (v0, [Idle]) (v, [Idle]).
Proof.
  intros Hn He Hr. assert (seen_inv v0) as Hi by (by apply (reached_inv cfg v0 v0)).
  clear Hn He. induction Hr as [|v0 v1 v2 Hs Hr IH]; [done|].
  etrans; [|by eapply IH, step_keeps_inv]. destruct Hs as (addr & now & message & r & Hx).
  apply validator_cases in Hx as [(p & x & _ & Hc & _)|(_ & -> & _)]; [|done].
  destruct (check_seen_spec _ _ _ _ Hi Hc) as (_ & -> & _). by eapply check_seen_run.
Qed.
End ValidatorSpec.

(** ** Message ids *)
Section MsgIdSpec.
Context `{Snappy} `{!LawfulSnappy}.

(** What a message says: the decompressed data, or the raw bytes if there is none. *)
Definition msg_contents (data : Data) : bool * Data :=
  match snappy_DecodedLen data, snappy_Decode data with
  | Ok dLen, Ok d => if dLen <=? maxGossipSize then (true, d) else (false, data)
  | _, _ => (false, data)
  end.

Lemma msg_id_input_eq topic data :
  msg_id_input topic data =
  Ok ((if (msg_contents data).1 then MessageDomainValidSnappy else MessageDomainInvalidSnappy) ++
      le_encode 8 (Z.of_nat (String.length topic)) ++ String.list_byte_of_string topic ++ (msg_contents data).2).
Proof.
  unfold msg_id_input, msg_contents. pose proof (snappy_total data) as [Hd Hl].
  destruct (snappy_DecodedLen data) as [n|e|]; [|done..].
  destruct (snappy_Decode data) as [d|e|]; [|case_if; done|done]. by case_if.
Qed.

(** A message id identifies the topic and the contents.  What is hashed for the ids of
    two messages is equal exactly if they are of the same topic and have the same contents:
    the same decompressed data, however it was compressed, or the same invalid bytes. *)
Theorem msg_id_identifies topic data topic' data' :
  Z.of_nat (String.length topic) < 2 ^ 64 -> Z.of_nat (String.length topic') < 2 ^ 64 ->
  msg_id_input topic data = msg_id_input topic' data' <->
  topic = topic' /\ msg_contents data = msg_contents data'.
Proof.
  intros Ht Ht'. rewrite !msg_id_input_eq. split; [|by intros [-> ->]].
  destruct (msg_contents data) as [b d], (msg_contents data') as [b' d']. cbn [fst snd].
  assert (forall A (x y : A), Ok x = Ok y -> x = y) as Hinj by congruence. intros E%Hinj.
  apply app_inj_1 in E as [Eb E]; [|by destruct b, b'].
  apply app_inj_1 in E as [El E]; [|by autorewrite with opstack].
  apply (f_equal le_decode) in El. rewrite !le_decode_encode in El by lia.
  assert (forall s, length (String.list_byte_of_string s) = String.length s) as Hlen.
  { intros s. rewrite <- (String.string_of_list_byte_of_string s) at 2.
    generalize (String.list_byte_of_string s). intros l. induction l as [|x l IH]; [done|]. cbn. by rewrite IH. }
  apply app_inj_1 in E as [Es ->]; [|rewrite !Hlen; lia].
  apply (f_equal String.string_of_list_byte) in Es. rewrite !String.string_of_list_byte_of_string in Es.
  split; [done|]. destruct b, b'; done.
Qed.
End MsgIdSpec.

(** ** From the publisher to the validator *)
Section Published.
Context `{Keccak} `{Snappy} `{!LawfulSnappy} `{BlockHashing}.
Context {PubKey PrivKey T : Type} `{Secp256k1 PubKey PrivKey} `{!LawfulSecp256k1 PubKey PrivKey} `{Topic T}.

Lemma publish_Ok cfg pooled p (t t' : T) (s s' : LocalSigner PrivKey) :
  payload_wf p -> total_size p < 4294967296 -> Z.of_nat (length pooled) < 4294967296 ->
  publisher_PublishL2Payload cfg pooled p (t, s) = (Ok tt, (t', s')) ->
  exists priv h sig, ls_priv s = Some priv /\ s' = s /\
    BlockSigningHash cfg (ssz_encoding p) = Ok h /\ crypto_Sign h priv = Ok sig /\
    topic_Publish (snappy_Encode (sig ++ ssz_encoding p)) t = (Ok tt, t').
Proof.
  intros Hwf Hs Hp. unfold publisher_PublishL2Payload.
  rewrite bind_Ok. intros (payloadData & ts & Hm%wrapE_Ok & Hx). unfold lift in Hm.
  rewrite MarshalSSZ_encoding in Hm by (done || apply Hwf). injection Hm as <- <-.
  apply bind_Ok in Hx as (sig & ts & Hsig%wrapE_Ok & Hx). unfold zoom in Hsig. cbn in Hsig.
  unfold LocalSigner_Sign in Hsig. destruct (ls_priv s) as [priv|] eqn:Es; [|by injection Hsig].
  destruct (SigningHash _ _ _) as [h|e|] eqn:Eh; [|by injection Hsig..]. injection Hsig as Hsig <-.
  exists priv, h, sig. unfold zoom in Hx. cbn in Hx. destruct (topic_Publish _ t) as [r t1] eqn:Et.
  injection Hx as -> <- <-. by split_and!.
Qed.

(** C22: what the sequencer publishes is accepted.  When a well-formed payload was published
    without an error, the message handed to the network carries this payload for every node
    of the same chain that is configured with the address of the signing key, as long as it
    arrives within a minute, the message is within the size limit, and the block hash is
    right: every check of the validator on the contents succeeds. *)
Theorem published_payload_accepted cfg cfg' pooled p (t t' : T) (s s' : LocalSigner PrivKey) priv now :
  payload_wf p -> total_size p <= maxGossipSize - 65 -> Z.of_nat (length pooled) < 4294967296 ->
  publisher_PublishL2Payload cfg pooled p (t, s) = (Ok tt, (t', s')) ->
  ls_priv s = Some priv -> address_of priv <> 0 -> L2ChainID cfg' = L2ChainID cfg ->
  now -u 60 <= ep_Timestamp p <= now +u 5 -> (CheckBlockHash p).2 = true ->
  exists message, topic_Publish message t = (Ok tt, t') /\
    check_message cfg' (address_of priv) now message = Ok (inr p).
Proof.
  intros Hwf Hs Hp Hx Hpriv Ha Hc Hw Hh. unfold maxGossipSize in Hs.
  apply publish_Ok in Hx as (priv' & h & sig & Hpriv' & -> & Hsh & Hsig & Ht); [|done|lia|done].
  rewrite Hpriv in Hpriv'. injection Hpriv' as <-.
  eexists. split; [exact Ht|]. apply check_message_accepts.
  destruct (sign_recover _ _ _ Hsig) as (pub & Hpub & Hadr). pose proof (wf_LogsBloom _ Hwf) as Hb.
  exists sig, (ssz_encoding p). split_and!; try done.
  - exact (snappy_roundtrip _).
  - exact (sign_length _ _ _ Hsig).
  - rewrite length_ssz_encoding by done. unfold total_size. lia.
  - rewrite length_ssz_encoding by done. unfold maxGossipSize. lia.
  - split; [done|]. exists h, pub. split_and!; [|done..]. unfold BlockSigningHash. by rewrite Hc.
  - by left.
  - lia.
  - lia.
Qed.
End Published.

(** ** From the network to the driver *)
Section ReceptionSpec.
Context `{Keccak} `{Snappy} `{!LawfulSnappy} `{BlockHashing}.
Context {PubKey PrivKey L : Type} `{Secp256k1 PubKey PrivKey} `{!LawfulSecp256k1 PubKey PrivKey}.
Context `{LRU L} `{!LawfulLRU L}.
Context {C D G R : Type} `{Screener C} `{PayloadSink D} `{PayloadSink G} `{RuntimeCfgL1Source R}.
Context `{CommitmentCodec}.
Implicit Types n : OpNode C D G R.

(** C2: a message of the network reaches the driver only with the sequencer's signature and
    satisfied commitments.  If a message changes the driver of a node, then it carries a
    payload, signed by the sequencer the node is configured with, of another peer, whose
    commitments the contract has confirmed, and the driver was given exactly this payload.
    A message never changes the sequencer address or publishes anything. *)
Theorem gossip_reaches_driver cfg now from message (v : Validator L) n r v' n' :
  gossip_message cfg now from message (v, n) = (r, (v', n')) ->
  n_gossip n' = n_gossip n /\ P2PSequencerAddress n' = P2PSequencerAddress n /\
  (n_l2Driver n' = n_l2Driver n \/
   exists p, acceptable cfg (P2PSequencerAddress n) now message p /\ n_p2pNode n <> Some from /\
     screened cfg p n (n_contract n') /\
     n_l2Driver n' = (sink_payload p (n_l2Driver n)).2).
Proof.
  unfold gossip_message, bind at 1, get. cbn [snd]. unfold bind at 1, zoom at 1. cbn [fst snd].
  unfold guardGossipValidator.
  destruct (BlocksValidator cfg (P2PSequencerAddress n) now message v) as [rv v1] eqn:Ev.
  apply validator_cases in Ev as [(p & x & Ha & _ & ->)|(_ & _ & ->)].
  2:{ destruct (check_message _ _ _ _) as [[x|p]|e|]; cbn; try case_bool_decide; cbn;
        unfold bind, ret; intros [= <- <- <-]; split_and!; auto. }
  destruct x as [x|e|]; [|intros [= <- <- <-]; by split_and!; auto|
    cbn; unfold bind, ret; intros [= <- <- <-]; by split_and!; auto].
  cbn [fst snd]. case_bool_decide as Hx; [subst x|unfold bind, ret; intros [= <- <- <-]; by split_and!; auto].
  unfold bind at 1, zoom. cbn [fst snd]. unfold subscriber_round, BlocksHandler.
  unfold bind at 1, attempt. destruct (OnUnsafeL2Payload cfg from p n) as [ro n1] eqn:Eo.
  intros Hn. assert (n' = n1) as ->.
  { unfold ret in Hn. destruct ro; by injection Hn. }
  apply received_payload_gated in Eo as (Hg & Haddr & Hcases). split_and!; [done..|].
  destruct Hcases as [(_ & _ & ->)|[(_ & _ & _ & Hd)|(Hf & Hsc & Hd & _)]]; [by left|by left|].
  right. exists p. by split_and!.
Qed.
End ReceptionSpec.
