(* ===== verification/GossipExamples.v ===== *)
(** * A concrete gossip network

    Snappy that stores, signatures that carry their signer, a cache that keeps everything:
    the libraries' promises hold of them, and the guarantees are applied to messages. *)
From stdpp Require Import relations.
From S2P Require Import Prelude GoErrors GoBytes EthTypes Geth Solabi Deposits Ssz Commitments Gossip GossipSpec.
#[local] Open Scope Z_scope.

Import ToyGeth CommitmentExamples SszExamples.

#[export] Instance toy_snappy : Snappy :=
  {| snappy_DecodedLen m := Ok (Z.of_nat (length m)); snappy_Decode m := Ok m; snappy_Encode d := d |}.
#[export] Instance toy_snappy_lawful : LawfulSnappy.
Proof. split; [done|by intros m d [= ->]|done]. Defined.

#[export] Instance toy_secp : Secp256k1 Z Z :=
  {| SigToPub h sig := if (length sig =? 65)%nat then Ok (be_decode (take 20 sig)) else Err (ErrNew "invalid signature length");
     PubkeyToAddress pub := pub;
     crypto_Sign h k := Ok (be_encode 20 k ++ replicate 45 Byte.x00);
     address_of k := k mod 256 ^ 20 |}.
#[export] Instance toy_secp_lawful : LawfulSecp256k1 Z Z.
Proof.
  split.
  - intros h s. cbn. by case_if.
  - intros h k s [= <-]. reflexivity.
  - intros h k s Hs. assert (s = be_encode 20 k ++ replicate 45 Byte.x00) as -> by (by injection Hs).
    eexists. split; [reflexivity|]. exact (be_decode_encode 20 k).
Defined.

#[export] Instance toy_hashing : BlockHashing := {| EmptyUncleHash := 0; DeriveSha txs := Z.of_nat (length txs); Header_Hash h := 2 * h_Number h |}.

#[export] Instance toy_lru : LRU (gmap Z nat) := {| lru_Get k l := (l !! k, l); lru_Add k v l := <[k := v]> l |}.
#[export] Instance toy_lru_lawful : LawfulLRU (gmap Z nat).
Proof.
  refine {| lru_find k l := l !! k |}; [done|done|intros; apply lookup_insert_eq|].
  intros k v k' l x Hk. cbn. by rewrite lookup_insert_ne by congruence.
Defined.

#[export] Instance toy_topic : Topic (list Data) := {| topic_Publish d := fun t => (Ok tt, t ++ [d]) |}.


Definition toy_message : Data := be_encode 20 77 ++ replicate 45 Byte.x00 ++ ssz_encoding toy_payload.
Definition toy_validator : Validator (gmap Z nat) := mkValidator ∅ ∅.
Abbreviation toy_now := 66.

Lemma toy_new : new_validator toy_validator.
Proof. done. Qed.

Lemma toy_accepted :
  BlocksValidator toy_cfg 77 toy_now toy_message toy_validator =
  (Ok (ValidationAccept, Some toy_payload), (BlocksValidator toy_cfg 77 toy_now toy_message toy_validator).2).
Proof. apply run_eq. vm_compute. reflexivity. Qed.

Lemma signing_hash_identifies_witness :
  let d := SigningDomainBlocksV1 in
  (d = d /\ Z.abs 10 = Z.abs (-10) /\ [Byte.x01] = [Byte.x01]) \/ collision [Byte.x01] [Byte.x01] \/
  collision (signing_input d 10 [Byte.x01]) (signing_input d (-10) [Byte.x01]).
Proof.
  intros d. apply (signing_hash_identifies d 10 [Byte.x01] d (-10) [Byte.x01]
    (Keccak256Hash (signing_input d 10 [Byte.x01]))); vm_compute; reflexivity.
Defined.

(** The message of the configured sequencer is accepted by a new validator. *)
Lemma validator_accepts_iff_witness :
  acceptable toy_cfg 77 toy_now toy_message toy_payload.
Proof.
  destruct (proj1 (validator_accepts_iff toy_cfg toy_validator toy_validator 77 toy_now toy_message _ _ toy_payload
    toy_new eq_refl (rtc_refl _ _) toy_accepted) eq_refl) as [Ha _]. exact Ha.
Defined.

Lemma validator_never_panics_witness :
  guardGossipValidator (BlocksValidator toy_cfg 77 toy_now (replicate 700 Byte.xff)) toy_validator =
  BlocksValidator toy_cfg 77 toy_now (replicate 700 Byte.xff) toy_validator.
Proof.
  exact (proj2 (validator_never_panics toy_cfg toy_validator toy_validator 77 toy_now (replicate 700 Byte.xff)
    toy_new eq_refl (rtc_refl _ _) (mk_is_Some _ _ eq_refl))).
Defined.

Lemma seen_blocks_bounded_witness :
  seen_at 6 (BlocksValidator toy_cfg 77 toy_now toy_message toy_validator).2 =
  seen_at 6 toy_validator ++ [12].
Proof.
  destruct (seen_blocks_bounded toy_cfg toy_validator toy_validator 77 toy_now toy_message _ _ 6
    toy_new eq_refl (rtc_refl _ _) toy_accepted) as (_ & _ & Hs). exact (Hs toy_payload eq_refl).
Defined.

Definition toy_seen (l : list Hash) : Validator (gmap Z nat) := mkValidator {[6 := 0%nat]} {[0%nat := l]}.

(** Two workers validate the same payload, and both find it unseen. *)
Lemma first_step (v v' : Validator (gmap Z nat)) w w' x :
  worker_step (v, w) (v', w') -> workers_step (v, [w; x]) (v', [w'; x]).
Proof. exact (one_worker v v' [w; x] 0 w w' eq_refl). Qed.
Lemma second_step (v v' : Validator (gmap Z nat)) w w' x :
  worker_step (v, w) (v', w') -> workers_step (v, [x; w]) (v', [x; w']).
Proof. exact (one_worker v v' [x; w] 1 w w' eq_refl). Qed.

Lemma toy_race : rtc workers_step (toy_validator, [Idle; Idle]) (toy_seen [12; 12], [Idle; Idle]).
Proof.
  etrans; [apply rtc_once, first_step; by apply (step_Get_miss toy_validator toy_payload 0%nat ∅)|].
  etrans; [apply rtc_once, first_step, step_Add|].
  etrans; [apply rtc_once, first_step; by apply (step_unseen _ _ _ [])|].
  etrans; [apply rtc_once, second_step; by apply (step_Get_ok _ toy_payload 0%nat {[6 := 0%nat]})|].
  etrans; [apply rtc_once, second_step; by apply (step_unseen _ _ _ [])|].
  etrans; [apply rtc_once, first_step; by apply (step_mark _ _ _ [])|].
  etrans; [apply rtc_once, second_step; by apply (step_mark _ toy_payload 0%nat [12])|].
  match goal with |- rtc _ ?a ?b => replace a with b by (vm_compute; reflexivity) end. apply rtc_refl.
Qed.

Lemma concurrent_seen_bounded_witness : (length [12; 12] <= 5 + 2)%nat.
Proof.
  exact (concurrent_seen_bounded 2 toy_validator (toy_seen [12; 12]) [Idle; Idle] 0 [12; 12]
    eq_refl toy_race eq_refl).
Defined.

Lemma validator_is_a_worker_witness :
  rtc workers_step (toy_validator, [Idle]) ((BlocksValidator toy_cfg 77 toy_now toy_message toy_validator).2, [Idle]).
Proof.
  refine (validator_is_a_worker toy_cfg toy_validator _ toy_new eq_refl (rtc_once _ _ _)).
  exists 77, toy_now, toy_message. eexists. exact toy_accepted.
Defined.

Lemma msg_id_identifies_witness :
  "/optimism/10/0/blocks"%string = blocksTopicV1 toy_cfg /\
  msg_contents [Byte.x01] = msg_contents [Byte.x01].
Proof. apply msg_id_identifies; vm_compute; reflexivity. Defined.

(** What a node publishes with the key 77, and a node that expects the address 77. *)
Lemma toy_published :
  publisher_PublishL2Payload toy_cfg [] toy_payload ([], mkLocalSigner (Some 77)) =
  (Ok tt, ([toy_message], mkLocalSigner (Some 77))).
Proof. vm_compute. reflexivity. Qed.

Lemma published_payload_accepted_witness :
  exists message, topic_Publish message [] = (Ok tt, [toy_message]) /\
    check_message toy_cfg (address_of 77) toy_now message = Ok (inr toy_payload).
Proof.
  refine (published_payload_accepted toy_cfg toy_cfg [] toy_payload [] [toy_message] (mkLocalSigner (Some 77))
    (mkLocalSigner (Some 77)) 77 toy_now toy_payload_wf _ _ toy_published eq_refl _ eq_refl _ eq_refl);
    by_decide.
Defined.

(** A message of the peer 2 reaches the driver of a node with the toy contract. *)
#[export] Instance toy_contract : Screener (list bool) :=
  {| NewSystemConfig _ := ret tt; Screen _ _ _ := fun s => match s with [] => (Err NotFound, []) | a :: s' => (Ok a, s') end |}.
#[export] Instance any_codec : CommitmentCodec :=
  {| abi_Pack p := Ok (pk_Transactions p); hexutil_Encode := String.string_of_list_byte; Hex2BytesFixed s n := replicate n Byte.x00 |}.

Lemma toy_received :
  gossip_message toy_cfg toy_now 2 toy_message (toy_validator, toy_node [true]) =
  (Ok ValidationAccept,
   ((gossip_message toy_cfg toy_now 2 toy_message (toy_validator, toy_node [true])).2.1,
    mkOpNode [] [toy_payload] [] (Some 1) true tt zeroL1 77)).
Proof. vm_compute. reflexivity. Qed.

Lemma gossip_reaches_driver_witness :
  exists p, acceptable toy_cfg 77 toy_now toy_message p /\ screened toy_cfg p (toy_node [true]) [].
Proof.
  destruct (gossip_reaches_driver toy_cfg toy_now 2 toy_message toy_validator (toy_node [true]) _ _ _ toy_received)
    as (_ & _ & [Hd|(p & Ha & _ & Hs & _)]); [discriminate Hd|]. exists p. split; [exact Ha|exact Hs].
Defined.
