(* ===== verification/Sequencing.v ===== *)
(** * Sequencing

    [op-node/rollup/driver/conf_depth.go], [origin_selector.go] and [sequencer.go]: the
    view of L1 behind a confirmation depth, the choice of the L1 origin of the next L2
    block, and the sequencer that starts and completes blocks through the engine queue. *)
From S2P Require Import Prelude GoErrors GoBytes EthTypes Geth Batch Batches Attributes EngineUpdate SyncStart EngineQueue Pipeline.
#[local] Open Scope Z_scope.

(** ** Confirmation depth *)
Section ConfDepth.
Context {X : Type} `{L1Chain X}.

(** [confDepth]; [l1Head] reads the head the driver knows at the time of the call. *)
Record confDepth := mkConfDepth { cd_fetcher : X; cd_l1Head : L1BlockRef; cd_depth : Z }.

Definition on_fetcher {A} (m : M X A) : M confDepth A :=
  zoom cd_fetcher (fun x c => mkConfDepth x (cd_l1Head c) (cd_depth c)) m.

(** [confDepth.L1BlockRefByNumber]. *)
Definition cd_L1BlockRefByNumber (num : Z) : M confDepth L1BlockRef :=
  c <- get ;;
  let l1Head := cd_l1Head c in
  if bool_decide (l1Head = zeroL1) then on_fetcher (l1c_L1BlockRefByNumber num)
  else if (num =? 0) || (cd_depth c =? 0) || (num +u cd_depth c <=? l1_Number l1Head)
  then on_fetcher (l1c_L1BlockRefByNumber num)
  else throw NotFound.

(** The other requests are those of the embedded fetcher. *)
#[global] Instance confDepth_chain : L1Chain confDepth :=
  {| l1c_L1BlockRefByLabel lbl := on_fetcher (l1c_L1BlockRefByLabel lbl);
     l1c_L1BlockRefByNumber := cd_L1BlockRefByNumber;
     l1c_L1BlockRefByHash h := on_fetcher (l1c_L1BlockRefByHash h) |}.
End ConfDepth.
Arguments confDepth : clear implicits.

(** ** The L1 origin of the next block *)
Section OriginSelector.
Context {X : Type} `{L1Chain X}.
Context (cfg : Config).

(** [L1OriginSelector.FindL1Origin], over the L1 blocks. *)
Definition FindL1Origin (l2Head : L2BlockRef) : M X L1BlockRef :=
  currentOrigin <- l1c_L1BlockRefByHash (id_Hash (l2_L1Origin l2Head)) ;;
  let pastSeqDrift :=
    l1_Time currentOrigin +u MaxSequencerDrift cfg <? l2_Time l2Head +u BlockTime cfg in
  nextOrigin <- attempt (l1c_L1BlockRefByNumber (l1_Number currentOrigin +u 1)) ;;
  match nextOrigin with
  | inr err =>
      if pastSeqDrift then throw (ErrWrap "cannot build next L2 block past current L1 origin" err)
      else ret currentOrigin
  | inl nextOrigin =>
      if l1_Time nextOrigin <=? l2_Time l2Head +u BlockTime cfg then ret nextOrigin
      else ret currentOrigin
  end.
End OriginSelector.

(** ** The sequencer *)

(** [derive.ResettableEngineControl]. *)
Class EngineControl (EC : Type) := {
  ec_UnsafeL2Head : EC -> L2BlockRef;
  ec_BuildingPayload : EC -> L2BlockRef * Z * bool;
  ec_StartPayload : L2BlockRef -> PayloadAttributes -> bool -> M EC (insertion unit);
  ec_ConfirmPayload : M EC (insertion ExecutionPayload);
  ec_CancelPayload : bool -> M EC unit;
  ec_Reset : EC -> EC }.

(** The derivation pipeline passes the calls on to its engine queue; [MeteredEngine]
    only adds measurements. *)
#[export] Instance pipeline_control {X E stream} `{Engine E} `{Keccak} `{TxCodec} (cfg : Config)
    : EngineControl (DerivationPipeline X E stream) :=
  {| ec_UnsafeL2Head dp := EngineQueue.unsafeHead (eng dp);
     ec_BuildingPayload dp := EngineQueue.BuildingPayload (eng dp);
     ec_StartPayload := StartPayload;
     ec_ConfirmPayload := ConfirmPayload cfg;
     ec_CancelPayload := CancelPayload;
     ec_Reset := Pipeline.Reset |}.

(** [sealingDuration] and a second, in nanoseconds. *)
Definition sealingDuration : Z := 50 * 1000000.
Definition Second : Z := 1000000000.

Section Sequencer.
Context {EC B X : Type} `{EngineControl EC} `{AttributesBuilder B} `{L1Chain X}.
Context (config : Config).

(** [Sequencer]; times are in nanoseconds, and the present time is an argument of the
    operations that read it. *)
Record Sequencer := mkSequencer {
  sq_engine : EC;
  sq_attrBuilder : B;
  sq_l1 : X;
  sq_nextAction : Z }.

Definition on_ec {A} (m : M EC A) : M Sequencer A :=
  zoom sq_engine (fun e d => mkSequencer e (sq_attrBuilder d) (sq_l1 d) (sq_nextAction d)) m.
Definition on_builder {A} (m : M B A) : M Sequencer A :=
  zoom sq_attrBuilder (fun b d => mkSequencer (sq_engine d) b (sq_l1 d) (sq_nextAction d)) m.
Definition on_selector {A} (m : M X A) : M Sequencer A :=
  zoom sq_l1 (fun x d => mkSequencer (sq_engine d) (sq_attrBuilder d) x (sq_nextAction d)) m.
Definition set_nextAction (z : Z) (d : Sequencer) : Sequencer :=
  mkSequencer (sq_engine d) (sq_attrBuilder d) (sq_l1 d) z.

(** [attrs.NoTxPool = b]. *)
Definition set_NoTxPool (b : bool) (attrs : PayloadAttributes) : PayloadAttributes :=
  mkAttributes (pa_Timestamp attrs) (pa_PrevRandao attrs) (pa_SuggestedFeeRecipient attrs)
    (pa_Transactions attrs) b (pa_GasLimit attrs).

(** The attributes [StartBuildingBlock] asks the engine to build on [l2Head]. *)
Definition sequencer_attributes (l2Head : L2BlockRef) : M Sequencer PayloadAttributes :=
  l1Origin <- on_selector (FindL1Origin config l2Head) ;;
  if negb ((id_Hash (l2_L1Origin l2Head) =? l1_ParentHash l1Origin)
           || (id_Hash (l2_L1Origin l2Head) =? l1_Hash l1Origin)) then
    throw (NewResetError (ErrNew "cannot build new L2 block with L1 origin"))
  else
    attrs <- on_builder (PreparePayloadAttributes l2Head (l1_ID l1Origin)) ;;
    ret (set_NoTxPool (l1_Time l1Origin +u MaxSequencerDrift config <? pa_Timestamp attrs) attrs).

(** [Sequencer.StartBuildingBlock]. *)
Definition StartBuildingBlock : M Sequencer unit :=
  d <- get ;;
  let l2Head := ec_UnsafeL2Head (sq_engine d) in
  attrs <- sequencer_attributes l2Head ;;
  started <- on_ec (ec_StartPayload l2Head attrs false) ;;
  match started with
  | inr (_, err) => throw (ErrWrap "failed to start building on top of L2 chain" err)
  | inl _ => ret tt
  end.

(** [Sequencer.CompleteBuildingBlock] and [Sequencer.CancelBuildingBlock]. *)
Definition CompleteBuildingBlock : M Sequencer ExecutionPayload :=
  payload <- on_ec ec_ConfirmPayload ;;
  match payload with
  | inr (_, err) => throw (ErrWrap "failed to complete building block" err)
  | inl payload => ret payload
  end.
Definition CancelBuildingBlock : M Sequencer unit := attempt (on_ec (ec_CancelPayload true)) ;;; ret tt.

(** [Sequencer.BuildingOnto]. *)
Definition BuildingOnto (d : Sequencer) : L2BlockRef := (ec_BuildingPayload (sq_engine d)).1.1.

(** The reaction to an error of building: whether the block in progress is cancelled
    depends on the caller; only critical errors are returned. *)
Definition hold_off (now : Z) : M Sequencer unit :=
  modify (set_nextAction (now + Second * BlockTime config)).
Definition retry_soon (now : Z) : M Sequencer unit := modify (set_nextAction (now + Second)).
Definition reset_engine : M Sequencer unit :=
  modify (fun d => mkSequencer (ec_Reset (sq_engine d)) (sq_attrBuilder d) (sq_l1 d) (sq_nextAction d)).

(** [Sequencer.RunNextSequencerAction], at the time [now]. *)
Definition RunNextSequencerAction (now : Z) : M Sequencer (option ExecutionPayload) :=
  d <- get ;;
  let '(_, buildingID, safe) := ec_BuildingPayload (sq_engine d) in
  if negb (buildingID =? 0) then
    if safe : bool then hold_off now ;;; ret None
    else
      payload <- attempt CompleteBuildingBlock ;;
      match payload with
      | inl payload => ret (Some payload)
      | inr err =>
          if errors_Is err ErrCritical then throw err
          else
            (if errors_Is err ErrReset then hold_off now ;;; CancelBuildingBlock ;;; reset_engine
             else if errors_Is err ErrTemporary then retry_soon now
             else retry_soon now ;;; CancelBuildingBlock) ;;;
            ret None
      end
  else
    r <- attempt StartBuildingBlock ;;
    match r with
    | inl _ => ret None
    | inr err =>
        if errors_Is err ErrCritical then throw err
        else (if errors_Is err ErrReset then hold_off now ;;; reset_engine else retry_soon now) ;;; ret None
    end.

(** [Sequencer.PlanNextSequencerAction], at the time [now]: the delay until the next
    action. *)
Definition PlanNextSequencerAction (now : Z) (d : Sequencer) : Z :=
  let '(buildingOnto, buildingID, safe) := ec_BuildingPayload (sq_engine d) in
  if safe : bool then Second * BlockTime config
  else
    let head := ec_UnsafeL2Head (sq_engine d) in
    let delay := sq_nextAction d - now in
    if (0 <? delay) && (l2_Hash buildingOnto =? l2_Hash head) then delay
    else
      let blockTime := BlockTime config * Second in
      let payloadTime := Second * (l2_Time head +u BlockTime config) in
      let remainingTime := payloadTime - now in
      if negb (buildingID =? 0) && (l2_Hash buildingOnto =? l2_Hash head) then
        if remainingTime <? sealingDuration then 0 else remainingTime - sealingDuration
      else if blockTime <? remainingTime then remainingTime - blockTime else 0.
End Sequencer.
Arguments Sequencer : clear implicits.

(** ** What a sequencer's block promises *)
Section OriginProperties.
Context {X : Type} `{L1Chain X}.
Context (cfg : Config).

(** The outcomes of the origin selection. *)
Lemma FindL1Origin_Ok l2Head x o x' :
  FindL1Origin cfg l2Head x = (Ok o, x') ->
  exists current x1, l1c_L1BlockRefByHash (id_Hash (l2_L1Origin l2Head)) x = (Ok current, x1) /\
    let time := l2_Time l2Head +u BlockTime cfg in
    (o = current /\ time <= l1_Time current +u MaxSequencerDrift cfg \/
     exists next, l1c_L1BlockRefByNumber (l1_Number current +u 1) x1 = (Ok next, x') /\
       (o = next /\ l1_Time next <= time \/ o = current /\ time < l1_Time next)).
Proof.
  unfold FindL1Origin. intros (current & x1 & Hc & Hx)%bind_Ok.
  exists current, x1. split; [done|]. cbv zeta.
  apply bind_Ok in Hx as (next & x2 & Hn & Hx). destruct next as [next|err].
  - rewrite attempt_Ok_inl in Hn. right. exists next.
    case_if_in Hx; injection Hx as <- <-; (split; [done|]); [left|right]; (split; [done|]); lia.
  - case_if_in Hx; [done|]. injection Hx as <- <-. left. split; [done|lia].
Qed.
End OriginProperties.

(** What a builder of attributes promises the sequencer about the time of the block. *)
Definition times_blocks {B} `{AttributesBuilder B} (cfg : Config) : Prop :=
  forall l2Head epoch (b b' : B) attrs, PreparePayloadAttributes l2Head epoch b = (Ok attrs, b') ->
    pa_Timestamp attrs = l2_Time l2Head +u BlockTime cfg.

(** The two L1 blocks a verifier with the safe head [l2Head] knows are those the source
    [x] answers: the origin of [l2Head], which is not younger than the next block, and,
    if there is one, the block after it. *)
Definition knows_origins {X} `{L1Chain X} (cfg : Config) (l2Head : L2BlockRef) (x : X)
    (l1Blocks : list L1BlockRef) : Prop :=
  forall current x1, l1c_L1BlockRefByHash (id_Hash (l2_L1Origin l2Head)) x = (Ok current, x1) ->
    l1Blocks !! 0%nat = Some current /\ l1_Time current <= l2_Time l2Head +u BlockTime cfg /\
    forall next x2, l1c_L1BlockRefByNumber (l1_Number current +u 1) x1 = (Ok next, x2) ->
      l1Blocks !! 1%nat = Some next /\ l1_Number next = l1_Number current +u 1 /\
      l1_Number current < l1_Number next.

(** The batch of a block built on [l2Head] from [attrs] with the L1 origin [o]: the pool
    may add transactions unless the attributes forbid it, but no deposits; the batch is
    included within the sequencing window. *)
Record batch_of_block (cfg : Config) (l2Head : L2BlockRef) (o : L1BlockRef) (attrs : PayloadAttributes)
    (batch : BatchWithL1InclusionBlock) : Prop := {
  bb_parent : bt_ParentHash batch = l2_Hash l2Head;
  bb_timestamp : bt_Timestamp batch = pa_Timestamp attrs;
  bb_epoch : bt_EpochNum batch = l1_Number o /\ bt_EpochHash batch = l1_Hash o;
  bb_pool : pa_NoTxPool attrs = true -> bt_Transactions batch = [];
  bb_txs : Forall sequencer_tx (bt_Transactions batch);
  bb_window : l1_Number (L1InclusionBlock batch) <= bt_EpochNum batch +u SeqWindowSize cfg }.

(** A run that does not end in an error. *)
Definition no_error {A} (r : result A) : Prop := match r with Err _ => False | _ => True end.

Section SequencerProperties.
Context {EC B X : Type} `{EngineControl EC} `{AttributesBuilder B} `{L1Chain X}.
Context (config : Config).
Implicit Types d : Sequencer EC B X.

Lemma sequencer_attributes_Ok l2Head d attrs d' :
  sequencer_attributes config l2Head d = (Ok attrs, d') ->
  exists o x' b b' attrs0,
    FindL1Origin config l2Head (sq_l1 d) = (Ok o, x') /\
    (id_Hash (l2_L1Origin l2Head) = l1_ParentHash o \/ id_Hash (l2_L1Origin l2Head) = l1_Hash o) /\
    PreparePayloadAttributes l2Head (l1_ID o) b = (Ok attrs0, b') /\
    attrs = set_NoTxPool (l1_Time o +u MaxSequencerDrift config <? pa_Timestamp attrs0) attrs0.
Proof.
  unfold sequencer_attributes. intros (o & d1 & Ho & Hx)%bind_Ok.
  unfold on_selector, zoom in Ho. destruct (FindL1Origin _ _ _) as [ro x'] eqn:Hf.
  injection Ho as -> <-. case_if_in Hx; [done|].
  apply bind_Ok in Hx as (attrs0 & d2 & Ha & Hx). injection Hx as <- <-.
  unfold on_builder, zoom in Ha. destruct (PreparePayloadAttributes _ _ _) as [ra b'] eqn:Hp.
  injection Ha as -> <-. eexists o, x', _, b', attrs0. split_and!; [done|lia|done|done].
Qed.

(** C31: a block the sequencer builds can be derived from its batch.  Take the attributes
    of the sequencer for a block on [l2Head], with the L1 origin [o] it selected, and the
    batch of a block built from them.  A verifier with the safe head [l2Head] that knows
    the same L1 origins accepts the batch when it is included in time: the selection of
    the origin and the switch of the transaction pool never leave the sequencer drift and
    the order of origins the derivation enforces. *)
Theorem sequenced_block_accepted l2Head d attrs d' o x' batch l1Blocks :
  sequencer_attributes config l2Head d = (Ok attrs, d') ->
  FindL1Origin config l2Head (sq_l1 d) = (Ok o, x') ->
  times_blocks (B := B) config ->
  knows_origins config l2Head (sq_l1 d) l1Blocks ->
  batch_of_block config l2Head o attrs batch ->
  CheckBatch config l1Blocks l2Head batch = BatchAccept.
Proof.
  intros (o' & x2 & b & b' & attrs0 & Ho & _ & Hp & ->)%sequencer_attributes_Ok Ho' Ht Hk [Hpa Hts [Hn Hh] Hpool Htx Hw].
  assert (o' = o) as -> by congruence. clear Ho.
  apply Ht in Hp. cbn in Hts, Hpool. rewrite Hp in *.
  destruct (FindL1Origin_Ok _ _ _ _ _ Ho') as (current & x1 & Hc & Hcase).
  destruct (Hk _ _ Hc) as (Hb0 & Htc & Hnext). cbv zeta in Hcase.
  assert (Hdrift : bt_Timestamp batch <= l1_Time o +u MaxSequencerDrift config \/ bt_Transactions batch = []).
  { rewrite Hts. destruct (Z.ltb_spec (l1_Time o +u MaxSequencerDrift config) (l2_Time l2Head +u BlockTime config)); auto. }
  apply CheckBatch_accept. exists current, o.
  split; try done.
  - split; [done|]. destruct Hcase as [[-> _]|(next & Hq & [[-> _]|[-> _]])]; [by left| |by left].
    destruct (Hnext _ _ Hq) as (? & ? & ?). right. split_and!; [lia|congruence|done].
  - rewrite Hts. destruct Hcase as [[-> _]|(next & Hq & [[-> ?]|[-> _]])]; lia.
  - unfold drift_ok. rewrite Hts in *.
    destruct Hcase as [[-> ?]|(next & Hq & Hcase)]; [by left|].
    destruct (Hnext _ _ Hq) as (? & ? & ?), Hdrift as [?|Hempty]; [by left|]. right. split; [done|].
    destruct Hcase as [[-> ?]|[-> ?]]; intros; [lia|by eexists].
Qed.

Lemma on_ec_Ok {A} (m : M EC A) d a d' :
  on_ec m d = (Ok a, d') -> m (sq_engine d) = (Ok a, sq_engine d').
Proof. unfold on_ec, zoom. destruct (m (sq_engine d)) as [r e]. by intros [= -> <-]. Qed.

Lemma CancelBuildingBlock_Ok d r d' :
  CancelBuildingBlock d = (r, d') -> no_error r /\ sq_nextAction d' = sq_nextAction d.
Proof.
  unfold CancelBuildingBlock, on_ec, attempt, bind, zoom. destruct (ec_CancelPayload true (sq_engine d)) as [[?|?|] e];
    by intros [= <- <-].
Qed.

(** The reaction to a failure to complete a block does not fail, and puts off the next
    action. *)
Lemma backoff_after_failure (b1 b2 : bool) now d r d' :
  (if b1 then hold_off config now ;;; CancelBuildingBlock ;;; reset_engine
   else if b2 then retry_soon now
   else retry_soon now ;;; CancelBuildingBlock) d = (r, d') ->
  no_error r /\ (sq_nextAction d' = now + Second \/ sq_nextAction d' = now + Second * BlockTime config).
Proof.
  destruct b1; [|destruct b2; [by intros [= <- <-]; split; [|left]|]].
  - intros Hx. unfold hold_off, modify, bind at 1 in Hx.
    apply bind_cases in Hx as [(? & d1 & Hc & Hx)|[(e & Hc & _)|[Hc ->]]];
      apply CancelBuildingBlock_Ok in Hc as [Hno Hc]; [injection Hx as <- <-|done|]; split; auto.
  - unfold retry_soon, modify, bind. intros [Hno Hc]%CancelBuildingBlock_Ok. auto.
Qed.

(** One action of the sequencer.  The only errors it returns are critical ones.  A
    block under construction for the safe chain is left alone, the action only backs off
    for a block time.  A payload is returned exactly when a block was under construction
    and the engine confirmed it.  In all other cases nothing is returned: either the
    construction of the next block was started, or the next action is put off by at least
    a second, or by a block time. *)
Theorem RunNextSequencerAction_outcomes now d r d' :
  RunNextSequencerAction config now d = (r, d') ->
  let '(_, buildingID, safe) := ec_BuildingPayload (sq_engine d) in
  match r with
  | Err e => errors_Is e ErrCritical = true
  | Ok (Some payload) => buildingID <> 0 /\ safe = false /\
      ec_ConfirmPayload (sq_engine d) = (Ok (inl payload), sq_engine d')
  | Ok None =>
      if decide (buildingID = 0) then
        StartBuildingBlock config d = (Ok tt, d') \/
        sq_nextAction d' = now + Second \/ sq_nextAction d' = now + Second * BlockTime config
      else if safe then d' = set_nextAction (now + Second * BlockTime config) d
      else sq_nextAction d' = now + Second \/ sq_nextAction d' = now + Second * BlockTime config
  | Panic => True
  end.
Proof.
  unfold RunNextSequencerAction. intros Hrun.
  apply bind_cases in Hrun as [(? & ? & [= <- <-] & Hrun)|[(? & [=] & _)|[[=] _]]].
  destruct (ec_BuildingPayload (sq_engine d)) as [[onto buildingID] safe].
  destruct (Z.eqb_spec buildingID 0) as [->|Hid]; cbn [negb] in Hrun.
  - apply bind_cases in Hrun as [(res & d1 & Hs & Hrun)|[(e & Hs & _)|[_ ->]]]; [|by apply attempt_not_Err in Hs|done].
    destruct res as [[]|err]; [rewrite attempt_Ok_inl in Hs; injection Hrun as <- <-; by left|].
    case_if_in Hrun; [by injection Hrun as <- _|].
    case_if_in Hrun; injection Hrun as <- <-; right; [by right|by left].
  - rewrite decide_False by done.
    destruct safe; [by injection Hrun as <- <-|].
    apply bind_cases in Hrun as [(res & d1 & Hs & Hrun)|[(e & Hs & _)|[_ ->]]]; [|by apply attempt_not_Err in Hs|done].
    destruct res as [payload|err].
    + injection Hrun as <- <-. rewrite attempt_Ok_inl in Hs. split_and!; [done..|].
      unfold CompleteBuildingBlock in Hs. apply bind_Ok in Hs as ([p|[? e]] & d2 & Hc & Hs); [|done].
      injection Hs as <- <-. by apply on_ec_Ok in Hc.
    + case_if_in Hrun; [by injection Hrun as <- _|].
      apply bind_cases in Hrun as [([] & d2 & Hb & Hrun)|[(e & Hb & _)|[_ ->]]]; [|exfalso|done].
      * injection Hrun as <- <-. by apply backoff_after_failure in Hb as [_ Hb].
      * by apply backoff_after_failure in Hb as [Hb _].
Qed.
End SequencerProperties.

(** ** The builder of the pipeline keeps its promise *)
Lemma fab_times_blocks {E1 E2} `{L1ReceiptsFetcher E1} `{SystemConfigL2Fetcher E2} `{Keccak} `{TxCodec}
    (cfg : Config) : @times_blocks (FetchingAttributesBuilder E1 E2) (fab_builder cfg) cfg.
Proof.
  intros l2Head epoch b b' attrs Hp. apply PreparePayloadAttributes_ok in Hp as (? & inp & _ & _ & Ha).
  by destruct Ha as (_ & ? & _ & ->).
Qed.

(** ** Examples *)
Module SequencingExamples.
Import ToyGeth AttributesExamples.

(** An L1 chain with the origin 105 of the toy parent and a later block. *)
Definition origin5 : L1BlockRef := mkL1BlockRef 105 5 104 60.
Definition origin6 : L1BlockRef := mkL1BlockRef 106 6 105 72.
#[export] Instance origin_chain : L1Chain unit :=
  {| l1c_L1BlockRefByLabel _ := ret origin6;
     l1c_L1BlockRefByNumber k := if k =? 6 then ret origin6 else throw NotFound;
     l1c_L1BlockRefByHash h := if h =? 105 then ret origin5 else throw NotFound |}.

(** An engine with at most one block under construction, on the toy parent. *)
#[export] Instance toy_control : EngineControl Z :=
  {| ec_UnsafeL2Head _ := toy_parent;
     ec_BuildingPayload id := (toy_parent, id, false);
     ec_StartPayload _ _ _ := fun _ => (Ok (inl tt), 7);
     ec_ConfirmPayload := fun _ => (Ok (inl toy_block), 0);
     ec_CancelPayload _ := fun _ => (Ok tt, 0);
     ec_Reset _ := 0 |}.

Definition toy_sequencer (id : Z) : Sequencer Z (FetchingAttributesBuilder unit unit) unit :=
  mkSequencer id toy_fab tt 0.

Definition sequenced_attrs : PayloadAttributes :=
  match (sequencer_attributes toy_cfg toy_parent (toy_sequencer 0)).1 with
  | Ok attrs => attrs
  | _ => mkAttributes 0 0 0 [] true None
  end.
Definition sequenced_batch : BatchWithL1InclusionBlock :=
  mkBatchL1 origin6 (mkBatchData (mkBatchV1 900 5 105 66 [[Byte.x02]])).

Lemma sequenced_block_accepted_witness :
  pa_NoTxPool sequenced_attrs = false /\
  CheckBatch toy_cfg [origin5; origin6] toy_parent sequenced_batch = BatchAccept.
Proof.
  split; [vm_compute; reflexivity|].
  apply (sequenced_block_accepted toy_cfg toy_parent (toy_sequencer 0) sequenced_attrs (toy_sequencer 0)
    origin5 tt sequenced_batch).
  - vm_compute; reflexivity.
  - vm_compute; reflexivity.
  - apply fab_times_blocks.
  - intros current x1 [= <- <-]. split_and!; [done|by_decide|].
    intros next x2 [= <- <-]. split_and!; [done|vm_compute; reflexivity|by_decide].
  - split; [done|vm_compute; reflexivity|by_decide|done| |by_decide].
    repeat constructor. by exists Byte.x02, [].
Defined.

Lemma RunNextSequencerAction_outcomes_witness :
  7 <> 0 /\ false = false /\ ec_ConfirmPayload 7 = (Ok (inl toy_block), 0).
Proof.
  assert (Hrun : RunNextSequencerAction toy_cfg 1000 (toy_sequencer 7) = (Ok (Some toy_block), toy_sequencer 0))
    by (vm_compute; reflexivity).
  exact (RunNextSequencerAction_outcomes toy_cfg 1000 _ _ _ Hrun).
Defined.
End SequencingExamples.
