(* ===== verification/Driver.v ===== *)
(** * The event loop of the node

    [op-node/rollup/driver]: [l1_state.go], [driver.go] and [state.go], with the backoff of
    [op-service/retry/strategies.go].  One goroutine owns the derivation pipeline and
    the sequencer; timers and the calls of other goroutines reach it through channels.  The
    goroutine, its callers and its timers are a step relation. *)
From S2P Require Import Prelude GoErrors GoBytes EthTypes Geth Payloads Attributes L1Stages EngineUpdate SyncStart EngineQueue Pipeline Sequencing.
#[local] Open Scope Z_scope.

(** ** L1 state *)

Record L1State := mkL1State {
  l1s_L1Head : L1BlockRef;
  l1s_L1Safe : L1BlockRef;
  l1s_L1Finalized : L1BlockRef }.

Definition NewL1State : L1State := mkL1State zeroL1 zeroL1 zeroL1.

(** [HandleNewL1HeadBlock], [HandleNewL1SafeBlock] and [HandleNewL1FinalizedBlock]. *)
Definition HandleNewL1HeadBlock (head : L1BlockRef) (s : L1State) : L1State :=
  mkL1State head (l1s_L1Safe s) (l1s_L1Finalized s).
Definition HandleNewL1SafeBlock (safe : L1BlockRef) (s : L1State) : L1State :=
  mkL1State (l1s_L1Head s) safe (l1s_L1Finalized s).
Definition HandleNewL1FinalizedBlock (finalized : L1BlockRef) (s : L1State) : L1State :=
  mkL1State (l1s_L1Head s) (l1s_L1Safe s) finalized.

(** ** Backoff *)

(** The conversion of a [float64] beyond the range of [int]: Go leaves the result to the
    implementation. *)
Class FloatConversion := { out_of_range : Z -> Z }.

(** [int(x)] for a float with an integral value. *)
Definition float_to_int `{FloatConversion} (x : Z) : Z :=
  if (- 9223372036854775808 <=? x) && (x <? 9223372036854775808) then x else out_of_range x.

Definition Millisecond : Z := 1000000.

(** [ExponentialStrategy]; durations are [int64]s in nanoseconds. *)
Record ExponentialStrategy := mkExponential { es_Min : Z; es_Max : Z; es_MaxJitter : Z }.

(** [ExponentialStrategy.Duration]; [rand] is what [rand.Int63n] returns.  [math.Pow(2,
    attempt) * 1000] is exact as a [float64] wherever its value is in the range of [int]. *)
Definition Duration `{FloatConversion} (e : ExponentialStrategy) (attempt rand : Z) : Z :=
  let jitter := if 0 <? es_MaxJitter e then rand else 0 in
  let dur := i64 (es_Min e + i64 (float_to_int (2 ^ attempt * 1000) * Millisecond)) in
  let dur := i64 (dur + jitter) in
  if es_Max e <? dur then es_Max e else dur.

(** [Exponential]. *)
Definition Exponential : ExponentialStrategy := mkExponential 0 (10000 * Millisecond) (250 * Millisecond).

(** ** What the driver uses *)

(** [Config] of the driver. *)
Record DriverConfig := mkDriverConfig {
  VerifierConfDepth : Z;
  SequencerConfDepth : Z;
  SequencerEnabled : bool;
  SequencerStopped : bool;
  SequencerMaxSafeLag : Z }.

Definition set_SequencerStopped (b : bool) (c : DriverConfig) : DriverConfig :=
  mkDriverConfig (VerifierConfDepth c) (SequencerConfDepth c) (SequencerEnabled c) b (SequencerMaxSafeLag c).

(** [DerivationPipeline] of [driver.go]; the calls that the sequencer makes too are those of
    [EngineControl].  [der_UnsafeL2SyncTarget] is [None] where it panics; [der_SetL1Head] is the effect of a new L1 head on the closure
    [l1State.L1Head] that the fetchers of the pipeline hold.  A step that returns [None] ran
    out of fuel. *)
Class Derivation (D : Type) := {
  der_control :: EngineControl D;
  der_Step : M D (option unit);
  der_AddUnsafePayload : option ExecutionPayload -> D -> option (result unit * D);
  der_UnsafeL2SyncTarget : D -> option L2BlockRef;
  der_Finalize : L1BlockRef -> D -> D;
  der_FinalizedL1 : D -> L1BlockRef;
  der_Finalized : D -> L2BlockRef;
  der_SafeL2Head : D -> L2BlockRef;
  der_Origin : D -> L1BlockRef;
  der_EngineReady : D -> bool;
  der_EngineSyncTarget : D -> L2BlockRef;
  der_SetL1Head : L1BlockRef -> D -> D }.

(** [SequencerStateListener], [Network] and [AltSync]. *)
Class SequencerStateListener (N : Type) := {
  sl_SequencerStarted : M N unit;
  sl_SequencerStopped : M N unit }.
Class Network (W : Type) := { net_PublishL2Payload : ExecutionPayload -> M W unit }.
Class AltSync (A : Type) := { RequestL2Range : L2BlockRef -> L2BlockRef -> M A unit }.

(** A [time.Timer]: the delay it is armed with, and whether its channel is full. *)
Record Timer := mkTimer { tm_armed : option Z; tm_full : bool }.

Definition tm_fire (t : Timer) : Timer := mkTimer None true.

(** ** Calls of other goroutines *)

(** What the methods of [Driver] send to the loop. *)
Inductive request :=
  | OnL1Head (unsafe : L1BlockRef)
  | OnL1Safe (safe : L1BlockRef)
  | OnL1Finalized (finalized : L1BlockRef)
  | OnUnsafeL2Payload (payload : ExecutionPayload)
  | ResetDerivationPipeline
  | StartSequencer (blockHash : Hash)
  | StopSequencer
  | SequencerActive
  | SyncStatus_
  | BlockRefWithStatus (num : Z).

(** The channels of the loop; the last one is not buffered. *)
Inductive channel :=
  | l1HeadSig | l1SafeSig | l1FinalizedSig | unsafeL2Payloads | forceReset
  | startSequencer | stopSequencer | sequencerActive | stateReq.

#[export] Instance channel_eq_dec : EqDecision channel.
Proof. solve_decision. Defined.

Definition channel_of (r : request) : channel :=
  match r with
  | OnL1Head _ => l1HeadSig
  | OnL1Safe _ => l1SafeSig
  | OnL1Finalized _ => l1FinalizedSig
  | OnUnsafeL2Payload _ => unsafeL2Payloads
  | ResetDerivationPipeline => forceReset
  | StartSequencer _ => startSequencer
  | StopSequencer => stopSequencer
  | SequencerActive => sequencerActive
  | SyncStatus_ | BlockRefWithStatus _ => stateReq
  end.
Definition channel_cap (c : channel) : nat := match c with stateReq => 0 | _ => 10 end.

(** What the loop sends back: [NoAnswer] where the caller waits for none, [Done] for a
    channel that is closed. *)
Inductive answer :=
  | NoAnswer
  | Done
  | StartError (err : error)
  | Stopped (hash : Hash)
  | StopError (err : error)
  | Active (b : bool).

(** What a call returns. *)
Inductive returned :=
  | Answered (a : answer)
  | CtxErr
  | NotEnabled
  | Status (status : SyncStatus)
  | RefStatus (ref : L2BlockRef + error) (status : SyncStatus).

(** A call: it waits to send its request, for the answer, it holds the loop, or it has
    returned; with the channel for the answer, which has room for one. *)
Inductive phase := Sending | Waiting | Snapshot | Returned (r : returned).
Record call := mkCall { c_request : request; c_phase : phase; c_respCh : option answer }.

Definition set_phase (p : phase) (c : call) : call := mkCall (c_request c) p (c_respCh c).
Definition set_respCh (a : option answer) (c : call) : call := mkCall (c_request c) (c_phase c) a.

(** The start of a call: the calls that switch the sequencer return at once when it is not
    enabled. *)
Definition new_call (enabled : bool) (r : request) : call :=
  mkCall r
    (match r with
     | StartSequencer _ | StopSequencer => if enabled then Sending else Returned NotEnabled
     | SequencerActive => if enabled then Sending else Returned (Answered (Active false))
     | _ => Sending
     end) None.

(** Whether the caller waits for an answer. *)
Definition awaits_answer (r : request) : bool :=
  match r with
  | ResetDerivationPipeline | StartSequencer _ | StopSequencer | SequencerActive => true
  | _ => false
  end.

(** ** The loop *)

(** What the clock, the random source and the goroutine of the sequencer's timer contribute
    to a step: the present time, a random jitter, and whether the timer fires while it is
    being reset. *)
Record inputs := mkInputs { in_now : Z; in_rand : Z; in_race : bool }.

(** What the loop does after an event. *)
Inductive outcome := Continue | Return.

(** The events of the loop that are not requests. *)
Inductive tick := SequencerTick | AltSyncTick | DelayedStepTick | StepTick.

Section Loop.
Context {D B Y N W A L : Type} `{FloatConversion} `{Derivation D} `{AttributesBuilder B} `{L1Chain Y}.
Context `{SequencerStateListener N} `{Network W} `{AltSync A}.
Context (L2BlockRefByNumber : Z -> M L L2BlockRef).
Context (config : Config).

(** The fields of [Driver] that the loop uses and its local variables.  The sequencer's
    engine is the derivation pipeline; [stepReqCh] has room for one request. *)
Record loop := mkLoop {
  ls_l1State : L1State;
  ls_sequencer : Sequencer D B (confDepth Y);
  ls_driverConfig : DriverConfig;
  ls_sequencerNotifs : N;
  ls_network : option W;
  ls_altSync : A;
  ls_stepReqCh : bool;
  ls_delayedStepReq : option Z;
  ls_stepAttempts : Z;
  ls_sequencerCh : bool;
  ls_sequencerTimer : Timer;
  ls_lastUnsafeL2 : L2BlockRef }.

Definition derivation (s : loop) : D := sq_engine (ls_sequencer s).

(** Assignments. *)
Definition set_l1State v s := mkLoop v (ls_sequencer s) (ls_driverConfig s) (ls_sequencerNotifs s) (ls_network s)
  (ls_altSync s) (ls_stepReqCh s) (ls_delayedStepReq s) (ls_stepAttempts s) (ls_sequencerCh s) (ls_sequencerTimer s) (ls_lastUnsafeL2 s).
Definition set_sequencer v s := mkLoop (ls_l1State s) v (ls_driverConfig s) (ls_sequencerNotifs s) (ls_network s)
  (ls_altSync s) (ls_stepReqCh s) (ls_delayedStepReq s) (ls_stepAttempts s) (ls_sequencerCh s) (ls_sequencerTimer s) (ls_lastUnsafeL2 s).
Definition set_driverConfig v s := mkLoop (ls_l1State s) (ls_sequencer s) v (ls_sequencerNotifs s) (ls_network s)
  (ls_altSync s) (ls_stepReqCh s) (ls_delayedStepReq s) (ls_stepAttempts s) (ls_sequencerCh s) (ls_sequencerTimer s) (ls_lastUnsafeL2 s).
Definition set_sequencerNotifs v s := mkLoop (ls_l1State s) (ls_sequencer s) (ls_driverConfig s) v (ls_network s)
  (ls_altSync s) (ls_stepReqCh s) (ls_delayedStepReq s) (ls_stepAttempts s) (ls_sequencerCh s) (ls_sequencerTimer s) (ls_lastUnsafeL2 s).
Definition set_network v s := mkLoop (ls_l1State s) (ls_sequencer s) (ls_driverConfig s) (ls_sequencerNotifs s) v
  (ls_altSync s) (ls_stepReqCh s) (ls_delayedStepReq s) (ls_stepAttempts s) (ls_sequencerCh s) (ls_sequencerTimer s) (ls_lastUnsafeL2 s).
Definition set_altSync v s := mkLoop (ls_l1State s) (ls_sequencer s) (ls_driverConfig s) (ls_sequencerNotifs s) (ls_network s)
  v (ls_stepReqCh s) (ls_delayedStepReq s) (ls_stepAttempts s) (ls_sequencerCh s) (ls_sequencerTimer s) (ls_lastUnsafeL2 s).
Definition set_stepReqCh v s := mkLoop (ls_l1State s) (ls_sequencer s) (ls_driverConfig s) (ls_sequencerNotifs s) (ls_network s)
  (ls_altSync s) v (ls_delayedStepReq s) (ls_stepAttempts s) (ls_sequencerCh s) (ls_sequencerTimer s) (ls_lastUnsafeL2 s).
Definition set_delayedStepReq v s := mkLoop (ls_l1State s) (ls_sequencer s) (ls_driverConfig s) (ls_sequencerNotifs s) (ls_network s)
  (ls_altSync s) (ls_stepReqCh s) v (ls_stepAttempts s) (ls_sequencerCh s) (ls_sequencerTimer s) (ls_lastUnsafeL2 s).
Definition set_stepAttempts v s := mkLoop (ls_l1State s) (ls_sequencer s) (ls_driverConfig s) (ls_sequencerNotifs s) (ls_network s)
  (ls_altSync s) (ls_stepReqCh s) (ls_delayedStepReq s) v (ls_sequencerCh s) (ls_sequencerTimer s) (ls_lastUnsafeL2 s).
Definition set_sequencerCh v s := mkLoop (ls_l1State s) (ls_sequencer s) (ls_driverConfig s) (ls_sequencerNotifs s) (ls_network s)
  (ls_altSync s) (ls_stepReqCh s) (ls_delayedStepReq s) (ls_stepAttempts s) v (ls_sequencerTimer s) (ls_lastUnsafeL2 s).
Definition set_sequencerTimer v s := mkLoop (ls_l1State s) (ls_sequencer s) (ls_driverConfig s) (ls_sequencerNotifs s) (ls_network s)
  (ls_altSync s) (ls_stepReqCh s) (ls_delayedStepReq s) (ls_stepAttempts s) (ls_sequencerCh s) v (ls_lastUnsafeL2 s).
Definition set_lastUnsafeL2 v s := mkLoop (ls_l1State s) (ls_sequencer s) (ls_driverConfig s) (ls_sequencerNotifs s) (ls_network s)
  (ls_altSync s) (ls_stepReqCh s) (ls_delayedStepReq s) (ls_stepAttempts s) (ls_sequencerCh s) (ls_sequencerTimer s) v.

Definition set_derivation (d : D) (s : loop) : loop :=
  set_sequencer (mkSequencer d (sq_attrBuilder (ls_sequencer s)) (sq_l1 (ls_sequencer s))
                   (sq_nextAction (ls_sequencer s))) s.

Definition on_sequencer {R} (m : M (Sequencer D B (confDepth Y)) R) : M loop R := zoom ls_sequencer set_sequencer m.
Definition on_derivation {R} (m : M D R) : M loop R := zoom derivation set_derivation m.
Definition on_notifs {R} (m : M N R) : M loop R := zoom ls_sequencerNotifs set_sequencerNotifs m.
Definition on_altSync {R} (m : M A R) : M loop R := zoom ls_altSync set_altSync m.

(** A new L1 head is seen by every holder of [l1State.L1Head]: the confirmation depths of
    the pipeline and of the sequencer. *)
Definition set_L1Head (head : L1BlockRef) (s : loop) : loop :=
  let q := ls_sequencer s in
  let l1 := mkConfDepth (cd_fetcher (sq_l1 q)) head (cd_depth (sq_l1 q)) in
  set_sequencer (mkSequencer (der_SetL1Head head (sq_engine q)) (sq_attrBuilder q) l1 (sq_nextAction q)) s.

(** [step] and [reqStep]. *)
Definition step (s : loop) : loop := set_stepReqCh true s.
Definition reqStep (i : inputs) (s : loop) : loop :=
  if 0 <? ls_stepAttempts s then
    match ls_delayedStepReq s with
    | None => set_delayedStepReq (Some (Duration Exponential (ls_stepAttempts s) (in_rand i))) s
    | Some _ => s
    end
  else step s.

(** [planSequencerAction].  The timer may fire between the draining of its channel and
    [Reset]. *)
Definition reset_timer (i : inputs) (delay : Z) (t : Timer) : Timer :=
  let fired := in_race i && match tm_armed t with Some _ => true | None => false end in
  mkTimer (Some delay) fired.
Definition planSequencerAction (i : inputs) (s : loop) : loop :=
  let delay := PlanNextSequencerAction config (in_now i) (ls_sequencer s) in
  set_sequencerTimer (reset_timer i delay (ls_sequencerTimer s)) (set_sequencerCh true s).

(** The conditions at the top of the loop. *)
Definition may_sequence (s : loop) : bool :=
  SequencerEnabled (ls_driverConfig s) && negb (SequencerStopped (ls_driverConfig s))
  && bool_decide (l1s_L1Head (ls_l1State s) <> zeroL1) && der_EngineReady (derivation s).
Definition lags (s : loop) : bool :=
  (0 <? SequencerMaxSafeLag (ls_driverConfig s))
  && (l2_Number (der_SafeL2Head (derivation s)) +u SequencerMaxSafeLag (ls_driverConfig s)
      <=? l2_Number (ec_UnsafeL2Head (derivation s))).
Definition builds_on_head (s : loop) : bool :=
  bool_decide (l2_ID (BuildingOnto (ls_sequencer s)) = l2_ID (ec_UnsafeL2Head (derivation s))).

(** The code of the loop before its [select]; resetting [altSyncTicker] moves its next tick,
    which may come at any moment anyway. *)
Definition loop_top (i : inputs) (s : loop) : loop :=
  let s :=
    if may_sequence s then
      if lags s then set_sequencerCh false s
      else if negb (builds_on_head s) then planSequencerAction i s
      else s
    else set_sequencerCh false s in
  let head := ec_UnsafeL2Head (derivation s) in
  if bool_decide (head <> ls_lastUnsafeL2 s) || negb (der_EngineReady (derivation s))
  then set_lastUnsafeL2 head s else s.

(** The case [<-sequencerCh]; errors of publishing are only logged. *)
Definition publish (payload : option ExecutionPayload) : M loop unit := fun s =>
  match ls_network s, payload with
  | Some w, Some p =>
      let '(r, w') := net_PublishL2Payload p w in
      (match r with Panic => Panic | _ => Ok tt end, set_network (Some w') s)
  | _, _ => (Ok tt, s)
  end.
Definition on_sequencerCh (i : inputs) : M loop outcome :=
  modify (fun s => set_sequencerTimer (mkTimer (tm_armed (ls_sequencerTimer s)) false) s) ;;;
  r <- attempt (on_sequencer (RunNextSequencerAction config (in_now i))) ;;
  match r with
  | inr _ => ret Return
  | inl payload => publish payload ;;; modify (planSequencerAction i) ;;; ret Continue
  end.

(** [checkForGapInUnsafeQueue]. *)
Definition checkForGapInUnsafeQueue : M loop unit :=
  s <- get ;;
  let start := ec_UnsafeL2Head (derivation s) in
  end_ <- lift (match der_UnsafeL2SyncTarget (derivation s) with Some target => Ok target | None => Panic end) ;;
  if bool_decide (end_ = zeroL2) then on_altSync (RequestL2Range start zeroL2)
  else if l2_Number start +u 1 <? l2_Number end_ then on_altSync (RequestL2Range start end_)
  else ret tt.

(** The case [<-stepReqCh]: a step, and the reaction to its error. *)
Definition react (i : inputs) (err : option error) : M loop outcome :=
  match driver_reaction err with
  | Idle | WaitForSync => modify (set_stepAttempts 0) ;;; ret Continue
  | ResetPipeline => modify (fun s => set_derivation (ec_Reset (derivation s)) s) ;;; ret Continue
  | RetryTemporary | UnknownError => modify (reqStep i) ;;; ret Continue
  | Shutdown => ret Return
  | RetryData | NextStep => modify (set_stepAttempts 0) ;;; modify (reqStep i) ;;; ret Continue
  end.
Definition on_stepReqCh (i : inputs) : M loop (option outcome) :=
  modify (set_stepReqCh false) ;;;
  r <- attempt (on_derivation der_Step) ;;
  modify (fun s => set_stepAttempts (ls_stepAttempts s + 1) s) ;;;
  match r with
  | inl None => ret None
  | inl (Some _) => Some <$$> react i None
  | inr err => Some <$$> react i (Some err)
  end.

(** The ticks the [select] can receive, and what it does with them.  [None] is a step that
    ran out of fuel. *)
Definition ticks (t : tick) (s : loop) : bool :=
  match t with
  | SequencerTick => ls_sequencerCh s && tm_full (ls_sequencerTimer s)
  | AltSyncTick => true
  | DelayedStepTick => match ls_delayedStepReq s with Some _ => true | None => false end
  | StepTick => ls_stepReqCh s
  end.
Definition on_tick (i : inputs) (t : tick) : M loop (option outcome) :=
  match t with
  | SequencerTick => Some <$$> on_sequencerCh i
  | AltSyncTick => attempt checkForGapInUnsafeQueue ;;; ret (Some Continue)
  | DelayedStepTick => modify (fun s => step (set_delayedStepReq None s)) ;;; ret (Some Continue)
  | StepTick => on_stepReqCh i
  end.

(** The cases of the [select] that receive a request, and the answer.  [None] is a push to
    the queue of payloads that does not end; the requests of [stateReq] are not received
    here. *)
Definition on_request (i : inputs) (r : request) : M loop (option answer) :=
  s <- get ;;
  match r with
  | OnUnsafeL2Payload payload =>
      match der_AddUnsafePayload (Some payload) (derivation s) with
      | None => ret None
      | Some (added, d) => put (set_derivation d s) ;;; lift added ;;; modify (reqStep i) ;;; ret (Some NoAnswer)
      end
  | OnL1Head newL1Head =>
      put (set_L1Head newL1Head (set_l1State (HandleNewL1HeadBlock newL1Head (ls_l1State s)) s)) ;;;
      modify (reqStep i) ;;; ret (Some NoAnswer)
  | OnL1Safe newL1Safe =>
      put (set_l1State (HandleNewL1SafeBlock newL1Safe (ls_l1State s)) s) ;;; ret (Some NoAnswer)
  | OnL1Finalized newL1Finalized =>
      put (set_derivation (der_Finalize newL1Finalized (derivation s))
             (set_l1State (HandleNewL1FinalizedBlock newL1Finalized (ls_l1State s)) s)) ;;;
      modify (reqStep i) ;;; ret (Some NoAnswer)
  | ResetDerivationPipeline => put (set_derivation (ec_Reset (derivation s)) s) ;;; ret (Some Done)
  | StartSequencer hash =>
      if negb (SequencerStopped (ls_driverConfig s)) then
        ret (Some (StartError (ErrNew "sequencer already running")))
      else if negb (l2_Hash (ec_UnsafeL2Head (derivation s)) =? hash) then
        ret (Some (StartError (ErrNew "block hash does not match")))
      else
        started <- attempt (on_notifs sl_SequencerStarted) ;;
        match started with
        | inr err => ret (Some (StartError (ErrWrap "sequencer start notification" err)))
        | inl _ =>
            modify (fun s => set_driverConfig (set_SequencerStopped false (ls_driverConfig s)) s) ;;;
            modify (planSequencerAction i) ;;; ret (Some Done)
        end
  | StopSequencer =>
      if SequencerStopped (ls_driverConfig s) then ret (Some (StopError (ErrNew "sequencer not running")))
      else
        stopped <- attempt (on_notifs sl_SequencerStopped) ;;
        match stopped with
        | inr err => ret (Some (StopError (ErrWrap "sequencer start notification" err)))
        | inl _ =>
            modify (fun s => set_driverConfig (set_SequencerStopped true (ls_driverConfig s)) s) ;;;
            ret (Some (Stopped (l2_Hash (ec_UnsafeL2Head (derivation s)))))
        end
  | SequencerActive => ret (Some (Active (negb (SequencerStopped (ls_driverConfig s)))))
  | SyncStatus_ | BlockRefWithStatus _ => ret None
  end.

(** [syncStatus]; [None] where it panics. *)
Definition syncStatus (s : loop) : option SyncStatus :=
  let d := derivation s in
  target ← der_UnsafeL2SyncTarget d;
  Some (mkSyncStatus (der_Origin d) (der_FinalizedL1 d) (l1s_L1Head (ls_l1State s)) (l1s_L1Safe (ls_l1State s))
          (l1s_L1Finalized (ls_l1State s)) (ec_UnsafeL2Head d) (der_SafeL2Head d) (der_Finalized d) target
          (der_EngineSyncTarget d)).

(** The record that [NewDriver] makes of its parts; the local variables of the loop have no
    meaning yet. *)
Definition new_loop (q : Sequencer D B (confDepth Y)) (driverCfg : DriverConfig) (notifs : N) (network : option W)
    (altSync : A) : loop :=
  mkLoop NewL1State q driverCfg notifs network altSync false None 0 false (mkTimer None false) zeroL2.

(** The start of [eventLoop]. *)
Definition start_loop (s : loop) : loop :=
  let s := step (set_stepAttempts 0 (set_delayedStepReq None s)) in
  set_lastUnsafeL2 (ec_UnsafeL2Head (derivation s))
    (set_sequencerCh false (set_sequencerTimer (mkTimer (Some 0) false) s)).

(** [Driver.Start]. *)
Definition Start : M loop unit :=
  modify (fun s => set_derivation (ec_Reset (derivation s)) s) ;;;
  s <- get ;;
  (if SequencerEnabled (ls_driverConfig s) then
     wrapE (ErrWrap "persist initial sequencer state")
       (on_notifs (if SequencerStopped (ls_driverConfig s) then sl_SequencerStopped else sl_SequencerStarted))
   else ret tt) ;;;
  modify start_loop.

(** ** The loop, its callers and its timers *)

(** Where the loop is: about to check the conditions at its top, at its [select], blocked
    by the call that took a request of [stateReq], or ended; a panic ends the process. *)
Inductive control := AtTop | Selecting | Holding (c : nat) | Ended | Crashed.

(** The call of [Close]. *)
Inductive closing := Open | Closing | Closed.

(** The requests in the channels are kept in one list; each channel is the sublist of its
    requests. *)
Record node := mkNode {
  nd_loop : loop;
  nd_l2 : L;
  nd_control : control;
  nd_queue : list (nat * request);
  nd_calls : list call;
  nd_close : closing }.

Definition in_channel (c : channel) (q : list (nat * request)) : list (nat * request) :=
  filter (fun r => channel_of r.2 = c) q.

(** The answer of the loop to a call; it is kept also for a caller that has gone. *)
Definition respond (n : nat) (a : answer) (calls : list call) : list call := alter (set_respCh (Some a)) n calls.
Definition move (n : nat) (p : phase) (calls : list call) : list call := alter (set_phase p) n calls.

Definition after (o : outcome) : control := match o with Continue => AtTop | Return => Ended end.

(** What the caller of a request returns when the loop has taken it and nothing is
    awaited. *)
Definition sent (r : request) : phase := if awaits_answer r then Waiting else Returned (Answered NoAnswer).

(** The steps of the loop. *)
Inductive loop_step : node -> node -> Prop :=
  | loop_at_top i s l q cs cl :
      loop_step (mkNode s l AtTop q cs cl) (mkNode (loop_top i s) l Selecting q cs cl)
  | loop_tick i t o s s' l q cs cl :
      ticks t s = true -> on_tick i t s = (Ok (Some o), s') ->
      loop_step (mkNode s l Selecting q cs cl) (mkNode s' l (after o) q cs cl)
  | loop_tick_panics i t s s' l q cs cl :
      ticks t s = true -> on_tick i t s = (Panic, s') ->
      loop_step (mkNode s l Selecting q cs cl) (mkNode s' l Crashed q cs cl)
  | loop_request i n r q1 q2 a s s' l cs cl :
      in_channel (channel_of r) q1 = [] -> on_request i r s = (Ok (Some a), s') ->
      (awaits_answer r = true -> exists c, cs !! n = Some c /\ c_respCh c = None) ->
      loop_step (mkNode s l Selecting (q1 ++ (n, r) :: q2) cs cl)
        (mkNode s' l AtTop (q1 ++ q2) (if awaits_answer r then respond n a cs else cs) cl)
  | loop_request_panics i n r q1 q2 s s' l cs cl :
      in_channel (channel_of r) q1 = [] -> on_request i r s = (Panic, s') ->
      loop_step (mkNode s l Selecting (q1 ++ (n, r) :: q2) cs cl) (mkNode s' l Crashed (q1 ++ q2) cs cl)
  | loop_held n c s l q cs cl :
      cs !! n = Some c -> c_phase c = Sending -> channel_of (c_request c) = stateReq ->
      loop_step (mkNode s l Selecting q cs cl) (mkNode s l (Holding n) q (move n Snapshot cs) cl)
  | loop_done s l q cs :
      loop_step (mkNode s l Selecting q cs Closing) (mkNode s l Ended q cs Closed).

(** The steps of the callers: a call begins, sends its request, is given up, receives its
    answer, or reads the status while it holds the loop; and the call of [Close]. *)
Inductive caller_step : node -> node -> Prop :=
  | call_begins r s l k q cs cl :
      caller_step (mkNode s l k q cs cl)
        (mkNode s l k q (cs ++ [new_call (SequencerEnabled (ls_driverConfig s)) r]) cl)
  | call_sends n c s l k q cs cl :
      cs !! n = Some c -> c_phase c = Sending ->
      (length (in_channel (channel_of (c_request c)) q) < channel_cap (channel_of (c_request c)))%nat ->
      caller_step (mkNode s l k q cs cl)
        (mkNode s l k (q ++ [(n, c_request c)]) (move n (sent (c_request c)) cs) cl)
  | call_gives_up n c s l k q cs cl :
      cs !! n = Some c -> c_phase c = Sending \/ c_phase c = Waiting ->
      caller_step (mkNode s l k q cs cl) (mkNode s l k q (move n (Returned CtxErr) cs) cl)
  | call_receives n c a s l k q cs cl :
      cs !! n = Some c -> c_phase c = Waiting -> c_respCh c = Some a ->
      caller_step (mkNode s l k q cs cl) (mkNode s l k q (move n (Returned (Answered a)) cs) cl)
  | call_status n c status s l q cs cl :
      cs !! n = Some c -> c_request c = SyncStatus_ -> syncStatus s = Some status ->
      caller_step (mkNode s l (Holding n) q cs cl) (mkNode s l AtTop q (move n (Returned (Status status)) cs) cl)
  | call_ref_status n c num status ref s l l' q cs cl :
      cs !! n = Some c -> c_request c = BlockRefWithStatus num -> syncStatus s = Some status ->
      attempt (L2BlockRefByNumber num) l = (Ok ref, l') ->
      caller_step (mkNode s l (Holding n) q cs cl)
        (mkNode s l' AtTop q (move n (Returned (RefStatus ref status)) cs) cl)
  | call_status_panics n s l q cs cl :
      syncStatus s = None -> caller_step (mkNode s l (Holding n) q cs cl) (mkNode s l Crashed q cs cl)
  | call_ref_panics n c num s l l' q cs cl :
      cs !! n = Some c -> c_request c = BlockRefWithStatus num ->
      attempt (L2BlockRefByNumber num) l = (Panic, l') ->
      caller_step (mkNode s l (Holding n) q cs cl) (mkNode s l' Crashed q cs cl)
  | call_Close s l k q cs : caller_step (mkNode s l k q cs Open) (mkNode s l k q cs Closing).

(** The sequencer's timer fires; a full channel takes no further tick. *)
Inductive driver_step : node -> node -> Prop :=
  | driver_loop n n' : loop_step n n' -> driver_step n n'
  | driver_caller n n' : nd_control n <> Crashed -> caller_step n n' -> driver_step n n'
  | driver_timer s l k q cs cl d :
      k <> Crashed -> tm_armed (ls_sequencerTimer s) = Some d ->
      driver_step (mkNode s l k q cs cl) (mkNode (set_sequencerTimer (tm_fire (ls_sequencerTimer s)) s) l k q cs cl).

(** The node when [Start] has returned. *)
Definition started (s : loop) (l : L) : node := mkNode s l AtTop [] [] Open.
End Loop.
Arguments loop : clear implicits.
Arguments node : clear implicits.
