(* ===== verification/DriverSpec.v ===== *)
(** * What the event loop promises

    The sequencer acts only when it may and never waits for nothing, the calls of other
    goroutines are answered without blocking the loop, and derivation goes on after
    errors. *)
From S2P Require Import Prelude GoErrors GoBytes EthTypes Geth Payloads Attributes L1Stages EngineUpdate SyncStart EngineQueue Pipeline Sequencing Driver.
#[local] Open Scope Z_scope.

(** ** Backoff *)
Section Backoff.
Context `{FloatConversion}.

(** The backoff of the driver overflows.  For at most 33 failed attempts in a row the delay
    is two to the number of attempts in seconds plus the jitter, and at most ten seconds.
    At the next three, the product with [time.Millisecond] leaves the range of [int64] and
    the delay is negative: the timer fires at once. *)
Theorem backoff_overflows attempt rand :
  0 <= attempt <= 36 -> 0 <= rand < 250 * Millisecond ->
  (attempt <= 33 -> Duration Exponential attempt rand = Z.min (10000 * Millisecond) (2 ^ attempt * 1000000000 + rand)) /\
  (34 <= attempt -> Duration Exponential attempt rand < 0).
Proof.
  intros Ha Hr. unfold Duration, Exponential, float_to_int, Millisecond in *. cbn [es_Min es_Max es_MaxJitter].
  change (0 <? 250 * 1000000) with true. cbn iota.
  pose proof (Z.pow_le_mono_r 2 0 attempt ltac:(lia) ltac:(lia)) as H0.
  pose proof (Z.pow_le_mono_r 2 attempt 36 ltac:(lia) ltac:(lia)) as H36.
  change (2 ^ 0) with 1 in H0. change (2 ^ 36) with 68719476736 in H36.
  replace ((-9223372036854775808 <=? 2 ^ attempt * 1000) && (2 ^ attempt * 1000 <? 9223372036854775808)) with true by lia.
  split; intros Hs.
  - pose proof (Z.pow_le_mono_r 2 attempt 33 ltac:(lia) ltac:(lia)) as H33. change (2 ^ 33) with 8589934592 in H33.
    rewrite (i64_small (2 ^ attempt * 1000 * 1000000)), (i64_small (0 + _)), i64_small by lia. case_if; lia.
  - assert (attempt = 34 \/ attempt = 35 \/ attempt = 36) as [->|[->| ->]] by lia.
    all: match goal with |- context [i64 (2 ^ ?a * 1000 * 1000000)] =>
           let v := eval vm_compute in (i64 (2 ^ a * 1000 * 1000000)) in
           change (i64 (2 ^ a * 1000 * 1000000)) with v end.
    all: rewrite (i64_small (0 + _)), i64_small by lia; case_if; lia.
Qed.
End Backoff.

Section Spec.
Context {D B Y N W A L : Type} `{FloatConversion} `{Derivation D} `{AttributesBuilder B} `{L1Chain Y}.
Context `{SequencerStateListener N} `{Network W} `{AltSync A}.
Context (L2BlockRefByNumber : Z -> M L L2BlockRef).
Context (config : Config).
Implicit Types (s : loop D B Y N W A) (x y : node D B Y N W A L).

Abbreviation loop_step := (loop_step config).
Abbreviation caller_step := (caller_step L2BlockRefByNumber).
Abbreviation driver_step := (driver_step L2BlockRefByNumber config).

(** ** When the sequencer acts *)

Lemma loop_top_may i s :
  ls_sequencerCh (loop_top config i s) = true ->
  may_sequence (loop_top config i s) = true /\ lags (loop_top config i s) = false.
Proof.
  unfold loop_top. destruct (may_sequence s) eqn:Em; [destruct (lags s) eqn:El|].
  - case_if; done.
  - intros _. change (may_sequence (if negb (builds_on_head s) then planSequencerAction config i s else s)) with true.
    by repeat case_if.
  - case_if; done.
Qed.

Definition ticks_allowed x : Prop :=
  nd_control x = Selecting -> ls_sequencerCh (nd_loop x) = true ->
  may_sequence (nd_loop x) = true /\ lags (nd_loop x) = false.

Lemma ticks_allowed_step x y : driver_step x y -> ticks_allowed x -> ticks_allowed y.
Proof.
  intros Hst Hx. destruct Hst as [x y Hst|x y _ Hst|s l k q cs cl d _ _]; [| |exact Hx].
  - destruct Hst as [i s l q cs cl|i t o s s' l q cs cl _ _|i t s s' l q cs cl _ _|i n r q1 q2 a s s' l cs cl _ _ _|
      i n r q1 q2 s s' l cs cl _ _|n c s l q cs cl _ _ _|s l q cs]; try done; [intros _; apply loop_top_may|by destruct o].
  - by destruct Hst.
Qed.

(** The sequencer acts only when it may.  Whatever the callers and the timers do, when the
    loop takes a tick of the sequencer's timer, sequencing is enabled and not stopped, an L1
    head is known, the engine has been reset, and the safe head is less than
    [SequencerMaxSafeLag] blocks behind. *)
Theorem sequencer_acts_when_allowed s l x :
  rtc driver_step (started s l) x -> nd_control x = Selecting -> ticks SequencerTick (nd_loop x) = true ->
  let c := ls_driverConfig (nd_loop x) in let d := derivation (nd_loop x) in
  SequencerEnabled c = true /\ SequencerStopped c = false /\ l1s_L1Head (ls_l1State (nd_loop x)) <> zeroL1 /\
  der_EngineReady d = true /\
  (0 < SequencerMaxSafeLag c ->
   l2_Number (ec_UnsafeL2Head d) < l2_Number (der_SafeL2Head d) +u SequencerMaxSafeLag c).
Proof.
  intros Hrun Hk Ht.
  assert (ticks_allowed x) as Hx by (apply (run_keeps _ ticks_allowed ticks_allowed_step _ _ Hrun); done).
  simpl in Ht. apply andb_true_iff in Ht as [Hch _]. destruct (Hx Hk Hch) as [Hm Hl].
  unfold may_sequence, lags in *. zify_bools. split_and!; try done.
  intros Hmax. apply andb_false_iff in Hl as [Hl|Hl]; zify_bools; lia.
Qed.

(** ** Calls *)

Record calls_ok x : Prop := {
  co_nodup : NoDup (nd_queue x).*1;
  co_queued n r : (n, r) ∈ nd_queue x -> exists c, nd_calls x !! n = Some c /\ c_request c = r /\
    c_respCh c = None /\ c_phase c <> Sending /\ c_phase c <> Snapshot;
  co_sending n c : nd_calls x !! n = Some c -> c_phase c = Sending -> c_respCh c = None;
  co_waiting n c : nd_calls x !! n = Some c -> c_phase c = Waiting ->
    awaits_answer (c_request c) = true /\ ((n, c_request c) ∈ nd_queue x \/ is_Some (c_respCh c));
  co_room c : (length (in_channel c (nd_queue x)) <= channel_cap c)%nat;
  co_held n : nd_control x = Holding n -> exists c, nd_calls x !! n = Some c /\ c_phase c = Snapshot /\
    channel_of (c_request c) = stateReq;
  co_snapshot n c : nd_calls x !! n = Some c -> c_phase c = Snapshot -> nd_control x = Holding n }.

Definition calls_alive x : Prop := nd_control x <> Crashed -> calls_ok x.

(** The queue without its first request of a channel. *)
Lemma queue_remove (n : nat) (r : request) (q1 q2 : list (nat * request)) :
  NoDup (q1 ++ (n, r) :: q2).*1 -> NoDup (q1 ++ q2).*1 /\ forall r', (n, r') ∉ q1 ++ q2.
Proof.
  rewrite !fmap_app, fmap_cons. simpl. intros Hn.
  assert ((q1.*1 ++ n :: q2.*1) ≡ₚ n :: (q1.*1 ++ q2.*1)) as Hp by (symmetry; apply Permutation_middle).
  rewrite Hp in Hn. apply NoDup_cons in Hn as [Hni Hn]. split; [done|]. intros r' Hin. apply Hni.
  rewrite <- fmap_app. apply list_elem_of_fmap. by exists (n, r').
Qed.

Lemma in_channel_app c q1 q2 : in_channel c (q1 ++ q2) = in_channel c q1 ++ in_channel c q2.
Proof. apply filter_app. Qed.

Lemma in_channel_remove c (n : nat) (r : request) q1 q2 :
  (length (in_channel c (q1 ++ q2)) <= length (in_channel c (q1 ++ (n, r) :: q2)))%nat.
Proof.
  rewrite !in_channel_app, !length_app. unfold in_channel. rewrite filter_cons.
  case_decide; simpl; lia.
Qed.

Lemma alter_lookup {T} (f : T -> T) n m (cs : list T) c :
  alter f n cs !! m = Some c -> (m = n /\ exists c0, cs !! n = Some c0 /\ c = f c0) \/ (m <> n /\ cs !! m = Some c).
Proof.
  rewrite list_lookup_alter. case_decide as Hn; [subst m|]; [|intros Hm; right; by split].
  destruct (cs !! n) as [c0|]; [|done]. intros [= <-]. left. eauto.
Qed.

(** A call that moves to a phase it cannot leave, or holds the loop. *)
Lemma moved_ok s l k q cs cl n c p s' l' k' :
  calls_ok (mkNode s l k q cs cl) -> cs !! n = Some c ->
  (exists r, p = Returned r) /\ (forall m, k' = Holding m -> k = Holding m /\ m <> n) /\
    (forall m, k = Holding m -> m <> n -> k' = Holding m) \/
  p = Snapshot /\ c_phase c = Sending /\ channel_of (c_request c) = stateReq /\ k' = Holding n /\
    (forall m, k <> Holding m) ->
  calls_ok (mkNode s' l' k' q (move n p cs) cl).
Proof.
  intros [C1 C2 C3 C4 C5 C6 C7] Hc Hp. simpl in *. split; simpl; try done.
  - intros m r Hin. destruct (C2 m r Hin) as (c0 & Hm & Hr & Ha & Hs & Hn). unfold move. rewrite list_lookup_alter.
    case_decide as Hd; [subst m|by exists c0]. rewrite Hm. exists (set_phase p c0). split_and!; try done; simplify_eq.
    + by destruct Hp as [[(r' & ->) _]|(-> & _)].
    + destruct Hp as [[(r' & ->) _]|(-> & He & _)]; done.
  - intros m c' [(-> & c0 & Hm & ->)|[Hne Hm]]%alter_lookup Hs; [|by eapply C3]. simpl in Hs. subst p.
    by destruct Hp as [[(r' & [=]) _]|([=] & _)].
  - intros m c' [(-> & c0 & Hm & ->)|[Hne Hm]]%alter_lookup Hs; [|by eapply C4]. simpl in Hs. subst p.
    by destruct Hp as [[(r' & [=]) _]|([=] & _)].
  - intros m Hk. destruct Hp as [(_ & Hp & _)|(-> & Hs & Hch & -> & _)].
    + destruct (Hp m Hk) as [Hk' Hne]. destruct (C6 m Hk') as (c0 & Hm & ?). exists c0. unfold move.
      by rewrite list_lookup_alter_ne.
    + injection Hk as <-. exists (set_phase Snapshot c). unfold move. by rewrite list_lookup_alter_eq, Hc.
  - intros m c' [(-> & c0 & Hm & ->)|[Hne Hm]]%alter_lookup Hs.
    + simpl in Hs. subst p. by destruct Hp as [[(r' & [=]) _]|(_ & _ & _ & -> & _)].
    + pose proof (C7 m c' Hm Hs) as Hk. destruct Hp as [(_ & _ & Hp)|(_ & _ & _ & _ & Hno)]; [by apply Hp|by destruct (Hno m)].
Qed.

(** A request that is taken, and answered when an answer is awaited. *)
Lemma request_ok s l q1 q2 cs cl n r a s' :
  calls_ok (mkNode s l Selecting (q1 ++ (n, r) :: q2) cs cl) ->
  calls_ok (mkNode s' l AtTop (q1 ++ q2) (if awaits_answer r then respond n a cs else cs) cl).
Proof.
  intros [C1 C2 C3 C4 C5 C6 C7]. simpl in *. apply queue_remove in C1 as [C1 Hout].
  assert (forall m r', (m, r') ∈ q1 ++ q2 -> (m, r') ∈ q1 ++ (n, r) :: q2) as Hin by set_solver.
  destruct (C2 n r ltac:(set_solver)) as (c & Hc & Hr & _ & Hns & Hnsn).
  assert (forall m c', (if awaits_answer r then respond n a cs else cs) !! m = Some c' ->
    m = n /\ awaits_answer r = true /\ c' = set_respCh (Some a) c \/ (m <> n \/ awaits_answer r = false) /\ cs !! m = Some c') as Hcs.
  { intros m c'. destruct (awaits_answer r); [|by right; split; [right|]].
    intros [(-> & c0 & Hm & ->)|[Hne Hm]]%alter_lookup; [left|right; split; [by left|done]]. split_and!; try done. congruence. }
  split; simpl; try done.
  - intros m r' Hm. assert (m <> n) as Hne by (intros ->; by eapply Hout).
    destruct (C2 m r' (Hin _ _ Hm)) as (c0 & Hc0 & ?). exists c0. split; [|done].
    destruct (awaits_answer r); [|done]. unfold respond. by rewrite list_lookup_alter_ne.
  - intros m c' [(-> & _ & ->)|[_ Hm]]%Hcs Hs; [by simpl in Hs|by eapply C3].
  - intros m c' [(-> & Ha & ->)|[Hd Hm]]%Hcs Hs; [|].
    + simpl. rewrite Hr. split; [done|]. by right.
    + destruct (C4 m c' Hm Hs) as [Ha [Hq|Hq]]; (split; [done|]); [|by right]. left.
      apply elem_of_app in Hq as [Hq|[[= -> Heq]|Hq]%elem_of_cons]; [set_solver| |set_solver].
      destruct Hd as [Hd|Hd]; [done|]. congruence.
  - intros c0. etrans; [apply in_channel_remove|apply C5].
  - intros m c' [(-> & _ & ->)|[_ Hm]]%Hcs Hs; [by simpl in Hs|]. by pose proof (C7 m c' Hm Hs).
Qed.

Lemma loop_step_calls x y : loop_step x y -> calls_alive x -> calls_alive y.
Proof.
  intros Hst Hx Hnc.
  destruct Hst as [i s l q cs cl|i t o s s' l q cs cl _ _|i t s s' l q cs cl _ _|i n r q1 q2 a s s' l cs cl _ _ _|
      i n r q1 q2 s s' l cs cl _ _|n c s l q cs cl Hc Hp Hch|s l q cs]; simpl in Hnc; try done;
    (specialize (Hx ltac:(done))).
  - destruct Hx as [C1 C2 C3 C4 C5 C6 C7]. split; simpl in *; try done. intros n c Hn Hs. by pose proof (C7 n c Hn Hs).
  - destruct Hx as [C1 C2 C3 C4 C5 C6 C7]. split; simpl in *; try done; [by destruct o|]. intros n c Hn Hs. by pose proof (C7 n c Hn Hs).
  - by eapply request_ok.
  - eapply moved_ok; [exact Hx|exact Hc|]. right. by split_and!.
  - destruct Hx as [C1 C2 C3 C4 C5 C6 C7]. split; simpl in *; try done. intros n c Hn Hs. by pose proof (C7 n c Hn Hs).
Qed.

Lemma sends_ok s l k q cs cl n c :
  calls_ok (mkNode s l k q cs cl) -> cs !! n = Some c -> c_phase c = Sending ->
  (length (in_channel (channel_of (c_request c)) q) < channel_cap (channel_of (c_request c)))%nat ->
  calls_ok (mkNode s l k (q ++ [(n, c_request c)]) (move n (sent (c_request c)) cs) cl).
Proof.
  intros [C1 C2 C3 C4 C5 C6 C7] Hc Hp Hroom. simpl in *.
  assert (forall r, (n, r) ∉ q) as Hout.
  { intros r Hin. destruct (C2 n r Hin) as (c0 & Hc0 & _ & _ & Hs & _). simplify_eq. }
  assert (sent (c_request c) = Waiting /\ awaits_answer (c_request c) = true \/ exists r, sent (c_request c) = Returned r) as Hsent.
  { unfold sent. destruct (awaits_answer (c_request c)); eauto. }
  assert (forall m c', move n (sent (c_request c)) cs !! m = Some c' ->
    m = n /\ c' = set_phase (sent (c_request c)) c \/ m <> n /\ cs !! m = Some c') as Hcs.
  { intros m c' [(-> & c0 & Hm & ->)|[Hne Hm]]%alter_lookup; [left|by right]. split; [done|]. congruence. }
  split; simpl; try done.
  - rewrite fmap_app. apply NoDup_app. split; [done|]. split; [|apply NoDup_singleton].
    intros m Hm Hin. apply list_elem_of_singleton in Hin. simpl in Hin. subst m.
    apply list_elem_of_fmap in Hm as ([m r] & Heq & Hm). simpl in Heq. subst m. by eapply Hout.
  - intros m r [Hin|[[= -> ->]|Hin]%elem_of_cons]%elem_of_app; [| |by apply elem_of_nil in Hin].
    + destruct (C2 m r Hin) as (c0 & Hc0 & ?). exists c0. split; [|done]. unfold move. rewrite list_lookup_alter_ne; [done|].
      intros <-. by eapply Hout.
    + exists (set_phase (sent (c_request c)) c). unfold move. rewrite list_lookup_alter_eq, Hc. split; [done|]. simpl.
      split; [done|]. split; [by eapply C3|]. by destruct Hsent as [[-> _]|[r ->]].
  - intros m c' [[-> ->]|[_ Hm]]%Hcs Hs; [|by eapply C3]. simpl in Hs. by destruct Hsent as [[Hw _]|[r Hw]]; rewrite Hw in Hs.
  - intros m c' [[-> ->]|[_ Hm]]%Hcs Hs; simpl in *.
    + destruct Hsent as [[_ Ha]|[r Hw]]; [|by rewrite Hw in Hs]. split; [done|]. left. set_solver.
    + destruct (C4 m c' Hm Hs) as [Ha [Hq|Hq]]; (split; [done|]); [left; set_solver|by right].
  - intros c0. rewrite in_channel_app, length_app. unfold in_channel at 2. rewrite filter_cons, filter_nil. simpl.
    case_decide as Hd; [subst c0; simpl; lia|]. simpl. specialize (C5 c0). lia.
  - intros m Hk. destruct (C6 m Hk) as (c0 & Hc0 & Hs & ?). exists c0. unfold move.
    rewrite list_lookup_alter_ne; [done|]. intros <-. simplify_eq. congruence.
  - intros m c' [[-> ->]|[_ Hm]]%Hcs Hs; [|by eapply C7]. simpl in Hs. by destruct Hsent as [[Hw _]|[r Hw]]; rewrite Hw in Hs.
Qed.

Lemma begins_ok s l k q cs cl b r :
  calls_ok (mkNode s l k q cs cl) -> calls_ok (mkNode s l k q (cs ++ [new_call b r]) cl).
Proof.
  intros [C1 C2 C3 C4 C5 C6 C7]. simpl in *.
  assert (forall m c, (cs ++ [new_call b r]) !! m = Some c -> c = new_call b r \/ cs !! m = Some c) as Hcs.
  { intros m c [Hm|[_ Hm]]%lookup_app_Some; [by right|]. left. apply list_lookup_singleton_Some in Hm. by destruct Hm. }
  assert (c_phase (new_call b r) = Sending \/ exists ret, c_phase (new_call b r) = Returned ret) as Hnew.
  { unfold new_call. destruct r, b; simpl; eauto. }
  split; simpl; try done.
  - intros m r' Hin. destruct (C2 m r' Hin) as (c & Hc & ?). exists c. split; [|done]. by apply lookup_app_l_Some.
  - intros m c [->|Hm]%Hcs Hs; [done|by eapply C3].
  - intros m c [->|Hm]%Hcs Hs; [|by eapply C4]. by destruct Hnew as [Hn|[ret Hn]]; rewrite Hn in Hs.
  - intros m Hk. destruct (C6 m Hk) as (c & Hc & ?). exists c. split; [|done]. by apply lookup_app_l_Some.
  - intros m c [->|Hm]%Hcs Hs; [|by eapply C7]. by destruct Hnew as [Hn|[ret Hn]]; rewrite Hn in Hs.
Qed.

Lemma caller_step_calls x y : nd_control x <> Crashed -> caller_step x y -> calls_alive x -> calls_alive y.
Proof.
  intros Hxc Hst Hx Hnc. specialize (Hx Hxc).
  assert (forall n c, nd_calls x !! n = Some c -> c_phase c <> Snapshot -> nd_control x <> Holding n) as Hno.
  { intros n c Hc Hp Hk. destruct (co_held _ Hx n Hk) as (c0 & Hc0 & Hs & _). simplify_eq. }
  destruct Hst as [r s l k q cs cl|n c s l k q cs cl Hc Hp Hroom|n c s l k q cs cl Hc Hp|n c a s l k q cs cl Hc Hp Ha|
      n c status s l q cs cl Hc Hr Hs|n c num status ref s l l' q cs cl Hc Hr Hs Href|n s l q cs cl Hs|
      n c num s l l' q cs cl Hc Hr Href|s l k q cs]; simpl in *; try done.
  - by apply begins_ok.
  - by apply sends_ok.
  - eapply moved_ok; [exact Hx|exact Hc|]. left. assert (k <> Holding n) by (eapply Hno; [exact Hc|]; by destruct Hp as [->| ->]).
    split; [eauto|]. split; [|done]. intros m ->. split; congruence.
  - eapply moved_ok; [exact Hx|exact Hc|]. left. assert (k <> Holding n) by (eapply Hno; [exact Hc|]; by rewrite Hp).
    split; [eauto|]. split; [|done]. intros m ->. split; congruence.
  - eapply moved_ok; [exact Hx|exact Hc|]. left. split; [eauto|]. split; [done|]. congruence.
  - eapply moved_ok; [exact Hx|exact Hc|]. left. split; [eauto|]. split; [done|]. congruence.
  - destruct Hx as [C1 C2 C3 C4 C5 C6 C7]. by split.
Qed.

Lemma driver_step_calls x y : driver_step x y -> calls_alive x -> calls_alive y.
Proof.
  intros [x' y' Hst|x' y' Hnc Hst|s l k q cs cl d Hk _]; [by apply loop_step_calls|by apply caller_step_calls|].
  intros Hx Hnc. specialize (Hx Hk) as [C1 C2 C3 C4 C5 C6 C7]. by split.
Qed.

Lemma started_calls s l : calls_alive (started s l).
Proof. intros _. by split; [apply NoDup_nil_2|intros n r Hin; by apply elem_of_nil in Hin|..|intros c; apply Nat.le_0_l| |]. Qed.

(** C25: the loop never waits for a caller, and no caller waits for nothing.  While the process
    runs: when the loop takes a request that is answered, there is room for the answer, also
    when the caller has given up; a channel never holds more requests than it has room for; a
    caller that waits has its request in its channel or the answer in its own; and when a
    call for the status holds the loop, that call can read the status, unless this panics,
    and release the loop with every other part of the node as it was. *)
Theorem callers_and_loop_never_block s l x :
  rtc driver_step (started s l) x -> nd_control x <> Crashed ->
  (forall n r, (n, r) ∈ nd_queue x -> exists c, nd_calls x !! n = Some c /\ c_request c = r /\ c_respCh c = None) /\
  (forall c, (length (in_channel c (nd_queue x)) <= channel_cap c)%nat) /\
  (forall n c, nd_calls x !! n = Some c -> c_phase c = Waiting -> (n, c_request c) ∈ nd_queue x \/ is_Some (c_respCh c)) /\
  (forall n, nd_control x = Holding n -> exists y, driver_step x y /\ nd_loop y = nd_loop x /\
    ((exists status, syncStatus (nd_loop x) = Some status /\ nd_control y = AtTop /\ nd_queue y = nd_queue x) \/
     nd_control y = Crashed)).
Proof.
  intros Hrun Hnc. pose proof (run_keeps _ calls_alive driver_step_calls _ _ Hrun (started_calls s l) Hnc) as Hx.
  split; [|split; [apply Hx|split]].
  - intros n r Hin. destruct (co_queued _ Hx n r Hin) as (c & ? & ? & ? & _). eauto.
  - intros n c Hc Hp. by apply (co_waiting _ Hx n c Hc Hp).
  - intros n Hk. destruct (co_held _ Hx n Hk) as (c & Hc & _ & Hch). clear Hrun.
    destruct x as [s' l' k q cs cl]. simpl in *. subst k.
    destruct (syncStatus s') as [status|] eqn:Es; [|by eexists; split; [by apply driver_caller, call_status_panics|eauto]].
    destruct (c_request c) eqn:Er; try done.
    + eexists. split; [by eapply driver_caller, call_status|]. simpl. eauto 6.
    + destruct (attempt (L2BlockRefByNumber num) l') as [[ref|e|] l2] eqn:Ea; [|by apply attempt_not_Err in Ea|].
      * eexists. split; [by eapply driver_caller, call_ref_status|]. simpl. eauto 6.
      * eexists. split; [by eapply driver_caller, call_ref_panics|]. simpl. eauto.
Qed.

(** ** Derivation goes on *)

Definition pending s : Prop := ls_stepReqCh s = true \/ ls_delayedStepReq s <> None.

Lemma reqStep_pending i s : pending (reqStep i s).
Proof.
  unfold reqStep, step, pending. case_if; [|by left]. destruct (ls_delayedStepReq s) eqn:E'; [right; congruence|by right].
Qed.

(** Code that does not touch the two channels of step requests. *)
Definition requests s : bool * option Z := (ls_stepReqCh s, ls_delayedStepReq s).
Lemma same_pending {R} (m : M (loop D B Y N W A) R) : preserves (same requests) m -> preserves (keeps pending) m.
Proof. intros Hm s r s' [= Hs Hd]%Hm Hp. unfold pending in *. by rewrite Hs, Hd. Qed.

Lemma on_sequencer_requests {R} (m : M (Sequencer D B (confDepth Y)) R) : preserves (same requests) (on_sequencer m).
Proof. by apply preserves_zoom. Qed.
Lemma on_notifs_requests {R} (m : M N R) : preserves (same requests) (on_notifs m).
Proof. by apply preserves_zoom. Qed.
Lemma on_altSync_requests {R} (m : M A R) : preserves (same requests) (on_altSync m).
Proof. by apply preserves_zoom. Qed.

Lemma on_sequencerCh_requests i : preserves (same requests) (on_sequencerCh config i).
Proof.
  unfold on_sequencerCh. refine (preserves_bind _ _ _ _ _); [by apply preserves_modify|intros []].
  refine (preserves_bind _ _ _ _ _); [apply preserves_attempt, on_sequencer_requests|intros [p|e]]; [|go_code].
  refine (preserves_bind _ _ _ _ _); [|intros []; refine (preserves_bind _ _ _ _ _); [by apply preserves_modify|intros []; go_code]].
  intros s r s'. unfold publish. destruct (ls_network s), p as [p|]; try (by intros [= _ <-]).
  destruct (net_PublishL2Payload p w). by intros [= _ <-].
Qed.

Lemma on_request_pending i r : preserves (keeps pending) (on_request config i r).
Proof.
  intros s res s' Hx Hp. unfold on_request, bind at 1, get in Hx.
  destruct r as [head|safe|fin|p| |hash| | | |num]; try (injection Hx as _ <-; first [exact Hp|apply reqStep_pending]).
  - destruct (der_AddUnsafePayload _ _) as [[[u|e|] d]|]; injection Hx as _ <-; try exact Hp. apply reqStep_pending.
  - case_if_in Hx; [by injection Hx as _ <-|]. case_if_in Hx; [by injection Hx as _ <-|].
    refine (same_pending _ _ _ _ _ Hx Hp). refine (preserves_bind _ _ _ _ _); [apply preserves_attempt, on_notifs_requests|].
    intros [u|e]; [|go_code]. refine (preserves_bind _ _ _ _ _); [by apply preserves_modify|intros []].
    refine (preserves_bind _ _ _ _ _); [by apply preserves_modify|intros []; go_code].
  - case_if_in Hx; [by injection Hx as _ <-|].
    refine (same_pending _ _ _ _ _ Hx Hp). refine (preserves_bind _ _ _ _ _); [apply preserves_attempt, on_notifs_requests|].
    intros [u|e]; [|go_code]. refine (preserves_bind _ _ _ _ _); [by apply preserves_modify|intros []; go_code].
Qed.

Lemma on_tick_pending i t s o s' :
  on_tick config i t s = (Ok (Some o), s') -> t <> StepTick -> pending s -> pending s'.
Proof.
  intros Hx Ht Hp. destruct t; [|..|done]; simpl in Hx.
  - unfold mapM_result in Hx. refine (same_pending _ _ _ _ _ Hx Hp).
    refine (preserves_bind _ _ _ _ _); [apply on_sequencerCh_requests|intros; go_code].
  - refine (same_pending _ _ _ _ _ Hx Hp). refine (preserves_bind _ _ _ _ _); [|intros; go_code].
    apply preserves_attempt. unfold checkForGapInUnsafeQueue. go_code; apply on_altSync_requests.
  - injection Hx as _ <-. by left.
Qed.

(** The pipeline takes a step, and the driver reacts by [r]. *)
Definition steps_pipeline x (r : reaction) y : Prop :=
  exists i o s s' l q cs cl res d,
    x = mkNode s l Selecting q cs cl /\ y = mkNode s' l (after o) q cs cl /\
    ticks StepTick s = true /\ on_tick config i StepTick s = (Ok (Some o), s') /\
    der_Step (derivation s) = (res, d) /\ r = driver_reaction (match res with Err e => Some e | _ => None end).

Definition other_step x y : Prop := driver_step x y /\ forall r, ~ steps_pipeline x r y.

(** Runs, with the reaction to the last step of the pipeline. *)
Inductive derives : reaction -> node D B Y N W A L -> Prop :=
  | derives_start s l : ls_stepReqCh s = true -> derives NextStep (started s l)
  | derives_step r r' x y : derives r x -> steps_pipeline x r' y -> derives r' y
  | derives_other r x y : derives r x -> other_step x y -> derives r y.

Definition alive x : Prop := match nd_control x with Ended | Crashed => False | _ => True end.

Lemma step_tick_cases i o s s' :
  on_tick config i StepTick s = (Ok (Some o), s') ->
  exists res d, der_Step (derivation s) = (res, d) /\
    react i (match res with Err e => Some e | _ => None end)
      (set_stepAttempts (ls_stepAttempts s + 1) (set_derivation d (set_stepReqCh false s))) = (Ok o, s').
Proof.
  simpl. unfold on_stepReqCh, bind at 1, modify at 1. unfold bind at 1, attempt, on_derivation, zoom at 1.
  change (derivation (set_stepReqCh false s)) with (derivation s).
  destruct (der_Step (derivation s)) as [[[u|]|e|] d]; [| |..|done]; intros Hx.
  - eexists _, _. split; [done|]. apply bind_Ok in Hx as (u' & s1 & [= _ <-] & Hx).
    apply bind_Ok in Hx as (o' & s1 & Hx & [= <- <-]). exact Hx.
  - by injection Hx.
  - eexists _, _. split; [done|]. apply bind_Ok in Hx as (u' & s1 & [= _ <-] & Hx).
    apply bind_Ok in Hx as (o' & s1 & Hx & [= <- <-]). exact Hx.
Qed.

Lemma react_pending i err s o s' :
  react i err s = (Ok o, s') -> o = Continue ->
  pending s' \/ match driver_reaction err with Idle | WaitForSync | ResetPipeline => True | _ => False end.
Proof.
  unfold react. destruct (driver_reaction err); intros Hx ->; try (by right); left; first [discriminate Hx|injection Hx as <-];
    apply reqStep_pending.
Qed.

Lemma steps_pipeline_pending x r y :
  steps_pipeline x r y -> alive y -> pending (nd_loop y) \/ match r with Idle | WaitForSync | ResetPipeline => True | _ => False end.
Proof.
  intros (i & o & s & s' & l & q & cs & cl & res & d & -> & -> & Ht & Hx & Hd & ->) Ha.
  apply step_tick_cases in Hx as (res' & d' & Hd' & Hx). rewrite Hd in Hd'. injection Hd' as <- <-.
  eapply react_pending; [exact Hx|]. by destruct o.
Qed.

Lemma other_step_pending x y : other_step x y -> alive y -> pending (nd_loop x) -> pending (nd_loop y).
Proof.
  intros [Hst Hno] Ha Hp. destruct Hst as [x y Hst|x y _ Hst|s l k q cs cl d _ _]; [| |exact Hp].
  - destruct Hst as [i s l q cs cl|i t o s s' l q cs cl Ht Hx|i t s s' l q cs cl _ _|i n r q1 q2 a s s' l cs cl _ Hx _|
      i n r q1 q2 s s' l cs cl _ _|n c s l q cs cl _ _ _|s l q cs]; try done; simpl in *.
    + revert Hp. unfold pending, loop_top. repeat case_if; done.
    + eapply on_tick_pending; [exact Hx| |done]. intros ->.
      pose proof (step_tick_cases _ _ _ _ Hx) as (res & d & Hd & _). eapply Hno. by do 10 eexists.
    + by eapply on_request_pending.
  - by destruct Hst.
Qed.

Lemma derives_reaches r x : derives r x -> alive x -> pending (nd_loop x) \/ match r with Idle | WaitForSync | ResetPipeline => True | _ => False end.
Proof.
  induction 1 as [s l Hs|r r' x y _ _ Hst|r x y Hd IH Hst]; intros Ha; [by left; left|by eapply steps_pipeline_pending|].
  destruct IH as [Hp|Hr]; [|left; by eapply other_step_pending|by right].
  destruct Hst as [Hst _]. revert Ha. destruct Hst as [x y Hst|x y Hc Hst|s l k q cs cl d Hk _]; [by destruct Hst|by destruct Hst|done].
Qed.

(** Derivation goes on.  While the loop runs, a step of the pipeline is requested, at once
    or after a delay, unless the last step ran out of data, waits for the engine, or asked
    for a reset.  A request is not lost but served: whatever else happens in between, the
    loop can take the step, or the tick of the delay after which it can.  And a new L1 head,
    a finality signal and a payload each request a step. *)
Theorem derivation_goes_on :
  (forall r x, derives r x -> alive x -> pending (nd_loop x) \/ r = Idle \/ r = WaitForSync \/ r = ResetPipeline) /\
  (forall x y, other_step x y -> alive y -> pending (nd_loop x) -> pending (nd_loop y)) /\
  (forall s i, pending s -> ticks StepTick s = true \/
     ticks DelayedStepTick s = true /\ exists s', on_tick config i DelayedStepTick s = (Ok (Some Continue), s') /\ ticks StepTick s' = true) /\
  (forall i r s a s', on_request config i r s = (Ok (Some a), s') ->
     match r with OnL1Head _ | OnL1Finalized _ | OnUnsafeL2Payload _ => pending s' | _ => True end).
Proof.
  split; [|split; [exact other_step_pending|split]].
  - intros r x Hd Ha. destruct (derives_reaches r x Hd Ha) as [?|?]; [by left|right]. destruct r; auto; done.
  - intros s i Hp. simpl. destruct (ls_stepReqCh s) eqn:E'; [by left|right]. destruct Hp as [Hp|Hp]; [congruence|].
    destruct (ls_delayedStepReq s); [|done]. split; [done|]. by eexists.
  - intros i r s a s' Hx. destruct r; try done; unfold on_request, bind at 1, get in Hx.
    + injection Hx as _ <-. apply reqStep_pending.
    + injection Hx as _ <-. apply reqStep_pending.
    + destruct (der_AddUnsafePayload _ _) as [[[u|e|] d]|]; try done. injection Hx as _ <-. apply reqStep_pending.
Qed.

(** ** Resets wait for a signal *)

Definition is_signal (r : request) : bool :=
  match r with OnL1Head _ | OnL1Finalized _ | OnUnsafeL2Payload _ => true | _ => false end.
Definition no_signals x : Prop := forall n r, (n, r) ∈ nd_queue x -> is_signal r = false.

Lemma on_request_requests i r : is_signal r = false -> preserves (same requests) (on_request config i r).
Proof.
  intros Hr s res s' Hx. unfold on_request, bind at 1, get in Hx.
  destruct r as [head|safe|fin|p| |hash| | | |num]; try done; try (injection Hx as _ <-; done).
  - case_if_in Hx; [by injection Hx as _ <-|]. case_if_in Hx; [by injection Hx as _ <-|]. revert Hx.
    refine (preserves_bind _ _ _ _ _ s res s'); [apply preserves_attempt, on_notifs_requests|].
    intros [u|e]; [|go_code]. refine (preserves_bind _ _ _ _ _); [by apply preserves_modify|intros []].
    refine (preserves_bind _ _ _ _ _); [by apply preserves_modify|intros []; go_code].
  - case_if_in Hx; [by injection Hx as _ <-|]. revert Hx.
    refine (preserves_bind _ _ _ _ _ s res s'); [apply preserves_attempt, on_notifs_requests|].
    intros [u|e]; [|go_code]. refine (preserves_bind _ _ _ _ _); [by apply preserves_modify|intros []; go_code].
Qed.

Lemma on_tick_requests i t s r s' :
  requests s = (false, None) -> ticks t s = true -> on_tick config i t s = (r, s') -> requests s' = requests s.
Proof.
  intros [= Hs Hd] Ht. destruct t; simpl in *; [| |by rewrite Hd in Ht|by rewrite Hs in Ht].
  - refine (preserves_bind (same requests) _ _ _ _ s _ s'); [apply on_sequencerCh_requests|intros; go_code].
  - refine (preserves_bind (same requests) _ _ _ _ s _ s'); [|intros; go_code].
    apply preserves_attempt. unfold checkForGapInUnsafeQueue. go_code; apply on_altSync_requests.
Qed.

Lemma idle_step x y : no_signals x -> driver_step x y -> requests (nd_loop x) = (false, None) -> requests (nd_loop y) = (false, None).
Proof.
  intros Hq Hst. revert Hq. destruct Hst as [x y Hst|x y _ Hst|s l k q cs cl d _ _]; [|by destruct Hst|done].
  destruct Hst as [i s l q cs cl|i t o s s' l q cs cl Ht Hx|i t s s' l q cs cl Ht Hx|i n r q1 q2 a s s' l cs cl _ Hx _|
      i n r q1 q2 s s' l cs cl _ Hx|n c s l q cs cl _ _ _|s l q cs]; intros Hq Hr; simpl in *; try done.
  - rewrite <- Hr. unfold loop_top. by repeat case_if.
  - rewrite <- Hr. by eapply on_tick_requests.
  - rewrite <- Hr. by eapply on_tick_requests.
  - rewrite <- Hr. eapply on_request_requests; [|exact Hx]. eapply (Hq n). apply elem_of_app. right. by left.
  - rewrite <- Hr. eapply on_request_requests; [|exact Hx]. eapply (Hq n). apply elem_of_app. right. by left.
Qed.

(** A forced reset is answered before it happens.  The answer to
    [ResetDerivationPipeline] is sent when the stages have only been marked for a reset, and
    no step of the pipeline is requested.  If none was requested before, the pipeline takes
    no step, and so resets no stage, until a new L1 head, a finality signal or a payload
    arrives. *)
Theorem forced_reset_is_only_scheduled i s :
  (exists s', on_request config i ResetDerivationPipeline s = (Ok (Some Done), s') /\
     derivation s' = ec_Reset (derivation s) /\ requests s' = requests s) /\
  forall x y, requests (nd_loop x) = (false, None) -> rtc (fun x y => driver_step x y /\ no_signals x) x y ->
    ticks StepTick (nd_loop y) = false /\ ticks DelayedStepTick (nd_loop y) = false.
Proof.
  split; [by eexists|]. intros x y Hx Hrun.
  assert (requests (nd_loop y) = (false, None)) as [= Hs Hd].
  { revert Hx. refine (run_keeps _ (fun x => requests (nd_loop x) = (false, None)) _ _ _ Hrun).
    intros x' y' [Hst Hq]. by apply idle_step. }
  simpl. by rewrite Hs, Hd.
Qed.

(** ** The end of the loop *)

Lemma ended_step x y : driver_step x y -> nd_control x = Ended /\ nd_close x <> Closed -> nd_control y = Ended /\ nd_close y <> Closed.
Proof.
  intros [x' y' Hst|x' y' _ Hst|s l k q cs cl d _ _] [Hk Hc]; [by destruct Hst|by destruct Hst; simpl in *; subst|done].
Qed.

(** [Close] hangs after a critical error.  A critical error of the pipeline or of the
    sequencer ends the loop without anybody calling [Close].  A call of [Close] that comes
    later, or that waits already, never returns: nobody is left to receive from [done]. *)
Theorem close_hangs_after_critical_error i t s s' l q cs cl y :
  ticks t s = true -> on_tick config i t s = (Ok (Some Return), s') -> cl <> Closed ->
  driver_step (mkNode s l Selecting q cs cl) (mkNode s' l Ended q cs cl) /\
  (rtc driver_step (mkNode s' l Ended q cs cl) y -> nd_control y = Ended /\ nd_close y <> Closed).
Proof.
  intros Ht Hx Hcl. split; [exact (driver_loop _ _ _ _ (loop_tick config i t Return s s' l q cs cl Ht Hx))|].
  intros Hrun. by apply (run_keeps _ (fun x => nd_control x = Ended /\ nd_close x <> Closed) ended_step _ _ Hrun).
Qed.
End Spec.

(** * The sequencer is never stranded

    A sequencer that may sequence has its next action planned, or builds a block for the
    safe chain.  The theorem is proved over what a derivation pipeline promises about its
    heads and about the block under construction, which [DriverPipeline.v] proves of the
    pipeline. *)


(** ** What a pipeline promises *)
Section Promises.
Context {D : Type} `{Derivation D}.
Implicit Types d : D.

(** The block under construction: what it is built onto, its ID, and whether it is for the
    safe chain. *)
Definition building_onto d : L2BlockRef := (ec_BuildingPayload d).1.1.
Definition building_safe d : bool := (ec_BuildingPayload d).2.

(** The two heads, and whether the engine has been reset. *)
Definition head_state d : L2BlockRef * L2BlockRef * bool := (ec_UnsafeL2Head d, der_SafeL2Head d, der_EngineReady d).

Definition kept d d' : Prop := head_state d' = head_state d /\ ec_BuildingPayload d' = ec_BuildingPayload d.

(** No block is under construction, or the engine is to be reset. *)
Definition cleared d d' : Prop :=
  der_EngineReady d' = false \/ der_EngineReady d' = true /\ building_onto d' = zeroL2.

(** The effect of a step: no block is under construction afterwards, or one for the safe
    chain, or the block is the one of before, the safe head is not lower, and the unsafe
    head is the one of before or higher. *)
Definition advanced d d' : Prop :=
  cleared d d' \/ building_safe d' = true \/
  der_EngineReady d = true /\ ec_BuildingPayload d' = ec_BuildingPayload d /\
  l2_Number (der_SafeL2Head d) <= l2_Number (der_SafeL2Head d') /\
  (ec_UnsafeL2Head d' = ec_UnsafeL2Head d \/ l2_Number (ec_UnsafeL2Head d) < l2_Number (ec_UnsafeL2Head d')).
End Promises.

Class SteadyDerivation (D : Type) `{Derivation D} := {
  steady_Step (d : D) r d' :
    l2_Number (ec_UnsafeL2Head d) < two64 -> der_Step d = (r, d') -> advanced d d';
  steady_Add p (d : D) r d' : der_AddUnsafePayload p d = Some (r, d') -> kept d d';
  steady_Finalize l1 (d : D) : kept d (der_Finalize l1 d);
  steady_SetL1Head l1 (d : D) : kept d (der_SetL1Head l1 d);
  steady_Reset (d : D) : der_EngineReady (ec_Reset d) = false;
  steady_Start parent attrs (d : D) r d' : ec_StartPayload parent attrs false d = (r, d') ->
    head_state d' = head_state d /\
    (ec_BuildingPayload d' = ec_BuildingPayload d \/ building_onto d' = parent /\ building_safe d' = false);
  steady_Confirm (d : D) r d' : ec_ConfirmPayload d = (r, d') -> kept d d' \/ cleared d d';
  steady_Cancel force (d : D) r d' : ec_CancelPayload force d = (r, d') -> kept d d' \/ cleared d d' }.

Section Liveness.
Context {D B Y N W A L : Type} `{FloatConversion} `{SteadyDerivation D} `{AttributesBuilder B} `{L1Chain Y}.
Context `{SequencerStateListener N} `{Network W} `{AltSync A}.
Context (L2BlockRefByNumber : Z -> M L L2BlockRef).
Context (config : Config).
Implicit Types (s : loop D B Y N W A) (x y : node D B Y N W A L) (d : D).

Abbreviation loop_step := (loop_step config).
Abbreviation driver_step := (driver_step L2BlockRefByNumber config).

(** The numbers in a state are far from the limit of [uint64], and no L1 head that is
    signalled is the zero reference. *)
Definition sane x : Prop :=
  0 <= SequencerMaxSafeLag (ls_driverConfig (nd_loop x)) < 2 ^ 63 /\
  0 <= l2_Number (der_SafeL2Head (derivation (nd_loop x))) < 2 ^ 63 /\
  0 <= l2_Number (ec_UnsafeL2Head (derivation (nd_loop x))) < 2 ^ 63 /\
  forall n head, (n, OnL1Head head) ∈ nd_queue x -> head <> zeroL1.

(** The conditions on the driver, apart from the engine. *)
Definition wants_to_sequence s : bool :=
  SequencerEnabled (ls_driverConfig s) && negb (SequencerStopped (ls_driverConfig s))
  && bool_decide (l1s_L1Head (ls_l1State s) <> zeroL1).

Lemma may_sequence_wants s : may_sequence s = wants_to_sequence s && der_EngineReady (derivation s).
Proof. done. Qed.

(** A block of the sequencer is built onto a block below the head, or onto the head; then
    the next action is planned while it is wanted. *)
Definition planned s : Prop :=
  let d := derivation s in
  der_EngineReady d = true -> building_safe d = false ->
  building_onto d = zeroL2 \/ l2_Number (building_onto d) < l2_Number (ec_UnsafeL2Head d) \/
  l2_ID (building_onto d) = l2_ID (ec_UnsafeL2Head d) /\ lags s = false /\ l1s_L1Head (ls_l1State s) <> zeroL1 /\
  (wants_to_sequence s = true -> ls_sequencerCh s = true).

(** What [planned] depends on. *)
Definition plan_state s :=
  (head_state (derivation s), ec_BuildingPayload (derivation s), ls_driverConfig s, l1s_L1Head (ls_l1State s), ls_sequencerCh s).

Lemma planned_ext s s' : plan_state s' = plan_state s -> planned s -> planned s'.
Proof.
  intros [= Hu Hsf Hrd Hbl Hc Hl Hch]. unfold planned, lags, wants_to_sequence, building_onto, building_safe.
  by rewrite Hu, Hsf, Hrd, Hbl, Hc, Hl, Hch.
Qed.

Lemma planned_kept s s' :
  kept (derivation s) (derivation s') -> ls_driverConfig s' = ls_driverConfig s ->
  l1s_L1Head (ls_l1State s') = l1s_L1Head (ls_l1State s) -> ls_sequencerCh s' = ls_sequencerCh s ->
  planned s -> planned s'.
Proof. intros [Hh Hb] Hc Hl Hs. apply planned_ext. unfold plan_state. by rewrite Hh, Hb, Hc, Hl, Hs. Qed.

Lemma planned_cleared s' d : cleared d (derivation s') -> planned s'.
Proof. intros [Hc|[_ Hc]] Hr Hs; [congruence|by left]. Qed.

Lemma lags_mono s s' :
  ls_driverConfig s' = ls_driverConfig s -> 
  0 <= SequencerMaxSafeLag (ls_driverConfig s) < 2 ^ 63 ->
  0 <= l2_Number (der_SafeL2Head (derivation s)) ->
  l2_Number (der_SafeL2Head (derivation s)) <= l2_Number (der_SafeL2Head (derivation s')) < 2 ^ 63 ->
  ec_UnsafeL2Head (derivation s') = ec_UnsafeL2Head (derivation s) -> lags s = false -> lags s' = false.
Proof.
  intros Hc Hm Hs Hs' Hu. unfold lags. rewrite Hc, Hu, !u64_small by (unfold two64; lia). lia.
Qed.

(** The effect of a step of the pipeline. *)
Lemma planned_advanced s s' :
  advanced (derivation s) (derivation s') -> ls_driverConfig s' = ls_driverConfig s ->
  l1s_L1Head (ls_l1State s') = l1s_L1Head (ls_l1State s) -> ls_sequencerCh s' = ls_sequencerCh s ->
  0 <= SequencerMaxSafeLag (ls_driverConfig s) < 2 ^ 63 -> 0 <= l2_Number (der_SafeL2Head (derivation s)) ->
  l2_Number (der_SafeL2Head (derivation s')) < 2 ^ 63 ->
  planned s -> planned s'.
Proof.
  intros [Ha|[Ha|(Hr & Hb & Hsf & Hu)]] Hc Hl Hch Hm Hs0 Hs1 Hp; [by eapply planned_cleared|intros _ ?; congruence|].
  unfold planned in *. intros _ Hs. unfold building_onto, building_safe in *. rewrite Hb in *.
  destruct (Hp Hr Hs) as [?|[?|(Hid & Hlag & Hl1 & Hw)]]; [by left|right; left; destruct Hu as [->|]; lia|right].
  destruct Hu as [Hu|Hu].
  - right. rewrite Hu, Hl, Hch. split; [done|]. split; [by eapply lags_mono|]. split; [done|].
    unfold wants_to_sequence in *. by rewrite Hc, Hl.
  - left. injection Hid as _ Hn. lia.
Qed.

(** ** The actions of the sequencer *)

Definition undisturbed (q q' : Sequencer D B (confDepth Y)) : Prop :=
  kept (sq_engine q) (sq_engine q') \/ cleared (sq_engine q) (sq_engine q').

#[local] Instance undisturbed_preorder : PreOrder undisturbed.
Proof.
  split; [by left|]. intros q1 q2 q3 H12 [[Hh Hb]|H23]; [|by right].
  destruct H12 as [[Hh' Hb']|Hc]; [left; split; congruence|right]. unfold cleared, building_onto in *. rewrite Hb.
  injection Hh as _ _ Hr. by rewrite Hr.
Qed.

Lemma hold_off_undisturbed now : preserves undisturbed (hold_off config (EC:=D) (B:=B) (X:=confDepth Y) now).
Proof. apply preserves_modify. by left. Qed.
Lemma retry_soon_undisturbed now : preserves undisturbed (retry_soon (EC:=D) (B:=B) (X:=confDepth Y) now).
Proof. apply preserves_modify. by left. Qed.
Lemma reset_engine_undisturbed : preserves undisturbed (reset_engine (EC:=D) (B:=B) (X:=confDepth Y)).
Proof. apply preserves_modify. intros q. right. left. apply steady_Reset. Qed.
Lemma on_ec_undisturbed {R} (m : M D R) :
  (forall d r d', m d = (r, d') -> kept d d' \/ cleared d d') ->
  preserves undisturbed (on_ec (B:=B) (X:=confDepth Y) m).
Proof. intros Hm q r q'. unfold on_ec, zoom. destruct (m (sq_engine q)) eqn:E'. intros [= _ <-]. by eapply Hm. Qed.

Lemma complete_undisturbed : preserves undisturbed (CompleteBuildingBlock (EC:=D) (B:=B) (X:=confDepth Y)).
Proof. unfold CompleteBuildingBlock. go_code. apply on_ec_undisturbed, steady_Confirm. Qed.
Lemma cancel_undisturbed : preserves undisturbed (CancelBuildingBlock (EC:=D) (B:=B) (X:=confDepth Y)).
Proof. unfold CancelBuildingBlock. go_code. apply on_ec_undisturbed. intros d r d'. apply steady_Cancel. Qed.

(** An action clears the block under construction, leaves it, or starts one on the head. *)
Definition acted d d' : Prop :=
  cleared d d' \/ head_state d' = head_state d /\
    (ec_BuildingPayload d' = ec_BuildingPayload d \/ building_onto d' = ec_UnsafeL2Head d /\ building_safe d' = false).

Lemma start_acts (q : Sequencer D B (confDepth Y)) r q' : StartBuildingBlock config q = (r, q') -> acted (sq_engine q) (sq_engine q').
Proof.
  unfold StartBuildingBlock, bind at 1, get.
  assert (preserves (same sq_engine) (sequencer_attributes config (EC:=D) (B:=B) (X:=confDepth Y) (ec_UnsafeL2Head (sq_engine q)))) as Ha.
  { unfold sequencer_attributes. go_code; by apply preserves_zoom. }
  intros [(attrs & q1 & Hq & Hx)|[(e & Hq & ->)|[Hq ->]]]%bind_cases; apply Ha in Hq; unfold same in Hq; [|right; rewrite Hq; auto..].
  unfold on_ec, bind, zoom in Hx. destruct (ec_StartPayload _ attrs false (sq_engine q1)) as [rs d'] eqn:Es.
  assert (sq_engine q' = d') as ->.
  { destruct rs as [[[]|[? ?]]|e|]; by injection Hx as _ <-. }
  apply steady_Start in Es as [Hh Hb]. rewrite Hq in *. right. by split.
Qed.

Lemma action_acts now (q : Sequencer D B (confDepth Y)) r q' :
  RunNextSequencerAction config now q = (r, q') -> acted (sq_engine q) (sq_engine q').
Proof.
  assert (forall m : M (Sequencer D B (confDepth Y)) (option ExecutionPayload), preserves undisturbed m ->
    m q = (r, q') -> acted (sq_engine q) (sq_engine q')) as Hu.
  { intros m Hm [[Hh Hb]|Hc]%Hm; [right; auto|by left]. }
  pose proof hold_off_undisturbed. pose proof retry_soon_undisturbed. pose proof reset_engine_undisturbed.
  pose proof complete_undisturbed. pose proof cancel_undisturbed.
  unfold RunNextSequencerAction, bind at 1, get. destruct (ec_BuildingPayload (sq_engine q)) as [[onto id] safe].
  destruct (negb (id =? 0)).
  - apply Hu. go_code.
  - intros [(a & q1 & Hs & Hx)|[(e & Hs & _)|[Hs _]]]%bind_cases; [|by apply attempt_not_Err in Hs|].
    2: { unfold attempt in Hs. destruct (StartBuildingBlock config q) as [[?|?|] ?] eqn:Es; try done.
         injection Hs as <-. by eapply start_acts. }
    assert (acted (sq_engine q) (sq_engine q1)) as Ha.
    { unfold attempt in Hs. destruct (StartBuildingBlock config q) as [[?|?|] ?] eqn:Es; try done;
        injection Hs as _ <-; by eapply start_acts. }
    destruct a as [u|err]; [by injection Hx as _ <-|]. case_if_in Hx; [by injection Hx as _ <-|].
    case_if_in Hx; [|by injection Hx as _ <-]. injection Hx as _ <-. left. left. apply steady_Reset.
Qed.

(** ** The plan is kept *)

Lemma lags_ext s s' :
  head_state (derivation s') = head_state (derivation s) ->
  SequencerMaxSafeLag (ls_driverConfig s') = SequencerMaxSafeLag (ls_driverConfig s) -> lags s' = lags s.
Proof. intros [= Hu Hsf _] Hm. unfold lags. by rewrite Hu, Hsf, Hm. Qed.

Lemma planned_change s s' :
  kept (derivation s) (derivation s') ->
  SequencerMaxSafeLag (ls_driverConfig s') = SequencerMaxSafeLag (ls_driverConfig s) ->
  (l1s_L1Head (ls_l1State s) <> zeroL1 -> lags s = false -> (wants_to_sequence s = true -> ls_sequencerCh s = true) ->
   l1s_L1Head (ls_l1State s') <> zeroL1 /\ (wants_to_sequence s' = true -> der_EngineReady (derivation s') = true -> ls_sequencerCh s' = true)) ->
  planned s -> planned s'.
Proof.
  intros [Hh Hb] Hm Hw Hp Hr Hs. pose proof Hh as [= Hu Hsf Hrd]. pose proof (lags_ext _ _ Hh Hm) as Hlag.
  unfold planned in Hp. unfold building_onto, building_safe in *. rewrite Hb, Hu in *.
  destruct (Hp ltac:(congruence) Hs) as [?|[?|(Hid & Hl & Hz & Hc)]]; [by left|by right; left|right; right].
  destruct (Hw Hz Hl Hc) as [Hz' Hc']. rewrite Hlag. split_and!; try done. intros Hw'. by apply Hc'.
Qed.

Lemma kept_refl (d : D) : kept d d.
Proof. done. Qed.

Lemma loop_top_planned i s : planned s -> planned (loop_top config i s).
Proof.
  assert (forall s', planned s' -> planned (if bool_decide (ec_UnsafeL2Head (derivation s') <> ls_lastUnsafeL2 s') || negb (der_EngineReady (derivation s'))
    then set_lastUnsafeL2 (ec_UnsafeL2Head (derivation s')) s' else s')) as Hlast.
  { intros s' Hp. case_if; [|done]. revert Hp. by apply planned_ext. }
  intros Hp. unfold loop_top. destruct (may_sequence s) eqn:Em; [destruct (lags s) eqn:El|].
  - apply Hlast. revert Hp. apply planned_change; [done..|]. intros _ Hl. congruence.
  - apply (Hlast (if negb (builds_on_head s) then planSequencerAction config i s else s)). case_if; [|done].
    revert Hp. apply planned_change; [done..|]. by intros Hz _ _.
  - apply Hlast. revert Hp. apply planned_change; [done..|]. intros Hz _ _. split; [done|]. intros Hw Hr.
    rewrite may_sequence_wants in Em. change (wants_to_sequence s = true) in Hw. change (der_EngineReady (derivation s) = true) in Hr.
    by rewrite Hw, Hr in Em.
Qed.

(** A tick of the sequencer's timer. *)
Lemma on_sequencerCh_Continue i s s' :
  on_sequencerCh config i s = (Ok Continue, s') ->
  exists payload q', RunNextSequencerAction config (in_now i) (ls_sequencer s) = (Ok payload, q') /\
    ls_sequencer s' = q' /\ ls_driverConfig s' = ls_driverConfig s /\ ls_l1State s' = ls_l1State s /\
    ls_sequencerCh s' = true /\ tm_armed (ls_sequencerTimer s') <> None.
Proof.
  unfold on_sequencerCh. intros (u & s1 & [= _ <-] & Hx)%bind_Ok. apply bind_Ok in Hx as (r & s2 & Hr & Hx).
  destruct r as [payload|e]; [|done]. apply (proj1 (attempt_Ok_inl _ _ _ _)) in Hr.
  unfold on_sequencer, zoom in Hr. destruct (RunNextSequencerAction _ _ _) as [rr q'] eqn:Er. injection Hr as -> <-.
  exists payload, q'. split; [done|]. apply bind_Ok in Hx as (u' & s3 & Hp & Hx). injection Hx as <-.
  unfold publish in Hp. destruct (ls_network _), payload; [destruct (net_PublishL2Payload _ _) as [[?|?|] ?]|..]; try done;
    injection Hp as _ <-; done.
Qed.

Lemma sequencer_tick_planned i s s' :
  on_sequencerCh config i s = (Ok Continue, s') -> may_sequence s = true -> lags s = false -> planned s -> planned s'.
Proof.
  intros (payload & q' & Hrun & Hq & Hc & Hl & Hch & _)%on_sequencerCh_Continue Hm Hlag Hp.
  apply action_acts in Hrun. change (acted (derivation s) (sq_engine q')) in Hrun. rewrite <- Hq in Hrun.
  change (acted (derivation s) (derivation s')) in Hrun. destruct Hrun as [Hcl|[Hh [Hb|[Ho Hs]]]]; [by eapply planned_cleared| |].
  - revert Hp. apply planned_change; [by split|by rewrite Hc|]. rewrite Hl. by intros Hz _ _.
  - intros _ _. right; right. pose proof Hh as [= Hu _ _]. rewrite Ho, Hu, (lags_ext s s' Hh), Hl by (by rewrite Hc).
    unfold may_sequence in Hm. zify_bools. by split_and!.
Qed.

Lemma on_request_planned i r s a s' :
  on_request config i r s = (Ok (Some a), s') -> (forall head, r = OnL1Head head -> head <> zeroL1) ->
  planned s -> planned s'.
Proof.
  assert (forall s, planned s -> planned (reqStep i s)) as Hreq.
  { intros s0. unfold reqStep, step. case_if; [destruct (ls_delayedStepReq s0)|]; [done|by apply planned_ext..]. }
  assert (forall s s' d, derivation s' = d -> ls_driverConfig s' = ls_driverConfig s -> l1s_L1Head (ls_l1State s') = l1s_L1Head (ls_l1State s) ->
    ls_sequencerCh s' = ls_sequencerCh s -> kept (derivation s) d -> planned s -> planned s') as Hk.
  { intros s0 s0' d <- ? ? ? ?. by apply planned_kept. }
  intros Hx Hz Hp. unfold on_request, bind at 1, get in Hx. destruct r as [head|safe|fin|p| |hash| | | |num].
  - injection Hx as _ <-. apply Hreq. revert Hp. apply planned_change; [apply steady_SetL1Head|done|].
    intros Hz0 _ Hw. specialize (Hz head eq_refl). split; [done|]. intros Hw' _. apply Hw. revert Hw'.
    unfold wants_to_sequence. simpl. by rewrite !(bool_decide_eq_true_2 (_ <> zeroL1)) by done.
  - injection Hx as _ <-. revert Hp. by apply planned_ext.
  - injection Hx as _ <-. apply Hreq. revert Hp. eapply Hk; try done. apply steady_Finalize.
  - destruct (der_AddUnsafePayload _ _) as [[[u|e|] d]|] eqn:Ea; try done. injection Hx as _ <-.
    apply Hreq. revert Hp. eapply Hk; try done. by eapply steady_Add.
  - injection Hx as _ <-. intros Hr. change (der_EngineReady (ec_Reset (derivation s)) = true) in Hr. by rewrite steady_Reset in Hr.
  - case_if_in Hx; [by injection Hx as _ <-|]. case_if_in Hx; [by injection Hx as _ <-|].
    apply bind_Ok in Hx as (r & s1 & Hr & Hx). assert (plan_state s1 = plan_state s) as Hs1.
    { revert Hr. refine (preserves_attempt (same plan_state) _ _ s _ s1). by apply preserves_zoom. }
    destruct r as [u|e]; [|injection Hx as _ <-; by apply (planned_ext s)]. injection Hx as _ <-.
    apply (planned_ext _ _ Hs1) in Hp. revert Hp. apply planned_change; [done..|]. by intros Hz0 _ _.
  - case_if_in Hx; [by injection Hx as _ <-|].
    apply bind_Ok in Hx as (r & s1 & Hr & Hx). assert (plan_state s1 = plan_state s) as Hs1.
    { revert Hr. refine (preserves_attempt (same plan_state) _ _ s _ s1). by apply preserves_zoom. }
    destruct r as [u|e]; [|injection Hx as _ <-; by apply (planned_ext s)]. injection Hx as _ <-.
    apply (planned_ext _ _ Hs1) in Hp. revert Hp. apply planned_change; [done..|]. intros Hz0 _ _. split; [done|].
    unfold wants_to_sequence. simpl. by rewrite andb_false_r.
  - by injection Hx as _ <-.
  - done.
  - done.
Qed.

Lemma react_plan i err s o s' :
  react i err s = (Ok o, s') -> o = Continue ->
  der_EngineReady (derivation s') = false \/ plan_state s' = plan_state s.
Proof.
  assert (forall s, plan_state (reqStep i s) = plan_state s) as Hreq.
  { intros s0. unfold reqStep. case_if; [by destruct (ls_delayedStepReq s0)|done]. }
  unfold react. destruct (driver_reaction err); intros Hx ->; first [discriminate Hx|injection Hx as <-]; try (by right);
    try (right; by rewrite Hreq).
  left. apply steady_Reset.
Qed.

Lemma on_tick_planned i t s s' :
  on_tick config i t s = (Ok (Some Continue), s') ->
  (t = SequencerTick -> may_sequence s = true /\ lags s = false) ->
  0 <= SequencerMaxSafeLag (ls_driverConfig s) < 2 ^ 63 -> 0 <= l2_Number (der_SafeL2Head (derivation s)) ->
  l2_Number (ec_UnsafeL2Head (derivation s)) < 2 ^ 63 ->
  l2_Number (der_SafeL2Head (derivation s')) < 2 ^ 63 -> planned s -> planned s'.
Proof.
  intros Hx Ht Hm Hs0 Hu Hs1 Hp. destruct t.
  - simpl in Hx. apply bind_Ok in Hx as (o & s1 & Hx & [= -> <-]). destruct (Ht eq_refl). by eapply sequencer_tick_planned.
  - simpl in Hx. apply bind_Ok in Hx as (r & s1 & Hx & [= <-]). revert Hp. apply planned_ext.
    assert (preserves (same (plan_state)) (checkForGapInUnsafeQueue (D:=D) (B:=B) (Y:=Y) (N:=N) (W:=W) (A:=A))) as Hc.
    { unfold checkForGapInUnsafeQueue. go_code; by apply preserves_zoom. }
    exact (preserves_attempt _ _ Hc _ _ _ Hx).
  - injection Hx as <-. revert Hp. by apply planned_ext.
  - apply step_tick_cases in Hx as (res & d & Hd & Hx).
    apply react_plan in Hx as [Hr0|Hx]; [intros Hr; by rewrite Hr0 in Hr| |done].
    apply (planned_ext _ _ Hx). injection Hx as _ Hsf _ _ _ _ _. change (der_SafeL2Head (derivation s') = der_SafeL2Head d) in Hsf.
    eapply (planned_advanced s); try done; [eapply steady_Step; [|exact Hd]; unfold two64; lia|].
    change (l2_Number (der_SafeL2Head d) < 2 ^ 63). by rewrite <- Hsf.
Qed.

Definition timer_ok s : Prop :=
  ls_sequencerCh s = true -> tm_armed (ls_sequencerTimer s) <> None \/ tm_full (ls_sequencerTimer s) = true.
Definition not_stranded s : Prop :=
  may_sequence s = true -> lags s = false ->
  ls_sequencerCh s = true \/ building_safe (derivation s) = true \/ l2_ID (ec_UnsafeL2Head (derivation s)) = l2_ID zeroL2.

Lemma loop_top_not_stranded i s : planned s -> not_stranded (loop_top config i s).
Proof.
  intros Hp. unfold loop_top. destruct (may_sequence s) eqn:Em; [destruct (lags s) eqn:El|].
  - intros _ Hl. case_if; change (lags s = false) in Hl; congruence.
  - destruct (builds_on_head s) eqn:Eb; simpl negb; cbv iota; [|case_if; by left].
    assert (not_stranded s) as Hn; [|by case_if].
    intros _ _. destruct (building_safe (derivation s)) eqn:Es; [by right; left|].
    unfold builds_on_head in Eb. apply bool_decide_eq_true in Eb. change (l2_ID (building_onto (derivation s)) = l2_ID (ec_UnsafeL2Head (derivation s))) in Eb.
    rewrite may_sequence_wants in Em. apply andb_true_iff in Em as [Hw Hr].
    destruct (Hp Hr Es) as [Ho|[Ho|(_ & _ & _ & Hc)]].
    + right; right. by rewrite <- Eb, Ho.
    + injection Eb as _ Hn. lia.
    + left. by apply Hc.
  - intros Hm. case_if; change (may_sequence s = true) in Hm; congruence.
Qed.

Lemma loop_top_timer i s : timer_ok s -> timer_ok (loop_top config i s).
Proof.
  intros Ht. unfold loop_top. destruct (may_sequence s); [destruct (lags s); [|destruct (negb _)]|]; case_if;
    first [done|by intros|intros _; by left].
Qed.

Lemma on_notifs_timer {R} (m : M N R) : preserves (keeps timer_ok) (on_notifs (D:=D) (B:=B) (Y:=Y) (W:=W) (A:=A) m).
Proof. apply preserves_zoom. by intros n s Ht. Qed.
Lemma on_altSync_timer {R} (m : M A R) : preserves (keeps timer_ok) (on_altSync (D:=D) (B:=B) (Y:=Y) (N:=N) (W:=W) m).
Proof. apply preserves_zoom. by intros a s Ht. Qed.

Lemma on_request_timer i r : preserves (keeps timer_ok) (on_request config i r).
Proof.
  assert (forall s, timer_ok s -> timer_ok (reqStep i s)) as Hreq.
  { intros s0. unfold reqStep. case_if; [by destruct (ls_delayedStepReq s0)|done]. }
  intros s res s' Hx Ht. unfold on_request, bind at 1, get in Hx.
  destruct r as [head|safe|fin|p| |hash| | | |num]; try (injection Hx as _ <-; first [exact Ht|by apply Hreq]).
  - destruct (der_AddUnsafePayload _ _) as [[[u|e|] d]|]; injection Hx as _ <-; try exact Ht. by apply Hreq.
  - case_if_in Hx; [by injection Hx as _ <-|]. case_if_in Hx; [by injection Hx as _ <-|].
    revert Ht. revert Hx. refine (preserves_bind (keeps timer_ok) _ _ _ _ s _ s'); [apply preserves_attempt, on_notifs_timer|].
    intros [u|e]; [|go_code]. refine (preserves_bind _ _ _ _ _); [apply preserves_modify; by intros s0 Hs0|intros []].
    refine (preserves_bind _ _ _ _ _); [apply preserves_modify|intros []; go_code]. intros s0 _ _. by left.
  - case_if_in Hx; [by injection Hx as _ <-|].
    revert Ht. revert Hx. refine (preserves_bind (keeps timer_ok) _ _ _ _ s _ s'); [apply preserves_attempt, on_notifs_timer|].
    intros [u|e]; [|go_code]. refine (preserves_bind _ _ _ _ _); [apply preserves_modify; by intros s0 Hs0|intros []; go_code].
Qed.

Lemma on_tick_timer i t s s' : on_tick config i t s = (Ok (Some Continue), s') -> timer_ok s -> timer_ok s'.
Proof.
  intros Hx Ht. destruct t.
  - simpl in Hx. apply bind_Ok in Hx as (o & s1 & Hx & [= -> <-]).
    apply on_sequencerCh_Continue in Hx as (? & ? & _ & _ & _ & _ & _ & Ha). intros _. by left.
  - simpl in Hx. apply bind_Ok in Hx as (r & s1 & Hx & [= <-]).
    assert (preserves (keeps timer_ok) (checkForGapInUnsafeQueue (D:=D) (B:=B) (Y:=Y) (N:=N) (W:=W) (A:=A))) as Hc.
    { unfold checkForGapInUnsafeQueue. go_code; apply on_altSync_timer. }
    exact (preserves_attempt _ _ Hc _ _ _ Hx Ht).
  - by injection Hx as <-.
  - apply step_tick_cases in Hx as (res & d & _ & Hx).
    assert (forall s, timer_ok s -> timer_ok (reqStep i s)) as Hreq.
    { intros s0. unfold reqStep. case_if; [by destruct (ls_delayedStepReq s0)|done]. }
    unfold react in Hx. destruct (driver_reaction _); first [discriminate Hx|injection Hx as <-]; try done; by apply Hreq.
Qed.

(** ** The invariant of the loop *)

Definition sequencing_ok x : Prop :=
  match nd_control x with
  | Ended | Crashed => True
  | k => planned (nd_loop x) /\ timer_ok (nd_loop x) /\ ticks_allowed x /\ (k = Selecting -> not_stranded (nd_loop x))
  end.

Lemma sequencing_ok_step x y : driver_step x y -> sane x -> sane y -> sequencing_ok x -> sequencing_ok y.
Proof.
  intros Hst Hsx Hsy Hx. pose proof (ticks_allowed_step _ _ _ _ Hst) as Hta.
  destruct Hst as [x y Hst|x y Hnc Hst|s l k q cs cl d Hk Ha].
  - destruct Hst as [i s l q cs cl|i t o s s' l q cs cl Ht Hx'|i t s s' l q cs cl _ _|i n r q1 q2 a s s' l cs cl _ Hx' _|
      i n r q1 q2 s s' l cs cl _ _|n c s l q cs cl _ _ _|s l q cs]; try done.
    + destruct Hx as (Hp & Htm & _ & _). unfold sequencing_ok. simpl. split_and!; [by apply loop_top_planned|by apply loop_top_timer|by apply Hta|].
      intros _. by apply loop_top_not_stranded.
    + destruct o; [|done]. destruct Hx as (Hp & Htm & Hal & _). destruct Hsx as (S1 & S2 & S3 & _), Hsy as (_ & S4 & _). cbn [nd_loop nd_queue] in *.
      split_and!; [|by eapply on_tick_timer|by apply Hta|done].
      eapply on_tick_planned; [exact Hx'| |done|lia|lia|exact (proj2 S4)|done]. intros ->. simpl in Ht. apply andb_true_iff in Ht as [Ht _]. by apply Hal.
    + destruct Hx as (Hp & Htm & Hal & _). split_and!; [|by eapply on_request_timer|by apply Hta|done].
      eapply on_request_planned; [exact Hx'| |done]. intros head ->. destruct Hsx as (_ & _ & _ & Hq). apply (Hq n).
      apply elem_of_app. right. by left.
    + destruct Hx as (Hp & Htm & Hal & _). split_and!; [done|done|by apply Hta|done].
  - assert (sequencing_ok x -> nd_loop y = nd_loop x /\ (nd_control y = nd_control x \/ nd_control y = AtTop /\ exists n, nd_control x = Holding n \/ nd_control y = Crashed) -> sequencing_ok y) as Hc.
    { unfold sequencing_ok. intros Hs [Hl Hk]. rewrite Hl. destruct Hk as [Hk|(Hk & n & [Hk'|Hk'])].
      - rewrite Hk. destruct (nd_control x); try done; destruct Hs as (? & ? & Hal & ?); (split_and!; [done|done|by apply Hta|done]).
      - rewrite Hk. rewrite Hk' in Hs. destruct Hs as (? & ? & Hal & ?). split_and!; [done|done|by apply Hta|done].
      - congruence. }
    destruct Hst; try done; apply Hc; try done; simpl; eauto 6.
  - unfold sequencing_ok in *. simpl in *. destruct k; try done; destruct Hx as (Hp & Htm & Hal & Hn); (split_and!; [|intros _; by right|by apply Hta|]); try done.
    all: revert Hp; by apply planned_ext.
Qed.

Definition sane_step x y : Prop := driver_step x y /\ sane x /\ sane y.

Lemma Start_ok s0 u s : Start s0 = (Ok u, s) ->
  der_EngineReady (derivation s) = false /\ ls_sequencerCh s = false /\ ls_stepReqCh s = true.
Proof.
  unfold Start. intros (u1 & s1 & [= _ <-] & Hx)%bind_Ok. apply bind_Ok in Hx as (s1' & s1 & [= <- <-] & Hx).
  apply bind_Ok in Hx as (u2 & s2 & Hn & [= _ <-]). split; [|done].
  assert (derivation s2 = ec_Reset (derivation s0)) as Hd; [|change (der_EngineReady (derivation s2) = false); rewrite Hd; apply steady_Reset].
  case_if_in Hn; [|by injection Hn as _ <-]. apply (proj1 (wrapE_Ok _ _ _ _ _)) in Hn. unfold on_notifs, zoom in Hn.
  match type of Hn with (let '(r, t) := ?m in _) = _ => destruct m as [r n] end. by injection Hn as _ <-.
Qed.

Lemma started_sequencing s0 u s l : Start s0 = (Ok u, s) -> sequencing_ok (started s l).
Proof.
  intros (Hr & Hc & _)%Start_ok. split_and!; [|intros Hch; simpl in Hch; congruence|done|done]. intros Hr'. simpl in Hr'. congruence.
Qed.

(** C24: the sequencer is never stranded.  Take a run of a node that was started, in which the
    numbers of blocks stay far from the limit of their type and no signalled L1 head is the
    zero reference.  Whenever the loop waits at its [select], and sequencing is enabled and
    not stopped, an L1 head is known, the engine is ready and the safe head does not lag, the
    loop listens to the sequencer's timer, which has fired or is armed; the only other cases
    are that a block for the safe chain is under construction, or that the head of the
    chain is the zero reference. *)
Theorem sequencer_never_stranded s0 s l x :
  Start s0 = (Ok tt, s) -> rtc sane_step (started s l) x ->
  nd_control x = Selecting -> may_sequence (nd_loop x) = true -> lags (nd_loop x) = false ->
  let t := ls_sequencerTimer (nd_loop x) in let d := derivation (nd_loop x) in
  ls_sequencerCh (nd_loop x) = true /\ (tm_full t = true \/ tm_armed t <> None) \/
  building_safe d = true \/ l2_ID (ec_UnsafeL2Head d) = l2_ID zeroL2.
Proof.
  intros Hs Hrun Hk Hm Hl t d.
  assert (sequencing_ok x) as Hx.
  { apply (run_keeps sane_step sequencing_ok) with (x := started s l); [|done|by eapply started_sequencing].
    intros x' y' (Hst & Hx & Hy). by apply sequencing_ok_step. }
  unfold sequencing_ok in Hx. rewrite Hk in Hx. destruct Hx as (_ & Ht & _ & Hn).
  destruct (Hn eq_refl Hm Hl) as [Hc|Hc]; [|by right]. left. split; [done|]. destruct (Ht Hc); auto.
Qed.
End Liveness.
