(* ===== verification/DriverPipeline.v ===== *)
(** * The driver over the derivation pipeline

    The pipeline as the [DerivationPipeline] of the driver: it keeps the promises of
    [DriverSpec.v], and the driver calls it only in ways that its theorems cover. *)
From S2P Require Import Prelude GoErrors GoBytes EthTypes Geth Solabi SystemConfigUpdate Frame Channel Batch.
From S2P Require Import ChannelBank L1Stages Payloads BatchQueue Attributes PayloadsQueue EngineUpdate SyncStart EngineQueue.
From S2P Require Import EngineQueueSpec EngineQueueSafety Pipeline PipelineSpec Sequencing Driver DriverSpec.
#[local] Open Scope Z_scope.

(** ** The engine queue *)
Section Queue.
Context {E P L : Type} `{Engine E} `{NextAttributesProvider P} `{L1Chain L} `{Keccak} `{TxCodec}.
Context (cfg : Config) (syncCfg : SyncConfig).
Import EngineQueue.
Implicit Types q : t E P L.

(** The engine returns the block of the number it is asked for. *)
Class NumberedEngine : Prop := {
  found_by_number k (e : E) p e' : eng_PayloadByNumber k e = (Ok p, e') -> ep_BlockNumber p = k }.

(** The block under construction and the heads, and what the calls do to them. *)
Definition building q : L2BlockRef * Z * bool := (buildingOnto q, buildingID q, buildingSafe q).

Definition advances q q' : Prop :=
  buildingOnto q' = zeroL2 \/ buildingSafe q' = true \/
  building q' = building q /\ l2_Number (safeHead q) <= l2_Number (safeHead q') /\
  (unsafeHead q' = unsafeHead q \/ l2_Number (unsafeHead q) < l2_Number (unsafeHead q')).

#[export] Instance advances_preorder : PreOrder advances.
Proof.
  split; [intros q; right; right; split_and!; auto; lia|].
  intros q1 q2 q3 H12 [H23|[H23|(B23 & S23 & U23)]]; [by left|by right; left|]. pose proof B23 as [= Bo _ Bs].
  destruct H12 as [H12|[H12|(B12 & S12 & U12)]]; [left; congruence|right; left; congruence|right; right].
  split; [congruence|]. split; [lia|]. destruct U12 as [U12|U12], U23 as [U23|U23]; rewrite ?U23, <- ?U12; auto; right; first [done|lia].
Qed.

#[export] Instance advances_respects : Respects advances.
Proof. split; intros; right; right; split_and!; auto; simpl; lia. Qed.

(** An assignment that concerns neither. *)
Lemma advances_same q q' :
  building q' = building q -> safeHead q' = safeHead q -> unsafeHead q' = unsafeHead q -> advances q q'.
Proof. intros Hb Hs Hu. right; right. rewrite Hs. split_and!; auto; lia. Qed.

Lemma Finalize_same o q : (building (Finalize o q), safeHead (Finalize o q), unsafeHead (Finalize o q)) = (building q, safeHead q, unsafeHead q).
Proof.
  unfold Finalize, tryFinalizeL2. case_if; [done|]. case_if; [|done]. case_bool_decide; [done|]. by destruct (foldl _ _ _).
Qed.

Lemma AddUnsafePayload_same p q r q' : AddUnsafePayload p q = Some (r, q') ->
  (building q', safeHead q', unsafeHead q') = (building q, safeHead q, unsafeHead q).
Proof.
  unfold AddUnsafePayload. destruct p; [|by intros [= _ <-]].
  destruct (Push _ _) as [[[|?|] ?]|]; [destruct (Peek _)|..]; try done; by intros [= _ <-].
Qed.

Lemma StartPayload_building parent attrs safe q r q' :
  StartPayload parent attrs safe q = (r, q') ->
  (safeHead q', unsafeHead q') = (safeHead q, unsafeHead q) /\
  (building q' = building q \/ buildingOnto q' = parent /\ buildingSafe q' = safe).
Proof.
  unfold StartPayload, bind at 1, get. case_if; [by intros [= <- <-]; auto|].
  intros [(id & q1 & (e1 & He & ->)%zoom_Ok & Hk)|[(e & (e1 & _ & ->)%zoom_Ok & ->)|[(e1 & _ & ->)%zoom_Ok ->]]]%bind_cases;
    [|auto..]. destruct id as [id|[ty err]]; injection Hk as _ <-; auto.
Qed.

Lemma ConfirmPayload_building q r q' :
  ConfirmPayload cfg q = (r, q') ->
  (building q', safeHead q', unsafeHead q') = (building q, safeHead q, unsafeHead q) \/ buildingOnto q' = zeroL2.
Proof.
  unfold ConfirmPayload, bind at 1, get. case_if; [by intros [= <- <-]; left|].
  intros [(p & q1 & (e1 & He & ->)%zoom_Ok & Hk)|[(e & (e1 & _ & ->)%zoom_Ok & ->)|[(e1 & _ & ->)%zoom_Ok ->]]]%bind_cases;
    [|by left..]. destruct p as [payload|[ty err]]; [|by injection Hk as _ <-; left].
  destruct (PayloadToBlockRef payload (cfg_Genesis cfg)) as [ref|err|]; [|by injection Hk as _ <-; left..].
  destruct (buildingSafe q); injection Hk as _ <-; by right.
Qed.

Lemma CancelPayload_building force q r q' :
  CancelPayload force q = (r, q') ->
  (building q', safeHead q', unsafeHead q') = (building q, safeHead q, unsafeHead q) \/ buildingOnto q' = zeroL2.
Proof.
  unfold CancelPayload, bind at 1, get. case_if; [by intros [= _ <-]; left|].
  intros [(p & q1 & Ha & Hk)|[(e & Ha & _)|[Ha _]]]%bind_cases; [|by apply attempt_not_Err in Ha|].
  - assert ((building q1, safeHead q1, unsafeHead q1) = (building q, safeHead q, unsafeHead q)) as Hq.
    { revert Ha. refine (preserves_attempt (same (fun q => (building q, safeHead q, unsafeHead q))) _ _ q _ q1). by apply preserves_zoom. }
    destruct p as [p|e]; [|case_if_in Hk]; injection Hk as _ <-; first [by right|by left].
  - left. revert Ha. refine (preserves_attempt (same (fun q => (building q, safeHead q, unsafeHead q))) _ _ q _ q'). by apply preserves_zoom.
Qed.

Lemma same_or_cleared_advances q q' :
  (building q', safeHead q', unsafeHead q') = (building q, safeHead q, unsafeHead q) \/ buildingOnto q' = zeroL2 -> advances q q'.
Proof. intros [[= ? ? ? ? ?]|?]; [|by left]. apply advances_same; unfold building; congruence. Qed.

Lemma forceNext_advances : preserves advances (forceNextSafeAttributes cfg).
Proof.
  assert (preserves advances (CancelPayload (E:=E) (P:=P) (L:=L) true)) as Hc.
  { intros q r q' Hx. by eapply same_or_cleared_advances, CancelPayload_building. }
  assert (preserves advances (ConfirmPayload (E:=E) (P:=P) (L:=L) cfg)) as Hf.
  { intros q r q' Hx. by eapply same_or_cleared_advances, ConfirmPayload_building. }
  assert (forall parent attrs, preserves advances (StartPayload (E:=E) (P:=P) (L:=L) parent attrs true)) as Hs.
  { intros parent attrs q r q' [[= Hs Hu] [Hb|[_ Hb]]]%StartPayload_building; [by apply advances_same|by right; left]. }
  unfold forceNextSafeAttributes, start_and_confirm. queue_code; by apply advances_same.
Qed.

Lemma consolidate_advances `{!NumberedEngine} q r q' :
  l2_Number (safeHead q) < l2_Number (unsafeHead q) < two64 ->
  consolidateNextSafeAttributes cfg q = (r, q') -> advances q q'.
Proof.
  intros Hn Hx. unfold consolidateNextSafeAttributes, bind at 1, get in Hx.
  assert (preserves advances (wrapE (fun err => if errors_Is err NotFound
               then NewResetError (ErrWrap "expected engine was synced, but cannot find the block" err)
               else NewTemporaryError (ErrWrap "failed to get existing unsafe payload" err))
             (on_engine (P:=P) (L:=L) (eng_PayloadByNumber (l2_Number (safeHead q) +u 1))))) as Hw by queue_code.
  apply bind_cases in Hx as [(payload & q2 & Hq & Hx)|[(e & Hq & ->)|[Hq ->]]]; [|by eapply Hw..].
  pose proof (Hw _ _ _ Hq) as Hadv. apply (proj1 (wrapE_Ok _ _ _ _ _)) in Hq. apply zoom_Ok in Hq as (e' & Hp & ->).
  destruct (safeAttributes q) as [awp|]; [|by injection Hx as _ <-].
  destruct (AttributesMatchBlock _ _ _) as [[]|err|].
  - apply bind_cases in Hx as [(ref & q3 & Hr & Hx)|[(e & Hr & ->)|[Hr ->]]]; [|by injection Hr as _ <-..].
    apply (proj1 (wrapE_Ok _ _ _ _ _)) in Hr. injection Hr as Hr <-. injection Hx as _ <-.
    apply PayloadToBlockRef_parent in Hr as (_ & _ & Hnum). apply found_by_number in Hp.
    right; right. simpl. split; [done|]. split; [|by left]. rewrite Hnum, Hp. unfold u64.
    destruct (decide (0 <= l2_Number (safeHead q))); [rewrite Z.mod_small; lia|].
    pose proof (Z.mod_pos_bound (l2_Number (safeHead q) + 1) two64 ltac:(done)). lia.
  - etrans; [exact Hadv|]. by eapply forceNext_advances.
  - by injection Hx as _ <-.
Qed.

Lemma step_safe_advances `{!NumberedEngine} q r q' :
  l2_Number (unsafeHead q) < two64 -> step_safe cfg q = (r, q') -> advances q q'.
Proof.
  intros Hn Hx. unfold step_safe, bind at 1, get in Hx. case_if_in Hx; [by injection Hx as _ <-|].
  destruct (safeAttributes q) as [awp|] eqn:Ea.
  - unfold tryNextSafeAttributes, bind at 1, get in Hx. rewrite Ea in Hx.
    case_if_in Hx; [case_if_in Hx; injection Hx as _ <-; [by apply advances_same|done]|].
    case_if_in Hx; [eapply consolidate_advances; [|exact Hx]; lia|].
    case_if_in Hx; [by eapply forceNext_advances|]. injection Hx as _ <-. right; right. simpl.
    split; [done|]. split; [lia|]. right. lia.
  - revert Hx. assert (preserves advances (pull_attributes (E:=E) (P:=P) (L:=L))) as Hp; [|by apply Hp].
    unfold pull_attributes, verifyNewL1Origin, tryFinalizePastL2Blocks. queue_code; try (by apply advances_same).
    unfold tryFinalizeL2. case_bool_decide; [done|]. destruct (foldl _ _ _). by apply advances_same.
Qed.

(** The unsafe head stays or becomes [ref]. *)
Definition unsafe_to (ref : L2BlockRef) q q' : Prop :=
  building q' = building q /\ safeHead q' = safeHead q /\ (unsafeHead q' = unsafeHead q \/ unsafeHead q' = ref).
#[local] Instance unsafe_to_preorder ref : PreOrder (unsafe_to ref).
Proof.
  split; [intros q; split_and!; auto|]. intros q1 q2 q3 (B12 & S12 & U12) (B23 & S23 & U23).
  split; [congruence|]. split; [congruence|]. destruct U12 as [U12|U12], U23 as [U23|U23]; rewrite U23; auto.
Qed.
#[local] Instance unsafe_to_respects ref : Respects (unsafe_to ref).
Proof. split; intros; split_and!; auto. Qed.

Lemma insert_unsafe_to first ref : preserves (unsafe_to ref) (insert_unsafe_payload (E:=E) (P:=P) (L:=L) syncCfg first ref).
Proof. unfold insert_unsafe_payload. queue_code; split_and!; auto. Qed.

Lemma unsafe_payload_advances q r q' :
  tryNextUnsafePayload cfg syncCfg q = (r, q') ->
  advances q q' /\ (unsafeHead q' = unsafeHead q \/ r <> Err EOF).
Proof.
  unfold tryNextUnsafePayload, bind at 1, get. destruct (Peek (unsafePayloads q)) as [first|]; [|intros [= _ <-]; split; [done|by left]].
  case_if; [intros [= _ <-]; split; [by apply advances_same|by left]|]. case_if; [intros [= _ <-]; split; [by apply advances_same|by left]|].
  case_if; [case_if; intros [= _ <-]; (split; [by apply advances_same|by left])|].
  destruct (PayloadToBlockRef first (cfg_Genesis cfg)) as [ref|err|] eqn:Er; [|intros [= _ <-]; (split; [by apply advances_same|by left])..].
  apply PayloadToBlockRef_parent in Er as (_ & _ & Hnum). intros Hx.
  pose proof (insert_unsafe_to _ _ _ _ _ Hx) as (Hb & Hs & Hu). split.
  - right; right. rewrite Hs. split; [done|]. split; [lia|]. destruct Hu as [Hu|Hu]; [by left|right]. rewrite Hu. lia.
  - right. intros ->. revert Hx.
    assert (fails_with (S:=t E P L) (fun e => e <> ErrSentinel EOF) (insert_unsafe_payload syncCfg first ref)) as Hf.
    { unfold insert_unsafe_payload, pop_unsafe. go_code; try (by apply fails_wrapE); try (by apply fails_throw).
      apply fails_wrapE. intros e. unfold forkchoice_err. destruct (errors_As_InputError e) as [[code inner]|]; [case_if|]; done. }
    intros Hx. by apply (Hf _ _ _ Hx).
Qed.

Lemma Step_advances `{!NumberedEngine} q r q' :
  l2_Number (unsafeHead q) < two64 -> Step cfg syncCfg q = (r, q') -> advances q q'.
Proof.
  intros Hn Hx. unfold Step, bind at 1, get in Hx. case_if_in Hx.
  { revert Hx. assert (preserves advances (tryUpdateEngine (E:=E) (P:=P) (L:=L))) as Hp; [|by apply Hp].
    unfold tryUpdateEngine. queue_code. by apply advances_same. }
  case_if_in Hx; [|by eapply step_safe_advances].
  apply bind_cases in Hx as [(a & q1 & Ha & Hx)|[(e & Ha & _)|[Ha _]]]; [|by apply attempt_not_Err in Ha|].
  2: { unfold attempt in Ha. destruct (tryNextUnsafePayload cfg syncCfg q) as [[?|?|] ?] eqn:Eu; try done.
       injection Ha as <-. by apply unsafe_payload_advances in Eu as [? _]. }
  unfold attempt in Ha. destruct (tryNextUnsafePayload cfg syncCfg q) as [ru q0] eqn:Eu.
  pose proof (unsafe_payload_advances _ _ _ Eu) as [Hadv Hhead].
  destruct ru as [u|e|]; [|..|done]; injection Ha as <- <-; [by injection Hx as _ <-|].
  destruct (err_eqb e EOF) eqn:Ee; [|by injection Hx as _ <-]. apply err_eqb_true in Ee. subst e.
  destruct Hhead as [Hhead|?]; [|done]. etrans; [exact Hadv|]. eapply step_safe_advances; [|exact Hx]. by rewrite Hhead.
Qed.
End Queue.

(** ** The pipeline *)
Section Pipeline.
Context {Y E : Type} `{L1Fetcher Y} `{Engine E} `{Keccak} `{TxCodec} `{L1Signer}.
Context {Z0 stream : Type}.
Context (zlib_NewReader : Data -> result Z0) (rlp_NewStream : Z0 -> Z -> stream).
Context (rlp_Decode : M stream BatchData).
Context (cfg : Config) (syncCfg : SyncConfig) (fuel : nat).

(** The embedded fetcher of a confirmation depth answers every request but that for a
    block by its number. *)
#[global] Instance confDepth_fetcher : L1Fetcher (confDepth Y) :=
  {| l1f_chain := confDepth_chain;
     l1f_traversal := {| L1BlockRefByNumber := cd_L1BlockRefByNumber;
                         FetchReceipts h := on_fetcher (FetchReceipts h) |};
     l1f_receipts := {| InfoByHash h := on_fetcher (InfoByHash h);
                        lrf_FetchReceipts h := on_fetcher (lrf_FetchReceipts h) |};
     l1f_transactions := {| InfoAndTxsByHash h := on_fetcher (InfoAndTxsByHash h) |} |}.

Abbreviation pipeline := (DerivationPipeline (confDepth Y) E stream).
Implicit Types dp : pipeline.

(** The stages that hold the fetcher see the new L1 head. *)
Definition set_cd_l1Head (head : L1BlockRef) (c : confDepth Y) : confDepth Y := mkConfDepth (cd_fetcher c) head (cd_depth c).
Definition pipeline_SetL1Head (head : L1BlockRef) dp : pipeline :=
  (on_eng
     (modify (fun q => EngineQueue.set_l1Fetcher (set_cd_l1Head head (EngineQueue.l1Fetcher q)) q) ;;;
      on_attributesQueue (modify (fun aq => AttributesQueue.mk
        (mkFetchingBuilder (set_cd_l1Head head (fab_l1 (AttributesQueue.builder aq))) (fab_l2 (AttributesQueue.builder aq)))
        (AttributesQueue.prev aq) (AttributesQueue.batch aq))) ;;;
      on_l1Src (modify (fun l1r => L1Retrieval.mk (set_cd_l1Head head (L1Retrieval.dataSrc l1r))
        (L1Retrieval.prev l1r) (L1Retrieval.datas l1r))) ;;;
      on_traversal (modify (fun l1t => L1Traversal.mk (L1Traversal.block l1t) (L1Traversal.done l1t)
        (set_cd_l1Head head (L1Traversal.l1Blocks l1t)) (L1Traversal.sysCfg l1t)))) dp).2.

(** The pipeline as the driver sees it. *)
#[global] Instance pipeline_derivation : Derivation pipeline :=
  {| der_control := pipeline_control cfg;
     der_Step := Pipeline.Step zlib_NewReader rlp_NewStream rlp_Decode cfg syncCfg fuel;
     der_AddUnsafePayload := Pipeline.AddUnsafePayload;
     der_UnsafeL2SyncTarget dp := match EngineQueue.UnsafeL2SyncTarget cfg (eng dp) with Ok ref => Some ref | _ => None end;
     der_Finalize := Pipeline.Finalize;
     der_FinalizedL1 dp := EngineQueue.finalizedL1 (eng dp);
     der_Finalized dp := EngineQueue.finalized (eng dp);
     der_SafeL2Head dp := EngineQueue.safeHead (eng dp);
     der_Origin dp := EngineQueue.Origin (eng dp);
     der_EngineReady := EngineReady;
     der_EngineSyncTarget dp := EngineQueue.engineSyncTarget (eng dp);
     der_SetL1Head := pipeline_SetL1Head |}.

#[local] Instance tower_provider : NextAttributesProvider (attributesQueue_t (X:=confDepth Y) (E:=E) (stream:=stream)) :=
  attributesQueue_provider zlib_NewReader rlp_NewStream rlp_Decode cfg.

(** ** The promises of the pipeline *)

(** The part of the queue that the driver looks at. *)
Definition view (q : eng_t (X:=confDepth Y) (E:=E) (stream:=stream)) :=
  (building q, EngineQueue.safeHead q, EngineQueue.unsafeHead q).

Lemma kept_view dp dp' :
  resetting dp' = resetting dp -> view (eng dp') = view (eng dp) -> kept dp dp'.
Proof.
  intros Hr [= Ho Hi Hb Hs Hu]. split; [|by cbv [ec_BuildingPayload der_control pipeline_derivation pipeline_control EngineQueue.BuildingPayload]; congruence].
  unfold head_state. simpl. unfold EngineReady. congruence.
Qed.

Lemma cleared_onto dp dp' : EngineQueue.buildingOnto (eng dp') = zeroL2 -> cleared dp dp'.
Proof.
  intros Ho. unfold cleared. destruct (der_EngineReady dp'); [right; split; [done|exact Ho]|by left].
Qed.

Lemma advanced_advances dp dp' :
  resetting dp' = resetting dp -> advances (eng dp) (eng dp') -> advanced dp dp'.
Proof.
  intros Hr [Ho|[Hs|(Hb & Hsf & Hu)]]; [left; by apply cleared_onto|by right; left|].
  destruct (der_EngineReady dp) eqn:Er; [|left; left; simpl in *; unfold EngineReady in *; by rewrite Hr].
  right; right. split; [done|]. split; [exact Hb|]. split; [exact Hsf|exact Hu].
Qed.

Lemma advanced_view dp dp' : resetting dp' = resetting dp -> view (eng dp') = view (eng dp) -> advanced dp dp'.
Proof.
  intros Hr [= Ho Hi Hb Hs Hu]. apply advanced_advances; [done|]. apply advances_same; unfold building; congruence.
Qed.

Lemma advanced_ready_view dp dp' : EngineReady dp = true -> view (eng dp') = view (eng dp) -> advanced dp dp'.
Proof.
  intros Hr [= Ho Hi Hb Hs Hu]. right; right. split; [exact Hr|].
  split; [cbv [ec_BuildingPayload der_control pipeline_derivation pipeline_control EngineQueue.BuildingPayload]; congruence|].
  simpl. rewrite Hs, Hu. split; [lia|by left].
Qed.

Lemma on_aq_view {A} (m : M (attributesQueue_t (X:=confDepth Y) (E:=E) (stream:=stream)) A) : preserves (same view) (on_attributesQueue m).
Proof. by apply preserves_zoom. Qed.

Lemma stage_Reset_view k base baseCfg : preserves (same view) (stage_Reset cfg syncCfg fuel (S k) base baseCfg).
Proof.
  do 7 (destruct k as [|k]; [unfold stage_Reset, on_traversal, on_l1Src, on_frameQueue, on_bank, on_chInReader, on_batchQueue; apply on_aq_view|]).
  apply preserves_lift, _.
Qed.

Lemma step_engine_advances `{!NumberedEngine (E:=E)} dp r dp' :
  l2_Number (EngineQueue.unsafeHead (eng dp)) < two64 ->
  step_engine zlib_NewReader rlp_NewStream rlp_Decode cfg syncCfg dp = (r, dp') ->
  resetting dp' = resetting dp /\ advances (eng dp) (eng dp').
Proof.
  intros Hn Hx. unfold step_engine in Hx.
  assert (forall ra dp1, attempt (on_eng (EngineQueue.Step cfg syncCfg)) dp = (ra, dp1) ->
    resetting dp1 = resetting dp /\ advances (eng dp) (eng dp1)) as Hstep.
  { intros ra dp1 Ha. unfold attempt, on_eng, zoom in Ha. destruct (EngineQueue.Step cfg syncCfg (eng dp)) as [rs q] eqn:Es.
    pose proof (Step_advances cfg syncCfg _ _ _ Hn Es). destruct rs; injection Ha as _ <-; by split. }
  apply bind_cases in Hx as [(a & dp1 & Ha & Hx)|[(e & Ha & _)|[Ha _]]]; [|by apply attempt_not_Err in Ha|by eapply Hstep].
  apply Hstep in Ha as [Hr Hadv]. destruct a as [u|err]; [by injection Hx as _ <-|].
  case_if_in Hx; [|case_if_in Hx; by injection Hx as _ <-].
  assert (preserves (fun dp dp' => resetting dp' = resetting dp /\ view (eng dp') = view (eng dp))
    (on_eng (on_traversal (L1Traversal.AdvanceL1Block cfg)) ;;; ret (Some tt))) as Hp.
  { assert (PreOrder (fun dp dp' : pipeline => resetting dp' = resetting dp /\ view (eng dp') = view (eng dp))).
    { split; [by split|]. intros x y z [? ?] [? ?]. split; congruence. }
    refine (preserves_bind _ _ _ _ _); [|intros; go_code]. intros d1 r1 d2. unfold on_eng, zoom.
    destruct (on_traversal (L1Traversal.AdvanceL1Block cfg) (eng d1)) as [r2 q2] eqn:Et. intros [= _ <-]. split; [done|].
    simpl. revert Et. unfold on_traversal, on_l1Src, on_frameQueue, on_bank, on_chInReader, on_batchQueue. apply on_aq_view. }
  apply Hp in Hx as [Hr' [= ? ? ? ? ?]]. split; [congruence|]. etrans; [exact Hadv|]. apply advances_same; unfold building; congruence.
Qed.

Lemma pipeline_step_advanced `{!NumberedEngine (E:=E)} dp r dp' :
  l2_Number (EngineQueue.unsafeHead (eng dp)) < two64 ->
  Pipeline.Step zlib_NewReader rlp_NewStream rlp_Decode cfg syncCfg fuel dp = (r, dp') -> advanced dp dp'.
Proof.
  intros Hn Hx. unfold Step, bind at 1, get in Hx. case_if_in Hx.
  2: { apply step_engine_advances in Hx as [Hr Ha]; [|done]. by apply advanced_advances. }
  assert (forall ra dp1, attempt (on_eng (stage_Reset cfg syncCfg fuel (resetting dp) (EngineQueue.Origin (eng dp))
      (EngineQueue.SystemConfig_ (eng dp)))) dp = (ra, dp1) -> resetting dp1 = resetting dp /\
    (view (eng dp1) = view (eng dp) /\ (resetting dp = O -> ra <> Ok (inr (EOF : error))) \/
     resetting dp = O /\ ra = Ok (inr (EOF : error)) /\ EngineQueue.buildingOnto (eng dp1) = zeroL2)) as Hstage.
  { intros ra dp1 Ha. unfold attempt, on_eng, zoom in Ha.
    destruct (stage_Reset _ _ _ _ _ _ (eng dp)) as [rs q] eqn:Es.
    assert (resetting dp1 = resetting dp /\ eng dp1 = q /\ ra = match rs with Ok a => Ok (inl a) | Err e => Ok (inr e) | Panic => Panic end) as (Hr & -> & ->)
      by (destruct rs; injection Ha as <- <-; done). split; [done|].
    destruct (resetting dp) as [|k]; [|left; split; [by eapply stage_Reset_view|done]].
    simpl in Es. assert (rs = Err EOF \/ rs <> Err EOF /\ view q = view (eng dp)) as [->|[Hne Hv]].
    { destruct (Reset_keeps _ _ _ _ _ _ Es) as [?|Ho]; [by left|].
      assert (view q = view (eng dp)) as Hv by (injection Ho; intros; unfold view, building; congruence).
      destruct rs as [u|e|]; [by right| |by right]. destruct (err_eqb e EOF) eqn:Ee; [left; by apply err_eqb_true in Ee as ->|right].
      split; [|done]. intros [= ->]. by rewrite (proj2 (err_eqb_true _ _) eq_refl) in Ee. }
    - right. split; [done|]. split; [done|]. apply Reset_eof in Es as (found & n & _ & Hto). by destruct (rt_building _ _ _ _ Hto).
    - left. split; [done|]. intros _ Heq. apply Hne. by destruct rs; simplify_eq. }
  apply bind_cases in Hx as [(a & dp1 & Ha & Hx)|[(e & Ha & _)|[Ha _]]]; [|by apply attempt_not_Err in Ha|].
  2: { apply Hstage in Ha as [Hr [[Hv _]|(_ & [=] & _)]]. by apply advanced_view. }
  apply Hstage in Ha as [Hr Hcase]. destruct a as [u|err].
  - injection Hx as _ <-. destruct Hcase as [[Hv _]|(_ & [=] & _)]. by apply advanced_view.
  - case_if_in Hx; injection Hx as _ <-.
    + apply err_eqb_true in E1. subst err. destruct Hcase as [[Hv Hz]|(_ & _ & Ho)]; [|left; by apply cleared_onto].
      apply advanced_ready_view; [|done]. unfold EngineReady. destruct (resetting dp) as [|k]; [by destruct (Hz eq_refl)|done].
    + destruct Hcase as [[Hv _]|(_ & _ & Ho)]; [by apply advanced_view|left; by apply cleared_onto].
Qed.

Lemma SetL1Head_keeps head dp :
  resetting (pipeline_SetL1Head head dp) = resetting dp /\ view (eng (pipeline_SetL1Head head dp)) = view (eng dp).
Proof. done. Qed.

Lemma on_eng_view {A} (m : M (eng_t (X:=confDepth Y) (E:=E) (stream:=stream)) A) dp r dp' :
  on_eng m dp = (r, dp') -> exists q, m (eng dp) = (r, q) /\ dp' = mkPipeline (resetting dp) q.
Proof. apply zoom_Ok. Qed.

#[global] Instance pipeline_steady `{!NumberedEngine (E:=E)} : SteadyDerivation pipeline.
Proof.
  split.
  - intros d r d' Hn. by apply pipeline_step_advanced.
  - intros p d r d'. simpl. unfold AddUnsafePayload.
    destruct (EngineQueue.AddUnsafePayload p (eng d)) as [[r' q]|] eqn:Ea; [|done]. intros [= _ <-].
    apply AddUnsafePayload_same in Ea. by apply kept_view.
  - intros l1 d. apply kept_view; [done|]. apply Finalize_same.
  - intros l1 d. destruct (SetL1Head_keeps l1 d). by apply kept_view.
  - done.
  - intros parent attrs d r d' (q & Hq & ->)%on_eng_view. apply StartPayload_building in Hq as [[= Hs Hu] Hb].
    split; [unfold head_state; simpl; by rewrite Hs, Hu|]. destruct Hb as [Hb|Hb]; [left; exact Hb|right; exact Hb].
  - intros d r d' (q & Hq & ->)%on_eng_view. apply ConfirmPayload_building in Hq as [Hv|Ho]; [left; by apply kept_view|right; by apply cleared_onto].
  - intros force d r d' (q & Hq & ->)%on_eng_view. apply CancelPayload_building in Hq as [Hv|Ho]; [left; by apply kept_view|right; by apply cleared_onto].
Qed.

(** ** What the driver does to the pipeline *)

(** An event of the pipeline, or a new L1 head. *)
Inductive driver_event : pipeline -> pipeline -> Prop :=
  | de_event dp dp' : event zlib_NewReader rlp_NewStream rlp_Decode cfg syncCfg dp dp' -> driver_event dp dp'
  | de_SetL1Head head dp : driver_event dp (pipeline_SetL1Head head dp).

Lemma SetL1Head_fresh head k dp : all_fresh cfg k (eng dp) -> all_fresh cfg k (eng (pipeline_SetL1Head head dp)).
Proof. intros Hf i Hi. specialize (Hf i Hi). do 8 (destruct i as [|i]; [exact Hf|]). exact Hf. Qed.

Lemma driver_event_resetting dp dp' : driver_event dp dp' -> resetting_ok cfg dp -> resetting_ok cfg dp'.
Proof.
  intros [dp0 dp1 He|head dp0] Hok; [by eapply event_resetting|]. intros Hlt. by apply SetL1Head_fresh, Hok.
Qed.

Definition queue_inv dp : Prop := inv (eng dp).

Lemma on_aq_inv {A} (m : M (attributesQueue_t (X:=confDepth Y) (E:=E) (stream:=stream)) A) : preserves (keeps inv) (on_attributesQueue m).
Proof. apply preserves_zoom. intros p q [Hf Hp Hm Hs]. by split. Qed.

Lemma stage_Reset_inv f k base baseCfg : preserves (keeps inv) (stage_Reset (X:=confDepth Y) (stream:=stream) cfg syncCfg f k base baseCfg).
Proof.
  destruct k as [|k]; [apply Reset_inv|].
  do 7 (destruct k as [|k]; [unfold stage_Reset, on_traversal, on_l1Src, on_frameQueue, on_bank, on_chInReader, on_batchQueue; apply on_aq_inv|]).
  apply preserves_lift, _.
Qed.

Lemma on_eng_inv {A} (m : M (eng_t (X:=confDepth Y) (E:=E) (stream:=stream)) A) : preserves (keeps inv) m -> preserves (keeps queue_inv) (on_eng m).
Proof. intros Hm dp r dp' (q & Hq & ->)%on_eng_view. by eapply Hm. Qed.

Lemma driver_event_inv dp dp' : driver_event dp dp' -> queue_inv dp -> queue_inv dp'.
Proof.
  intros [dp0 dp1 He|head dp0]; [|by intros [Hf Hp Hm Hs]; split].
  destruct He as [f dp2 r dp3 Hx|dp2|o dp2|p dp2 r dp3 Hx|parent attrs safe dp2 r dp3 Hx|dp2 r dp3 Hx|force dp2 r dp3 Hx]; try done.
  - revert Hx. assert (preserves (keeps queue_inv) (Pipeline.Step (X:=confDepth Y) (E:=E) zlib_NewReader rlp_NewStream rlp_Decode cfg syncCfg f)) as Hp; [|by apply Hp].
    unfold Step, step_engine. refine (preserves_bind _ _ _ _ _); [refine (preserves_get _)|intros dp4]. case_if.
    + refine (preserves_bind _ _ _ _ _); [apply preserves_attempt, on_eng_inv, stage_Reset_inv|intros [u|e]; [go_code|]].
      case_if; [|go_code]. refine (preserves_bind _ _ _ _ _); [apply preserves_modify; by intros d0 Hd0|intros; go_code].
    + refine (preserves_bind _ _ _ _ _); [apply preserves_attempt, on_eng_inv, Step_inv|intros [u|e]; [go_code|]].
      case_if; [|go_code]. refine (preserves_bind _ _ _ _ _); [|intros; go_code]. apply on_eng_inv.
      unfold on_traversal, on_l1Src, on_frameQueue, on_bank, on_chInReader, on_batchQueue. apply on_aq_inv.
  - intros Hi. by eapply (call_inv cfg syncCfg), Hi; constructor.
  - unfold AddUnsafePayload in Hx. destruct (EngineQueue.AddUnsafePayload p (eng dp2)) as [[r' q]|] eqn:Ea; [|done].
    injection Hx as _ <-. intros Hi. eapply (call_inv cfg syncCfg); [|exact Hi]. by eapply call_AddUnsafePayload.
  - revert Hx. apply on_eng_inv, StartPayload_inv.
  - revert Hx. apply on_eng_inv, ConfirmPayload_inv.
  - revert Hx. apply on_eng_inv, CancelPayload_inv.
Qed.
End Pipeline.

(** ** The parts of the driver *)

(** The zero value of [time.Time], in nanoseconds since 1970. *)
Definition zeroTime : Z := - 62135596800 * 1000000000.

(** [NewSequencer]; the selector of L1 origins is the confirmation depth it holds. *)
Definition NewSequencer {EC B Y : Type} (engine : EC) (attributesBuilder : B) (l1OriginSelector : confDepth Y)
    : Sequencer EC B (confDepth Y) :=
  mkSequencer engine attributesBuilder l1OriginSelector zeroTime.

(** [NewDriver].  The two confirmation depths see the L1 head of the new [L1State]. *)
Definition NewDriver {Y E stream N W A : Type} (driverCfg : DriverConfig) (l2 : E) (l1 : Y) (altSync : A)
    (network : option W) (sequencerStateListener : N)
    : loop (DerivationPipeline (confDepth Y) E stream) (FetchingAttributesBuilder Y E) Y N W A :=
  let l1Head := l1s_L1Head NewL1State in
  let sequencerConfDepth := mkConfDepth l1 l1Head (SequencerConfDepth driverCfg) in
  let verifConfDepth := mkConfDepth l1 l1Head (VerifierConfDepth driverCfg) in
  let derivationPipeline := NewDerivationPipeline verifConfDepth l2 in
  let attrBuilder := mkFetchingBuilder l1 l2 in
  let sequencer := NewSequencer derivationPipeline attrBuilder sequencerConfDepth in
  new_loop sequencer driverCfg sequencerStateListener network altSync.

(** ** The node over the pipeline *)
Section Node.
Context {Y E B N W A L : Type} `{FloatConversion} `{L1Fetcher Y} `{Engine E} `{Keccak} `{TxCodec} `{L1Signer}.
Context `{AttributesBuilder B} `{SequencerStateListener N} `{Network W} `{AltSync A}.
Context {Z0 stream : Type}.
Context (zlib_NewReader : Data -> result Z0) (rlp_NewStream : Z0 -> Z -> stream).
Context (rlp_Decode : M stream BatchData).
Context (cfg : Config) (syncCfg : SyncConfig) (fuel : nat).
Context (L2BlockRefByNumber : Z -> M L L2BlockRef).

Abbreviation pipeline := (DerivationPipeline (confDepth Y) E stream).
#[local] Instance the_derivation : Derivation pipeline := pipeline_derivation zlib_NewReader rlp_NewStream rlp_Decode cfg syncCfg fuel.
Abbreviation driver_event := (driver_event zlib_NewReader rlp_NewStream rlp_Decode cfg syncCfg).
Abbreviation driver_step := (driver_step L2BlockRefByNumber cfg).
Abbreviation sequencer := (Sequencer pipeline B (confDepth Y)).
Implicit Types (s : loop pipeline B Y N W A) (x y : node pipeline B Y N W A L).

Definition engine_events (q q' : sequencer) : Prop := rtc driver_event (sq_engine q) (sq_engine q').
Definition loop_events s s' : Prop := rtc driver_event (derivation s) (derivation s').
#[local] Instance engine_events_preorder : PreOrder engine_events.
Proof. split; [intros q; by unfold engine_events|intros a b c Hab Hbc; unfold engine_events in *; by etrans]. Qed.
#[local] Instance loop_events_preorder : PreOrder loop_events.
Proof. split; [intros q; by unfold loop_events|intros a b c Hab Hbc; unfold loop_events in *; by etrans]. Qed.

Lemma on_ec_events {R} (m : M pipeline R) :
  (forall dp r dp', m dp = (r, dp') -> driver_event dp dp') -> preserves engine_events (on_ec (B:=B) (X:=confDepth Y) m).
Proof.
  intros Hm q r q'. unfold on_ec, zoom. destruct (m (sq_engine q)) eqn:Em. intros [= _ <-]. by apply rtc_once, (Hm _ _ _ Em).
Qed.

Lemma engine_zoom {T R} (getT : sequencer -> T) setT (m : M T R) :
  (forall t q, sq_engine (setT t q) = sq_engine q) -> preserves engine_events (zoom getT setT m).
Proof. intros Hs. apply preserves_zoom. intros t q. unfold engine_events. by rewrite Hs. Qed.

Lemma action_events now : preserves engine_events (RunNextSequencerAction (EC:=pipeline) (B:=B) (X:=confDepth Y) cfg now).
Proof.
  assert (forall f : sequencer -> sequencer, (forall q, sq_engine (f q) = sq_engine q) -> preserves engine_events (modify f)) as Hmod.
  { intros f Hf. apply preserves_modify. intros q. unfold engine_events. by rewrite Hf. }
  assert (preserves engine_events (hold_off (EC:=pipeline) (B:=B) (X:=confDepth Y) cfg now)) by (by apply Hmod).
  assert (preserves engine_events (retry_soon (EC:=pipeline) (B:=B) (X:=confDepth Y) now)) by (by apply Hmod).
  assert (preserves engine_events (reset_engine (EC:=pipeline) (B:=B) (X:=confDepth Y))).
  { apply preserves_modify. intros q. apply rtc_once, de_event, ev_Reset. }
  assert (preserves engine_events (CompleteBuildingBlock (EC:=pipeline) (B:=B) (X:=confDepth Y))).
  { unfold CompleteBuildingBlock. go_code. apply on_ec_events. intros dp r dp' Hx. by eapply de_event, ev_ConfirmPayload. }
  assert (preserves engine_events (CancelBuildingBlock (EC:=pipeline) (B:=B) (X:=confDepth Y))).
  { unfold CancelBuildingBlock. go_code. apply on_ec_events. intros dp r dp' Hx. apply de_event. exact (ev_CancelPayload _ _ _ _ _ true dp r dp' Hx). }
  assert (preserves engine_events (StartBuildingBlock (EC:=pipeline) (B:=B) (X:=confDepth Y) cfg)).
  { unfold StartBuildingBlock, sequencer_attributes. go_code.
    1, 2: by apply engine_zoom. apply on_ec_events. intros dp r dp' Hx. apply de_event. exact (ev_StartPayload _ _ _ _ _ _ _ _ dp r dp' Hx). }
  unfold RunNextSequencerAction. go_code.
Qed.

Lemma modify_events (f : loop pipeline B Y N W A -> loop pipeline B Y N W A) :
  (forall s, derivation (f s) = derivation s) -> preserves loop_events (modify f).
Proof. intros Hf. apply preserves_modify. intros s. unfold loop_events. by rewrite Hf. Qed.
Lemma loop_zoom {T R} (getT : loop pipeline B Y N W A -> T) setT (m : M T R) :
  (forall t s, derivation (setT t s) = derivation s) -> preserves loop_events (zoom getT setT m).
Proof. intros Hs. apply preserves_zoom. intros t s. unfold loop_events. by rewrite Hs. Qed.

Lemma reqStep_derivation i s : derivation (reqStep i s) = derivation s.
Proof. unfold reqStep. case_if; [by destruct (ls_delayedStepReq s)|done]. Qed.

Lemma on_sequencerCh_events i : preserves loop_events (on_sequencerCh cfg i).
Proof.
  unfold on_sequencerCh. refine (preserves_bind _ _ _ _ _); [by apply modify_events|intros []].
  refine (preserves_bind _ _ _ _ _); [apply preserves_attempt|intros [p|e]; [|go_code]].
  - intros s r s'. unfold on_sequencer, zoom. destruct (RunNextSequencerAction _ _ _) as [r' q'] eqn:Er. intros [= _ <-].
    by apply action_events in Er.
  - refine (preserves_bind _ _ _ _ _); [|intros []; refine (preserves_bind _ _ _ _ _); [by apply modify_events|intros []; go_code]].
    intros s r s'. unfold publish. destruct (ls_network s), p as [p|]; try (intros [= _ <-]; apply rtc_refl).
    destruct (net_PublishL2Payload p w). intros [= _ <-]. apply rtc_refl.
Qed.

Lemma react_events i err : preserves loop_events (react i err).
Proof.
  assert (preserves loop_events (modify (reqStep (D:=pipeline) (B:=B) (Y:=Y) (N:=N) (W:=W) (A:=A) i))).
  { apply modify_events, reqStep_derivation. }
  unfold react. destruct (driver_reaction err); go_code; try (by apply modify_events).
  apply preserves_modify. intros s. apply rtc_once, de_event, ev_Reset.
Qed.

Lemma on_tick_events i t : preserves loop_events (on_tick cfg i t).
Proof.
  destruct t; simpl.
  - refine (preserves_bind _ _ _ _ _); [apply on_sequencerCh_events|intros; go_code].
  - refine (preserves_bind _ _ _ _ _); [apply preserves_attempt|intros; go_code].
    unfold checkForGapInUnsafeQueue. go_code; by apply loop_zoom.
  - refine (preserves_bind _ _ _ _ _); [by apply modify_events|intros; go_code].
  - unfold on_stepReqCh. refine (preserves_bind _ _ _ _ _); [by apply modify_events|intros []].
    refine (preserves_bind _ _ _ _ _); [apply preserves_attempt|].
    { intros s r s'. unfold on_derivation, zoom. destruct (der_Step (derivation s)) as [r' d] eqn:Ed. intros [= _ <-].
      apply rtc_once, de_event. exact (ev_Step _ _ _ _ _ fuel (derivation s) r' d Ed). }
    intros r. refine (preserves_bind _ _ _ _ _); [by apply modify_events|intros []].
    destruct r as [[u|]|e]; [|go_code|]; (refine (preserves_bind _ _ _ _ _); [apply react_events|intros; go_code]).
Qed.

Lemma on_request_events i r : preserves loop_events (on_request cfg i r).
Proof.
  intros s res s' Hx. unfold on_request, bind at 1, get in Hx. unfold loop_events.
  destruct r as [head|safe|fin|p| |hash| | | |num]; try (injection Hx as _ <-; apply rtc_refl).
  - injection Hx as _ <-. rewrite reqStep_derivation. apply rtc_once. exact (de_SetL1Head _ _ _ _ _ head (derivation s)).
  - injection Hx as _ <-. rewrite reqStep_derivation. apply rtc_once, de_event. exact (ev_Finalize _ _ _ _ _ fin (derivation s)).
  - destruct (der_AddUnsafePayload (Some p) (derivation s)) as [[added d]|] eqn:Ea; [|injection Hx as _ <-; apply rtc_refl].
    assert (rtc driver_event (derivation s) d) as He by (apply rtc_once, de_event; exact (ev_AddUnsafePayload _ _ _ _ _ (Some p) (derivation s) added d Ea)).
    destruct added as [u|e|]; injection Hx as _ <-; rewrite ?reqStep_derivation; exact He.
  - injection Hx as _ <-. apply rtc_once, de_event, ev_Reset.
  - case_if_in Hx; [injection Hx as _ <-; apply rtc_refl|]. case_if_in Hx; [injection Hx as _ <-; apply rtc_refl|]. revert Hx.
    refine (preserves_bind loop_events _ _ _ _ s res s'); [apply preserves_attempt; by apply loop_zoom|].
    intros [u|e]; [|go_code]. refine (preserves_bind _ _ _ _ _); [by apply modify_events|intros []].
    refine (preserves_bind _ _ _ _ _); [by apply modify_events|intros []; go_code].
  - case_if_in Hx; [injection Hx as _ <-; apply rtc_refl|]. revert Hx.
    refine (preserves_bind loop_events _ _ _ _ s res s'); [apply preserves_attempt; by apply loop_zoom|].
    intros [u|e]; [|go_code]. refine (preserves_bind _ _ _ _ _); [by apply modify_events|intros []; go_code].
Qed.

(** Every step of the node is a sequence of events of the pipeline. *)
Lemma driver_step_events x y : driver_step x y -> loop_events (nd_loop x) (nd_loop y).
Proof.
  intros [x' y' Hst|x' y' _ Hst|s l k q cs cl d _ _]; [|destruct Hst; apply rtc_refl|apply rtc_refl].
  destruct Hst as [i s l q cs cl|i t o s s' l q cs cl Ht Hx|i t s s' l q cs cl Ht Hx|i n r q1 q2 a s s' l cs cl _ Hx _|
      i n r q1 q2 s s' l cs cl _ Hx|n c s l q cs cl _ _ _|s l q cs]; simpl; try apply rtc_refl.
  - unfold loop_events. replace (derivation (loop_top cfg i s)) with (derivation s); [apply rtc_refl|]. unfold loop_top. by repeat case_if.
  - by eapply on_tick_events.
  - by eapply on_tick_events.
  - by eapply on_request_events.
  - by eapply on_request_events.
Qed.

Lemma run_events x y : rtc driver_step x y -> loop_events (nd_loop x) (nd_loop y).
Proof.
  induction 1 as [x|x y z Hxy _ IH]; [apply rtc_refl|]. etrans; [by apply driver_step_events|exact IH].
Qed.

Lemma Start_events s0 u s : Start s0 = (Ok u, s) -> derivation s = Reset (derivation s0).
Proof.
  unfold Start. intros (u1 & s1 & [= _ <-] & Hx)%bind_Ok. apply bind_Ok in Hx as (s1' & s1 & [= <- <-] & Hx).
  apply bind_Ok in Hx as (u2 & s2 & Hn & [= _ <-]). change (derivation s2 = Reset (derivation s0)).
  case_if_in Hn; [|by injection Hn as _ <-]. apply (proj1 (wrapE_Ok _ _ _ _ _)) in Hn. unfold on_notifs, zoom in Hn.
  match type of Hn with (let '(r, t) := ?m in _) = _ => destruct m as [r n] end. by injection Hn as _ <-.
Qed.

(** C27: a reset of the running node is complete.  Start the driver over any pipeline, and let
    it run with its sequencer, its callers and its timers, through steps, resets and new L1
    heads in any order.  At the step of the pipeline that completes a reset, every stage is
    fresh: no frames, channels, batches, attributes or finality data of before are left, and
    the traversal, the retrieval and the batch queue start at the block and the configuration
    the engine queue restarted from. *)
Theorem node_reset_is_complete s0 s l x i o s' :
  Start s0 = (Ok tt, s) -> rtc driver_step (started s l) x ->
  ticks StepTick (nd_loop x) = true -> on_tick cfg i StepTick (nd_loop x) = (Ok (Some o), s') ->
  (resetting (derivation (nd_loop x)) < num_stages)%nat -> resetting (derivation s') = num_stages ->
  all_fresh cfg num_stages (eng (derivation s')).
Proof.
  intros Hs Hrun _ Hx Hlt Heq.
  assert (resetting_ok cfg (derivation (nd_loop x))) as Hok.
  { refine (run_keeps driver_event (resetting_ok cfg) _ _ _ (run_events _ _ Hrun) _); [intros ? ?; apply driver_event_resetting|].
    change (resetting_ok cfg (derivation s)). rewrite (Start_events _ _ _ Hs). intros _ k Hk. simpl in Hk. lia. }
  apply step_tick_cases in Hx as (res & d & Hd & Hx). apply Step_resetting in Hd as [_ Hf]; [|done..].
  assert (derivation s' = d) as Hsd; [|by rewrite Hsd in *; rewrite Heq in Hf].
  unfold react in Hx. destruct (driver_reaction _); injection Hx as _ <-; rewrite ?reqStep_derivation in *; done.
Qed.

(** Unsafe payloads are always taken.  In a node that was started over a new engine queue,
    whatever happened since, a payload that is handed to the loop is taken without an error
    or a panic, its push to the bounded queue ends, and a step is requested. *)
Theorem payloads_are_taken s0 s l x i p :
  queue_inv (derivation s0) -> Start s0 = (Ok tt, s) -> rtc driver_step (started s l) x ->
  exists s', on_request cfg i (OnUnsafeL2Payload p) (nd_loop x) = (Ok (Some NoAnswer), s') /\ pending s'.
Proof.
  intros Hi Hs Hrun.
  assert (queue_inv (derivation (nd_loop x))) as Hx.
  { refine (run_keeps driver_event queue_inv _ _ _ (run_events _ _ Hrun) _); [intros ? ?; apply driver_event_inv|].
    change (queue_inv (derivation s)). by rewrite (Start_events _ _ _ Hs). }
  destruct (AddUnsafe_total (Some p) _ Hx) as (q & Hq & _). unfold on_request, bind at 1, get.
  change (der_AddUnsafePayload (Some p) (derivation (nd_loop x))) with (AddUnsafePayload (Some p) (derivation (nd_loop x))).
  unfold AddUnsafePayload. rewrite Hq. eexists. split; [done|]. apply reqStep_pending.
Qed.
End Node.
