(* ===== verification/ConfigPersistence.v ===== *)
(** * The persisted state of the sequencer

    [op-node/node/config_persistence.go] and [LoadPersisted] of [op-node/node/config.go]:
    whether the sequencer runs is kept in a file, so that a node that restarts resumes or
    stays stopped.  The file system and the JSON encoder are environments with laws. *)
From S2P Require Import Prelude GoErrors GoBytes EthTypes Geth Payloads Attributes L1Stages EngineUpdate SyncStart EngineQueue Pipeline Sequencing Driver DriverSpec.
#[local] Open Scope Z_scope.

(** ** The file *)

(** [RunningState] and [persistedState]. *)
Inductive RunningState := StateUnset | StateStarted | StateStopped.
#[export] Instance RunningState_eq_dec : EqDecision RunningState.
Proof. solve_decision. Defined.
Record persistedState := mkPersisted { SequencerStarted : option bool }.

(** The JSON encoder and the strict decoder. *)
Class StateJSON := {
  json_Marshal : persistedState -> result Data;
  json_Decode : Data -> result persistedState }.

(** The calls of [os] for the file and its temporary file; [os_ReadFile] returns [None] for
    [os.ErrNotExist]. *)
Class FileSystem (F : Type) := {
  os_MkdirAll : M F unit;
  os_OpenFile : M F unit;
  os_Write : Data -> M F unit;
  os_Sync : M F unit;
  os_Close : M F unit;
  os_Rename : M F unit;
  os_ReadFile : M F (option Data) }.

Section Persistence.
Context {F : Type} `{FileSystem F} `{StateJSON}.

(** [ActiveConfigPersistence.persist]; the deferred [file.Close] runs whatever happens after
    the file was opened. *)
Definition write_and_rename (data : Data) : M F unit :=
  wrapE (ErrWrap "write new config to temp file") (os_Write data) ;;;
  wrapE (ErrWrap "sync new config temp file") os_Sync ;;;
  wrapE (ErrWrap "close new config temp file") os_Close ;;;
  wrapE (ErrWrap "rename temp config file to final destination") os_Rename.
Definition persist (sequencerStarted : bool) : M F unit :=
  data <- wrapE (ErrWrap "marshall new config") (lift (json_Marshal (mkPersisted (Some sequencerStarted)))) ;;
  wrapE (ErrWrap "create config dir") os_MkdirAll ;;;
  wrapE (ErrWrap "open file for writing") os_OpenFile ;;;
  r <- attempt (write_and_rename data) ;;
  attempt os_Close ;;;
  match r with inl _ => ret tt | inr err => throw err end.

(** [ActiveConfigPersistence.read]. *)
Definition read : M F persistedState :=
  file <- wrapE (ErrWrap "read config file") os_ReadFile ;;
  match file with
  | None => ret (mkPersisted None)
  | Some data =>
      config <- wrapE (ErrWrap "invalid config file") (lift (json_Decode data)) ;;
      match SequencerStarted config with
      | None => throw (ErrNew "missing sequencerStarted value in config file")
      | Some _ => ret config
      end
  end.

(** [ActiveConfigPersistence.SequencerState]. *)
Definition SequencerState : M F RunningState :=
  config <- read ;;
  ret (match SequencerStarted config with
       | None => StateUnset
       | Some true => StateStarted
       | Some false => StateStopped
       end).

(** The listener of the driver. *)
#[global] Instance ActiveConfigPersistence : SequencerStateListener F :=
  {| sl_SequencerStarted := persist true; sl_SequencerStopped := persist false |}.

(** [Config.LoadPersisted]: the configuration of the driver. *)
Definition LoadPersisted (driver : DriverConfig) : M F DriverConfig :=
  if negb (SequencerEnabled driver) then ret driver
  else
    state <- SequencerState ;;
    ret (if bool_decide (state <> StateUnset) then set_SequencerStopped (bool_decide (state = StateStopped)) driver
         else driver).
End Persistence.

(** [DisabledConfigPersistence]. *)
#[export] Instance DisabledConfigPersistence : SequencerStateListener unit :=
  {| sl_SequencerStarted := ret tt; sl_SequencerStopped := ret tt |}.

(** ** What the file system and the encoder promise *)

(** Only a rename changes the file, to what was written to the temporary file; a call that
    fails leaves the file as it was. *)
Class LawfulFileSystem (F : Type) `{FileSystem F} := {
  fs_file : F -> option Data;
  fs_tmp : F -> Data;
  fs_MkdirAll f r f' : os_MkdirAll f = (r, f') -> fs_file f' = fs_file f;
  fs_OpenFile f r f' : os_OpenFile f = (r, f') -> fs_file f' = fs_file f /\ (r = Ok tt -> fs_tmp f' = []);
  fs_Write data f r f' : os_Write data f = (r, f') -> fs_file f' = fs_file f /\ (r = Ok tt -> fs_tmp f' = fs_tmp f ++ data);
  fs_Sync f r f' : os_Sync f = (r, f') -> fs_file f' = fs_file f /\ fs_tmp f' = fs_tmp f;
  fs_Close f r f' : os_Close f = (r, f') -> fs_file f' = fs_file f /\ fs_tmp f' = fs_tmp f /\ r <> Panic;
  fs_Rename f r f' : os_Rename f = (r, f') -> fs_file f' = match r with Ok _ => Some (fs_tmp f) | _ => fs_file f end;
  fs_ReadFile f file f' : os_ReadFile f = (Ok file, f') -> file = fs_file f }.

Class LawfulJSON `{StateJSON} := {
  json_roundtrip p data : json_Marshal p = Ok data -> json_Decode data = Ok p }.

Section Theorems.
Context {F : Type} `{LawfulFileSystem F} `{LawfulJSON}.

(** What the file says. *)
Definition file_state (f : F) : option RunningState :=
  match fs_file f with
  | None => Some StateUnset
  | Some data =>
      match json_Decode data with
      | Ok (mkPersisted (Some b)) => Some (if b then StateStarted else StateStopped)
      | _ => None
      end
  end.
Definition state_of (started : bool) : RunningState := if started then StateStarted else StateStopped.

Lemma write_and_rename_file data (f : F) r f' :
  write_and_rename data f = (r, f') ->
  fs_file f' = match r with Ok _ => Some (fs_tmp f ++ data) | _ => fs_file f end.
Proof.
  unfold write_and_rename, wrapE, bind. destruct (os_Write data f) as [rw f1] eqn:Ew. apply fs_Write in Ew as [Fw Tw].
  destruct rw as [[]|e|]; simpl; [|by intros [= <- <-]..]. rewrite <- Fw, <- (Tw eq_refl). clear Fw Tw.
  destruct (os_Sync f1) as [rs f2] eqn:Es. apply fs_Sync in Es as [Fs Ts]. rewrite <- Fs, <- Ts.
  destruct rs as [[]|e|]; simpl; [|by intros [= <- <-]..]. clear Fs Ts.
  destruct (os_Close f2) as [rc f3] eqn:Ec. apply fs_Close in Ec as (Fc & Tc & _). rewrite <- Fc, <- Tc.
  destruct rc as [[]|e|]; simpl; [|by intros [= <- <-]..].
  destruct (os_Rename f3) as [rr f4] eqn:Er. apply fs_Rename in Er. intros [= <- <-]. by destruct rr.
Qed.

(** Persisting is all or nothing. *)
Lemma persist_file b (f : F) r f' :
  persist b f = (r, f') -> match r with Ok _ => file_state f' = Some (state_of b) | _ => fs_file f' = fs_file f end.
Proof.
  unfold persist. intros [(data & f1 & Hj & Hx)|[(e & Hj & ->)|[Hj ->]]]%bind_cases;
    unfold wrapE, lift in Hj; injection Hj as Hj <-; [|done..].
  destruct (json_Marshal _) as [data'|e|] eqn:Em; [|done..]. injection Hj as ->. apply json_roundtrip in Em.
  apply bind_cases in Hx as [(u & f1 & Hm & Hx)|[(e & Hm & ->)|[Hm ->]]]; unfold wrapE in Hm;
    destruct (os_MkdirAll f) as [rm f1'] eqn:Emk; apply fs_MkdirAll in Emk; injection Hm as _ ->; [|done..].
  rewrite <- Emk. apply bind_cases in Hx as [(u1 & f2 & Ho & Hx)|[(e & Ho & ->)|[Ho ->]]]; unfold wrapE in Ho;
    destruct (os_OpenFile f1) as [ro f2'] eqn:Eo; apply fs_OpenFile in Eo as [Fo To]; injection Ho as Hro ->; [|done..].
  rewrite <- Fo. destruct ro as [[]|?|]; [|done..]. specialize (To eq_refl).
  unfold attempt, bind in Hx. destruct (write_and_rename data f2) as [rw f3] eqn:Ew. apply write_and_rename_file in Ew.
  rewrite To in Ew. simpl in Ew.
  destruct rw as [uw|ew|]; [| |by injection Hx as <- <-].
  all: destruct (os_Close f3) as [rc f4] eqn:Ec; apply fs_Close in Ec as (Fc & _ & Hc); destruct rc as [uc|ec|]; [..|done];
    injection Hx as <- <-; first [by rewrite Fc, Ew|unfold file_state; rewrite Fc, Ew, Em; by destruct b].
Qed.

(** ** The driver keeps the file current *)
Section Restart.
Context {D B Y W A L : Type} `{FloatConversion} `{Derivation D} `{AttributesBuilder B} `{L1Chain Y} `{Network W} `{AltSync A}.
Context (L2BlockRefByNumber : Z -> M L L2BlockRef).
Context (config : Config).
Implicit Types (s : loop D B Y F W A) (x y : node D B Y F W A L).

Abbreviation driver_step := (driver_step L2BlockRefByNumber config).

(** The file says whether the sequencer is stopped. *)
Definition current s : Prop :=
  Driver.SequencerEnabled (ls_driverConfig s) = true ->
  file_state (ls_sequencerNotifs s) = Some (state_of (negb (SequencerStopped (ls_driverConfig s)))).

Definition switch s : DriverConfig * F := (ls_driverConfig s, ls_sequencerNotifs s).
Lemma current_same s s' : switch s' = switch s -> current s -> current s'.
Proof. unfold current. by intros [= -> ->]. Qed.

Lemma on_notifs_attempt (m : M F unit) s r s' :
  attempt (on_notifs m) s = (r, s') -> exists rn n, m (ls_sequencerNotifs s) = (rn, n) /\ s' = set_sequencerNotifs n s /\
    r = match rn with Ok a => Ok (inl a) | Err e => Ok (inr e) | Panic => Panic end.
Proof.
  unfold attempt, on_notifs, zoom. destruct (m (ls_sequencerNotifs s)) as [rn n]. intros Hx. exists rn, n.
  destruct rn; injection Hx as <- <-; done.
Qed.

Lemma current_failed s n : fs_file n = fs_file (ls_sequencerNotifs s) -> current s -> current (set_sequencerNotifs n s).
Proof. unfold current, file_state. simpl. by intros ->. Qed.

Lemma on_request_current i r : preserves (keeps current) (on_request config i r).
Proof.
  assert (forall s, switch (reqStep i s) = switch s) as Hreq.
  { intros s. unfold reqStep. case_if; [by destruct (ls_delayedStepReq s)|done]. }
  intros s res s' Hx Hc. unfold on_request, bind at 1, get in Hx.
  destruct r as [head|safe|fin|p| |hash| | | |num]; try (injection Hx as _ <-; first [exact Hc|revert Hc; apply current_same; by rewrite ?Hreq]).
  - destruct (der_AddUnsafePayload _ _) as [[[u|e|] d]|]; injection Hx as _ <-; try exact Hc. revert Hc. apply current_same. by rewrite Hreq.
  - case_if_in Hx; [by injection Hx as _ <-|]. case_if_in Hx; [by injection Hx as _ <-|].
    apply bind_cases in Hx as [(a & s1 & (rn & n & Hn & -> & Hr)%on_notifs_attempt & Hx)|[(e & Hn & _)|[(rn & n & Hn & -> & Hr)%on_notifs_attempt _]]];
      [|by apply attempt_not_Err in Hn|].
    2: { apply persist_file in Hn. destruct rn; try done. by apply current_failed. }
    apply persist_file in Hn. destruct rn as [u|e|]; [|..|done]; injection Hr as ->; injection Hx as _ <-; [by intros _|by apply current_failed].
  - case_if_in Hx; [by injection Hx as _ <-|].
    apply bind_cases in Hx as [(a & s1 & (rn & n & Hn & -> & Hr)%on_notifs_attempt & Hx)|[(e & Hn & _)|[(rn & n & Hn & -> & Hr)%on_notifs_attempt _]]];
      [|by apply attempt_not_Err in Hn|].
    2: { apply persist_file in Hn. destruct rn; try done. by apply current_failed. }
    apply persist_file in Hn. destruct rn as [u|e|]; [|..|done]; injection Hr as ->; injection Hx as _ <-; [by intros _|by apply current_failed].
Qed.

Lemma on_tick_switch i t : preserves (same switch) (on_tick config i t).
Proof.
  assert (preserves (same switch) (modify (reqStep (D:=D) (B:=B) (Y:=Y) (N:=F) (W:=W) (A:=A) i))).
  { apply preserves_modify. intros s. unfold same, reqStep. case_if; [by destruct (ls_delayedStepReq s)|done]. }
  destruct t; simpl.
  - refine (preserves_bind _ _ _ _ _); [|intros; go_code]. unfold on_sequencerCh.
    refine (preserves_bind _ _ _ _ _); [by apply preserves_modify|intros []].
    refine (preserves_bind _ _ _ _ _); [apply preserves_attempt; by apply preserves_zoom|intros [p|e]; [|go_code]].
    refine (preserves_bind _ _ _ _ _); [|intros []; refine (preserves_bind _ _ _ _ _); [by apply preserves_modify|intros []; go_code]].
    intros s r s'. unfold publish. destruct (ls_network s), p as [p|]; try (by intros [= _ <-]).
    destruct (net_PublishL2Payload p w). by intros [= _ <-].
  - refine (preserves_bind _ _ _ _ _); [apply preserves_attempt|intros; go_code].
    unfold checkForGapInUnsafeQueue. go_code; by apply preserves_zoom.
  - refine (preserves_bind _ _ _ _ _); [by apply preserves_modify|intros; go_code].
  - unfold on_stepReqCh. refine (preserves_bind _ _ _ _ _); [by apply preserves_modify|intros []].
    refine (preserves_bind _ _ _ _ _); [apply preserves_attempt; by apply preserves_zoom|intros r].
    refine (preserves_bind _ _ _ _ _); [by apply preserves_modify|intros []].
    assert (forall err, preserves (same switch) (react (D:=D) (B:=B) (Y:=Y) (N:=F) (W:=W) (A:=A) i err)).
    { intros err. unfold react. destruct (driver_reaction err); go_code; by apply preserves_modify. }
    destruct r as [[u|]|e]; [|go_code|]; (refine (preserves_bind _ _ _ _ _); [done|intros; go_code]).
Qed.

Lemma driver_step_current x y : driver_step x y -> current (nd_loop x) -> current (nd_loop y).
Proof.
  intros [x' y' Hst|x' y' _ Hst|s l k q cs cl d _ _]; [|by destruct Hst|by apply current_same].
  destruct Hst as [i s l q cs cl|i t o s s' l q cs cl Ht Hx|i t s s' l q cs cl Ht Hx|i n r q1 q2 a s s' l cs cl _ Hx _|
      i n r q1 q2 s s' l cs cl _ Hx|n c s l q cs cl _ _ _|s l q cs]; simpl; try done.
  - apply current_same. unfold loop_top. by repeat case_if.
  - apply current_same. by eapply on_tick_switch.
  - apply current_same. by eapply on_tick_switch.
  - by eapply on_request_current.
  - by eapply on_request_current.
Qed.

Lemma Start_current s0 u s : Start s0 = (Ok u, s) -> current s.
Proof.
  unfold Start. intros (u1 & s1 & [= _ <-] & Hx)%bind_Ok. apply bind_Ok in Hx as (s1' & s1 & [= <- <-] & Hx).
  apply bind_Ok in Hx as (u2 & s2 & Hn & [= _ <-]). intros He. change (Driver.SequencerEnabled (ls_driverConfig s2) = true) in He.
  change (file_state (ls_sequencerNotifs s2) = Some (state_of (negb (SequencerStopped (ls_driverConfig s2))))).
  case_if_in Hn; [|injection Hn as _ <-; simpl in *; congruence]. apply (proj1 (wrapE_Ok _ _ _ _ _)) in Hn. unfold on_notifs, zoom in Hn.
  destruct (SequencerStopped (ls_driverConfig (set_derivation _ s0))) eqn:Es;
    match type of Hn with (let '(r, t) := ?m in _) = _ => destruct m as [r n] eqn:Em end; injection Hn as -> <-; simpl in *;
    rewrite Es; by apply persist_file in Em.
Qed.

(** C26: a restart resumes the sequencer.  Take a node whose sequencer is enabled, that was
    started, and that is stopped between any two of its steps, after any requests to start
    and to stop the sequencer, some of which may have failed to persist.  A node that starts
    over the same file, and can read it, loads the state of the sequencer at that point,
    whatever its own flag says. *)
Theorem restart_resumes_sequencer s0 s l x driver file f' :
  Start s0 = (Ok tt, s) -> rtc driver_step (started s l) x ->
  Driver.SequencerEnabled (ls_driverConfig (nd_loop x)) = true -> Driver.SequencerEnabled driver = true ->
  os_ReadFile (ls_sequencerNotifs (nd_loop x)) = (Ok file, f') ->
  LoadPersisted driver (ls_sequencerNotifs (nd_loop x)) =
    (Ok (set_SequencerStopped (SequencerStopped (ls_driverConfig (nd_loop x))) driver), f').
Proof.
  intros Hs Hrun Hen Hd Hf.
  assert (current (nd_loop x)) as Hx.
  { refine (run_keeps driver_step (fun x => current (nd_loop x)) driver_step_current _ _ Hrun _). by eapply Start_current. }
  specialize (Hx Hen). unfold LoadPersisted, SequencerState, read, bind, wrapE. rewrite Hd. simpl. rewrite Hf. simpl.
  apply fs_ReadFile in Hf. unfold file_state in Hx. rewrite <- Hf in Hx.
  destruct file as [data|]; [|by destruct (SequencerStopped _)]. unfold lift.
  destruct (json_Decode data) as [[[b|]]|e|]; [|done..]. simpl. by destruct b, (SequencerStopped (ls_driverConfig (nd_loop x))).
Qed.
End Restart.
End Theorems.
