(* ===== verification/DriverExamples.v ===== *)
(** * The driver on concrete inputs

    A node over the pipeline of [PipelineSpec.v] that gets an L1 head, resets its engine and
    plans to sequence; the same node running a whole reset, and stopped and restarted; and
    a node whose pipeline breaks. *)
From S2P Require Import Prelude GoErrors GoBytes EthTypes Geth Solabi SystemConfigUpdate Frame Channel Batch.
From S2P Require Import ChannelBank L1Stages Payloads BatchQueue Attributes PayloadsQueue EngineUpdate SyncStart EngineQueue.
From S2P Require Import EngineQueueSpec EngineQueueSafety Pipeline PipelineSpec Sequencing Driver DriverSpec DriverPipeline ConfigPersistence.
#[local] Open Scope Z_scope.

Module DriverExamples.
Import ToyGeth SyncExamples EngineQueueExamples PipelineExamples.

(** ** The environments *)

(** The conversion of [amd64]. *)
#[export] Instance amd64_conversion : FloatConversion := {| out_of_range _ := - 9223372036854775808 |}.

(** A file system without failures. *)
Record toy_fs := mkToyFs { tf_file : option Data; tf_tmp : Data }.
#[export] Instance toy_fs_ops : FileSystem toy_fs :=
  {| os_MkdirAll := ret tt;
     os_OpenFile := modify (fun f => mkToyFs (tf_file f) []);
     os_Write data := modify (fun f => mkToyFs (tf_file f) (tf_tmp f ++ data));
     os_Sync := ret tt; os_Close := ret tt;
     os_Rename := modify (fun f => mkToyFs (Some (tf_tmp f)) (tf_tmp f));
     os_ReadFile := fun f => (Ok (tf_file f), f) |}.
#[export] Instance toy_fs_lawful : LawfulFileSystem toy_fs.
Proof. refine {| fs_file := tf_file; fs_tmp := tf_tmp |}; try (intros f r f' [= <- <-]; done). intros data f r f' [= <- <-]. done. Defined.

#[export] Instance toy_json : StateJSON :=
  {| json_Marshal p := Ok (match SequencerStarted p with None => [] | Some true => [Byte.x01] | Some false => [Byte.x00] end);
     json_Decode data := match data with
       | [] => Ok (mkPersisted None)
       | b :: _ => Ok (mkPersisted (Some (bool_decide (b = Byte.x01)))) end |}.
#[export] Instance toy_json_lawful : LawfulJSON.
Proof. split. intros [[[]|]] data [= <-]; done. Qed.

#[export] Instance toy_network : Network unit := {| net_PublishL2Payload _ := ret tt |}.
#[export] Instance toy_sync : AltSync unit := {| RequestL2Range _ _ := ret tt |}.
Definition toy_ByNumber (_ : Z) : M unit L2BlockRef := throw NotFound.

#[export] Instance toy_numbered : NumberedEngine (E:=toy_engine).
Proof. split. by intros k e p e' [= <- _]. Qed.

Abbreviation pipeline := (DerivationPipeline (confDepth Z) toy_engine unit).
#[export] Instance toy_derivation : Derivation pipeline := pipeline_derivation toy_NewReader toy_NewStream toy_Decode toy_cfg no_sync 4.
#[export] Instance toy_steady : SteadyDerivation pipeline := pipeline_steady toy_NewReader toy_NewStream toy_Decode toy_cfg no_sync 4.
#[export] Instance toy_builder : AttributesBuilder (FetchingAttributesBuilder Z toy_engine) := fab_builder toy_cfg.
Abbreviation toy_loop := (loop pipeline (FetchingAttributesBuilder Z toy_engine) Z toy_fs unit unit).
Abbreviation toy_node := (node pipeline (FetchingAttributesBuilder Z toy_engine) Z toy_fs unit unit unit).
Abbreviation toy_step := (driver_step (L:=unit) toy_ByNumber toy_cfg).

(** ** A node that sequences *)
Definition new_driver : toy_loop :=
  NewDriver (mkDriverConfig 0 4 true false 100) (mkToyEngine 0) 100 tt None (mkToyFs None []).
Definition in0 : inputs := mkInputs 5 0 false.
Definition head3 : L1BlockRef := l1_block 100 3.

(** It starts, takes an L1 head, resets its engine and plans its first action. *)
Definition running : toy_loop := (Start new_driver).2.
Definition at_select : toy_loop := loop_top toy_cfg in0 running.
Definition with_head : toy_loop := (on_request toy_cfg in0 (OnL1Head head3) at_select).2.
Definition at_step : toy_loop := loop_top toy_cfg in0 with_head.
Definition engine_reset : toy_loop := (on_tick toy_cfg in0 StepTick at_step).2.
Definition planned_loop : toy_loop := loop_top toy_cfg in0 engine_reset.

Lemma started_1 : (Start new_driver).1 = Ok tt.
Proof. vm_compute. reflexivity. Qed.
Lemma started_ok : Start new_driver = (Ok tt, running).
Proof. unfold running. exact (run_eq _ _ _ started_1). Qed.
Lemma head_1 : (on_request toy_cfg in0 (OnL1Head head3) at_select).1 = Ok (Some NoAnswer).
Proof. vm_compute. reflexivity. Qed.
Lemma head_taken : on_request toy_cfg in0 (OnL1Head head3) at_select = (Ok (Some NoAnswer), with_head).
Proof. unfold with_head. exact (run_eq _ _ _ head_1). Qed.
Lemma step_1 : (on_tick toy_cfg in0 StepTick at_step).1 = Ok (Some Continue).
Proof. vm_compute. reflexivity. Qed.
Lemma step_taken : on_tick toy_cfg in0 StepTick at_step = (Ok (Some Continue), engine_reset).
Proof. unfold engine_reset. exact (run_eq _ _ _ step_1). Qed.
Lemma step_requested : ticks StepTick at_step = true.
Proof. vm_compute. reflexivity. Qed.

(** The nodes on the way. *)
Definition calling : list call := [new_call true (OnL1Head head3)].
Definition headed : list call := move 0 (sent (OnL1Head head3)) calling.
Definition node0 : toy_node := started running tt.
Definition node1 : toy_node := mkNode running tt AtTop [] calling Open.
Definition node2 : toy_node := mkNode running tt AtTop [(0%nat, OnL1Head head3)] headed Open.
Definition node3 : toy_node := mkNode at_select tt Selecting [(0%nat, OnL1Head head3)] headed Open.
Definition node4 : toy_node := mkNode with_head tt AtTop [] headed Open.
Definition node5 : toy_node := mkNode at_step tt Selecting [] headed Open.
Definition node6 : toy_node := mkNode engine_reset tt AtTop [] headed Open.
Definition planned_node : toy_node := mkNode planned_loop tt Selecting [] headed Open.

Lemma step01 : toy_step node0 node1.
Proof.
  apply driver_caller; [discriminate|].
  assert (SequencerEnabled (ls_driverConfig running) = true) as He by (vm_compute; reflexivity).
  pose proof (call_begins toy_ByNumber (OnL1Head head3) running tt AtTop [] [] Open) as Hc. rewrite He in Hc. exact Hc.
Qed.
Lemma step12 : toy_step node1 node2.
Proof.
  apply driver_caller; [discriminate|].
  apply (call_sends toy_ByNumber 0 (new_call true (OnL1Head head3)) running tt AtTop [] calling Open); [done|done|simpl; lia].
Qed.
Lemma step23 : toy_step node2 node3.
Proof. apply driver_loop, (loop_at_top toy_cfg in0 running). Qed.
Lemma step34 : toy_step node3 node4.
Proof.
  apply driver_loop.
  apply (loop_request toy_cfg in0 0 (OnL1Head head3) [] [] NoAnswer at_select with_head tt headed Open); [done|exact head_taken|done].
Qed.
Lemma step45 : toy_step node4 node5.
Proof. apply driver_loop, (loop_at_top toy_cfg in0 with_head). Qed.
Lemma step56 : toy_step node5 node6.
Proof.
  apply driver_loop.
  exact (loop_tick toy_cfg in0 StepTick Continue at_step engine_reset tt [] headed Open step_requested step_taken).
Qed.
Lemma step67 : toy_step node6 planned_node.
Proof. apply driver_loop, (loop_at_top toy_cfg in0 engine_reset). Qed.

Definition fired_loop : toy_loop := set_sequencerTimer (tm_fire (ls_sequencerTimer planned_loop)) planned_loop.
Definition fired_node : toy_node := mkNode fired_loop tt Selecting [] headed Open.
Lemma timer_armed : tm_armed (ls_sequencerTimer planned_loop) = Some (PlanNextSequencerAction toy_cfg 5 (ls_sequencer engine_reset)).
Proof. vm_compute. reflexivity. Qed.
Lemma fired_step : toy_step planned_node fired_node.
Proof. eapply (driver_timer toy_ByNumber toy_cfg planned_loop tt Selecting [] headed Open); [discriminate|exact timer_armed]. Qed.

Lemma planned_reached : rtc toy_step node0 planned_node.
Proof.
  eapply rtc_l; [exact step01|]. eapply rtc_l; [exact step12|]. eapply rtc_l; [exact step23|].
  eapply rtc_l; [exact step34|]. eapply rtc_l; [exact step45|]. eapply rtc_l; [exact step56|]. apply rtc_once, step67.
Qed.
Lemma fired_reached : rtc toy_step node0 fired_node.
Proof. eapply rtc_r; [exact planned_reached|exact fired_step]. Qed.

Lemma sequencer_acts_when_allowed_witness :
  ticks SequencerTick fired_loop = true /\ der_EngineReady (derivation fired_loop) = true.
Proof.
  assert (ticks SequencerTick fired_loop = true) as Ht by (vm_compute; reflexivity). split; [exact Ht|].
  pose proof (sequencer_acts_when_allowed toy_ByNumber toy_cfg running tt fired_node fired_reached eq_refl Ht) as Hp.
  exact (proj1 (proj2 (proj2 (proj2 Hp)))).
Defined.

(** All nodes on the way are sane. *)
Definition sane_b (x : toy_node) : bool :=
  let max := SequencerMaxSafeLag (ls_driverConfig (nd_loop x)) in
  let safe := l2_Number (der_SafeL2Head (derivation (nd_loop x))) in
  let unsafe := l2_Number (ec_UnsafeL2Head (derivation (nd_loop x))) in
  forallb (fun z => (0 <=? z) && (z <? 9223372036854775808)) [max; safe; unsafe].
Lemma sane_nodes : forallb sane_b [node0; node1; node2; node3; node4; node5; node6; planned_node] = true.
Proof. vm_compute. reflexivity. Qed.
Lemma sane_of x : sane_b x = true -> (forall n head, (n, OnL1Head head) ∈ nd_queue x -> head <> zeroL1) -> sane x.
Proof.
  unfold sane_b. cbn [forallb]. intros Hx Hq. zify_bools. change (2 ^ 63) with 9223372036854775808.
  split; [lia|split; [lia|split; [lia|exact Hq]]].
Qed.
Lemma queue_nil n head : (n, OnL1Head head) ∈ ([] : list (nat * request)) -> head <> zeroL1.
Proof. intros []%elem_of_nil. Qed.
Lemma queue_one n head : (n, OnL1Head head) ∈ [(0%nat, OnL1Head head3)] -> head <> zeroL1.
Proof. intros Hin%list_elem_of_singleton. by injection Hin as _ ->. Qed.

Lemma planned_sane_run : rtc (sane_step toy_ByNumber toy_cfg) node0 planned_node.
Proof.
  pose proof sane_nodes as Hs. cbn [forallb] in Hs. repeat (apply andb_true_iff in Hs as [? Hs]). clear Hs.
  assert (sane node0) as S0 by (apply sane_of; [assumption|exact queue_nil]).
  assert (sane node1) as S1 by (apply sane_of; [assumption|exact queue_nil]).
  assert (sane node2) as S2 by (apply sane_of; [assumption|exact queue_one]).
  assert (sane node3) as S3 by (apply sane_of; [assumption|exact queue_one]).
  assert (sane node4) as S4 by (apply sane_of; [assumption|exact queue_nil]).
  assert (sane node5) as S5 by (apply sane_of; [assumption|exact queue_nil]).
  assert (sane node6) as S6 by (apply sane_of; [assumption|exact queue_nil]).
  assert (sane planned_node) as S7 by (apply sane_of; [assumption|exact queue_nil]).
  eapply rtc_l; [exact (conj step01 (conj S0 S1))|].
  eapply rtc_l; [exact (conj step12 (conj S1 S2))|].
  eapply rtc_l; [exact (conj step23 (conj S2 S3))|].
  eapply rtc_l; [exact (conj step34 (conj S3 S4))|].
  eapply rtc_l; [exact (conj step45 (conj S4 S5))|].
  eapply rtc_l; [exact (conj step56 (conj S5 S6))|].
  apply rtc_once. exact (conj step67 (conj S6 S7)).
Qed.

Lemma sequencer_never_stranded_witness :
  ls_sequencerCh (nd_loop planned_node) = true /\ tm_armed (ls_sequencerTimer (nd_loop planned_node)) <> None.
Proof.
  assert (may_sequence (nd_loop planned_node) = true) as Hm by (vm_compute; reflexivity).
  assert (lags (nd_loop planned_node) = false) as Hl by (vm_compute; reflexivity).
  assert (tm_full (ls_sequencerTimer (nd_loop planned_node)) = false) as Hf by (vm_compute; reflexivity).
  assert (building_safe (derivation (nd_loop planned_node)) = false) as Hb by (vm_compute; reflexivity).
  assert (bool_decide (l2_ID (ec_UnsafeL2Head (derivation (nd_loop planned_node))) = l2_ID zeroL2) = false) as Hz by (vm_compute; reflexivity).
  pose proof (sequencer_never_stranded toy_ByNumber toy_cfg new_driver running tt planned_node started_ok planned_sane_run eq_refl Hm Hl) as Hx.
  cbv zeta in Hx. rewrite Hf, Hb in Hx. apply bool_decide_eq_false in Hz.
  destruct Hx as [[Hc [Hx|Ha]]|[Hx|Hx]]; [discriminate Hx|exact (conj Hc Ha)|discriminate Hx|destruct (Hz Hx)].
Defined.

Lemma callers_and_loop_never_block_witness :
  exists c, nd_calls node3 !! 0%nat = Some c /\ c_request c = OnL1Head head3 /\ c_respCh c = None.
Proof.
  assert (rtc toy_step node0 node3) as Hrun.
  { eapply rtc_l; [exact step01|]. eapply rtc_l; [exact step12|]. apply rtc_once, step23. }
  assert (nd_control node3 <> Crashed) as Hk by discriminate.
  exact (proj1 (callers_and_loop_never_block toy_ByNumber toy_cfg running tt node3 Hrun Hk) 0%nat (OnL1Head head3) ltac:(by left)).
Defined.

(** ** A whole reset *)

(** [n] steps of the pipeline, each after the top of the loop. *)
Fixpoint spun (n : nat) (s : toy_loop) : toy_loop :=
  match n with O => s | S n => (on_tick toy_cfg in0 StepTick (loop_top toy_cfg in0 (spun n s))).2 end.
Definition continues (r : result (option outcome)) : bool := match r with Ok (Some Continue) => true | _ => false end.
Fixpoint spins (n : nat) (s : toy_loop) : bool :=
  match n with
  | O => true
  | S n => spins n s && ticks StepTick (loop_top toy_cfg in0 (spun n s))
           && continues (on_tick toy_cfg in0 StepTick (loop_top toy_cfg in0 (spun n s))).1
  end.

Lemma spins_reach n s : spins n s = true -> rtc toy_step (started s tt) (started (spun n s) tt).
Proof.
  induction n as [|n IH]; [done|]. cbn [spins]. intros Hs. apply andb_true_iff in Hs as [Hs Hc]. apply andb_true_iff in Hs as [Hs Ht].
  etrans; [exact (IH Hs)|]. eapply rtc_l; [apply driver_loop, (loop_at_top toy_cfg in0)|]. apply rtc_once, driver_loop.
  eapply (loop_tick toy_cfg in0 StepTick Continue); [exact Ht|]. cbn [spun]. apply run_eq. revert Hc. unfold continues.
  by destruct (on_tick _ _ _ _).1 as [[[]|]|e|].
Qed.

Definition resetting_loop : toy_loop := loop_top toy_cfg in0 (spun 7 running).
Definition reset_loop : toy_loop := (on_tick toy_cfg in0 StepTick resetting_loop).2.

Lemma node_reset_is_complete_witness :
  all_fresh toy_cfg num_stages (eng (derivation reset_loop)) /\ EngineQueue.origin (eng (derivation reset_loop)) = l1_block 100 0.
Proof.
  split; [|vm_compute; reflexivity].
  assert (rtc toy_step (started running tt) (mkNode resetting_loop tt Selecting [] [] Open)) as Hrun.
  { eapply rtc_r; [apply (spins_reach 7); vm_compute; reflexivity|]. apply driver_loop, (loop_at_top toy_cfg in0). }
  assert ((on_tick toy_cfg in0 StepTick resetting_loop).1 = Ok (Some Continue)) as Hx by (vm_compute; reflexivity).
  apply (node_reset_is_complete toy_NewReader toy_NewStream toy_Decode toy_cfg no_sync 4 toy_ByNumber new_driver running tt
    (mkNode resetting_loop tt Selecting [] [] Open) in0 Continue reset_loop started_ok Hrun).
  - vm_compute. reflexivity.
  - unfold reset_loop. exact (run_eq _ _ _ Hx).
  - vm_compute. lia.
  - vm_compute. reflexivity.
Defined.

(** ** Payloads *)

Definition block6 : ExecutionPayload := toy_payload 6 5.

Lemma new_driver_inv : queue_inv (derivation new_driver).
Proof. unfold queue_inv, derivation, new_driver. unfold NewDriver, NewSequencer, new_loop. cbn [ls_sequencer sq_engine]. apply new_queue_inv. Qed.

Lemma payloads_are_taken_witness :
  exists s', on_request toy_cfg in0 (OnUnsafeL2Payload block6) (nd_loop planned_node) = (Ok (Some NoAnswer), s') /\ pending s'.
Proof.
  exact (payloads_are_taken toy_NewReader toy_NewStream toy_Decode toy_cfg no_sync 4 toy_ByNumber new_driver running tt
    planned_node in0 block6 new_driver_inv started_ok planned_reached).
Defined.

(** ** A restart *)

(** The sequencer is stopped by a call. *)
Definition stopped_loop : toy_loop := (on_request toy_cfg in0 StopSequencer at_select).2.
Definition stopping : list call := [new_call true StopSequencer].
Definition stop_sent : list call := move 0 (sent StopSequencer) stopping.
Lemma stop_1 : (on_request toy_cfg in0 StopSequencer at_select).1 = Ok (Some (Stopped (l2_Hash (ec_UnsafeL2Head (derivation at_select))))).
Proof. vm_compute. reflexivity. Qed.

Definition stopped_node : toy_node :=
  mkNode stopped_loop tt AtTop [] (respond 0 (Stopped (l2_Hash (ec_UnsafeL2Head (derivation at_select)))) stop_sent) Open.

Lemma stopped_reached : rtc toy_step node0 stopped_node.
Proof.
  eapply rtc_l.
  { apply driver_caller; [discriminate|].
    assert (SequencerEnabled (ls_driverConfig running) = true) as He by (vm_compute; reflexivity).
    pose proof (call_begins toy_ByNumber StopSequencer running tt AtTop [] [] Open) as Hc. rewrite He in Hc. exact Hc. }
  eapply rtc_l.
  { apply driver_caller; [discriminate|].
    apply (call_sends toy_ByNumber 0 (new_call true StopSequencer) running tt AtTop [] stopping Open); [done|done|simpl; lia]. }
  eapply rtc_l; [apply driver_loop, (loop_at_top toy_cfg in0 running)|]. apply rtc_once, driver_loop.
  apply (loop_request toy_cfg in0 0 StopSequencer [] [] _ at_select stopped_loop tt stop_sent Open);
    [done|unfold stopped_loop; exact (run_eq _ _ _ stop_1)|intros _; eexists; split; reflexivity].
Qed.

(** The new node is told to start sequencing, but stays stopped. *)
Lemma restart_resumes_sequencer_witness :
  (LoadPersisted (mkDriverConfig 0 4 true false 100) (ls_sequencerNotifs (nd_loop stopped_node))).1 =
    Ok (mkDriverConfig 0 4 true true 100).
Proof.
  assert (Driver.SequencerEnabled (ls_driverConfig (nd_loop stopped_node)) = true) as He by (vm_compute; reflexivity).
  assert (SequencerStopped (ls_driverConfig (nd_loop stopped_node)) = true) as Hs by (vm_compute; reflexivity).
  pose proof (restart_resumes_sequencer toy_ByNumber toy_cfg new_driver running tt stopped_node (mkDriverConfig 0 4 true false 100)
    _ _ started_ok stopped_reached He eq_refl eq_refl) as Hx.
  rewrite Hs in Hx. rewrite Hx. reflexivity.
Defined.

(** ** Errors *)

Lemma backoff_overflows_witness : Duration Exponential 3 5 = 8000000005 /\ Duration Exponential 34 5 < 0.
Proof.
  assert (0 <= 5 < 250 * Millisecond) as Hr by (unfold Millisecond; lia).
  split; [exact (proj1 (backoff_overflows 3 5 ltac:(lia) Hr) ltac:(lia))|exact (proj2 (backoff_overflows 34 5 ltac:(lia) Hr) ltac:(lia))].
Defined.

(** A pipeline whose steps fail with a critical error. *)
Inductive broken := Broken.
#[export] Instance broken_control : EngineControl broken :=
  {| ec_UnsafeL2Head _ := zeroL2; ec_BuildingPayload _ := (zeroL2, 0, false);
     ec_StartPayload _ _ _ := throw NotFound; ec_ConfirmPayload := throw NotFound; ec_CancelPayload _ := ret tt;
     ec_Reset d := d |}.
#[export] Instance broken_derivation : Derivation broken :=
  {| der_Step := throw (NewCriticalError NotFound);
     der_AddUnsafePayload _ d := Some (Ok tt, d); der_UnsafeL2SyncTarget _ := Some zeroL2; der_Finalize _ d := d;
     der_FinalizedL1 _ := zeroL1; der_Finalized _ := zeroL2; der_SafeL2Head _ := zeroL2; der_Origin _ := zeroL1;
     der_EngineReady _ := false; der_EngineSyncTarget _ := zeroL2; der_SetL1Head _ d := d |}.

#[export] Instance no_builder : AttributesBuilder unit := {| PreparePayloadAttributes _ _ := throw NotFound |}.
Definition broken_loop : loop broken unit Z toy_fs unit unit :=
  loop_top toy_cfg in0
    (Start (new_loop (NewSequencer Broken tt (mkConfDepth 100 zeroL1 4)) (mkDriverConfig 0 4 true false 100) (mkToyFs None []) None tt)).2.
Definition broken_node : node broken unit Z toy_fs unit unit unit := mkNode broken_loop tt Selecting [] [] Closing.
Definition ended_node : node broken unit Z toy_fs unit unit unit :=
  mkNode (on_tick toy_cfg in0 StepTick broken_loop).2 tt Ended [] [] Closing.

(** [Close] was called before the loop took the step, and hangs. *)
Lemma close_hangs_after_critical_error_witness :
  driver_step toy_ByNumber toy_cfg broken_node ended_node /\
  forall y, rtc (driver_step toy_ByNumber toy_cfg) ended_node y -> nd_control y = Ended /\ nd_close y <> Closed.
Proof.
  assert (ticks StepTick broken_loop = true) as Ht by (vm_compute; reflexivity).
  assert ((on_tick toy_cfg in0 StepTick broken_loop).1 = Ok (Some Return)) as H1 by (vm_compute; reflexivity).
  pose proof (fun y => close_hangs_after_critical_error toy_ByNumber toy_cfg in0 StepTick broken_loop _ tt [] [] Closing y Ht (run_eq _ _ _ H1)
    ltac:(discriminate)) as Hx.
  split; [exact (proj1 (Hx ended_node))|intros y; exact (proj2 (Hx y))].
Defined.

Lemma derivation_goes_on_witness : pending (nd_loop node5) /\ ticks StepTick (nd_loop node5) = true.
Proof.
  assert (ls_stepReqCh running = true) as Hr by (vm_compute; reflexivity).
  assert (ticks StepTick (nd_loop node5) = true) as Ht by exact step_requested. split; [|exact Ht].
  pose proof (proj1 (derivation_goes_on toy_ByNumber toy_cfg) NextStep (started running tt) (derives_start _ _ running tt Hr) I) as [Hp|Hn].
  - by left.
  - exfalso. by destruct Hn as [Hn|[Hn|Hn]].
Defined.
End DriverExamples.
