(* ===== verification/Bits.v ===== *)
(** * Bit operations on machine words

    Masks, shifts and disjoint sums, for the components that work on bits. *)
From S2P Require Import Prelude.
#[local] Open Scope Z_scope.

Lemma land_low_high k n a : 0 <= n -> 0 <= a < 2 ^ n -> Z.land (k * 2 ^ n) a = 0.
Proof.
  intros Hn Ha. apply Z.bits_inj'. intros i Hi. rewrite Z.land_spec, Z.bits_0.
  destruct (Z.lt_ge_cases i n); [by rewrite Z.mul_pow2_bits_low by lia|].
  destruct (decide (a = 0)) as [->|Hz]; [by rewrite Z.bits_0, andb_false_r|].
  rewrite (Z.bits_above_log2 a i); [apply andb_false_r|lia|].
  apply Z.log2_lt_pow2; [lia|]. pose proof (Z.pow_le_mono_r 2 n i). lia.
Qed.

Lemma lor_low_high k n a : 0 <= n -> 0 <= a < 2 ^ n -> Z.lor (k * 2 ^ n) a = k * 2 ^ n + a.
Proof. intros. rewrite Z.add_nocarry_lor; [done|by apply land_low_high]. Qed.

Lemma land_mask x n : 0 <= n -> Z.land x (2 ^ n - 1) = x mod 2 ^ n.
Proof. intros. rewrite <- Z.land_ones by done. f_equal. rewrite Z.ones_equiv. lia. Qed.

(** Testing a bit with a mask. *)
Lemma land_bit a n : 0 <= n -> negb (Z.land a (Z.shiftl 1 n) =? 0) = Z.testbit a n.
Proof.
  intros Hn. rewrite Z.shiftl_1_l. destruct (Z.testbit a n) eqn:E.
  - apply negb_true_iff, Z.eqb_neq. intros Hz. apply (f_equal (fun x => Z.testbit x n)) in Hz.
    rewrite Z.land_spec, Z.pow2_bits_true, E, Z.bits_0 in Hz by done. done.
  - apply negb_false_iff, Z.eqb_eq, Z.bits_inj'. intros i Hi. rewrite Z.land_spec, Z.bits_0, Z.pow2_bits_eqb by done.
    destruct (Z.eqb_spec n i) as [->|]; [by rewrite E|apply andb_false_r].
Qed.

Lemma odd_shiftr a n : 0 <= n -> Z.odd (Z.shiftr a n) = Z.testbit a n.
Proof. intros. rewrite <- Z.bit0_odd, Z.shiftr_spec by lia. by rewrite Z.add_0_l. Qed.

(** ** Words of 32 bits *)
Definition is_u32 (z : Z) : Prop := 0 <= z < 4294967296.

Lemma below_pow2 k z : 0 <= k -> 0 <= z -> (forall i, k <= i -> Z.testbit z i = false) -> z < 2 ^ k.
Proof.
  intros Hk Hz Hb. destruct (Z.lt_ge_cases z (2 ^ k)) as [|Hge]; [done|exfalso].
  pose proof (Z.pow_pos_nonneg 2 k ltac:(lia) Hk).
  assert (k <= Z.log2 z) as Hl by (apply Z.log2_le_pow2; lia).
  pose proof (Hb _ Hl) as Hf. rewrite Z.bit_log2 in Hf by lia. done.
Qed.

Lemma testbit_above k z i : 0 <= z < 2 ^ k -> k <= i -> Z.testbit z i = false.
Proof.
  intros Hz Hi. destruct (decide (z = 0)) as [->|]; [apply Z.bits_0|].
  apply Z.bits_above_log2; [lia|]. apply Z.log2_lt_pow2; [lia|].
  destruct (decide (0 <= k)); [|rewrite Z.pow_neg_r in Hz by lia; lia].
  pose proof (Z.pow_le_mono_r 2 k i). lia.
Qed.

Lemma is_u32_testbit z i : is_u32 z -> 32 <= i -> Z.testbit z i = false.
Proof. intros Hz. by apply testbit_above. Qed.

Lemma is_u32_bits z : 0 <= z -> (forall i, 32 <= i -> Z.testbit z i = false) -> is_u32 z.
Proof. intros Hz Hb. split; [done|]. by apply (below_pow2 32). Qed.

Lemma u32_is_u32 z : is_u32 (u32 z).
Proof. by apply Z.mod_pos_bound. Qed.
Lemma lor_is_u32 a b : is_u32 a -> is_u32 b -> is_u32 (Z.lor a b).
Proof.
  intros Ha Hb. apply is_u32_bits; [apply Z.lor_nonneg; split; apply Ha || apply Hb|].
  intros i Hi. by rewrite Z.lor_spec, !is_u32_testbit.
Qed.
Lemma lxor_is_u32 a b : is_u32 a -> is_u32 b -> is_u32 (Z.lxor a b).
Proof.
  intros Ha Hb. apply is_u32_bits; [apply Z.lxor_nonneg; split; intros _; apply Ha || apply Hb|].
  intros i Hi. by rewrite Z.lxor_spec, !is_u32_testbit.
Qed.
Lemma land_is_u32 a b : is_u32 a -> is_u32 (Z.land a b).
Proof.
  intros Ha. apply is_u32_bits; [apply Z.land_nonneg; left; apply Ha|].
  intros i Hi. by rewrite Z.land_spec, is_u32_testbit.
Qed.
Lemma land_r_is_u32 a b : is_u32 b -> is_u32 (Z.land a b).
Proof. intros. rewrite Z.land_comm. by apply land_is_u32. Qed.
Lemma shiftr_is_u32 a n : is_u32 a -> 0 <= n -> is_u32 (Z.shiftr a n).
Proof.
  intros [Ha Ha'] Hn. split; [by apply Z.shiftr_nonneg|].
  rewrite Z.shiftr_div_pow2 by done. pose proof (Z.pow_pos_nonneg 2 n ltac:(lia) Hn).
  apply Z.div_lt_upper_bound; nia.
Qed.

Create HintDb words.
#[export] Hint Resolve u32_is_u32 lor_is_u32 lxor_is_u32 land_is_u32 land_r_is_u32 : words.
