(* ===== verification/Evm.v ===== *)
(** * What the contracts use of the EVM

    Words of 256 bits with the operations of Yul, reverts, and the call data that the ABI
    decoder reads.  A revert is an error. *)
From S2P Require Import Prelude GoErrors GoBytes EthTypes.
#[local] Open Scope Z_scope.

(** ** Words *)
Definition two256 : Z := 2 ^ 256.
Definition u256 (z : Z) : Z := z mod two256.
Definition shl256 (n x : Z) : Z := if 256 <=? n then 0 else u256 (Z.shiftl x n).
Definition shr256 (n x : Z) : Z := if 256 <=? n then 0 else Z.shiftr x n.
Definition not256 (x : Z) : Z := two256 - 1 - x.

(** [lt], [iszero] and [byte], the last counted from the most significant byte. *)
Definition lt256 (a b : Z) : Z := if a <? b then 1 else 0.
Definition iszero256 (a : Z) : Z := if a =? 0 then 1 else 0.
Definition byte256 (i x : Z) : Z := if 32 <=? i then 0 else Z.land (Z.shiftr x (8 * (31 - i))) 255.

Lemma shl256_small n x : 0 <= n < 256 -> 0 <= x -> x * 2 ^ n < 2 ^ 256 -> shl256 n x = x * 2 ^ n.
Proof.
  intros. unfold shl256, u256, two256. case_if; [lia|]. rewrite Z.shiftl_mul_pow2 by lia.
  pose proof (Z.pow_pos_nonneg 2 n). rewrite Z.mod_small; nia.
Qed.

(** ** Reverts and call data *)
Definition revert : error := ErrNew "execution reverted".

(** 32 bytes from an offset on, with zeroes after the end. *)
Definition load32 (offset : Z) (bs : Data) : Hash := be_decode (take 32 (drop (Z.to_nat offset) bs ++ replicate 32 Byte.x00)).

(** The place and the length of an argument of type [bytes], whose head is at an offset, as
    the decoder that the compiler generates finds and checks them. *)
Definition abi_bytes (cd : Data) (head : Z) : result (Z * Z) :=
  let size := Z.of_nat (length cd) in
  let rel := load32 head cd in
  if 18446744073709551615 <? rel then Err revert
  else if size <=? 4 + rel + 31 then Err revert
  else
    let len := load32 (4 + rel) cd in
    if (18446744073709551615 <? len) || (size <? 4 + rel + 32 + len) then Err revert
    else Ok (4 + rel + 32, len).
