(* ===== verification/MipsMemory.v ===== *)
(** * Memory of the fault-proof VM

    [cannon/mipsevm/page.go] and [memory.go]: pages with a cache of their Merkle nodes,
    the nodes above the pages, the two-entry page cache, words, ranges and proofs.  Pages
    are shared between the table of pages and the page cache: they live in a store, and the
    table and the cache hold pointers. *)
From S2P Require Import Prelude GoErrors GoBytes EthTypes Geth Solabi.
#[local] Open Scope Z_scope.

Definition PageAddrSize : Z := 12.
Definition PageKeySize : Z := 32 - PageAddrSize.
Definition PageSize : Z := Z.shiftl 1 PageAddrSize.
Definition PageAddrMask : Z := PageSize - 1.
Definition MaxPageCount : Z := Z.shiftl 1 PageKeySize.
Definition PageKeyMask : Z := MaxPageCount - 1.

Section Hashing.
Context `{Keccak}.

Definition HashPair (left right : Hash) : Hash := Keccak256Hash (be_encode 32 left ++ be_encode 32 right).

(** [zeroHashes]: the roots of the trees of zeroes, by height. *)
Fixpoint zero_hash (i : nat) : Hash :=
  match i with
  | O => 0
  | S i' => let h := zero_hash i' in HashPair h h
  end.
Definition zeroHashes (i : Z) : Hash := zero_hash (Z.to_nat i).
End Hashing.

(** ** Pages *)

(** [CachedPage]: the data, the intermediate nodes, and which of them are valid. *)
Record CachedPage := mkPage {
  cp_Data : Data;
  cp_Cache : list Hash;
  cp_Ok : list bool }.

Definition new_page : CachedPage := mkPage (replicate 4096 Byte.x00) (replicate 128 0) (replicate 128 false).

(** The loop [for k > 0 { Ok[k] = false; k >>= 1 }]. *)
Fixpoint clear_path (k : positive) (ok : list bool) : list bool :=
  let ok' := <[Pos.to_nat k := false]> ok in
  match k with
  | xH => ok'
  | xO k' | xI k' => clear_path k' ok'
  end.

Definition CachedPage_Invalidate (pageAddr : Z) : M CachedPage unit :=
  if PageSize <=? pageAddr then lift Panic
  else
    modify (fun p =>
      match Z.shiftr (Z.lor PageSize pageAddr) 6 with
      | Zpos k => mkPage (cp_Data p) (cp_Cache p) (clear_path k (cp_Ok p))
      | _ => p
      end).
Definition CachedPage_InvalidateFull : M CachedPage unit :=
  modify (fun p => mkPage (cp_Data p) (cp_Cache p) (replicate 128 false)).

Section Pages.
Context `{Keccak}.

(** One node of the cache is computed if it is not valid. *)
Definition fill_node (j : nat) (hash : CachedPage -> Hash) (p : CachedPage) : CachedPage :=
  if nth j (cp_Ok p) false then p
  else mkPage (cp_Data p) (<[j := hash p]> (cp_Cache p)) (<[j := true]> (cp_Ok p)).

(** [CachedPage.MerkleRoot]: the bottom layer, from pairs of leaves, then the layers above
    it from the right to the left. *)
Definition fill_bottom (p : CachedPage) : CachedPage :=
  foldl (fun p i => fill_node (64 + i) (fun p => Keccak256Hash (take 64 (drop (64 * i) (cp_Data p)))) p) p (seq 0 64).
Definition fill_layers (p : CachedPage) : CachedPage :=
  foldl (fun p j => fill_node j (fun p => HashPair (nth (2 * j) (cp_Cache p) 0) (nth (2 * j + 1) (cp_Cache p) 0)) p) p
    (reverse (seq 1 63)).
Definition CachedPage_MerkleRoot : M CachedPage Hash := fun p =>
  let p' := fill_layers (fill_bottom p) in (Ok (nth 1 (cp_Cache p') 0), p').

Definition CachedPage_MerkleizeSubtree (gindex : Z) : M CachedPage Hash :=
  CachedPage_MerkleRoot ;;;
  p <- get ;;
  if 128 <=? gindex then
    if 256 <=? gindex then lift Panic
    else
      let nodeIndex := Z.to_nat (Z.land gindex (Z.shiftr PageAddrMask 5)) in
      ret (be_decode (take 32 (drop (nodeIndex * 32) (cp_Data p))))
  else ret (nth (Z.to_nat gindex) (cp_Cache p) 0).
End Pages.

(** ** Memory *)

(** A node is absent, invalid or known; the store of the pages is part of the state. *)
Record Memory := mkMemory {
  mem_nodes : gmap Z (option Hash);
  mem_pages : gmap Z nat;
  mem_lastPageKeys : Z * Z;
  mem_lastPage : option nat * option nat;
  mem_store : gmap nat CachedPage }.

Definition NewMemory : Memory := mkMemory ∅ ∅ (4294967295, 4294967295) (None, None) ∅.

Definition PageCount (m : Memory) : Z := Z.of_nat (size (mem_pages m)).

Definition set_nodes (nodes : gmap Z (option Hash)) (m : Memory) : Memory :=
  mkMemory nodes (mem_pages m) (mem_lastPageKeys m) (mem_lastPage m) (mem_store m).

(** A call on the page behind a pointer. *)
Definition on_page {A} (p : option nat) (f : M CachedPage A) : M Memory A := fun m =>
  match p with
  | None => (Panic, m)
  | Some q =>
      match mem_store m !! q with
      | None => (Panic, m)
      | Some page =>
          let '(r, page') := f page in
          (r, mkMemory (mem_nodes m) (mem_pages m) (mem_lastPageKeys m) (mem_lastPage m) (<[q := page']> (mem_store m)))
      end
  end.

(** [Memory.pageLookup]: the pointer, and whether the page exists. *)
Definition pageLookup (pageIndex : Z) : M Memory (option nat * bool) := fun m =>
  if pageIndex =? (mem_lastPageKeys m).1 then (Ok ((mem_lastPage m).1, true), m)
  else if pageIndex =? (mem_lastPageKeys m).2 then (Ok ((mem_lastPage m).2, true), m)
  else
    match mem_pages m !! pageIndex with
    | None => (Ok (None, false), m)
    | Some p =>
        (Ok (Some p, true),
         mkMemory (mem_nodes m) (mem_pages m) (pageIndex, (mem_lastPageKeys m).1) (Some p, (mem_lastPage m).1) (mem_store m))
    end.

(** The loop [for gindex > 0 { nodes[gindex] = nil; gindex >>= 1 }]. *)
Fixpoint clear_nodes (k : positive) (nodes : gmap Z (option Hash)) : gmap Z (option Hash) :=
  let nodes' := <[Zpos k := None]> nodes in
  match k with
  | xH => nodes'
  | xO k' | xI k' => clear_nodes k' nodes'
  end.
Definition clear_gindex (gindex : Z) : M Memory unit :=
  modify (fun m => match gindex with Zpos k => set_nodes (clear_nodes k (mem_nodes m)) m | _ => m end).

Definition Invalidate (addr : Z) : M Memory unit :=
  if negb (Z.land addr 3 =? 0) then lift Panic
  else
    r <- pageLookup (Z.shiftr addr PageAddrSize) ;;
    if negb r.2 then ret tt
    else
      prevValid <- on_page r.1 (fun p => (Ok (nth 1 (cp_Ok p) false), p)) ;;
      on_page r.1 (CachedPage_Invalidate (Z.land addr PageAddrMask)) ;;;
      if negb prevValid then ret tt
      else clear_gindex (Z.shiftr (Z.lor (Z.shiftl 1 32) addr) PageAddrSize).

(** [Memory.AllocPage]: the new page gets a fresh pointer. *)
Definition AllocPage (pageIndex : Z) : M Memory nat := fun m =>
  let q := fresh (dom (mem_store m)) in
  let m' := mkMemory (mem_nodes m) (<[pageIndex := q]> (mem_pages m)) (mem_lastPageKeys m) (mem_lastPage m)
              (<[q := new_page]> (mem_store m)) in
  (clear_gindex (Z.lor (Z.shiftl 1 PageKeySize) pageIndex) ;;; ret q) m'.

(** Bytes written into a page. *)
Definition splice (at_ : nat) (bs data : Data) : Data := take at_ data ++ bs ++ drop (at_ + length bs) data.
Definition write_page (pageAddr : nat) (bs : Data) : M CachedPage unit :=
  modify (fun p => mkPage (splice pageAddr bs (cp_Data p)) (cp_Cache p) (cp_Ok p)).

Definition SetMemory (addr v : Z) : M Memory unit :=
  if negb (Z.land addr 3 =? 0) then lift Panic
  else
    let pageIndex := Z.shiftr addr PageAddrSize in
    let pageAddr := Z.land addr PageAddrMask in
    r <- pageLookup pageIndex ;;
    p <- (if negb r.2 then q <- AllocPage pageIndex ;; ret (Some q)
          else Invalidate addr ;;; ret r.1) ;;
    on_page p (write_page (Z.to_nat pageAddr) (be_encode 4 v)).

Definition GetMemory (addr : Z) : M Memory Z :=
  if negb (Z.land addr 3 =? 0) then lift Panic
  else
    r <- pageLookup (Z.shiftr addr PageAddrSize) ;;
    if negb r.2 then ret 0
    else
      let pageAddr := Z.to_nat (Z.land addr PageAddrMask) in
      on_page r.1 (fun p => (Ok (be_decode (take 4 (drop pageAddr (cp_Data p)))), p)).

Section Merkle.
Context `{Keccak}.

(** [Memory.MerkleizeSubtree]; the generalized index grows by a bit with each call, and
    more than 28 bits are refused. *)
Fixpoint merkleize (fuel : nat) (gindex : Z) : M Memory Hash :=
  match fuel with
  | O => lift Panic
  | S fuel' =>
      let l := BitLen gindex in
      if 28 <? l then lift Panic
      else
        m <- get ;;
        if PageKeySize <? l then
          let depthIntoPage := l - 1 - PageKeySize in
          let pageIndex := Z.land (Z.shiftr gindex depthIntoPage) PageKeyMask in
          match mem_pages m !! pageIndex with
          | Some p =>
              let pageGindex := Z.lor (Z.shiftl 1 depthIntoPage) (Z.land gindex (Z.shiftl 1 depthIntoPage - 1)) in
              on_page (Some p) (CachedPage_MerkleizeSubtree pageGindex)
          | None => ret (zeroHashes (28 - l))
          end
        else
          match mem_nodes m !! gindex with
          | None => ret (zeroHashes (28 - l))
          | Some (Some n) => ret n
          | Some None =>
              left <- merkleize fuel' (Z.shiftl gindex 1) ;;
              right <- merkleize fuel' (Z.lor (Z.shiftl gindex 1) 1) ;;
              let r := HashPair left right in
              modify (fun m => set_nodes (<[gindex := Some r]> (mem_nodes m)) m) ;;;
              ret r
          end
  end.
Definition MerkleizeSubtree (gindex : Z) : M Memory Hash := merkleize 29 gindex.
Definition MerkleRoot : M Memory Hash := MerkleizeSubtree 1.

(** [Memory.traverseBranch], with the levels left below [depth]. *)
Fixpoint traverseBranch (left : nat) (parent addr : Z) (depth : Z) : M Memory (list Hash) :=
  match left with
  | O => h <- MerkleizeSubtree parent ;; ret [h]
  | S left' =>
      let self := Z.shiftl parent 1 in
      let sibling := Z.lor self 1 in
      let '(self, sibling) :=
        if negb (Z.land addr (Z.shiftl 1 (31 - depth)) =? 0) then (sibling, self) else (self, sibling) in
      proof <- traverseBranch left' self addr (depth + 1) ;;
      siblingNode <- MerkleizeSubtree sibling ;;
      ret (proof ++ [siblingNode])
  end.
Definition MerkleProof (addr : Z) : M Memory Data :=
  proof <- traverseBranch 27 1 addr 0 ;;
  ret (concat (be_encode 32 <$> proof)).
End Merkle.

(** ** Ranges *)

(** A round of [Memory.SetMemoryRange]: the page, found or new, and invalidated. *)
Definition range_page (pageIndex : Z) : M Memory (option nat) :=
  l <- pageLookup pageIndex ;;
  p <- (if negb l.2 then q <- AllocPage pageIndex ;; ret (Some q) else ret l.1) ;;
  on_page p CachedPage_InvalidateFull ;;;
  ret p.

(** The loop of [Memory.SetMemoryRange] for a reader of [r]: every round but the last
    takes at least a byte. *)
Fixpoint set_range (fuel : nat) (addr : Z) (r : Data) : M Memory unit :=
  match fuel with
  | O => lift Panic
  | S fuel' =>
      let pageIndex := Z.shiftr addr PageAddrSize in
      let pageAddr := Z.land addr PageAddrMask in
      p <- range_page pageIndex ;;
      match r with
      | [] => ret tt
      | _ =>
          let bs := take (Z.to_nat (PageSize - pageAddr)) r in
          on_page p (write_page (Z.to_nat pageAddr) bs) ;;;
          set_range fuel' (u32 (addr + Z.of_nat (length bs))) (drop (length bs) r)
      end
  end.
Definition SetMemoryRange (addr : Z) (r : Data) : M Memory unit := set_range (S (length r)) addr r.

(** [memReader.Read] into a buffer of [dest] bytes: the bytes, with the memory, for the
    position and the count left.  A slice of a page from [start] to [end] panics if they
    are out of order. *)
Definition memReader_Read (dest : nat) (addr count : Z) : M Memory (Data * Z * Z) :=
  if count =? 0 then throw EOF
  else
    let endAddr := u32 (addr + count) in
    let pageIndex := Z.shiftr addr PageAddrSize in
    let start := Z.land addr PageAddrMask in
    let stop := if pageIndex =? Z.shiftr endAddr PageAddrSize then Z.land endAddr PageAddrMask else PageSize in
    r <- pageLookup pageIndex ;;
    bs <- (if r.2 : bool then
             on_page r.1 (fun p => (if stop <? start then Panic
                                    else Ok (take dest (take (Z.to_nat (stop - start)) (drop (Z.to_nat start) (cp_Data p)))), p))
           else ret (take dest (replicate (Z.to_nat (u32 (stop - start))) Byte.x00))) ;;
    let n := Z.of_nat (length bs) in
    ret (bs, u32 (addr + n), u32 (count - n)).

(** Reading until the end, with a buffer of 32 kilobytes. *)
Fixpoint read_all (fuel : nat) (addr count : Z) (acc : Data) : M Memory Data :=
  match fuel with
  | O => lift Panic
  | S fuel' =>
      r <- attempt (memReader_Read (Z.to_nat 32768) addr count) ;;
      match r with
      | inr _ => ret acc
      | inl (bs, addr', count') => read_all fuel' addr' count' (acc ++ bs)
      end
  end.
Definition ReadMemoryRange (addr count : Z) : M Memory Data :=
  read_all (Z.to_nat (count / PageSize + 3)) addr count [].

(** ** State files *)

(** The pages [MarshalJSON] writes, sorted by index, and what [UnmarshalJSON] does with the
    pages it reads. *)
Definition entry_le (x y : Z * Data) : Prop := x.1 <= y.1.
#[export] Instance entry_le_dec : RelDecision entry_le := fun x y => Z_le_dec x.1 y.1.

Definition page_entries (m : Memory) : list (Z * Data) :=
  merge_sort entry_le
    (omap (fun kp => match mem_store m !! kp.2 with Some p => Some (kp.1, cp_Data p) | None => None end)
       (map_to_list (mem_pages m))).

Fixpoint load_entries (pages : list (Z * Data)) : M Memory unit :=
  match pages with
  | [] => ret tt
  | (index, data) :: pages' =>
      m <- get ;;
      match mem_pages m !! index with
      | Some _ => throw (ErrNew "cannot load duplicate page")
      | None =>
          q <- AllocPage index ;;
          on_page (Some q) (modify (fun p => mkPage data (cp_Cache p) (cp_Ok p))) ;;;
          load_entries pages'
      end
  end.
Definition load_pages (pages : list (Z * Data)) : M Memory unit := fun m =>
  load_entries pages (mkMemory ∅ ∅ (4294967295, 4294967295) (None, None) (mem_store m)).
