(* ===== verification/MipsPage.v ===== *)
(** * The Merkle cache of a page

    A reference definition of the nodes of a Merkle tree by generalized index, and the
    correctness of the cache of a page with respect to it. *)
From S2P Require Import Prelude GoErrors GoBytes EthTypes Geth Solabi Bits MipsMemory.
#[local] Open Scope Z_scope.

(** ** Reference trees *)
Section Trees.
Context `{Keccak}.

(** The node [g] of height [h] of the tree whose leaves have the given hashes. *)
Fixpoint gtree (leaf : Z -> Hash) (h : nat) (g : Z) : Hash :=
  match h with
  | O => leaf g
  | S h' => HashPair (gtree leaf h' (2 * g)) (gtree leaf h' (2 * g + 1))
  end.

Lemma gtree_ext leaf leaf' h g :
  (forall i, g * 2 ^ Z.of_nat h <= i < (g + 1) * 2 ^ Z.of_nat h -> leaf i = leaf' i) ->
  gtree leaf h g = gtree leaf' h g.
Proof.
  revert g. induction h as [|h IH]; intros g Hl; cbn [gtree]; [apply Hl; lia|].
  rewrite Nat2Z.inj_succ, Z.pow_succ_r in Hl by lia.
  f_equal; apply IH; intros i Hi; apply Hl; nia.
Qed.

Lemma gtree_zero leaf h g :
  (forall i, g * 2 ^ Z.of_nat h <= i < (g + 1) * 2 ^ Z.of_nat h -> leaf i = 0) -> gtree leaf h g = zero_hash h.
Proof.
  revert g. induction h as [|h IH]; intros g Hl; cbn [gtree zero_hash]; [apply Hl; lia|].
  rewrite Nat2Z.inj_succ, Z.pow_succ_r in Hl by lia.
  rewrite !IH; [done| |]; intros i Hi; apply Hl; nia.
Qed.

(** A tree inside another one. *)
Lemma gtree_embed leaf leaf' (emb : Z -> Z) h g :
  (forall j, 1 <= j -> emb (2 * j) = 2 * emb j /\ emb (2 * j + 1) = 2 * emb j + 1) -> 1 <= g ->
  (forall i, g * 2 ^ Z.of_nat h <= i < (g + 1) * 2 ^ Z.of_nat h -> leaf i = leaf' (emb i)) ->
  gtree leaf h g = gtree leaf' h (emb g).
Proof.
  intros He. revert g. induction h as [|h IH]; intros g Hg Hl; cbn [gtree]; [apply Hl; lia|].
  rewrite Nat2Z.inj_succ, Z.pow_succ_r in Hl by lia. destruct (He g Hg) as [<- <-].
  f_equal; (apply IH; [lia|]); intros i Hi; apply Hl; nia.
Qed.
End Trees.

(** [above g i]: the node [g] is on the path from the node [i] to the root. *)
Definition above (g i : Z) : Prop := 1 <= g /\ exists s : nat, Z.shiftr i (Z.of_nat s) = g.

Lemma above_self i : 1 <= i -> above i i.
Proof. intros Hi. split; [done|]. exists 0%nat. by rewrite Z.shiftr_0_r. Qed.

Lemma above_pos g i : above g i -> 1 <= i.
Proof.
  intros [Hg [s <-]]. destruct (Z.le_gt_cases 1 i) as [|Hi]; [done|]. exfalso.
  rewrite Z.shiftr_div_pow2 in Hg by lia. pose proof (Z.pow_pos_nonneg 2 (Z.of_nat s) ltac:(lia) ltac:(lia)).
  assert (i / 2 ^ Z.of_nat s < 1) by (apply Z.div_lt_upper_bound; lia). lia.
Qed.

Lemma above_half g i : 1 <= i -> above g i <-> g = i \/ above g (Z.shiftr i 1).
Proof.
  intros Hi. split.
  - intros [Hg [[|s] Hs]]; [left; by rewrite Z.shiftr_0_r in Hs|right].
    split; [done|]. exists s. rewrite Z.shiftr_shiftr by lia.
    by replace (1 + Z.of_nat s) with (Z.of_nat (S s)) by lia.
  - intros [->|[Hg [s Hs]]]; [by apply above_self|]. split; [done|]. exists (S s).
    rewrite Z.shiftr_shiftr in Hs by lia. by replace (Z.of_nat (S s)) with (1 + Z.of_nat s) by lia.
Qed.

(** In a tree of depth [D], a node is above a leaf exactly if the leaf is in its range. *)
Lemma above_range D g i :
  0 <= D -> 1 <= g -> Z.log2 g <= D -> 2 ^ D <= i < 2 ^ (D + 1) ->
  above g i <-> g * 2 ^ (D - Z.log2 g) <= i < (g + 1) * 2 ^ (D - Z.log2 g).
Proof.
  intros HD Hg Hl Hi. pose proof (Z.log2_spec g ltac:(lia)) as [Hg1 Hg2].
  pose proof (Z.pow_pos_nonneg 2 (D - Z.log2 g) ltac:(lia) ltac:(lia)) as Hp. split.
  - intros [_ [s Hs]]. assert (Z.of_nat s = D - Z.log2 g) as Hsd.
    { pose proof (Z.log2_shiftr i (Z.of_nat s) ltac:(lia)) as Hlog.
      rewrite Hs in Hlog. assert (Z.log2 i = D) as E
        by (apply Z.log2_unique; [lia|]; rewrite <- Z.add_1_r; lia).
      destruct (Z.le_gt_cases (Z.of_nat s) D); [lia|].
      rewrite Z.shiftr_eq_0 in Hs by lia. lia. }
    rewrite Hsd, Z.shiftr_div_pow2 in Hs by lia.
    pose proof (Z.div_mod i (2 ^ (D - Z.log2 g)) ltac:(lia)).
    pose proof (Z.mod_pos_bound i (2 ^ (D - Z.log2 g)) Hp). nia.
  - intros Hr. split; [done|]. exists (Z.to_nat (D - Z.log2 g)).
    rewrite Z2Nat.id, Z.shiftr_div_pow2 by lia. symmetry. apply Z.div_unique with (r := i - g * 2 ^ (D - Z.log2 g)); lia.
Qed.

(** The leaves in the range of a node are in the tree. *)
Lemma range_in_tree D g i :
  1 <= g -> Z.log2 g <= D -> g * 2 ^ (D - Z.log2 g) <= i < (g + 1) * 2 ^ (D - Z.log2 g) -> 2 ^ D <= i < 2 ^ (D + 1).
Proof.
  intros Hg Hl Hi. pose proof (Z.log2_spec g ltac:(lia)) as [Hg1 Hg2]. pose proof (Z.log2_nonneg g).
  assert (2 ^ D = 2 ^ Z.log2 g * 2 ^ (D - Z.log2 g)) as E by (rewrite <- Z.pow_add_r by lia; f_equal; lia).
  pose proof (Z.pow_pos_nonneg 2 (D - Z.log2 g) ltac:(lia) ltac:(lia)). rewrite Z.pow_succ_r in Hg2 by lia.
  rewrite (Z.pow_add_r 2 D 1), E by lia. nia.
Qed.

(** ** Pages *)
Section PageCache.
Context `{Keccak}.

(** The hash of a leaf of a page: 32 bytes of its data. *)
Definition chunk (data : Data) (c : nat) : Hash := be_decode (take 32 (drop (c * 32) data)).
Definition page_leaf (data : Data) (i : Z) : Hash := chunk data (Z.to_nat (i - 128)).
Definition page_node (data : Data) (g : Z) : Hash := gtree (page_leaf data) (Z.to_nat (7 - Z.log2 g)) g.

Definition node_ok (p : CachedPage) (j : nat) : bool := nth j (cp_Ok p) false.

(** The cache says what it should of the nodes that are marked valid. *)
Record page_sound (p : CachedPage) : Prop := {
  ps_Data : length (cp_Data p) = 4096%nat;
  ps_Cache : length (cp_Cache p) = 128%nat;
  ps_Ok : length (cp_Ok p) = 128%nat;
  ps_cached j : (1 <= j < 128)%nat -> node_ok p j = true -> nth j (cp_Cache p) 0 = page_node (cp_Data p) (Z.of_nat j) }.

Lemma new_page_sound : page_sound new_page.
Proof.
  split; [apply length_replicate..|]. intros j _. unfold node_ok, new_page. cbn [cp_Ok].
  rewrite nth_lookup. destruct (replicate 128 false !! j) eqn:E; [|done]. by apply lookup_replicate in E as [-> _].
Qed.

Lemma page_node_split data j :
  (1 <= j < 128)%nat -> page_node data (Z.of_nat j) =
  HashPair (page_node data (Z.of_nat (2 * j))) (page_node data (Z.of_nat (2 * j + 1))).
Proof.
  intros Hj. unfold page_node. pose proof (Z.log2_lt_pow2 (Z.of_nat j) 7 ltac:(lia)) as Hl.
  pose proof (Z.log2_nonneg (Z.of_nat j)).
  rewrite !Nat2Z.inj_add, !Nat2Z.inj_mul. change (Z.of_nat 2) with 2. change (Z.of_nat 1) with 1.
  rewrite Z.log2_double, (Z.log2_succ_double (Z.of_nat j)) by lia.
  replace (Z.to_nat (7 - Z.log2 (Z.of_nat j))) with (S (Z.to_nat (7 - Z.succ (Z.log2 (Z.of_nat j))))) by lia.
  reflexivity.
Qed.

Lemma page_node_leaf data c : (c < 128)%nat -> page_node data (128 + Z.of_nat c) = chunk data c.
Proof.
  intros Hc. unfold page_node. assert (Z.log2 (128 + Z.of_nat c) = 7) as -> by (apply Z.log2_unique; lia).
  change (chunk data (Z.to_nat (128 + Z.of_nat c - 128)) = chunk data c). f_equal. lia.
Qed.

Lemma page_node_bottom data i :
  length data = 4096%nat -> (i < 64)%nat ->
  page_node data (Z.of_nat (64 + i)) = Keccak256Hash (take 64 (drop (64 * i) data)).
Proof.
  intros Hd Hi. rewrite page_node_split by lia.
  replace (Z.of_nat (2 * (64 + i))) with (128 + Z.of_nat (2 * i)) by lia.
  replace (Z.of_nat (2 * (64 + i) + 1)) with (128 + Z.of_nat (2 * i + 1)) by lia.
  rewrite !page_node_leaf by lia. unfold HashPair, chunk.
  rewrite !be_encode_decode_len by (rewrite length_take, length_drop; lia).
  f_equal. replace (take 64 (drop (64 * i) data)) with
    (take 32 (drop (64 * i) data) ++ take 32 (drop 32 (drop (64 * i) data)))
    by (rewrite <- (take_drop 32 (take 64 (drop (64 * i) data))), take_take, skipn_firstn_comm; done).
  rewrite drop_drop. replace (2 * i * 32)%nat with (64 * i)%nat by lia.
  by replace ((2 * i + 1) * 32)%nat with (64 * i + 32)%nat by lia.
Qed.

(** Filling a node that can be computed from the data and the valid nodes. *)
Definition filled (p p' : CachedPage) : Prop :=
  cp_Data p' = cp_Data p /\ forall j, node_ok p j = true -> node_ok p' j = true.

#[export] Instance filled_preorder : PreOrder filled.
Proof.
  split; [by intros p|]. intros p1 p2 p3 [Hd Ho] [Hd' Ho']. split; [congruence|auto].
Qed.

Lemma fill_node_spec j hash p :
  page_sound p -> (1 <= j < 128)%nat -> hash p = page_node (cp_Data p) (Z.of_nat j) ->
  page_sound (fill_node j hash p) /\ filled p (fill_node j hash p) /\ node_ok (fill_node j hash p) j = true.
Proof.
  intros [Hd Hc Ho Hs] Hj Hh. unfold fill_node. destruct (nth j (cp_Ok p) false) eqn:E.
  { by repeat split. }
  assert (forall i, node_ok (mkPage (cp_Data p) (<[j:=hash p]> (cp_Cache p)) (<[j:=true]> (cp_Ok p))) i =
    if decide (i = j) then true else node_ok p i) as Hok.
  { intros i. unfold node_ok. cbn [cp_Ok]. rewrite !nth_lookup. destruct (decide (i = j)) as [->|Hn].
    - by rewrite list_lookup_insert_eq by lia.
    - by rewrite list_lookup_insert_ne by congruence. }
  split_and!.
  - split; cbn [cp_Data cp_Cache cp_Ok]; [done|by rewrite length_insert..|].
    intros i Hi. rewrite Hok. rewrite nth_lookup. destruct (decide (i = j)) as [->|Hn].
    + by rewrite list_lookup_insert_eq by lia.
    + rewrite list_lookup_insert_ne, <- nth_lookup by congruence. auto.
  - split; [done|]. intros i Hi. rewrite Hok. by case_decide.
  - rewrite Hok. by rewrite decide_True.
Qed.

Lemma fill_all (node : nat -> nat) (hash : nat -> CachedPage -> Hash) js p :
  page_sound p ->
  (forall i, i ∈ js -> (1 <= node i < 128)%nat) ->
  (forall l i r p', js = l ++ i :: r -> page_sound p' -> cp_Data p' = cp_Data p -> filled p p' ->
     (forall x, x ∈ l -> node_ok p' (node x) = true) -> hash i p' = page_node (cp_Data p) (Z.of_nat (node i))) ->
  let p' := foldl (fun p i => fill_node (node i) (hash i) p) p js in
  page_sound p' /\ filled p p' /\ forall i, i ∈ js -> node_ok p' (node i) = true.
Proof.
  intros Hs Hn. induction js as [|i l IH] using rev_ind; intros Hh; cbv zeta.
  { split_and!; [done|done|]. intros i Hi. by apply elem_of_nil in Hi. }
  rewrite foldl_app. cbn [foldl]. destruct IH as (Hs1 & Hf1 & Ho1).
  - intros x Hx. apply Hn. apply elem_of_app. by left.
  - intros l1 x r p' -> . intros. eapply (Hh l1 x (r ++ [i])); [by rewrite <- app_assoc|done..].
  - destruct (fill_node_spec (node i) (hash i) _ Hs1) as (Hs2 & Hf2 & Ho2).
    + apply Hn. apply elem_of_app. right. by apply list_elem_of_singleton.
    + rewrite (proj1 Hf1). apply (Hh l i []); [done|done|apply Hf1|done|done].
    + split_and!; [done|by etrans|]. intros x [Hx| ->%list_elem_of_singleton]%elem_of_app; [|done].
      by apply (proj2 Hf2), Ho1.
Qed.

Lemma fill_bottom_spec p :
  page_sound p ->
  page_sound (fill_bottom p) /\ filled p (fill_bottom p) /\
  forall j, (64 <= j < 128)%nat -> node_ok (fill_bottom p) j = true.
Proof.
  intros Hs. unfold fill_bottom.
  destruct (fill_all (fun i => 64 + i)%nat (fun i p => Keccak256Hash (take 64 (drop (64 * i) (cp_Data p))))
    (seq 0 64) p Hs) as (Hs' & Hf & Ho).
  - intros i Hi%elem_of_seq. lia.
  - intros l i r p' Hl _ Hd _ _. rewrite Hd. symmetry. apply page_node_bottom; [apply Hs|].
    assert (i ∈ seq 0 64) as Hi%elem_of_seq by (rewrite Hl; set_solver). lia.
  - split_and!; [done|done|]. intros j Hj. replace j with (64 + (j - 64))%nat by lia.
    apply Ho, elem_of_seq. lia.
Qed.

Lemma fill_layers_spec p :
  page_sound p -> (forall j, (64 <= j < 128)%nat -> node_ok p j = true) ->
  page_sound (fill_layers p) /\ filled p (fill_layers p) /\
  forall j, (1 <= j < 128)%nat -> node_ok (fill_layers p) j = true.
Proof.
  intros Hs Hb. unfold fill_layers.
  destruct (fill_all (fun j => j) (fun j p => HashPair (nth (2 * j) (cp_Cache p) 0) (nth (2 * j + 1) (cp_Cache p) 0))
    (reverse (seq 1 63)) p Hs) as (Hs' & Hf & Ho).
  - intros i Hi%elem_of_reverse%elem_of_seq. lia.
  - intros l j r p' Hl Hs' Hd Hf Ho.
    assert (j ∈ reverse (seq 1 63)) as Hj%elem_of_reverse%elem_of_seq by (rewrite Hl; set_solver).
    assert (forall x, (j < x < 128)%nat -> node_ok p' x = true) as Hx.
    { intros x Hx. destruct (decide (64 <= x)%nat); [apply Hf, Hb; lia|]. apply Ho.
      assert (forall i, (i < 63)%nat -> reverse (seq 1 63) !! i = Some (63 - i)%nat) as Hrev.
      { intros i Hi. rewrite reverse_lookup by (rewrite length_seq; lia). rewrite length_seq. apply lookup_seq. lia. }
      assert (length l = 63 - j)%nat as Hlen.
      { assert (length l < 63)%nat as Hl63
          by (apply (f_equal length) in Hl; rewrite length_reverse, length_seq, length_app in Hl; cbn in Hl; lia).
        pose proof (Hrev (length l) Hl63) as Hj'. rewrite Hl, list_lookup_middle in Hj' by done.
        injection Hj'. lia. }
      apply list_elem_of_lookup_2 with (i := (63 - x)%nat).
      rewrite <- (lookup_app_l l (j :: r)) by lia. rewrite <- Hl, Hrev by lia. f_equal. lia. }
    rewrite !(ps_cached p' Hs') by (apply Hx || idtac; lia).
    rewrite Hd. symmetry. apply page_node_split. lia.
  - split_and!; [done|done|]. intros j Hj. destruct (decide (64 <= j)%nat); [apply Hf, Hb; lia|].
    apply Ho, elem_of_reverse, elem_of_seq. lia.
Qed.

(** Merkleization of a page: the node of the reference tree, with the whole cache valid. *)
Lemma page_merkleize p g :
  page_sound p -> 1 <= g < 256 ->
  exists p', CachedPage_MerkleizeSubtree g p = (Ok (page_node (cp_Data p) g), p') /\
    page_sound p' /\ filled p p' /\ node_ok p' 1 = true.
Proof.
  intros Hs Hg. destruct (fill_bottom_spec p Hs) as (Hs1 & Hf1 & Ho1).
  destruct (fill_layers_spec _ Hs1 Ho1) as (Hs2 & Hf2 & Ho2).
  exists (fill_layers (fill_bottom p)). split_and!; [|done|by etrans|apply Ho2; lia].
  unfold CachedPage_MerkleizeSubtree, CachedPage_MerkleRoot, bind, get, ret.
  assert (cp_Data (fill_layers (fill_bottom p)) = cp_Data p) as Hd by (rewrite (proj1 Hf2); apply Hf1).
  destruct (Z.leb_spec 128 g).
  - destruct (Z.leb_spec 256 g); [lia|]. change (Z.shiftr PageAddrMask 5) with (Z.ones 7).
    rewrite Z.land_ones by lia. rewrite Hd. do 2 f_equal.
    replace g with (128 + Z.of_nat (Z.to_nat (g - 128))) at 2 by lia.
    rewrite page_node_leaf by lia. unfold chunk. repeat f_equal.
    replace (g mod 2 ^ 7) with (g - 128); [done|]. apply Z.mod_unique_pos with (q := 1); lia.
  - do 2 f_equal. rewrite (ps_cached _ Hs2) by (try apply Ho2; lia). rewrite Hd. f_equal. lia.
Qed.

Lemma clear_path_spec k ok j :
  nth j (clear_path k ok) false = true -> (j < length ok)%nat ->
  nth j ok false = true /\ ~ above (Z.of_nat j) (Zpos k).
Proof.
  revert ok. induction k as [k IH|k IH|]; intros ok Hj Hl; cbn [clear_path] in Hj.
  1,2: apply IH in Hj as [Hj Ha]; [|by rewrite length_insert];
    rewrite nth_lookup in Hj; match type of Hj with context [<[?n := _]> _] => destruct (decide (j = n)) as [->|] end;
    [by rewrite list_lookup_insert_eq in Hj|]; rewrite list_lookup_insert_ne, <- nth_lookup in Hj by congruence;
    split; [done|]; rewrite above_half by lia; intros [He|Hx]; [lia|]; by apply Ha.
  rewrite nth_lookup in Hj. destruct (decide (j = 1)%nat) as [->|].
  { by rewrite list_lookup_insert_eq in Hj. }
  rewrite list_lookup_insert_ne, <- nth_lookup in Hj by (change (Pos.to_nat 1) with 1%nat; congruence).
  split; [done|]. rewrite above_half by lia. intros [He|Hx]; [lia|]. apply above_pos in Hx. done.
Qed.

Lemma length_clear_path k ok : length (clear_path k ok) = length ok.
Proof.
  revert ok. induction k as [k IH|k IH|]; intros ok; cbn [clear_path]; rewrite ?IH; apply length_insert.
Qed.

(** Writing into a page. *)
Lemma length_splice n bs data : (n + length bs <= length data)%nat -> length (splice n bs data) = length data.
Proof. intros Hn. unfold splice. rewrite !length_app, length_take, length_drop. lia. Qed.

Lemma lookup_splice n bs data i :
  (n + length bs <= length data)%nat ->
  splice n bs data !! i = if decide (n <= i < n + length bs)%nat then bs !! (i - n)%nat else data !! i.
Proof.
  intros Hn. unfold splice. case_decide as Hi.
  - rewrite lookup_app_r, length_take by (rewrite length_take; lia).
    replace (n `min` length data)%nat with n by lia. by rewrite lookup_app_l by lia.
  - destruct (decide (i < n)%nat).
    + rewrite lookup_app_l by (rewrite length_take; lia). by rewrite lookup_take_lt by lia.
    + rewrite lookup_app_r, length_take by (rewrite length_take; lia).
      replace (n `min` length data)%nat with n by lia. rewrite lookup_app_r, lookup_drop by lia. f_equal. lia.
Qed.

Lemma chunk_splice n bs data c :
  (n + length bs <= length data)%nat -> (forall i, (n <= i < n + length bs)%nat -> (i / 32 <> c)%nat) ->
  chunk (splice n bs data) c = chunk data c.
Proof.
  intros Hn Hc. unfold chunk. f_equal. apply list_eq. intros i.
  destruct (decide (i < 32)%nat); [|by rewrite !lookup_take_ge by lia].
  rewrite !lookup_take_lt, !lookup_drop, lookup_splice by lia. rewrite decide_False; [done|].
  intros Hi. apply (Hc _ Hi). symmetry. apply Nat.div_unique with (r := i); lia.
Qed.

Lemma page_node_splice n bs data g :
  (n + length bs <= length data)%nat -> length data = 4096%nat -> 1 <= g < 256 ->
  (forall i, (n <= i < n + length bs)%nat -> ~ above g (128 + Z.of_nat (i / 32))) ->
  page_node (splice n bs data) g = page_node data g.
Proof.
  intros Hn Hd Hg Ha. unfold page_node. pose proof (Z.log2_lt_pow2 g 8 ltac:(lia)) as Hl. pose proof (Z.log2_nonneg g).
  apply gtree_ext. intros i Hi. rewrite Z2Nat.id in Hi by lia. unfold page_leaf. apply chunk_splice; [done|].
  pose proof (range_in_tree 7 g i ltac:(lia) ltac:(lia) Hi) as Hr.
  intros x Hx Hxc. apply (Ha x Hx). apply (above_range 7); [lia..| |].
  - assert (x / 32 < 128)%nat by (apply Nat.Div0.div_lt_upper_bound; lia). lia.
  - rewrite Hxc. change (2 ^ 7) with 128 in Hr. change (2 ^ (7 + 1)) with 256 in Hr.
    replace (128 + Z.of_nat (Z.to_nat (i - 128))) with i by lia. done.
Qed.

(** Invalidating the address of a word, then writing the word. *)
Lemma invalidate_write pa bs p :
  page_sound p -> (pa + 4 <= 4096)%nat -> (pa mod 4 = 0)%nat -> length bs = 4%nat ->
  exists p1, CachedPage_Invalidate (Z.of_nat pa) p = (Ok tt, p1) /\
    cp_Data p1 = cp_Data p /\ node_ok p1 1 = false /\
    page_sound (mkPage (splice pa bs (cp_Data p1)) (cp_Cache p1) (cp_Ok p1)).
Proof.
  intros [Hd Hc Ho Hs] Hpa Hal Hbs. unfold CachedPage_Invalidate.
  change PageSize with 4096. destruct (Z.leb_spec 4096 (Z.of_nat pa)); [lia|].
  assert (Z.shiftr (Z.lor 4096 (Z.of_nat pa)) 6 = Z.shiftr (128 + Z.of_nat (pa / 32)) 1) as ->.
  { change 4096 with (1 * 2 ^ 12). rewrite lor_low_high by lia. rewrite !Z.shiftr_div_pow2 by lia.
    rewrite Nat2Z.inj_div. change (2 ^ 6) with (32 * 2). rewrite <- Z.div_div by lia. change (Z.of_nat 32) with 32.
    replace (1 * 2 ^ 12 + Z.of_nat pa) with (Z.of_nat pa + 128 * 32) by lia. rewrite Z.div_add by lia.
    by rewrite Z.add_comm. }
  set (leaf := 128 + Z.of_nat (pa / 32)).
  assert (pa / 32 < 128)%nat as Hleaf by (apply Nat.Div0.div_lt_upper_bound; lia).
  destruct (Z.shiftr leaf 1) as [|k|k] eqn:Ek; [exfalso; rewrite Z.shiftr_div_pow2 in Ek by lia; apply Z.div_small_iff in Ek; subst leaf; lia| |].
  2:{ exfalso. pose proof (proj2 (Z.shiftr_nonneg leaf 1)). lia. }
  eexists. unfold modify. split_and!; [done|done| |].
  - unfold node_ok. cbn [cp_Ok]. apply not_true_is_false. intros [_ Ha]%clear_path_spec; [|lia]. apply Ha.
    split; [done|]. exists (Z.to_nat (Z.log2 (Zpos k))). rewrite Z2Nat.id by apply Z.log2_nonneg.
    rewrite Z.shiftr_div_pow2 by apply Z.log2_nonneg. pose proof (Z.log2_spec (Zpos k) ltac:(lia)).
    symmetry. apply Z.div_unique with (r := Zpos k - 2 ^ Z.log2 (Zpos k)); [|lia].
    rewrite Z.pow_succ_r in * by apply Z.log2_nonneg. lia.
  - split; cbn [cp_Data cp_Cache cp_Ok].
    + rewrite length_splice; [done|lia].
    + done.
    + by rewrite length_clear_path.
    + intros j Hj. unfold node_ok. cbn [cp_Ok]. intros [Hok Ha]%clear_path_spec; [|lia].
      rewrite Hs by done. symmetry. apply page_node_splice; [lia|done|lia|].
      intros i Hi Hab. apply Ha. rewrite <- Ek. assert (i / 32 = pa / 32)%nat as E.
      { pose proof (Nat.div_mod_eq pa 32). pose proof (Nat.mod_upper_bound pa 32 ltac:(lia)).
        pose proof (Nat.div_mod_eq pa 4). assert (pa mod 32 + 4 <= 32)%nat by lia.
        symmetry. apply Nat.div_unique with (r := (i - 32 * (pa / 32))%nat); lia. }
      rewrite E in Hab. apply above_half in Hab as [He|]; [|done|lia]. subst leaf. lia.
Qed.

End PageCache.
