(* ===== verification/MipsMemorySpec.v ===== *)
(** * What the memory of the VM guarantees

    Memory behaves as a function from addresses to bytes, and its cached Merkle root and
    proofs are those of the reference tree over all of its 2^27 leaves. *)
From S2P Require Import Prelude GoErrors GoBytes EthTypes Geth Solabi Bits MipsMemory MipsPage.
#[local] Open Scope Z_scope.

Section MemorySpec.
Context `{Keccak}.
Implicit Types m : Memory.

(** ** Contents *)
Definition page_at (k : Z) m : option CachedPage := mem_pages m !! k ≫= fun q => mem_store m !! q.

(** The byte at an address. *)
Definition mem_byte m (a : Z) : byte :=
  match page_at (Z.shiftr a PageAddrSize) m with
  | Some p => nth (Z.to_nat (Z.land a PageAddrMask)) (cp_Data p) Byte.x00
  | None => Byte.x00
  end.

(** The bytes from an address on, the word at an address, and the leaves and nodes of the
    reference tree. *)
Definition mem_bytes m (a : Z) (n : nat) : Data := (fun i => mem_byte m (a + Z.of_nat i)) <$> seq 0 n.
Definition mem_word m (a : Z) : Z := be_decode (mem_bytes m a 4).
Definition mem_leaf m (g : Z) : Hash := be_decode (mem_bytes m (32 * (g - 2 ^ 27)) 32).
Definition mem_node m (g : Z) : Hash := gtree (mem_leaf m) (Z.to_nat (27 - Z.log2 g)) g.

(** ** The invariant

    Pages have different pointers and sound caches; the page cache agrees with the table;
    known nodes are right, absent nodes have no pages below; and the nodes above a page
    whose root is not valid are not known. *)
Definition last_ok m (key : Z) (last : option nat) : Prop :=
  MaxPageCount <= key \/ (last = mem_pages m !! key /\ is_Some last).

Record mem_inv m : Prop := {
  mi_pages k q : mem_pages m !! k = Some q -> 0 <= k < MaxPageCount /\ exists p, mem_store m !! q = Some p /\ page_sound p;
  mi_apart k k' q : mem_pages m !! k = Some q -> mem_pages m !! k' = Some q -> k = k';
  mi_last1 : last_ok m (mem_lastPageKeys m).1 (mem_lastPage m).1;
  mi_last2 : last_ok m (mem_lastPageKeys m).2 (mem_lastPage m).2;
  mi_known g h : 1 <= g < MaxPageCount -> mem_nodes m !! g = Some (Some h) -> h = mem_node m g;
  mi_absent g k : 1 <= g < MaxPageCount -> mem_nodes m !! g = None -> is_Some (mem_pages m !! k) ->
    ~ above g (MaxPageCount + k);
  mi_dirty g k p : 1 <= g < MaxPageCount -> page_at k m = Some p -> node_ok p 1 = false ->
    above g (MaxPageCount + k) -> mem_nodes m !! g = Some None }.

(** Two memories with the same contents. *)
Definition same_pages m m' : Prop :=
  forall k, match page_at k m, page_at k m' with
            | Some p, Some p' => cp_Data p' = cp_Data p
            | None, None => True
            | _, _ => False
            end.

Lemma same_pages_byte m m' a : same_pages m m' -> mem_byte m' a = mem_byte m a.
Proof.
  intros Hs. unfold mem_byte. specialize (Hs (Z.shiftr a PageAddrSize)).
  destruct (page_at _ m), (page_at _ m'); [by rewrite Hs|done..].
Qed.

Lemma mem_bytes_ext m m' a n :
  (forall i, a <= i < a + Z.of_nat n -> mem_byte m' i = mem_byte m i) -> mem_bytes m' a n = mem_bytes m a n.
Proof.
  intros Hb. unfold mem_bytes. apply list_fmap_ext. intros i x [-> Hi]%lookup_seq. apply Hb. lia.
Qed.

Lemma mem_node_ext m m' g :
  1 <= g < 2 ^ 28 ->
  (forall a, 0 <= a < 2 ^ 32 -> above g (2 ^ 27 + Z.shiftr a 5) -> mem_byte m' a = mem_byte m a) ->
  mem_node m' g = mem_node m g.
Proof.
  intros Hg Hb. unfold mem_node. pose proof (Z.log2_lt_pow2 g 28 ltac:(lia)) as Hl. pose proof (Z.log2_nonneg g).
  apply gtree_ext. intros i Hi. rewrite Z2Nat.id in Hi by lia.
  pose proof (range_in_tree 27 g i ltac:(lia) ltac:(lia) Hi) as Hr.
  unfold mem_leaf. f_equal. apply mem_bytes_ext. intros a Ha.
  change (2 ^ (27 + 1)) with 268435456 in Hr. change (2 ^ 27) with 134217728 in *.
  assert (Z.shiftr a 5 = i - 134217728) as E.
  { rewrite Z.shiftr_div_pow2 by lia. change (2 ^ 5) with 32. symmetry.
    apply Z.div_unique with (r := a - 32 * (i - 134217728)); lia. }
  apply Hb; [change (2 ^ 32) with 4294967296; lia|]. rewrite E.
  replace (134217728 + (i - 134217728)) with i by lia.
  apply (above_range 27); try lia; change (2 ^ (27 + 1)) with 268435456; change (2 ^ 27) with 134217728; lia.
Qed.

Lemma same_pages_node m m' g : 1 <= g < 2 ^ 28 -> same_pages m m' -> mem_node m' g = mem_node m g.
Proof. intros Hg Hs. apply mem_node_ext; [done|]. intros. by apply same_pages_byte. Qed.

(** ** Pages inside the tree *)
Lemma page_bytes m k p o n :
  page_at k m = Some p -> length (cp_Data p) = 4096%nat -> 0 <= k -> (o + n <= 4096)%nat ->
  mem_bytes m (4096 * k + Z.of_nat o) n = take n (drop o (cp_Data p)).
Proof.
  intros Hp Hd Hk Ho. apply list_eq. intros i. unfold mem_bytes. rewrite list_lookup_fmap.
  destruct (decide (i < n)%nat); [|rewrite lookup_take_ge, lookup_seq_ge by lia; done].
  rewrite lookup_take_lt, lookup_drop, lookup_seq_lt by lia. cbn [fmap option_fmap option_map].
  unfold mem_byte. assert (Z.shiftr (4096 * k + Z.of_nat o + Z.of_nat (0 + i)) PageAddrSize = k) as ->.
  { rewrite Z.shiftr_div_pow2 by done. change (2 ^ PageAddrSize) with 4096. symmetry.
    apply Z.div_unique with (r := Z.of_nat (o + i)); lia. }
  rewrite Hp. change PageAddrMask with (2 ^ 12 - 1). rewrite land_mask by lia.
  assert ((4096 * k + Z.of_nat o + Z.of_nat (0 + i)) mod 2 ^ 12 = Z.of_nat (o + i)) as ->.
  { change (2 ^ 12) with 4096. symmetry. apply Z.mod_unique_pos with (q := k); lia. }
  rewrite Nat2Z.id, nth_lookup. destruct (lookup_lt_is_Some_2 (cp_Data p) (o + i)) as [x ->]; [lia|done].
Qed.

(** The generalized index in memory of a node of page [k]. *)
Definition in_page (k j : Z) : Z := (MaxPageCount + k) * 2 ^ Z.log2 j + (j - 2 ^ Z.log2 j).

Lemma in_page_step k j : 1 <= j -> in_page k (2 * j) = 2 * in_page k j /\ in_page k (2 * j + 1) = 2 * in_page k j + 1.
Proof.
  intros Hj. unfold in_page. rewrite Z.log2_double, Z.log2_succ_double by lia.
  pose proof (Z.log2_nonneg j). rewrite Z.pow_succ_r by done. lia.
Qed.

Lemma in_page_log2 k j : 0 <= k < MaxPageCount -> 1 <= j -> Z.log2 (in_page k j) = 20 + Z.log2 j.
Proof.
  intros Hk Hj. pose proof (Z.log2_spec j ltac:(lia)) as [H1 H2]. pose proof (Z.log2_nonneg j) as Hl.
  rewrite Z.pow_succ_r in H2 by done. unfold in_page. change MaxPageCount with (2 ^ 20) in *.
  apply Z.log2_unique; [lia|]. rewrite Z.pow_succ_r, Z.pow_add_r by lia.
  pose proof (Z.pow_pos_nonneg 2 (Z.log2 j) ltac:(lia) Hl). nia.
Qed.

Lemma page_node_mem m k p j :
  page_at k m = Some p -> length (cp_Data p) = 4096%nat -> 0 <= k < MaxPageCount -> 1 <= j < 256 ->
  page_node (cp_Data p) j = mem_node m (in_page k j).
Proof.
  intros Hp Hd Hk Hj. unfold page_node, mem_node. rewrite in_page_log2 by lia.
  replace (27 - (20 + Z.log2 j)) with (7 - Z.log2 j) by lia.
  pose proof (Z.log2_lt_pow2 j 8 ltac:(lia)) as Hl. pose proof (Z.log2_nonneg j).
  apply gtree_embed; [apply in_page_step|lia|].
  intros i Hi. rewrite Z2Nat.id in Hi by lia.
  pose proof (range_in_tree 7 j i ltac:(lia) ltac:(lia) Hi) as Hr. change (2 ^ 7) with 128 in Hr.
  change (2 ^ (7 + 1)) with 256 in Hr. unfold page_leaf, mem_leaf, chunk. f_equal.
  unfold in_page. assert (Z.log2 i = 7) as -> by (apply Z.log2_unique; lia). change (2 ^ 7) with 128.
  replace (32 * ((MaxPageCount + k) * 128 + (i - 128) - 2 ^ 27)) with
    (4096 * k + Z.of_nat (Z.to_nat (i - 128) * 32)) by (change MaxPageCount with 1048576; lia).
  symmetry. apply page_bytes; [done|done|lia|lia].
Qed.

(** A node without pages below is a tree of zeroes. *)
Lemma mem_bytes_zero m a n :
  (forall i, a <= i < a + Z.of_nat n -> mem_byte m i = Byte.x00) -> mem_bytes m a n = replicate n Byte.x00.
Proof.
  intros Hb. apply list_eq. intros i. unfold mem_bytes. rewrite list_lookup_fmap.
  destruct (decide (i < n)%nat).
  - rewrite lookup_seq_lt, lookup_replicate_2 by lia. cbn. f_equal. apply Hb. lia.
  - rewrite lookup_seq_ge by lia. symmetry. apply lookup_replicate_None. lia.
Qed.

Lemma mem_node_absent m g :
  1 <= g < 2 ^ 28 ->
  (forall k, 0 <= k < MaxPageCount -> page_at k m <> None -> forall j, 1 <= j < 256 -> above g (in_page k j) -> False) ->
  mem_node m g = zeroHashes (27 - Z.log2 g).
Proof.
  intros Hg Ha. unfold mem_node, zeroHashes. pose proof (Z.log2_lt_pow2 g 28 ltac:(lia)) as Hl. pose proof (Z.log2_nonneg g).
  apply gtree_zero. intros i Hi. rewrite Z2Nat.id in Hi by lia.
  pose proof (range_in_tree 27 g i ltac:(lia) ltac:(lia) Hi) as Hr.
  assert (above g i) as Hab by (apply (above_range 27); lia).
  change (2 ^ (27 + 1)) with 268435456 in Hr. change (2 ^ 27) with 134217728 in Hr.
  unfold mem_leaf. rewrite mem_bytes_zero; [reflexivity|]. intros a Hra. change (2 ^ 27) with 134217728 in Hra.
  unfold mem_byte. destruct (page_at (Z.shiftr a PageAddrSize) m) as [p|] eqn:Ep; [|done]. exfalso.
  set (k := Z.shiftr a PageAddrSize) in *.
  assert (k = (i - 134217728) / 128) as Ek.
  { subst k. rewrite Z.shiftr_div_pow2 by done. change (2 ^ PageAddrSize) with (32 * 128). rewrite <- Z.div_div by lia.
    f_equal. symmetry. apply Z.div_unique with (r := a - 32 * (i - 134217728)); lia. }
  pose proof (Z.div_mod (i - 134217728) 128 ltac:(lia)) as Hdm. rewrite <- Ek in Hdm.
  pose proof (Z.mod_pos_bound (i - 134217728) 128 ltac:(lia)) as Hmod.
  apply (Ha k) with (j := 128 + (i - 134217728) mod 128); [change MaxPageCount with 1048576; lia|by rewrite Ep|lia|].
  unfold in_page. assert (Z.log2 (128 + (i - 134217728) mod 128) = 7) as -> by (apply Z.log2_unique; lia).
  change (2 ^ 7) with 128. change MaxPageCount with 1048576.
  replace ((1048576 + k) * 128 + (128 + (i - 134217728) mod 128 - 128)) with i by lia. done.
Qed.

(** ** Lookup *)
Definition same_core m m' : Prop :=
  mem_nodes m' = mem_nodes m /\ mem_pages m' = mem_pages m /\ mem_store m' = mem_store m.

Lemma same_core_page m m' k : same_core m m' -> page_at k m' = page_at k m.
Proof. intros (_ & Hp & Hs). unfold page_at. by rewrite Hp, Hs. Qed.

Lemma same_core_pages m m' : same_core m m' -> same_pages m m'.
Proof. intros Hc k. rewrite (same_core_page m m') by done. by destruct (page_at k m). Qed.

Lemma same_core_inv m m' :
  mem_inv m -> same_core m m' ->
  last_ok m' (mem_lastPageKeys m').1 (mem_lastPage m').1 -> last_ok m' (mem_lastPageKeys m').2 (mem_lastPage m').2 ->
  mem_inv m'.
Proof.
  intros Hi Hc H1 H2. pose proof Hc as (Hn & Hp & Hs).
  split; intros *; rewrite ?Hn, ?Hp, ?Hs, ?(same_core_page m m') by done; try done.
  - apply Hi.
  - apply Hi.
  - intros Hg Hk. rewrite (same_pages_node m m') by (by apply same_core_pages || (change MaxPageCount with 1048576 in Hg; lia)).
    by apply Hi.
  - apply Hi.
  - apply Hi.
Qed.

Lemma lookup_spec k m :
  mem_inv m -> 0 <= k < MaxPageCount ->
  exists m', pageLookup k m = (Ok (mem_pages m !! k, bool_decide (is_Some (mem_pages m !! k))), m') /\
    mem_inv m' /\ same_core m m'.
Proof.
  intros Hi Hk. unfold pageLookup.
  destruct (Z.eqb_spec k (mem_lastPageKeys m).1) as [E|_].
  { destruct (mi_last1 m Hi) as [|[Hl Hsome]]; [lia|]. rewrite <- E in Hl. exists m. rewrite Hl in *.
    rewrite bool_decide_true by done. by split_and!. }
  destruct (Z.eqb_spec k (mem_lastPageKeys m).2) as [E|_].
  { destruct (mi_last2 m Hi) as [|[Hl Hsome]]; [lia|]. rewrite <- E in Hl. exists m. rewrite Hl in *.
    rewrite bool_decide_true by done. by split_and!. }
  destruct (mem_pages m !! k) as [q|] eqn:Eq.
  - rewrite bool_decide_true by done. eexists. split; [done|]. split; [|done].
    apply (same_core_inv m); [done|done| |].
    + right. cbn. by rewrite Eq.
    + exact (mi_last1 m Hi).
  - rewrite bool_decide_false by (by intros []). exists m. by split_and!.
Qed.

(** A call on a page. *)
Lemma on_page_Ok {A} q p (f : M CachedPage A) a p' m :
  mem_store m !! q = Some p -> f p = (Ok a, p') ->
  on_page (Some q) f m =
  (Ok a, mkMemory (mem_nodes m) (mem_pages m) (mem_lastPageKeys m) (mem_lastPage m) (<[q:=p']> (mem_store m))).
Proof. intros Hq Hf. unfold on_page. by rewrite Hq, Hf. Qed.

(** The pages after the page of [k] was replaced. *)
Lemma page_at_replace m k q p' keys last nodes k' :
  mem_inv m -> mem_pages m !! k = Some q ->
  page_at k' (mkMemory nodes (mem_pages m) keys last (<[q:=p']> (mem_store m))) =
  if decide (k' = k) then Some p' else page_at k' m.
Proof.
  intros Hi Hk. unfold page_at. cbn [mem_pages mem_store]. case_decide as E.
  - subst k'. rewrite Hk. cbn. by rewrite lookup_insert_eq.
  - destruct (mem_pages m !! k') as [q'|] eqn:Ek; cbn; [|done].
    rewrite lookup_insert_ne; [done|]. intros ->. apply E. by eapply mi_apart.
Qed.

(** ** Merkleization *)

(** Pages keep their data and their valid roots stay valid. *)
Definition grown m m' : Prop :=
  mem_pages m' = mem_pages m /\
  forall k, match page_at k m, page_at k m' with
            | Some p, Some p' => cp_Data p' = cp_Data p /\ (node_ok p 1 = true -> node_ok p' 1 = true)
            | None, None => True
            | _, _ => False
            end.

#[export] Instance grown_preorder : PreOrder grown.
Proof.
  split.
  - intros m. split; [done|]. intros k. by destruct (page_at k m).
  - intros m1 m2 m3 [Hp1 H1] [Hp2 H2]. split; [congruence|]. intros k. specialize (H1 k). specialize (H2 k).
    destruct (page_at k m1), (page_at k m2), (page_at k m3); try done. destruct H1, H2. split; [congruence|auto].
Qed.

Lemma grown_same m m' : grown m m' -> same_pages m m'.
Proof. intros [_ Hg] k. specialize (Hg k). destruct (page_at k m), (page_at k m'); try done. apply Hg. Qed.

(** Filling the cache of a page keeps the invariant. *)
Lemma fill_page_inv m k q p p' :
  mem_inv m -> mem_pages m !! k = Some q -> mem_store m !! q = Some p -> page_sound p' -> filled p p' ->
  let m' := mkMemory (mem_nodes m) (mem_pages m) (mem_lastPageKeys m) (mem_lastPage m) (<[q:=p']> (mem_store m)) in
  mem_inv m' /\ grown m m'.
Proof.
  intros Hi Hk Hq Hs Hf m'. assert (page_at k m = Some p) as Hp by (unfold page_at; by rewrite Hk).
  assert (grown m m') as Hg.
  { split; [done|]. intros k'. subst m'. rewrite (page_at_replace m k) by done. case_decide as E.
    - subst k'. rewrite Hp. destruct Hf as [Hd Ho]. auto.
    - by destruct (page_at k' m). }
  split; [|done]. pose proof (grown_same _ _ Hg) as Hsp. destruct Hi as [Hpg Hap H1 H2 Hkn Hab Hdi].
  split; try done; cbn [mem_pages mem_nodes mem_store].
  - intros k' q' Hk'. destruct (Hpg _ _ Hk') as [? [p0 [Hp0 Hs0]]]. split; [done|]. subst m'. cbn [mem_store].
    destruct (decide (q' = q)) as [->|]; [rewrite lookup_insert_eq; eauto|rewrite lookup_insert_ne by done; eauto].
  - intros g h Hgr Hn. rewrite (same_pages_node m) by (done || (change MaxPageCount with 1048576 in Hgr; lia)). eauto.
  - intros g k' p0 Hgr Hp0 Hok Ha. subst m'. cbn [mem_nodes].
    rewrite (page_at_replace m k) in Hp0 by (done || by split). case_decide as E; [|by eapply Hdi].
    injection Hp0 as <-. subst k'. apply (Hdi g k p); try done.
    destruct (node_ok p 1) eqn:Eo; [|done]. destruct Hf as [_ Ho]. apply Ho in Eo. congruence.
Qed.

Lemma merkleize_page m k q p j :
  mem_inv m -> mem_pages m !! k = Some q -> mem_store m !! q = Some p -> 0 <= k < MaxPageCount -> 1 <= j < 256 ->
  exists m', on_page (Some q) (CachedPage_MerkleizeSubtree j) m = (Ok (mem_node m (in_page k j)), m') /\
    mem_inv m' /\ grown m m' /\ exists p', page_at k m' = Some p' /\ node_ok p' 1 = true.
Proof.
  intros Hi Hk Hq Hkr Hj. destruct (mi_pages m Hi _ _ Hk) as [_ (p0 & Hp0 & Hs)].
  rewrite Hq in Hp0. injection Hp0 as <-.
  destruct (page_merkleize p j Hs Hj) as (p' & Hm & Hs' & Hf & Ho).
  assert (page_at k m = Some p) as Hp by (unfold page_at; by rewrite Hk).
  rewrite (page_node_mem m k) in Hm by (try done; apply Hs).
  rewrite (on_page_Ok _ _ _ _ _ _ Hq Hm). eexists. split; [done|].
  destruct (fill_page_inv m k q p p' Hi Hk Hq Hs' Hf) as [Hi' Hg]. split_and!; [done|done|].
  exists p'. split; [|done]. rewrite (page_at_replace m k) by done. by rewrite decide_True.
Qed.

Lemma shiftr_in_page k j : 1 <= j -> Z.shiftr (in_page k j) (Z.log2 j) = MaxPageCount + k.
Proof.
  intros Hj. pose proof (Z.log2_spec j ltac:(lia)) as [H1 H2]. pose proof (Z.log2_nonneg j) as Hl.
  rewrite Z.pow_succ_r in H2 by done. rewrite Z.shiftr_div_pow2 by done. unfold in_page.
  symmetry. apply Z.div_unique with (r := j - 2 ^ Z.log2 j); lia.
Qed.

Lemma above_in_page g k j :
  0 <= k < MaxPageCount -> 1 <= j -> above g (in_page k j) ->
  (Z.log2 g <= 20 -> above g (MaxPageCount + k)) /\ (20 <= Z.log2 g -> Z.shiftr g (Z.log2 g - 20) = MaxPageCount + k).
Proof.
  intros Hk Hj [Hg [s Hs]]. pose proof (in_page_log2 k j Hk Hj) as Hlog. pose proof (Z.log2_nonneg j) as Hlj.
  assert (0 < in_page k j) as Hpos by (destruct (Z.le_gt_cases (in_page k j) 0); [|done];
    rewrite Z.log2_nonpos in Hlog by done; lia).
  assert (Z.log2 g = 20 + Z.log2 j - Z.of_nat s) as Hlg.
  { pose proof (Z.log2_shiftr (in_page k j) (Z.of_nat s) Hpos) as Hx. rewrite Hs in Hx.
    destruct (Z.le_gt_cases (Z.of_nat s) (20 + Z.log2 j)); [lia|].
    rewrite Z.shiftr_eq_0 in Hs by lia. lia. }
  pose proof (shiftr_in_page k j Hj) as Hsh. split; intros Hl.
  - split; [done|]. exists (s - Z.to_nat (Z.log2 j))%nat. rewrite <- Hsh, Z.shiftr_shiftr by lia.
    by replace (Z.log2 j + Z.of_nat (s - Z.to_nat (Z.log2 j))) with (Z.of_nat s) by lia.
  - transitivity (Z.shiftr (Z.shiftr (in_page k j) (Z.of_nat s)) (Z.log2 g - 20)); [by rewrite Hs|].
    rewrite Z.shiftr_shiftr by lia. by replace (Z.of_nat s + (Z.log2 g - 20)) with (Z.log2 j) by lia.
Qed.

(** The page and the node in it that a deep generalized index stands for. *)
Lemma gindex_in_page g :
  1 <= g < 2 ^ 28 -> 20 <= Z.log2 g ->
  let d := Z.log2 g - 20 in
  let k := Z.land (Z.shiftr g d) PageKeyMask in
  let j := Z.lor (Z.shiftl 1 d) (Z.land g (Z.shiftl 1 d - 1)) in
  g = in_page k j /\ 0 <= k < MaxPageCount /\ 1 <= j < 256 /\ Z.shiftr g d = MaxPageCount + k.
Proof.
  intros Hg Hl d k j. pose proof (Z.log2_spec g ltac:(lia)) as [H1 H2]. rewrite Z.pow_succ_r in H2 by lia.
  pose proof (Z.log2_lt_pow2 g 28 ltac:(lia)) as Hl28.
  assert (2 ^ Z.log2 g = 2 ^ 20 * 2 ^ d) as E by (subst d; rewrite <- Z.pow_add_r by lia; f_equal; lia).
  pose proof (Z.pow_pos_nonneg 2 d ltac:(lia) ltac:(lia)) as Hd.
  pose proof (Z.div_mod g (2 ^ d) ltac:(lia)) as Hdm. pose proof (Z.mod_pos_bound g (2 ^ d) Hd) as Hmb.
  assert (2 ^ 20 <= g / 2 ^ d < 2 * 2 ^ 20) as Hq by nia.
  assert (k = g / 2 ^ d - 2 ^ 20) as Ek.
  { subst k. rewrite Z.shiftr_div_pow2 by lia. change PageKeyMask with (2 ^ 20 - 1). rewrite land_mask by lia.
    symmetry. apply Z.mod_unique_pos with (q := 1); lia. }
  assert (j = 2 ^ d + g mod 2 ^ d) as Ej.
  { subst j. rewrite Z.shiftl_1_l, land_mask by lia. rewrite <- (Z.mul_1_l (2 ^ d)) at 1.
    rewrite lor_low_high by lia. lia. }
  assert (2 ^ d <= 2 ^ 7) as Hd7 by (apply Z.pow_le_mono_r; lia). change (2 ^ 7) with 128 in Hd7.
  assert (Z.log2 j = d) as Elog by (apply Z.log2_unique; rewrite ?Z.pow_succ_r by lia; lia).
  change MaxPageCount with (2 ^ 20). split_and!; try lia.
  - unfold in_page. rewrite Elog, Ek, Ej. change MaxPageCount with (2 ^ 20). lia.
  - rewrite Z.shiftr_div_pow2 by lia. lia.
Qed.

(** The pages below a node have valid roots. *)
Definition rooted g m : Prop :=
  Z.log2 g <= 20 -> forall k p, page_at k m = Some p -> above g (MaxPageCount + k) -> node_ok p 1 = true.

Lemma rooted_grown g m m' : rooted g m -> grown m m' -> rooted g m'.
Proof.
  intros Hr [_ Hg] Hl k p' Hp' Ha. specialize (Hg k). rewrite Hp' in Hg.
  destruct (page_at k m) as [p|] eqn:Ep; [|done]. destruct Hg as [_ Ho]. by eapply Ho, Hr.
Qed.

(** A node that was computed from rooted children. *)
Lemma known_node_inv m g :
  mem_inv m -> 1 <= g < MaxPageCount -> rooted (2 * g) m -> rooted (2 * g + 1) m ->
  let m' := set_nodes (<[g := Some (mem_node m g)]> (mem_nodes m)) m in
  mem_inv m' /\ grown m m' /\ rooted g m'.
Proof.
  intros Hi Hg Hrl Hrr m'.
  assert (Z.log2 g < 20) as Hl by (apply Z.log2_lt_pow2; [lia|]; apply Hg).
  assert (rooted g m) as Hr.
  { intros _ k p Hp [_ [s Hs]]. assert (exists q, mem_pages m !! k = Some q) as [q Hq]
      by (unfold page_at in Hp; destruct (mem_pages m !! k); [eauto|done]).
    destruct (mi_pages m Hi _ _ Hq) as [Hk _].
    assert (Z.log2 (MaxPageCount + k) = 20) as Hlk
      by (change MaxPageCount with 1048576 in *; apply Z.log2_unique; lia).
    destruct s as [|s].
    { rewrite Z.shiftr_0_r in Hs. rewrite Hs in Hlk. lia. }
    set (c := Z.shiftr (MaxPageCount + k) (Z.of_nat s)).
    assert (Z.shiftr c 1 = g) as Hc.
    { subst c. rewrite Z.shiftr_shiftr by lia. by replace (Z.of_nat s + 1) with (Z.of_nat (S s)) by lia. }
    assert (above c (MaxPageCount + k)) as Hca.
    { split; [|by exists s]. rewrite Z.shiftr_div_pow2 in Hc by lia. pose proof (Z.div_mod c 2 ltac:(lia)).
      pose proof (Z.mod_pos_bound c 2 ltac:(lia)). change (2 ^ 1) with 2 in Hc. lia. }
    rewrite Z.shiftr_div_pow2 in Hc by lia. change (2 ^ 1) with 2 in Hc.
    pose proof (Z.div_mod c 2 ltac:(lia)). pose proof (Z.mod_pos_bound c 2 ltac:(lia)).
    assert (c = 2 * g \/ c = 2 * g + 1) as [E|E] by lia; rewrite E in Hca.
    - eapply Hrl; [rewrite Z.log2_double by lia; lia|done|done].
    - eapply Hrr; [rewrite Z.log2_succ_double by lia; lia|done|done]. }
  assert (grown m m') as Hgr by (split; [done|]; intros k; change (page_at k m') with (page_at k m); by destruct (page_at k m)).
  split_and!; [|done|by eapply rooted_grown]. pose proof (grown_same _ _ Hgr) as Hsp.
  destruct Hi as [Hpg Hap H1 H2 Hkn Hab Hdi]. split; try done; cbn [mem_nodes set_nodes m'].
  - intros g' h Hg' Hn. rewrite (same_pages_node m) by (done || (change MaxPageCount with 1048576 in Hg'; lia)).
    subst m'. cbn in Hn. apply lookup_insert_Some in Hn as [[<- [= <-]]|[_ Hn]]; [done|eauto].
  - intros g' k Hg' Hn Hk. subst m'. cbn in Hn. apply lookup_insert_None in Hn as [Hn _]. eauto.
  - intros g' k p Hg' Hp Ho Ha. subst m'. cbn. change (page_at k m = Some p) in Hp.
    destruct (decide (g' = g)) as [->|Hne].
    + rewrite (Hr ltac:(lia) _ _ Hp Ha) in Ho. done.
    + rewrite lookup_insert_ne by done. eauto.
Qed.

(** Merkleization gives the node of the reference tree, and changes only what is cached. *)
Lemma merkleize_spec fuel g m :
  mem_inv m -> 1 <= g < 2 ^ 28 -> 28 - Z.log2 g <= Z.of_nat fuel ->
  exists m', merkleize fuel g m = (Ok (mem_node m g), m') /\ mem_inv m' /\ grown m m' /\ rooted g m'.
Proof.
  revert g m. induction fuel as [|fuel IH]; intros g m Hi Hg Hf;
    pose proof (Z.log2_lt_pow2 g 28 ltac:(lia)) as Hl28; pose proof (Z.log2_nonneg g); [lia|].
  cbn [merkleize]. unfold bind at 1, get. unfold BitLen.
  destruct (Z.eqb_spec g 0); [lia|]. rewrite Z.abs_eq by lia.
  destruct (Z.ltb_spec 28 (Z.log2 g + 1)); [lia|].
  change PageKeySize with 20. replace (28 - (Z.log2 g + 1)) with (27 - Z.log2 g) by lia.
  destruct (Z.ltb_spec 20 (Z.log2 g + 1)) as [Hdeep|Hhigh].
  - replace (Z.log2 g + 1 - 1 - 20) with (Z.log2 g - 20) by lia.
    destruct (gindex_in_page g Hg ltac:(lia)) as (Hgi & Hk & Hj & Hsh).
    set (k := Z.land (Z.shiftr g (Z.log2 g - 20)) PageKeyMask) in *. set (j := Z.lor _ _) in *.
    assert (forall p m', Z.log2 g <= 20 -> page_at k m' = Some p -> forall k', above g (MaxPageCount + k') -> 0 <= k' < MaxPageCount -> k' = k) as Honly.
    { intros p m' Hl20 _ k' [_ [s Hs]] Hk'. rewrite (proj2 (Z.sub_move_0_r _ _)) in Hsh by lia. rewrite Z.shiftr_0_r in Hsh.
      assert (Z.log2 (MaxPageCount + k') = 20) as Hlk
        by (change MaxPageCount with 1048576 in *; apply Z.log2_unique; lia).
      pose proof (Z.log2_shiftr (MaxPageCount + k') (Z.of_nat s)) as Hx. rewrite Hs in Hx.
      assert (s = 0%nat) as -> by (change MaxPageCount with 1048576 in *; lia). rewrite Z.shiftr_0_r in Hs. lia. }
    destruct (mem_pages m !! k) as [q|] eqn:Eq.
    + destruct (mi_pages m Hi _ _ Eq) as [_ (p & Hp & _)].
      destruct (merkleize_page m k q p j Hi Eq Hp Hk Hj) as (m' & Hm & Hi' & Hgr & p' & Hp' & Ho).
      rewrite <- Hgi in Hm. exists m'. split_and!; [done..|]. intros Hl20 k' p0 Hp0 Ha.
      assert (exists q', mem_pages m' !! k' = Some q') as [q' Hq'].
      { unfold page_at in Hp0. destruct (mem_pages m' !! k'); [eauto|done]. }
      destruct (mi_pages m' Hi' _ _ Hq') as [Hk' _]. rewrite (Honly p' m' Hl20 Hp' k' Ha Hk') in Hp0. congruence.
    + assert (forall k', 0 <= k' < MaxPageCount -> page_at k' m <> None -> forall j', 1 <= j' < 256 -> above g (in_page k' j') -> False) as Hno.
      { intros k' Hk' Hp j' Hj' Ha. apply above_in_page in Ha as [_ Ha]; [|lia..]. rewrite Ha in Hsh by lia.
        assert (k' = k) as -> by lia. apply Hp. unfold page_at. by rewrite Eq. }
      exists m. rewrite (mem_node_absent m g Hg Hno). split_and!; [done..|].
      intros Hl20 k' p' Hp' Ha. exfalso. assert (exists q', mem_pages m !! k' = Some q') as [q' Hq'].
      { unfold page_at in Hp'. destruct (mem_pages m !! k'); [eauto|done]. }
      destruct (mi_pages m Hi _ _ Hq') as [Hk' _].
      apply (Hno k' Hk') with (j' := 1); [by rewrite Hp'|lia|].
      unfold in_page. cbn. by rewrite Z.mul_1_r, Z.add_0_r.
  - assert (g < MaxPageCount) as Hgm by (change MaxPageCount with (2 ^ 20); apply Z.log2_lt_pow2; lia).
    destruct (mem_nodes m !! g) as [[h|]|] eqn:En.
    + exists m. unfold ret. rewrite (mi_known m Hi g h ltac:(lia) En). split_and!; [done..|].
      intros _ k p Hp Ha. destruct (node_ok p 1) eqn:Eo; [done|].
      pose proof (mi_dirty m Hi g k p ltac:(lia) Hp Eo Ha). congruence.
    + replace (Z.shiftl g 1) with (2 * g) by (rewrite Z.shiftl_mul_pow2; lia).
      replace (Z.lor (2 * g) 1) with (2 * g + 1)
        by (rewrite (Z.mul_comm 2); change 2 with (2 ^ 1) at 2; rewrite lor_low_high; lia).
      assert (2 * g + 1 < 2 ^ 28) as Hb by (change MaxPageCount with 1048576 in Hgm; lia).
      destruct (IH (2 * g) m Hi ltac:(lia) ltac:(rewrite Z.log2_double by lia; lia)) as (m1 & Hm1 & Hi1 & Hg1 & Hr1).
      unfold bind at 1. rewrite Hm1. unfold bind at 1.
      destruct (IH (2 * g + 1) m1 Hi1 ltac:(lia) ltac:(rewrite Z.log2_succ_double by lia; lia)) as (m2 & Hm2 & Hi2 & Hg2 & Hr2).
      rewrite Hm2.
      rewrite (same_pages_node m m1) by (lia || by apply grown_same).
      assert (HashPair (mem_node m (2 * g)) (mem_node m (2 * g + 1)) = mem_node m2 g) as ->.
      { assert (same_pages m m2) as Hsp by (apply grown_same; by etrans).
        rewrite <- (same_pages_node m m2 (2 * g)), <- (same_pages_node m m2 (2 * g + 1)) by (done || lia).
        unfold mem_node. rewrite Z.log2_double, Z.log2_succ_double by lia.
        replace (Z.to_nat (27 - Z.log2 g)) with (S (Z.to_nat (27 - Z.succ (Z.log2 g)))) by lia. reflexivity. }
      destruct (known_node_inv m2 g Hi2 ltac:(lia) (rooted_grown _ _ _ Hr1 Hg2) Hr2) as (Hi3 & Hg3 & Hr3).
      eexists. split; [|split_and!; [exact Hi3|by do 2 (etrans; [done|])|done]].
      unfold bind, modify, ret. do 2 f_equal. apply same_pages_node; [lia|]. apply grown_same. by etrans.
    + exists m. rewrite (mem_node_absent m g Hg).
      * split_and!; [done..|]. intros _ k p Hp Ha. exfalso. apply (mi_absent m Hi g k ltac:(lia) En); [|done].
        unfold page_at in Hp. destruct (mem_pages m !! k); [by eexists|done].
      * intros k Hk Hp j Hj Ha. apply above_in_page in Ha as [Ha _]; [|lia..].
        apply (mi_absent m Hi g k ltac:(lia) En); [|by apply Ha; lia].
        unfold page_at in Hp. destruct (mem_pages m !! k); [by eexists|done].
Qed.

(** ** Writing *)
Lemma clear_nodes_above k nodes g : above g (Zpos k) -> clear_nodes k nodes !! g = Some None.
Proof.
  assert (forall k nodes, nodes !! g = Some None -> clear_nodes k nodes !! g = Some None) as Hkeep.
  { intros x. induction x as [x IH|x IH|]; intros nodes' Hn; cbn [clear_nodes]; [apply IH|apply IH|];
      rewrite lookup_insert; by case_decide. }
  revert nodes. induction k as [k IH|k IH|]; intros nodes; rewrite above_half by lia; intros [->|Ha]; cbn [clear_nodes].
  1,3: apply Hkeep, lookup_insert_eq.
  1,2: by apply IH.
  - apply lookup_insert_eq.
  - by apply above_pos in Ha.
Qed.

Lemma clear_nodes_other k nodes g : ~ above g (Zpos k) -> clear_nodes k nodes !! g = nodes !! g.
Proof.
  revert nodes. induction k as [k IH|k IH|]; intros nodes; rewrite above_half by lia; intros Ha; cbn [clear_nodes].
  1,2: rewrite IH by (intros Hx; apply Ha; by right); apply lookup_insert_ne; intros <-; apply Ha; by left.
  apply lookup_insert_ne. intros <-. apply Ha. by left.
Qed.

Lemma clear_nodes_known k nodes g h : clear_nodes k nodes !! g = Some (Some h) -> nodes !! g = Some (Some h).
Proof.
  revert nodes. induction k as [k IH|k IH|]; intros nodes Hn; cbn [clear_nodes] in Hn; [apply IH in Hn|apply IH in Hn|];
    by apply lookup_insert_Some in Hn as [[_ Hn]|[_ Hn]].
Qed.

(** The nodes after the path to page [k] was cleared, or was already clear. *)
Definition path_cleared (k : Z) (nodes nodes' : gmap Z (option Hash)) : Prop :=
  forall g, 1 <= g < MaxPageCount ->
    (above g (MaxPageCount + k) -> nodes' !! g = Some None) /\
    (~ above g (MaxPageCount + k) -> nodes' !! g = nodes !! g).

Lemma clear_gindex_spec k m :
  0 <= k -> exists nodes', clear_gindex (MaxPageCount + k) m = (Ok tt, set_nodes nodes' m) /\
    path_cleared k (mem_nodes m) nodes' /\
    forall g h, nodes' !! g = Some (Some h) -> mem_nodes m !! g = Some (Some h).
Proof.
  intros Hk. unfold clear_gindex, modify. destruct (MaxPageCount + k) as [|x|x] eqn:E;
    [change MaxPageCount with 1048576 in E; lia| |change MaxPageCount with 1048576 in E; lia].
  eexists. split; [done|]. split; [|apply clear_nodes_known].
  intros g Hg. rewrite E. split; [apply clear_nodes_above|apply clear_nodes_other].
Qed.

(** A node above a leaf, and not inside its page, is above the page. *)
Lemma above_leaf g a :
  0 <= a < 2 ^ 32 -> Z.log2 g <= 20 -> above g (2 ^ 27 + Z.shiftr a 5) -> above g (MaxPageCount + Z.shiftr a 12).
Proof.
  intros Ha Hl [Hg [s Hs]]. split; [done|].
  assert (Z.shiftr (2 ^ 27 + Z.shiftr a 5) 7 = MaxPageCount + Z.shiftr a 12) as Hp.
  { rewrite !Z.shiftr_div_pow2 by lia. change (2 ^ 12) with (2 ^ 5 * 2 ^ 7). rewrite <- Z.div_div by lia.
    change (2 ^ 27) with (MaxPageCount * 2 ^ 7). rewrite Z.add_comm, Z.div_add by lia. lia. }
  assert (0 <= Z.shiftr a 5 < 2 ^ 27) as Hb.
  { rewrite Z.shiftr_div_pow2 by lia. split; [apply Z.div_pos; lia|apply Z.div_lt_upper_bound; lia]. }
  assert (Z.log2 (2 ^ 27 + Z.shiftr a 5) = 27) as Hlog by (apply Z.log2_unique; lia).
  pose proof (Z.log2_shiftr (2 ^ 27 + Z.shiftr a 5) (Z.of_nat s) ltac:(lia)) as Hx. rewrite Hs, Hlog in Hx.
  exists (s - 7)%nat. rewrite <- Hp, Z.shiftr_shiftr by lia. rewrite <- Hs. f_equal. lia.
Qed.

(** Page [k] is replaced, or added, by a page without a valid root, and the nodes above it
    are cleared. *)
Lemma replace_page_inv m k q p' nodes' :
  mem_inv m -> 0 <= k < MaxPageCount ->
  mem_pages m !! k = Some q \/ (mem_pages m !! k = None /\ mem_store m !! q = None) ->
  page_sound p' -> node_ok p' 1 = false -> path_cleared k (mem_nodes m) nodes' ->
  let m' := mkMemory nodes' (<[k:=q]> (mem_pages m)) (mem_lastPageKeys m) (mem_lastPage m) (<[q:=p']> (mem_store m)) in
  mem_inv m' /\ forall k', page_at k' m' = if decide (k' = k) then Some p' else page_at k' m.
Proof.
  intros Hi Hk Hkq Hs Ho Hc m'. destruct Hi as [Hpg Hap H1 H2 Hkn Hab Hdi].
  assert (forall k', mem_pages m !! k' = Some q -> k' = k) as Hfresh.
  { intros k' Hk'. destruct Hkq as [Hq|[_ Hq]]; [by eapply Hap|].
    destruct (Hpg _ _ Hk') as [_ (p & Hp & _)]. congruence. }
  assert (forall k', page_at k' m' = if decide (k' = k) then Some p' else page_at k' m) as Hat.
  { intros k'. unfold page_at. subst m'. cbn [mem_pages mem_store]. case_decide as E.
    - subst k'. rewrite lookup_insert_eq. cbn. by rewrite lookup_insert_eq.
    - rewrite lookup_insert_ne by done. destruct (mem_pages m !! k') as [q'|] eqn:Ek; cbn; [|done].
      rewrite lookup_insert_ne; [done|]. intros ->. by apply E, Hfresh. }
  split; [|done].
  assert (forall key last, last_ok m key last -> last_ok m' key last) as Hlast.
  { intros key last [Hm|[Hl Hsome]]; [by left|right]. split; [|done]. subst m'. cbn [mem_pages].
    destruct (decide (key = k)) as [->|]; [|by rewrite lookup_insert_ne].
    rewrite lookup_insert_eq. destruct Hsome as [x Hx]. rewrite Hl in Hx.
    destruct Hkq as [Hq|[Hq _]]; congruence. }
  split; cbn [mem_nodes mem_pages mem_store m'].
  - intros k' q'. rewrite lookup_insert_Some. intros [[<- <-]|[Hne Hq']].
    + split; [done|]. exists p'. split; [apply lookup_insert_eq|done].
    + destruct (Hpg _ _ Hq') as [? (p & Hp & ?)]. split; [done|]. exists p. split; [|done].
      rewrite lookup_insert_ne; [done|]. intros ->. by apply Hne, eq_sym, Hfresh.
  - intros k1 k2 x. rewrite !lookup_insert_Some. intros [[<- <-]|[Hn1 Hx1]] [[<- Hx]|[Hn2 Hx2]]; subst; try done.
    + by apply eq_sym, Hfresh.
    + by apply Hfresh.
    + by eapply Hap.
  - apply Hlast, H1.
  - apply Hlast, H2.
  - intros g h Hg Hn. destruct (Hc g Hg) as [Hc1 Hc2].
    assert (~ above g (MaxPageCount + k)) as Hna by (intros Ha; specialize (Hc1 Ha); subst m'; cbn in Hn; congruence).
    rewrite (mem_node_ext m).
    + apply Hkn; [done|]. rewrite <- Hc2 by done. done.
    + change MaxPageCount with 1048576 in Hg. lia.
    + intros a Ha Hab'. unfold mem_byte. rewrite Hat. case_decide as E; [|done]. exfalso. apply Hna.
      replace k with (Z.shiftr a 12) by done. apply above_leaf; [done| |done].
      enough (Z.log2 g < 20) by lia. apply Z.log2_lt_pow2; [lia|]. apply Hg.
  - intros g k' Hg Hn. rewrite lookup_insert_is_Some. intros Hk' Ha. destruct (Hc g Hg) as [Hc1 Hc2].
    destruct Hk' as [<-|[_ Hk']]; [specialize (Hc1 Ha); congruence|].
    apply (Hab g k' Hg); [|done..]. rewrite <- Hc2; [done|]. intros Ha'. specialize (Hc1 Ha'). congruence.
  - intros g k' p Hg. rewrite Hat. destruct (Hc g Hg) as [Hc1 Hc2]. case_decide as E.
    { intros _ _. subst k'. apply Hc1. }
    intros Hp Hok Ha. pose proof (Hdi g k' p Hg Hp Hok Ha) as Hd.
    destruct (nodes' !! g) as [[h|]|] eqn:En; [exfalso|done|exfalso].
    all: assert (~ above g (MaxPageCount + k)) as Hna by (intros Ha'; specialize (Hc1 Ha'); congruence);
      specialize (Hc2 Hna); congruence.
Qed.

(** ** Words *)

(** An aligned address in its page. *)
Lemma addr_split addr :
  0 <= addr < 2 ^ 32 -> addr mod 4 = 0 ->
  exists k o, Z.shiftr addr PageAddrSize = k /\ Z.land addr PageAddrMask = Z.of_nat o /\
    addr = 4096 * k + Z.of_nat o /\ 0 <= k < MaxPageCount /\ (o + 4 <= 4096)%nat /\ (o mod 4 = 0)%nat.
Proof.
  intros Ha Hal. exists (Z.shiftr addr 12), (Z.to_nat (addr mod 4096)).
  pose proof (Z.mod_pos_bound addr 4096 ltac:(lia)) as Hb. pose proof (Z.div_mod addr 4096 ltac:(lia)) as Hdm.
  assert (Z.shiftr addr 12 = addr / 4096) as Ek by (by rewrite Z.shiftr_div_pow2).
  assert ((addr mod 4096) mod 4 = 0) as Ho.
  { rewrite <- Hal. rewrite Hdm at 2. replace (4096 * (addr / 4096)) with (addr / 4096 * 1024 * 4) by lia.
    by rewrite Z.add_comm, Z.mod_add. }
  assert (exists w, addr mod 4096 = 4 * w) as [w Hw] by (exists (addr mod 4096 / 4); pose proof (Z.div_mod (addr mod 4096) 4); lia).
  split_and!; [done| | | | |lia|].
  - change PageAddrMask with (2 ^ 12 - 1). rewrite land_mask by lia. change (2 ^ 12) with 4096. lia.
  - lia.
  - rewrite Ek. apply Z.div_pos; lia.
  - rewrite Ek. apply Z.div_lt_upper_bound; [lia|]. change MaxPageCount with 1048576. lia.
  - rewrite Hw. replace (Z.to_nat (4 * w)) with (Z.to_nat w * 4)%nat by lia. apply Nat.Div0.mod_mul.
Qed.

Lemma land_3 addr : (Z.land addr 3 =? 0) = (addr mod 4 =? 0).
Proof. change 3 with (2 ^ 2 - 1). by rewrite land_mask. Qed.

Lemma mem_bytes_absent m k o n :
  page_at k m = None -> (o + n <= 4096)%nat -> mem_bytes m (4096 * k + Z.of_nat o) n = replicate n Byte.x00.
Proof.
  intros Hp Ho. apply mem_bytes_zero. intros i Hi. unfold mem_byte.
  assert (Z.shiftr i PageAddrSize = k) as ->; [|by rewrite Hp].
  rewrite Z.shiftr_div_pow2 by done. change (2 ^ PageAddrSize) with 4096. symmetry.
  apply Z.div_unique with (r := i - 4096 * k); lia.
Qed.

(** The memory after reading: the same contents and the same nodes. *)
Lemma get_memory_spec addr m :
  mem_inv m -> 0 <= addr < 2 ^ 32 -> addr mod 4 = 0 ->
  exists m', GetMemory addr m = (Ok (mem_word m addr), m') /\ mem_inv m' /\ same_core m m'.
Proof.
  intros Hi Ha Hal. unfold GetMemory. rewrite land_3, Hal. cbn [negb Z.eqb].
  destruct (addr_split addr Ha Hal) as (k & o & -> & Ho & Haddr & Hk & Hob & _). rewrite Ho, Nat2Z.id.
  destruct (lookup_spec k m Hi Hk) as (m' & Hl & Hi' & Hc). unfold bind. rewrite Hl. cbn [fst snd].
  unfold mem_word. rewrite Haddr.
  destruct (mem_pages m !! k) as [q|] eqn:Eq.
  - rewrite bool_decide_true by done. cbn [negb]. destruct (mi_pages m Hi _ _ Eq) as [_ (p & Hp & Hs)].
    pose proof Hc as (_ & _ & Hst).
    assert (page_at k m = Some p) as Hat by (unfold page_at; by rewrite Eq).
    rewrite (page_bytes m k p) by (done || lia || apply Hs).
    rewrite (on_page_Ok q p _ _ p) by (by rewrite ?Hst).
    rewrite insert_id by (by rewrite Hst). exists m'. split; [|done]. by destruct m'.
  - rewrite bool_decide_false by (by intros []). exists m'. split; [|done].
    rewrite mem_bytes_absent by (unfold page_at; rewrite ?Eq; done || lia). done.
Qed.

(** What is at an address after the bytes [bs] were written at [addr]. *)
Definition written m m' (addr : Z) (bs : Data) : Prop :=
  forall a, mem_byte m' a =
    if decide (addr <= a < addr + Z.of_nat (length bs)) then nth (Z.to_nat (a - addr)) bs Byte.x00 else mem_byte m a.

Lemma written_page m m' k o bs data p' :
  (forall k', page_at k' m' = if decide (k' = k) then Some p' else page_at k' m) ->
  match page_at k m with Some p => data = cp_Data p | None => data = replicate 4096 Byte.x00 end ->
  length data = 4096%nat -> (o + length bs <= 4096)%nat -> cp_Data p' = splice o bs data ->
  written m m' (4096 * k + Z.of_nat o) bs.
Proof.
  intros Hat Hp Hd Ho Hd' a. unfold mem_byte. rewrite Hat.
  pose proof (Z.div_mod a 4096 ltac:(lia)) as Hdm. pose proof (Z.mod_pos_bound a 4096 ltac:(lia)) as Hmb.
  assert (Z.shiftr a PageAddrSize = a / 4096) as -> by (by rewrite Z.shiftr_div_pow2).
  change PageAddrMask with (2 ^ 12 - 1). rewrite land_mask by lia. change (2 ^ 12) with 4096.
  case_decide as E.
  - rewrite Hd', nth_lookup, lookup_splice by lia. rewrite E in Hdm.
    destruct (decide (o <= Z.to_nat (a mod 4096) < o + length bs)%nat), (decide (4096 * k + Z.of_nat o <= a < 4096 * k + Z.of_nat o + Z.of_nat (length bs)));
      try lia.
    + rewrite nth_lookup. do 2 f_equal. lia.
    + rewrite E, <- nth_lookup. destruct (page_at k m) as [p|]; subst data; [done|].
      rewrite nth_lookup, lookup_replicate_2 by lia. done.
  - rewrite decide_False; [done|]. intros Hr. apply E. symmetry.
    apply Z.div_unique with (r := a - 4096 * k); lia.
Qed.

(** The page of an address, invalidated up to the root of the memory. *)
Lemma invalidate_spec addr k o q p m :
  mem_inv m -> Z.shiftr addr PageAddrSize = k -> Z.land addr PageAddrMask = Z.of_nat o -> addr mod 4 = 0 ->
  addr = 4096 * k + Z.of_nat o -> 0 <= k < MaxPageCount -> (o + 4 <= 4096)%nat -> (o mod 4 = 0)%nat ->
  mem_pages m !! k = Some q -> mem_store m !! q = Some p ->
  exists m' nodes' p1, Invalidate addr m = (Ok tt, mkMemory nodes' (mem_pages m') (mem_lastPageKeys m') (mem_lastPage m') (<[q:=p1]> (mem_store m'))) /\
    mem_inv m' /\ same_core m m' /\ path_cleared k (mem_nodes m) nodes' /\
    cp_Data p1 = cp_Data p /\ node_ok p1 1 = false /\
    forall bs, length bs = 4%nat -> page_sound (mkPage (splice o bs (cp_Data p1)) (cp_Cache p1) (cp_Ok p1)).
Proof.
  intros Hi Hsh Hmask Hal Haddr Hk Ho Hom Hq Hp. unfold Invalidate. rewrite land_3, Hal. cbn [negb Z.eqb].
  rewrite Hsh, Hmask. destruct (lookup_spec k m Hi Hk) as (m' & Hl & Hi' & Hc). unfold bind at 1. rewrite Hl.
  cbn [fst snd]. rewrite Hq, bool_decide_true by done. cbn [negb]. pose proof Hc as (Hn & Hpg & Hst).
  destruct (mi_pages m Hi _ _ Hq) as [_ (p0 & Hp0 & Hs)]. rewrite Hp in Hp0. injection Hp0 as <-.
  unfold bind at 1. rewrite (on_page_Ok q p _ _ p) by (by rewrite ?Hst). rewrite insert_id by (by rewrite Hst).
  replace (mkMemory (mem_nodes m') (mem_pages m') (mem_lastPageKeys m') (mem_lastPage m') (mem_store m')) with m' by (by destruct m').
  destruct (invalidate_write o [Byte.x00; Byte.x00; Byte.x00; Byte.x00] p Hs Ho Hom eq_refl) as (p1 & Hinv & Hd1 & Hok1 & _).
  unfold bind at 1. rewrite (on_page_Ok q p _ _ _ _ ltac:(by rewrite Hst) Hinv).
  assert (forall bs, length bs = 4%nat -> page_sound (mkPage (splice o bs (cp_Data p1)) (cp_Cache p1) (cp_Ok p1))) as Hsound.
  { intros bs Hbs. destruct (invalidate_write o bs p Hs Ho Hom Hbs) as (p2 & Hinv2 & _ & _ & Hs2). congruence. }
  change (nth 1 (cp_Ok p) false) with (node_ok p 1).
  destruct (node_ok p 1) eqn:Eok; cbn [negb].
  - assert (Z.shiftr (Z.lor (Z.shiftl 1 32) addr) PageAddrSize = MaxPageCount + k) as ->.
    { rewrite Z.shiftl_1_l. rewrite <- (Z.mul_1_l (2 ^ 32)). rewrite lor_low_high by (change MaxPageCount with 1048576 in Hk; lia).
      rewrite Z.shiftr_div_pow2 by done. change (2 ^ PageAddrSize) with 4096. change MaxPageCount with 1048576. symmetry.
      apply Z.div_unique with (r := Z.of_nat o); lia. }
    set (m2 := mkMemory _ _ _ _ _). destruct (clear_gindex_spec k m2 ltac:(lia)) as (nodes' & -> & Hcl & _).
    exists m', nodes', p1. split_and!; try done. cbn in Hcl. by rewrite <- Hn.
  - exists m', (mem_nodes m'), p1. split_and!; try done. rewrite Hn. intros g Hg. split; [|done].
    intros Ha. eapply mi_dirty; try done. unfold page_at. by rewrite Hq.
Qed.

(** A new page. *)
Lemma alloc_spec k m :
  mem_inv m -> 0 <= k < MaxPageCount -> mem_pages m !! k = None ->
  exists q nodes', AllocPage k m =
    (Ok q, mkMemory nodes' (<[k:=q]> (mem_pages m)) (mem_lastPageKeys m) (mem_lastPage m) (<[q:=new_page]> (mem_store m))) /\
    mem_store m !! q = None /\ path_cleared k (mem_nodes m) nodes' /\
    forall g h, nodes' !! g = Some (Some h) -> mem_nodes m !! g = Some (Some h).
Proof.
  intros Hi Hk Hn. unfold AllocPage. set (q := fresh (dom (mem_store m))).
  set (m1 := mkMemory _ _ _ _ _).
  assert (Z.lor (Z.shiftl 1 PageKeySize) k = MaxPageCount + k) as ->.
  { rewrite Z.shiftl_1_l, <- (Z.mul_1_l (2 ^ PageKeySize)). rewrite lor_low_high; [done|done|exact Hk]. }
  destruct (clear_gindex_spec k m1 ltac:(lia)) as (nodes' & Hcl & Hpc & Hkn). unfold bind. rewrite Hcl.
  exists q, nodes'. split_and!; [done| |done|done]. apply not_elem_of_dom, is_fresh.
Qed.

(** [SetMemory] writes the four bytes of the word, in big-endian order, and nothing else. *)
Lemma set_memory_spec addr v m :
  mem_inv m -> 0 <= addr < 2 ^ 32 -> addr mod 4 = 0 ->
  exists m', SetMemory addr v m = (Ok tt, m') /\ mem_inv m' /\ written m m' addr (be_encode 4 v).
Proof.
  intros Hi Ha Hal. unfold SetMemory. rewrite land_3, Hal. cbn [negb Z.eqb].
  destruct (addr_split addr Ha Hal) as (k & o & Hsh & Hmask & Haddr & Hk & Hob & Hom).
  rewrite Hsh, Hmask, Nat2Z.id. cbv zeta.
  destruct (lookup_spec k m Hi Hk) as (m0 & Hl & Hi0 & Hc0). unfold bind at 1. rewrite Hl. cbn [fst snd].
  pose proof Hc0 as (Hn0 & Hp0 & Hs0).
  assert (forall k' m', written m0 m' k' (be_encode 4 v) -> written m m' k' (be_encode 4 v)) as Hw.
  { intros k' m' Hw a. rewrite Hw. by rewrite (same_pages_byte m m0) by (by apply same_core_pages). }
  destruct (mem_pages m !! k) as [q|] eqn:Eq.
  - rewrite bool_decide_true by done. cbn [negb].
    destruct (mi_pages m Hi _ _ Eq) as [_ (p & Hp & Hs)].
    destruct (invalidate_spec addr k o q p m0 Hi0 Hsh Hmask Hal Haddr Hk Hob Hom) as
      (m1 & nodes' & p1 & Hinv & Hi1 & Hc1 & Hpc & Hd1 & Ho1 & Hsound); [by rewrite Hp0|by rewrite Hs0|].
    pose proof Hc1 as (Hn1 & Hp1 & Hs1).
    unfold bind at 2. unfold bind at 1. rewrite Hinv. unfold ret at 1.
    unfold write_page. erewrite on_page_Ok; [|cbn; apply lookup_insert_eq|reflexivity].
    cbn [mem_nodes mem_pages mem_store mem_lastPageKeys mem_lastPage]. rewrite insert_insert_eq.
    set (p2 := mkPage _ _ _).
    destruct (replace_page_inv m1 k q p2 nodes' Hi1 Hk) as [Hi' Hat].
    { left. congruence. }
    { by apply Hsound, length_be_encode. }
    { done. }
    { by rewrite Hn1. }
    rewrite insert_id in Hi', Hat by congruence. eexists. split; [done|]. split; [done|].
    apply Hw. rewrite Haddr. eapply written_page with (data := cp_Data p).
    + intros k'. rewrite Hat, (same_core_page m0 m1) by done. done.
    + unfold page_at. rewrite Hp0, Eq, Hs0. cbn. by rewrite Hp.
    + apply Hs.
    + by rewrite length_be_encode.
    + cbn. by rewrite Hd1.
  - rewrite bool_decide_false by (by intros []). cbn [negb].
    destruct (alloc_spec k m0 Hi0 Hk) as (q & nodes' & Hal' & Hfr & Hpc & _); [by rewrite Hp0|].
    unfold bind at 2. unfold bind at 1. rewrite Hal'. unfold ret at 1.
    unfold write_page. erewrite on_page_Ok; [|cbn; apply lookup_insert_eq|reflexivity].
    cbn [mem_nodes mem_pages mem_store mem_lastPageKeys mem_lastPage]. rewrite insert_insert_eq.
    set (p2 := mkPage _ _ _).
    destruct (replace_page_inv m0 k q p2 nodes' Hi0 Hk) as [Hi' Hat].
    { right. by rewrite Hp0. }
    { destruct new_page_sound as [Hd Hc Ho _]. split; [|done|done|].
      - subst p2. cbn [cp_Data]. by rewrite length_splice by (rewrite length_be_encode, Hd; lia).
      - intros j _. unfold node_ok, p2, new_page. cbn [cp_Ok]. rewrite nth_lookup.
        destruct (replicate 128 false !! j) eqn:E; [|done]. by apply lookup_replicate in E as [-> _]. }
    { done. }
    { done. }
    eexists. split; [done|]. split; [done|]. apply Hw. rewrite Haddr.
    eapply written_page with (data := replicate 4096 Byte.x00); [exact Hat| |by rewrite length_replicate|by rewrite length_be_encode|done].
    unfold page_at. by rewrite Hp0, Eq.
Qed.

(** ** Proofs *)

(** The root that a leaf and the siblings on its path, from the bottom up, stand for; the
    bits of the path say on which side the siblings are.  This is how the contract
    [MIPS.sol] checks a proof. *)
Fixpoint climb (path : Z) (node : Hash) (siblings : list Hash) : Hash :=
  match siblings with
  | [] => node
  | sibling :: siblings' =>
      climb (Z.shiftr path 1) (if Z.odd path then HashPair sibling node else HashPair node sibling) siblings'
  end.

(** The leaf of an address, and the sibling of its ancestor [i] levels up. *)
Definition leaf_index (addr : Z) : Z := 2 ^ 27 + Z.shiftr addr 5.
Definition sibling (addr : Z) (i : nat) : Z := Z.lxor (Z.shiftr (leaf_index addr) (Z.of_nat i)) 1.
Definition siblings m (addr : Z) (n : nat) : list Hash := (fun i => mem_node m (sibling addr i)) <$> seq 0 n.

Lemma length_siblings m addr n : length (siblings m addr n) = n.
Proof. unfold siblings. by rewrite length_fmap, length_seq. Qed.

Lemma leaf_index_bounds addr : 0 <= addr < 2 ^ 32 -> 2 ^ 27 <= leaf_index addr < 2 ^ 28.
Proof.
  intros Ha. unfold leaf_index. rewrite Z.shiftr_div_pow2 by lia.
  assert (a : addr / 2 ^ 5 < 2 ^ 27) by (apply Z.div_lt_upper_bound; lia).
  pose proof (Z.div_pos addr (2 ^ 5)). lia.
Qed.

Lemma path_bounds addr i :
  0 <= addr < 2 ^ 32 -> (i <= 27)%nat -> 2 ^ (27 - Z.of_nat i) <= Z.shiftr (leaf_index addr) (Z.of_nat i) < 2 ^ (28 - Z.of_nat i).
Proof.
  intros Ha Hi. pose proof (leaf_index_bounds addr Ha) as [H1 H2]. rewrite Z.shiftr_div_pow2 by lia.
  pose proof (Z.pow_pos_nonneg 2 (Z.of_nat i) ltac:(lia) ltac:(lia)). split.
  - apply Z.div_le_lower_bound; [done|]. rewrite <- Z.pow_add_r by lia.
    by replace (Z.of_nat i + (27 - Z.of_nat i)) with 27 by lia.
  - apply Z.div_lt_upper_bound; [done|]. rewrite <- Z.pow_add_r by lia.
    by replace (Z.of_nat i + (28 - Z.of_nat i)) with 28 by lia.
Qed.

(** A step down the path. *)
Lemma path_step addr i :
  Z.shiftr (leaf_index addr) (Z.of_nat i) =
  2 * Z.shiftr (leaf_index addr) (Z.of_nat (S i)) + Z.b2z (Z.odd (Z.shiftr (leaf_index addr) (Z.of_nat i))).
Proof.
  set (x := Z.shiftr (leaf_index addr) (Z.of_nat i)).
  assert (Z.shiftr (leaf_index addr) (Z.of_nat (S i)) = Z.div2 x) as ->.
  { rewrite Z.div2_spec. subst x. rewrite Z.shiftr_shiftr by lia. f_equal. lia. }
  pose proof (Z.div2_odd x). destruct (Z.odd x); cbn [Z.b2z] in *; lia.
Qed.

(** The sides of the path are the bits of the address. *)
Lemma odd_path addr i :
  0 <= addr < 2 ^ 32 -> (i < 27)%nat ->
  Z.odd (Z.shiftr (leaf_index addr) (Z.of_nat i)) = Z.testbit addr (5 + Z.of_nat i).
Proof.
  intros Ha Hi. rewrite odd_shiftr by lia. unfold leaf_index.
  rewrite <- (Z.mul_1_l (2 ^ 27)), <- lor_low_high.
  - rewrite Z.lor_spec, Z.mul_pow2_bits_low, Z.shiftr_spec by lia. cbn [orb]. f_equal. lia.
  - lia.
  - rewrite Z.shiftr_div_pow2 by lia. split; [apply Z.div_pos; lia|apply Z.div_lt_upper_bound; lia].
Qed.

Lemma sibling_step addr i :
  sibling addr i = 2 * Z.shiftr (leaf_index addr) (Z.of_nat (S i)) +
    Z.b2z (negb (Z.odd (Z.shiftr (leaf_index addr) (Z.of_nat i)))).
Proof.
  unfold sibling. rewrite (path_step addr i) at 1. set (y := Z.shiftr _ (Z.of_nat (S i))).
  destruct (Z.odd _); cbn [Z.b2z negb]; apply Z.bits_inj'; intros n Hn; rewrite Z.lxor_spec;
    destruct (Z.eq_dec n 0) as [->|]; rewrite ?Z.add_0_r, ?Z.testbit_odd_0, ?Z.testbit_even_0; try done;
    replace n with (Z.succ (Z.pred n)) by lia; rewrite ?Z.testbit_odd_succ, ?Z.testbit_even_succ by lia;
    change 1 with (2 * 0 + 1) at 1; rewrite ?Z.testbit_odd_succ by lia; by rewrite Z.bits_0, xorb_false_r.
Qed.

Lemma sibling_bounds addr i : 0 <= addr < 2 ^ 32 -> (i < 27)%nat -> 1 <= sibling addr i < 2 ^ 28.
Proof.
  intros Ha Hi. rewrite sibling_step. pose proof (path_bounds addr (S i) Ha ltac:(lia)) as [H1 H2].
  assert (1 <= 2 ^ (27 - Z.of_nat (S i))) by (pose proof (Z.pow_pos_nonneg 2 (27 - Z.of_nat (S i))); lia).
  assert (2 ^ (28 - Z.of_nat (S i)) <= 2 ^ 27) by (apply Z.pow_le_mono_r; lia).
  destruct (Z.odd _); cbn [Z.b2z negb]; lia.
Qed.

Lemma mem_node_split m g :
  1 <= g < 2 ^ 27 -> mem_node m g = HashPair (mem_node m (2 * g)) (mem_node m (2 * g + 1)).
Proof.
  intros Hg. unfold mem_node. pose proof (Z.log2_lt_pow2 g 27 ltac:(lia)). rewrite Z.log2_double, Z.log2_succ_double by lia.
  replace (Z.to_nat (27 - Z.log2 g)) with (S (Z.to_nat (27 - Z.succ (Z.log2 g)))) by lia. reflexivity.
Qed.

(** Climbing from the leaf along the right siblings reaches the root. *)
Lemma climb_path m addr n i :
  0 <= addr < 2 ^ 32 -> (n + i = 27)%nat ->
  climb (Z.shiftr (Z.shiftr addr 5) (Z.of_nat i)) (mem_node m (Z.shiftr (leaf_index addr) (Z.of_nat i)))
    ((fun j => mem_node m (sibling addr j)) <$> seq i n) = mem_node m 1.
Proof.
  intros Ha. revert i. induction n as [|n IH]; intros i Hi; cbn [seq fmap list_fmap climb].
  - assert (i = 27%nat) as -> by lia. f_equal. pose proof (path_bounds addr 27 Ha ltac:(lia)). lia.
  - rewrite Z.shiftr_shiftr by lia. replace (Z.of_nat i + 1) with (Z.of_nat (S i)) by lia.
    rewrite <- (IH (S i)) by lia. f_equal.
    assert (Z.odd (Z.shiftr (Z.shiftr addr 5) (Z.of_nat i)) = Z.odd (Z.shiftr (leaf_index addr) (Z.of_nat i))) as ->.
    { rewrite (odd_path addr i) by (done || lia). rewrite Z.shiftr_shiftr by lia. apply odd_shiftr. lia. }
    pose proof (path_bounds addr (S i) Ha ltac:(lia)) as [H1 H2].
    assert (1 <= 2 ^ (27 - Z.of_nat (S i))) by (pose proof (Z.pow_pos_nonneg 2 (27 - Z.of_nat (S i))); lia).
    assert (2 ^ (28 - Z.of_nat (S i)) <= 2 ^ 27) by (apply Z.pow_le_mono_r; lia).
    rewrite (mem_node_split m (Z.shiftr (leaf_index addr) (Z.of_nat (S i)))) by lia.
    pose proof (path_step addr i) as Hps. pose proof (sibling_step addr i) as Hss.
    destruct (Z.odd (Z.shiftr (leaf_index addr) (Z.of_nat i))); cbn [Z.b2z negb] in Hps, Hss;
      rewrite ?Z.add_0_r in *; by rewrite Hps, Hss.
Qed.

Lemma climb_root m addr :
  0 <= addr < 2 ^ 32 -> climb (Z.shiftr addr 5) (mem_node m (leaf_index addr)) (siblings m addr 27) = mem_node m 1.
Proof.
  intros Ha. rewrite <- (climb_path m addr 27 0 Ha eq_refl). unfold siblings.
  change (Z.of_nat 0) with 0. by rewrite !Z.shiftr_0_r.
Qed.

(** The traversal collects the leaf and the siblings. *)
Lemma traverse_spec addr left m :
  mem_inv m -> 0 <= addr < 2 ^ 32 -> (left <= 27)%nat ->
  exists m', traverseBranch left (Z.shiftr (leaf_index addr) (Z.of_nat left)) addr (27 - Z.of_nat left) m =
    (Ok (mem_node m (leaf_index addr) :: siblings m addr left), m') /\ mem_inv m' /\ grown m m'.
Proof.
  intros Hi Ha. revert m Hi. induction left as [|left IH]; intros m Hi Hl; cbn [traverseBranch].
  - pose proof (leaf_index_bounds addr Ha). rewrite Z.shiftr_0_r.
    destruct (merkleize_spec 29 (leaf_index addr) m Hi) as (m' & Hm & Hi' & Hg & _);
      [lia|pose proof (Z.log2_nonneg (leaf_index addr)); lia|].
    unfold bind, MerkleizeSubtree. rewrite Hm. by exists m'.
  - assert ((if negb (Z.land addr (Z.shiftl 1 (31 - (27 - Z.of_nat (S left)))) =? 0)
             then (Z.lor (Z.shiftl (Z.shiftr (leaf_index addr) (Z.of_nat (S left))) 1) 1,
                   Z.shiftl (Z.shiftr (leaf_index addr) (Z.of_nat (S left))) 1)
             else (Z.shiftl (Z.shiftr (leaf_index addr) (Z.of_nat (S left))) 1,
                   Z.lor (Z.shiftl (Z.shiftr (leaf_index addr) (Z.of_nat (S left))) 1) 1)) =
            (Z.shiftr (leaf_index addr) (Z.of_nat left), sibling addr left)) as ->.
    { replace (31 - (27 - Z.of_nat (S left))) with (5 + Z.of_nat left) by lia.
      assert (negb (Z.land addr (Z.shiftl 1 (5 + Z.of_nat left)) =? 0) = Z.odd (Z.shiftr (leaf_index addr) (Z.of_nat left))) as ->
        by (rewrite land_bit, odd_path by (done || lia); done).
      set (y := Z.shiftr (leaf_index addr) (Z.of_nat (S left))).
      replace (Z.shiftl y 1) with (2 * y) by (rewrite Z.shiftl_mul_pow2; lia).
      replace (Z.lor (2 * y) 1) with (2 * y + 1)
        by (rewrite (Z.mul_comm 2); change 2 with (2 ^ 1) at 2; rewrite lor_low_high; lia).
      pose proof (path_step addr left) as Hps. pose proof (sibling_step addr left) as Hss. fold y in Hps, Hss.
      destruct (Z.odd (Z.shiftr (leaf_index addr) (Z.of_nat left))); cbn [Z.b2z negb] in Hps, Hss;
        rewrite ?Z.add_0_r in *; by rewrite Hps, Hss. }
    replace (27 - Z.of_nat (S left) + 1) with (27 - Z.of_nat left) by lia.
    destruct (IH m Hi ltac:(lia)) as (m1 & Hm1 & Hi1 & Hg1). unfold bind at 1. rewrite Hm1.
    pose proof (sibling_bounds addr left Ha ltac:(lia)) as Hsb.
    destruct (merkleize_spec 29 (sibling addr left) m1 Hi1 Hsb) as (m2 & Hm2 & Hi2 & Hg2 & _);
      [pose proof (Z.log2_nonneg (sibling addr left)); lia|].
    unfold bind, MerkleizeSubtree. rewrite Hm2. exists m2. split_and!; [|done|by etrans].
    unfold siblings. rewrite seq_S, fmap_app. cbn [fmap list_fmap app Nat.add]. unfold ret.
    by rewrite (same_pages_node m m1) by (lia || by apply grown_same).
Qed.

(** A proof of an address: the leaf and the siblings, and the root does not change. *)
Lemma merkle_proof_spec addr m :
  mem_inv m -> 0 <= addr < 2 ^ 32 ->
  exists m', MerkleProof addr m =
    (Ok (concat (be_encode 32 <$> (mem_node m (leaf_index addr) :: siblings m addr 27))), m') /\
    mem_inv m' /\ grown m m'.
Proof.
  intros Hi Ha. destruct (traverse_spec addr 27 m Hi Ha ltac:(lia)) as (m' & Hm & Hi' & Hg).
  change (27 - Z.of_nat 27) with 0 in Hm.
  assert (Z.shiftr (leaf_index addr) (Z.of_nat 27) = 1) as E by (pose proof (path_bounds addr 27 Ha ltac:(lia)); lia).
  rewrite E in Hm. exists m'. split; [|done]. unfold MerkleProof, bind. by rewrite Hm.
Qed.

(** The siblings do not cover the address. *)
Lemma siblings_written m m' addr bs :
  0 <= addr < 2 ^ 32 -> written m m' addr bs -> (Z.of_nat (length bs) + addr mod 32 <= 32) ->
  siblings m' addr 27 = siblings m addr 27.
Proof.
  intros Ha Hw Hb. unfold siblings. apply list_fmap_ext. intros x i [-> Hi]%lookup_seq. rewrite Nat.add_0_l.
  pose proof (sibling_bounds addr x Ha Hi) as Hsb. apply mem_node_ext; [done|].
  intros a Har Hab. rewrite Hw. rewrite decide_False; [done|]. intros Hin.
  assert (Z.shiftr a 5 = Z.shiftr addr 5) as E.
  { rewrite !Z.shiftr_div_pow2 by lia. change (2 ^ 5) with 32.
    pose proof (Z.div_mod addr 32 ltac:(lia)). pose proof (Z.mod_pos_bound addr 32 ltac:(lia)).
    symmetry. apply Z.div_unique with (r := a - 32 * (addr / 32)); lia. }
  rewrite E in Hab. destruct Hab as [_ [s Hs]]. fold (leaf_index addr) in Hs.
  pose proof (sibling_step addr x) as Hss. pose proof (path_step addr x) as Hps.
  pose proof (path_bounds addr x Ha ltac:(lia)) as [Hp1 Hp2]. pose proof (path_bounds addr (S x) Ha ltac:(lia)) as [Hq1 Hq2].
  assert (Z.log2 (Z.shiftr (leaf_index addr) (Z.of_nat x)) = 27 - Z.of_nat x) as El.
  { apply Z.log2_unique; [lia|]. by replace (Z.succ (27 - Z.of_nat x)) with (28 - Z.of_nat x) by lia. }
  assert (Z.log2 (sibling addr x) = 27 - Z.of_nat x) as Els.
  { rewrite <- El, Hps, Hss. pose proof (Z.pow_pos_nonneg 2 (27 - Z.of_nat (S x)) ltac:(lia) ltac:(lia)).
    destruct (Z.odd _); cbn [Z.b2z negb]; rewrite ?Z.add_0_r, Z.log2_double, Z.log2_succ_double by lia; done. }
  pose proof (leaf_index_bounds addr Ha) as HL.
  assert (Z.log2 (leaf_index addr) = 27) as E27 by (apply Z.log2_unique; lia).
  pose proof (Z.log2_shiftr (leaf_index addr) (Z.of_nat s) ltac:(lia)) as Hx. rewrite Hs, E27, Els in Hx.
  assert (s = x) as -> by lia.
  destruct (Z.odd (Z.shiftr (leaf_index addr) (Z.of_nat x))); cbn [Z.b2z negb] in Hps, Hss; lia.
Qed.

(** ** Ranges, while no hash was computed yet *)
Definition unhashed m : Prop := forall g h, mem_nodes m !! g <> Some (Some h).

Lemma unhashed_cleared k m :
  mem_inv m -> unhashed m -> 0 <= k < MaxPageCount -> is_Some (mem_pages m !! k) -> path_cleared k (mem_nodes m) (mem_nodes m).
Proof.
  intros Hi Hu Hk Hp g Hg. split; [|done]. intros Ha. destruct (mem_nodes m !! g) as [[h|]|] eqn:En; [|done|].
  - by apply Hu in En.
  - by apply (mi_absent m Hi g k) in Ha.
Qed.

(** The same bytes everywhere. *)
Definition same_bytes m m' : Prop := forall a, mem_byte m' a = mem_byte m a.

Lemma range_page_spec k m :
  mem_inv m -> unhashed m -> 0 <= k < MaxPageCount ->
  exists q p m', range_page k m = (Ok (Some q), m') /\ mem_inv m' /\ unhashed m' /\ same_bytes m m' /\
    mem_pages m' !! k = Some q /\ mem_store m' !! q = Some p /\ cp_Ok p = replicate 128 false.
Proof.
  intros Hi Hu Hk. unfold range_page. destruct (lookup_spec k m Hi Hk) as (m0 & Hl & Hi0 & Hc0).
  unfold bind at 1. rewrite Hl. cbn [fst snd]. pose proof Hc0 as (Hn0 & Hp0 & Hs0).
  assert (unhashed m0) as Hu0 by (intros g h; rewrite Hn0; apply Hu).
  assert (exists q m1 p, (if negb (bool_decide (is_Some (mem_pages m !! k))) then q <- AllocPage k ;; ret (Some q) else ret (mem_pages m !! k)) m0 =
    (Ok (Some q), m1) /\ mem_inv m1 /\ unhashed m1 /\ same_bytes m m1 /\ mem_pages m1 !! k = Some q /\ mem_store m1 !! q = Some p)
    as (q & m1 & p & Hrun & Hi1 & Hu1 & Hb1 & Hq1 & Hp1).
  { destruct (mem_pages m !! k) as [q|] eqn:Eq.
    - rewrite bool_decide_true by done. cbn [negb]. destruct (mi_pages m Hi _ _ Eq) as [_ (p & Hp & _)].
      exists q, m0, p. split_and!; try done; [|congruence..]. intros a. apply same_pages_byte. by apply same_core_pages.
    - rewrite bool_decide_false by (by intros []). cbn [negb].
      destruct (alloc_spec k m0 Hi0 Hk) as (q & nodes' & Hal & Hfr & Hpc & Hkn); [by rewrite Hp0|].
      unfold bind. rewrite Hal.
      destruct (replace_page_inv m0 k q new_page nodes' Hi0 Hk) as [Hi' Hat]; [right; by rewrite Hp0|apply new_page_sound|done|done|].
      eexists q, _, new_page. split_and!; [done|done| | |apply lookup_insert_eq|apply lookup_insert_eq].
      + intros g h Hx. by apply Hkn, Hu0 in Hx.
      + intros a. unfold mem_byte. rewrite Hat. case_decide as E; [|by rewrite (same_core_page m m0)].
        rewrite E. unfold page_at. rewrite Eq. cbn [mbind option_bind cp_Data new_page]. rewrite nth_lookup.
        destruct (replicate 4096 Byte.x00 !! _) eqn:El; [|done]. by apply lookup_replicate in El as [-> _]. }
  unfold bind at 1. rewrite Hrun. unfold bind, CachedPage_InvalidateFull. erewrite on_page_Ok; [|done|reflexivity].
  destruct (mi_pages m1 Hi1 _ _ Hq1) as [_ (p0 & Hp0' & Hs)]. rewrite Hp1 in Hp0'. injection Hp0' as <-.
  set (p' := mkPage _ _ _).
  destruct (replace_page_inv m1 k q p' (mem_nodes m1) Hi1 Hk) as [Hi' Hat]; [by left| |done|by apply unhashed_cleared|].
  { destruct Hs as [Hd Hc _ _]. split; [done|done|apply length_replicate|].
    intros j _. unfold node_ok, p'. cbn [cp_Ok]. rewrite nth_lookup.
    destruct (replicate 128 false !! j) eqn:E; [|done]. by apply lookup_replicate in E as [-> _]. }
  rewrite insert_id in Hi', Hat by done.
  exists q, p'. eexists. split_and!; [done|done|done| |done|apply lookup_insert_eq|done].
  intros a. rewrite <- Hb1. unfold mem_byte. rewrite Hat. case_decide as E; [|done]. rewrite E.
  unfold page_at. rewrite Hq1. cbn. by rewrite Hp1.
Qed.

Lemma written_app m m1 m' addr b1 b2 :
  written m m1 addr b1 -> written m1 m' (addr + Z.of_nat (length b1)) b2 -> written m m' addr (b1 ++ b2).
Proof.
  intros H1 H2 a. rewrite H2, H1, length_app.
  repeat case_decide; try lia; rewrite ?app_nth1, ?app_nth2 by lia; try done. f_equal. lia.
Qed.

(** [SetMemoryRange] writes the bytes of the reader. *)
Lemma set_range_spec fuel addr r m :
  mem_inv m -> unhashed m -> 0 <= addr < 2 ^ 32 -> addr + Z.of_nat (length r) < 2 ^ 32 -> (length r < fuel)%nat ->
  exists m', set_range fuel addr r m = (Ok tt, m') /\ mem_inv m' /\ unhashed m' /\ written m m' addr r.
Proof.
  revert addr r m. induction fuel as [|fuel IH]; intros addr r m Hi Hu Ha Hr Hf; [lia|]. cbn [set_range].
  pose proof (Z.mod_pos_bound addr 4096 ltac:(lia)) as Hmb. pose proof (Z.div_mod addr 4096 ltac:(lia)) as Hdm.
  assert (Z.shiftr addr PageAddrSize = addr / 4096) as -> by (by rewrite Z.shiftr_div_pow2).
  assert (Z.land addr PageAddrMask = addr mod 4096) as ->
    by (change PageAddrMask with (2 ^ 12 - 1); by rewrite land_mask).
  set (k := addr / 4096) in *.
  assert (0 <= k < MaxPageCount) as Hk.
  { subst k. split; [apply Z.div_pos; lia|apply Z.div_lt_upper_bound; [lia|]]. change MaxPageCount with 1048576. lia. }
  destruct (range_page_spec k m Hi Hu Hk) as (q & p & m1 & Hp & Hi1 & Hu1 & Hb1 & Hq & Hst & Hok).
  unfold bind at 1. rewrite Hp. destruct r as [|b r].
  { exists m1. split_and!; [done..|]. intros a. rewrite Hb1. case_decide; [cbn in *; lia|done]. }
  set (data := b :: r) in *. set (bs := take (Z.to_nat (PageSize - addr mod 4096)) data).
  assert (1 <= length bs <= 4096 - Z.to_nat (addr mod 4096))%nat as Hbs.
  { subst bs data. change PageSize with 4096. rewrite length_take. cbn [length]. lia. }
  assert (length bs <= length data)%nat as Hbd by (subst bs; rewrite length_take; lia).
  unfold bind, write_page. erewrite on_page_Ok; [|done|reflexivity].
  destruct (mi_pages m1 Hi1 _ _ Hq) as [_ (p0 & Hp0 & Hs)]. rewrite Hst in Hp0. injection Hp0 as <-.
  set (p' := mkPage _ _ _).
  destruct (replace_page_inv m1 k q p' (mem_nodes m1) Hi1 Hk) as [Hi' Hat]; [by left| | |by apply unhashed_cleared|].
  { destruct Hs as [Hd Hc Ho _]. split; [|done|done|].
    - cbn [cp_Data p']. by rewrite length_splice by (rewrite Hd; lia).
    - intros j _. unfold node_ok, p'. cbn [cp_Ok]. rewrite Hok, nth_lookup.
      destruct (replicate 128 false !! j) eqn:E; [|done]. by apply lookup_replicate in E as [-> _]. }
  { unfold node_ok, p'. cbn [cp_Ok]. by rewrite Hok. }
  rewrite insert_id in Hi', Hat by done. set (m2 := mkMemory _ _ _ _ _) in *.
  assert (written m m2 addr bs) as Hw.
  { intros a. assert (written m1 m2 addr bs) as Hw1; [|by rewrite Hw1, Hb1].
    rewrite Hdm at 1. replace (addr mod 4096) with (Z.of_nat (Z.to_nat (addr mod 4096))) by lia.
    eapply written_page with (data := cp_Data p); [exact Hat| |apply Hs|lia|done].
    unfold page_at. rewrite Hq. cbn. by rewrite Hst. }
  assert (u32 (addr + Z.of_nat (length bs)) = addr + Z.of_nat (length bs)) as -> by (apply u32_small; lia).
  destruct (IH (addr + Z.of_nat (length bs)) (drop (length bs) data) m2 Hi') as (m' & Hm & Hi2 & Hu2 & Hw2);
    [done|lia|rewrite length_drop; lia|rewrite length_drop; lia|].
  exists m'. split_and!; [done..|]. rewrite <- (take_drop (length bs) data).
  assert (take (length bs) data = bs) as ->.
  { unfold bs at 1. rewrite length_take. destruct (Nat.min_spec (Z.to_nat (PageSize - addr mod 4096)) (length data)) as [[? ->]|[? ->]];
      [done|]. subst bs. by rewrite !take_ge by lia. }
  by eapply written_app.
Qed.
End MemorySpec.
