(* ===== verification/MipsMemoryTheorems.v ===== *)
(** * Properties of the memory of the VM *)
From stdpp Require Import relations.
From S2P Require Import Prelude GoErrors GoBytes EthTypes Geth Solabi Bits MipsMemory MipsPage MipsMemorySpec.
#[local] Open Scope Z_scope.

Section Reachable.
Context `{Keccak}.
Implicit Types m : Memory.

(** What is done with a memory: words are read and written at aligned addresses, hashes and
    proofs are computed, and ranges are loaded before the first hash. *)
Inductive mem_step : Memory -> Memory -> Prop :=
  | step_Get addr m : 0 <= addr < 2 ^ 32 -> addr mod 4 = 0 -> mem_step m (GetMemory addr m).2
  | step_Set addr v m : 0 <= addr < 2 ^ 32 -> addr mod 4 = 0 -> mem_step m (SetMemory addr v m).2
  | step_hash g m : 1 <= g < 2 ^ 28 -> mem_step m (MerkleizeSubtree g m).2
  | step_proof addr m : 0 <= addr < 2 ^ 32 -> mem_step m (MerkleProof addr m).2
  | step_load addr r m : unhashed m -> 0 <= addr -> addr + Z.of_nat (length r) < 2 ^ 32 ->
      mem_step m (SetMemoryRange addr r m).2.

Lemma NewMemory_inv : mem_inv NewMemory.
Proof.
  split; cbn [NewMemory mem_pages mem_nodes mem_store mem_lastPageKeys mem_lastPage fst snd].
  - intros k q. by rewrite lookup_empty.
  - intros k k' q. by rewrite lookup_empty.
  - by left.
  - by left.
  - intros g h _. by rewrite lookup_empty.
  - intros g k _ _ [q Hq]. by rewrite lookup_empty in Hq.
  - intros g k p _ Hp. unfold page_at in Hp. cbn in Hp. by rewrite lookup_empty in Hp.
Qed.

Lemma hash_spec g m :
  mem_inv m -> 1 <= g < 2 ^ 28 ->
  exists m', MerkleizeSubtree g m = (Ok (mem_node m g), m') /\ mem_inv m' /\ grown m m'.
Proof.
  intros Hi Hg. destruct (merkleize_spec 29 g m Hi Hg) as (m' & Hm & Hi' & Hgr & _);
    [pose proof (Z.log2_nonneg g); lia|]. by exists m'.
Qed.

Lemma mem_step_inv m m' : mem_inv m -> mem_step m m' -> mem_inv m'.
Proof.
  intros Hi Hs. destruct Hs as [addr m Ha Hal|addr v m Ha Hal|g m Hg|addr m Ha|addr r m Hu Ha Hr].
  - destruct (get_memory_spec addr m Hi Ha Hal) as (m' & -> & ? & _). done.
  - destruct (set_memory_spec addr v m Hi Ha Hal) as (m' & -> & ? & _). done.
  - destruct (hash_spec g m Hi Hg) as (m' & -> & ? & _). done.
  - destruct (merkle_proof_spec addr m Hi Ha) as (m' & -> & ? & _). done.
  - destruct (set_range_spec (S (length r)) addr r m Hi Hu) as (m' & Hm & ? & _); [lia..|].
    unfold SetMemoryRange. by rewrite Hm.
Qed.

Lemma reached_mem_inv m : rtc mem_step NewMemory m -> mem_inv m.
Proof.
  remember NewMemory as m0 eqn:E. assert (mem_inv m0) as Hi by (subst; apply NewMemory_inv). clear E.
  intros Hr. induction Hr as [|m0 m1 m2 Hs Hr IH]; [done|]. by eapply IH, mem_step_inv.
Qed.

(** The word at an aligned address after another word was written. *)
Lemma mem_word_written m m' addr v a :
  written m m' addr (be_encode 4 v) -> addr mod 4 = 0 -> a mod 4 = 0 ->
  mem_word m' a = if decide (a = addr) then u32 v else mem_word m a.
Proof.
  intros Hw Hal Hal'. unfold mem_word. case_decide as E.
  - subst a. transitivity (be_decode (be_encode 4 v)); [|apply (be_decode_encode 4)]. f_equal.
    apply list_eq. intros i. unfold mem_bytes. rewrite list_lookup_fmap.
    destruct (decide (i < 4)%nat).
    + rewrite lookup_seq_lt by lia. cbn [fmap option_fmap option_map]. rewrite Hw, length_be_encode.
      rewrite decide_True by lia. replace (Z.to_nat (addr + Z.of_nat (0 + i) - addr)) with i by lia.
      rewrite nth_lookup. destruct (lookup_lt_is_Some_2 (be_encode 4 v) i) as [x ->]; [by rewrite length_be_encode|done].
    + rewrite lookup_seq_ge, lookup_ge_None_2 by (rewrite ?length_be_encode; lia). done.
  - f_equal. apply mem_bytes_ext. intros i Hi. rewrite Hw, length_be_encode, decide_False; [done|].
    intros Hi'. apply E. pose proof (Z.div_mod a 4 ltac:(lia)). pose proof (Z.div_mod addr 4 ltac:(lia)). lia.
Qed.

(** Memory is a map from addresses to words.  In every memory that is reached, writing
    a word at an aligned address succeeds; reading it back gives the word, and reading any
    other aligned address gives what was there before, whichever pages exist and whatever
    is in the caches. *)
Theorem memory_words m addr v a :
  rtc mem_step NewMemory m -> 0 <= addr < 2 ^ 32 -> addr mod 4 = 0 -> 0 <= a < 2 ^ 32 -> a mod 4 = 0 ->
  exists m1 m2, SetMemory addr v m = (Ok tt, m1) /\
    GetMemory a m1 = (Ok (if decide (a = addr) then u32 v else mem_word m a), m2) /\
    (GetMemory a m).1 = Ok (mem_word m a).
Proof.
  intros Hr%reached_mem_inv Ha Hal Ha' Hal'.
  destruct (set_memory_spec addr v m Hr Ha Hal) as (m1 & Hs & Hi1 & Hw).
  destruct (get_memory_spec a m1 Hi1 Ha' Hal') as (m2 & Hg & _).
  destruct (get_memory_spec a m Hr Ha' Hal') as (m3 & Hg3 & _).
  exists m1, m2. split_and!; [done| |by rewrite Hg3]. rewrite Hg. by rewrite (mem_word_written m m1 addr v a).
Qed.

(** C13: the cached hashes are right.  In every memory that is reached from a new one by
    reading and writing words, hashing, proving, and loading ranges before the first hash,
    merkleizing any node of the tree gives the hash of this node in the reference tree over
    all of the 2^27 leaves of the memory, and no byte of the memory changes.  In particular
    the root of [MerkleRoot] never depends on what was cached before.  A range that is
    loaded after a hash is another matter ([range_keeps_stale_root]). *)
Theorem merkle_equals_reference m g :
  rtc mem_step NewMemory m -> 1 <= g < 2 ^ 28 ->
  exists m', MerkleizeSubtree g m = (Ok (mem_node m g), m') /\ forall a, mem_byte m' a = mem_byte m a.
Proof.
  intros Hr%reached_mem_inv Hg. destruct (hash_spec g m Hr Hg) as (m' & Hm & _ & Hgr).
  exists m'. split; [done|]. intros a. by apply same_pages_byte, grown_same.
Qed.

(** The leaf with the word of an address replaced. *)
Definition leaf_with (addr : Z) (v : Z) (leaf : Hash) : Hash :=
  be_decode (splice (Z.to_nat (addr mod 32)) (be_encode 4 v) (be_encode 32 leaf)).

Lemma mem_leaf_address m addr : 0 <= addr < 2 ^ 32 -> mem_node m (leaf_index addr) = be_decode (mem_bytes m (addr - addr mod 32) 32).
Proof.
  intros Ha. unfold mem_node. pose proof (leaf_index_bounds addr Ha).
  assert (Z.log2 (leaf_index addr) = 27) as -> by (apply Z.log2_unique; lia).
  change (Z.to_nat (27 - 27)) with 0%nat. cbn [gtree]. unfold mem_leaf. f_equal. f_equal.
  unfold leaf_index. rewrite Z.shiftr_div_pow2 by lia. change (2 ^ 5) with 32.
  pose proof (Z.div_mod addr 32 ltac:(lia)). lia.
Qed.

Lemma length_mem_bytes m a n : length (mem_bytes m a n) = n.
Proof. unfold mem_bytes. by rewrite length_fmap, length_seq. Qed.

Lemma mem_leaf_written m m' addr v :
  0 <= addr < 2 ^ 32 -> addr mod 4 = 0 -> written m m' addr (be_encode 4 v) ->
  mem_node m' (leaf_index addr) = leaf_with addr v (mem_node m (leaf_index addr)).
Proof.
  intros Ha Hal Hw. rewrite !mem_leaf_address by done. unfold leaf_with.
  rewrite be_encode_decode_len by apply length_mem_bytes. f_equal.
  pose proof (Z.mod_pos_bound addr 32 ltac:(lia)) as Hmb.
  assert (addr mod 32 <= 28) as H28.
  { pose proof (Z.div_mod addr 32 ltac:(lia)). pose proof (Z.div_mod addr 4 ltac:(lia)). lia. }
  apply list_eq. intros i. rewrite lookup_splice by (rewrite length_be_encode, length_mem_bytes; lia).
  unfold mem_bytes at 1 2. rewrite !list_lookup_fmap, length_be_encode.
  destruct (decide (i < 32)%nat).
  - rewrite lookup_seq_lt by lia. cbn [fmap option_fmap option_map]. rewrite Hw, length_be_encode.
    destruct (decide (addr <= addr - addr mod 32 + Z.of_nat (0 + i) < addr + Z.of_nat 4)),
      (decide (Z.to_nat (addr mod 32) <= i < Z.to_nat (addr mod 32) + 4)%nat); try lia; [|done].
    rewrite nth_lookup. replace (Z.to_nat (addr - addr mod 32 + Z.of_nat (0 + i) - addr)) with (i - Z.to_nat (addr mod 32))%nat by lia.
    destruct (lookup_lt_is_Some_2 (be_encode 4 v) (i - Z.to_nat (addr mod 32))) as [x ->]; [rewrite length_be_encode; lia|done].
  - rewrite lookup_seq_ge by lia. rewrite decide_False by lia. done.
Qed.

(** The nodes of the reference tree are never computed in a proof. *)
#[local] Opaque mem_node siblings climb.

(** C14: proofs convince the contract.  In every memory that is reached from a new one by
    reading and writing words, hashing, proving, and loading ranges before the first hash,
    the proof of an aligned address is the leaf that
    holds its word, followed by 27 siblings; climbing from the leaf along the bits of the
    address, as the contract does, gives the root of the memory; and after a word was
    written there, the same siblings lead from the changed leaf to the root of the new
    memory, so that the contract can compute the new root from the old proof. *)
Theorem merkle_proof_verifies m addr v :
  rtc mem_step NewMemory m -> 0 <= addr < 2 ^ 32 -> addr mod 4 = 0 ->
  exists leaf sibs m' m2, MerkleProof addr m = (Ok (concat (be_encode 32 <$> (leaf :: sibs))), m') /\
    length sibs = 27%nat /\
    be_decode (take 4 (drop (Z.to_nat (addr mod 32)) (be_encode 32 leaf))) = mem_word m addr /\
    (MerkleRoot m).1 = Ok (climb (Z.shiftr addr 5) leaf sibs) /\
    SetMemory addr v m' = (Ok tt, m2) /\
    (MerkleRoot m2).1 = Ok (climb (Z.shiftr addr 5) (leaf_with addr v leaf) sibs).
Proof.
  intros Hr%reached_mem_inv Ha Hal.
  destruct (merkle_proof_spec addr m Hr Ha) as (m' & Hp & Hi' & Hg).
  destruct (set_memory_spec addr v m' Hi' Ha Hal) as (m2 & Hs & Hi2 & Hw).
  pose proof (climb_root m addr Ha) as Hc. pose proof (climb_root m2 addr Ha) as Hc2.
  assert (written m m2 addr (be_encode 4 v)) as Hw'.
  { intros a. rewrite Hw. by rewrite (same_pages_byte m m') by (by apply grown_same). }
  assert (addr mod 32 <= 28) as H28.
  { pose proof (Z.mod_pos_bound addr 32). pose proof (Z.div_mod addr 32 ltac:(lia)). pose proof (Z.div_mod addr 4 ltac:(lia)). lia. }
  assert (Z.of_nat (length (be_encode 4 v)) + addr mod 32 <= 32) as Hfit by (rewrite length_be_encode; lia).
  rewrite (siblings_written m m2 addr (be_encode 4 v) Ha Hw' Hfit), (mem_leaf_written m m2 addr v Ha Hal Hw') in Hc2.
  destruct (hash_spec 1 m Hr ltac:(lia)) as (m3 & Hm3 & _). destruct (hash_spec 1 m2 Hi2 ltac:(lia)) as (m4 & Hm4 & _).
  exists (mem_node m (leaf_index addr)), (siblings m addr 27), m', m2.
  split; [exact Hp|]. split; [apply length_siblings|]. split; [|split; [|split; [exact Hs|]]].
  - rewrite mem_leaf_address by exact Ha. rewrite be_encode_decode_len by apply length_mem_bytes. unfold mem_word. f_equal.
    apply list_eq. intros i. destruct (decide (i < 4)%nat).
    + pose proof (Z.mod_pos_bound addr 32). rewrite lookup_take_lt, lookup_drop by lia.
      unfold mem_bytes. rewrite !list_lookup_fmap, !lookup_seq_lt by lia. cbn. do 2 f_equal. lia.
    + rewrite lookup_take_ge by lia. unfold mem_bytes. rewrite list_lookup_fmap, lookup_seq_ge by lia. done.
  - unfold MerkleRoot. rewrite Hm3. cbn [fst]. f_equal. symmetry. exact Hc.
  - unfold MerkleRoot. rewrite Hm4. cbn [fst]. f_equal. symmetry. exact Hc2.
Qed.

Lemma merkleize_known fuel g h m :
  1 <= g < MaxPageCount -> mem_nodes m !! g = Some (Some h) -> merkleize (S fuel) g m = (Ok h, m).
Proof.
  intros Hg Hn. cbn [merkleize]. unfold bind at 1, get. assert (BitLen g <= 20) as Hl.
  { unfold BitLen. destruct (Z.eqb_spec g 0); [lia|]. rewrite Z.abs_eq by lia.
    enough (Z.log2 g < 20) by lia. apply Z.log2_lt_pow2; [lia|]. apply Hg. }
  destruct (Z.ltb_spec 28 (BitLen g)); [lia|]. change PageKeySize with 20.
  destruct (Z.ltb_spec 20 (BitLen g)); [lia|]. by rewrite Hn.
Qed.

(** What a round of loading needs, and keeps, of a memory whose pages exist. *)
Definition loadable m : Prop :=
  (forall k q, mem_pages m !! k = Some q -> is_Some (mem_store m !! q)) /\
  last_ok m (mem_lastPageKeys m).1 (mem_lastPage m).1 /\ last_ok m (mem_lastPageKeys m).2 (mem_lastPage m).2.
Definition same_table m m' : Prop := mem_pages m' = mem_pages m /\ mem_nodes m' = mem_nodes m.

Lemma on_page_table {A} q (f : M CachedPage A) m :
  loadable m -> (exists k, mem_pages m !! k = Some q) -> (forall p, exists a p', f p = (Ok a, p')) ->
  exists a m', on_page (Some q) f m = (Ok a, m') /\ loadable m' /\ same_table m m'.
Proof.
  intros (Hst & H1 & H2) [k Hq] Hf. destruct (Hst _ _ Hq) as [p Hp]. destruct (Hf p) as (a & p' & Hfp).
  rewrite (on_page_Ok _ _ _ _ _ _ Hp Hfp). eexists _, _. split; [done|]. split; [|done].
  split; [|split; [exact H1|exact H2]]. cbn. intros k' q' Hq'. apply lookup_insert_is_Some'. right. eauto.
Qed.

Lemma range_page_existing k q m :
  loadable m -> mem_pages m !! k = Some q -> k < MaxPageCount ->
  exists m', range_page k m = (Ok (Some q), m') /\ loadable m' /\ same_table m m'.
Proof.
  intros Hm Hq Hk. unfold range_page.
  assert (exists m1, pageLookup k m = (Ok (Some q, true), m1) /\ loadable m1 /\ same_table m m1) as (m1 & Hl & Hm1 & Hp1 & Hn1).
  { destruct Hm as (Hst & H1 & H2). unfold pageLookup.
    destruct (Z.eqb_spec k (mem_lastPageKeys m).1) as [E|_].
    { destruct H1 as [|[Hl Hs]]; [lia|]. rewrite <- E, Hq in Hl. rewrite Hl. exists m. split; [done|]. split; [|done].
      split; [done|]. split; [right|done]. by rewrite <- E, Hq, Hl. }
    destruct (Z.eqb_spec k (mem_lastPageKeys m).2) as [E|_].
    { destruct H2 as [|[Hl Hs]]; [lia|]. rewrite <- E, Hq in Hl. rewrite Hl. exists m. split; [done|]. split; [|done].
      split; [done|]. split; [done|right]. by rewrite <- E, Hq, Hl. }
    rewrite Hq. eexists. split; [done|]. split; [|done]. split; [done|]. split; [right; cbn; by rewrite Hq|exact H1]. }
  unfold bind at 1. rewrite Hl. cbn [fst snd negb]. unfold bind at 1, ret at 1.
  destruct (on_page_table q CachedPage_InvalidateFull m1 Hm1) as (a & m2 & Ho & Hm2 & Hp2 & Hn2).
  { exists k. congruence. }
  { intros p. by eexists _, _. }
  unfold bind. rewrite Ho. exists m2. split; [done|]. split; [done|]. split; congruence.
Qed.

(** Loading over hashed memory leaves the old root.  When the root was computed and a
    range is then written into a page that exists, without reaching its end, the bytes
    change but [MerkleRoot] still gives the old root: [SetMemoryRange] invalidates the
    cache of the page, and not the nodes above it. *)
Theorem range_keeps_stale_root m k p addr r root :
  rtc mem_step NewMemory m -> page_at k m = Some p -> mem_nodes m !! 1 = Some (Some root) ->
  Z.shiftr addr PageAddrSize = k -> addr mod 4096 + Z.of_nat (length r) < 4096 ->
  (MerkleRoot (SetMemoryRange addr r m).2).1 = Ok root.
Proof.
  intros Hr%reached_mem_inv Hp Hroot Hk Hlen.
  assert (exists q, mem_pages m !! k = Some q) as [q Hq] by (unfold page_at in Hp; destruct (mem_pages m !! k); [eauto|done]).
  destruct (mi_pages m Hr _ _ Hq) as [Hkb _].
  enough (mem_nodes (SetMemoryRange addr r m).2 = mem_nodes m) as Hn.
  { unfold MerkleRoot, MerkleizeSubtree. rewrite (merkleize_known 28 1 root); [done|by split|]. by rewrite Hn. }
  assert (loadable m) as Hm.
  { split; [|split; apply Hr]. intros k' q' Hq'. destruct (mi_pages m Hr _ _ Hq') as [_ (p' & Hp' & _)]. eauto. }
  destruct (range_page_existing k q m Hm Hq ltac:(lia)) as (m1 & H1 & Hm1 & Hp1 & Hn1).
  unfold SetMemoryRange. cbn [set_range]. rewrite Hk. unfold bind at 1. rewrite H1.
  destruct r as [|b r]; [done|]. set (data := b :: r) in *.
  assert (Z.land addr PageAddrMask = addr mod 4096) as Hmask
    by (change PageAddrMask with (2 ^ 12 - 1); by rewrite land_mask).
  pose proof (Z.mod_pos_bound addr 4096 ltac:(lia)) as Hmb. pose proof (Z.div_mod addr 4096 ltac:(lia)) as Hdm.
  assert (addr / 4096 = k) as Hkd by (by rewrite Z.shiftr_div_pow2 in Hk).
  change MaxPageCount with 1048576 in Hkb.
  rewrite Hmask, (take_ge data) by (change PageSize with 4096; lia).
  destruct (on_page_table q (write_page (Z.to_nat (addr mod 4096)) data) m1 Hm1) as (a & m2 & Ho & Hm2 & Hp2 & Hn2).
  { exists k. congruence. }
  { intros p'. by eexists _, _. }
  unfold bind at 1. rewrite Ho. rewrite (drop_ge data (length data)) by lia.
  rewrite u32_small by (subst data; cbn [length] in *; lia).
  destruct (length data) as [|n] eqn:El; [done|]. cbn [set_range].
  assert (Z.shiftr (addr + Z.of_nat (S n)) PageAddrSize = k) as ->.
  { rewrite Z.shiftr_div_pow2 by done. change (2 ^ PageAddrSize) with 4096. symmetry.
    apply Z.div_unique with (r := addr mod 4096 + Z.of_nat (S n)); lia. }
  destruct (range_page_existing k q m2 Hm2 ltac:(congruence) ltac:(change MaxPageCount with 1048576; lia)) as (m3 & H3 & Hm3 & Hp3 & Hn3).
  unfold bind. rewrite H3. cbn. congruence.
Qed.
End Reachable.
