(* ===== verification/Mips.v ===== *)
(** * The fault-proof VM

    [cannon/mipsevm]: the state of the VM and its encoding ([state.go]), the instrumented
    state and a step with its witness ([instrumented.go]), the instructions ([mips.go]), and
    the call data of the contracts for a witness ([witness.go]).  Registers and words are
    32-bit integers in [Z]. *)
From S2P Require Import Prelude GoErrors GoBytes EthTypes Geth Solabi MipsMemory.
From Stdlib Require Strings.String.
#[local] Open Scope Z_scope.

(** ** Words *)
Definition i32 (z : Z) : Z := if z <? 2147483648 then z else z - 4294967296.
Definition shl32 (x n : Z) : Z := if 32 <=? n then 0 else u32 (Z.shiftl x n).
Definition shr32 (x n : Z) : Z := if 32 <=? n then 0 else Z.shiftr x n.
Definition not32 (x : Z) : Z := 4294967295 - x.

(** [SE]: the sign extension of the low [idx] bits. *)
Definition SE (dat idx : Z) : Z :=
  let isSigned := negb (shr32 dat (u32 (idx - 1)) =? 0) in
  let signed := shl32 (u32 (shl32 1 (u32 (32 - idx)) - 1)) idx in
  let mask := u32 (shl32 1 idx - 1) in
  if isSigned then Z.lor (Z.land dat mask) signed else Z.land dat mask.

(** The loop of [clo] and [clz]. *)
Fixpoint leading_ones (fuel : nat) (rs i : Z) : result Z :=
  match fuel with
  | O => Panic
  | S fuel' =>
      if negb (Z.land rs 2147483648 =? 0) then leading_ones fuel' (shl32 rs 1) (u32 (i + 1)) else Ok i
  end.

(** [execute]: the function of a SPECIAL instruction, that of an immediate instruction being
    transformed into it, and the other opcodes. *)
Definition execute_fun (insn rs rt fun_ : Z) : result Z :=
  let shamt := Z.land (Z.shiftr insn 6) 31 in
  if fun_ =? 0x00 then Ok (shl32 rt shamt)
  else if fun_ =? 0x02 then Ok (shr32 rt shamt)
  else if fun_ =? 0x03 then Ok (SE (shr32 rt shamt) (u32 (32 - shamt)))
  else if fun_ =? 0x04 then Ok (shl32 rt (Z.land rs 31))
  else if fun_ =? 0x06 then Ok (shr32 rt (Z.land rs 31))
  else if fun_ =? 0x07 then Ok (SE (shr32 rt rs) (u32 (32 - rs)))
  else if existsb (Z.eqb fun_)
    [0x08; 0x09; 0x0a; 0x0b; 0x0c; 0x0f; 0x10; 0x11; 0x12; 0x13; 0x18; 0x19; 0x1a; 0x1b] then Ok rs
  else if (fun_ =? 0x20) || (fun_ =? 0x21) then Ok (u32 (rs + rt))
  else if (fun_ =? 0x22) || (fun_ =? 0x23) then Ok (u32 (rs - rt))
  else if fun_ =? 0x24 then Ok (Z.land rs rt)
  else if fun_ =? 0x25 then Ok (Z.lor rs rt)
  else if fun_ =? 0x26 then Ok (Z.lxor rs rt)
  else if fun_ =? 0x27 then Ok (not32 (Z.lor rs rt))
  else if fun_ =? 0x2a then Ok (if i32 rs <? i32 rt then 1 else 0)
  else if fun_ =? 0x2b then Ok (if rs <? rt then 1 else 0)
  else Panic.

Definition immediate_fun (opcode insn : Z) : Z :=
  if opcode =? 8 then 0x20
  else if opcode =? 9 then 0x21
  else if opcode =? 0xa then 0x2a
  else if opcode =? 0xb then 0x2b
  else if opcode =? 0xc then 0x24
  else if opcode =? 0xd then 0x25
  else if opcode =? 0xe then 0x26
  else Z.land insn 0x3f.

Definition execute (insn rs rt mem : Z) : result Z :=
  let opcode := Z.shiftr insn 26 in
  if (opcode =? 0) || ((8 <=? opcode) && (opcode <? 0xf)) then
    execute_fun insn rs rt (immediate_fun opcode insn)
  else if opcode =? 0x1c then
    let fun_ := Z.land insn 0x3f in
    if fun_ =? 0x2 then Ok (u32 (i32 rs * i32 rt))
    else if (fun_ =? 0x20) || (fun_ =? 0x21) then
      leading_ones 33 (if fun_ =? 0x20 then not32 rs else rs) 0
    else Panic
  else if opcode =? 0x0f then Ok (shl32 rt 16)
  else
    let byte_ := Z.land rs 3 * 8 in
    let half := Z.land rs 2 * 8 in
    if opcode =? 0x20 then Ok (SE (Z.land (shr32 mem (24 - byte_)) 0xff) 8)
    else if opcode =? 0x21 then Ok (SE (Z.land (shr32 mem (16 - half)) 0xffff) 16)
    else if opcode =? 0x22 then
      Ok (Z.lor (Z.land rt (not32 (shl32 0xffffffff byte_))) (shl32 mem byte_))
    else if opcode =? 0x23 then Ok mem
    else if opcode =? 0x24 then Ok (Z.land (shr32 mem (24 - byte_)) 0xff)
    else if opcode =? 0x25 then Ok (Z.land (shr32 mem (16 - half)) 0xffff)
    else if opcode =? 0x26 then
      Ok (Z.lor (Z.land rt (not32 (shr32 0xffffffff (24 - byte_)))) (shr32 mem (24 - byte_)))
    else if opcode =? 0x28 then
      Ok (Z.lor (Z.land mem (Z.lxor 0xffffffff (shl32 0xff (24 - byte_)))) (shl32 (Z.land rt 0xff) (24 - byte_)))
    else if opcode =? 0x29 then
      Ok (Z.lor (Z.land mem (Z.lxor 0xffffffff (shl32 0xffff (16 - half)))) (shl32 (Z.land rt 0xffff) (16 - half)))
    else if opcode =? 0x2a then
      Ok (Z.lor (Z.land mem (not32 (shr32 0xffffffff byte_))) (shr32 rt byte_))
    else if opcode =? 0x2b then Ok rt
    else if opcode =? 0x2e then
      Ok (Z.lor (Z.land mem (not32 (shl32 0xffffffff (24 - byte_)))) (shl32 rt (24 - byte_)))
    else if opcode =? 0x30 then Ok mem
    else if opcode =? 0x38 then Ok rt
    else Panic.

(** ** State *)
Record State := mkState {
  st_Memory : Memory;
  st_PreimageKey : Hash;
  st_PreimageOffset : Z;
  st_PC : Z;
  st_NextPC : Z;
  st_LO : Z;
  st_HI : Z;
  st_Heap : Z;
  st_ExitCode : Z;
  st_Exited : bool;
  st_Step : Z;
  st_Registers : list Z;
  st_LastHint : Data }.

Definition set_Memory (x : Memory) (s : State) : State :=
  mkState x (st_PreimageKey s) (st_PreimageOffset s) (st_PC s) (st_NextPC s) (st_LO s) (st_HI s) (st_Heap s) (st_ExitCode s) (st_Exited s) (st_Step s) (st_Registers s) (st_LastHint s).
Definition set_PreimageKey (x : Hash) (s : State) : State :=
  mkState (st_Memory s) x (st_PreimageOffset s) (st_PC s) (st_NextPC s) (st_LO s) (st_HI s) (st_Heap s) (st_ExitCode s) (st_Exited s) (st_Step s) (st_Registers s) (st_LastHint s).
Definition set_PreimageOffset (x : Z) (s : State) : State :=
  mkState (st_Memory s) (st_PreimageKey s) x (st_PC s) (st_NextPC s) (st_LO s) (st_HI s) (st_Heap s) (st_ExitCode s) (st_Exited s) (st_Step s) (st_Registers s) (st_LastHint s).
Definition set_PC (x : Z) (s : State) : State :=
  mkState (st_Memory s) (st_PreimageKey s) (st_PreimageOffset s) x (st_NextPC s) (st_LO s) (st_HI s) (st_Heap s) (st_ExitCode s) (st_Exited s) (st_Step s) (st_Registers s) (st_LastHint s).
Definition set_NextPC (x : Z) (s : State) : State :=
  mkState (st_Memory s) (st_PreimageKey s) (st_PreimageOffset s) (st_PC s) x (st_LO s) (st_HI s) (st_Heap s) (st_ExitCode s) (st_Exited s) (st_Step s) (st_Registers s) (st_LastHint s).
Definition set_LO (x : Z) (s : State) : State :=
  mkState (st_Memory s) (st_PreimageKey s) (st_PreimageOffset s) (st_PC s) (st_NextPC s) x (st_HI s) (st_Heap s) (st_ExitCode s) (st_Exited s) (st_Step s) (st_Registers s) (st_LastHint s).
Definition set_HI (x : Z) (s : State) : State :=
  mkState (st_Memory s) (st_PreimageKey s) (st_PreimageOffset s) (st_PC s) (st_NextPC s) (st_LO s) x (st_Heap s) (st_ExitCode s) (st_Exited s) (st_Step s) (st_Registers s) (st_LastHint s).
Definition set_Heap (x : Z) (s : State) : State :=
  mkState (st_Memory s) (st_PreimageKey s) (st_PreimageOffset s) (st_PC s) (st_NextPC s) (st_LO s) (st_HI s) x (st_ExitCode s) (st_Exited s) (st_Step s) (st_Registers s) (st_LastHint s).
Definition set_ExitCode (x : Z) (s : State) : State :=
  mkState (st_Memory s) (st_PreimageKey s) (st_PreimageOffset s) (st_PC s) (st_NextPC s) (st_LO s) (st_HI s) (st_Heap s) x (st_Exited s) (st_Step s) (st_Registers s) (st_LastHint s).
Definition set_Exited (x : bool) (s : State) : State :=
  mkState (st_Memory s) (st_PreimageKey s) (st_PreimageOffset s) (st_PC s) (st_NextPC s) (st_LO s) (st_HI s) (st_Heap s) (st_ExitCode s) x (st_Step s) (st_Registers s) (st_LastHint s).
Definition set_Step (x : Z) (s : State) : State :=
  mkState (st_Memory s) (st_PreimageKey s) (st_PreimageOffset s) (st_PC s) (st_NextPC s) (st_LO s) (st_HI s) (st_Heap s) (st_ExitCode s) (st_Exited s) x (st_Registers s) (st_LastHint s).
Definition set_Registers (x : list Z) (s : State) : State :=
  mkState (st_Memory s) (st_PreimageKey s) (st_PreimageOffset s) (st_PC s) (st_NextPC s) (st_LO s) (st_HI s) (st_Heap s) (st_ExitCode s) (st_Exited s) (st_Step s) x (st_LastHint s).
Definition set_LastHint (x : Data) (s : State) : State :=
  mkState (st_Memory s) (st_PreimageKey s) (st_PreimageOffset s) (st_PC s) (st_NextPC s) (st_LO s) (st_HI s) (st_Heap s) (st_ExitCode s) (st_Exited s) (st_Step s) (st_Registers s) x.

(** [State.EncodeWitness]; the root is computed on the way. *)
Definition encode_state (memRoot : Hash) (s : State) : Data :=
  be_encode 32 memRoot ++
  be_encode 32 (st_PreimageKey s) ++
  be_encode 4 (st_PreimageOffset s) ++
  be_encode 4 (st_PC s) ++
  be_encode 4 (st_NextPC s) ++
  be_encode 4 (st_LO s) ++
  be_encode 4 (st_HI s) ++
  be_encode 4 (st_Heap s) ++
  be_encode 1 (st_ExitCode s) ++
  [if st_Exited s then Byte.x01 else Byte.x00] ++
  be_encode 8 (st_Step s) ++
  concat (be_encode 4 <$> st_Registers s).
Definition EncodeWitness `{Keccak} : M State Data :=
  memRoot <- zoom st_Memory set_Memory MerkleRoot ;;
  s <- get ;;
  ret (encode_state memRoot s).

(** ** Instrumentation *)
Definition sysMmap : Z := 4090.
Definition sysBrk : Z := 4045.
Definition sysClone : Z := 4120.
Definition sysExitGroup : Z := 4246.
Definition sysRead : Z := 4003.
Definition sysWrite : Z := 4004.
Definition sysFcntl : Z := 4055.

Definition fdStdin : Z := 0.
Definition fdStdout : Z := 1.
Definition fdStderr : Z := 2.
Definition fdHintRead : Z := 3.
Definition fdHintWrite : Z := 4.
Definition fdPreimageRead : Z := 5.
Definition fdPreimageWrite : Z := 6.

Definition MipsEBADF : Z := 0x9.
Definition MipsEINVAL : Z := 0x16.

Class PreimageOracle (Q : Type) := {
  oracle_Hint : Data -> M Q unit;
  oracle_GetPreimage : Hash -> M Q Data }.

(** [StepWitness]. *)
Record StepWitness := mkWitness {
  wit_State : Data;
  wit_MemProof : Data;
  wit_PreimageKey : Hash;
  wit_PreimageValue : Data;
  wit_PreimageOffset : Z }.

Section VM.
Context `{Keccak} {Q : Type} `{PreimageOracle Q}.

Record InstrumentedState := mkInstrumented {
  is_state : State;
  is_stdOut : Data;
  is_stdErr : Data;
  is_lastMemAccess : Z;
  is_memProofEnabled : bool;
  is_memProof : Data;
  is_preimageOracle : Q;
  is_lastPreimage : Data;
  is_lastPreimageKey : Hash;
  is_lastPreimageOffset : Z }.

Definition set_state (x : State) (s : InstrumentedState) : InstrumentedState :=
  mkInstrumented x (is_stdOut s) (is_stdErr s) (is_lastMemAccess s) (is_memProofEnabled s) (is_memProof s) (is_preimageOracle s) (is_lastPreimage s) (is_lastPreimageKey s) (is_lastPreimageOffset s).
Definition set_stdOut (x : Data) (s : InstrumentedState) : InstrumentedState :=
  mkInstrumented (is_state s) x (is_stdErr s) (is_lastMemAccess s) (is_memProofEnabled s) (is_memProof s) (is_preimageOracle s) (is_lastPreimage s) (is_lastPreimageKey s) (is_lastPreimageOffset s).
Definition set_stdErr (x : Data) (s : InstrumentedState) : InstrumentedState :=
  mkInstrumented (is_state s) (is_stdOut s) x (is_lastMemAccess s) (is_memProofEnabled s) (is_memProof s) (is_preimageOracle s) (is_lastPreimage s) (is_lastPreimageKey s) (is_lastPreimageOffset s).
Definition set_lastMemAccess (x : Z) (s : InstrumentedState) : InstrumentedState :=
  mkInstrumented (is_state s) (is_stdOut s) (is_stdErr s) x (is_memProofEnabled s) (is_memProof s) (is_preimageOracle s) (is_lastPreimage s) (is_lastPreimageKey s) (is_lastPreimageOffset s).
Definition set_memProofEnabled (x : bool) (s : InstrumentedState) : InstrumentedState :=
  mkInstrumented (is_state s) (is_stdOut s) (is_stdErr s) (is_lastMemAccess s) x (is_memProof s) (is_preimageOracle s) (is_lastPreimage s) (is_lastPreimageKey s) (is_lastPreimageOffset s).
Definition set_memProof (x : Data) (s : InstrumentedState) : InstrumentedState :=
  mkInstrumented (is_state s) (is_stdOut s) (is_stdErr s) (is_lastMemAccess s) (is_memProofEnabled s) x (is_preimageOracle s) (is_lastPreimage s) (is_lastPreimageKey s) (is_lastPreimageOffset s).
Definition set_preimageOracle (x : Q) (s : InstrumentedState) : InstrumentedState :=
  mkInstrumented (is_state s) (is_stdOut s) (is_stdErr s) (is_lastMemAccess s) (is_memProofEnabled s) (is_memProof s) x (is_lastPreimage s) (is_lastPreimageKey s) (is_lastPreimageOffset s).
Definition set_lastPreimage (x : Data) (s : InstrumentedState) : InstrumentedState :=
  mkInstrumented (is_state s) (is_stdOut s) (is_stdErr s) (is_lastMemAccess s) (is_memProofEnabled s) (is_memProof s) (is_preimageOracle s) x (is_lastPreimageKey s) (is_lastPreimageOffset s).
Definition set_lastPreimageKey (x : Hash) (s : InstrumentedState) : InstrumentedState :=
  mkInstrumented (is_state s) (is_stdOut s) (is_stdErr s) (is_lastMemAccess s) (is_memProofEnabled s) (is_memProof s) (is_preimageOracle s) (is_lastPreimage s) x (is_lastPreimageOffset s).
Definition set_lastPreimageOffset (x : Z) (s : InstrumentedState) : InstrumentedState :=
  mkInstrumented (is_state s) (is_stdOut s) (is_stdErr s) (is_lastMemAccess s) (is_memProofEnabled s) (is_memProof s) (is_preimageOracle s) (is_lastPreimage s) (is_lastPreimageKey s) x.

(** Code on parts of the state; the register [i]. *)
Definition on_state {A} (m : M State A) : M InstrumentedState A := zoom is_state set_state m.
Definition on_memory {A} (m : M Memory A) : M InstrumentedState A := on_state (zoom st_Memory set_Memory m).
Definition on_oracle {A} (m : M Q A) : M InstrumentedState A := zoom is_preimageOracle set_preimageOracle m.
Definition update (f : State -> State) : M InstrumentedState unit := modify (fun m => set_state (f (is_state m)) m).
Definition the_state : M InstrumentedState State := fun m => (Ok (is_state m), m).
Definition reg (i : Z) (s : State) : Z := nth (Z.to_nat i) (st_Registers s) 0.
Definition set_reg (i v : Z) (s : State) : State := set_Registers (<[Z.to_nat i := v]> (st_Registers s)) s.

(** The two assignments that end most instructions. *)
Definition advance (s : State) : State := set_NextPC (u32 (st_NextPC s + 4)) (set_PC (st_NextPC s) s).

(** [readPreimage]: the data, and its length, at the offset of the length-prefixed
    preimage; the last preimage is cached. *)
Definition readPreimage (key : Hash) (offset : Z) : M InstrumentedState Data :=
  m <- get ;;
  (if negb (key =? is_lastPreimageKey m) then
     modify (set_lastPreimageKey key) ;;;
     data <- on_oracle (oracle_GetPreimage key) ;;
     modify (set_lastPreimage (be_encode 8 (Z.of_nat (length data)) ++ data))
   else ret tt) ;;;
  modify (set_lastPreimageOffset offset) ;;;
  m <- get ;;
  if Z.of_nat (length (is_lastPreimage m)) <? offset then lift Panic
  else ret (take 32 (drop (Z.to_nat offset) (is_lastPreimage m))).

(** [trackMemAccess]. *)
Definition trackMemAccess (effAddr : Z) : M InstrumentedState unit :=
  m <- get ;;
  if is_memProofEnabled m && negb (is_lastMemAccess m =? effAddr) then
    if negb (is_lastMemAccess m =? 4294967295) then lift Panic
    else
      modify (set_lastMemAccess effAddr) ;;;
      proof <- on_memory (MerkleProof effAddr) ;;
      modify (set_memProof proof)
  else ret tt.

(** The bytes copied into [dst] from [at_] on, as many as fit. *)
Definition copy_at (at_ : nat) (src dst : Data) : Data :=
  let bs := take (length dst - at_) src in splice at_ bs dst.

(** The loop over the buffered hints.  The slice of a hint that is longer than what is
    buffered, or the slice of what follows it, is out of range. *)
Fixpoint process_hints (fuel : nat) : M InstrumentedState unit :=
  match fuel with
  | O => lift Panic
  | S fuel' =>
      s <- the_state ;;
      let hints := st_LastHint s in
      if (length hints <? 4)%nat then ret tt
      else
        let hintLen := be_decode (take 4 hints) in
        if Z.of_nat (length hints) - 4 <=? hintLen then
          if Z.of_nat (length hints) - 4 <? hintLen then lift Panic
          else
            update (set_LastHint (drop (Z.to_nat (4 + hintLen)) hints)) ;;;
            on_oracle (oracle_Hint (take (Z.to_nat hintLen) (drop 4 hints))) ;;;
            process_hints fuel'
        else ret tt
  end.

(** The cases of [handleSyscall]: what is returned in the registers [v0] and [v1]. *)
Definition syscall_mmap (a0 a1 : Z) : M InstrumentedState (Z * Z) :=
  let sz := if negb (Z.land a1 PageAddrMask =? 0) then u32 (a1 + (PageSize - Z.land a1 PageAddrMask)) else a1 in
  if a0 =? 0 then
    s <- the_state ;;
    update (fun s => set_Heap (u32 (st_Heap s + sz)) s) ;;;
    ret (st_Heap s, 0)
  else ret (a0, 0).

Definition syscall_read (a0 a1 a2 : Z) : M InstrumentedState (Z * Z) :=
  if a0 =? fdStdin then ret (0, 0)
  else if a0 =? fdPreimageRead then
    let effAddr := Z.land a1 0xfffffffc in
    trackMemAccess effAddr ;;;
    mem <- on_memory (GetMemory effAddr) ;;
    s <- the_state ;;
    dat <- readPreimage (st_PreimageKey s) (st_PreimageOffset s) ;;
    let alignment := Z.land a1 3 in
    let space := u32 (4 - alignment) in
    let datLen := Z.min a2 (Z.min space (Z.of_nat (length dat))) in
    let outMem := copy_at (Z.to_nat alignment) (take (Z.to_nat datLen) dat) (be_encode 4 mem) in
    on_memory (SetMemory effAddr (be_decode outMem)) ;;;
    update (fun s => set_PreimageOffset (u32 (st_PreimageOffset s + datLen)) s) ;;;
    ret (datLen, 0)
  else if a0 =? fdHintRead then ret (a2, 0)
  else ret (0xffffffff, MipsEBADF).

Definition syscall_write (a0 a1 a2 : Z) : M InstrumentedState (Z * Z) :=
  if a0 =? fdStdout then
    data <- on_memory (ReadMemoryRange a1 a2) ;;
    modify (fun m => set_stdOut (is_stdOut m ++ data) m) ;;;
    ret (a2, 0)
  else if a0 =? fdStderr then
    data <- on_memory (ReadMemoryRange a1 a2) ;;
    modify (fun m => set_stdErr (is_stdErr m ++ data) m) ;;;
    ret (a2, 0)
  else if a0 =? fdHintWrite then
    hintData <- on_memory (ReadMemoryRange a1 a2) ;;
    update (fun s => set_LastHint (st_LastHint s ++ hintData) s) ;;;
    s <- the_state ;;
    process_hints (S (length (st_LastHint s))) ;;;
    ret (a2, 0)
  else if a0 =? fdPreimageWrite then
    let effAddr := Z.land a1 0xfffffffc in
    trackMemAccess effAddr ;;;
    mem <- on_memory (GetMemory effAddr) ;;
    s <- the_state ;;
    let key := be_encode 32 (st_PreimageKey s) in
    let alignment := Z.land a1 3 in
    let space := u32 (4 - alignment) in
    let a2 := Z.min space a2 in
    let key := copy_at 0 (drop (Z.to_nat a2) key) key in
    let key := copy_at (Z.to_nat (32 - a2)) (drop (Z.to_nat alignment) (be_encode 4 mem)) key in
    update (fun s => set_PreimageOffset 0 (set_PreimageKey (be_decode key) s)) ;;;
    ret (a2, 0)
  else ret (0xffffffff, MipsEBADF).

Definition syscall_fcntl (a0 a1 : Z) : Z * Z :=
  if a1 =? 3 then
    if (a0 =? fdStdin) || (a0 =? fdPreimageRead) || (a0 =? fdHintRead) then (0, 0)
    else if (a0 =? fdStdout) || (a0 =? fdStderr) || (a0 =? fdPreimageWrite) || (a0 =? fdHintWrite) then (1, 0)
    else (0xffffffff, MipsEBADF)
  else (0xffffffff, MipsEINVAL).

Definition handleSyscall : M InstrumentedState unit :=
  s <- the_state ;;
  let syscallNum := reg 2 s in
  let a0 := reg 4 s in
  let a1 := reg 5 s in
  let a2 := reg 6 s in
  if syscallNum =? sysExitGroup then
    update (fun s => set_ExitCode (a0 mod 256) (set_Exited true s))
  else
    v <- (if syscallNum =? sysMmap then syscall_mmap a0 a1
          else if syscallNum =? sysBrk then ret (0x40000000, 0)
          else if syscallNum =? sysClone then ret (1, 0)
          else if syscallNum =? sysRead then syscall_read a0 a1 a2
          else if syscallNum =? sysWrite then syscall_write a0 a1 a2
          else if syscallNum =? sysFcntl then ret (syscall_fcntl a0 a1)
          else ret (0, 0)) ;;
    update (fun s => advance (set_reg 7 v.2 (set_reg 2 v.1 s))).

(** [handleBranch]. *)
Definition branch_taken (opcode insn rs rt : Z) : bool :=
  if (opcode =? 4) || (opcode =? 5) then
    ((rs =? rt) && (opcode =? 4)) || (negb (rs =? rt) && (opcode =? 5))
  else if opcode =? 6 then i32 rs <=? 0
  else if opcode =? 7 then 0 <? i32 rs
  else if opcode =? 1 then
    let rtv := Z.land (Z.shiftr insn 16) 0x1f in
    if rtv =? 0 then i32 rs <? 0 else if rtv =? 1 then 0 <=? i32 rs else false
  else false.
Definition handleBranch (opcode insn rtReg rs : Z) : M InstrumentedState unit :=
  s <- the_state ;;
  if negb (st_NextPC s =? u32 (st_PC s + 4)) then lift Panic
  else
    let target := u32 (u32 (st_PC s + 4) + shl32 (SE (Z.land insn 0xffff) 16) 2) in
    update (fun s => set_NextPC (if branch_taken opcode insn rs (reg rtReg s) then target else u32 (st_NextPC s + 4))
                       (set_PC (st_NextPC s) s)).

(** [handleHiLo]. *)
Definition handleHiLo (fun_ rs rt storeReg : Z) : M InstrumentedState unit :=
  s <- the_state ;;
  val <- (if fun_ =? 0x10 then ret (st_HI s)
          else if fun_ =? 0x11 then update (set_HI rs) ;;; ret 0
          else if fun_ =? 0x12 then ret (st_LO s)
          else if fun_ =? 0x13 then update (set_LO rs) ;;; ret 0
          else if fun_ =? 0x18 then
            let acc := u64 (i32 rs * i32 rt) in
            update (fun s => set_LO (u32 acc) (set_HI (u32 (Z.shiftr acc 32)) s)) ;;; ret 0
          else if fun_ =? 0x19 then
            let acc := u64 (rs * rt) in
            update (fun s => set_LO (u32 acc) (set_HI (u32 (Z.shiftr acc 32)) s)) ;;; ret 0
          else if fun_ =? 0x1a then
            if rt =? 0 then lift Panic
            else update (fun s => set_LO (u32 (Z.quot (i32 rs) (i32 rt))) (set_HI (u32 (Z.rem (i32 rs) (i32 rt))) s)) ;;; ret 0
          else if fun_ =? 0x1b then
            if rt =? 0 then lift Panic
            else update (fun s => set_LO (rs / rt) (set_HI (rs mod rt) s)) ;;; ret 0
          else ret 0) ;;
  update (fun s => advance (if storeReg =? 0 then s else set_reg storeReg val s)).

(** [handleJump] and [handleRd]. *)
Definition handleJump (linkReg dest : Z) : M InstrumentedState unit :=
  s <- the_state ;;
  if negb (st_NextPC s =? u32 (st_PC s + 4)) then lift Panic
  else
    let prevPC := st_PC s in
    update (fun s =>
      let s := set_NextPC dest (set_PC (st_NextPC s) s) in
      if linkReg =? 0 then s else set_reg linkReg (u32 (prevPC + 8)) s).
Definition handleRd (storeReg val : Z) (conditional : bool) : M InstrumentedState unit :=
  if 32 <=? storeReg then lift Panic
  else update (fun s => advance (if negb (storeReg =? 0) && conditional then set_reg storeReg val s else s)).

(** The operands of an instruction: [rt], and the register that is written. *)
Definition operands (opcode insn : Z) (s : State) : Z * Z :=
  let rtReg := Z.land (Z.shiftr insn 16) 0x1f in
  if (opcode =? 0) || (opcode =? 0x1c) then (reg rtReg s, Z.land (Z.shiftr insn 11) 0x1f)
  else if opcode <? 0x20 then
    (if (opcode =? 0xc) || (opcode =? 0xd) || (opcode =? 0xe) then Z.land insn 0xffff
     else SE (Z.land insn 0xffff) 16, rtReg)
  else if (0x28 <=? opcode) || (opcode =? 0x22) || (opcode =? 0x26) then (reg rtReg s, rtReg)
  else (0, rtReg).

(** The rest of a step once the instruction, its operands and the word in memory are
    known. *)
Definition finish_step (insn rs rt mem rdReg rtReg storeAddr : Z) : M InstrumentedState unit :=
  let opcode := Z.shiftr insn 26 in
  val <- lift (execute insn rs rt mem) ;;
  let fun_ := Z.land insn 0x3f in
  if (opcode =? 0) && (8 <=? fun_) && (fun_ <? 0x1c) && ((fun_ =? 8) || (fun_ =? 9)) then
    handleJump (if fun_ =? 9 then rdReg else 0) rs
  else if (opcode =? 0) && (fun_ =? 0xa) then handleRd rdReg rs (rt =? 0)
  else if (opcode =? 0) && (fun_ =? 0xb) then handleRd rdReg rs (negb (rt =? 0))
  else if (opcode =? 0) && (fun_ =? 0xc) then handleSyscall
  else if (opcode =? 0) && (0x10 <=? fun_) && (fun_ <? 0x1c) then handleHiLo fun_ rs rt rdReg
  else
    (if (opcode =? 0x38) && negb (rtReg =? 0) then update (set_reg rtReg 1) else ret tt) ;;;
    (if negb (storeAddr =? 0xffffffff) then
       trackMemAccess storeAddr ;;; on_memory (SetMemory storeAddr val)
     else ret tt) ;;;
    handleRd rdReg val true.

(** [mipsStep] once the instruction is fetched; [s] is the state before, whose program
    counter and registers are still those of the machine. *)
Definition dispatch (insn : Z) (s : State) : M InstrumentedState unit :=
  let opcode := Z.shiftr insn 26 in
  if (opcode =? 2) || (opcode =? 3) then
    let target := Z.lor (Z.land (st_NextPC s) 0xf0000000) (shl32 (Z.land insn 0x03ffffff) 2) in
    handleJump (if opcode =? 3 then 31 else 0) target
  else
    let rtReg := Z.land (Z.shiftr insn 16) 0x1f in
    let rs := reg (Z.land (Z.shiftr insn 21) 0x1f) s in
    let '(rt, rdReg) := operands opcode insn s in
    if ((4 <=? opcode) && (opcode <? 8)) || (opcode =? 1) then handleBranch opcode insn rtReg rs
    else if 0x20 <=? opcode then
      let rs := u32 (rs + SE (Z.land insn 0xffff) 16) in
      let addr := Z.land rs 0xfffffffc in
      trackMemAccess addr ;;;
      mem <- on_memory (GetMemory addr) ;;
      let store := (0x28 <=? opcode) && negb (opcode =? 0x30) in
      finish_step insn rs rt mem (if store then 0 else rdReg) rtReg (if store then addr else 0xffffffff)
    else finish_step insn rs rt 0 rdReg rtReg 0xffffffff.

Definition mipsStep : M InstrumentedState unit :=
  s <- the_state ;;
  if st_Exited s then ret tt
  else
    update (fun s => set_Step (u64 (st_Step s + 1)) s) ;;;
    insn <- on_memory (GetMemory (st_PC s)) ;;
    dispatch insn s.

(** [InstrumentedState.Step]. *)
Definition Step (proof : bool) : M InstrumentedState (option StepWitness) :=
  modify (fun m => set_lastPreimageOffset 0xffffffff (set_lastMemAccess 0xffffffff (set_memProofEnabled proof m))) ;;;
  wit <- (if proof then
            s <- the_state ;;
            insnProof <- on_memory (MerkleProof (st_PC s)) ;;
            enc <- on_state EncodeWitness ;;
            ret (Some (enc, insnProof))
          else ret None) ;;
  mipsStep ;;;
  m <- get ;;
  ret (match wit with
       | None => None
       | Some (enc, insnProof) =>
           let memProof := insnProof ++ is_memProof m in
           Some (if negb (is_lastPreimageOffset m =? 0xffffffff)
                 then mkWitness enc memProof (is_lastPreimageKey m) (is_lastPreimage m) (is_lastPreimageOffset m)
                 else mkWitness enc memProof 0 [] 0)
       end).

(** [NewInstrumentedState]. *)
Definition NewInstrumentedState (state : State) (po : Q) : InstrumentedState :=
  mkInstrumented state [] [] 0 false (replicate 896 Byte.x00) po [] 0 0.
End VM.
Arguments InstrumentedState : clear implicits.

(** ** Calls of the contracts *)
Section Calls.
Context `{Keccak}.

(** The first four bytes of the hash of a signature. *)
Definition selector (signature : string) : Data := take 4 (be_encode 32 (Keccak256Hash (String.list_byte_of_string signature))).
Definition StepBytes4 : Data := selector "step(bytes,bytes)".
Definition CheatBytes4 : Data := selector "cheat(uint256,bytes32,bytes32,uint256)".
Definition LoadKeccak256PreimagePartBytes4 : Data := selector "loadKeccak256PreimagePart(uint256,bytes)".
Definition LoadLocalDataBytes4 : Data := selector "loadLocalData(uint256,bytes32,uint256,uint256)".

Definition uint32ToBytes32 (v : Z) : Data := replicate 28 Byte.x00 ++ be_encode 4 v.

Definition EncodeStepInput (wit : StepWitness) : Data :=
  let stateLen := Z.of_nat (length (wit_State wit)) in
  let abiStateLen := if negb (stateLen mod 32 =? 0) then stateLen + (32 - stateLen mod 32) else stateLen in
  let abiState := wit_State wit ++ replicate (Z.to_nat (abiStateLen - stateLen)) Byte.x00 in
  StepBytes4 ++
  uint32ToBytes32 (32 * 2) ++
  uint32ToBytes32 (u32 (32 * 2 + 32 + Z.of_nat (length abiState))) ++
  uint32ToBytes32 (u32 stateLen) ++
  abiState ++
  uint32ToBytes32 (u32 (Z.of_nat (length (wit_MemProof wit)))) ++
  wit_MemProof wit.

Definition HasPreimage (wit : StepWitness) : bool := negb (wit_PreimageKey wit =? 0).

Definition LocalKeyType : Z := 1.
Definition Keccak256KeyType : Z := 2.

(** [EncodePreimageOracleInput]; the value starts with its length, which must be there. *)
Definition EncodePreimageOracleInput (wit : StepWitness) : result Data :=
  if wit_PreimageKey wit =? 0 then Err (ErrNew "cannot encode pre-image oracle input, witness has no pre-image to proof")
  else
    let key := be_encode 32 (wit_PreimageKey wit) in
    let value := wit_PreimageValue wit in
    let keyType := be_decode (take 1 key) in
    if keyType =? LocalKeyType then
      if (40 <? length value)%nat then Err (ErrNew "local pre-image exceeds maximum size of 32 bytes")
      else if (length value <? 8)%nat then Panic
      else
        let preimagePart := drop 8 value in
        Ok (LoadLocalDataBytes4 ++ key ++ copy_at 0 preimagePart (replicate 32 Byte.x00) ++
            uint32ToBytes32 (u32 (Z.of_nat (length value) - 8)) ++ uint32ToBytes32 (wit_PreimageOffset wit))
    else if keyType =? Keccak256KeyType then
      if (length value <? 8)%nat then Panic
      else
        Ok (LoadKeccak256PreimagePartBytes4 ++ uint32ToBytes32 (wit_PreimageOffset wit) ++ uint32ToBytes32 (32 + 32) ++
            uint32ToBytes32 (u32 (Z.of_nat (length value) - 8)) ++ drop 8 value)
    else Err (ErrNew "unsupported pre-image type").
End Calls.
