(* ===== verification/MipsWords.v ===== *)
(** * Instructions of the VM on words

    The results of [execute] are words; the sign extension, the counting of leading bits
    and the loads and stores of parts of words, against arithmetic and against the bytes of
    the words. *)
From S2P Require Import Prelude GoErrors GoBytes EthTypes Geth Solabi Bits MipsMemory Mips.
#[local] Open Scope Z_scope.

(** ** Bytes of words *)
Lemma pow256_pow2 n : 256 ^ Z.of_nat n = 2 ^ (8 * Z.of_nat n).
Proof. by rewrite Z.pow_mul_r by lia. Qed.

Lemma be_decode_app a b : be_decode (a ++ b) = be_decode a * 2 ^ (8 * Z.of_nat (length b)) + be_decode b.
Proof.
  rewrite <- pow256_pow2. induction a as [|x a IH]; [done|]. cbn [app]. unfold be_decode; fold be_decode.
  rewrite IH, length_app, Nat2Z.inj_add, Z.pow_add_r by lia. lia.
Qed.

Lemma be_decode_below bs : 0 <= be_decode bs < 2 ^ (8 * Z.of_nat (length bs)).
Proof. rewrite <- pow256_pow2. apply be_decode_range. Qed.

Lemma be_shiftr a b : Z.shiftr (be_decode (a ++ b)) (8 * Z.of_nat (length b)) = be_decode a.
Proof.
  pose proof (be_decode_below b). rewrite be_decode_app, Z.shiftr_div_pow2 by lia.
  symmetry. apply Z.div_unique with (r := be_decode b); lia.
Qed.

Lemma be_land a b : Z.land (be_decode (a ++ b)) (2 ^ (8 * Z.of_nat (length b)) - 1) = be_decode b.
Proof.
  pose proof (be_decode_below b). rewrite be_decode_app, land_mask by lia.
  symmetry. apply Z.mod_unique_pos with (q := be_decode a); lia.
Qed.

Lemma be_lor a b : Z.lor (be_decode a * 2 ^ (8 * Z.of_nat (length b))) (be_decode b) = be_decode (a ++ b).
Proof. rewrite lor_low_high by (lia || apply be_decode_below). by rewrite be_decode_app. Qed.

(** The bytes above the mask. *)
Lemma be_land_high a b n :
  length (a ++ b) = n ->
  Z.land (be_decode (a ++ b)) (2 ^ (8 * Z.of_nat n) - 2 ^ (8 * Z.of_nat (length b))) =
  be_decode a * 2 ^ (8 * Z.of_nat (length b)).
Proof.
  intros <-. rewrite length_app, Nat2Z.inj_add.
  pose proof (be_decode_below a) as Ha. pose proof (be_decode_below b) as Hb.
  set (p := 8 * Z.of_nat (length b)) in *. set (q := 8 * Z.of_nat (length a)) in *.
  replace (2 ^ (8 * (Z.of_nat (length a) + Z.of_nat (length b))) - 2 ^ p) with (Z.shiftl (2 ^ q - 1) p)
    by (rewrite Z.shiftl_mul_pow2 by lia; replace (8 * _) with (q + p) by lia; rewrite Z.pow_add_r by lia; lia).
  rewrite be_decode_app. fold p. apply Z.bits_inj'. intros i Hi. rewrite <- lor_low_high by lia.
  rewrite Z.land_spec, Z.lor_spec, Z.shiftl_spec by lia.
  destruct (Z.lt_ge_cases i p).
  - rewrite (Z.testbit_neg_r _ (i - p)) by lia. by rewrite andb_false_r, Z.mul_pow2_bits_low by lia.
  - rewrite (testbit_above p (be_decode b)), orb_false_r by lia. rewrite Z.mul_pow2_bits by lia.
    rewrite <- Z.land_spec, land_mask, Z.mod_small by lia. done.
Qed.

Lemma be_decode_u32 bs : length bs = 4%nat -> is_u32 (be_decode bs).
Proof. intros Hl. pose proof (be_decode_range bs) as Hr. rewrite Hl in Hr. exact Hr. Qed.

(** A word is four bytes. *)
Lemma word_bytes w : is_u32 w -> exists x0 x1 x2 x3, w = be_decode [x0; x1; x2; x3].
Proof.
  intros Hw. pose proof (be_decode_encode_small 4 w Hw) as E. pose proof (length_be_encode 4 w) as Hl.
  destruct (be_encode 4 w) as [|x0 [|x1 [|x2 [|x3 [|]]]]]; try done. by exists x0, x1, x2, x3.
Qed.

(** ** Shifts and the sign extension *)
Lemma shl32_u32 x n : is_u32 (shl32 x n).
Proof. unfold shl32. case_if; [done|]. apply u32_is_u32. Qed.
Lemma shr32_u32 x n : is_u32 x -> 0 <= n -> is_u32 (shr32 x n).
Proof. intros Hx Hn. unfold shr32. case_if; [done|]. by apply shiftr_is_u32. Qed.
Lemma not32_u32 x : is_u32 x -> is_u32 (not32 x).
Proof. unfold is_u32, not32. lia. Qed.
#[local] Hint Resolve shl32_u32 shr32_u32 not32_u32 : words.

Lemma SE_u32 dat idx : is_u32 dat -> is_u32 (SE dat idx).
Proof. intros. unfold SE. case_if; auto with words. Qed.
#[local] Hint Resolve SE_u32 : words.

Lemma shl32_small x n : 0 <= x -> 0 <= n < 32 -> x * 2 ^ n < 4294967296 -> shl32 x n = x * 2 ^ n.
Proof.
  intros Hx Hn Hs. unfold shl32. destruct (Z.leb_spec 32 n); [lia|].
  rewrite Z.shiftl_mul_pow2 by lia. apply u32_small. pose proof (Z.pow_pos_nonneg 2 n). nia.
Qed.

Lemma shl32_1 n : 0 <= n <= 32 -> shl32 1 n = if n =? 32 then 0 else 2 ^ n.
Proof.
  intros Hn. destruct (Z.eqb_spec n 32) as [->|]; [done|]. rewrite shl32_small; [lia|lia|lia|].
  pose proof (Z.pow_lt_mono_r 2 n 32 ltac:(lia) ltac:(lia) ltac:(lia)). change (2 ^ 32) with 4294967296 in *. lia.
Qed.

(** The mask of the low [n] bits. *)
Lemma low_mask n : 0 <= n <= 32 -> u32 (shl32 1 n - 1) = 2 ^ n - 1.
Proof.
  intros Hn. rewrite shl32_1 by done. destruct (Z.eqb_spec n 32) as [->|]; [done|].
  pose proof (Z.pow_pos_nonneg 2 n ltac:(lia) ltac:(lia)).
  pose proof (Z.pow_lt_mono_r 2 n 32 ltac:(lia) ltac:(lia) ltac:(lia)). change (2 ^ 32) with 4294967296 in *.
  apply u32_small. lia.
Qed.

Lemma high_mask n : 1 <= n <= 32 -> shl32 (2 ^ (32 - n) - 1) n = 2 ^ 32 - 2 ^ n.
Proof.
  intros Hn. destruct (Z.eqb_spec n 32) as [->|]; [done|].
  pose proof (Z.pow_pos_nonneg 2 (32 - n) ltac:(lia) ltac:(lia)). pose proof (Z.pow_pos_nonneg 2 n ltac:(lia) ltac:(lia)).
  assert (2 ^ (32 - n) * 2 ^ n = 4294967296) by (rewrite <- Z.pow_add_r by lia; by replace (32 - n + n) with 32 by lia).
  change (2 ^ 32) with 4294967296. rewrite shl32_small; nia.
Qed.

(** The sign extension of a value of [idx] bits in two's complement. *)
Lemma SE_spec dat idx :
  1 <= idx <= 32 -> 0 <= dat < 2 ^ idx -> SE dat idx = if dat <? 2 ^ (idx - 1) then dat else dat + 2 ^ 32 - 2 ^ idx.
Proof.
  intros Hi Hd. unfold SE. rewrite (u32_small (idx - 1)), (u32_small (32 - idx)) by lia.
  rewrite low_mask, (low_mask (32 - idx)), high_mask, land_mask by lia. rewrite (Z.mod_small dat) by lia.
  assert (shr32 dat (idx - 1) = dat / 2 ^ (idx - 1)) as ->.
  { unfold shr32. destruct (Z.leb_spec 32 (idx - 1)); [lia|]. by rewrite Z.shiftr_div_pow2 by lia. }
  pose proof (Z.pow_pos_nonneg 2 (idx - 1) ltac:(lia) ltac:(lia)) as Hp.
  destruct (Z.ltb_spec dat (2 ^ (idx - 1))) as [Hl|Hl].
  - by rewrite Z.div_small by lia.
  - pose proof (Z.div_le_lower_bound dat (2 ^ (idx - 1)) 1 Hp ltac:(lia)) as H1.
    destruct (Z.eqb_spec (dat / 2 ^ (idx - 1)) 0); [lia|]. cbn [negb].
    assert (2 ^ 32 - 2 ^ idx = (2 ^ (32 - idx) - 1) * 2 ^ idx) as E.
    { rewrite Z.mul_sub_distr_r, <- Z.pow_add_r by lia. replace (32 - idx + idx) with 32 by lia. lia. }
    rewrite E, Z.lor_comm, lor_low_high by lia. lia.
Qed.

(** ** The loop of [clo] and [clz] *)

(** The loop ends after as many rounds as there are leading ones. *)
Lemma leading_ones_spec fuel rs i :
  is_u32 rs -> 0 <= i <= 32 -> rs mod 2 ^ i = 0 -> 32 - i < Z.of_nat fuel ->
  exists n, leading_ones fuel rs i = Ok (i + n) /\ 0 <= n <= 32 - i /\
    2 ^ 32 - 2 ^ (32 - n) <= rs /\ (n < 32 - i -> rs < 2 ^ 32 - 2 ^ (31 - n)).
Proof.
  revert rs i. induction fuel as [|fuel IH]; intros rs i Hrs Hi Hm Hf; [lia|]. cbn [leading_ones].
  change 2147483648 with (Z.shiftl 1 31). rewrite land_bit, <- odd_shiftr by lia.
  rewrite Z.shiftr_div_pow2 by lia. change (2 ^ 31) with 2147483648. change (2 ^ 32) with 4294967296 in *.
  pose proof (Z.div_mod rs 2147483648 ltac:(lia)) as Hdm. pose proof (Z.mod_pos_bound rs 2147483648 ltac:(lia)).
  destruct Hrs as [Hr1 Hr2]. destruct (Z.lt_ge_cases rs 2147483648) as [Hl|Hl].
  - rewrite Z.div_small by lia. cbn [Z.odd]. exists 0. rewrite Z.add_0_r.
    change (2 ^ (32 - 0)) with 4294967296. change (2 ^ (31 - 0)) with 2147483648. split_and!; [done|lia..].
  - assert (rs / 2147483648 = 1) as -> by lia. cbn [Z.odd].
    assert (i < 32) as Hi'.
    { destruct (decide (i = 32)) as [->|]; [|lia]. change (2 ^ 32) with 4294967296 in Hm. rewrite Z.mod_small in Hm by lia. lia. }
    assert (shl32 rs 1 = 2 * rs - 4294967296) as ->.
    { unfold shl32. cbn [Z.leb]. rewrite Z.shiftl_mul_pow2 by lia. unfold u32. symmetry. apply Z.mod_unique_pos with (q := 1); lia. }
    rewrite u32_small by lia.
    destruct (IH (2 * rs - 4294967296) (i + 1)) as (n & -> & Hn & H1 & H2); [unfold is_u32; lia|lia| |lia|].
    { rewrite Z.pow_add_r by lia. change (2 ^ 1) with 2.
      apply Z.div_exact in Hm; [|pose proof (Z.pow_pos_nonneg 2 i); lia].
      assert (2 ^ (31 - i) * (2 ^ i * 2) = 4294967296) as E.
      { rewrite Z.mul_assoc, <- Z.pow_add_r by lia. by replace (31 - i + i) with 31 by lia. }
      rewrite Hm, <- E. replace (2 * (2 ^ i * (rs / 2 ^ i)) - 2 ^ (31 - i) * (2 ^ i * 2)) with ((rs / 2 ^ i - 2 ^ (31 - i)) * (2 ^ i * 2)) by ring.
      apply Z.mod_mul. pose proof (Z.pow_pos_nonneg 2 i). lia. }
    exists (n + 1). replace (32 - (n + 1)) with (31 - n) by lia. replace (31 - (n + 1)) with (30 - n) by lia.
    replace (32 - n) with (Z.succ (31 - n)) in H1 by lia. rewrite Z.pow_succ_r in H1 by lia.
    split_and!; [f_equal; lia|lia|lia|lia|]. intros Hn'.
    replace (31 - n) with (Z.succ (30 - n)) in H2 by lia. rewrite Z.pow_succ_r in H2 by lia. lia.
Qed.

(** The loop of [clo] and [clz] ends, with the number of leading ones of the word: these
    bits are set and the next one, if there is one, is not. *)
Theorem count_leading_ones rs :
  is_u32 rs -> exists n, leading_ones 33 rs 0 = Ok n /\ 0 <= n <= 32 /\
    2 ^ 32 - 2 ^ (32 - n) <= rs /\ (n < 32 -> rs < 2 ^ 32 - 2 ^ (31 - n)).
Proof. intros Hr. apply (leading_ones_spec 33 rs 0 Hr); [lia|apply Z.mod_1_r|done]. Qed.

(** ** Results are words *)
Lemma byte_shift rs : 0 <= Z.land rs 3 * 8 <= 24.
Proof. change 3 with (2 ^ 2 - 1). rewrite land_mask by lia. pose proof (Z.mod_pos_bound rs (2 ^ 2)). lia. Qed.
Lemma half_bit rs : Z.land rs 2 = 2 * ((rs / 2) mod 2).
Proof.
  apply Z.bits_inj'. intros i Hi. rewrite Z.land_spec. change 2 with (2 ^ 1) at 1 3 4.
  rewrite <- land_mask, <- Z.shiftr_div_pow2, (Z.mul_comm (2 ^ 1)) by lia.
  destruct (decide (i = 1)) as [->|].
  - rewrite Z.mul_pow2_bits, Z.land_spec, Z.shiftr_spec by lia. done.
  - rewrite Z.pow2_bits_false, andb_false_r by lia. destruct (Z.lt_ge_cases i 1).
    + by rewrite Z.mul_pow2_bits_low by lia.
    + rewrite Z.mul_pow2_bits, land_mask by lia. symmetry. apply (testbit_above 1); [|lia].
      pose proof (Z.mod_pos_bound (Z.shiftr rs 1) (2 ^ 1)). lia.
Qed.
Lemma half_shift rs : 0 <= Z.land rs 2 * 8 <= 16.
Proof. rewrite half_bit. pose proof (Z.mod_pos_bound (rs / 2) 2). lia. Qed.
Lemma shamt_nonneg x : 0 <= Z.land x 31.
Proof. apply Z.land_nonneg. by right. Qed.

Lemma execute_fun_u32 insn rs rt fun_ v :
  is_u32 rs -> is_u32 rt -> execute_fun insn rs rt fun_ = Ok v -> is_u32 v.
Proof.
  intros Hrs Hrt. unfold execute_fun. cbv zeta.
  pose proof (shamt_nonneg (Z.shiftr insn 6)). pose proof (shamt_nonneg rs). pose proof (proj1 Hrs).
  repeat case_if; intros [= <-]; try done; auto with words.
Qed.

Lemma execute_u32 insn rs rt mem v :
  is_u32 rs -> is_u32 rt -> is_u32 mem -> execute insn rs rt mem = Ok v -> is_u32 v.
Proof.
  intros Hrs Hrt Hm. unfold execute. cbv zeta. pose proof (byte_shift rs). pose proof (half_shift rs).
  case_if; [by apply execute_fun_u32|]. case_if.
  { destruct (Z.land insn 63 =? 2); [intros [= <-]; apply u32_is_u32|].
    destruct ((Z.land insn 63 =? 32) || (Z.land insn 63 =? 33)); [|done].
    destruct (leading_ones_spec 33 (if Z.land insn 63 =? 32 then not32 rs else rs) 0) as (n & -> & Hn & _);
      [case_if; auto with words|lia|apply Z.mod_1_r|lia|]. intros [= <-]. unfold is_u32. lia. }
  repeat case_if; intros [= <-]; try done; auto 8 with words lia.
Qed.

(** ** Parts of words *)
Lemma shr_bytes a b : (length b < 4)%nat -> shr32 (be_decode (a ++ b)) (8 * Z.of_nat (length b)) = be_decode a.
Proof. intros Hb. unfold shr32. destruct (Z.leb_spec 32 (8 * Z.of_nat (length b))); [lia|]. apply be_shiftr. Qed.

Lemma shl_bytes a b :
  (length a < 4)%nat -> length (a ++ b) = 4%nat ->
  shl32 (be_decode (a ++ b)) (8 * Z.of_nat (length a)) = be_decode b * 2 ^ (8 * Z.of_nat (length a)).
Proof.
  intros Ha Hl. unfold shl32. destruct (Z.leb_spec 32 (8 * Z.of_nat (length a))); [lia|].
  rewrite length_app in Hl. pose proof (be_decode_below b) as Hb.
  rewrite be_decode_app, Z.shiftl_mul_pow2, Z.mul_add_distr_r, <- Z.mul_assoc, <- Z.pow_add_r by lia.
  replace (8 * Z.of_nat (length b) + 8 * Z.of_nat (length a)) with 32 by lia.
  unfold u32. change (2 ^ 32) with 4294967296. rewrite Z.add_comm, Z.mod_add by lia. apply Z.mod_small.
  set (p := 2 ^ (8 * Z.of_nat (length a))) in *. set (q := 2 ^ (8 * Z.of_nat (length b))) in *.
  assert (q * p = 4294967296) by (subst p q; rewrite <- Z.pow_add_r by lia;
    by replace (8 * Z.of_nat (length b) + 8 * Z.of_nat (length a)) with 32 by lia).
  assert (0 < p) by (apply Z.pow_pos_nonneg; lia). nia.
Qed.

(** The masks of the four positions of a byte, and of the two of a half word. *)
Lemma byte_masks k :
  (k < 4)%nat ->
  not32 (shl32 0xffffffff (8 * Z.of_nat k)) = 2 ^ (8 * Z.of_nat k) - 1 /\
  not32 (shr32 0xffffffff (24 - 8 * Z.of_nat k)) = 2 ^ 32 - 2 ^ (8 * Z.of_nat (S k)) /\
  not32 (shr32 0xffffffff (8 * Z.of_nat k)) = 2 ^ 32 - 2 ^ (8 * Z.of_nat (4 - k)) /\
  not32 (shl32 0xffffffff (24 - 8 * Z.of_nat k)) = 2 ^ (8 * Z.of_nat (3 - k)) - 1 /\
  Z.lxor 0xffffffff (shl32 0xff (24 - 8 * Z.of_nat k)) = Z.lor (2 ^ 32 - 2 ^ (8 * Z.of_nat (4 - k))) (2 ^ (8 * Z.of_nat (3 - k)) - 1).
Proof. intros Hk. destruct k as [|[|[|[|]]]]; [done..|lia]. Qed.

Lemma half_masks k :
  (k < 2)%nat ->
  Z.lxor 0xffffffff (shl32 0xffff (16 - 16 * Z.of_nat k)) =
    Z.lor (2 ^ 32 - 2 ^ (8 * Z.of_nat (4 - 2 * k))) (2 ^ (8 * Z.of_nat (2 - 2 * k)) - 1).
Proof. intros Hk. destruct k as [|[|]]; [done..|lia]. Qed.

(** The bytes of [bs] from [i] on replaced by [xs], computed with a mask. *)
Lemma insert_bytes bs xs i :
  (i + length xs <= length bs)%nat ->
  Z.lor (Z.land (be_decode bs)
          (Z.lor (2 ^ (8 * Z.of_nat (length bs)) - 2 ^ (8 * Z.of_nat (length bs - i)))
             (2 ^ (8 * Z.of_nat (length bs - i - length xs)) - 1)))
    (be_decode xs * 2 ^ (8 * Z.of_nat (length bs - i - length xs))) =
  be_decode (take i bs ++ xs ++ drop (i + length xs) bs).
Proof.
  intros Hi. rewrite Z.land_lor_distr_r.
  pose proof (be_land_high (take i bs) (drop i bs) (length bs)) as H1.
  pose proof (be_land (take (i + length xs) bs) (drop (i + length xs) bs)) as H2.
  rewrite take_drop, length_drop in H1, H2.
  replace (length bs - (i + length xs))%nat with (length bs - i - length xs)%nat in H2 by lia.
  rewrite H1, H2 by done. rewrite <- Z.lor_assoc, (Z.lor_comm _ (be_decode xs * _)).
  pose proof (be_lor xs (drop (i + length xs) bs)) as H3.
  pose proof (be_lor (take i bs) (xs ++ drop (i + length xs) bs)) as H4.
  rewrite length_app, length_drop in H4. rewrite length_drop in H3.
  replace (length bs - (i + length xs))%nat with (length bs - i - length xs)%nat in H3, H4 by lia.
  rewrite H3. replace (length xs + (length bs - i - length xs))%nat with (length bs - i)%nat in H4 by lia. exact H4.
Qed.

(** The bytes of [bs] from [i] on, [n] of them, on the right. *)
Lemma extract_bytes_shift bs i n :
  (i + n <= length bs)%nat ->
  Z.land (Z.shiftr (be_decode bs) (8 * Z.of_nat (length bs - i - n))) (2 ^ (8 * Z.of_nat n) - 1) = be_decode (take n (drop i bs)).
Proof.
  intros Hi. pose proof (be_shiftr (take (i + n) bs) (drop (i + n) bs)) as H1. rewrite take_drop, length_drop in H1.
  replace (length bs - (i + n))%nat with (length bs - i - n)%nat in H1 by lia. rewrite H1.
  pose proof (be_land (take i (take (i + n) bs)) (take n (drop i bs))) as H2.
  rewrite length_take, length_drop, Nat.min_l in H2 by lia. rewrite <- H2. do 2 f_equal.
  rewrite <- (take_drop i (take (i + n) bs)) at 1. f_equal. rewrite take_drop_commute. done.
Qed.

Lemma low_byte r rbs : length rbs = 4%nat -> be_decode rbs = r ->
  Z.land r 0xff = be_decode (drop 3 rbs) /\ Z.land r 0xffff = be_decode (drop 2 rbs).
Proof.
  intros Hl <-. pose proof (be_land (take 3 rbs) (drop 3 rbs)) as H1. pose proof (be_land (take 2 rbs) (drop 2 rbs)) as H2.
  rewrite take_drop, length_drop, Hl in H1, H2. by split.
Qed.

Lemma byte_index rs : Z.land rs 3 * 8 = 8 * Z.of_nat (Z.to_nat (rs mod 4)) /\ (Z.to_nat (rs mod 4) < 4)%nat.
Proof. change 3 with (2 ^ 2 - 1). rewrite land_mask by lia. pose proof (Z.mod_pos_bound rs (2 ^ 2)). change (2 ^ 2) with 4 in *. lia. Qed.
Lemma half_index rs :
  Z.land rs 2 * 8 = 16 * Z.of_nat (Z.to_nat ((rs / 2) mod 2)) /\ (Z.to_nat ((rs / 2) mod 2) < 2)%nat.
Proof. rewrite half_bit. pose proof (Z.mod_pos_bound (rs / 2) 2). lia. Qed.

Lemma extract_bytes bs i n :
  length bs = 4%nat -> (0 < i + n <= 4)%nat ->
  Z.land (shr32 (be_decode bs) (8 * Z.of_nat (4 - i - n))) (2 ^ (8 * Z.of_nat n) - 1) = be_decode (take n (drop i bs)).
Proof.
  intros Hb Hi. rewrite <- extract_bytes_shift, Hb by lia. unfold shr32.
  by destruct (Z.leb_spec 32 (8 * Z.of_nat (4 - i - n))); [lia|].
Qed.

(** The replacement of bytes for a value shifted into place. *)
Lemma store_bytes bs xs i :
  length bs = 4%nat -> (0 < length xs)%nat -> (i + length xs <= 4)%nat ->
  Z.lor (Z.land (be_decode bs)
          (Z.lor (2 ^ 32 - 2 ^ (8 * Z.of_nat (4 - i))) (2 ^ (8 * Z.of_nat (4 - i - length xs)) - 1)))
    (shl32 (be_decode xs) (8 * Z.of_nat (4 - i - length xs))) =
  be_decode (take i bs ++ xs ++ drop (i + length xs) bs).
Proof.
  intros Hb Hx Hi. rewrite shl32_small; [|apply be_decode_range|lia|].
  { pose proof (insert_bytes bs xs i) as Hins. rewrite Hb in Hins. by apply Hins. }
  pose proof (be_decode_below xs) as Hd. change 4294967296 with (2 ^ 32).
  apply Z.lt_le_trans with (2 ^ (8 * Z.of_nat (length xs)) * 2 ^ (8 * Z.of_nat (4 - i - length xs))).
  - apply Z.mul_lt_mono_pos_r; [apply Z.pow_pos_nonneg; lia|lia].
  - rewrite <- Z.pow_add_r by lia. apply Z.pow_le_mono_r; lia.
Qed.

(** What [execute] computes for an opcode. *)
Ltac opcode_eq Hop := unfold execute; rewrite Hop; reflexivity.

Section Parts.
Variables (insn rs : Z) (bs rbs : Data).
Hypotheses (Hb : length bs = 4%nat) (Hr : length rbs = 4%nat).
Let k := Z.to_nat (rs mod 4).
Let h := (2 * Z.to_nat ((rs / 2) mod 2))%nat.

Lemma byte_place : Z.land rs 3 * 8 = 8 * Z.of_nat k /\ 24 - Z.land rs 3 * 8 = 8 * Z.of_nat (4 - k - 1) /\ (k < 4)%nat.
Proof. destruct (byte_index rs) as [-> Hk]. fold k in Hk |- *. lia. Qed.
Lemma half_place : 16 - Z.land rs 2 * 8 = 8 * Z.of_nat (4 - h - 2) /\ (h <= 2)%nat.
Proof. destruct (half_index rs) as [-> Hh]. unfold h. lia. Qed.

Lemma execute_lbu : Z.shiftr insn 26 = 0x24 -> execute insn rs (be_decode rbs) (be_decode bs) = Ok (be_decode (take 1 (drop k bs))).
Proof.
  intros Hop. transitivity (Ok (Z.land (shr32 (be_decode bs) (24 - Z.land rs 3 * 8)) 0xff)); [opcode_eq Hop|].
  destruct byte_place as (_ & -> & Hk). f_equal. apply (extract_bytes bs k 1 Hb). lia.
Qed.
Lemma execute_lb : Z.shiftr insn 26 = 0x20 -> execute insn rs (be_decode rbs) (be_decode bs) = Ok (SE (be_decode (take 1 (drop k bs))) 8).
Proof.
  intros Hop. transitivity (Ok (SE (Z.land (shr32 (be_decode bs) (24 - Z.land rs 3 * 8)) 0xff) 8)); [opcode_eq Hop|].
  destruct byte_place as (_ & -> & Hk). do 2 f_equal. apply (extract_bytes bs k 1 Hb). lia.
Qed.
Lemma execute_lhu : Z.shiftr insn 26 = 0x25 -> execute insn rs (be_decode rbs) (be_decode bs) = Ok (be_decode (take 2 (drop h bs))).
Proof.
  intros Hop. transitivity (Ok (Z.land (shr32 (be_decode bs) (16 - Z.land rs 2 * 8)) 0xffff)); [opcode_eq Hop|].
  destruct half_place as (-> & Hh). f_equal. apply (extract_bytes bs h 2 Hb). lia.
Qed.
Lemma execute_lh : Z.shiftr insn 26 = 0x21 -> execute insn rs (be_decode rbs) (be_decode bs) = Ok (SE (be_decode (take 2 (drop h bs))) 16).
Proof.
  intros Hop. transitivity (Ok (SE (Z.land (shr32 (be_decode bs) (16 - Z.land rs 2 * 8)) 0xffff) 16)); [opcode_eq Hop|].
  destruct half_place as (-> & Hh). do 2 f_equal. apply (extract_bytes bs h 2 Hb). lia.
Qed.

Lemma execute_lwl : Z.shiftr insn 26 = 0x22 -> execute insn rs (be_decode rbs) (be_decode bs) = Ok (be_decode (drop k bs ++ drop (4 - k) rbs)).
Proof.
  intros Hop. transitivity (Ok (Z.lor (Z.land (be_decode rbs) (not32 (shl32 0xffffffff (Z.land rs 3 * 8)))) (shl32 (be_decode bs) (Z.land rs 3 * 8)))); [opcode_eq Hop|].
  destruct byte_place as (-> & _ & Hk). destruct (byte_masks k Hk) as (-> & _). f_equal.
  pose proof (be_land (take (4 - k) rbs) (drop (4 - k) rbs)) as H1. rewrite take_drop, length_drop, Hr in H1.
  replace (4 - (4 - k))%nat with k in H1 by lia. rewrite H1.
  pose proof (shl_bytes (take k bs) (drop k bs)) as H2. rewrite take_drop, length_take, Hb, Nat.min_l in H2 by lia.
  rewrite H2, Z.lor_comm by done. rewrite <- be_lor, length_drop, Hr. do 4 f_equal. lia.
Qed.
Lemma execute_lwr : Z.shiftr insn 26 = 0x26 -> execute insn rs (be_decode rbs) (be_decode bs) = Ok (be_decode (take (3 - k) rbs ++ take (k + 1) bs)).
Proof.
  intros Hop. transitivity (Ok (Z.lor (Z.land (be_decode rbs) (not32 (shr32 0xffffffff (24 - Z.land rs 3 * 8)))) (shr32 (be_decode bs) (24 - Z.land rs 3 * 8)))); [opcode_eq Hop|].
  destruct byte_place as (-> & E & Hk). destruct (byte_masks k Hk) as (_ & -> & _). f_equal.
  pose proof (be_land_high (take (3 - k) rbs) (drop (3 - k) rbs) 4) as H1. rewrite take_drop, length_drop, Hr in H1.
  change (8 * Z.of_nat 4) with 32 in H1. replace (4 - (3 - k))%nat with (S k) in H1 by lia. rewrite H1 by done.
  pose proof (shr_bytes (take (k + 1) bs) (drop (k + 1) bs)) as H2. rewrite take_drop, length_drop, Hb in H2.
  replace (24 - 8 * Z.of_nat k) with (8 * Z.of_nat (4 - (k + 1))) by lia. rewrite H2 by lia.
  rewrite <- be_lor, length_take, Hb. do 4 f_equal. lia.
Qed.

Lemma execute_sb : Z.shiftr insn 26 = 0x28 -> execute insn rs (be_decode rbs) (be_decode bs) = Ok (be_decode (take k bs ++ drop 3 rbs ++ drop (k + 1) bs)).
Proof.
  intros Hop. transitivity (Ok (Z.lor (Z.land (be_decode bs) (Z.lxor 0xffffffff (shl32 0xff (24 - Z.land rs 3 * 8)))) (shl32 (Z.land (be_decode rbs) 0xff) (24 - Z.land rs 3 * 8)))); [opcode_eq Hop|].
  destruct byte_place as (E1 & E & Hk). destruct (byte_masks k Hk) as (_ & _ & _ & _ & M).
  rewrite <- E1 in M. rewrite M, E, (proj1 (low_byte _ rbs Hr eq_refl)). f_equal.
  assert (length (drop 3 rbs) = 1%nat) as Hl by (rewrite length_drop; lia).
  pose proof (store_bytes bs (drop 3 rbs) k Hb) as Hs. rewrite Hl in Hs.
  replace (3 - k)%nat with (4 - k - 1)%nat by lia. apply Hs; lia.
Qed.
Lemma execute_sh : Z.shiftr insn 26 = 0x29 -> execute insn rs (be_decode rbs) (be_decode bs) = Ok (be_decode (take h bs ++ drop 2 rbs ++ drop (h + 2) bs)).
Proof.
  intros Hop. transitivity (Ok (Z.lor (Z.land (be_decode bs) (Z.lxor 0xffffffff (shl32 0xffff (16 - Z.land rs 2 * 8)))) (shl32 (Z.land (be_decode rbs) 0xffff) (16 - Z.land rs 2 * 8)))); [opcode_eq Hop|].
  destruct half_place as (E & Hh). destruct (half_index rs) as [E1 Hj]. pose proof (half_masks _ Hj) as M.
  rewrite <- E1 in M. rewrite M, E, (proj2 (low_byte _ rbs Hr eq_refl)). f_equal.
  assert (length (drop 2 rbs) = 2%nat) as Hl by (rewrite length_drop; lia).
  pose proof (store_bytes bs (drop 2 rbs) h Hb) as Hs. rewrite Hl in Hs. fold h.
  replace (2 - h)%nat with (4 - h - 2)%nat by lia. apply Hs; lia.
Qed.
Lemma execute_swl : Z.shiftr insn 26 = 0x2a -> execute insn rs (be_decode rbs) (be_decode bs) = Ok (be_decode (take k bs ++ take (4 - k) rbs)).
Proof.
  intros Hop. transitivity (Ok (Z.lor (Z.land (be_decode bs) (not32 (shr32 0xffffffff (Z.land rs 3 * 8)))) (shr32 (be_decode rbs) (Z.land rs 3 * 8)))); [opcode_eq Hop|].
  destruct byte_place as (-> & _ & Hk). destruct (byte_masks k Hk) as (_ & _ & -> & _). f_equal.
  pose proof (be_land_high (take k bs) (drop k bs) 4) as H1. rewrite take_drop, length_drop, Hb in H1.
  change (8 * Z.of_nat 4) with 32 in H1. rewrite H1 by done.
  pose proof (shr_bytes (take (4 - k) rbs) (drop (4 - k) rbs)) as H2. rewrite take_drop, length_drop, Hr in H2.
  replace (4 - (4 - k))%nat with k in H2 by lia. rewrite H2 by lia.
  rewrite <- be_lor, length_take, Hr. do 4 f_equal. lia.
Qed.
Lemma execute_swr : Z.shiftr insn 26 = 0x2e -> execute insn rs (be_decode rbs) (be_decode bs) = Ok (be_decode (drop (3 - k) rbs ++ drop (k + 1) bs)).
Proof.
  intros Hop. transitivity (Ok (Z.lor (Z.land (be_decode bs) (not32 (shl32 0xffffffff (24 - Z.land rs 3 * 8)))) (shl32 (be_decode rbs) (24 - Z.land rs 3 * 8)))); [opcode_eq Hop|].
  destruct byte_place as (-> & E & Hk). destruct (byte_masks k Hk) as (_ & _ & _ & -> & _). f_equal.
  pose proof (be_land (take (k + 1) bs) (drop (k + 1) bs)) as H1. rewrite take_drop, length_drop, Hb in H1.
  replace (3 - k)%nat with (4 - (k + 1))%nat by lia. rewrite H1.
  pose proof (shl_bytes (take (4 - (k + 1)) rbs) (drop (4 - (k + 1)) rbs)) as H2.
  rewrite take_drop, length_take, Hr, Nat.min_l in H2 by lia.
  replace (24 - 8 * Z.of_nat k) with (8 * Z.of_nat (4 - (k + 1))) by lia. rewrite H2, Z.lor_comm by (done || lia).
  rewrite <- be_lor, length_drop, Hb. done.
Qed.
End Parts.

(** Loads and stores of parts of words move the bytes they should.  With [bs] the bytes
    of the word in memory, [rbs] those of the register and [k] the position of the address
    in the word, a byte or a half word is extended from the bytes at [k]; [lwl] and [lwr]
    replace the left and the right part of the register by the bytes up to the ends of the
    word; and the stores replace the bytes of the word by those of the register. *)
Theorem partial_words insn rs bs rbs v :
  length bs = 4%nat -> length rbs = 4%nat -> execute insn rs (be_decode rbs) (be_decode bs) = Ok v ->
  let k := Z.to_nat (rs mod 4) in
  let h := (2 * Z.to_nat ((rs / 2) mod 2))%nat in
  let opcode := Z.shiftr insn 26 in
  (opcode = 0x20 -> v = SE (be_decode (take 1 (drop k bs))) 8) /\
  (opcode = 0x24 -> v = be_decode (take 1 (drop k bs))) /\
  (opcode = 0x21 -> v = SE (be_decode (take 2 (drop h bs))) 16) /\
  (opcode = 0x25 -> v = be_decode (take 2 (drop h bs))) /\
  (opcode = 0x22 -> v = be_decode (drop k bs ++ drop (4 - k) rbs)) /\
  (opcode = 0x26 -> v = be_decode (take (3 - k) rbs ++ take (k + 1) bs)) /\
  (opcode = 0x28 -> v = be_decode (take k bs ++ drop 3 rbs ++ drop (k + 1) bs)) /\
  (opcode = 0x29 -> v = be_decode (take h bs ++ drop 2 rbs ++ drop (h + 2) bs)) /\
  (opcode = 0x2a -> v = be_decode (take k bs ++ take (4 - k) rbs)) /\
  (opcode = 0x2e -> v = be_decode (drop (3 - k) rbs ++ drop (k + 1) bs)).
Proof.
  intros Hb Hr He k h opcode. subst opcode.
  split_and!; intros Hop; apply Ok_inj; rewrite <- He;
    eauto using execute_lb, execute_lbu, execute_lh, execute_lhu, execute_lwl, execute_lwr, execute_sb, execute_sh, execute_swl, execute_swr.
Qed.

(** ** Arithmetic shifts *)
Lemma SE_shift rt n : is_u32 rt -> 0 <= n < 32 -> SE (shr32 rt n) (u32 (32 - n)) = u32 (Z.shiftr (i32 rt) n).
Proof.
  intros [Hr1 Hr2] Hn. rewrite (u32_small (32 - n)) by lia.
  pose proof (Z.pow_pos_nonneg 2 n ltac:(lia) ltac:(lia)) as Hp.
  assert (2 ^ (32 - n) * 2 ^ n = 4294967296) as E1 by (rewrite <- Z.pow_add_r by lia; by replace (32 - n + n) with 32 by lia).
  assert (2 ^ (31 - n) * 2 ^ n = 2147483648) as E2 by (rewrite <- Z.pow_add_r by lia; by replace (31 - n + n) with 31 by lia).
  assert (shr32 rt n = rt / 2 ^ n) as ->.
  { unfold shr32. destruct (Z.leb_spec 32 n); [lia|]. by rewrite Z.shiftr_div_pow2 by lia. }
  pose proof (Z.div_mod rt (2 ^ n) ltac:(lia)) as Hdm. pose proof (Z.mod_pos_bound rt (2 ^ n) Hp) as Hmb.
  assert (0 <= rt / 2 ^ n < 2 ^ (32 - n)) as Hq by nia.
  rewrite SE_spec, Z.shiftr_div_pow2 by lia.
  replace (32 - n - 1) with (31 - n) by lia. change (2 ^ 32) with 4294967296. unfold i32.
  destruct (Z.ltb_spec rt 2147483648), (Z.ltb_spec (rt / 2 ^ n) (2 ^ (31 - n))); try nia.
  - rewrite u32_small; [done|]. pose proof (Z.div_pos rt (2 ^ n)). pose proof (Z.div_le_upper_bound rt (2 ^ n) rt). nia.
  - assert ((rt - 4294967296) / 2 ^ n = rt / 2 ^ n - 2 ^ (32 - n)) as ->.
    { symmetry. apply Z.div_unique with (r := rt mod 2 ^ n); nia. }
    unfold u32. apply Z.mod_unique_pos with (q := -1); [|lia]. nia.
Qed.

(** Shifts to the right are arithmetic where they should be.  [sra], and [srav] for
    amounts below 32, give the word of the signed value divided by the power of two and
    rounded down; [srav] does not reduce larger amounts modulo 32 as the instruction is
    specified to, and gives zero whatever the sign. *)
Theorem arithmetic_shift insn rs rt :
  is_u32 rs -> is_u32 rt -> Z.shiftr insn 26 = 0 ->
  let shamt := Z.land (Z.shiftr insn 6) 31 in
  (Z.land insn 0x3f = 0x03 -> execute insn rs rt 0 = Ok (u32 (Z.shiftr (i32 rt) shamt))) /\
  (Z.land insn 0x3f = 0x07 -> execute insn rs rt 0 = Ok (if rs <? 32 then u32 (Z.shiftr (i32 rt) rs) else 0)).
Proof.
  intros Hrs Hrt Hop shamt.
  assert (0 <= shamt < 32) as Hs.
  { subst shamt. change 31 with (2 ^ 5 - 1). rewrite land_mask by lia. apply Z.mod_pos_bound. lia. }
  split; intros Hf.
  - transitivity (Ok (SE (shr32 rt shamt) (u32 (32 - shamt)))); [|f_equal; by apply SE_shift].
    unfold execute. rewrite Hop. cbn [Z.eqb orb]. unfold immediate_fun. cbn [Z.eqb Pos.eqb]. rewrite Hf. reflexivity.
  - transitivity (Ok (SE (shr32 rt rs) (u32 (32 - rs)))).
    { unfold execute. rewrite Hop. cbn [Z.eqb orb]. unfold immediate_fun. cbn [Z.eqb Pos.eqb]. rewrite Hf. reflexivity. }
    f_equal. destruct (Z.ltb_spec rs 32); [apply SE_shift; [done|destruct Hrs; lia]|].
    unfold shr32. destruct (Z.leb_spec 32 rs); [|lia]. unfold SE.
    rewrite Z.land_0_l. replace (shr32 0 (u32 (u32 (32 - rs) - 1))) with 0; [done|].
    unfold shr32. case_if; [done|by rewrite Z.shiftr_0_l].
Qed.
