(* ===== verification/MipsSpec.v ===== *)
(** * The state of the VM stays well-formed

    The type invariant of the machine: the memory is sound, the program counters and the
    registers are words, the step counter has 64 bits, and the proof of a memory access has
    28 hashes.  Every part of a step keeps it. *)
From S2P Require Import Prelude GoErrors GoBytes EthTypes Geth Solabi Bits.
From S2P Require Import MipsMemory MipsPage MipsMemorySpec MipsMemoryTheorems Mips MipsWords.
#[local] Open Scope Z_scope.
#[export] Hint Resolve shl32_u32 shr32_u32 not32_u32 SE_u32 : words.

(** ** Memory *)
Section MemoryRules.
Context `{Keccak}.
Implicit Types mem : Memory.

Definition same_bytes mem mem' : Prop := forall a, mem_byte mem' a = mem_byte mem a.

Lemma same_bytes_word mem mem' a : same_bytes mem mem' -> mem_word mem' a = mem_word mem a.
Proof. intros Hs. unfold mem_word. f_equal. by apply mem_bytes_ext. Qed.
Lemma same_bytes_node mem mem' g : 1 <= g < 2 ^ 28 -> same_bytes mem mem' -> mem_node mem' g = mem_node mem g.
Proof. intros Hg Hs. by apply mem_node_ext. Qed.

Lemma wp_GetMemory addr (Q : Z -> Memory -> Prop) mem :
  mem_inv mem -> is_u32 addr ->
  (addr mod 4 = 0 -> forall mem', mem_inv mem' -> same_bytes mem mem' -> Q (mem_word mem addr) mem') ->
  wp (GetMemory addr) Q mem.
Proof.
  intros Hi Ha Hq. destruct (Z.eq_dec (addr mod 4) 0) as [E|E].
  - destruct (get_memory_spec addr mem Hi Ha E) as (mem' & Hg & Hi' & Hc). eapply wp_eq; [exact Hg|].
    apply Hq; [done..|]. intros a. by apply same_pages_byte, same_core_pages.
  - unfold GetMemory. rewrite land_3. apply Z.eqb_neq in E. by rewrite E.
Qed.

Lemma wp_SetMemory addr v (Q : unit -> Memory -> Prop) mem :
  mem_inv mem -> is_u32 addr ->
  (addr mod 4 = 0 -> forall mem', mem_inv mem' -> written mem mem' addr (be_encode 4 v) -> Q tt mem') ->
  wp (SetMemory addr v) Q mem.
Proof.
  intros Hi Ha Hq. destruct (Z.eq_dec (addr mod 4) 0) as [E|E].
  - destruct (set_memory_spec addr v mem Hi Ha E) as (mem' & Hg & Hi' & Hc). eapply wp_eq; [exact Hg|]. by apply Hq.
  - unfold SetMemory. rewrite land_3. apply Z.eqb_neq in E. by rewrite E.
Qed.

(** The proof of an address: the leaf and the siblings. *)
Definition proof_of mem addr : Data := concat (be_encode 32 <$> (mem_node mem (leaf_index addr) :: siblings mem addr 27)).

Lemma length_hashes (hs : list Hash) : length (concat (be_encode 32 <$> hs)) = (32 * length hs)%nat.
Proof. induction hs as [|x hs IH]; [done|]. cbn [fmap list_fmap concat length]. rewrite length_app, length_be_encode, IH. lia. Qed.

Lemma length_proof_of mem addr : length (proof_of mem addr) = 896%nat.
Proof. unfold proof_of. rewrite length_hashes. cbn [length]. by rewrite length_siblings. Qed.

Lemma wp_MerkleProof addr (Q : Data -> Memory -> Prop) mem :
  mem_inv mem -> is_u32 addr ->
  (forall mem', mem_inv mem' -> same_bytes mem mem' -> Q (proof_of mem addr) mem') ->
  wp (MerkleProof addr) Q mem.
Proof.
  intros Hi Ha Hq. destruct (merkle_proof_spec addr mem Hi Ha) as (mem' & Hm & Hi' & Hg). eapply wp_eq; [exact Hm|].
  apply Hq; [done|]. intros a. by apply same_pages_byte, grown_same.
Qed.

Lemma wp_MerkleRoot (Q : Hash -> Memory -> Prop) mem :
  mem_inv mem -> (forall mem', mem_inv mem' -> same_bytes mem mem' -> Q (mem_node mem 1) mem') -> wp MerkleRoot Q mem.
Proof.
  intros Hi Hq. destruct (hash_spec 1 mem Hi ltac:(lia)) as (mem' & Hm & Hi' & Hg). eapply wp_eq; [exact Hm|].
  apply Hq; [done|]. intros a. by apply same_pages_byte, grown_same.
Qed.

(** Looking a page up, and reading it. *)
Lemma wp_lookup k (Q : option nat * bool -> Memory -> Prop) mem :
  mem_inv mem -> 0 <= k < MaxPageCount ->
  (forall mem', mem_inv mem' -> same_bytes mem mem' -> Q (mem_pages mem' !! k, bool_decide (is_Some (mem_pages mem' !! k))) mem') ->
  wp (pageLookup k) Q mem.
Proof.
  intros Hi Hk Hq. destruct (lookup_spec k mem Hi Hk) as (mem' & Hl & Hi' & Hc). eapply wp_eq; [exact Hl|].
  pose proof Hc as (_ & <- & _). apply Hq; [done|]. intros a. by apply same_pages_byte, same_core_pages.
Qed.

Lemma on_page_read {A} q p (f : CachedPage -> result A) mem :
  mem_store mem !! q = Some p -> on_page (Some q) (fun p => (f p, p)) mem = (f p, mem).
Proof. intros Hq. unfold on_page. rewrite Hq, insert_id by done. by destruct mem. Qed.

Lemma page_of_u32 addr : is_u32 addr -> 0 <= Z.shiftr addr PageAddrSize < MaxPageCount.
Proof.
  intros [H1 H2]. rewrite Z.shiftr_div_pow2 by done. change (2 ^ PageAddrSize) with 4096. change MaxPageCount with 1048576.
  split; [apply Z.div_pos; lia|apply Z.div_lt_upper_bound; lia].
Qed.

(** A read by the reader; the loop over them. *)
Lemma wp_reader dest addr count (Q : Data * Z * Z -> Memory -> Prop) mem :
  mem_inv mem -> is_u32 addr -> count <> 0 ->
  (forall bs addr' count' mem', mem_inv mem' -> same_bytes mem mem' -> is_u32 addr' -> Q (bs, addr', count') mem') ->
  wp (memReader_Read dest addr count) Q mem.
Proof.
  intros Hi Ha Hc Hq. unfold memReader_Read. apply Z.eqb_neq in Hc. rewrite Hc. cbv zeta. apply wp_bind.
  apply wp_lookup; [done|by apply page_of_u32|]. intros mem' Hi' Hs. cbn [fst snd].
  destruct (mem_pages mem' !! Z.shiftr addr PageAddrSize) as [q|] eqn:Eq.
  - rewrite bool_decide_true by done. destruct (mi_pages mem' Hi' _ _ Eq) as [_ (p & Hp & _)].
    apply wp_bind. eapply wp_eq; [by apply on_page_read, Hp|]. destruct (_ <? Z.land addr PageAddrMask); [done|]. apply wp_ret, Hq; [done..|apply u32_is_u32].
  - rewrite bool_decide_false by (by intros []). apply wp_bind, wp_ret, wp_ret, Hq; [done..|apply u32_is_u32].
Qed.

Lemma wp_read_all fuel addr count acc (Q : Data -> Memory -> Prop) mem :
  mem_inv mem -> is_u32 addr -> (forall bs mem', mem_inv mem' -> same_bytes mem mem' -> Q bs mem') ->
  wp (read_all fuel addr count acc) Q mem.
Proof.
  revert addr count acc mem. induction fuel as [|fuel IH]; intros addr count acc mem Hi Ha Hq; [done|]. cbn [read_all].
  apply wp_bind. destruct (Z.eq_dec count 0) as [->|Hc].
  { eapply wp_eq; [reflexivity|]. by apply Hq. }
  eapply wp_mono with (Q := fun r mem' => exists bs addr' count', r = inl (bs, addr', count') /\ mem_inv mem' /\ same_bytes mem mem' /\ is_u32 addr').
  - apply wp_attempt.
    + apply wp_reader; [done..|]. intros bs addr' count' mem' ? ? ?. by exists bs, addr', count'.
    + intros e mem' He. exfalso. revert He. unfold memReader_Read. apply Z.eqb_neq in Hc. rewrite Hc. cbv zeta.
      destruct (lookup_spec _ mem Hi (page_of_u32 addr Ha)) as (mem1 & Hl & _). unfold bind at 1. rewrite Hl. cbn [fst snd].
      destruct (mem_pages mem !! Z.shiftr addr PageAddrSize) as [q|]; [|by rewrite bool_decide_false by (by intros [])].
      rewrite bool_decide_true by done. unfold bind, on_page. destruct (mem_store mem1 !! q); [|done].
      by destruct (_ <? Z.land addr PageAddrMask).
  - intros r mem' (bs & addr' & count' & -> & Hi' & Hs & Ha'). apply IH; [done..|].
    intros bs' mem'' Hi'' Hs''. apply Hq; [done|]. intros a. by rewrite Hs'', Hs.
Qed.

Lemma wp_ReadMemoryRange addr count (Q : Data -> Memory -> Prop) mem :
  mem_inv mem -> is_u32 addr -> (forall bs mem', mem_inv mem' -> same_bytes mem mem' -> Q bs mem') ->
  wp (ReadMemoryRange addr count) Q mem.
Proof. apply wp_read_all. Qed.
End MemoryRules.

(** ** The machine *)
Record state_ok `{Keccak} (s : State) : Prop := {
  so_mem : mem_inv (st_Memory s);
  so_key : is_hash (st_PreimageKey s);
  so_offset : is_u32 (st_PreimageOffset s);
  so_pc : is_u32 (st_PC s);
  so_next : is_u32 (st_NextPC s);
  so_lo : is_u32 (st_LO s);
  so_hi : is_u32 (st_HI s);
  so_heap : is_u32 (st_Heap s);
  so_exit : 0 <= st_ExitCode s < 256;
  so_step : is_u64 (st_Step s);
  so_regs : length (st_Registers s) = 32%nat;
  so_words : Forall is_u32 (st_Registers s);
  so_zero : reg 0 s = 0 }.

Section VMSpec.
Context `{Keccak} {Q : Type} `{PreimageOracle Q}.
Implicit Types m : InstrumentedState Q.

Definition vm_ok m : Prop := state_ok (is_state m) /\ length (is_memProof m) = 896%nat.

Lemma reg_u32 i s : state_ok s -> is_u32 (reg i s).
Proof.
  intros Hs. unfold reg. rewrite nth_lookup. destruct (st_Registers s !! Z.to_nat i) as [v|] eqn:E; [|done].
  eapply Forall_lookup_1; [apply Hs|done].
Qed.

Lemma set_reg_ok i v s : state_ok s -> 0 < i -> is_u32 v -> state_ok (set_reg i v s).
Proof.
  intros [] Hi Hv. split; cbn; try done; [by rewrite length_insert|by apply Forall_insert|].
  unfold reg in *. cbn [set_reg set_Registers st_Registers]. change (Z.to_nat 0) with 0%nat in *.
  rewrite nth_lookup in *. by rewrite list_lookup_insert_ne by lia.
Qed.

(** Each setter keeps the state well-formed. *)
Lemma set_Memory_ok x s : state_ok s -> mem_inv x -> state_ok (set_Memory x s).
Proof. by intros [] ?; split. Qed.
Lemma set_PreimageKey_ok x s : state_ok s -> is_hash x -> state_ok (set_PreimageKey x s).
Proof. by intros [] ?; split. Qed.
Lemma set_PreimageOffset_ok x s : state_ok s -> is_u32 x -> state_ok (set_PreimageOffset x s).
Proof. by intros [] ?; split. Qed.
Lemma set_PC_ok x s : state_ok s -> is_u32 x -> state_ok (set_PC x s).
Proof. by intros [] ?; split. Qed.
Lemma set_NextPC_ok x s : state_ok s -> is_u32 x -> state_ok (set_NextPC x s).
Proof. by intros [] ?; split. Qed.
Lemma set_LO_ok x s : state_ok s -> is_u32 x -> state_ok (set_LO x s).
Proof. by intros [] ?; split. Qed.
Lemma set_HI_ok x s : state_ok s -> is_u32 x -> state_ok (set_HI x s).
Proof. by intros [] ?; split. Qed.
Lemma set_Heap_ok x s : state_ok s -> is_u32 x -> state_ok (set_Heap x s).
Proof. by intros [] ?; split. Qed.
Lemma set_exit_ok x b s : state_ok s -> 0 <= x < 256 -> state_ok (set_ExitCode x (set_Exited b s)).
Proof. by intros [] ?; split. Qed.
Lemma set_Step_ok x s : state_ok s -> state_ok (set_Step (u64 x) s).
Proof. intros []; split; try done. apply u64_range. Qed.
Lemma set_LastHint_ok x s : state_ok s -> state_ok (set_LastHint x s).
Proof. by intros []; split. Qed.
Lemma advance_ok s : state_ok s -> state_ok (advance s).
Proof. intros Hs. apply set_NextPC_ok; [apply set_PC_ok; [done|apply Hs]|apply u32_is_u32]. Qed.
#[local] Hint Resolve set_reg_ok set_Memory_ok set_PreimageKey_ok set_PreimageOffset_ok set_PC_ok set_NextPC_ok set_LO_ok
  set_HI_ok set_Heap_ok set_exit_ok set_Step_ok set_LastHint_ok advance_ok so_next so_pc so_hi so_lo so_heap reg_u32 : words.
#[local] Hint Extern 3 (0 < _) => lia : words.

(** Calls on the state and on its memory. *)
Definition with_memory (mem : Memory) m : InstrumentedState Q := set_state (set_Memory mem (is_state m)) m.

Lemma wp_update f (P : unit -> InstrumentedState Q -> Prop) m : P tt (set_state (f (is_state m)) m) -> wp (update f) P m.
Proof. done. Qed.
Lemma wp_the_state (P : State -> InstrumentedState Q -> Prop) m : P (is_state m) m -> wp the_state P m.
Proof. done. Qed.
Lemma wp_on_memory {A} (f : M Memory A) (P : A -> InstrumentedState Q -> Prop) m :
  wp f (fun a mem => P a (with_memory mem m)) (st_Memory (is_state m)) -> wp (on_memory f) P m.
Proof. intros Hw. apply wp_zoom, wp_zoom. exact Hw. Qed.
Lemma wp_on_oracle {A} (f : M Q A) (P : A -> InstrumentedState Q -> Prop) m :
  (forall a q, f (is_preimageOracle m) = (Ok a, q) -> P a (set_preimageOracle q m)) -> wp (on_oracle f) P m.
Proof. intros Hw. apply wp_zoom, wp_intro, Hw. Qed.

Lemma update_ok f m : vm_ok m -> (state_ok (is_state m) -> state_ok (f (is_state m))) -> wp (update f) (fun _ => vm_ok) m.
Proof. intros [Hs Hp] Hf. apply wp_update. split; [by apply Hf|done]. Qed.
Lemma with_memory_ok mem m : vm_ok m -> mem_inv mem -> vm_ok (with_memory mem m).
Proof. intros [Hs Hp] Hm. split; [by apply set_Memory_ok|done]. Qed.

(** *** Handlers *)
Lemma handleJump_ok linkReg dest m : vm_ok m -> 0 <= linkReg -> is_u32 dest -> wp (handleJump linkReg dest) (fun _ => vm_ok) m.
Proof.
  intros Hm Hl Hd. apply wp_bind, wp_the_state. wp_step; [done|]. apply update_ok; [done|]. intros Hs. cbv zeta. case_if; eauto 8 with words.
Qed.

Lemma handleRd_ok storeReg val c m : vm_ok m -> 0 <= storeReg -> is_u32 val -> wp (handleRd storeReg val c) (fun _ => vm_ok) m.
Proof.
  intros Hm Hst Hv. unfold handleRd. wp_step; [done|]. apply update_ok; [done|]. intros Hs. case_if; eauto with words.
Qed.

Lemma handleBranch_ok opcode insn rtReg rs m : vm_ok m -> wp (handleBranch opcode insn rtReg rs) (fun _ => vm_ok) m.
Proof.
  intros Hm. apply wp_bind, wp_the_state. wp_step; [done|]. apply update_ok; [done|]. intros Hs. cbv zeta. case_if; eauto 8 with words.
Qed.

Lemma handleHiLo_ok fun_ rs rt storeReg m :
  vm_ok m -> is_u32 rs -> is_u32 rt -> 0 <= storeReg -> wp (handleHiLo fun_ rs rt storeReg) (fun _ => vm_ok) m.
Proof.
  intros Hm Hrs Hrt Hst. apply wp_bind, wp_the_state, wp_bind. pose proof (proj1 Hm) as Hs.
  eapply wp_mono with (Q := fun val m' => is_u32 val /\ vm_ok m').
  - repeat (wp_step; try done); try (split; [eauto with words|done]).
    all: apply wp_update, wp_ret; split; [done|]; split; [cbn [is_state set_state]; eauto with words|apply Hm].
    apply set_LO_ok; [apply set_HI_ok; [done|]|].
    + pose proof (Z.mod_pos_bound rs rt). unfold is_u32 in *. lia.
    + pose proof (Z.div_pos rs rt). pose proof (Z.div_le_upper_bound rs rt rs). unfold is_u32 in *. nia.
  - intros val m' [Hv Hm']. apply update_ok; [done|]. intros Hs'. case_if; eauto with words.
Qed.

(** *** Calls that leave the registers alone *)

(** The parts of a machine about the proof of the access, and about the preimage. *)
Definition same_proof m m' : Prop :=
  is_memProof m' = is_memProof m /\ is_lastMemAccess m' = is_lastMemAccess m /\ is_memProofEnabled m' = is_memProofEnabled m.
Definition same_preimage m m' : Prop :=
  is_lastPreimage m' = is_lastPreimage m /\ is_lastPreimageKey m' = is_lastPreimageKey m /\
  is_lastPreimageOffset m' = is_lastPreimageOffset m.

Lemma wp_track addr (P : unit -> InstrumentedState Q -> Prop) m :
  mem_inv (st_Memory (is_state m)) -> is_u32 addr ->
  (is_memProofEnabled m = false \/ is_lastMemAccess m = addr -> P tt m) ->
  (is_memProofEnabled m = true -> is_lastMemAccess m = 4294967295 ->
   forall mem', mem_inv mem' -> same_bytes (st_Memory (is_state m)) mem' ->
     P tt (set_memProof (proof_of (st_Memory (is_state m)) addr) (with_memory mem' (set_lastMemAccess addr m)))) ->
  wp (trackMemAccess addr) P m.
Proof.
  intros Hi Ha Hsame Hnew. unfold trackMemAccess. do 2 wp_step. wp_step.
  - wp_step; [done|]. wp_steps. apply wp_on_memory, wp_MerkleProof; [done|done|]. intros mem' Hi' Hs. apply wp_modify. by apply Hnew.
  - apply Hsame. apply andb_false_iff in E as [|E]; [by left|right]. by apply negb_false_iff, Z.eqb_eq in E.
Qed.

Lemma wp_readPreimage key offset (P : Data -> InstrumentedState Q -> Prop) m :
  (forall m', is_state m' = is_state m -> same_proof m m' -> is_lastPreimageKey m' = key -> is_lastPreimageOffset m' = offset ->
     offset <= Z.of_nat (length (is_lastPreimage m')) ->
     P (take 32 (drop (Z.to_nat offset) (is_lastPreimage m'))) m') ->
  wp (readPreimage key offset) P m.
Proof.
  intros Hp. unfold readPreimage. do 3 wp_step. wp_step.
  - do 2 wp_step. wp_step. apply wp_on_oracle. intros data q Hq. wp_steps. by apply Hp.
  - wp_steps. by apply Hp.
Qed.

Lemma wp_process_hints fuel (P : unit -> InstrumentedState Q -> Prop) m :
  (forall m' hints, is_state m' = set_LastHint hints (is_state m) -> same_proof m m' -> same_preimage m m' -> P tt m') ->
  wp (process_hints fuel) P m.
Proof.
  revert m. induction fuel as [|fuel IH]; intros m Hp; [done|]. cbn [process_hints].
  assert (P tt m) as Hm by (apply (Hp m (st_LastHint (is_state m))); [by destruct (is_state m)|done..]).
  apply wp_bind, wp_the_state. wp_step; [done|]. wp_step; [|done]. wp_step; [done|].
  apply wp_bind, wp_update, wp_bind, wp_on_oracle. intros [] q _. apply IH. intros m' hints Hs Hpr Hpre. by apply (Hp m' hints).
Qed.

(** Addresses of words. *)
Lemma align_word x : is_u32 x -> is_u32 (Z.land x 0xfffffffc) /\ Z.land x 0xfffffffc mod 4 = 0 /\ Z.land x 0xfffffffc <> 4294967295.
Proof.
  intros Hx. assert (Z.land x 0xfffffffc mod 4 = 0) as E.
  { change 4 with (2 ^ 2). rewrite <- land_mask, <- Z.land_assoc by lia. apply Z.land_0_r. }
  split; [by apply land_is_u32|]. split; [done|]. intros E'. by rewrite E' in E.
Qed.

Lemma set_memProof_ok proof m : vm_ok m -> length proof = 896%nat -> vm_ok (set_memProof proof m).
Proof. by intros [Hs _] Hl. Qed.

Lemma trackMemAccess_ok addr m : vm_ok m -> is_u32 addr -> wp (trackMemAccess addr) (fun _ => vm_ok) m.
Proof.
  intros Hm Ha. apply wp_track; [apply Hm|done|done|]. intros _ _ mem' Hi' _.
  apply set_memProof_ok; [|apply length_proof_of]. by apply with_memory_ok.
Qed.

Lemma GetMemory_ok addr m :
  vm_ok m -> is_u32 addr -> wp (on_memory (GetMemory addr)) (fun v m' => is_u32 v /\ vm_ok m') m.
Proof.
  intros Hm Ha. apply wp_on_memory, wp_GetMemory; [apply Hm|done|]. intros _ mem' Hi' _.
  split; [|by apply with_memory_ok]. apply be_decode_u32, length_mem_bytes.
Qed.

Lemma SetMemory_ok addr v m : vm_ok m -> is_u32 addr -> wp (on_memory (SetMemory addr v)) (fun _ => vm_ok) m.
Proof. intros Hm Ha. apply wp_on_memory, wp_SetMemory; [apply Hm|done|]. intros _ mem' Hi' _. by apply with_memory_ok. Qed.

Lemma ReadMemoryRange_ok addr count m :
  vm_ok m -> is_u32 addr -> wp (on_memory (ReadMemoryRange addr count)) (fun _ => vm_ok) m.
Proof. intros Hm Ha. apply wp_on_memory, wp_ReadMemoryRange; [apply Hm|done|]. intros bs mem' Hi' _. by apply with_memory_ok. Qed.

Lemma wp_bind_ok {A B} (f : M (InstrumentedState Q) A) (g : A -> M (InstrumentedState Q) B) R P m :
  wp f R m -> (forall a m', R a m' -> wp (g a) P m') -> wp (bind f g) P m.
Proof. intros Hf Hg. apply wp_bind. by eapply wp_mono. Qed.

(** *** System calls: two words are returned, and the machine stays well-formed. *)
Definition returns_words (v : Z * Z) m : Prop := is_u32 v.1 /\ is_u32 v.2 /\ vm_ok m.

Lemma returns_const v m : vm_ok m -> is_u32 v.1 -> is_u32 v.2 -> wp (ret v) returns_words m.
Proof. by intros; apply wp_ret. Qed.

Lemma syscall_mmap_ok a0 a1 m : vm_ok m -> is_u32 a0 -> wp (syscall_mmap a0 a1) returns_words m.
Proof.
  intros Hm Ha. unfold syscall_mmap. cbv zeta. case_if; [|by apply returns_const].
  apply wp_bind, wp_the_state, wp_bind, wp_update, wp_ret.
  split; [apply Hm|split; [done|split; [|apply Hm]]]. apply set_Heap_ok; [apply Hm|apply u32_is_u32].
Qed.

Lemma syscall_read_ok a0 a1 a2 m :
  vm_ok m -> is_u32 a1 -> is_u32 a2 -> wp (syscall_read a0 a1 a2) returns_words m.
Proof.
  intros Hm Ha1 Ha2. unfold syscall_read. destruct (align_word a1 Ha1) as (Hal & _).
  wp_step; [by apply returns_const|]. wp_step; [|wp_step; by apply returns_const].
  eapply wp_bind_ok; [by apply trackMemAccess_ok|]. intros [] m1 Hm1.
  eapply wp_bind_ok; [by apply GetMemory_ok|]. intros mem m2 [_ Hm2].
  apply wp_bind, wp_the_state, wp_bind, wp_readPreimage. intros m3 Hs3 (Hp3 & _) _ _ _.
  assert (vm_ok m3) as Hm3 by (split; [rewrite Hs3|rewrite Hp3]; apply Hm2).
  eapply wp_bind_ok; [by apply SetMemory_ok|]. intros [] m4 Hm4.
  apply wp_bind, wp_update, wp_ret. cbv zeta. split; [|split; [done|split; [|apply Hm4]]].
  - cbn [fst]. pose proof (u32_is_u32 (4 - Z.land a1 3)). unfold is_u32 in *. lia.
  - apply set_PreimageOffset_ok; [apply Hm4|apply u32_is_u32].
Qed.

Lemma length_splice_at at_ src (dst : Data) : (at_ <= length dst)%nat -> length (copy_at at_ src dst) = length dst.
Proof.
  intros Hl. unfold copy_at, splice. rewrite !length_app, length_drop, !length_take. lia.
Qed.

Lemma syscall_write_ok a0 a1 a2 m :
  vm_ok m -> is_u32 a1 -> is_u32 a2 -> wp (syscall_write a0 a1 a2) returns_words m.
Proof.
  intros Hm Ha1 Ha2. unfold syscall_write. destruct (align_word a1 Ha1) as (Hal & _).
  do 2 (wp_step; [eapply wp_bind_ok; [by apply ReadMemoryRange_ok|]; intros data m1 Hm1; by wp_steps|]).
  wp_step.
  { eapply wp_bind_ok; [by apply ReadMemoryRange_ok|]. intros data m1 Hm1.
    apply wp_bind, wp_update, wp_bind, wp_the_state, wp_bind, wp_process_hints. intros m2 hints Hs2 (Hp2 & _) _.
    apply wp_ret. split; [done|split; [done|split; [|rewrite Hp2; apply Hm1]]].
    rewrite Hs2. do 2 apply set_LastHint_ok. apply Hm1. }
  wp_step; [|by apply returns_const].
  eapply wp_bind_ok; [by apply trackMemAccess_ok|]. intros [] m1 Hm1.
  eapply wp_bind_ok; [by apply GetMemory_ok|]. intros mem m2 [_ Hm2].
  apply wp_bind, wp_the_state, wp_bind, wp_update, wp_ret. cbv zeta. split; [|split; [done|split; [|apply Hm2]]].
  - cbn [fst]. pose proof (u32_is_u32 (4 - Z.land a1 3)). unfold is_u32 in *. lia.
  - apply set_PreimageOffset_ok; [|done]. apply set_PreimageKey_ok; [apply Hm2|].
    set (key := copy_at _ _ _). assert (length key = 32%nat) as Hl.
    { subst key. pose proof (u32_is_u32 (4 - Z.land a1 3)). unfold is_u32 in *.
      rewrite !length_splice_at; rewrite ?length_splice_at, ?length_be_encode; try done; lia. }
    pose proof (be_decode_range key) as Hr. rewrite Hl in Hr. exact Hr.
Qed.

Lemma syscall_fcntl_words a0 a1 : is_u32 (syscall_fcntl a0 a1).1 /\ is_u32 (syscall_fcntl a0 a1).2.
Proof. unfold syscall_fcntl. repeat case_if; done. Qed.

Lemma handleSyscall_ok m : vm_ok m -> wp handleSyscall (fun _ => vm_ok) m.
Proof.
  intros Hm. apply wp_bind, wp_the_state. cbv zeta. pose proof (fun i => reg_u32 i _ (proj1 Hm)) as Hr. wp_step.
  { apply update_ok; [done|]. intros Hs. apply set_exit_ok; [done|]. apply Z.mod_pos_bound. lia. }
  eapply wp_bind_ok with (R := returns_words).
  - repeat wp_step; auto using syscall_mmap_ok, syscall_read_ok, syscall_write_ok.
    all: split; [|split; [|exact Hm]]; (apply syscall_fcntl_words || done).
  - intros v m' (H1 & H2 & Hm'). apply update_ok; [done|]. auto with words.
Qed.

(** *** The step *)
Lemma field_nonneg x n : 0 <= n -> 0 <= Z.land x n.
Proof. intros. apply Z.land_nonneg. by right. Qed.

Lemma operands_words opcode insn s : state_ok s -> is_u32 (operands opcode insn s).1 /\ 0 <= (operands opcode insn s).2.
Proof.
  intros Hs. pose proof (field_nonneg (Z.shiftr insn 16) 0x1f). pose proof (field_nonneg (Z.shiftr insn 11) 0x1f). unfold operands. cbv zeta. pose proof (fun i => reg_u32 i _ Hs) as Hr.
  assert (is_u32 (Z.land insn 0xffff)) by (apply land_r_is_u32; done).
  repeat case_if; cbn [fst snd]; auto with words lia.
  split; [done|lia].
Qed.

Lemma finish_step_ok insn rs rt mem rdReg rtReg storeAddr m :
  vm_ok m -> is_u32 rs -> is_u32 rt -> is_u32 mem -> 0 <= rdReg -> 0 <= rtReg -> is_u32 storeAddr ->
  wp (finish_step insn rs rt mem rdReg rtReg storeAddr) (fun _ => vm_ok) m.
Proof.
  intros Hm Hrs Hrt Hmem Hrd Hrg Hst. unfold finish_step. cbv zeta. apply wp_bind, wp_lift. intros val Hv.
  apply execute_u32 in Hv; [|done..].
  do 5 (wp_step; [apply handleJump_ok || (apply handleRd_ok || (apply handleSyscall_ok || apply handleHiLo_ok)); (done || by case_if)|]).
  eapply wp_bind_ok with (R := fun _ => vm_ok).
  { wp_step; [|by apply wp_ret]. apply update_ok; [done|]. intros Hs. apply set_reg_ok; [done|lia|done]. }
  intros [] m1 Hm1. eapply wp_bind_ok with (R := fun _ => vm_ok).
  { wp_step; [|by apply wp_ret]. eapply wp_bind_ok; [by apply trackMemAccess_ok|]. intros [] m2 Hm2. by apply SetMemory_ok. }
  intros [] m2 Hm2. by apply handleRd_ok.
Qed.

Lemma mipsStep_ok m : vm_ok m -> wp mipsStep (fun _ => vm_ok) m.
Proof.
  intros Hm. pose proof (fun i => reg_u32 i _ (proj1 Hm)) as Hr. apply wp_bind, wp_the_state. wp_step; [done|].
  eapply wp_bind_ok; [apply update_ok; [done|]; by intros; apply set_Step_ok|]. intros [] m1 Hm1.
  eapply wp_bind_ok; [apply GetMemory_ok; [done|apply Hm]|]. intros insn m2 [Hi Hm2]. unfold dispatch. cbv zeta.
  pose proof (operands_words (Z.shiftr insn 26) insn _ (proj1 Hm)) as Ho.
  destruct (operands _ _ _) as [rt rdReg]. cbn [fst snd] in Ho.
  destruct Ho as [Hrt Hrd]. pose proof (field_nonneg (Z.shiftr insn 16) 0x1f). wp_step.
  { apply handleJump_ok; [done|by case_if|]. apply lor_is_u32; [by apply land_is_u32, Hm|apply shl32_u32]. }
  wp_step; [by apply handleBranch_ok|]. wp_step; [|apply finish_step_ok; (done || by apply field_nonneg)].
  set (rs := u32 (reg _ _ + _)). assert (is_u32 rs) as Hrs by apply u32_is_u32. destruct (align_word rs Hrs) as (Hal & _).
  eapply wp_bind_ok; [by apply trackMemAccess_ok|]. intros [] m3 Hm3.
  eapply wp_bind_ok; [by apply GetMemory_ok|]. intros mem m4 [Hmem Hm4].
  apply finish_step_ok; (done || by case_if || by apply field_nonneg).
Qed.
End VMSpec.

(** * Properties of the VM *)


Section Machine.
Context `{Keccak} {Q : Type} `{PreimageOracle Q}.
Implicit Types m : InstrumentedState Q.

Lemma length_words n (ws : list Z) : length (concat (be_encode n <$> ws)) = (n * length ws)%nat.
Proof. induction ws as [|w ws IH]; cbn [fmap list_fmap concat length]; [lia|]. rewrite length_app, length_be_encode, IH. lia. Qed.

Lemma length_encode_state root s : state_ok s -> length (encode_state root s) = 226%nat.
Proof.
  intros Hs. unfold encode_state. rewrite !length_app, !length_be_encode, length_words, (so_regs s Hs). done.
Qed.

(** What [EncodeWitness] gives on the machine. *)
Lemma wp_EncodeWitness (P : Data -> InstrumentedState Q -> Prop) m :
  mem_inv (st_Memory (is_state m)) ->
  (forall mem', mem_inv mem' -> same_bytes (st_Memory (is_state m)) mem' ->
     P (encode_state (mem_node (st_Memory (is_state m)) 1) (is_state m)) (with_memory mem' m)) ->
  wp (on_state EncodeWitness) P m.
Proof.
  intros Hi Hp. apply wp_zoom. unfold EncodeWitness. apply wp_bind, wp_zoom, wp_MerkleRoot; [done|].
  intros mem' Hi' Hs. apply wp_bind, wp_get, wp_ret. cbv beta. by apply Hp.
Qed.

Lemma start_ok proof m :
  vm_ok m -> vm_ok (set_lastPreimageOffset 0xffffffff (set_lastMemAccess 0xffffffff (set_memProofEnabled proof m))).
Proof. done. Qed.

(** The sizes of a witness: 226 bytes of state, and two proofs of 28 hashes. *)
Definition witness_sized (proof : bool) (wit : option StepWitness) : Prop :=
  match wit with
  | Some w => proof = true /\ length (wit_State w) = 226%nat /\ length (wit_MemProof w) = 1792%nat
  | None => proof = false
  end.

(** C12: the machine is well-typed.  A step that succeeds keeps the registers, the program
    counters and the other fields in their widths, register zero at zero, the memory
    sound, and the proof of the access at 28 hashes; and the witness of a step with proof
    has an encoded state of 226 bytes and two proofs of 28 hashes. *)
Theorem step_well_formed proof m wit m' :
  vm_ok m -> Step proof m = (Ok wit, m') ->
  vm_ok m' /\ witness_sized proof wit.
Proof.
  intros Hm. revert wit m'. enough (wp (Step proof) (fun wit m' => vm_ok m' /\ witness_sized proof wit) m) as Hw
    by (intros wit m' He; exact (wp_run _ _ _ _ _ Hw He)).
  unfold Step. apply wp_bind, wp_modify, wp_bind.
  set (m0 := set_lastPreimageOffset _ _). assert (vm_ok m0) as Hm0 by exact (start_ok proof m Hm). clearbody m0.
  eapply wp_mono with (Q := fun w m1 => vm_ok m1 /\ match w with
    | Some (enc, insnProof) => proof = true /\ length enc = 226%nat /\ length insnProof = 896%nat
    | None => proof = false end).
  - destruct proof; [|by apply wp_ret]. apply wp_bind, wp_the_state, wp_bind, wp_on_memory.
    apply wp_MerkleProof; [apply Hm0|apply Hm0|]. intros mem1 Hi1 _. apply wp_bind, wp_EncodeWitness; [done|].
    intros mem2 Hi2 _. apply wp_ret. split; [apply with_memory_ok; [by apply with_memory_ok|done]|]. split; [done|]. split; [|apply length_proof_of].
    apply length_encode_state, with_memory_ok; [done|exact Hi1].
  - intros w m1 [Hm1 Hw]. apply wp_bind. eapply wp_mono; [by apply mipsStep_ok|]. intros [] m2 Hm2.
    apply wp_bind, wp_get, wp_ret. split; [done|]. destruct w as [[enc insnProof]|]; [|done].
    destruct Hw as (-> & He & Hp). split; [done|]. pose proof (proj2 Hm2).
    destruct (negb _); cbn [wit_State wit_MemProof]; rewrite length_app; lia.
Qed.

(** Nothing moves after the exit.  Once the program has exited, a step changes neither
    the state of the machine nor anything that is recorded about it. *)
Theorem exited_is_final m : st_Exited (is_state m) = true -> mipsStep m = (Ok tt, m).
Proof. intros He. unfold mipsStep, bind, the_state. by rewrite He. Qed.

(** A branch or a jump is refused in the delay slot of another.  When the next program
    counter is not the address after the program counter and the instruction there is a
    branch or a direct jump, the step panics. *)
Theorem no_branch_in_delay_slot m :
  vm_ok m -> st_Exited (is_state m) = false -> st_PC (is_state m) mod 4 = 0 ->
  let insn := mem_word (st_Memory (is_state m)) (st_PC (is_state m)) in
  1 <= Z.shiftr insn 26 < 8 -> st_NextPC (is_state m) <> u32 (st_PC (is_state m) + 4) ->
  (mipsStep m).1 = Panic.
Proof.
  intros [Hs _] He Hal insn Hop Hn. unfold mipsStep, bind, the_state. rewrite He.
  unfold update at 1, modify at 1. cbv beta iota.
  set (m1 := set_state _ m). assert (st_PC (is_state m1) = st_PC (is_state m) /\ st_NextPC (is_state m1) = st_NextPC (is_state m) /\
    st_Memory (is_state m1) = st_Memory (is_state m)) as (E1 & E2 & E3) by done. clearbody m1.
  destruct (get_memory_spec (st_PC (is_state m)) (st_Memory (is_state m)) (so_mem _ Hs) (so_pc _ Hs) Hal) as (mem' & Hg & _ & Hc).
  unfold on_memory, on_state, zoom. rewrite E3, Hg. unfold dispatch. cbv zeta. fold insn.
  assert (forall linkReg dest m2, is_state m2 = set_Memory mem' (is_state m1) -> (handleJump linkReg dest m2).1 = Panic) as Hj.
  { intros linkReg dest m2 E. unfold handleJump, bind, the_state. rewrite E. cbn [set_Memory st_PC st_NextPC].
    rewrite E1, E2. apply Z.eqb_neq in Hn. by rewrite Hn. }
  assert (forall opcode i rtReg rs m2, is_state m2 = set_Memory mem' (is_state m1) -> (handleBranch opcode i rtReg rs m2).1 = Panic) as Hb.
  { intros opcode i rtReg rs m2 E. unfold handleBranch, bind, the_state. rewrite E. cbn [set_Memory st_PC st_NextPC].
    rewrite E1, E2. apply Z.eqb_neq in Hn. by rewrite Hn. }
  destruct (operands _ _ _) as [rt rdReg].
  destruct ((Z.shiftr insn 26 =? 2) || (Z.shiftr insn 26 =? 3)) eqn:E23; [by apply Hj|].
  assert (((4 <=? Z.shiftr insn 26) && (Z.shiftr insn 26 <? 8)) || (Z.shiftr insn 26 =? 1) = true) as ->; [|by apply Hb].
  apply orb_false_iff in E23 as [?%Z.eqb_neq ?%Z.eqb_neq].
  destruct (Z.eqb_spec (Z.shiftr insn 26) 1); [by rewrite orb_true_r|]. rewrite orb_false_r. apply andb_true_iff. lia.
Qed.
End Machine.
