(* ===== verification/MipsContract.v ===== *)
(** * The contracts that replay a step of the VM

    [contracts-bedrock/src/cannon]: the library [PreimageKeyLib.sol], the contract
    [PreimageOracle.sol] with its storage, and the contract [MIPS.sol], which replays a step
    from an encoded state and the proofs of two words of memory. *)
From S2P Require Import Prelude GoErrors GoBytes EthTypes Geth Solabi Evm MipsMemory Mips.
#[local] Open Scope Z_scope.

(** ** Keys of preimages *)
Module PreimageKeyLib.
Section Keys.
Context `{Keccak}.

(** A key with its first byte replaced. *)
Definition with_type (type : Z) (h : Hash) : Hash := Z.lor (Z.land h (not256 (shl256 248 0xFF))) (shl256 248 type).
Definition localize (sender key : Hash) : Hash := with_type 1 (Keccak256Hash (be_encode 32 key ++ be_encode 32 sender)).
Definition localizeIdent (sender ident : Hash) : Hash := localize sender (Z.lor (shl256 248 1) (Z.land ident (not256 (shl256 248 0xFF)))).
End Keys.
End PreimageKeyLib.

(** ** The oracle *)
Module PreimageOracle.
Record Storage := mkStorage {
  preimageLengths : gmap Z Z;
  preimageParts : gmap (Z * Z) Hash;
  preimagePartOk : gmap (Z * Z) bool }.

Definition part_ok (key offset : Z) (o : Storage) : bool := default false (preimagePartOk o !! (key, offset)).
Definition part_at (key offset : Z) (o : Storage) : Hash := default 0 (preimageParts o !! (key, offset)).
Definition length_of (key : Z) (o : Storage) : Z := default 0 (preimageLengths o !! key).

(** [readPreimage]; the arithmetic is checked. *)
Definition readPreimage (o : Storage) (key offset : Z) : result (Hash * Z) :=
  if negb (part_ok key offset o) then Err (ErrNew "pre-image must exist")
  else
    let length := length_of key o in
    if (two256 <=? offset + 32) || (two256 <=? length + 8) then Err revert
    else if length + 8 <=? offset + 32 then
      if length + 8 <? offset then Err revert else Ok (part_at key offset o, length + 8 - offset)
    else Ok (part_at key offset o, 32).

Definition store_part (key offset part size : Z) (o : Storage) : Storage :=
  mkStorage (<[key := size]> (preimageLengths o)) (<[(key, offset) := part]> (preimageParts o))
    (<[(key, offset) := true]> (preimagePartOk o)).

Definition cheat (partOffset key part size : Z) (o : Storage) : Storage := store_part key partOffset part size o.

Section Calls.
Context `{Keccak}.

(** [loadLocalData]: the part is read from the scratch space, where the size and the word
    were stored; zeroes follow there. *)
Definition loadLocalData (sender ident word size partOffset : Z) (o : Storage) : result Storage :=
  let key := PreimageKeyLib.localizeIdent sender ident in
  if two256 <=? size + 8 then Err revert
  else if (size + 8 <? partOffset) || (32 <? size) then Err (ErrNew "PartOffsetOOB")
  else
    let scratch := be_encode 8 size ++ be_encode 32 word ++ replicate 32 Byte.x00 in
    Ok (store_part key partOffset (load32 partOffset scratch) size o).

(** [loadKeccak256PreimagePart] on its call data. *)
Definition loadKeccak256PreimagePart (cd : Data) (o : Storage) : result Storage :=
  let partOffset := load32 4 cd in
  let? (preimage, _) := abi_bytes cd 36 in
  let size := load32 0x44 cd in
  if u256 (size + 8) <? partOffset then Err (ErrNew "PartOffsetOOB")
  else
    let data := take (Z.to_nat size) (drop (Z.to_nat preimage) cd ++ replicate (Z.to_nat size) Byte.x00) in
    let part := load32 partOffset (be_encode 8 size ++ data) in
    let key := PreimageKeyLib.with_type 2 (Keccak256Hash data) in
    Ok (store_part key partOffset part size o).

(** A call of a function that writes to the storage, which is chosen by the first four
    bytes; the views leave the storage as it is. *)
Definition call (sender : Z) (cd : Data) (o : Storage) : result Storage :=
  if bool_decide (take 4 cd = LoadLocalDataBytes4) then
    if (length cd <? 132)%nat then Err revert
    else loadLocalData sender (load32 4 cd) (load32 36 cd) (load32 68 cd) (load32 100 cd) o
  else if bool_decide (take 4 cd = LoadKeccak256PreimagePartBytes4) then
    if (length cd <? 68)%nat then Err revert else loadKeccak256PreimagePart cd o
  else if bool_decide (take 4 cd = CheatBytes4) then
    if (length cd <? 132)%nat then Err revert
    else Ok (cheat (load32 4 cd) (load32 36 cd) (load32 68 cd) (load32 100 cd) o)
  else Err revert.
End Calls.
End PreimageOracle.

(** ** The machine *)
Module MIPS.
Record State := mkState {
  s_memRoot : Hash;
  s_preimageKey : Hash;
  s_preimageOffset : Z;
  s_pc : Z;
  s_nextPC : Z;
  s_lo : Z;
  s_hi : Z;
  s_heap : Z;
  s_exitCode : Z;
  s_exited : Z;
  s_step : Z;
  s_registers : list Z }.

Definition set_memRoot (x : Hash) (s : State) : State :=
  mkState x (s_preimageKey s) (s_preimageOffset s) (s_pc s) (s_nextPC s) (s_lo s) (s_hi s) (s_heap s) (s_exitCode s) (s_exited s) (s_step s) (s_registers s).
Definition set_preimageKey (x : Hash) (s : State) : State :=
  mkState (s_memRoot s) x (s_preimageOffset s) (s_pc s) (s_nextPC s) (s_lo s) (s_hi s) (s_heap s) (s_exitCode s) (s_exited s) (s_step s) (s_registers s).
Definition set_preimageOffset (x : Z) (s : State) : State :=
  mkState (s_memRoot s) (s_preimageKey s) x (s_pc s) (s_nextPC s) (s_lo s) (s_hi s) (s_heap s) (s_exitCode s) (s_exited s) (s_step s) (s_registers s).
Definition set_pc (x : Z) (s : State) : State :=
  mkState (s_memRoot s) (s_preimageKey s) (s_preimageOffset s) x (s_nextPC s) (s_lo s) (s_hi s) (s_heap s) (s_exitCode s) (s_exited s) (s_step s) (s_registers s).
Definition set_nextPC (x : Z) (s : State) : State :=
  mkState (s_memRoot s) (s_preimageKey s) (s_preimageOffset s) (s_pc s) x (s_lo s) (s_hi s) (s_heap s) (s_exitCode s) (s_exited s) (s_step s) (s_registers s).
Definition set_lo (x : Z) (s : State) : State :=
  mkState (s_memRoot s) (s_preimageKey s) (s_preimageOffset s) (s_pc s) (s_nextPC s) x (s_hi s) (s_heap s) (s_exitCode s) (s_exited s) (s_step s) (s_registers s).
Definition set_hi (x : Z) (s : State) : State :=
  mkState (s_memRoot s) (s_preimageKey s) (s_preimageOffset s) (s_pc s) (s_nextPC s) (s_lo s) x (s_heap s) (s_exitCode s) (s_exited s) (s_step s) (s_registers s).
Definition set_heap (x : Z) (s : State) : State :=
  mkState (s_memRoot s) (s_preimageKey s) (s_preimageOffset s) (s_pc s) (s_nextPC s) (s_lo s) (s_hi s) x (s_exitCode s) (s_exited s) (s_step s) (s_registers s).
Definition set_exitCode (x : Z) (s : State) : State :=
  mkState (s_memRoot s) (s_preimageKey s) (s_preimageOffset s) (s_pc s) (s_nextPC s) (s_lo s) (s_hi s) (s_heap s) x (s_exited s) (s_step s) (s_registers s).
Definition set_exited (x : Z) (s : State) : State :=
  mkState (s_memRoot s) (s_preimageKey s) (s_preimageOffset s) (s_pc s) (s_nextPC s) (s_lo s) (s_hi s) (s_heap s) (s_exitCode s) x (s_step s) (s_registers s).
Definition set_step (x : Z) (s : State) : State :=
  mkState (s_memRoot s) (s_preimageKey s) (s_preimageOffset s) (s_pc s) (s_nextPC s) (s_lo s) (s_hi s) (s_heap s) (s_exitCode s) (s_exited s) x (s_registers s).
Definition set_registers (x : list Z) (s : State) : State :=
  mkState (s_memRoot s) (s_preimageKey s) (s_preimageOffset s) (s_pc s) (s_nextPC s) (s_lo s) (s_hi s) (s_heap s) (s_exitCode s) (s_exited s) (s_step s) x.

Definition reg (i : Z) (s : State) : Z := nth (Z.to_nat i) (s_registers s) 0.
Definition set_reg (i v : Z) (s : State) : State := set_registers (<[Z.to_nat i := v]> (s_registers s)) s.

Definition BRK_START : Z := 0x40000000.
Definition EBADF : Z := 0x9.
Definition EINVAL : Z := 0x16.

(** [SE]: the masks are 256 bits wide. *)
Definition SE (dat idx : Z) : Z :=
  let isSigned := negb (shr32 dat (u32 (idx - 1)) =? 0) in
  let signed := shl256 idx (u256 (shl256 (u32 (32 - idx)) 1 - 1)) in
  let mask := u256 (shl256 idx 1 - 1) in
  u32 (Z.lor (Z.land dat mask) (if isSigned then signed else 0)).

(** [execute]: the functions of SPECIAL, into which the immediate instructions are
    transformed, and the rest. *)
Definition special (insn rs rt func : Z) : result Z :=
  if func =? 0x00 then Ok (shl32 rt (Z.land (Z.shiftr insn 6) 0x1F))
  else if func =? 0x02 then Ok (shr32 rt (Z.land (Z.shiftr insn 6) 0x1F))
  else if func =? 0x03 then
    let shamt := Z.land (Z.shiftr insn 6) 0x1F in
    Ok (SE (shr32 rt shamt) (u32 (32 - shamt)))
  else if func =? 0x04 then Ok (shl32 rt (Z.land rs 0x1F))
  else if func =? 0x06 then Ok (shr32 rt (Z.land rs 0x1F))
  else if func =? 0x07 then Ok (SE (shr32 rt rs) (u32 (32 - rs)))
  else if func =? 0x08 then Ok rs
  else if func =? 0x09 then Ok rs
  else if func =? 0x0a then Ok rs
  else if func =? 0x0b then Ok rs
  else if func =? 0x0c then Ok rs
  else if func =? 0x0f then Ok rs
  else if func =? 0x10 then Ok rs
  else if func =? 0x11 then Ok rs
  else if func =? 0x12 then Ok rs
  else if func =? 0x13 then Ok rs
  else if func =? 0x18 then Ok rs
  else if func =? 0x19 then Ok rs
  else if func =? 0x1a then Ok rs
  else if func =? 0x1b then Ok rs
  else if func =? 0x20 then Ok (u32 (rs + rt))
  else if func =? 0x21 then Ok (u32 (rs + rt))
  else if func =? 0x22 then Ok (u32 (rs - rt))
  else if func =? 0x23 then Ok (u32 (rs - rt))
  else if func =? 0x24 then Ok (Z.land rs rt)
  else if func =? 0x25 then Ok (Z.lor rs rt)
  else if func =? 0x26 then Ok (Z.lxor rs rt)
  else if func =? 0x27 then Ok (not32 (Z.lor rs rt))
  else if func =? 0x2a then Ok (if i32 rs <? i32 rt then 1 else 0)
  else if func =? 0x2b then Ok (if rs <? rt then 1 else 0)
  else Err (ErrNew "invalid instruction").

Definition transform (opcode func : Z) : Z :=
  if opcode =? 0x8 then 0x20
  else if opcode =? 0x9 then 0x21
  else if opcode =? 0xA then 0x2A
  else if opcode =? 0xB then 0x2B
  else if opcode =? 0xC then 0x24
  else if opcode =? 0xD then 0x25
  else if opcode =? 0xE then 0x26
  else func.

(** The loop of [clz] and [clo]. *)
Fixpoint count_loop (fuel : nat) (rs i : Z) : result Z :=
  match fuel with
  | O => Err revert
  | S fuel' =>
      if Z.land rs 0x80000000 =? 0 then Ok i else count_loop fuel' (shl32 rs 1) (u32 (i + 1))
  end.

Definition execute (insn rs rt mem : Z) : result Z :=
  let opcode := Z.shiftr insn 26 in
  if (opcode =? 0) || ((8 <=? opcode) && (opcode <? 0xF)) then
    special insn rs rt (transform opcode (Z.land insn 0x3f))
  else if opcode =? 0x1C then
    let func := Z.land insn 0x3f in
    if func =? 0x2 then Ok (u32 (i32 rs * i32 rt))
    else if (func =? 0x20) || (func =? 0x21) then
      let rs := if func =? 0x20 then not32 rs else rs in
      count_loop 33 rs 0
    else Err (ErrNew "invalid instruction")
  else if opcode =? 0x0F then Ok (shl32 rt 16)
  else if opcode =? 0x20 then Ok (SE (Z.land (shr32 mem (24 - Z.land rs 3 * 8)) 0xFF) 8)
  else if opcode =? 0x21 then Ok (SE (Z.land (shr32 mem (16 - Z.land rs 2 * 8)) 0xFFFF) 16)
  else if opcode =? 0x22 then
    let val := shl32 mem (Z.land rs 3 * 8) in
    let mask := shl32 0xFFFFFFFF (Z.land rs 3 * 8) in
    Ok (Z.lor (Z.land rt (not32 mask)) val)
  else if opcode =? 0x23 then Ok mem
  else if opcode =? 0x24 then Ok (Z.land (shr32 mem (24 - Z.land rs 3 * 8)) 0xFF)
  else if opcode =? 0x25 then Ok (Z.land (shr32 mem (16 - Z.land rs 2 * 8)) 0xFFFF)
  else if opcode =? 0x26 then
    let val := shr32 mem (24 - Z.land rs 3 * 8) in
    let mask := shr32 0xFFFFFFFF (24 - Z.land rs 3 * 8) in
    Ok (Z.lor (Z.land rt (not32 mask)) val)
  else if opcode =? 0x28 then
    let val := shl32 (Z.land rt 0xFF) (24 - Z.land rs 3 * 8) in
    let mask := Z.lxor 0xFFFFFFFF (u32 (Z.shiftl 0xFF (24 - Z.land rs 3 * 8))) in
    Ok (Z.lor (Z.land mem mask) val)
  else if opcode =? 0x29 then
    let val := shl32 (Z.land rt 0xFFFF) (16 - Z.land rs 2 * 8) in
    let mask := Z.lxor 0xFFFFFFFF (u32 (Z.shiftl 0xFFFF (16 - Z.land rs 2 * 8))) in
    Ok (Z.lor (Z.land mem mask) val)
  else if opcode =? 0x2a then
    let val := shr32 rt (Z.land rs 3 * 8) in
    let mask := shr32 0xFFFFFFFF (Z.land rs 3 * 8) in
    Ok (Z.lor (Z.land mem (not32 mask)) val)
  else if opcode =? 0x2b then Ok rt
  else if opcode =? 0x2e then
    let val := shl32 rt (24 - Z.land rs 3 * 8) in
    let mask := shl32 0xFFFFFFFF (24 - Z.land rs 3 * 8) in
    Ok (Z.lor (Z.land mem (not32 mask)) val)
  else if opcode =? 0x30 then Ok mem
  else if opcode =? 0x38 then Ok rt
  else Err (ErrNew "invalid instruction").

Section Contract.
Context `{Keccak}.

(** The hash of the packed state. *)
Definition outputState : M State Hash :=
  s <- get ;;
  ret (Keccak256Hash (
    be_encode 32 (s_memRoot s) ++
    be_encode 32 (s_preimageKey s) ++
    be_encode 4 (s_preimageOffset s) ++
    be_encode 4 (s_pc s) ++
    be_encode 4 (s_nextPC s) ++
    be_encode 4 (s_lo s) ++
    be_encode 4 (s_hi s) ++
    be_encode 4 (s_heap s) ++
    be_encode 1 (s_exitCode s) ++
    be_encode 1 (s_exited s) ++
    be_encode 8 (s_step s) ++
    concat (be_encode 4 <$> s_registers s))).

(** The two assignments that end most instructions. *)
Definition advance (s : State) : State := set_nextPC (u32 (s_nextPC s + 4)) (set_pc (s_nextPC s) s).

Definition handleBranch (opcode insn rtReg rs : Z) : M State Hash :=
  state <- get ;;
  if negb (s_nextPC state =? u32 (s_pc state + 4)) then throw (ErrNew "branch in delay slot")
  else
    let shouldBranch :=
      if (opcode =? 4) || (opcode =? 5) then
        let rt := reg rtReg state in
        ((rs =? rt) && (opcode =? 4)) || (negb (rs =? rt) && (opcode =? 5))
      else if opcode =? 6 then i32 rs <=? 0
      else if opcode =? 7 then 0 <? i32 rs
      else if opcode =? 1 then
        let rtv := Z.land (Z.shiftr insn 16) 0x1F in
        if rtv =? 1 then 0 <=? i32 rs
        else if rtv =? 0 then i32 rs <? 0
        else false
      else false in
    let prevPC := s_pc state in
    modify (fun s => set_pc (s_nextPC s) s) ;;;
    (if shouldBranch : bool then
       modify (set_nextPC (u32 (u32 (prevPC + 4) + shl32 (SE (Z.land insn 0xFFFF) 16) 2)))
     else modify (fun s => set_nextPC (u32 (s_nextPC s + 4)) s)) ;;;
    outputState.

Definition handleHiLo (func rs rt storeReg : Z) : M State Hash :=
  state <- get ;;
  val <- (if func =? 0x10 then ret (s_hi state)
          else if func =? 0x11 then modify (set_hi rs) ;;; ret 0
          else if func =? 0x12 then ret (s_lo state)
          else if func =? 0x13 then modify (set_lo rs) ;;; ret 0
          else if func =? 0x18 then
            let acc := u64 (i32 rs * i32 rt) in
            modify (set_hi (u32 (Z.shiftr acc 32))) ;;; modify (set_lo (u32 acc)) ;;; ret 0
          else if func =? 0x19 then
            let acc := u64 (rs * rt) in
            modify (set_hi (u32 (Z.shiftr acc 32))) ;;; modify (set_lo (u32 acc)) ;;; ret 0
          else if func =? 0x1a then
            if i32 rt =? 0 then throw revert
            else
              modify (set_hi (u32 (Z.rem (i32 rs) (i32 rt)))) ;;;
              modify (set_lo (u32 (Z.quot (i32 rs) (i32 rt)))) ;;; ret 0
          else if func =? 0x1b then
            if rt =? 0 then throw revert
            else modify (set_hi (rs mod rt)) ;;; modify (set_lo (rs / rt)) ;;; ret 0
          else ret 0) ;;
  (if negb (storeReg =? 0) then modify (set_reg storeReg val) else ret tt) ;;;
  modify advance ;;;
  outputState.

Definition handleJump (linkReg dest : Z) : M State Hash :=
  state <- get ;;
  if negb (s_nextPC state =? u32 (s_pc state + 4)) then throw (ErrNew "jump in delay slot")
  else
    let prevPC := s_pc state in
    modify (fun s => set_nextPC dest (set_pc (s_nextPC s) s)) ;;;
    (if negb (linkReg =? 0) then modify (set_reg linkReg (u32 (prevPC + 8))) else ret tt) ;;;
    outputState.

Definition handleRd (storeReg val : Z) (conditional : bool) : M State Hash :=
  if negb (storeReg <? 32) then throw (ErrNew "valid register")
  else
    (if negb (storeReg =? 0) && conditional then modify (set_reg storeReg val) else ret tt) ;;;
    modify advance ;;;
    outputState.

(** The call, its sender, and the oracle that is asked. *)
Variables (cd : Data) (sender : Z) (ORACLE : PreimageOracle.Storage).

Definition proofOffset (proofIndex : Z) : result Z :=
  let offset := 388 + proofIndex * (28 * 32) in
  if Z.of_nat (length cd) <? offset + 28 * 32 then Err (ErrNew "check that there is enough calldata")
  else Ok offset.

(** The loop that reconstructs the root from a leaf and the siblings in the call data. *)
Fixpoint climb_siblings (left : nat) (i offset path node : Z) : Hash :=
  match left with
  | O => node
  | S left' =>
      let sibling := load32 offset cd in
      climb_siblings left' (i + 1) (offset + 32) path
        (if Z.land (shr256 i path) 1 =? 0 then HashPair node sibling else HashPair sibling node)
  end.

Definition readMem (addr proofIndex : Z) : M State Z :=
  offset <- lift (proofOffset proofIndex) ;;
  if negb (Z.land addr 3 =? 0) then throw revert
  else
    let leaf := load32 offset cd in
    let node := climb_siblings 27 0 (offset + 32) (shr256 5 addr) leaf in
    state <- get ;;
    if negb (node =? s_memRoot state) then throw (ErrNew "0x0badf00d")
    else
      let shamt := 8 * (32 - 4 - Z.land addr 31) in
      ret (Z.land (shr256 shamt leaf) 0xFFffFFff).

Definition writeMem (addr proofIndex val : Z) : M State unit :=
  offset <- lift (proofOffset proofIndex) ;;
  if negb (Z.land addr 3 =? 0) then throw revert
  else
    let leaf := load32 offset cd in
    let shamt := 8 * (32 - 4 - Z.land addr 31) in
    let leaf := Z.lor (Z.land leaf (not256 (shl256 shamt 0xFFffFFff))) (shl256 shamt val) in
    modify (set_memRoot (climb_siblings 27 0 (offset + 32) (shr256 5 addr) leaf)).

(** The cases of [handleSyscall]: what is returned in the registers [v0] and [v1]. *)
Definition mmap (a0 a1 : Z) : M State (Z * Z) :=
  let sz := if negb (Z.land a1 4095 =? 0) then u32 (a1 + (4096 - Z.land a1 4095)) else a1 in
  if a0 =? 0 then
    state <- get ;;
    modify (fun s => set_heap (u32 (s_heap s + sz)) s) ;;;
    ret (s_heap state, 0)
  else ret (a0, 0).

(** The word of memory with the data of the oracle inserted. *)
Definition insert_preimage (mem a1 a2 dat datLen : Z) : Z * Z :=
  let alignment := Z.land a1 3 in
  let space := 4 - alignment in
  let datLen := if space <? datLen then space else datLen in
  let datLen := if a2 <? datLen then a2 else datLen in
  let dat := shr256 (256 - datLen * 8) dat in
  let dat := shl256 ((4 - datLen - alignment) * 8) dat in
  let mask := u256 (shl256 ((4 - alignment) * 8) 1 - 1) in
  let suffixMask := u256 (shl256 ((4 - alignment - datLen) * 8) 1 - 1) in
  let mask := Z.land mask (not256 suffixMask) in
  (Z.lor (Z.land mem (not256 mask)) dat, datLen).

Definition read (a0 a1 a2 : Z) : M State (Z * Z) :=
  if a0 =? fdStdin then ret (0, 0)
  else if a0 =? fdPreimageRead then
    mem <- readMem (Z.land a1 0xFFffFFfc) 1 ;;
    state <- get ;;
    let preimageKey := s_preimageKey state in
    let preimageKey := if shr256 248 preimageKey =? 1 then PreimageKeyLib.localize sender preimageKey else preimageKey in
    r <- lift (PreimageOracle.readPreimage ORACLE preimageKey (s_preimageOffset state)) ;;
    let '(mem, datLen) := insert_preimage mem a1 a2 r.1 r.2 in
    writeMem (Z.land a1 0xFFffFFfc) 1 (u32 mem) ;;;
    modify (fun s => set_preimageOffset (u32 (s_preimageOffset s + u32 datLen)) s) ;;;
    ret (u32 datLen, 0)
  else if a0 =? fdHintRead then ret (a2, 0)
  else ret (0xFFffFFff, EBADF).

(** The key with bytes of a word of memory shifted in. *)
Definition insert_key (mem a1 a2 key : Z) : Z * Z :=
  let alignment := Z.land a1 3 in
  let space := 4 - alignment in
  let a2 := if space <? a2 then space else a2 in
  let key := shl256 (a2 * 8) key in
  let mask := u256 (shl256 (a2 * 8) 1 - 1) in
  let mem := Z.land (shr256 ((space - a2) * 8) mem) mask in
  (Z.lor key mem, a2).

Definition write (a0 a1 a2 : Z) : M State (Z * Z) :=
  if (a0 =? fdStdout) || (a0 =? fdStderr) || (a0 =? fdHintWrite) then ret (a2, 0)
  else if a0 =? fdPreimageWrite then
    mem <- readMem (Z.land a1 0xFFffFFfc) 1 ;;
    state <- get ;;
    let '(key, a2) := insert_key mem a1 a2 (s_preimageKey state) in
    modify (fun s => set_preimageOffset 0 (set_preimageKey key s)) ;;;
    ret (a2, 0)
  else ret (0xFFffFFff, EBADF).

Definition fcntl (a0 a1 : Z) : Z * Z :=
  if a1 =? 3 then
    if (a0 =? fdStdin) || (a0 =? fdPreimageRead) || (a0 =? fdHintRead) then (0, 0)
    else if (a0 =? fdStdout) || (a0 =? fdStderr) || (a0 =? fdPreimageWrite) || (a0 =? fdHintWrite) then (1, 0)
    else (0xFFffFFff, EBADF)
  else (0xFFffFFff, EINVAL).

Definition handleSyscall : M State Hash :=
  state <- get ;;
  let syscall_no := reg 2 state in
  let a0 := reg 4 state in
  let a1 := reg 5 state in
  let a2 := reg 6 state in
  if syscall_no =? 4246 then
    modify (fun s => set_exitCode (a0 mod 256) (set_exited 1 s)) ;;; outputState
  else
    v <- (if syscall_no =? 4090 then mmap a0 a1
          else if syscall_no =? 4045 then ret (BRK_START, 0)
          else if syscall_no =? 4120 then ret (1, 0)
          else if syscall_no =? 4003 then read a0 a1 a2
          else if syscall_no =? 4004 then write a0 a1 a2
          else if syscall_no =? 4055 then ret (fcntl a0 a1)
          else ret (0, 0)) ;;
    modify (fun s => advance (set_reg 7 v.2 (set_reg 2 v.1 s))) ;;;
    outputState.

(** The rest of [step] once the operands and the word in memory are known. *)
Definition finish_step (insn rs rt mem rdReg rtReg storeAddr : Z) : M State Hash :=
  let opcode := Z.shiftr insn 26 in
  val <- lift (result_map (fun v => Z.land v 0xffFFffFF) (execute insn rs rt mem)) ;;
  let func := Z.land insn 0x3f in
  if (opcode =? 0) && (8 <=? func) && (func <? 0x1c) && ((func =? 8) || (func =? 9)) then
    handleJump (if func =? 8 then 0 else rdReg) rs
  else if (opcode =? 0) && (func =? 0xa) then handleRd rdReg rs (rt =? 0)
  else if (opcode =? 0) && (func =? 0xb) then handleRd rdReg rs (negb (rt =? 0))
  else if (opcode =? 0) && (func =? 0xC) then handleSyscall
  else if (opcode =? 0) && (0x10 <=? func) && (func <? 0x1c) then handleHiLo func rs rt rdReg
  else
    (if (opcode =? 0x38) && negb (rtReg =? 0) then modify (set_reg rtReg 1) else ret tt) ;;;
    (if negb (storeAddr =? 0xFFFFFFFF) then writeMem storeAddr 1 val else ret tt) ;;;
    handleRd rdReg val true.

(** [step] on the unpacked state: the instruction is fetched, and decoded with the
    registers of the state before. *)
Definition decode (insn : Z) (state : State) : M State Hash :=
  let opcode := Z.shiftr insn 26 in
  if (opcode =? 2) || (opcode =? 3) then
    let target := Z.lor (Z.land (s_nextPC state) 0xF0000000) (shl32 (Z.land insn 0x03FFFFFF) 2) in
    handleJump (if opcode =? 2 then 0 else 31) target
  else
    let rtReg := Z.land (Z.shiftr insn 16) 0x1F in
    let rs := reg (Z.land (Z.shiftr insn 21) 0x1F) state in
    let '(rt, rdReg) :=
      if (opcode =? 0) || (opcode =? 0x1c) then (reg rtReg state, Z.land (Z.shiftr insn 11) 0x1F)
      else if opcode <? 0x20 then
        (if (opcode =? 0xC) || (opcode =? 0xD) || (opcode =? 0xe) then Z.land insn 0xFFFF
         else SE (Z.land insn 0xFFFF) 16, rtReg)
      else if (0x28 <=? opcode) || (opcode =? 0x22) || (opcode =? 0x26) then (reg rtReg state, rtReg)
      else (0, rtReg) in
    if ((4 <=? opcode) && (opcode <? 8)) || (opcode =? 1) then handleBranch opcode insn rtReg rs
    else if 0x20 <=? opcode then
      let rs := u32 (rs + SE (Z.land insn 0xFFFF) 16) in
      let addr := Z.land rs 0xFFFFFFFC in
      mem <- readMem addr 1 ;;
      let store := (0x28 <=? opcode) && negb (opcode =? 0x30) in
      finish_step insn rs rt mem (if store then 0 else rdReg) rtReg (if store then addr else 0xFFFFFFFF)
    else finish_step insn rs rt 0 rdReg rtReg 0xFFFFFFFF.

Definition run : M State Hash :=
  state <- get ;;
  if negb (s_exited state =? 0) then outputState
  else
    modify (fun s => set_step (u64 (s_step s + 1)) s) ;;;
    insn <- readMem (s_pc state) 0 ;;
    decode insn state.

(** [putField], and the state unpacked from an offset on. *)
Definition field (offset size : Z) : Z := shr256 (8 * (32 - size)) (load32 offset cd).
Definition unpack (c : Z) : State :=
  mkState (field c 32) (field (c + 32) 32) (field (c + 64) 4) (field (c + 68) 4) (field (c + 72) 4) (field (c + 76) 4)
    (field (c + 80) 4) (field (c + 84) 4) (field (c + 88) 1) (field (c + 89) 1) (field (c + 90) 8)
    ((fun i => field (c + 98 + 4 * Z.of_nat i) 4) <$> seq 0 32).

(** A call of [step]: the arguments must be where the code expects them. *)
Definition call : result Hash :=
  if negb (bool_decide (take 4 cd = StepBytes4)) || (length cd <? 68)%nat then Err revert
  else
    let? (stateData, _) := abi_bytes cd 4 in
    let? (proof, _) := abi_bytes cd 36 in
    if negb (stateData =? 100) || negb (proof =? 388) then Err revert
    else (run (unpack stateData)).1.
End Contract.
End MIPS.
