(* ===== verification/MipsReplay.v ===== *)
(** * The contract computes what the VM computes: words, call data and memory

    The sign extension and the instructions of the contract are those of the VM; the call
    data of a witness has the state and the proofs where the contract reads them; reading
    and writing a word through a proof is reading and writing the memory; and the words of
    the oracle are inserted in the same way. *)
From S2P Require Import Prelude GoErrors GoBytes EthTypes Geth Solabi Bits.
From S2P Require Import MipsMemory MipsPage MipsMemorySpec MipsMemoryTheorems Mips MipsWords MipsSpec Evm MipsContract.
#[local] Open Scope Z_scope.

(** ** Instructions *)
Lemma u256_small z : 0 <= z < two256 -> u256 z = z.
Proof. intros. by apply Z.mod_small. Qed.

Lemma SE_zero idx : SE 0 idx = 0 /\ MIPS.SE 0 idx = 0.
Proof.
  assert (forall n, shr32 0 n = 0) as Hz by (intros n; unfold shr32; case_if; [done|by rewrite Z.shiftr_0_l]).
  unfold SE, MIPS.SE. by rewrite !Hz, !Z.land_0_l.
Qed.

Lemma SE_agrees dat idx : is_u32 dat -> 0 <= idx <= 32 -> dat < 2 ^ idx -> MIPS.SE dat idx = SE dat idx.
Proof.
  intros Hd Hi Hlt. destruct (Z.eq_dec idx 0) as [->|Hne].
  { assert (dat = 0) as -> by (destruct Hd; change (2 ^ 0) with 1 in Hlt; lia). by rewrite !(proj1 (SE_zero 0)), !(proj2 (SE_zero 0)). }
  pose proof (SE_u32 dat idx Hd) as Hs. revert Hs. unfold SE, MIPS.SE. rewrite (u32_small (32 - idx)) by lia.
  rewrite low_mask, (low_mask (32 - idx)), high_mask by lia.
  assert (forall n, 0 <= n <= 32 -> 0 < 2 ^ n <= 4294967296) as Hp.
  { intros n Hn. split; [apply Z.pow_pos_nonneg; lia|]. change 4294967296 with (2 ^ 32). apply Z.pow_le_mono_r; lia. }
  pose proof (Hp idx ltac:(lia)). pose proof (Hp (32 - idx) ltac:(lia)).
  assert (4294967296 < two256) as H256 by done.
  rewrite (shl256_small idx 1), (shl256_small (32 - idx) 1), !Z.mul_1_l, !u256_small by lia.
  assert ((2 ^ (32 - idx) - 1) * 2 ^ idx = 2 ^ 32 - 2 ^ idx) as E.
  { rewrite Z.mul_sub_distr_r, <- Z.pow_add_r by lia. replace (32 - idx + idx) with 32 by lia. lia. }
  rewrite shl256_small; [|lia|lia|rewrite E; change (2 ^ 32) with 4294967296; lia]. rewrite E.
  destruct (negb _); rewrite ?Z.lor_0_r; intros Hs; by apply u32_small.
Qed.

Lemma SE_imm insn : MIPS.SE (Z.land insn 0xffff) 16 = SE (Z.land insn 0xffff) 16.
Proof.
  assert (0 <= Z.land insn 0xffff < 65536) as Hb.
  { change 0xffff with (2 ^ 16 - 1). rewrite land_mask by lia. by apply Z.mod_pos_bound. }
  apply SE_agrees; [unfold is_u32; lia|lia|]. change (2 ^ 16) with 65536. lia.
Qed.

Lemma SE_shift_agrees rt n : is_u32 rt -> is_u32 n -> MIPS.SE (shr32 rt n) (u32 (32 - n)) = SE (shr32 rt n) (u32 (32 - n)).
Proof.
  intros Hrt Hn. destruct (Z.lt_ge_cases 32 n) as [Hl|Hl].
  - assert (shr32 rt n = 0) as -> by (unfold shr32; destruct (Z.leb_spec 32 n); [done|lia]).
    by rewrite (proj1 (SE_zero _)), (proj2 (SE_zero _)).
  - destruct Hn. rewrite u32_small by lia. apply SE_agrees; [by apply shr32_u32|lia|].
    unfold shr32. destruct (Z.leb_spec 32 n); [apply Z.pow_pos_nonneg; lia|]. rewrite Z.shiftr_div_pow2 by lia.
    apply Z.div_lt_upper_bound; [apply Z.pow_pos_nonneg; lia|]. rewrite <- Z.pow_add_r by lia.
    replace (n + (32 - n)) with 32 by lia. apply Hrt.
Qed.

Lemma special_agrees insn rs rt func v :
  is_u32 rs -> is_u32 rt -> execute_fun insn rs rt func = Ok v -> MIPS.special insn rs rt func = Ok v.
Proof.
  intros Hrs Hrt. unfold execute_fun, MIPS.special. cbv zeta.
  pose proof (shamt_nonneg (Z.shiftr insn 6)) as Hs0.
  assert (is_u32 (Z.land (Z.shiftr insn 6) 31)) as Hs by (by apply land_r_is_u32).
  rewrite !SE_shift_agrees by done. cbn [existsb].
  do 6 (destruct (func =? _); [done|]).
  do 14 (destruct (func =? _); [done|]; cbn [orb]).
  do 10 (destruct (func =? _); [done|]; cbn [orb]). done.
Qed.

Lemma count_agrees fuel rs i v : leading_ones fuel rs i = Ok v -> MIPS.count_loop fuel rs i = Ok v.
Proof.
  revert rs i. induction fuel as [|fuel IH]; intros rs i; [done|]. cbn [leading_ones MIPS.count_loop].
  change 0x80000000 with 2147483648. destruct (Z.land rs 2147483648 =? 0); [done|]. apply IH.
Qed.

Lemma immediate_agrees opcode insn : MIPS.transform opcode (Z.land insn 0x3f) = immediate_fun opcode insn.
Proof. reflexivity. Qed.

Lemma shl_byte x n : 0 <= n < 32 -> u32 (Z.shiftl x n) = shl32 x n.
Proof. intros Hn. unfold shl32. by destruct (Z.leb_spec 32 n); [lia|]. Qed.

Lemma execute_agrees insn rs rt mem v :
  is_u32 rs -> is_u32 rt -> is_u32 mem -> execute insn rs rt mem = Ok v -> MIPS.execute insn rs rt mem = Ok v.
Proof.
  intros Hrs Hrt Hm. unfold execute, MIPS.execute. cbv zeta. rewrite immediate_agrees.
  pose proof (byte_shift rs). pose proof (half_shift rs).
  destruct ((Z.shiftr insn 26 =? 0) || _); [by apply special_agrees|].
  destruct (Z.shiftr insn 26 =? 28).
  { destruct (Z.land insn 63 =? 2); [done|]. destruct ((Z.land insn 63 =? 32) || _); [|done]. apply count_agrees. }
  rewrite !shl_byte by lia.
  assert (MIPS.SE (Z.land (shr32 mem (24 - Z.land rs 3 * 8)) 255) 8 = SE (Z.land (shr32 mem (24 - Z.land rs 3 * 8)) 255) 8) as ->.
  { apply SE_agrees; [by apply land_r_is_u32|lia|]. change 255 with (2 ^ 8 - 1). rewrite land_mask by lia. by apply Z.mod_pos_bound. }
  assert (MIPS.SE (Z.land (shr32 mem (16 - Z.land rs 2 * 8)) 65535) 16 = SE (Z.land (shr32 mem (16 - Z.land rs 2 * 8)) 65535) 16) as ->.
  { apply SE_imm. }
  do 15 (destruct (Z.shiftr insn 26 =? _); [done|]). done.
Qed.

(** ** Call data *)

(** Loading the 32 bytes in the middle. *)
Lemma load32_at a b c off :
  off = Z.of_nat (length a) -> length b = 32%nat -> load32 off (a ++ b ++ c) = be_decode b.
Proof.
  intros -> Hb. unfold load32. rewrite Nat2Z.id, drop_app_length, <- app_assoc. f_equal.
  by rewrite take_app_exact by done.
Qed.

(** The first bytes of what is loaded. *)
Lemma load32_prefix off size bs :
  (size <= 32)%nat -> (Z.to_nat off + size <= length bs)%nat ->
  shr256 (8 * (32 - Z.of_nat size)) (load32 off bs) = if (size =? 0)%nat then 0 else be_decode (take size (drop (Z.to_nat off) bs)).
Proof.
  intros Hs Hl. unfold load32. set (w := take 32 _).
  assert (length w = 32%nat) as Hw by (subst w; rewrite length_take, length_app, length_replicate; lia).
  unfold shr256. destruct size as [|size]; [done|]. destruct (Z.leb_spec 256 (8 * (32 - Z.of_nat (S size)))); [lia|].
  pose proof (be_shiftr (take (S size) w) (drop (S size) w)) as Hb. rewrite take_drop, length_drop, Hw in Hb.
  replace (8 * (32 - Z.of_nat (S size))) with (8 * Z.of_nat (32 - S size)) by lia. rewrite Hb. cbn [Nat.eqb]. f_equal.
  subst w. rewrite take_take, Nat.min_l by lia. rewrite take_app_le; [done|]. rewrite length_drop. lia.
Qed.

Lemma field_bytes cd off size :
  0 <= off -> (0 < size <= 32)%nat -> (Z.to_nat off + size <= length cd)%nat ->
  MIPS.field cd off (Z.of_nat size) = be_decode (take size (drop (Z.to_nat off) cd)).
Proof. intros Ho Hs Hl. unfold MIPS.field. rewrite load32_prefix by lia. by destruct size; [lia|]. Qed.

(** A field of the packed state. *)
Lemma field_at cd a v c off size :
  cd = a ++ be_encode size v ++ c -> off = Z.of_nat (length a) -> (0 < size <= 32)%nat -> 0 <= v < 256 ^ Z.of_nat size ->
  MIPS.field cd off (Z.of_nat size) = v.
Proof.
  intros -> -> Hs Hv. rewrite field_bytes by (rewrite ?length_app, ?length_be_encode, ?Nat2Z.id; lia).
  rewrite Nat2Z.id, drop_app_length, take_app_exact by (by rewrite length_be_encode). by apply be_decode_encode_small.
Qed.

(** Fields of given sizes, one after the other. *)
Definition packed (fs : list (nat * Z)) : Data := concat ((fun f => be_encode f.1 f.2) <$> fs).
Definition sizes (fs : list (nat * Z)) : nat := sum_list (fst <$> fs).

Lemma sizes_cons f fs : sizes (f :: fs) = (f.1 + sizes fs)%nat.
Proof. reflexivity. Qed.

Lemma length_packed fs : length (packed fs) = sizes fs.
Proof.
  unfold packed. induction fs as [|f fs IH]; [done|]. cbn [fmap list_fmap concat].
  by rewrite length_app, length_be_encode, IH.
Qed.

Lemma field_packed cd a fs c i n v off :
  cd = a ++ packed fs ++ c -> fs !! i = Some (n, v) -> off = Z.of_nat (length a + sizes (take i fs)) ->
  (0 < n <= 32)%nat -> 0 <= v < 256 ^ Z.of_nat n -> MIPS.field cd off (Z.of_nat n) = v.
Proof.
  intros -> Hi -> Hn Hv. rewrite <- (take_drop_middle fs i (n, v) Hi) at 1. unfold packed.
  rewrite fmap_app, concat_app. cbn [fmap list_fmap concat fst snd].
  eapply (field_at _ (a ++ packed (take i fs))); [by rewrite <- !app_assoc| |done|done].
  by rewrite length_app, length_packed.
Qed.

(** The machine of the contract for a state of the VM. *)
Definition abs `{Keccak} (root : Hash) (s : State) : MIPS.State :=
  MIPS.mkState root (st_PreimageKey s) (st_PreimageOffset s) (st_PC s) (st_NextPC s) (st_LO s) (st_HI s) (st_Heap s)
    (st_ExitCode s) (if st_Exited s then 1 else 0) (st_Step s) (st_Registers s).

(** Unpacking undoes [EncodeWitness]. *)
Definition fields_of (root : Hash) (s : State) : list (nat * Z) :=
  [(32%nat, root); (32%nat, st_PreimageKey s); (4%nat, st_PreimageOffset s); (4%nat, st_PC s); (4%nat, st_NextPC s);
   (4%nat, st_LO s); (4%nat, st_HI s); (4%nat, st_Heap s); (1%nat, st_ExitCode s); (1%nat, if st_Exited s then 1 else 0);
   (8%nat, st_Step s)].

Lemma encode_packed root s : encode_state root s = packed (fields_of root s ++ ((fun r => (4%nat, r)) <$> st_Registers s)).
Proof.
  unfold encode_state, packed, fields_of. rewrite fmap_app, concat_app. cbn [fmap list_fmap concat fst snd].
  rewrite <- !app_assoc. do 9 f_equal. f_equal; [by destruct (st_Exited s)|]. f_equal. cbn [app].
  f_equal. by rewrite <- list_fmap_compose.
Qed.

Lemma sizes_words i (ws : list Z) : (i <= length ws)%nat -> sizes (take i ((fun r => (4%nat, r)) <$> ws)) = (4 * i)%nat.
Proof.
  revert ws. induction i as [|i IH]; intros ws Hi; [done|]. destruct ws as [|w ws]; cbn [length] in Hi; [lia|].
  cbn [fmap list_fmap take]. rewrite sizes_cons, IH by lia. cbn [fst]. lia.
Qed.

Lemma unpack_encode `{Keccak} cd a c root s :
  state_ok s -> is_hash root -> cd = a ++ encode_state root s ++ c -> MIPS.unpack cd (Z.of_nat (length a)) = abs root s.
Proof.
  intros Hs Hr Hcd. rewrite encode_packed in Hcd.
  pose proof (fun i n v off => field_packed cd a _ c i n v off Hcd) as Hf.
  destruct Hs as [_ Hkey Hoff Hpc Hnext Hlo Hhi Hheap Hexit Hstep Hlen Hwords _].
  unfold MIPS.unpack, abs. f_equal.
  - apply (Hf 0%nat 32%nat); [done|cbn; lia|lia|done].
  - apply (Hf 1%nat 32%nat); [done|cbn; lia|lia|done].
  - apply (Hf 2%nat 4%nat); [done|cbn; lia|lia|done].
  - apply (Hf 3%nat 4%nat); [done|cbn; lia|lia|done].
  - apply (Hf 4%nat 4%nat); [done|cbn; lia|lia|done].
  - apply (Hf 5%nat 4%nat); [done|cbn; lia|lia|done].
  - apply (Hf 6%nat 4%nat); [done|cbn; lia|lia|done].
  - apply (Hf 7%nat 4%nat); [done|cbn; lia|lia|done].
  - apply (Hf 8%nat 1%nat); [done|cbn; lia|lia|done].
  - apply (Hf 9%nat 1%nat); [done|cbn; lia|lia|by destruct (st_Exited s)].
  - apply (Hf 10%nat 8%nat); [done|cbn; lia|lia|done].
  - apply list_eq. intros i. rewrite list_lookup_fmap. destruct (decide (i < 32)%nat).
    + rewrite lookup_seq_lt by lia. cbn [fmap option_fmap option_map Nat.add].
      destruct (lookup_lt_is_Some_2 (st_Registers s) i) as [w Hw]; [lia|]. rewrite Hw. f_equal.
      apply (Hf (11 + i)%nat 4%nat); [|cbn [take plus fields_of app]|lia|].
      * rewrite lookup_app_r by (cbn; lia). cbn [length fields_of]. replace (11 + i - 11)%nat with i by lia.
        rewrite list_lookup_fmap, Hw. done.
      * rewrite !sizes_cons, sizes_words by lia. cbn [fst]. lia.
      * by eapply Forall_lookup_1 in Hw; [|exact Hwords].
    + rewrite lookup_seq_ge by lia. symmetry. apply lookup_ge_None_2. lia.
Qed.

(** ** Proofs in the call data *)
Section Proofs.
Context `{Keccak} `{!LawfulKeccak}.

(** The hashes from an offset on. *)
Definition hashes_at (cd : Data) (off : Z) (hs : list Hash) : Prop :=
  0 <= off /\ exists rest, drop (Z.to_nat off) cd = concat (be_encode 32 <$> hs) ++ rest.

Lemma hashes_cons cd off h hs :
  hashes_at cd off (h :: hs) -> load32 off cd = h mod 2 ^ 256 /\ hashes_at cd (off + 32) hs.
Proof.
  intros (Ho & rest & Hd). split.
  - unfold load32. rewrite Hd. cbn [fmap list_fmap concat]. rewrite <- !app_assoc, take_app_exact by (by rewrite length_be_encode).
    by rewrite be_decode_encode.
  - split; [lia|]. exists rest. replace (Z.to_nat (off + 32)) with (Z.to_nat off + 32)%nat by lia.
    rewrite <- drop_drop, Hd. cbn [fmap list_fmap concat]. rewrite <- app_assoc, drop_app_exact by (by rewrite length_be_encode). done.
Qed.

Lemma climb_agrees cd hs i off path node :
  Forall is_hash hs -> hashes_at cd off hs -> 0 <= i -> i + Z.of_nat (length hs) <= 256 ->
  MIPS.climb_siblings cd (length hs) i off path node = climb (Z.shiftr path i) node hs.
Proof.
  intros Hh. revert i off node. induction Hh as [|h hs Hh0 Hh IH]; intros i off node Ha Hi Hl; [done|].
  cbn [length MIPS.climb_siblings climb] in *. apply hashes_cons in Ha as [Hld Ha]. rewrite Hld, Z.mod_small by done.
  rewrite IH by (done || lia). rewrite Z.shiftr_shiftr by lia. f_equal.
  unfold shr256. destruct (Z.leb_spec 256 i); [lia|]. change 1 with (2 ^ 1 - 1) at 1. rewrite land_mask by lia.
  change (2 ^ 1) with 2. rewrite <- Z.bit0_odd, <- Z.bit0_mod. by destruct (Z.testbit _ 0).
Qed.

Lemma mem_node_hash mem g : 1 <= g < 2 ^ 28 -> is_hash (mem_node mem g).
Proof.
  intros Hg. destruct (Z.lt_ge_cases g (2 ^ 27)).
  - rewrite mem_node_split by lia. apply Keccak256Hash_range.
  - unfold mem_node. assert (Z.log2 g = 27) as -> by (apply Z.log2_unique; lia). cbn [Z.sub Z.to_nat gtree].
    unfold mem_leaf. pose proof (be_decode_range (mem_bytes mem (32 * (g - 2 ^ 27)) 32)) as Hr. by rewrite length_mem_bytes in Hr.
Qed.

Lemma siblings_hashes mem addr : is_u32 addr -> Forall is_hash (siblings mem addr 27).
Proof.
  intros Ha. unfold siblings. apply Forall_fmap, Forall_forall. intros i Hi. apply elem_of_seq in Hi.
  apply mem_node_hash, sibling_bounds; [exact Ha|lia].
Qed.

(** The proof of an address at the place of a proof. *)
Definition proof_at (cd : Data) (idx : Z) (mem : Memory) (addr : Z) : Prop :=
  exists rest, drop (Z.to_nat (388 + idx * 896)) cd = proof_of mem addr ++ rest.

Lemma proofOffset_ok cd idx mem addr :
  0 <= idx -> proof_at cd idx mem addr -> MIPS.proofOffset cd idx = Ok (388 + idx * 896).
Proof.
  intros Hi [rest Hd]. unfold MIPS.proofOffset. change (28 * 32) with 896.
  apply (f_equal length) in Hd. rewrite length_drop, length_app, length_proof_of in Hd.
  by destruct (Z.ltb_spec (Z.of_nat (length cd)) (388 + idx * 896 + 896)); [lia|].
Qed.

#[local] Opaque mem_node siblings.

Lemma proof_hashes cd idx mem addr :
  0 <= idx -> is_u32 addr -> proof_at cd idx mem addr ->
  load32 (388 + idx * 896) cd = mem_node mem (leaf_index addr) /\
  hashes_at cd (388 + idx * 896 + 32) (siblings mem addr 27).
Proof.
  intros Hi Ha [rest Hd].
  assert (hashes_at cd (388 + idx * 896) (mem_node mem (leaf_index addr) :: siblings mem addr 27)) as Hh.
  { split; [lia|]. exists rest. exact Hd. }
  apply hashes_cons in Hh as [-> Hh]. split; [|done]. apply Z.mod_small, mem_node_hash.
  pose proof (leaf_index_bounds addr Ha). lia.
Qed.

Lemma climb_from_calldata cd idx mem addr leaf :
  0 <= idx -> is_u32 addr -> proof_at cd idx mem addr ->
  MIPS.climb_siblings cd 27 0 (388 + idx * 896 + 32) (shr256 5 addr) leaf = climb (Z.shiftr addr 5) leaf (siblings mem addr 27).
Proof.
  intros Hi Ha Hp. destruct (proof_hashes cd idx mem addr Hi Ha Hp) as [_ Hh].
  pose proof (climb_agrees cd (siblings mem addr 27) 0 _ (shr256 5 addr) leaf (siblings_hashes mem addr Ha) Hh) as Hc.
  rewrite length_siblings, Z.shiftr_0_r in Hc. apply Hc; lia.
Qed.

(** The place of a word in its leaf. *)
Lemma leaf_offset addr : is_u32 addr -> addr mod 4 = 0 -> Z.land addr 31 = addr mod 32 /\ 0 <= addr mod 32 <= 28 /\ (addr mod 32) mod 4 = 0.
Proof.
  intros Ha Hal. split; [change 31 with (2 ^ 5 - 1); by rewrite land_mask|].
  pose proof (Z.mod_pos_bound addr 32). pose proof (Z.div_mod addr 32 ltac:(lia)) as Hd1. pose proof (Z.div_mod addr 4 ltac:(lia)) as Hd2.
  assert ((addr mod 32) mod 4 = 0) as E; [|split; [lia|done]].
  symmetry. apply Z.mod_unique_pos with (q := addr / 4 - 8 * (addr / 32)); lia.
Qed.

Lemma readMem_spec cd idx addr mem s :
  0 <= idx -> is_u32 addr -> addr mod 4 = 0 -> proof_at cd idx mem addr -> MIPS.s_memRoot s = mem_node mem 1 ->
  MIPS.readMem cd addr idx s = (Ok (mem_word mem addr), s).
Proof.
  intros Hi Ha Hal Hp Hr. unfold MIPS.readMem, bind, lift. rewrite (proofOffset_ok cd idx mem addr Hi Hp).
  rewrite land_3, Hal. cbn [Z.eqb negb]. unfold get.
  destruct (proof_hashes cd idx mem addr Hi Ha Hp) as [-> _].
  rewrite (climb_from_calldata cd idx mem addr) by done. rewrite climb_root, Hr, Z.eqb_refl by exact Ha. cbn [negb].
  unfold ret. do 2 f_equal. destruct (leaf_offset addr Ha Hal) as (-> & Hb & _).
  rewrite mem_leaf_address by exact Ha. set (bs := mem_bytes mem (addr - addr mod 32) 32).
  assert (length bs = 32%nat) as Hlen by apply length_mem_bytes.
  pose proof (extract_bytes_shift bs (Z.to_nat (addr mod 32)) 4) as He. rewrite Hlen in He.
  unfold shr256. destruct (Z.leb_spec 256 (8 * (32 - 4 - addr mod 32))); [lia|].
  replace (8 * (32 - 4 - addr mod 32)) with (8 * Z.of_nat (32 - Z.to_nat (addr mod 32) - 4)) by lia.
  change 0xFFffFFff with (2 ^ (8 * Z.of_nat 4) - 1). rewrite He by lia. unfold mem_word. f_equal.
  apply list_eq. intros i. destruct (decide (i < 4)%nat).
  - rewrite lookup_take_lt, lookup_drop by lia. subst bs. unfold mem_bytes. rewrite !list_lookup_fmap, !lookup_seq_lt by lia.
    cbn. do 2 f_equal. lia.
  - rewrite lookup_take_ge by lia. unfold mem_bytes. rewrite list_lookup_fmap, lookup_seq_ge by lia. done.
Qed.

Lemma word_mask k :
  (k <= 7)%nat -> not256 (shl256 (8 * Z.of_nat (28 - 4 * k)) 0xFFffFFff) =
    Z.lor (2 ^ (8 * Z.of_nat 32) - 2 ^ (8 * Z.of_nat (32 - 4 * k))) (2 ^ (8 * Z.of_nat (28 - 4 * k)) - 1).
Proof. intros Hk. do 8 (destruct k as [|k]; [reflexivity|]). lia. Qed.

Lemma writeMem_spec cd idx addr val mem mem' s :
  0 <= idx -> is_u32 addr -> addr mod 4 = 0 -> is_u32 val -> proof_at cd idx mem addr -> written mem mem' addr (be_encode 4 val) ->
  MIPS.writeMem cd addr idx val s = (Ok tt, MIPS.set_memRoot (mem_node mem' 1) s).
Proof.
  intros Hi Ha Hal Hv Hp Hw. unfold MIPS.writeMem, bind, lift. rewrite (proofOffset_ok cd idx mem addr Hi Hp).
  rewrite land_3, Hal. cbn [Z.eqb negb]. unfold modify. do 2 f_equal.
  destruct (proof_hashes cd idx mem addr Hi Ha Hp) as [-> _]. rewrite (climb_from_calldata cd idx mem addr) by done.
  destruct (leaf_offset addr Ha Hal) as (-> & Hb & H4).
  rewrite <- (climb_root mem' addr Ha). rewrite (siblings_written mem mem' addr (be_encode 4 val) Ha Hw) by (rewrite length_be_encode; lia).
  apply (f_equal (fun leaf => climb (Z.shiftr addr 5) leaf (siblings mem addr 27))).
  rewrite (mem_leaf_written mem mem' addr val Ha Hal Hw).
  rewrite mem_leaf_address by exact Ha. set (bs := mem_bytes mem (addr - addr mod 32) 32).
  assert (length bs = 32%nat) as Hlen by apply length_mem_bytes.
  unfold leaf_with. rewrite be_encode_decode_len by done. unfold splice. rewrite length_be_encode.
  set (k := Z.to_nat (addr mod 32)). pose proof (insert_bytes bs (be_encode 4 val) k) as Hins.
  rewrite Hlen, length_be_encode, be_decode_encode_small in Hins by exact Hv.
  rewrite <- Hins by lia. replace (8 * (32 - 4 - addr mod 32)) with (8 * Z.of_nat (32 - k - 4)) by lia.
  rewrite (shl256_small _ val).
  - f_equal. f_equal. pose proof (Z.div_mod (addr mod 32) 4 ltac:(lia)) as Hdm.
    pose proof (word_mask (Z.to_nat (addr mod 32 / 4)) ltac:(lia)) as Hm.
    replace (28 - 4 * Z.to_nat (addr mod 32 / 4))%nat with (32 - k - 4)%nat in Hm by lia.
    replace (32 - 4 * Z.to_nat (addr mod 32 / 4))%nat with (32 - k)%nat in Hm by lia. exact Hm.
  - lia.
  - apply Hv.
  - apply Z.lt_le_trans with (2 ^ 32 * 2 ^ (8 * Z.of_nat (32 - k - 4))).
    + apply Z.mul_lt_mono_pos_r; [apply Z.pow_pos_nonneg; lia|apply Hv].
    + rewrite <- Z.pow_add_r by lia. apply Z.pow_le_mono_r; lia.
Qed.
End Proofs.

(** ** Words of the oracle *)
Lemma insertion_mask al d :
  (al <= 3)%nat -> (al + d <= 4)%nat ->
  not256 (Z.land (u256 (shl256 ((4 - Z.of_nat al) * 8) 1 - 1))
            (not256 (u256 (shl256 ((4 - Z.of_nat al - Z.of_nat d) * 8) 1 - 1)))) =
  Z.lor (2 ^ (8 * Z.of_nat 32) - 2 ^ (8 * Z.of_nat (32 - (28 + al)))) (2 ^ (8 * Z.of_nat (32 - (28 + al) - d)) - 1).
Proof.
  intros Ha Hd. destruct al as [|[|[|[|]]]]; [..|lia]; do 5 (destruct d as [|d]; [reflexivity || lia|]); lia.
Qed.

Lemma be_decode_pad n bs : be_decode (replicate n Byte.x00 ++ bs) = be_decode bs.
Proof. rewrite be_decode_app. replace (be_decode (replicate n Byte.x00)) with 0; [lia|]. induction n as [|n IH]; [done|]. exact IH. Qed.

(** The contract inserts the same bytes of the preimage into a word of memory. *)
Lemma insert_preimage_agrees mem a1 a2 w n dat :
  is_u32 mem -> is_u32 a1 -> is_u32 a2 -> is_hash w -> 0 <= n <= 32 -> take (Z.to_nat n) (be_encode 32 w) = dat ->
  let alignment := Z.land a1 3 in
  let datLen := Z.min a2 (Z.min (u32 (4 - alignment)) (Z.of_nat (length dat))) in
  MIPS.insert_preimage mem a1 a2 w n =
    (be_decode (copy_at (Z.to_nat alignment) (take (Z.to_nat datLen) dat) (be_encode 4 mem)), datLen).
Proof.
  intros Hm Ha1 Ha2 Hw Hn Hdat alignment datLen. unfold MIPS.insert_preimage. cbv zeta. fold alignment.
  destruct (byte_index a1) as [_ Hk4]. set (al := Z.to_nat (a1 mod 4)) in *.
  assert (alignment = Z.of_nat al) as Eal.
  { subst alignment al. change 3 with (2 ^ 2 - 1). rewrite land_mask by lia. pose proof (Z.mod_pos_bound a1 (2 ^ 2)). change (2 ^ 2) with 4 in *. lia. }
  assert (length dat = Z.to_nat n) as Hld by (rewrite <- Hdat, length_take, length_be_encode; lia).
  assert ((if a2 <? (if 4 - alignment <? n then 4 - alignment else n) then a2 else (if 4 - alignment <? n then 4 - alignment else n)) = datLen) as ->.
  { subst datLen. rewrite Hld, u32_small by lia. repeat case_if; lia. }
  set (d := Z.to_nat datLen). assert (datLen = Z.of_nat d) as Ed.
  { subst d datLen. rewrite u32_small by lia. destruct Ha2. lia. }
  assert (al + d <= 4)%nat as Had by (subst d datLen; rewrite u32_small by lia; lia).
  assert (d <= length dat)%nat as Hdl by (subst d datLen; lia).
  f_equal. rewrite Eal, Ed, Nat2Z.id.
  set (xs := take d (be_encode 32 w)). assert (length xs = d) as Hxs by (subst xs; rewrite length_take, length_be_encode; lia).
  assert (take d dat = xs) as -> by (subst xs; rewrite <- Hdat, take_take; f_equal; lia).
  assert (shr256 (256 - Z.of_nat d * 8) w = be_decode xs) as ->.
  { unfold shr256. destruct (Z.leb_spec 256 (256 - Z.of_nat d * 8)).
    - assert (d = 0%nat) as E0 by lia. subst xs. by rewrite E0.
    - pose proof (be_shiftr (take d (be_encode 32 w)) (drop d (be_encode 32 w))) as Hb.
      rewrite take_drop, length_drop, length_be_encode, be_decode_encode_small in Hb by exact Hw.
      replace (256 - Z.of_nat d * 8) with (8 * Z.of_nat (32 - d)) by lia. exact Hb. }
  rewrite insertion_mask by lia. pose proof (be_decode_below xs) as Hxb. rewrite Hxs in Hxb.
  set (bs := replicate 28 Byte.x00 ++ be_encode 4 mem).
  assert (length bs = 32%nat) as Hbs by (subst bs; by rewrite length_app, length_replicate, length_be_encode).
  assert (be_decode bs = mem) as Hbm by (subst bs; by rewrite be_decode_pad, be_decode_encode_small).
  pose proof (insert_bytes bs xs (28 + al)) as Hins. rewrite Hbs, Hxs, Hbm in Hins.
  rewrite shl256_small.
  - replace ((4 - Z.of_nat d - Z.of_nat al) * 8) with (8 * Z.of_nat (32 - (28 + al) - d)) by lia. rewrite Hins by lia.
    subst bs. rewrite take_app_ge, drop_app_ge by (rewrite length_replicate; lia). rewrite length_replicate.
    rewrite <- app_assoc, be_decode_pad. f_equal.
    unfold copy_at, splice. rewrite length_be_encode, (take_ge xs) by lia. do 2 f_equal; [f_equal; lia|]. f_equal. f_equal. lia.
  - lia.
  - lia.
  - apply Z.lt_le_trans with (2 ^ (8 * Z.of_nat d) * 2 ^ ((4 - Z.of_nat d - Z.of_nat al) * 8)).
    + apply Z.mul_lt_mono_pos_r; [apply Z.pow_pos_nonneg; lia|lia].
    + rewrite <- Z.pow_add_r by lia. apply Z.pow_le_mono_r; lia.
Qed.

Lemma shl256_bytes a b :
  (length a < 32)%nat -> length (a ++ b) = 32%nat ->
  shl256 (8 * Z.of_nat (length a)) (be_decode (a ++ b)) = be_decode b * 2 ^ (8 * Z.of_nat (length a)).
Proof.
  intros Ha Hl. unfold shl256. destruct (Z.leb_spec 256 (8 * Z.of_nat (length a))); [lia|].
  rewrite length_app in Hl. pose proof (be_decode_below b) as Hb.
  rewrite be_decode_app, Z.shiftl_mul_pow2, Z.mul_add_distr_r, <- Z.mul_assoc, <- Z.pow_add_r by lia.
  replace (8 * Z.of_nat (length b) + 8 * Z.of_nat (length a)) with 256 by lia.
  unfold u256, two256. rewrite Z.add_comm, Z.mod_add by (by apply Z.pow_nonzero). apply Z.mod_small.
  assert (0 < 2 ^ (8 * Z.of_nat (length a))) by (apply Z.pow_pos_nonneg; lia). split; [nia|].
  replace 256 with (8 * Z.of_nat (length b) + 8 * Z.of_nat (length a)) by lia. rewrite Z.pow_add_r by lia. nia.
Qed.

(** The key with the same bytes of a word shifted in. *)
Lemma insert_key_agrees mem a1 a2 key :
  is_u32 mem -> is_u32 a1 -> is_u32 a2 -> is_hash key ->
  let alignment := Z.land a1 3 in
  let n := Z.min (u32 (4 - alignment)) a2 in
  MIPS.insert_key mem a1 a2 key =
    (be_decode (copy_at (Z.to_nat (32 - n)) (drop (Z.to_nat alignment) (be_encode 4 mem))
       (copy_at 0 (drop (Z.to_nat n) (be_encode 32 key)) (be_encode 32 key))), n).
Proof.
  intros Hm Ha1 Ha2 Hkey alignment n. unfold MIPS.insert_key. cbv zeta. fold alignment.
  destruct (byte_index a1) as [_ Hk4]. set (al := Z.to_nat (a1 mod 4)) in *.
  assert (alignment = Z.of_nat al) as Eal.
  { subst alignment al. change 3 with (2 ^ 2 - 1). rewrite land_mask by lia. pose proof (Z.mod_pos_bound a1 (2 ^ 2)). change (2 ^ 2) with 4 in *. lia. }
  assert ((if 4 - alignment <? a2 then 4 - alignment else a2) = n) as ->.
  { subst n. rewrite u32_small by lia. case_if; lia. }
  set (d := Z.to_nat n). assert (n = Z.of_nat d /\ (al + d <= 4)%nat) as [Ed Had].
  { subst d n. rewrite u32_small by lia. destruct Ha2. lia. }
  f_equal. rewrite Eal, Ed, !Nat2Z.id.
  pose proof (length_be_encode 32 key) as Hlk. set (kb := be_encode 32 key) in *.
  pose proof (length_be_encode 4 mem) as Hlm. set (mb := be_encode 4 mem) in *.
  assert (be_decode kb = key) as Ek by (by apply be_decode_encode_small).
  assert (be_decode mb = mem) as Em by (by apply be_decode_encode_small).
  transitivity (be_decode (drop d kb ++ take d (drop al mb))).
  - pose proof (shl256_bytes (take d kb) (drop d kb)) as Hshl. rewrite take_drop, length_take, Hlk, Nat.min_l, Ek in Hshl by lia.
    rewrite (Z.mul_comm (Z.of_nat d) 8), Hshl by lia.
    assert (u256 (shl256 (8 * Z.of_nat d) 1 - 1) = 2 ^ (8 * Z.of_nat d) - 1) as ->.
    { clear -Had. do 5 (destruct d as [|d]; [reflexivity|]). lia. }
    pose proof (extract_bytes_shift mb al d) as Hex. rewrite Hlm, Em in Hex.
    unfold shr256. destruct (Z.leb_spec 256 ((4 - Z.of_nat al - Z.of_nat d) * 8)); [lia|].
    replace ((4 - Z.of_nat al - Z.of_nat d) * 8) with (8 * Z.of_nat (4 - al - d)) by lia. rewrite Hex by lia.
    rewrite <- be_lor, length_take, length_drop, Hlm. do 4 f_equal. lia.
  - f_equal. unfold copy_at, splice. rewrite !length_app, !length_drop, !length_take, !length_drop, Hlk, Hlm.
    replace (Z.to_nat (32 - Z.of_nat d)) with (32 - d)%nat by lia. rewrite take_0. cbn [app]. rewrite Nat.sub_0_r.
    rewrite (take_ge (drop d kb)) by (rewrite length_drop; lia).
    rewrite take_app_le, (take_ge (drop d kb)) by (rewrite length_drop; lia). f_equal.
    rewrite (drop_ge (_ ++ _)), app_nil_r; [f_equal; lia|]. rewrite length_app, !length_drop. lia.
Qed.

(** ** The call data of a step *)
Section StepInput.
Context `{Keccak}.

Lemma length_selector sig : length (selector sig) = 4%nat.
Proof. unfold selector. by rewrite length_take, length_be_encode. Qed.

Lemma uint32ToBytes32_word v : length (uint32ToBytes32 v) = 32%nat /\ (is_u32 v -> be_decode (uint32ToBytes32 v) = v).
Proof.
  unfold uint32ToBytes32. split; [by rewrite length_app, length_replicate, length_be_encode|].
  intros Hv. rewrite be_decode_pad. by apply be_decode_encode_small.
Qed.

(** Where everything is. *)
Lemma step_input_layout wit :
  length (wit_State wit) = 226%nat -> length (wit_MemProof wit) = 1792%nat ->
  EncodeStepInput wit =
    StepBytes4 ++ uint32ToBytes32 64 ++ uint32ToBytes32 352 ++ uint32ToBytes32 226 ++
    (wit_State wit ++ replicate 30 Byte.x00) ++ uint32ToBytes32 1792 ++ wit_MemProof wit.
Proof.
  intros Hs Hp. unfold EncodeStepInput. cbv zeta. rewrite Hs, Hp, length_app, Hs, length_replicate. reflexivity.
Qed.

(** An argument of type [bytes] that is where its head says. *)
Lemma abi_bytes_at cd head rel len :
  load32 head cd = rel -> load32 (4 + rel) cd = len -> 0 <= rel < 2 ^ 32 -> 0 <= len < 2 ^ 32 ->
  4 + rel + 32 + len <= Z.of_nat (length cd) -> abi_bytes cd head = Ok (4 + rel + 32, len).
Proof.
  intros Hr Hl Hrb Hlb Hsz. unfold abi_bytes. rewrite Hr, Hl.
  destruct (Z.ltb_spec 18446744073709551615 rel), (Z.leb_spec (Z.of_nat (length cd)) (4 + rel + 31)),
    (Z.ltb_spec 18446744073709551615 len), (Z.ltb_spec (Z.of_nat (length cd)) (4 + rel + 32 + len)); try lia. done.
Qed.

Lemma call_unpacks wit root s sender o :
  state_ok s -> is_hash root -> wit_State wit = encode_state root s -> length (wit_MemProof wit) = 1792%nat ->
  MIPS.call (EncodeStepInput wit) sender o = (MIPS.run (EncodeStepInput wit) sender o (abs root s)).1 /\
  drop (Z.to_nat 388) (EncodeStepInput wit) = wit_MemProof wit.
Proof.
  intros Hs Hr Hw Hp. assert (length (wit_State wit) = 226%nat) as Hl by (rewrite Hw; by apply length_encode_state).
  pose proof (step_input_layout wit Hl Hp) as Hlay. set (cd := EncodeStepInput wit) in *.
  assert (length (StepBytes4) = 4%nat) as Hsel by apply length_selector.
  destruct (uint32ToBytes32_word 64) as [L1 V1]. destruct (uint32ToBytes32_word 352) as [L2 V2].
  destruct (uint32ToBytes32_word 226) as [L3 V3]. destruct (uint32ToBytes32_word 1792) as [L4 V4].
  assert (Z.of_nat (length cd) = 2180) as Hcd.
  { rewrite Hlay, !length_app, Hsel, L1, L2, L3, L4, Hl, Hp, length_replicate. lia. }
  assert (load32 4 cd = 64) as E1.
  { rewrite Hlay. rewrite (load32_at StepBytes4) by (rewrite ?Hsel; done). by apply V1. }
  assert (load32 36 cd = 352) as E2.
  { rewrite Hlay, app_assoc. rewrite (load32_at (StepBytes4 ++ _)) by (rewrite ?length_app, ?Hsel, ?L1; done). by apply V2. }
  assert (load32 68 cd = 226) as E3.
  { rewrite Hlay, 2!app_assoc. rewrite (load32_at ((StepBytes4 ++ _) ++ _)) by (rewrite ?length_app, ?Hsel, ?L1, ?L2; done). by apply V3. }
  assert (load32 356 cd = 1792) as E4.
  { rewrite Hlay, 4!app_assoc. rewrite load32_at by (rewrite ?length_app, ?Hsel, ?L1, ?L2, ?L3, ?Hl, ?length_replicate; done). by apply V4. }
  split.
  - unfold MIPS.call. assert (take 4 cd = StepBytes4) as -> by (rewrite Hlay; by apply take_app_exact).
    rewrite bool_decide_true by done. cbn [negb orb]. destruct (Nat.ltb_spec (length cd) 68); [lia|].
    rewrite (abi_bytes_at cd 4 64 226), (abi_bytes_at cd 36 352 1792) by (done || lia).
    replace (4 + 64 + 32) with 100 by lia. replace (4 + 352 + 32) with 388 by lia. cbn [Z.eqb Pos.eqb negb orb].
    apply (f_equal (fun s => (MIPS.run cd sender o s).1)).
    assert (100 = Z.of_nat (length (StepBytes4 ++ uint32ToBytes32 64 ++ uint32ToBytes32 352 ++ uint32ToBytes32 226))) as ->
      by (rewrite !length_app, Hsel, L1, L2, L3; done).
    eapply unpack_encode; [done..|]. rewrite Hlay, Hw, <- !app_assoc. reflexivity.
  - change (Z.to_nat 388) with 388%nat. rewrite Hlay, 5!app_assoc.
    apply drop_app_exact. rewrite !length_app, Hsel, L1, L2, L3, L4, Hl, length_replicate. done.
Qed.
End StepInput.
