(* ===== verification/MipsRefinement.v ===== *)
(** * The contract replays every step of the VM

    The machine of the contract follows the VM: for every handler, when the handler of the
    VM succeeds, the handler of the contract, started in the same state with the root of the
    memory in place of the memory, gives the hash of the state the VM reaches.  The proofs
    are those in the witness and the words of the preimage come from the oracle contract. *)
From S2P Require Import Prelude GoErrors GoBytes EthTypes Geth Solabi Bits.
From S2P Require Import MipsMemory MipsPage MipsMemorySpec MipsMemoryTheorems Mips MipsWords MipsSpec Evm MipsContract MipsReplay.
#[local] Open Scope Z_scope.
#[local] Opaque mem_node.

Section Refinement.
Context `{Keccak} `{!LawfulKeccak} {Q : Type} `{PreimageOracle Q}.
Variable sender : Z.
Implicit Types m : InstrumentedState Q.

(** What the contract sees of a state, and the hash that it computes for it. *)
Definition view (s : State) : MIPS.State := abs (mem_node (st_Memory s) 1) s.
Definition hash_of (s : State) : Hash := Keccak256Hash (encode_state (mem_node (st_Memory s) 1) s).

Lemma output_view s : MIPS.outputState (view s) = (Ok (hash_of s), view s).
Proof.
  unfold MIPS.outputState, bind, get, ret, hash_of, encode_state, view, abs. cbn [MIPS.s_memRoot MIPS.s_preimageKey
    MIPS.s_preimageOffset MIPS.s_pc MIPS.s_nextPC MIPS.s_lo MIPS.s_hi MIPS.s_heap MIPS.s_exitCode MIPS.s_exited MIPS.s_step MIPS.s_registers].
  destruct (st_Exited s); reflexivity.
Qed.

Lemma output_at c s : c = view s -> (MIPS.outputState c).1 = Ok (hash_of s).
Proof. intros ->. by rewrite output_view. Qed.

Lemma view_memory mem s : same_bytes (st_Memory s) mem -> view (set_Memory mem s) = view s.
Proof. intros Hs. unfold view. cbn [st_Memory set_Memory]. by rewrite (same_bytes_node (st_Memory s) mem) by (done || lia). Qed.

(** The key under which the oracle contract has a preimage. *)
Definition onchain_key (key : Hash) : Hash :=
  if shr256 248 key =? 1 then PreimageKeyLib.localize sender key else key.

(** The oracle contract has the part of the preimage that was read, if one was read. *)
Definition serves (o : PreimageOracle.Storage) (s : State) m' : Prop :=
  is_lastPreimageOffset m' = st_PreimageOffset s ->
  exists w n, is_hash w /\ 0 <= n <= 32 /\
    PreimageOracle.readPreimage o (onchain_key (st_PreimageKey s)) (st_PreimageOffset s) = Ok (w, n) /\
    take (Z.to_nat n) (be_encode 32 w) = take 32 (drop (Z.to_nat (st_PreimageOffset s)) (is_lastPreimage m')).

(** A handler of the contract agrees with a run of a handler of the VM from the state [s]
    to [m']. *)
Definition has_proof (cd : Data) m' : Prop := exists rest, drop (Z.to_nat (388 + 1 * 896)) cd = is_memProof m' ++ rest.
Definition replays (h : Data -> PreimageOracle.Storage -> M MIPS.State Hash) (s : State) m' : Prop :=
  forall cd o, has_proof cd m' -> serves o s m' -> (h cd o (view s)).1 = Ok (hash_of (is_state m')).
Definition returns {A} (h : Data -> PreimageOracle.Storage -> M MIPS.State A) (s : State) (a : A) m' : Prop :=
  forall cd o, has_proof cd m' -> serves o s m' -> h cd o (view s) = (Ok a, view (is_state m')).

(** ** Handlers without memory *)
Lemma replay_Jump linkReg dest m :
  wp (handleJump linkReg dest) (fun _ => replays (fun _ _ => MIPS.handleJump linkReg dest) (is_state m)) m.
Proof.
  apply wp_bind, wp_the_state. destruct (negb _) eqn:E; [done|]. apply wp_update. intros cd o _ _. cbn [is_state set_state].
  set (s := is_state m) in *. unfold MIPS.handleJump, bind, get, modify. cbv beta iota.
  change (negb (MIPS.s_nextPC (view s) =? u32 (MIPS.s_pc (view s) + 4))) with (negb (st_NextPC s =? u32 (st_PC s + 4))).
  rewrite E. destruct (linkReg =? 0); cbn [negb]; by apply output_at.
Qed.

Lemma replay_Branch opcode insn rtReg rs m :
  wp (handleBranch opcode insn rtReg rs) (fun _ => replays (fun _ _ => MIPS.handleBranch opcode insn rtReg rs) (is_state m)) m.
Proof.
  apply wp_bind, wp_the_state. destruct (negb _) eqn:E; [done|]. apply wp_update. intros cd o _ _. cbn [is_state set_state].
  set (s := is_state m) in *. unfold MIPS.handleBranch, bind, get, modify. cbv beta iota zeta.
  change (negb (MIPS.s_nextPC (view s) =? u32 (MIPS.s_pc (view s) + 4))) with (negb (st_NextPC s =? u32 (st_PC s + 4))).
  rewrite E, SE_imm. change (MIPS.reg rtReg (view s)) with (reg rtReg s).
  assert ((if (opcode =? 4) || (opcode =? 5)
           then (rs =? reg rtReg s) && (opcode =? 4) || negb (rs =? reg rtReg s) && (opcode =? 5)
           else if opcode =? 6 then i32 rs <=? 0 else if opcode =? 7 then 0 <? i32 rs
           else if opcode =? 1 then
             if Z.land (Z.shiftr insn 16) 31 =? 1 then 0 <=? i32 rs
             else if Z.land (Z.shiftr insn 16) 31 =? 0 then i32 rs <? 0 else false
           else false) = branch_taken opcode insn rs (reg rtReg s)) as ->.
  { unfold branch_taken. cbv zeta. repeat (case_if; try done); lia. }
  destruct (branch_taken _ _ _ _); by apply output_at.
Qed.

Lemma replay_Rd storeReg val c m :
  wp (handleRd storeReg val c) (fun _ => replays (fun _ _ => MIPS.handleRd storeReg val c) (is_state m)) m.
Proof.
  unfold handleRd. wp_step; [done|]. apply wp_update. intros cd o _ _. cbn [is_state set_state].
  unfold MIPS.handleRd. destruct (Z.ltb_spec storeReg 32); [|lia]. cbn [negb]. unfold bind, modify.
  destruct (negb (storeReg =? 0) && c); by apply output_at.
Qed.

Lemma replay_HiLo fun_ rs rt storeReg m :
  is_u32 rt -> wp (handleHiLo fun_ rs rt storeReg) (fun _ => replays (fun _ _ => MIPS.handleHiLo fun_ rs rt storeReg) (is_state m)) m.
Proof.
  intros Hrt. apply wp_bind, wp_the_state. set (s := is_state m).
  assert ((i32 rt =? 0) = (rt =? 0)) as Hi by (unfold i32, is_u32 in *; case_if; destruct (Z.eqb_spec rt 0); lia || (apply Z.eqb_neq; lia)).
  apply wp_bind. eapply wp_mono with (Q := fun val m1 => forall k,
    (MIPS.handleHiLo fun_ rs rt storeReg (view s)).1 = Ok k <->
    (((if negb (storeReg =? 0) then modify (MIPS.set_reg storeReg val) else ret tt) ;;;
      modify MIPS.advance ;;; MIPS.outputState) (view (is_state m1))).1 = Ok k).
  - unfold MIPS.handleHiLo, bind at 1, get. rewrite Hi. fold s.
    destruct (fun_ =? 16); [by apply wp_ret|].
    destruct (fun_ =? 17); [apply wp_bind, wp_update, wp_ret; done|].
    destruct (fun_ =? 18); [by apply wp_ret|].
    destruct (fun_ =? 19); [apply wp_bind, wp_update, wp_ret; done|].
    destruct (fun_ =? 24); [apply wp_bind, wp_update, wp_ret; done|].
    destruct (fun_ =? 25); [apply wp_bind, wp_update, wp_ret; done|].
    destruct (fun_ =? 26); [destruct (rt =? 0); [done|]; apply wp_bind, wp_update, wp_ret; done|].
    destruct (fun_ =? 27); [destruct (rt =? 0); [done|]; apply wp_bind, wp_update, wp_ret; done|].
    by apply wp_ret.
  - intros val m1 Hk. apply wp_update. intros cd o _ _. apply Hk. unfold bind, modify, ret. cbn [is_state set_state].
    destruct (storeReg =? 0); cbn [negb]; by apply output_at.
Qed.

(** ** The access to memory *)

(** No word was accessed yet in the step; the word at [a] was, and its proof is recorded. *)
Definition unaccessed m : Prop := is_memProofEnabled m = true /\ is_lastMemAccess m = 4294967295.
Definition accessed a m : Prop :=
  is_memProofEnabled m = true /\ is_lastMemAccess m = a /\ is_memProof m = proof_of (st_Memory (is_state m)) a.

Lemma proof_of_same mem mem' a : is_u32 a -> same_bytes mem mem' -> proof_of mem' a = proof_of mem a.
Proof.
  intros Ha Hs. unfold proof_of. pose proof (leaf_index_bounds a Ha) as Hl. do 3 f_equal.
  - apply same_bytes_node; [lia|done].
  - unfold siblings. apply list_fmap_ext. intros i x [-> Hi]%lookup_seq. apply same_bytes_node; [|done].
    apply sibling_bounds; [exact Ha|lia].
Qed.

Lemma same_bytes_trans mem1 mem2 mem3 : same_bytes mem1 mem2 -> same_bytes mem2 mem3 -> same_bytes mem1 mem3.
Proof. intros H1' H2' a. by rewrite H2', H1'. Qed.

Lemma written_same mem mem1 mem' a bs : same_bytes mem mem1 -> written mem1 mem' a bs -> written mem mem' a bs.
Proof. intros Hs Hw i. by rewrite Hw, Hs. Qed.

(** The machine after a memory access that changes nothing but caches. *)
Definition cached m m' : Prop :=
  (exists mem', is_state m' = set_Memory mem' (is_state m) /\ mem_inv mem' /\ same_bytes (st_Memory (is_state m)) mem') /\
  same_preimage m m'.

Lemma cached_view m m' : cached m m' -> view (is_state m') = view (is_state m).
Proof. intros [(mem' & -> & _ & Hs) _]. by apply view_memory. Qed.

Lemma wp_access a (P : unit -> InstrumentedState Q -> Prop) m :
  mem_inv (st_Memory (is_state m)) -> unaccessed m -> is_u32 a -> a <> 4294967295 ->
  (forall m', cached m m' -> accessed a m' -> P tt m') -> wp (trackMemAccess a) P m.
Proof.
  intros Hi [He Hl] Ha Hn Hp. apply wp_track; [done|done|intros [Hf|Hf]; congruence|].
  intros _ _ mem' Hi' Hs. apply Hp.
  - split; [|done]. exists mem'. done.
  - split; [done|split; [done|]]. symmetry. exact (proof_of_same (st_Memory (is_state m)) mem' a Ha Hs).
Qed.

Lemma wp_access_again a (P : unit -> InstrumentedState Q -> Prop) m : accessed a m -> P tt m -> wp (trackMemAccess a) P m.
Proof.
  intros (He & Hl & _) Hp. unfold trackMemAccess. apply wp_bind, wp_get. rewrite Hl, Z.eqb_refl. cbn [negb]. rewrite andb_false_r. done.
Qed.

Lemma wp_load a (P : Z -> InstrumentedState Q -> Prop) m :
  mem_inv (st_Memory (is_state m)) -> is_u32 a ->
  (a mod 4 = 0 -> forall m', cached m m' -> same_proof m m' -> P (mem_word (st_Memory (is_state m)) a) m') ->
  wp (on_memory (GetMemory a)) P m.
Proof.
  intros Hi Ha Hp. apply wp_on_memory, wp_GetMemory; [done|done|]. intros Hal mem' Hi' Hs. apply Hp; [done| |done].
  split; [|done]. by exists mem'.
Qed.

(** The proof at the second place of the call data is that of the word that was accessed. *)
Lemma accessed_proof cd mem a m' : is_memProof m' = proof_of mem a -> has_proof cd m' -> proof_at cd 1 mem a.
Proof. intros Hp [rest Hd]. exists rest. by rewrite Hd, Hp. Qed.

(** ** System calls *)
Lemma returns_ret (v : Z * Z) m (h : Data -> PreimageOracle.Storage -> M MIPS.State (Z * Z)) :
  (forall cd o, h cd o (view (is_state m)) = (Ok v, view (is_state m))) -> wp (ret v) (returns h (is_state m)) m.
Proof. intros Hh. apply wp_ret. intros cd o _ _. apply Hh. Qed.

Lemma replay_mmap a0 a1 m : wp (syscall_mmap a0 a1) (returns (fun _ _ => MIPS.mmap a0 a1) (is_state m)) m.
Proof.
  unfold syscall_mmap, MIPS.mmap. destruct (a0 =? 0).
  - apply wp_bind, wp_the_state, wp_bind, wp_update, wp_ret. by intros cd o _ _.
  - apply wp_ret. by intros cd o _ _.
Qed.

Lemma replay_read a0 a1 a2 m :
  vm_ok m -> unaccessed m -> is_u32 a1 -> is_u32 a2 ->
  wp (syscall_read a0 a1 a2) (returns (fun cd o => MIPS.read cd sender o a0 a1 a2) (is_state m)) m.
Proof.
  intros Hm Hu Ha1 Ha2. pose proof Hm as [Hs _]. unfold syscall_read, MIPS.read. destruct (a0 =? fdStdin); [by apply returns_ret|].
  destruct (a0 =? fdPreimageRead); [|by destruct (a0 =? fdHintRead); apply returns_ret].
  destruct (align_word a1 Ha1) as (Ha & Hal & Hne). set (a := Z.land a1 0xfffffffc) in *. set (s := is_state m) in *.
  apply wp_bind, wp_access; [apply Hs|done..|]. intros m1 Hc1 (_ & _ & Hp1).
  destruct Hc1 as [(mem1 & Hs1 & Hi1 & Hb1) _]. rewrite Hs1 in Hp1. cbn [st_Memory set_Memory] in Hp1.
  apply wp_bind, wp_load; [by rewrite Hs1|done|]. intros _ m2 [(mem2 & Hs2 & Hi2 & Hb2) _] (Hp2 & _).
  rewrite Hs1 in Hs2, Hb2 |- *. cbn [st_Memory set_Memory] in Hb2 |- *.
  apply wp_bind, wp_the_state, wp_bind, wp_readPreimage. intros m3 Hs3 (Hp3 & _) _ Hoff Hle. cbv zeta.
  rewrite Hs2 in Hs3, Hoff, Hle |- *. cbn [set_Memory st_PreimageOffset st_PreimageKey] in Hoff, Hle |- *.
  set (dat := take 32 _). set (datLen := Z.min a2 _). set (word := be_decode _).
  apply wp_bind, wp_on_memory, wp_SetMemory; [by rewrite Hs3|done|]. intros _ mem4 Hi4 Hw.
  apply wp_bind, wp_update, wp_ret. intros cd o Hcd Ho. cbn [is_state set_state with_memory] in *.
  rewrite Hs3 in Hw |- *. cbn [st_Memory set_Memory] in Hw.
  assert (same_bytes (st_Memory s) mem2) as Hb by (by eapply same_bytes_trans).
  assert (proof_at cd 1 (st_Memory s) a) as Hpr.
  { eapply accessed_proof; [|exact Hcd]. cbn. rewrite Hp3, Hp2, Hp1. by apply proof_of_same. }
  destruct (Ho ltac:(cbn; done)) as (w & n & Hw256 & Hn & Hread & Hdat). fold dat in Hdat.
  unfold bind at 1. rewrite (readMem_spec cd 1 a (st_Memory s)) by (done || lia).
  unfold bind at 1, get at 1. cbv zeta. change (MIPS.s_preimageKey (view s)) with (st_PreimageKey s).
  change (MIPS.s_preimageOffset (view s)) with (st_PreimageOffset s). fold (onchain_key (st_PreimageKey s)).
  unfold bind at 1, lift. rewrite Hread. cbn [fst snd].
  rewrite (insert_preimage_agrees _ a1 a2 w n dat) by (try done; apply be_decode_u32, length_mem_bytes).
  fold datLen.
  assert (be_decode (copy_at (Z.to_nat (Z.land a1 3)) (take (Z.to_nat datLen) dat) (be_encode 4 (mem_word (st_Memory s) a))) = word) as ->
    by (subst word; by rewrite (same_bytes_word (st_Memory s) mem1)).
  assert (is_u32 word) as Hword.
  { apply be_decode_u32. rewrite length_splice_at; rewrite ?length_be_encode; [done|]. destruct (byte_index a1). lia. }
  assert (is_u32 datLen) as Hdl by (subst datLen; pose proof (u32_is_u32 (4 - Z.land a1 3)); unfold is_u32 in *; lia).
  rewrite (u32_small word), (u32_small datLen) by done. unfold bind at 1.
  rewrite (writeMem_spec cd 1 a word (st_Memory s) mem4) by (done || (eapply written_same; [exact Hb|exact Hw])).
  unfold bind, modify, ret. reflexivity.
Qed.

Lemma replay_write a0 a1 a2 m :
  vm_ok m -> unaccessed m -> is_u32 a1 -> is_u32 a2 ->
  wp (syscall_write a0 a1 a2) (returns (fun cd o => MIPS.write cd a0 a1 a2) (is_state m)) m.
Proof.
  intros Hm Hu Ha1 Ha2. pose proof Hm as [Hs _]. unfold syscall_write, MIPS.write. set (s := is_state m) in *.
  destruct (a0 =? fdStdout) eqn:E1.
  { apply wp_bind, wp_on_memory, wp_ReadMemoryRange; [apply Hs|done|]. intros data mem1 Hi1 Hb1.
    apply wp_bind, wp_modify, wp_ret. intros cd o _ _. cbn [orb]. unfold ret. f_equal. symmetry. by apply (view_memory mem1 s). }
  destruct (a0 =? fdStderr) eqn:E2.
  { apply wp_bind, wp_on_memory, wp_ReadMemoryRange; [apply Hs|done|]. intros data mem1 Hi1 Hb1.
    apply wp_bind, wp_modify, wp_ret. intros cd o _ _. cbn [orb]. unfold ret. f_equal. symmetry. by apply (view_memory mem1 s). }
  destruct (a0 =? fdHintWrite) eqn:E3.
  { apply wp_bind, wp_on_memory, wp_ReadMemoryRange; [apply Hs|done|]. intros data mem1 Hi1 Hb1.
    apply wp_bind, wp_update, wp_bind, wp_the_state, wp_bind, wp_process_hints. intros m2 hints Hs2 _ _.
    apply wp_ret. intros cd o _ _. cbn [orb]. unfold ret. f_equal. rewrite Hs2. symmetry. by apply (view_memory mem1 s). }
  cbn [orb]. destruct (a0 =? fdPreimageWrite); [|by apply returns_ret].
  destruct (align_word a1 Ha1) as (Ha & Hal & Hne). set (a := Z.land a1 0xfffffffc) in *.
  apply wp_bind, wp_access; [apply Hs|done..|]. intros m1 Hc1 (_ & _ & Hp1).
  destruct Hc1 as [(mem1 & Hs1 & Hi1 & Hb1) _]. fold s in Hs1, Hb1. rewrite Hs1 in Hp1. cbn [st_Memory set_Memory] in Hp1.
  apply wp_bind, wp_load; [by rewrite Hs1|done|]. intros _ m2 [(mem2 & Hs2 & Hi2 & Hb2) _] (Hp2 & _).
  rewrite Hs1 in Hs2, Hb2 |- *. cbn [st_Memory set_Memory] in Hb2 |- *.
  apply wp_bind, wp_the_state, wp_bind, wp_update, wp_ret. intros cd o Hcd _. cbn [is_state set_state] in *.
  rewrite Hs2. cbn [st_PreimageKey set_Memory].
  assert (proof_at cd 1 (st_Memory s) a) as Hpr.
  { eapply accessed_proof; [|exact Hcd]. cbn. rewrite Hp2, Hp1. by apply proof_of_same. }
  unfold bind at 1. rewrite (readMem_spec cd 1 a (st_Memory s)) by (done || lia).
  unfold bind at 1, get at 1. change (MIPS.s_preimageKey (view s)) with (st_PreimageKey s).
  rewrite (insert_key_agrees _ a1 a2 (st_PreimageKey s)) by (try apply be_decode_u32, length_mem_bytes; try done; apply Hs).
  rewrite (same_bytes_word (st_Memory s) mem1) by done.
  unfold bind, modify, ret. f_equal. set (key := be_decode _).
  change (MIPS.set_preimageOffset 0 (MIPS.set_preimageKey key (view s)) = view (set_Memory mem2 (set_PreimageOffset 0 (set_PreimageKey key s)))).
  rewrite view_memory; [done|]. by eapply same_bytes_trans.
Qed.


Lemma replay_Syscall m :
  vm_ok m -> unaccessed m -> wp handleSyscall (fun _ => replays (fun cd o => MIPS.handleSyscall cd sender o) (is_state m)) m.
Proof.
  intros Hm Hu. pose proof Hm as [Hs _]. pose proof (fun i => reg_u32 i _ Hs) as Hr.
  apply wp_bind, wp_the_state. cbv zeta. set (s := is_state m) in *.
  destruct (reg 2 s =? sysExitGroup) eqn:E.
  { apply wp_update. intros cd o _ _. unfold MIPS.handleSyscall, bind, get, modify. cbv beta iota zeta.
    change (MIPS.reg 2 (view s) =? 4246) with (reg 2 s =? sysExitGroup). rewrite E. by apply output_at. }
  apply wp_bind. eapply wp_mono with (Q := fun v => returns (fun cd o =>
    if reg 2 s =? 4090 then MIPS.mmap (reg 4 s) (reg 5 s)
    else if reg 2 s =? 4045 then ret (MIPS.BRK_START, 0)
    else if reg 2 s =? 4120 then ret (1, 0)
    else if reg 2 s =? 4003 then MIPS.read cd sender o (reg 4 s) (reg 5 s) (reg 6 s)
    else if reg 2 s =? 4004 then MIPS.write cd (reg 4 s) (reg 5 s) (reg 6 s)
    else if reg 2 s =? 4055 then ret (MIPS.fcntl (reg 4 s) (reg 5 s))
    else ret (0, 0)) s v).
  - unfold sysMmap, sysBrk, sysClone, sysRead, sysWrite, sysFcntl.
    destruct (reg 2 s =? 4090); [apply replay_mmap|].
    destruct (reg 2 s =? 4045); [by apply returns_ret|].
    destruct (reg 2 s =? 4120); [by apply returns_ret|].
    destruct (reg 2 s =? 4003); [by apply replay_read|].
    destruct (reg 2 s =? 4004); [by apply replay_write|].
    destruct (reg 2 s =? 4055); by apply returns_ret.
  - intros v m1 Hret. apply wp_update. intros cd o Hcd Ho. specialize (Hret cd o Hcd Ho).
    unfold MIPS.handleSyscall, bind at 1, get. cbv beta zeta.
    change (MIPS.reg 2 (view s) =? 4246) with (reg 2 s =? sysExitGroup). rewrite E.
    change (MIPS.reg 2 (view s)) with (reg 2 s). change (MIPS.reg 4 (view s)) with (reg 4 s).
    change (MIPS.reg 5 (view s)) with (reg 5 s). change (MIPS.reg 6 (view s)) with (reg 6 s).
    unfold bind at 1. rewrite Hret. unfold bind, modify. cbn [is_state set_state]. by apply output_at.
Qed.

(** ** The step *)

(** The registers of the operands. *)
Lemma operands_view opcode insn s :
  (let rtReg := Z.land (Z.shiftr insn 16) 0x1F in
   if (opcode =? 0) || (opcode =? 0x1c) then (MIPS.reg rtReg (view s), Z.land (Z.shiftr insn 11) 0x1F)
   else if opcode <? 0x20 then
     (if (opcode =? 0xC) || (opcode =? 0xD) || (opcode =? 0xe) then Z.land insn 0xFFFF
      else MIPS.SE (Z.land insn 0xFFFF) 16, rtReg)
   else if (0x28 <=? opcode) || (opcode =? 0x22) || (opcode =? 0x26) then (MIPS.reg rtReg (view s), rtReg)
   else (0, rtReg)) = operands opcode insn s.
Proof. cbv zeta. by rewrite SE_imm. Qed.

(** The end of an instruction that may store a word. *)
Lemma replay_store (b : bool) rtReg storeAddr rdReg val m :
  vm_ok m -> is_u32 storeAddr -> is_u32 val -> (storeAddr <> 4294967295 -> accessed storeAddr m) ->
  wp ((if b then update (set_reg rtReg 1) else ret tt) ;;;
      (if negb (storeAddr =? 0xffffffff) then trackMemAccess storeAddr ;;; on_memory (SetMemory storeAddr val) else ret tt) ;;;
      handleRd rdReg val true)
    (fun _ => replays (fun cd o =>
      (if b then modify (MIPS.set_reg rtReg 1) else ret tt) ;;;
      (if negb (storeAddr =? 0xFFFFFFFF) then MIPS.writeMem cd storeAddr 1 val else ret tt) ;;;
      MIPS.handleRd rdReg val true) (is_state m)) m.
Proof.
  intros Hm Hst Hval Hacc. set (s := is_state m). set (s1 := if b then set_reg rtReg 1 s else s).
  assert (exists m1, (if b then update (set_reg rtReg 1) else ret tt) m = (Ok tt, m1) /\ is_state m1 = s1 /\ same_proof m m1) as (m1 & Hm1 & Hs1 & Hp1).
  { subst s1. destruct b; eexists; by repeat split. }
  assert (st_Memory s1 = st_Memory s) as Hmem1 by (subst s1; by destruct b).
  assert ((if b then modify (MIPS.set_reg rtReg 1) else ret tt) (view s) = (Ok tt, view s1)) as Hv1
    by (subst s1; by destruct b).
  apply wp_bind. eapply wp_eq; [exact Hm1|]. cbv beta iota.
  eapply wp_bind_ok with (R := fun _ m2 => is_memProof m2 = is_memProof m /\ forall cd, has_proof cd m ->
    (if negb (storeAddr =? 0xFFFFFFFF) then MIPS.writeMem cd storeAddr 1 val else ret tt) (view s1) = (Ok tt, view (is_state m2))).
  - destruct (Z.eqb_spec storeAddr 4294967295) as [|Hne]; cbn [negb].
    { apply wp_ret. rewrite Hs1. split; [apply Hp1|done]. }
    destruct (Hacc Hne) as (He & Hl & Hpr). destruct Hp1 as (Hp1 & Hl1 & He1).
    apply wp_bind, wp_access_again; [split; [congruence|]; split; [congruence|]; rewrite Hs1, Hmem1, Hp1; exact Hpr|].
    apply wp_on_memory, wp_SetMemory; [rewrite Hs1, Hmem1; apply Hm|done|]. intros Hal mem2 Hi2 Hw.
    rewrite Hs1, Hmem1 in Hw. split; [exact Hp1|]. intros cd Hcd.
    rewrite (writeMem_spec cd 1 storeAddr val (st_Memory s) mem2) by (done || lia || by eapply accessed_proof).
    unfold with_memory. cbn [is_state set_state]. rewrite Hs1. done.
  - intros [] m2 [Hp2 Hw2]. unfold handleRd. destruct (Z.leb_spec 32 rdReg); [done|]. apply wp_update.
    intros cd o [rest Hcd] _. cbn [is_memProof set_state] in Hcd. rewrite Hp2 in Hcd.
    unfold bind at 1. rewrite Hv1. unfold bind at 1. rewrite (Hw2 cd) by (by exists rest).
    unfold MIPS.handleRd. destruct (Z.ltb_spec rdReg 32); [|lia]. cbn [negb]. unfold bind, modify. cbn [is_state set_state].
    destruct (negb (rdReg =? 0) && true); by apply output_at.
Qed.

Lemma replay_finish insn rs rt mem rdReg rtReg storeAddr m :
  vm_ok m -> is_u32 rs -> is_u32 rt -> is_u32 mem -> is_u32 storeAddr ->
  (storeAddr <> 4294967295 -> accessed storeAddr m) -> (Z.shiftr insn 26 = 0 -> unaccessed m) ->
  wp (finish_step insn rs rt mem rdReg rtReg storeAddr)
    (fun _ => replays (fun cd o => MIPS.finish_step cd sender o insn rs rt mem rdReg rtReg storeAddr) (is_state m)) m.
Proof.
  intros Hm Hrs Hrt Hmem Hst Hacc Hun. unfold finish_step. cbv zeta. set (s := is_state m).
  set (opcode := Z.shiftr insn 26) in *. set (fun_ := Z.land insn 0x3f).
  apply wp_bind, wp_lift. intros val Hv. pose proof (execute_u32 _ _ _ _ _ Hrs Hrt Hmem Hv) as Hval.
  assert (result_map (fun v => Z.land v 0xffFFffFF) (MIPS.execute insn rs rt mem) = Ok val) as Hexec.
  { rewrite (execute_agrees _ _ _ _ _ Hrs Hrt Hmem Hv). cbn [result_map]. f_equal.
    change 0xffFFffFF with (2 ^ 32 - 1). rewrite land_mask by lia. by apply Z.mod_small. }
  assert (forall (h : M (InstrumentedState Q) unit) (k : Data -> PreimageOracle.Storage -> M MIPS.State Hash) m0,
    (forall cd o, MIPS.finish_step cd sender o insn rs rt mem rdReg rtReg storeAddr (view s) = k cd o (view s)) ->
    wp h (fun _ => replays k s) m0 ->
    wp h (fun _ => replays (fun cd o => MIPS.finish_step cd sender o insn rs rt mem rdReg rtReg storeAddr) s) m0) as Hk.
  { intros h k m0 Heq Hw. eapply wp_mono; [exact Hw|]. intros [] m' Hr cd o Hcd Ho. rewrite Heq. by apply Hr. }
  unfold MIPS.finish_step at 1 in Hk. cbv zeta in Hk. fold opcode fun_ in Hk. unfold bind at 1, lift in Hk. rewrite Hexec in Hk.
  destruct ((opcode =? 0) && (8 <=? fun_) && (fun_ <? 28) && ((fun_ =? 8) || (fun_ =? 9))) eqn:E1.
  { assert ((if fun_ =? 9 then rdReg else 0) = (if fun_ =? 8 then 0 else rdReg)) as ->.
    { apply andb_true_iff in E1 as [_ E1]. destruct (fun_ =? 8) eqn:E8, (fun_ =? 9) eqn:E9; zify_bools; done || lia. }
    eapply Hk; [by intros|]. apply replay_Jump. }
  destruct ((opcode =? 0) && (fun_ =? 10)); [eapply Hk; [by intros|apply replay_Rd]|].
  destruct ((opcode =? 0) && (fun_ =? 11)); [eapply Hk; [by intros|apply replay_Rd]|].
  destruct ((opcode =? 0) && (fun_ =? 12)) eqn:E4.
  { eapply Hk; [by intros|]. apply replay_Syscall; [done|]. apply Hun. by zify_bools. }
  destruct ((opcode =? 0) && (16 <=? fun_) && (fun_ <? 28)).
  { apply (Hk _ (fun _ _ => MIPS.handleHiLo fun_ rs rt rdReg)); [by intros|]. by apply replay_HiLo. }
  apply (Hk _ (fun cd _ =>
      (if (opcode =? 56) && negb (rtReg =? 0) then modify (MIPS.set_reg rtReg 1) else ret tt) ;;;
      (if negb (storeAddr =? 0xFFFFFFFF) then MIPS.writeMem cd storeAddr 1 val else ret tt) ;;;
      MIPS.handleRd rdReg val true)); [by intros|]. by apply replay_store.
Qed.

(** An instruction that is not a special one keeps the proof of the access. *)
Lemma finish_keeps_proof insn rs rt mem rdReg rtReg storeAddr m :
  vm_ok m -> is_u32 storeAddr -> (storeAddr <> 4294967295 -> accessed storeAddr m) -> Z.shiftr insn 26 <> 0 ->
  wp (finish_step insn rs rt mem rdReg rtReg storeAddr) (fun _ m' => is_memProof m' = is_memProof m) m.
Proof.
  intros Hm Hst Hacc Hop. unfold finish_step. cbv zeta. apply wp_bind, wp_lift. intros val _.
  apply Z.eqb_neq in Hop. rewrite Hop. cbn [andb].
  eapply wp_bind_ok with (R := fun _ m1 => same_proof m m1 /\ st_Memory (is_state m1) = st_Memory (is_state m)).
  { wp_step; [by apply wp_update|by apply wp_ret]. }
  intros [] m1 [(Hp1 & Hl1 & He1) Hmem1]. eapply wp_bind_ok with (R := fun _ m2 => is_memProof m2 = is_memProof m).
  - wp_step; [|by apply wp_ret]. destruct (Hacc ltac:(done)) as (He & Hl & Hp).
    apply wp_bind, wp_access_again; [split; [congruence|]; split; [congruence|]; rewrite Hmem1, Hp1; exact Hp|].
    apply wp_on_memory, wp_SetMemory; [rewrite Hmem1; apply Hm|done|]. by intros.
  - intros [] m2 Hp2. unfold handleRd. wp_step; [done|]. by apply wp_update.
Qed.

Lemma cached_ok m m' : vm_ok m -> cached m m' -> length (is_memProof m') = 896%nat -> vm_ok m'.
Proof. intros [Hs _] [(mem' & Hs' & Hi' & _) _] Hl. split; [rewrite Hs'; by apply set_Memory_ok|done]. Qed.

Lemma cached_serves o s m m' m'' : cached m m' -> st_PreimageKey s = st_PreimageKey (is_state m) ->
  st_PreimageOffset s = st_PreimageOffset (is_state m) -> serves o s m'' -> serves o (is_state m') m''.
Proof. intros [(mem' & Hs' & _) _] Hk Ho Hse. unfold serves in *. rewrite Hs'. cbn [set_Memory st_PreimageKey st_PreimageOffset]. by rewrite <- Hk, <- Ho. Qed.

(** What follows the fetch of an instruction. *)
Lemma replay_dispatch insn s m :
  vm_ok m -> unaccessed m -> is_u32 insn -> state_ok s -> st_PreimageKey s = st_PreimageKey (is_state m) ->
  wp (dispatch insn s) (fun _ => replays (fun cd o => MIPS.decode cd sender o insn (view s)) (is_state m)) m.
Proof.
  intros Hm Hu Hinsn Hs Hkey. pose proof (fun i => reg_u32 i _ Hs) as Hr. unfold dispatch, MIPS.decode. cbv zeta.
  set (opcode := Z.shiftr insn 26). pose proof (operands_view opcode insn s) as Hov. cbv zeta in Hov. rewrite Hov.
  destruct ((opcode =? 2) || (opcode =? 3)) eqn:E23.
  { assert ((if opcode =? 3 then 31 else 0) = (if opcode =? 2 then 0 else 31)) as ->
      by (destruct (opcode =? 2) eqn:?, (opcode =? 3) eqn:?; zify_bools; done || lia).
    apply replay_Jump. }
  pose proof (operands_words opcode insn s Hs) as Ho. destruct (operands opcode insn s) as [rt rdReg]. cbn [fst snd] in Ho.
  destruct Ho as [Hrt Hrd]. change (MIPS.reg (Z.land (Z.shiftr insn 21) 31) (view s)) with (reg (Z.land (Z.shiftr insn 21) 31) s). rewrite SE_imm.
  destruct (((4 <=? opcode) && (opcode <? 8)) || (opcode =? 1)); [apply replay_Branch|].
  destruct (Z.leb_spec 32 opcode) as [Hop|Hop].
  - set (rs := u32 (reg _ _ + _)). assert (is_u32 rs) as Hrs by apply u32_is_u32.
    destruct (align_word rs Hrs) as (Ha & Hal & Hne). set (a := Z.land rs 0xfffffffc) in *.
    set (store := (40 <=? opcode) && negb (opcode =? 48)).
    apply wp_bind, wp_access; [apply Hm|done..|]. intros m3 Hc3 Ha3.
    assert (vm_ok m3) as Hm3.
    { eapply cached_ok; [exact Hm|done|]. destruct Ha3 as (_ & _ & ->). apply length_proof_of. }
    apply wp_bind, wp_load; [apply Hm3|done|]. intros _ m4 Hc4 (Hp4 & Hl4 & He4).
    assert (vm_ok m4) as Hm4 by (eapply cached_ok; [exact Hm3|done|rewrite Hp4; apply Hm3]).
    destruct Ha3 as (He3 & Hl3 & Hp3).
    assert (accessed a m4) as Ha4.
    { split; [congruence|]. split; [congruence|]. rewrite Hp4, Hp3. destruct Hc4 as [(mem4 & -> & _ & Hb4) _].
      symmetry. by apply proof_of_same. }
    assert (mem_word (st_Memory (is_state m3)) a = mem_word (st_Memory (is_state m)) a) as ->.
    { destruct Hc3 as [(mem3 & -> & _ & Hb3) _]. by apply same_bytes_word. }
    assert (is_memProof m4 = proof_of (st_Memory (is_state m)) a) as Hp0.
    { rewrite Hp4, Hp3. destruct Hc3 as [(mem3 & -> & _ & Hb3) _]. by apply proof_of_same. }
    set (mem := mem_word _ a). assert (is_u32 mem) as Hmem by apply be_decode_u32, length_mem_bytes.
    assert (is_u32 (if store then a else 4294967295)) as Hst by (by destruct store).
    assert ((if store then a else 4294967295) <> 4294967295 -> accessed (if store then a else 4294967295) m4) as Hacc by (by destruct store).
    eapply wp_mono.
    { apply wp_and.
      - apply replay_finish; [done..|]. fold opcode. lia.
      - apply finish_keeps_proof; [done..|]. fold opcode. lia. }
    cbv beta. intros [] m' [Hrep Hkp] cd o Hcd Hse.
    assert (proof_at cd 1 (st_Memory (is_state m)) a) as Hpr by (eapply accessed_proof; [|exact Hcd]; by rewrite Hkp).
    unfold bind at 1. rewrite (readMem_spec cd 1 a (st_Memory (is_state m))) by (done || lia). fold mem.
    rewrite <- (cached_view m m3), <- (cached_view m3 m4) by done. apply Hrep; [done|].
    apply (cached_serves o _ m3 m4 m' Hc4 eq_refl eq_refl). exact (cached_serves o _ m m3 m' Hc3 eq_refl eq_refl Hse).
  - apply replay_finish; done.
Qed.

(** The contract, with the proof of the instruction and that of the access, follows a step. *)
Lemma replay_mipsStep m :
  vm_ok m -> unaccessed m ->
  wp mipsStep (fun _ m' => forall cd o, proof_at cd 0 (st_Memory (is_state m)) (st_PC (is_state m)) ->
    has_proof cd m' -> serves o (is_state m) m' ->
    (MIPS.run cd sender o (view (is_state m))).1 = Ok (hash_of (is_state m'))) m.
Proof.
  intros Hm Hu. pose proof Hm as [Hs Hlen]. apply wp_bind, wp_the_state. set (s := is_state m) in *.
  destruct (st_Exited s) eqn:Eex.
  { apply wp_ret. intros cd o _ _ _. unfold MIPS.run, bind at 1, get.
    assert (MIPS.s_exited (view s) = 1) as -> by (unfold view, abs; cbn [MIPS.s_exited]; by rewrite Eex). by apply output_at. }
  apply wp_bind, wp_update. set (m1 := set_state _ m).
  assert (vm_ok m1) as Hm1 by (split; [by apply set_Step_ok|done]).
  apply wp_bind, wp_load; [apply Hs|apply Hs|]. intros Hal m2 Hc2 (Hp2 & Hl2 & He2).
  assert (vm_ok m2) as Hm2 by (eapply cached_ok; [exact Hm1|done|by rewrite Hp2]).
  pose proof (cached_view _ _ Hc2) as Hv2. change (st_Memory (is_state m1)) with (st_Memory s).
  set (insn := mem_word (st_Memory s) (st_PC s)). assert (is_u32 insn) as Hinsn by apply be_decode_u32, length_mem_bytes.
  eapply wp_mono; [apply replay_dispatch; [done| |done|done|]|].
  - destruct Hu. split; [by rewrite He2|by rewrite Hl2].
  - by destruct Hc2 as [(mem2 & -> & _) _].
  - intros [] m' Hrep cd o Hpr Hcd Ho. unfold MIPS.run, bind at 1, get.
    assert (MIPS.s_exited (view s) = 0) as -> by (unfold view, abs; cbn [MIPS.s_exited]; by rewrite Eex). cbn [Z.eqb negb].
    change (MIPS.s_pc (view s)) with (st_PC s). unfold bind, modify.
    rewrite (readMem_spec cd 0 (st_PC s) (st_Memory s)) by (done || lia || apply Hs). fold insn.
    change (MIPS.set_step (u64 (MIPS.s_step (view s) + 1)) (view s)) with (view (is_state m1)). rewrite <- Hv2.
    apply Hrep; [done|]. by eapply cached_serves.
Qed.

(** ** A step with its witness *)

(** The machine in which the step itself runs: the flags are reset, and the proof of the
    instruction and the encoded state were computed. *)
Definition start_step m : InstrumentedState Q :=
  set_lastPreimageOffset 0xffffffff (set_lastMemAccess 0xffffffff (set_memProofEnabled true m)).

Definition witness_of (enc proof : Data) m' : StepWitness :=
  if negb (is_lastPreimageOffset m' =? 0xffffffff)
  then mkWitness enc (proof ++ is_memProof m') (is_lastPreimageKey m') (is_lastPreimage m') (is_lastPreimageOffset m')
  else mkWitness enc (proof ++ is_memProof m') 0 [] 0.

Lemma Step_unfolds m wit m' :
  vm_ok m -> Step true m = (Ok (Some wit), m') ->
  exists m1, cached (start_step m) m1 /\ vm_ok m1 /\ unaccessed m1 /\ mipsStep m1 = (Ok tt, m') /\
    wit = witness_of (encode_state (mem_node (st_Memory (is_state m)) 1) (is_state m))
            (proof_of (st_Memory (is_state m)) (st_PC (is_state m))) m'.
Proof.
  intros Hm. pose proof Hm as [Hs Hl].
  enough (wp (Step true) (fun wit m' => exists m1, cached (start_step m) m1 /\ vm_ok m1 /\ unaccessed m1 /\ mipsStep m1 = (Ok tt, m') /\
    wit = Some (witness_of (encode_state (mem_node (st_Memory (is_state m)) 1) (is_state m))
            (proof_of (st_Memory (is_state m)) (st_PC (is_state m))) m')) m) as Hw.
  { intros He. destruct (wp_run _ _ _ _ _ Hw He) as (m1 & H1' & H2' & H3' & H4' & [= ->]). by exists m1. }
  unfold Step. apply wp_bind, wp_modify, wp_bind. fold (start_step m). cbv iota.
  apply wp_bind, wp_the_state, wp_bind, wp_on_memory, wp_MerkleProof; [apply Hs|apply Hs|]. intros mem1 Hi1 Hb1.
  apply wp_bind, wp_EncodeWitness; [exact Hi1|]. intros mem2 Hi2 Hb2. apply wp_ret, wp_bind, wp_intro.
  cbn [is_state start_step set_lastPreimageOffset set_lastMemAccess set_memProofEnabled with_memory set_state] in *.
  intros [] m2 Hstep. apply wp_bind, wp_get, wp_ret.
  eexists. split; [|split; [|split; [|split; [exact Hstep|]]]].
  - split; [|done]. exists mem2. split; [done|]. split; [done|]. by eapply same_bytes_trans.
  - split; [|exact Hl]. cbn. by do 2 (apply set_Memory_ok; [|done]).
  - done.
  - cbn [st_Memory set_Memory] in *. rewrite (same_bytes_node (st_Memory (is_state m)) mem1) by (done || lia).
    unfold witness_of. by destruct (negb _).
Qed.

Lemma call_replays m wit m' o :
  vm_ok m -> Step true m = (Ok (Some wit), m') -> serves o (is_state m) m' ->
  MIPS.call (EncodeStepInput wit) sender o = Ok (hash_of (is_state m')).
Proof.
  intros Hm He Ho. pose proof Hm as [Hs Hl]. destruct (Step_unfolds m wit m' Hm He) as (m1 & Hc & Hm1 & Hu & Hstep & Hwit).
  assert (vm_ok m') as Hm' by exact (wp_run _ _ _ _ _ (mipsStep_ok m1 Hm1) Hstep).
  set (root := mem_node (st_Memory (is_state m)) 1) in *. set (pc := st_PC (is_state m)) in *.
  assert (wit_State wit = encode_state root (is_state m)) as Hst by (rewrite Hwit; unfold witness_of; by destruct (negb _)).
  assert (wit_MemProof wit = proof_of (st_Memory (is_state m)) pc ++ is_memProof m') as Hpf by (rewrite Hwit; unfold witness_of; by destruct (negb _)).
  assert (length (wit_MemProof wit) = 1792%nat) as Hlen by (rewrite Hpf, length_app, length_proof_of, (proj2 Hm'); done).
  destruct (call_unpacks wit root (is_state m) sender o Hs) as [-> Hd]; [apply mem_node_hash; lia|done..|].
  change (abs root (is_state m)) with (view (is_state m)). pose proof (cached_view _ _ Hc) as Hv.   change (is_state (start_step m)) with (is_state m) in Hv. rewrite <- Hv.
  pose proof (wp_run _ _ _ _ _ (replay_mipsStep m1 Hm1 Hu) Hstep) as Hrep. cbv beta in Hrep.
  assert (st_PC (is_state m1) = pc /\ proof_of (st_Memory (is_state m1)) pc = proof_of (st_Memory (is_state m)) pc) as [Hpc Hpr].
  { destruct Hc as [(mem1 & -> & _ & Hb) _]. split; [done|]. apply proof_of_same; [apply Hs|exact Hb]. }
  apply Hrep.
  - rewrite Hpc. exists (is_memProof m'). change (388 + 0 * 896) with 388. rewrite Hd, Hpf, Hpr. done.
  - exists []. change (Z.to_nat (388 + 1 * 896)) with (388 + 896)%nat. rewrite <- drop_drop. change 388%nat with (Z.to_nat 388).
    rewrite Hd, Hpf, app_nil_r. apply drop_app_exact. by rewrite length_proof_of.
  - exact (cached_serves o (is_state m) (start_step m) m1 m' Hc eq_refl eq_refl Ho).
Qed.
End Refinement.
