(* ===== verification/MipsOnchain.v ===== *)
(** * A step of the VM is proved on chain

    The preimage that a step reads, when it is loaded into the oracle contract with the call
    data of the witness, is what the contract reads; so the witness of a step is enough for
    the contract to compute the hash of the next state. *)
From S2P Require Import Prelude GoErrors GoBytes EthTypes Geth Solabi Bits.
From S2P Require Import MipsMemory MipsPage MipsMemorySpec MipsMemoryTheorems Mips MipsWords MipsSpec.
From S2P Require Import Evm MipsContract MipsReplay MipsRefinement.
#[local] Open Scope Z_scope.
#[local] Opaque mem_node.

Section Onchain.
Context `{Keccak} `{!LawfulKeccak} {Q : Type} `{PreimageOracle Q}.
Implicit Types m : InstrumentedState Q.

(** The type of a key, and the data that may be the preimage of a key: that of a hash has
    this hash. *)
Definition key_type (key : Hash) : Z := be_decode (take 1 (be_encode 32 key)).
Definition genuine (key : Hash) (data : Data) : Prop :=
  key_type key = Keccak256KeyType -> key = PreimageKeyLib.with_type 2 (Keccak256Hash data).

(** The oracle of the VM gives genuine data. *)
Definition honest_oracle : Prop :=
  forall key q data q', oracle_GetPreimage key q = (Ok data, q') -> genuine key data.

(** The cached preimage is that of the cached key, with its length in front. *)
Definition cache_ok m : Prop :=
  is_lastPreimageKey m = 0 /\ is_lastPreimage m = [] \/
  exists data, is_lastPreimage m = be_encode 8 (Z.of_nat (length data)) ++ data /\ genuine (is_lastPreimageKey m) data.

(** ** What a step does to the cached preimage *)
Definition preimage_of m := (is_lastPreimage m, is_lastPreimageKey m, is_lastPreimageOffset m).
Definition reads (key offset : Z) m m' : Prop :=
  preimage_of m' = preimage_of m \/
  cache_ok m' /\ is_lastPreimageKey m' = key /\ is_lastPreimageOffset m' = offset /\
  offset <= Z.of_nat (length (is_lastPreimage m')).

Lemma keeps_the_state : preserves (same preimage_of) (the_state (Q:=Q)).
Proof. by intros m r m' [= <- <-]. Qed.
Ltac keeps_preimage :=
  unfold on_memory, on_state, on_oracle, update; go_code;
  first [exact keeps_the_state | apply preserves_modify | apply preserves_zoom | idtac]; by intros.

Lemma keeps_Jump linkReg dest : preserves (same preimage_of) (handleJump (Q:=Q) linkReg dest).
Proof. unfold handleJump. keeps_preimage. Qed.
Lemma keeps_Branch opcode insn rtReg rs : preserves (same preimage_of) (handleBranch (Q:=Q) opcode insn rtReg rs).
Proof. unfold handleBranch. keeps_preimage. Qed.
Lemma keeps_Rd storeReg val c : preserves (same preimage_of) (handleRd (Q:=Q) storeReg val c).
Proof. unfold handleRd. keeps_preimage. Qed.
Lemma keeps_HiLo fun_ rs rt storeReg : preserves (same preimage_of) (handleHiLo (Q:=Q) fun_ rs rt storeReg).
Proof. unfold handleHiLo. keeps_preimage. Qed.
Lemma keeps_track addr : preserves (same preimage_of) (trackMemAccess (Q:=Q) addr).
Proof. unfold trackMemAccess. keeps_preimage. Qed.
Lemma keeps_memory {A} (f : M Memory A) : preserves (same preimage_of) (on_memory (Q:=Q) f).
Proof. keeps_preimage. Qed.
Lemma keeps_hints fuel : preserves (same preimage_of) (process_hints (Q:=Q) fuel).
Proof. induction fuel as [|fuel IH]; cbn [process_hints]; keeps_preimage. Qed.
Lemma keeps_mmap a0 a1 : preserves (same preimage_of) (syscall_mmap (Q:=Q) a0 a1).
Proof. unfold syscall_mmap. keeps_preimage. Qed.
Lemma keeps_write a0 a1 a2 : preserves (same preimage_of) (syscall_write (Q:=Q) a0 a1 a2).
Proof. pose proof keeps_hints. pose proof keeps_track. unfold syscall_write. keeps_preimage. Qed.

Lemma wp_keeps {A} (f : M (InstrumentedState Q) A) key offset m :
  preserves (same preimage_of) f -> wp f (fun _ m' => reads key offset m m') m.
Proof. intros Hf. apply wp_intro. intros a m' E. left. exact (Hf _ _ _ E). Qed.

Lemma wp_readPreimage_cache (Hh : honest_oracle) key offset m :
  cache_ok m -> wp (readPreimage key offset) (fun _ m' => cache_ok m' /\ is_lastPreimageKey m' = key /\
    is_lastPreimageOffset m' = offset /\ offset <= Z.of_nat (length (is_lastPreimage m'))) m.
Proof.
  intros Hc. unfold readPreimage. do 3 wp_step. wp_step.
  - do 3 wp_step. apply wp_zoom, wp_intro. intros data q Hq. wp_steps. split; [|done]. right. exists data. split; [done|]. by eapply Hh.
  - wp_steps. done.
Qed.

(** What comes before a system call changes neither the preimage nor the key and the
    offset. *)
Definition key_of m : Hash * Z := (st_PreimageKey (is_state m), st_PreimageOffset (is_state m)).
Definition idle m m' : Prop := preimage_of m' = preimage_of m /\ key_of m' = key_of m.
#[local] Instance idle_preorder : PreOrder idle.
Proof. split; unfold idle; red; intros; intuition congruence. Qed.

Lemma idle_memory {A} (f : M Memory A) : preserves idle (on_memory (Q:=Q) f).
Proof. intros m r m'. unfold on_memory, on_state, zoom. destruct (f _). by intros [= _ <-]. Qed.
Lemma idle_the_state : preserves idle (the_state (Q:=Q)).
Proof. by intros m r m' [= <- <-]. Qed.
Lemma idle_track addr : preserves idle (trackMemAccess (Q:=Q) addr).
Proof.
  pose proof (@idle_memory Data). unfold trackMemAccess. go_code; apply preserves_modify; by split.
Qed.

Lemma idle_reads key offset m m1 m2 : idle m m1 -> reads key offset m1 m2 -> reads key offset m m2.
Proof. intros [Hp _] [Hs|Hr]; [left; congruence|by right]. Qed.

Lemma wp_idle {A B} (f : M (InstrumentedState Q) A) (g : A -> M (InstrumentedState Q) B) m :
  preserves idle f ->
  (forall a m1, idle m m1 -> wp (g a) (fun _ m' => reads (st_PreimageKey (is_state m1)) (st_PreimageOffset (is_state m1)) m1 m') m1) ->
  wp (bind f g) (fun _ m' => reads (st_PreimageKey (is_state m)) (st_PreimageOffset (is_state m)) m m') m.
Proof.
  intros Hf Hg. apply wp_bind, wp_intro. intros a m1 E. pose proof (Hf _ _ _ E) as Hi. eapply wp_mono; [by apply Hg|].
  intros b m' Hr. pose proof (proj2 Hi) as Hk. injection Hk as Hk Ho. rewrite <- Hk, <- Ho. by eapply idle_reads.
Qed.

Lemma idle_cache m m1 : idle m m1 -> cache_ok m -> cache_ok m1.
Proof. intros [Hp _]. injection Hp as E1 E2 _. unfold cache_ok. by rewrite E1, E2. Qed.

(** A system call reads at most the preimage of the key of the state, at its offset. *)
Lemma syscall_reads (Hh : honest_oracle) m :
  cache_ok m -> wp handleSyscall (fun _ m' => reads (st_PreimageKey (is_state m)) (st_PreimageOffset (is_state m)) m m') m.
Proof.
  intros Hc. apply wp_idle; [apply idle_the_state|]. intros s m0 Hi0. apply (idle_cache m m0 Hi0) in Hc. clear m Hi0. cbv zeta.
  wp_step; [apply wp_update; by left|].
  apply wp_bind. eapply wp_mono; [|intros v m' Hr; apply wp_update; exact Hr].
  wp_step; [apply wp_keeps, keeps_mmap|]. do 2 (wp_step; [apply wp_ret; by left|]).
  wp_step; [|wp_step; [apply wp_keeps, keeps_write|wp_step; apply wp_ret; by left]].
  unfold syscall_read. wp_step; [apply wp_ret; by left|]. wp_step; [|wp_step; apply wp_ret; by left].
  apply wp_idle; [apply idle_track|]. intros [] m1 Hi1. apply (idle_cache m0 m1 Hi1) in Hc.
  apply wp_idle; [apply idle_memory|]. intros mem m2 Hi2. apply (idle_cache m1 m2 Hi2) in Hc.
  apply wp_bind, wp_the_state, wp_bind. eapply wp_mono; [by apply wp_readPreimage_cache|]. intros dat m3 Hr3. cbv zeta.
  apply wp_bind, wp_on_memory, wp_intro. intros [] mem4 _. apply wp_bind, wp_update, wp_ret. by right.
Qed.

Lemma step_reads (Hh : honest_oracle) m :
  cache_ok m -> wp mipsStep (fun _ m' => reads (st_PreimageKey (is_state m)) (st_PreimageOffset (is_state m)) m m') m.
Proof.
  intros Hc. apply wp_idle; [apply idle_the_state|]. intros s m0 Hi0. apply (idle_cache m m0 Hi0) in Hc.
  wp_step; [by left|]. apply wp_idle; [apply preserves_modify; by split|]. intros [] m1 Hi1. apply (idle_cache m0 m1 Hi1) in Hc.
  apply wp_idle; [apply idle_memory|]. intros insn m2 Hi2. apply (idle_cache m1 m2 Hi2) in Hc. unfold dispatch. cbv zeta.
  destruct (operands _ _ _) as [rt rdReg]. wp_step; [apply wp_keeps, keeps_Jump|]. wp_step; [apply wp_keeps, keeps_Branch|].
  assert (forall rs mem a b m3, cache_ok m3 -> wp (finish_step insn rs rt mem a (Z.land (Z.shiftr insn 16) 31) b)
    (fun _ m' => reads (st_PreimageKey (is_state m3)) (st_PreimageOffset (is_state m3)) m3 m') m3) as Hfin.
  { intros rs mem a b m3 Hc3. unfold finish_step. cbv zeta. apply wp_bind, wp_lift. intros val _.
    wp_step; [apply wp_keeps, keeps_Jump|]. do 2 (wp_step; [apply wp_keeps, keeps_Rd|]).
    wp_step; [by apply syscall_reads|]. wp_step; [apply wp_keeps, keeps_HiLo|]. apply wp_keeps.
    pose proof keeps_Rd. pose proof keeps_track. pose proof (@keeps_memory unit). keeps_preimage. }
  wp_step; [|by apply Hfin]. apply wp_idle; [apply idle_track|]. intros [] m3 Hi3. apply (idle_cache m2 m3 Hi3) in Hc.
  apply wp_idle; [apply idle_memory|]. intros mem m4 Hi4. apply (idle_cache m3 m4 Hi4) in Hc. by apply Hfin.
Qed.

(** ** Loading a preimage *)

(** A part of length-prefixed data [L], as the contract stores and reads it. *)
Lemma part_prefix L off k :
  0 <= off <= Z.of_nat (length L) ->
  let w := load32 off (L ++ replicate k Byte.x00) in
  is_hash w /\ take (Nat.min 32 (length L - Z.to_nat off)) (be_encode 32 w) = take 32 (drop (Z.to_nat off) L).
Proof.
  intros Ho w. subst w. unfold load32. rewrite drop_app_le by lia. rewrite <- app_assoc. set (z := replicate k _ ++ _).
  set (d := drop (Z.to_nat off) L). assert (length d = (length L - Z.to_nat off)%nat) as Hd by (subst d; by rewrite length_drop).
  assert (length (take 32 (d ++ z)) = 32%nat) as Hl
    by (subst z; rewrite length_take, !length_app, !length_replicate; lia).
  split.
  - pose proof (be_decode_range (take 32 (d ++ z))) as Hr. rewrite Hl in Hr. exact Hr.
  - rewrite be_encode_decode_len by done. rewrite take_take, <- Hd. rewrite Nat.min_l by lia.
    destruct (Nat.le_ge_cases 32 (length d)).
    + rewrite Nat.min_l by lia. by rewrite take_app_le by lia.
    + rewrite Nat.min_r, (take_ge d) by lia. by apply take_app_exact.
Qed.

Lemma store_reads key off part size o :
  0 <= off <= size + 8 -> 0 <= size < 2 ^ 32 ->
  PreimageOracle.readPreimage (PreimageOracle.store_part key off part size o) key off = Ok (part, Z.min 32 (size + 8 - off)).
Proof.
  intros Ho Hs. unfold PreimageOracle.readPreimage, PreimageOracle.part_ok, PreimageOracle.part_at, PreimageOracle.length_of.
  cbn [PreimageOracle.store_part PreimageOracle.preimagePartOk PreimageOracle.preimageParts PreimageOracle.preimageLengths].
  rewrite !lookup_insert_eq. unfold default, id. cbn [negb]. assert (2 ^ 40 < two256) as H256 by done. change (2 ^ 40) with 1099511627776 in H256.
  change (2 ^ 32) with 4294967296 in Hs.
  destruct (Z.leb_spec two256 (off + 32)); [lia|]. destruct (Z.leb_spec two256 (size + 8)); [lia|]. cbn [orb].
  destruct (Z.leb_spec (size + 8) (off + 32)); [|f_equal; f_equal; lia].
  destruct (Z.ltb_spec (size + 8) off); [lia|]. f_equal. f_equal. lia.
Qed.

(** The oracle has the part at an offset of the preimage, as the machine expects it. *)
Definition has_part (sender : Z) (o : PreimageOracle.Storage) (key : Hash) (L : Data) (off : Z) : Prop :=
  exists w n, is_hash w /\ 0 <= n <= 32 /\
    PreimageOracle.readPreimage o (onchain_key sender key) off = Ok (w, n) /\
    take (Z.to_nat n) (be_encode 32 w) = take 32 (drop (Z.to_nat off) L).

Lemma stored_has_part sender key L size off k o :
  Z.of_nat (length L) = size + 8 -> 0 <= size < 2 ^ 32 -> 0 <= off <= Z.of_nat (length L) ->
  has_part sender (PreimageOracle.store_part (onchain_key sender key) off (load32 off (L ++ replicate k Byte.x00)) size o) key L off.
Proof.
  intros Hl Hs Ho. destruct (part_prefix L off k Ho) as [Hw Ht]. eexists _, _. split; [exact Hw|]. split; [|split].
  - pose proof (Z.le_min_l 32 (size + 8 - off)). instantiate (1 := Z.min 32 (size + 8 - off)). lia.
  - apply store_reads; lia.
  - rewrite <- Ht. f_equal. lia.
Qed.

(** The type of a key on the stack of the contract. *)
Lemma key_type_shr key : is_hash key -> shr256 248 key = key_type key.
Proof.
  intros Hk. pose proof (be_shiftr (take 1 (be_encode 32 key)) (drop 1 (be_encode 32 key))) as Hb.
  rewrite take_drop, length_drop, length_be_encode, be_decode_encode_small in Hb by exact Hk. exact Hb.
Qed.

(** Setting the type that a key already has changes nothing. *)
Lemma ident_key key : is_hash key -> key_type key = 1 -> Z.lor (shl256 248 1) (Z.land key (not256 (shl256 248 0xFF))) = key.
Proof.
  intros Hk Ht. unfold key_type in Ht. set (kb := be_encode 32 key) in *.
  assert (length kb = 32%nat) as Hl by apply length_be_encode.
  assert (be_decode kb = key) as Ek by (by apply be_decode_encode_small).
  change (not256 (shl256 248 0xFF)) with (2 ^ (8 * Z.of_nat 31) - 1). change (shl256 248 1) with (1 * 2 ^ (8 * Z.of_nat 31)).
  pose proof (be_land (take 1 kb) (drop 1 kb)) as H1'. rewrite take_drop, length_drop, Hl, Ek in H1'. change (32 - 1)%nat with 31%nat in H1'. rewrite H1', <- Ht.
  pose proof (be_lor (take 1 kb) (drop 1 kb)) as H2'. rewrite take_drop, length_drop, Hl, Ek in H2'. change (32 - 1)%nat with 31%nat in H2'. exact H2'.
Qed.

Lemma loaded_local sender input key data off o :
  is_hash key -> key_type key = 1 -> is_u32 off -> (length data <= 32)%nat -> off <= Z.of_nat (length data) + 8 ->
  input = LoadLocalDataBytes4 ++ be_encode 32 key ++ copy_at 0 data (replicate 32 Byte.x00) ++
          uint32ToBytes32 (Z.of_nat (length data)) ++ uint32ToBytes32 off ->
  exists o', PreimageOracle.call sender input o = Ok o' /\
    has_part sender o' key (be_encode 8 (Z.of_nat (length data)) ++ data) off.
Proof.
  intros Hk Ht Hoff Hd Hle Hin. set (word := copy_at 0 data (replicate 32 Byte.x00)) in *.
  assert (word = data ++ replicate (32 - length data) Byte.x00) as Hw.
  { subst word. unfold copy_at, splice. rewrite length_replicate, take_0, (take_ge data) by lia. cbn [app]. f_equal.
    by rewrite drop_replicate, Nat.add_0_l. }
  assert (length word = 32%nat) as Hlw by (rewrite Hw, length_app, length_replicate; lia).
  assert (length LoadLocalDataBytes4 = 4%nat) as Hsel by apply length_selector.
  destruct (uint32ToBytes32_word (Z.of_nat (length data))) as [L1 V1]. destruct (uint32ToBytes32_word off) as [L2 V2].
  assert (load32 4 input = key) as E1.
  { rewrite Hin, (load32_at LoadLocalDataBytes4) by (rewrite ?Hsel, ?length_be_encode; done). by apply be_decode_encode_small. }
  assert (load32 36 input = be_decode word) as E2.
  { rewrite Hin, app_assoc, load32_at by (rewrite ?length_app, ?Hsel, ?length_be_encode; done). done. }
  assert (load32 68 input = Z.of_nat (length data)) as E3.
  { rewrite Hin, 2!app_assoc, load32_at by (rewrite ?length_app, ?Hsel, ?length_be_encode, ?Hlw; done). apply V1. unfold is_u32. lia. }
  assert (load32 100 input = off) as E4.
  { rewrite Hin, 3!app_assoc. rewrite <- (app_nil_r (uint32ToBytes32 off)).
    rewrite load32_at by (rewrite ?length_app, ?Hsel, ?length_be_encode, ?Hlw, ?L1; done). by apply V2. }
  unfold PreimageOracle.call. rewrite E1, E2, E3, E4. rewrite bool_decide_true by (rewrite Hin; by apply take_app_exact).
  destruct (Nat.ltb_spec (length input) 132) as [Hlt|_].
  { rewrite Hin, !length_app, Hsel, length_be_encode, Hlw, L1, L2 in Hlt. lia. }
  unfold PreimageOracle.loadLocalData. assert (2 ^ 32 < two256) as H256 by done. change (2 ^ 32) with 4294967296 in H256.
  destruct (Z.leb_spec two256 (Z.of_nat (length data) + 8)); [lia|].
  destruct (Z.ltb_spec (Z.of_nat (length data) + 8) off), (Z.ltb_spec 32 (Z.of_nat (length data))); try lia. cbn [orb].
  eexists. split; [reflexivity|]. rewrite be_encode_decode_len, Hw by done.
  unfold PreimageKeyLib.localizeIdent. rewrite ident_key by done.
  assert (PreimageKeyLib.localize sender key = onchain_key sender key) as ->.
  { unfold onchain_key. by rewrite key_type_shr, Ht by done. }
  assert (be_encode 8 (Z.of_nat (length data)) ++ (data ++ replicate (32 - length data) Byte.x00) ++ replicate 32 Byte.x00 =
    (be_encode 8 (Z.of_nat (length data)) ++ data) ++ replicate (32 - length data + 32) Byte.x00) as ->.
  { by rewrite replicate_add, <- !app_assoc. }
  apply stored_has_part; rewrite ?length_app, ?length_be_encode; unfold is_u32 in *; lia.
Qed.

Lemma loaded_keccak sender input key data off o :
  is_hash key -> key_type key = 2 -> genuine key data -> is_u32 off -> Z.of_nat (length data) < 4294967296 - 8 ->
  off <= Z.of_nat (length data) + 8 -> LoadLocalDataBytes4 <> LoadKeccak256PreimagePartBytes4 ->
  input = LoadKeccak256PreimagePartBytes4 ++ uint32ToBytes32 off ++ uint32ToBytes32 64 ++
          uint32ToBytes32 (Z.of_nat (length data)) ++ data ->
  exists o', PreimageOracle.call sender input o = Ok o' /\
    has_part sender o' key (be_encode 8 (Z.of_nat (length data)) ++ data) off.
Proof.
  intros Hk Ht Hg Hoff Hd Hle Hne Hin.
  assert (length LoadKeccak256PreimagePartBytes4 = 4%nat) as Hsel by apply length_selector.
  destruct (uint32ToBytes32_word (Z.of_nat (length data))) as [L1 V1]. destruct (uint32ToBytes32_word off) as [L2 V2].
  destruct (uint32ToBytes32_word 64) as [L3 V3].
  assert (Z.of_nat (length input) = 100 + Z.of_nat (length data)) as Hlen by (rewrite Hin, !length_app, Hsel, L1, L2, L3; lia).
  assert (load32 4 input = off) as E1.
  { rewrite Hin, (load32_at LoadKeccak256PreimagePartBytes4) by (rewrite ?Hsel; done). by apply V2. }
  assert (load32 36 input = 64) as E2.
  { rewrite Hin, app_assoc, load32_at by (rewrite ?length_app, ?Hsel, ?L2; done). by apply V3. }
  assert (load32 68 input = Z.of_nat (length data)) as E3.
  { rewrite Hin, 2!app_assoc, load32_at by (rewrite ?length_app, ?Hsel, ?L2, ?L3; done). apply V1. unfold is_u32. lia. }
  unfold PreimageOracle.call. assert (take 4 input = LoadKeccak256PreimagePartBytes4) as -> by (rewrite Hin; by apply take_app_exact).
  rewrite bool_decide_false, bool_decide_true by congruence.
  destruct (Nat.ltb_spec (length input) 68) as [Hlt|_]; [lia|].
  unfold PreimageOracle.loadKeccak256PreimagePart.
  rewrite (abi_bytes_at input 36 64 (Z.of_nat (length data))) by (done || lia).
  replace (4 + 64 + 32) with 100 by lia. rewrite E1, E3. assert (2 ^ 40 < two256) as H256 by done. change (2 ^ 40) with 1099511627776 in H256.
  rewrite u256_small by lia. destruct (Z.ltb_spec (Z.of_nat (length data) + 8) off); [lia|]. rewrite Nat2Z.id.
  assert (take (length data) (drop (Z.to_nat 100) input ++ replicate (length data) Byte.x00) = data) as ->.
  { assert (drop (Z.to_nat 100) input = data) as ->; [|by apply take_app_exact]. rewrite Hin, 3!app_assoc.
    apply drop_app_exact. by rewrite !length_app, Hsel, L1, L2, L3. }
  eexists. split; [reflexivity|]. rewrite <- (Hg Ht).
  assert (onchain_key sender key = key) as E by (unfold onchain_key; by rewrite key_type_shr, Ht by done).
  pose proof (stored_has_part sender key (be_encode 8 (Z.of_nat (length data)) ++ data) (Z.of_nat (length data)) off 0 o) as Hp.
  rewrite E, app_nil_r in Hp. apply Hp; rewrite ?length_app, ?length_be_encode; unfold is_u32 in *; lia.
Qed.

(** The input that is encoded for a witness loads the part that the step read. *)
Lemma input_loads sender wit input data o :
  is_hash (wit_PreimageKey wit) -> wit_PreimageValue wit = be_encode 8 (Z.of_nat (length data)) ++ data ->
  genuine (wit_PreimageKey wit) data -> is_u32 (wit_PreimageOffset wit) ->
  wit_PreimageOffset wit <= Z.of_nat (length (wit_PreimageValue wit)) -> Z.of_nat (length (wit_PreimageValue wit)) < 4294967296 ->
  LoadLocalDataBytes4 <> LoadKeccak256PreimagePartBytes4 -> EncodePreimageOracleInput wit = Ok input ->
  exists o', PreimageOracle.call sender input o = Ok o' /\
    has_part sender o' (wit_PreimageKey wit) (wit_PreimageValue wit) (wit_PreimageOffset wit).
Proof.
  intros Hk Hv Hg Hoff Hle Hlt Hne He. revert He. unfold EncodePreimageOracleInput.
  destruct (_ =? 0); [done|]. cbv zeta. fold (key_type (wit_PreimageKey wit)).
  assert (length (wit_PreimageValue wit) = (8 + length data)%nat) as Hl by (by rewrite Hv, length_app, length_be_encode).
  assert (drop 8 (wit_PreimageValue wit) = data) as -> by (rewrite Hv; apply drop_app_exact; by rewrite length_be_encode).
  assert (u32 (Z.of_nat (length (wit_PreimageValue wit)) - 8) = Z.of_nat (length data)) as -> by (rewrite u32_small; lia).
  destruct (Nat.ltb_spec (length (wit_PreimageValue wit)) 8); [lia|]. rewrite Hl in Hle, Hlt. rewrite Hv.
  destruct (Z.eqb_spec (key_type (wit_PreimageKey wit)) LocalKeyType) as [Ht|Ht].
  - destruct (Nat.ltb_spec 40 (length (be_encode 8 (Z.of_nat (length data)) ++ data))) as [|Hs]; [done|].
    rewrite length_app, length_be_encode in Hs. intros [= <-]. apply loaded_local; try done; lia.
  - destruct (Z.eqb_spec (key_type (wit_PreimageKey wit)) Keccak256KeyType) as [Ht'|Ht']; [|done].
    intros [= <-]. apply loaded_keccak; try done; lia.
Qed.

Lemma EncodeWitness_Ok s : mem_inv (st_Memory s) -> (EncodeWitness s).1 = Ok (encode_state (mem_node (st_Memory s) 1) s).
Proof.
  intros Hi. unfold EncodeWitness, bind, zoom, MerkleRoot.
  destruct (hash_spec 1 (st_Memory s) Hi ltac:(lia)) as (mem' & -> & _). reflexivity.
Qed.

(** C5: the contract replays the step.  From a well-formed state, when a step with proof
    succeeds, the contract [MIPS.sol], called with the input that is encoded for the
    witness, accepts both proofs, and returns the hash of the encoded state that the VM has
    reached; an oracle contract must have the part of the preimage that the step has read,
    if it has read one. *)
Theorem contract_replays_step sender o m wit m' :
  vm_ok m -> Step true m = (Ok (Some wit), m') ->
  (is_lastPreimageOffset m' = st_PreimageOffset (is_state m) ->
   has_part sender o (st_PreimageKey (is_state m)) (is_lastPreimage m') (st_PreimageOffset (is_state m))) ->
  exists enc, (EncodeWitness (is_state m')).1 = Ok enc /\
    MIPS.call (EncodeStepInput wit) sender o = Ok (Keccak256Hash enc).
Proof.
  intros Hm He Ho. eexists. split.
  - apply EncodeWitness_Ok. destruct (Step_unfolds m wit m' Hm He) as (m1 & _ & Hm1 & _ & Hstep & _).
    apply (wp_run _ _ _ _ _ (mipsStep_ok m1 Hm1) Hstep).
  - by apply (call_replays sender m wit m' o).
Qed.

(** C4: a step is proved on chain from its witness alone.  With an oracle that gives genuine
    preimages, for a step that succeeds from a well-formed state: if the witness has a
    preimage and it can be encoded, loading it succeeds on the contract
    [PreimageOracle.sol], and then [MIPS.sol], with the call data of the witness, returns
    the hash of the encoded state that the VM has reached.  The key zero is excluded: the VM
    reads it as an empty preimage that no contract has. *)
Theorem step_proved_onchain sender o m wit m' :
  honest_oracle -> LoadLocalDataBytes4 <> LoadKeccak256PreimagePartBytes4 ->
  vm_ok m -> cache_ok m -> st_PreimageKey (is_state m) <> 0 -> st_PreimageOffset (is_state m) < 4294967295 ->
  Step true m = (Ok (Some wit), m') -> Z.of_nat (length (is_lastPreimage m')) < 4294967296 ->
  (HasPreimage wit = true -> is_ok (EncodePreimageOracleInput wit) = true) ->
  exists o' enc,
    (if HasPreimage wit
     then exists input, EncodePreimageOracleInput wit = Ok input /\ PreimageOracle.call sender input o = Ok o'
     else o' = o) /\
    (EncodeWitness (is_state m')).1 = Ok enc /\
    MIPS.call (EncodeStepInput wit) sender o' = Ok (Keccak256Hash enc).
Proof.
  intros Hh Hne Hm Hc Hk0 Hoff0 He Hlen Henc. pose proof Hm as [Hs _].
  destruct (Step_unfolds m wit m' Hm He) as (m1 & Hc1 & Hm1 & Hu & Hstep & Hwit).
  assert (vm_ok m') as Hm' by exact (wp_run _ _ _ _ _ (mipsStep_ok m1 Hm1) Hstep).
  set (key := st_PreimageKey (is_state m)) in *. set (off := st_PreimageOffset (is_state m)) in *.
  assert (st_PreimageKey (is_state m1) = key /\ st_PreimageOffset (is_state m1) = off) as [Hk1 Ho1]
    by (destruct Hc1 as [(mem1 & -> & _) _]; done).
  destruct Hc1 as [_ (Hp1 & Hp2 & Hp3)]. change (is_lastPreimageOffset (start_step m)) with 4294967295 in Hp3.
  assert (cache_ok m1) as Hcm1 by (unfold cache_ok; rewrite Hp1, Hp2; exact Hc).
  pose proof (wp_run _ _ _ _ _ (step_reads Hh m1 Hcm1) Hstep) as Hr. cbv beta in Hr. rewrite Hk1, Ho1 in Hr.
  assert (forall o', (is_lastPreimageOffset m' = off -> has_part sender o' key (is_lastPreimage m') off) ->
    MIPS.call (EncodeStepInput wit) sender o' = Ok (Keccak256Hash (encode_state (mem_node (st_Memory (is_state m')) 1) (is_state m')))) as Hcall.
  { intros o' Ho'. by apply (call_replays sender m wit m' o'). }
  pose proof (EncodeWitness_Ok _ (so_mem _ (proj1 Hm'))) as Hw.
  destruct Hr as [Hsame|(Hcm' & Hkm & Hom & Hle)].
  - injection Hsame as E1 E2 E3. rewrite Hp3 in E3.
    assert (HasPreimage wit = false) as -> by (rewrite Hwit; unfold witness_of; by rewrite E3).
    exists o, (encode_state (mem_node (st_Memory (is_state m')) 1) (is_state m')). split; [done|]. split; [exact Hw|]. apply Hcall. lia.
  - assert (wit_PreimageKey wit = key /\ wit_PreimageValue wit = is_lastPreimage m' /\ wit_PreimageOffset wit = off) as (W1 & W2 & W3).
    { rewrite Hwit. unfold witness_of. rewrite Hom. destruct (Z.eqb_spec off 4294967295); [lia|]. by cbn. }
    assert (HasPreimage wit = true) as E by (unfold HasPreimage; rewrite W1; by apply negb_true_iff, Z.eqb_neq). rewrite E in *.
    specialize (Henc eq_refl). destruct (EncodePreimageOracleInput wit) as [input| |] eqn:Ein; [|done..].
    destruct Hcm' as [[Hz _]|(data & HL & Hg)]; [congruence|]. rewrite Hkm in Hg.
    destruct (input_loads sender wit input data o) as (o' & Hld & Hpart); rewrite ?W1, ?W2, ?W3; try done; [apply Hs|apply Hs|].
    rewrite W1, W2, W3 in Hpart. exists o', (encode_state (mem_node (st_Memory (is_state m')) 1) (is_state m')).
    split; [by exists input|]. split; [exact Hw|]. by apply Hcall.
Qed.
End Onchain.
