(* ===== verification/MipsExamples.v ===== *)
(** * The VM on concrete inputs

    A machine with one page of code that reads a preimage, on which the theorems about the
    memory, the instructions, the step and its replay on chain are applied. *)
From stdpp Require Import relations.
From S2P Require Import Prelude GoErrors GoBytes EthTypes Geth Solabi Bits.
From S2P Require Import MipsMemory MipsPage MipsMemorySpec MipsMemoryTheorems Mips MipsWords MipsSpec.
From S2P Require Import Evm MipsContract MipsReplay MipsRefinement MipsOnchain.
#[local] Open Scope Z_scope.

(** A hash that depends on every byte. *)
Definition toy_prime : Z := 2 ^ 256 - 189.
#[local] Instance toy_keccak : Keccak := {| Keccak256Hash bs := be_decode bs mod toy_prime |}.
#[local] Instance toy_lawful : LawfulKeccak.
Proof. split. intros bs. cbn. pose proof (Z.mod_pos_bound (be_decode bs) toy_prime eq_refl). unfold is_hash. assert (toy_prime < 256 ^ 32) by reflexivity. lia. Qed.

(** An oracle that knows one preimage, and counts the hints. *)
Definition toy_data : Data := (fun z => byte_of_Z z) <$> [10; 20; 30; 40; 50; 60].
Definition toy_key : Hash := PreimageKeyLib.with_type 2 (Keccak256Hash toy_data).
#[local] Instance toy_oracle : PreimageOracle nat := {|
  oracle_Hint := fun _ => modify S;
  oracle_GetPreimage := fun key => if key =? toy_key then ret toy_data else throw NotFound |}.

Lemma toy_honest : honest_oracle (Q:=nat).
Proof.
  intros key q data q'. cbn. destruct (Z.eqb_spec key toy_key) as [->|]; [|done]. intros [= <- _] _. reflexivity.
Qed.

(** The code: a system call. *)
Definition toy_memory : Memory := (SetMemory 0 0x0000000c NewMemory).2.
Lemma toy_reached : rtc mem_step NewMemory toy_memory.
Proof. apply rtc_once. by constructor. Qed.

Definition toy_state : State :=
  mkState toy_memory toy_key 8 0 4 0 0 0 0 false 7
    ([0; 0; 4003; 0; 5; 4098; 100] ++ replicate 25 0) [].
Definition toy_machine : InstrumentedState nat := NewInstrumentedState toy_state 0%nat.

Lemma toy_ok : vm_ok toy_machine.
Proof.
  split; [|reflexivity]. split; cbn [is_state toy_machine NewInstrumentedState toy_state st_Memory st_PreimageKey
    st_PreimageOffset st_PC st_NextPC st_LO st_HI st_Heap st_ExitCode st_Step st_Registers].
  - exact (reached_mem_inv _ toy_reached).
  - by_decide.
  - by_decide.
  - by_decide.
  - by_decide.
  - by_decide.
  - by_decide.
  - by_decide.
  - by_decide.
  - by_decide.
  - reflexivity.
  - by_decide.
  - reflexivity.
Qed.

(** ** Memory *)
Lemma memory_words_witness :
  exists m1 m2, SetMemory 8 0x01020304 toy_memory = (Ok tt, m1) /\
    GetMemory 8 m1 = (Ok (if decide (8 = 8) then u32 0x01020304 else mem_word toy_memory 8), m2) /\
    (GetMemory 8 toy_memory).1 = Ok (mem_word toy_memory 8).
Proof. apply (memory_words toy_memory 8 0x01020304 8 toy_reached); (reflexivity || (split; [discriminate|reflexivity])). Defined.

Lemma merkle_equals_reference_witness :
  exists m', MerkleizeSubtree 1 toy_memory = (Ok (mem_node toy_memory 1), m') /\ forall a, mem_byte m' a = mem_byte toy_memory a.
Proof. apply (merkle_equals_reference toy_memory 1 toy_reached). split; [discriminate|reflexivity]. Defined.

Lemma merkle_proof_verifies_witness :
  exists leaf sibs m' m2, MerkleProof 8 toy_memory = (Ok (concat (be_encode 32 <$> (leaf :: sibs))), m') /\
    length sibs = 27%nat /\
    be_decode (take 4 (drop (Z.to_nat (8 mod 32)) (be_encode 32 leaf))) = mem_word toy_memory 8 /\
    (MerkleRoot toy_memory).1 = Ok (climb (Z.shiftr 8 5) leaf sibs) /\
    SetMemory 8 5 m' = (Ok tt, m2) /\
    (MerkleRoot m2).1 = Ok (climb (Z.shiftr 8 5) (leaf_with 8 5 leaf) sibs).
Proof. apply (merkle_proof_verifies toy_memory 8 5 toy_reached); [split; [discriminate|reflexivity]|reflexivity]. Defined.

(** The root was computed; then a byte of the page of code is loaded. *)
Definition toy_hashed : Memory := (MerkleRoot toy_memory).2.
Definition toy_page : CachedPage := default new_page (page_at 0 toy_hashed).
Definition toy_root : Hash := match mem_nodes toy_hashed !! 1 with Some (Some h) => h | _ => 0 end.
Lemma toy_hashed_reached : rtc mem_step NewMemory toy_hashed.
Proof. eapply rtc_r; [exact toy_reached|]. apply (step_hash 1). split; [discriminate|reflexivity]. Qed.

Lemma range_keeps_stale_root_witness : (MerkleRoot (SetMemoryRange 16 [Byte.x01] toy_hashed).2).1 = Ok toy_root.
Proof.
  assert (page_at 0 toy_hashed = Some toy_page) as Hp by (vm_compute; reflexivity).
  assert (mem_nodes toy_hashed !! 1 = Some (Some toy_root)) as Hr by (vm_compute; reflexivity).
  apply (range_keeps_stale_root toy_hashed 0 toy_page 16 [Byte.x01] toy_root toy_hashed_reached Hp Hr); reflexivity.
Defined.

(** Loaded before the root is computed, the same byte gives another root. *)
Example fresh_root_differs :
  match (MerkleRoot (SetMemoryRange 16 [Byte.x01] toy_memory).2).1 with Ok h => h =? toy_root | _ => true end = false.
Proof. vm_compute. reflexivity. Qed.

(** ** Instructions *)
Lemma count_leading_ones_witness :
  exists n, leading_ones 33 0xf0000001 0 = Ok n /\ 0 <= n <= 32 /\
    2 ^ 32 - 2 ^ (32 - n) <= 0xf0000001 /\ (n < 32 -> 0xf0000001 < 2 ^ 32 - 2 ^ (31 - n)).
Proof. apply (count_leading_ones 0xf0000001). by_decide. Defined.

Definition toy_word : Data := [Byte.x01; Byte.x82; Byte.x03; Byte.x04].
Definition toy_register : Data := [Byte.x0a; Byte.x0b; Byte.x0c; Byte.x0d].
(** [lb] at an address that is 1 modulo 4. *)
Lemma partial_words_witness : 4294967170 = SE (be_decode (take 1 (drop 1 toy_word))) 8.
Proof.
  assert (execute (0x20 * 2 ^ 26) 4097 (be_decode toy_register) (be_decode toy_word) = Ok 4294967170) as He by reflexivity.
  destruct (partial_words (0x20 * 2 ^ 26) 4097 toy_word toy_register 4294967170 eq_refl eq_refl He) as [Hlb _].
  apply Hlb. reflexivity.
Defined.

Lemma arithmetic_shift_witness : execute 0x83 5 0x80000010 0 = Ok (u32 (Z.shiftr (i32 0x80000010) 2)).
Proof.
  destruct (arithmetic_shift 0x83 5 0x80000010) as [Hsra _]; [by_decide|by_decide|reflexivity|].
  apply Hsra. reflexivity.
Defined.

(** ** Steps *)
Lemma step_well_formed_witness :
  match Step true toy_machine with (Ok wit, m') => vm_ok m' /\ witness_sized true wit | _ => False end.
Proof.
  assert (is_ok (Step true toy_machine).1 = true) as Hok by (vm_compute; reflexivity).
  destruct (Step true toy_machine) as [[wit|e|] m'] eqn:E; [|discriminate Hok..].
  exact (step_well_formed true toy_machine wit m' toy_ok E).
Defined.

Definition toy_exited : InstrumentedState nat := set_state (set_Exited true toy_state) toy_machine.
Lemma exited_is_final_witness : mipsStep toy_exited = (Ok tt, toy_exited).
Proof. apply (exited_is_final toy_exited). reflexivity. Defined.

(** A branch at address 0, which is reached in the delay slot of a jump to 64. *)
Definition toy_branch : Memory := (SetMemory 0 0x10000001 NewMemory).2.
Definition toy_delay : InstrumentedState nat :=
  set_state (set_NextPC 64 (set_Memory toy_branch toy_state)) toy_machine.
Lemma no_branch_in_delay_slot_witness : (mipsStep toy_delay).1 = Panic.
Proof.
  apply (no_branch_in_delay_slot toy_delay); [|reflexivity|reflexivity| |].
  - destruct toy_ok as [Hs Hl]. split; [|exact Hl]. apply set_NextPC_ok; [|by_decide]. apply set_Memory_ok; [exact Hs|].
    apply reached_mem_inv, rtc_once. by constructor.
  - vm_compute. split; congruence.
  - discriminate.
Defined.

(** ** On chain *)
Lemma toy_selectors : LoadLocalDataBytes4 <> LoadKeccak256PreimagePartBytes4.
Proof. vm_compute. discriminate. Qed.
Definition empty_oracle : PreimageOracle.Storage := PreimageOracle.mkStorage ∅ ∅ ∅.

(** What the step of the machine leaves, checked by evaluation. *)
Definition replayable (r : result (option StepWitness) * InstrumentedState nat) : bool :=
  match r with
  | (Ok (Some wit), m') =>
      bool_decide (Z.of_nat (length (is_lastPreimage m')) < 4294967296) && HasPreimage wit &&
      is_ok (EncodePreimageOracleInput wit)
  | _ => false
  end.

Lemma step_proved_onchain_witness :
  match Step true toy_machine with
  | (Ok (Some wit), m') =>
      exists o' enc,
        (if HasPreimage wit
         then exists input, EncodePreimageOracleInput wit = Ok input /\ PreimageOracle.call 0xcafe input empty_oracle = Ok o'
         else o' = empty_oracle) /\
        (EncodeWitness (is_state m')).1 = Ok enc /\
        MIPS.call (EncodeStepInput wit) 0xcafe o' = Ok (Keccak256Hash enc)
  | _ => False
  end.
Proof.
  assert (replayable (Step true toy_machine) = true) as Hok by (vm_compute; reflexivity).
  destruct (Step true toy_machine) as [[[wit|]|e|] m'] eqn:E; [|discriminate Hok..].
  apply andb_true_iff in Hok as [Hok Hin]. apply andb_true_iff in Hok as [Hlen _]. apply bool_decide_eq_true in Hlen.
  apply (step_proved_onchain 0xcafe empty_oracle toy_machine wit m' toy_honest toy_selectors toy_ok).
  - left. split; reflexivity.
  - vm_compute. discriminate.
  - reflexivity.
  - exact E.
  - exact Hlen.
  - intros _. exact Hin.
Defined.

(** A machine whose step reads nothing: no oracle is needed. *)
Definition toy_adder : InstrumentedState nat :=
  NewInstrumentedState (set_Memory (SetMemory 0 0x00a41820 NewMemory).2 toy_state) 0%nat.
Lemma toy_adder_ok : vm_ok toy_adder.
Proof.
  destruct toy_ok as [Hs Hl]. split; [|reflexivity]. apply set_Memory_ok; [exact Hs|].
  apply reached_mem_inv, rtc_once. by constructor.
Qed.

Definition read_nothing (r : result (option StepWitness) * InstrumentedState nat) : bool :=
  match r with
  | (Ok (Some wit), m') => bool_decide (is_lastPreimageOffset m' = 4294967295)
  | _ => false
  end.

Lemma contract_replays_step_witness :
  match Step true toy_adder with
  | (Ok (Some wit), m') =>
      exists enc, (EncodeWitness (is_state m')).1 = Ok enc /\
        MIPS.call (EncodeStepInput wit) 0xcafe empty_oracle = Ok (Keccak256Hash enc)
  | _ => False
  end.
Proof.
  assert (read_nothing (Step true toy_adder) = true) as Hok by (vm_compute; reflexivity).
  destruct (Step true toy_adder) as [[[wit|]|e|] m'] eqn:E; [|discriminate Hok..].
  apply bool_decide_eq_true in Hok.
  apply (contract_replays_step 0xcafe empty_oracle toy_adder wit m' toy_adder_ok E).
  rewrite Hok. discriminate.
Defined.

(** The model, evaluated: the contract gives the hash of the next state. *)
Example replay_evaluates :
  match Step true toy_adder with
  | (Ok (Some wit), m') =>
      match MIPS.call (EncodeStepInput wit) 0xcafe empty_oracle, (EncodeWitness (is_state m')).1 with
      | Ok h, Ok enc => h =? Keccak256Hash enc
      | _, _ => false
      end
  | _ => false
  end = true.
Proof. vm_compute. reflexivity. Qed.
