(* ===== verification/Positions.v ===== *)
(** * Positions in the dispute game

    [op-challenger/game/fault/types/position.go]: a position as a depth and an index, and
    [contracts-bedrock/src/dispute/lib/LibPosition.sol]: the same as a generalized index.
    The theorems show that the two agree, so that the moves the challenger computes are
    those the contract makes. *)
From S2P Require Import Prelude GoErrors EthTypes Bits Evm.
#[local] Open Scope Z_scope.

(** ** [position.go] *)
Record Position := mkPosition {
  pos_depth : Z;
  pos_indexAtDepth : Z }.

#[export] Instance Position_eq_dec : EqDecision Position.
Proof. solve_decision. Defined.
#[export] Instance Position_countable : Countable Position.
Proof.
  refine (inj_countable' (fun p => (pos_depth p, pos_indexAtDepth p)) (fun q => mkPosition q.1 q.2) _).
  by intros [].
Defined.

(** A shift to the left of a 64-bit [int]; the count must not be negative. *)
Definition shl_int (x n : Z) : Z := if 64 <=? n then 0 else i64 (Z.shiftl x n).

(** [MSBIndex]: the loop shifts until nothing is left. *)
Fixpoint msb_loop (fuel : nat) (x out : Z) : Z :=
  match fuel with
  | O => out
  | S fuel' => if x =? 0 then out else msb_loop fuel' (Z.shiftr x 1) (i64 (out + 1))
  end.
Definition MSBIndex (x : Z) : Z := if x =? 0 then 0 else i64 (msb_loop 64 x 0 - 1).

Definition NewPositionFromGIndex (x : Z) : Position :=
  let depth := MSBIndex x in
  let indexAtDepth := Z.land (two64 - 1 - (if 64 <=? depth then 0 else u64 (Z.shiftl 1 depth))) x in
  mkPosition depth (i64 indexAtDepth).

Definition IsRootPosition (p : Position) : bool := (pos_depth p =? 0) && (pos_indexAtDepth p =? 0).

(** [TraceIndex]: a negative shift count panics. *)
Definition TraceIndex (p : Position) (maxDepth : Z) : result Z :=
  let rd := i64 (maxDepth - pos_depth p) in
  if rd <? 0 then Panic
  else Ok (u64 (Z.lor (shl_int (pos_indexAtDepth p) rd) (i64 (shl_int 1 rd - 1)))).

Definition boolToInt (b : bool) : Z := if b then 1 else 0.
Definition move (right : bool) (p : Position) : Position :=
  mkPosition (i64 (pos_depth p + 1)) (Z.lor (shl_int (pos_indexAtDepth p) 1) (boolToInt right)).
Definition parent (p : Position) : Position := mkPosition (i64 (pos_depth p - 1)) (Z.shiftr (pos_indexAtDepth p) 1).
Definition Attack (p : Position) : Position := move false p.
Definition Defend (p : Position) : Position := move false (move true (parent p)).

Definition ToGIndex (p : Position) : result Z :=
  if pos_depth p <? 0 then Panic else Ok (u64 (Z.lor (shl_int 1 (pos_depth p)) (pos_indexAtDepth p))).

(** ** [LibPosition.sol] *)
Module LibPosition.
Definition wrap (depth indexAtDepth : Z) : Z := u256 (shl256 depth 1 + indexAtDepth).

(** [depth]: two comparisons leave 32 bits, whose highest is found in a table. *)
Definition smear (x : Z) : Z :=
  let x := Z.lor x (shr256 1 x) in
  let x := Z.lor x (shr256 2 x) in
  let x := Z.lor x (shr256 4 x) in
  let x := Z.lor x (shr256 8 x) in
  Z.lor x (shr256 16 x).
Definition de_bruijn (x : Z) : Z :=
  byte256 (shr256 251 (u256 (x * shl256 224 0x07c4acdd)))
    0x0009010a0d15021d0b0e10121619031e080c141c0f111807131b17061a05041f.
Definition depth (position : Z) : Z :=
  let depth_ := shl256 6 (lt256 0xffffffffffffffff position) in
  let depth_ := Z.lor depth_ (shl256 5 (lt256 0xffffffff (shr256 depth_ position))) in
  u64 (Z.lor depth_ (de_bruijn (smear (shr256 depth_ position)))).

Definition indexAtDepth (position : Z) : Z := u64 (u256 (position - shl256 (depth position) 1)).
Definition left (position : Z) : Z := shl256 1 position.
Definition right (position : Z) : Z := Z.lor 1 (shl256 1 position).
Definition parent (position : Z) : Z := shr256 1 position.
Definition rightIndex (position maxDepth : Z) : Z :=
  let remaining := u256 (maxDepth - depth position) in
  Z.lor (shl256 remaining position) (u256 (shl256 remaining 1 - 1)).
Definition traceIndex (position maxDepth : Z) : Z :=
  let remaining := u256 (maxDepth - depth position) in
  u256 (Z.lor (shl256 remaining position) (u256 (shl256 remaining 1 - 1)) - shl256 maxDepth 1).
Definition traceAncestor (position : Z) : Z :=
  let lsb := Z.land (not256 position) (u256 (position + 1)) in
  let msb := depth lsb in
  let a := shr256 msb position in
  Z.lor a (iszero256 a).
Definition move (position : Z) (isAttack : bool) : Z :=
  shl256 1 (Z.lor (iszero256 (boolToInt isAttack)) position).
End LibPosition.

(** ** The table lookup computes the logarithm *)

(** Bit [i] of [y] is set when one of [n] bits of [x] from [i] on is. *)
Definition covers (n x y : Z) : Prop :=
  forall i, 0 <= i -> Z.testbit y i = true <-> exists j, 0 <= j < n /\ Z.testbit x (i + j) = true.

Lemma covers_step n x y : 0 <= n < 256 -> covers n x y -> covers (2 * n) x (Z.lor y (shr256 n y)).
Proof.
  intros Hn Hc i Hi. unfold shr256. case_if; [lia|]. rewrite Z.lor_spec, orb_true_iff, Z.shiftr_spec by lia.
  rewrite (Hc i), (Hc (i + n)) by lia. split.
  - intros [(j & Hj & Hb)|(j & Hj & Hb)]; [exists j|exists (n + j)]; (split; [lia|]); by rewrite ?Z.add_assoc.
  - intros (j & Hj & Hb). destruct (Z.lt_ge_cases j n); [left; exists j; by (split; [lia|])|right; exists (j - n)].
    split; [lia|]. by replace (i + n + (j - n)) with (i + j) by lia.
Qed.

Lemma smear_ones x : 0 < x < 2 ^ 32 -> LibPosition.smear x = Z.ones (Z.log2 x + 1).
Proof.
  intros Hx. assert (covers 32 x (LibPosition.smear x)) as Hc.
  { unfold LibPosition.smear. cbv zeta.
    apply (covers_step 16); [lia|]. apply (covers_step 8); [lia|]. apply (covers_step 4); [lia|].
    apply (covers_step 2); [lia|]. apply (covers_step 1); [lia|].
    intros i Hi. split; [intros Hb; exists 0; rewrite Z.add_0_r; by (split; [lia|])|]. intros (j & Hj & Hb).
    by replace i with (i + j) by lia. }
  pose proof (Z.log2_nonneg x) as H0. assert (Z.log2 x < 32) by (apply Z.log2_lt_pow2; lia).
  apply Z.bits_inj'. intros i Hi. apply eq_true_iff_eq. rewrite (Hc i Hi). destruct (Z.lt_ge_cases (Z.log2 x) i).
  - rewrite Z.ones_spec_high by lia. split; [|done]. intros (j & Hj & Hb). by rewrite Z.bits_above_log2 in Hb by lia.
  - rewrite Z.ones_spec_low by lia. split; [done|]. intros _. exists (Z.log2 x - i). split; [lia|].
    rewrite Z.add_comm, Z.sub_add. apply Z.bit_log2. lia.
Qed.

Lemma de_bruijn_ones k : 0 <= k < 32 -> LibPosition.de_bruijn (Z.ones (k + 1)) = k.
Proof.
  intros Hk. assert (Forall (fun n => LibPosition.de_bruijn (Z.ones (Z.of_nat n + 1)) = Z.of_nat n) (seq 0 32)) as Hall by by_decide.
  rewrite Forall_forall in Hall. specialize (Hall (Z.to_nat k)). rewrite Z2Nat.id in Hall by lia.
  apply Hall, elem_of_seq. lia.
Qed.

(** What a comparison leaves of a number: its high half, and the bits shifted out. *)
Lemma log2_shiftr x n : 0 <= n -> 2 ^ n <= x -> Z.log2 x = n + Z.log2 (Z.shiftr x n) /\ 0 < Z.shiftr x n.
Proof.
  intros Hn Hx. pose proof (Z.pow_pos_nonneg 2 n ltac:(lia) Hn).
  assert (0 < Z.shiftr x n) by (rewrite Z.shiftr_div_pow2 by done; apply Z.div_str_pos; lia).
  split; [|done]. rewrite Z.log2_shiftr by lia. assert (n <= Z.log2 x) by (apply Z.log2_le_pow2; lia). lia.
Qed.

Lemma shiftr_below x n k : 0 <= n -> 0 <= k -> 0 <= x < 2 ^ (n + k) -> Z.shiftr x n < 2 ^ k.
Proof.
  intros Hn Hk Hx. rewrite Z.shiftr_div_pow2 by done. rewrite Z.pow_add_r in Hx by done.
  pose proof (Z.pow_pos_nonneg 2 n ltac:(lia) Hn). apply Z.div_lt_upper_bound; lia.
Qed.

(** A comparison of [depth] yields [s] when the number has more than [s] bits, and after
    the shift by what it yields at most [s] bits are left. *)
Definition halving (s x : Z) : Z := if 2 ^ s <=? x then s else 0.

Lemma depth_compare k x : 0 <= k < 8 -> shl256 k (lt256 (2 ^ 2 ^ k - 1) x) = halving (2 ^ k) x.
Proof.
  intros Hk. unfold lt256, shl256, halving. assert ((256 <=? k) = false) as -> by lia.
  destruct (2 ^ 2 ^ k - 1 <? x) eqn:E1, (2 ^ 2 ^ k <=? x) eqn:E2; try lia; [|by rewrite Z.shiftl_0_l].
  rewrite Z.shiftl_1_l. apply Z.mod_small. split; [lia|]. apply Z.pow_lt_mono_r; lia.
Qed.

Lemma halving_spec s x : 0 <= s -> 0 < x < 2 ^ (s + s) ->
  Z.log2 x = halving s x + Z.log2 (Z.shiftr x (halving s x)) /\ 0 < Z.shiftr x (halving s x) < 2 ^ s.
Proof.
  intros Hs Hx. unfold halving. case_if; [|rewrite Z.shiftr_0_r; lia].
  destruct (log2_shiftr x s) as [? ?]; [lia..|]. split; [done|]. split; [done|]. apply shiftr_below; lia.
Qed.

(** [LibPosition.depth] of every position is the logarithm. *)
Lemma depth_log2 x : 0 < x < 2 ^ 128 -> LibPosition.depth x = Z.log2 x.
Proof.
  intros Hx. unfold LibPosition.depth. cbv zeta.
  change 0xffffffffffffffff with (2 ^ 2 ^ 6 - 1). change 0xffffffff with (2 ^ 2 ^ 5 - 1).
  rewrite !depth_compare by lia. change (2 ^ 6) with 64. change (2 ^ 5) with 32.
  destruct (halving_spec 64 x ltac:(lia) Hx) as [Hlog Hy]. set (d := halving 64 x) in *.
  assert (d = 0 \/ d = 64) as Hd by (subst d; unfold halving; case_if; lia).
  assert (shr256 d x = Z.shiftr x d) as -> by (unfold shr256; case_if; [lia|done]).
  destruct (halving_spec 32 (Z.shiftr x d) ltac:(lia) Hy) as [Hlog' Hz]. set (e := halving 32 _) in *.
  assert (e = 0 \/ e = 32) as He by (subst e; unfold halving; case_if; lia).
  assert (Z.lor d e = d + e) as -> by (by destruct Hd as [-> | ->], He as [-> | ->]).
  assert (shr256 (d + e) x = Z.shiftr (Z.shiftr x d) e) as ->
    by (rewrite Z.shiftr_shiftr by lia; unfold shr256; case_if; [lia|done]).
  rewrite smear_ones by done. pose proof (Z.log2_nonneg (Z.shiftr (Z.shiftr x d) e)).
  assert (Z.log2 (Z.shiftr (Z.shiftr x d) e) < 32) by (apply Z.log2_lt_pow2; lia).
  rewrite de_bruijn_ones by lia. rewrite Hlog, Hlog'. set (l := Z.log2 ((_ ≫ d) ≫ e)) in *.
  assert (Z.lor (d + e) l = d + e + l) as ->.
  { replace (d + e) with (Z.shiftr (d + e) 5 * 2 ^ 5) by (by destruct Hd as [-> | ->], He as [-> | ->]).
    apply lor_low_high; lia. }
  rewrite u64_small by (unfold two64; lia). lia.
Qed.

(** ** Positions of the challenger *)
Definition gindex (p : Position) : Z := 2 ^ pos_depth p + pos_indexAtDepth p.
Definition valid_pos (maxDepth : Z) (p : Position) : Prop :=
  0 <= pos_depth p <= maxDepth /\ 0 <= pos_indexAtDepth p < 2 ^ pos_depth p.

Lemma shl_int_small x n : 0 <= n < 64 -> 0 <= x -> x * 2 ^ n < 2 ^ 63 -> shl_int x n = x * 2 ^ n.
Proof.
  intros Hn Hx Hs. unfold shl_int. case_if; [lia|]. rewrite Z.shiftl_mul_pow2 by lia. apply i64_small.
  pose proof (Z.pow_pos_nonneg 2 n). nia.
Qed.

Lemma msb_loop_log2 fuel x out :
  0 < x < 2 ^ Z.of_nat fuel -> 0 <= out -> out + Z.of_nat fuel < 2 ^ 62 ->
  msb_loop fuel x out = out + Z.log2 x + 1.
Proof.
  revert x out. induction fuel as [|fuel IH]; intros x out Hx Ho Hf; [simpl in Hx; lia|].
  simpl msb_loop. case_if; [lia|]. rewrite i64_small by lia.
  rewrite Nat2Z.inj_succ, Z.pow_succ_r in Hx by lia.
  destruct (decide (x = 1)) as [->|Hne].
  - change (Z.shiftr 1 1) with 0. change (Z.log2 1) with 0. destruct fuel; simpl; lia.
  - destruct (log2_shiftr x 1) as [Hl Hp]; [lia..|]. rewrite IH; [lia| |lia..].
    split; [done|]. apply (shiftr_below x 1); rewrite ?Z.pow_add_r; lia.
Qed.

Lemma MSBIndex_log2 x : 0 < x < two64 -> MSBIndex x = Z.log2 x.
Proof.
  intros Hx. unfold MSBIndex. case_if; [lia|]. rewrite msb_loop_log2 by (unfold two64 in Hx; simpl; lia).
  assert (Z.log2 x < 64) by (apply Z.log2_lt_pow2; unfold two64 in Hx; lia). pose proof (Z.log2_nonneg x).
  rewrite i64_small; lia.
Qed.

Lemma gindex_log2 m p : valid_pos m p -> Z.log2 (gindex p) = pos_depth p.
Proof. intros [Hd Hi]. unfold gindex. apply Z.log2_unique; [lia|]. rewrite Z.pow_succ_r by lia. lia. Qed.

Lemma gindex_range m p : valid_pos m p -> 0 < gindex p < 2 ^ (m + 1).
Proof.
  intros [Hd Hi]. unfold gindex. pose proof (Z.pow_pos_nonneg 2 (pos_depth p)).
  pose proof (Z.pow_le_mono_r 2 (pos_depth p) m). rewrite Z.pow_add_r by lia. lia.
Qed.

(** Clearing the highest bit leaves the index. *)
Lemma clear_top d x : 0 <= d < 64 -> 2 ^ d <= x < 2 * 2 ^ d -> Z.land (two64 - 1 - 2 ^ d) x = x - 2 ^ d.
Proof.
  intros Hd Hx. apply Z.bits_inj'. intros i Hi.
  assert (x - 2 ^ d = x mod 2 ^ d) as -> by (apply (Z.mod_unique x (2 ^ d) 1); lia).
  rewrite Z.land_spec, Z.testbit_mod_pow2 by lia.
  replace (two64 - 1 - 2 ^ d) with (Z.ldiff (Z.ones 64) (2 ^ d)).
  - rewrite Z.ldiff_spec, Z.pow2_bits_eqb by lia. destruct (Z.eqb_spec d i) as [->|].
    + by rewrite Z.ltb_irrefl, andb_false_r.
    + rewrite andb_true_r. destruct (Z.ltb_spec i d); [by rewrite Z.ones_spec_low by lia|].
      rewrite (testbit_above (d + 1) x) by (rewrite ?Z.pow_add_r by lia; lia). apply andb_false_r.
  - rewrite <- Z.sub_nocarry_ldiff; [done|]. apply Z.bits_inj'. intros j Hj.
    rewrite Z.ldiff_spec, Z.pow2_bits_eqb, Z.bits_0 by lia. destruct (Z.eqb_spec d j) as [->|]; [|done].
    by rewrite Z.ones_spec_low by lia.
Qed.

Lemma gindex_roundtrip p : valid_pos 63 p -> NewPositionFromGIndex (gindex p) = p.
Proof.
  intros Hv. pose proof (gindex_log2 _ _ Hv) as Hl. pose proof (gindex_range _ _ Hv) as Hr. destruct Hv as [Hd Hi].
  unfold NewPositionFromGIndex. rewrite MSBIndex_log2 by (unfold two64; lia). rewrite Hl. cbv zeta.
  case_if; [lia|]. rewrite Z.shiftl_1_l, u64_small by (unfold gindex, two64 in *; lia).
  rewrite clear_top by (unfold gindex; lia). unfold gindex. pose proof (Z.pow_le_mono_r 2 (pos_depth p) 63).
  rewrite i64_small by lia. destruct p as [d i]. simpl. f_equal. lia.
Qed.

Lemma from_gindex x : 0 < x < two64 -> valid_pos 63 (NewPositionFromGIndex x) /\ gindex (NewPositionFromGIndex x) = x.
Proof.
  intros Hx. unfold NewPositionFromGIndex. rewrite MSBIndex_log2 by done. cbv zeta.
  assert (Z.log2 x < 64) by (apply Z.log2_lt_pow2; unfold two64 in Hx; lia). pose proof (Z.log2_nonneg x).
  destruct (Z.log2_spec x) as [Hl Hu]; [lia|]. rewrite Z.pow_succ_r in Hu by lia.
  case_if; [lia|]. rewrite Z.shiftl_1_l, u64_small by (unfold two64 in *; lia).
  rewrite clear_top by lia. pose proof (Z.pow_le_mono_r 2 (Z.log2 x) 63).
  rewrite i64_small by lia. unfold valid_pos, gindex. simpl. lia.
Qed.

Lemma ToGIndex_gindex p : valid_pos 63 p -> ToGIndex p = Ok (gindex p).
Proof.
  intros Hv. pose proof (gindex_range _ _ Hv) as Hr. destruct Hv as [Hd Hi]. unfold ToGIndex. case_if; [lia|]. f_equal.
  unfold gindex in *. set (d := pos_depth p) in *. set (i := pos_indexAtDepth p) in *.
  destruct (decide (d = 63)) as [E1|]; [rewrite E1 in *|].
  - change (shl_int 1 63) with (-1 * 2 ^ 63). rewrite lor_low_high by lia.
    unfold u64. symmetry. apply (Z.mod_unique _ _ (-1)); unfold two64; lia.
  - pose proof (Z.pow_le_mono_r 2 d 62). rewrite shl_int_small by lia. rewrite lor_low_high by lia.
    rewrite u64_small by (unfold two64; lia). lia.
Qed.

(** Moves: to the left child, or to the left child of the right neighbour. *)
Lemma gindex_Attack p : valid_pos 62 p -> valid_pos 63 (Attack p) /\ gindex (Attack p) = 2 * gindex p /\ pos_depth (Attack p) = pos_depth p + 1.
Proof.
  intros [Hd Hi]. pose proof (Z.pow_le_mono_r 2 (pos_depth p) 62). unfold Attack, move, valid_pos, gindex. simpl.
  rewrite Z.lor_0_r, i64_small, shl_int_small, Z.pow_add_r by lia. lia.
Qed.

Lemma gindex_Defend p : valid_pos 62 p -> 0 < pos_depth p ->
  valid_pos 63 (Defend p) /\ gindex (Defend p) = 2 * (2 * (gindex p / 2) + 1) /\ pos_depth (Defend p) = pos_depth p + 1.
Proof.
  intros [Hd Hi] Hnz. pose proof (Z.pow_le_mono_r 2 (pos_depth p) 62).
  unfold Defend, move, parent, valid_pos, gindex. simpl. set (d := pos_depth p) in *. set (i := pos_indexAtDepth p) in *.
  rewrite Z.shiftr_div_pow2 by lia. change (2 ^ 1) with 2.
  assert (2 ^ d = 2 ^ (d - 1) * 2) as E1 by (rewrite Z.mul_comm, <- Z.pow_succ_r by lia; f_equal; lia).
  rewrite E1, Z.div_add_l by lia. pose proof (Z.div_mod i 2 ltac:(lia)). pose proof (Z.mod_pos_bound i 2 ltac:(lia)).
  set (j := i / 2) in *. rewrite (i64_small (d - 1)) by lia. rewrite (i64_small (d - 1 + 1)) by lia. rewrite i64_small by lia.
  rewrite (shl_int_small j) by lia. rewrite (lor_low_high j 1 1) by lia.
  rewrite shl_int_small by lia. rewrite Z.lor_0_r, Z.sub_add, Z.pow_add_r by lia. fold d. lia.
Qed.

(** The index of the last leaf below a position. *)
Definition trace_index (g maxDepth : Z) : Z := (g + 1) * 2 ^ (maxDepth - Z.log2 g) - 1 - 2 ^ maxDepth.

Lemma TraceIndex_trace_index p m : valid_pos m p -> m <= 63 -> TraceIndex p m = Ok (trace_index (gindex p) m).
Proof.
  intros Hv Hm. unfold trace_index. rewrite (gindex_log2 _ _ Hv). destruct Hv as [Hd Hi]. unfold TraceIndex, gindex.
  set (d := pos_depth p) in *. set (i := pos_indexAtDepth p) in *. rewrite i64_small by lia. cbv zeta.
  case_if; [lia|]. f_equal. set (r := m - d) in *. assert (2 ^ m = 2 ^ d * 2 ^ r) as Hm2 by (rewrite <- Z.pow_add_r by lia; f_equal; lia).
  pose proof (Z.pow_le_mono_r 2 m 63). pose proof (Z.pow_pos_nonneg 2 r).
  assert ((i + 1) * 2 ^ r <= 2 ^ m) by nia.
  assert (i64 (shl_int 1 r - 1) = 2 ^ r - 1) as ->.
  { destruct (decide (r = 63)) as [-> |]; [by vm_compute|]. pose proof (Z.pow_le_mono_r 2 r 62).
    rewrite shl_int_small by lia. rewrite i64_small; lia. }
  rewrite shl_int_small by lia. rewrite lor_low_high by lia. rewrite u64_small by (unfold two64; lia). lia.
Qed.

(** ** Positions of the contract *)
Lemma lib_move_attack g : 0 <= g < 2 ^ 255 -> LibPosition.move g true = 2 * g.
Proof. intros. unfold LibPosition.move. change (iszero256 _) with 0. rewrite Z.lor_0_l, shl256_small by lia. lia. Qed.

Lemma lib_move_defend g : 0 <= g < 2 ^ 254 -> LibPosition.move g false = 2 * (2 * (g / 2) + 1).
Proof.
  intros. unfold LibPosition.move. change (iszero256 _) with 1. pose proof (Z.div_mod g 2 ltac:(lia)). pose proof (Z.mod_pos_bound g 2 ltac:(lia)).
  assert (Z.lor 1 g = 2 * (g / 2) + 1) as ->; [|rewrite shl256_small by lia; lia].
  apply Z.bits_inj'. intros i Hi. rewrite Z.lor_spec. destruct (decide (i = 0)) as [-> |Hi0].
  - by rewrite Z.testbit_odd_0.
  - replace i with (Z.succ (i - 1)) by lia. rewrite Z.testbit_odd_succ by lia.
    rewrite <- Z.div2_div, Z.div2_spec, Z.shiftr_spec by lia.
    rewrite (Z.bits_above_log2 1) by (simpl; lia). by rewrite orb_false_l.
Qed.

Lemma lib_traceIndex g m : 0 < g < 2 ^ (m + 1) -> 0 <= m < 127 -> LibPosition.traceIndex g m = trace_index g m.
Proof.
  intros Hg Hm. pose proof (Z.pow_lt_mono_r 2 (m + 1) 128). assert (Z.log2 g < m + 1) by (apply Z.log2_lt_pow2; lia).
  pose proof (Z.log2_nonneg g). unfold LibPosition.traceIndex, trace_index. rewrite depth_log2 by lia. cbv zeta.
  set (r := m - Z.log2 g) in *. destruct (Z.log2_spec g) as [Hl Hu]; [lia|]. rewrite Z.pow_succ_r in Hu by lia.
  assert (2 ^ m = 2 ^ Z.log2 g * 2 ^ r) as Hm2 by (rewrite <- Z.pow_add_r by lia; f_equal; lia).
  pose proof (Z.pow_le_mono_r 2 m 127). pose proof (Z.pow_pos_nonneg 2 r).
  assert (u256 r = r) as -> by (apply Z.mod_small; unfold two256; lia).
  rewrite (shl256_small r 1), (shl256_small r g), (shl256_small m 1) by nia. rewrite !Z.mul_1_l.
  unfold u256, two256. rewrite (Z.mod_small (2 ^ r - 1)) by lia. rewrite lor_low_high by lia. rewrite Z.mod_small by nia. lia.
Qed.

(** ** Ancestors that commit to the same leaf *)

(** The lowest unset bit of a number that ends in [k] set bits. *)
Lemma lowest_unset k q g : 0 <= k -> 0 <= q -> g = q * 2 ^ (k + 1) + (2 ^ k - 1) -> g < 2 ^ 127 ->
  Z.land (not256 g) (u256 (g + 1)) = 2 ^ k.
Proof.
  intros Hk Hq Hg Hb. pose proof (Z.pow_pos_nonneg 2 k ltac:(lia) Hk) as Hp. rewrite Z.pow_add_r in Hg by lia.
  assert (0 <= g) by nia.
  assert (u256 (g + 1) = (2 * q + 1) * 2 ^ k) as -> by (unfold u256, two256; rewrite Z.mod_small; lia).
  assert (g = (2 * q) * 2 ^ k + (2 ^ k - 1)) as Eg by lia.
  assert (not256 g = Z.ldiff (Z.ones 256) g) as ->.
  { unfold not256, two256. change (2 ^ 256 - 1) with (Z.ones 256). apply Z.sub_nocarry_ldiff.
    apply Z.bits_inj'. intros i Hi. rewrite Z.ldiff_spec, Z.bits_0. destruct (Z.lt_ge_cases i 256).
    - rewrite Z.ones_spec_low by lia. apply andb_false_r.
    - by rewrite (testbit_above 256 g) by lia. }
  apply Z.bits_inj'. intros i Hi. rewrite Z.land_spec, Z.ldiff_spec, Z.pow2_bits_eqb by lia.
  rewrite Eg at 1. rewrite <- lor_low_high, Z.lor_spec by lia.
  destruct (Z.lt_ge_cases i k) as [Hik|Hik].
  - rewrite !Z.mul_pow2_bits_low by lia. rewrite andb_false_r. destruct (Z.eqb_spec k i); [lia|done].
  - rewrite !Z.mul_pow2_bits, (testbit_above k (2 ^ k - 1)), orb_false_r by lia.
    destruct (Z.eqb_spec k i) as [<-|Hne].
    + rewrite Z.sub_diag, Z.testbit_odd_0, Z.testbit_even_0, Z.ones_spec_low; [done|].
      split; [done|]. apply (Z.pow_lt_mono_r_iff 2); [lia..|]. assert (2 ^ k <= 2 ^ 127) by nia.
      pose proof (Z.pow_lt_mono_r 2 127 256). lia.
    + replace (i - k) with (Z.succ (i - k - 1)) by lia. rewrite Z.testbit_odd_succ, Z.testbit_even_succ by lia.
      by destruct (Z.testbit (Z.ones 256) i), (Z.testbit q (i - k - 1)).
Qed.

Lemma lib_traceAncestor k q : 0 <= k -> 0 <= q -> q * 2 ^ (k + 1) + (2 ^ k - 1) < 2 ^ 127 ->
  LibPosition.traceAncestor (q * 2 ^ (k + 1) + (2 ^ k - 1)) = if q =? 0 then 1 else 2 * q.
Proof.
  intros Hk Hq Hg. unfold LibPosition.traceAncestor. cbv zeta. rewrite (lowest_unset k q) by done.
  pose proof (Z.pow_pos_nonneg 2 k ltac:(lia) Hk). pose proof (Z.pow_add_r 2 k 1 ltac:(lia) ltac:(lia)) as Hpa.
  assert (2 ^ k <= 2 ^ 127) by nia. assert (k <= 127) by (apply (Z.pow_le_mono_r_iff 2); lia).
  rewrite depth_log2 by lia. rewrite Z.log2_pow2 by done. unfold shr256. case_if; [lia|].
  rewrite Z.shiftr_div_pow2 by lia.
  assert ((q * 2 ^ (k + 1) + (2 ^ k - 1)) / 2 ^ k = 2 * q) as -> by (symmetry; apply (Z.div_unique _ _ _ (2 ^ k - 1)); lia).
  case_if; [subst q; done|]. unfold iszero256. case_if; [lia|]. apply Z.lor_0_r.
Qed.

Lemma lib_traceAncestor_even h : 0 < h < 2 ^ 126 -> LibPosition.traceAncestor (2 * h) = 2 * h.
Proof.
  intros Hh. replace (2 * h) with (h * 2 ^ (0 + 1) + (2 ^ 0 - 1)) at 1 by lia.
  rewrite lib_traceAncestor by lia. by destruct (Z.eqb_spec h 0); [lia|].
Qed.

(** Every number ends in some set bits below an unset one. *)
Lemma trailing_ones h : 0 < h -> exists k q, 0 <= k /\ 0 <= q /\ h = q * 2 ^ (k + 1) + (2 ^ k - 1).
Proof.
  intros Hpos. destruct h as [|h|h]; [lia| |lia]. clear Hpos. induction h as [h IH|h IH|].
  - destruct IH as (k & q & Hk & Hq & E). exists (k + 1), q. split; [lia|]. split; [done|].
    rewrite Pos2Z.inj_xI, E. rewrite (Z.pow_add_r 2 (k + 1) 1), (Z.pow_add_r 2 k 1) by lia. lia.
  - exists 0, (Zpos h). lia.
  - exists 1, 0. lia.
Qed.

Lemma lib_traceAncestor_odd h : 0 < h < 2 ^ 126 -> LibPosition.traceAncestor (2 * h + 1) = LibPosition.traceAncestor h.
Proof.
  intros Hh. destruct (trailing_ones h) as (k & q & Hk & Hq & E); [lia|].
  assert (2 * h + 1 = q * 2 ^ (k + 1 + 1) + (2 ^ (k + 1) - 1)) as E'.
  { rewrite E, (Z.pow_add_r 2 (k + 1) 1), (Z.pow_add_r 2 k 1) by lia. lia. }
  rewrite E', E. rewrite !lib_traceAncestor; lia.
Qed.

(** Going to the right keeps the leaf. *)
Lemma trace_index_right g m : 0 < g -> Z.log2 g < m -> trace_index (2 * g + 1) m = trace_index g m.
Proof.
  intros Hg Hm. unfold trace_index. rewrite Z.log2_succ_double by done.
  replace (2 ^ (m - Z.log2 g)) with (2 * 2 ^ (m - Z.succ (Z.log2 g))) by (rewrite <- Z.pow_succ_r by lia; f_equal; lia). lia.
Qed.

Lemma trace_index_bound g m : 0 < g -> Z.log2 g <= m -> trace_index g m < 2 ^ m.
Proof.
  intros Hg Hl. unfold trace_index. pose proof (Z.log2_nonneg g). destruct (Z.log2_spec g Hg) as [_ Hu].
  rewrite Z.pow_succ_r in Hu by lia.
  assert (2 ^ m = 2 ^ Z.log2 g * 2 ^ (m - Z.log2 g)) as -> by (rewrite <- Z.pow_add_r by lia; f_equal; lia).
  pose proof (Z.pow_pos_nonneg 2 (m - Z.log2 g) ltac:(lia) ltac:(lia)) as Hq.
  generalize dependent (2 ^ (m - Z.log2 g)). generalize dependent (2 ^ Z.log2 g). intros a Hu b Hb. nia.
Qed.

Lemma lib_indexAtDepth m p : valid_pos m p -> m <= 62 -> LibPosition.indexAtDepth (gindex p) = pos_indexAtDepth p.
Proof.
  intros Hv Hm. pose proof (gindex_range _ _ Hv) as Hr. pose proof (gindex_log2 _ _ Hv) as Hl. destruct Hv as [Hd Hi].
  pose proof (Z.pow_le_mono_r 2 (m + 1) 63). pose proof (Z.pow_le_mono_r 2 (pos_depth p) 62).
  unfold LibPosition.indexAtDepth. rewrite depth_log2, Hl, shl256_small by lia. unfold u256, two256, gindex in *.
  rewrite Z.mod_small, u64_small by (unfold two64; lia). lia.
Qed.

(** C9: The positions of the challenger and those of the contract agree, up to depth 62:
    the generalized index of a position determines it; the contract's depth, index at depth
    and trace index of the generalized index are those of the position; and attacking or
    defending a position leads to the generalized index that the contract computes. *)
Theorem positions_agree m p : 0 <= m <= 62 -> valid_pos m p ->
  ToGIndex p = Ok (gindex p) /\ NewPositionFromGIndex (gindex p) = p /\
  LibPosition.depth (gindex p) = pos_depth p /\ LibPosition.indexAtDepth (gindex p) = pos_indexAtDepth p /\
  TraceIndex p m = Ok (LibPosition.traceIndex (gindex p) m) /\
  ToGIndex (Attack p) = Ok (LibPosition.move (gindex p) true) /\
  (0 < pos_depth p -> ToGIndex (Defend p) = Ok (LibPosition.move (gindex p) false)).
Proof.
  intros Hm Hv. assert (valid_pos 62 p /\ valid_pos 63 p) as [Hv62 Hv63] by (destruct Hv; split; split; (done || lia)).
  pose proof (gindex_range _ _ Hv) as Hr. pose proof (Z.pow_le_mono_r 2 (m + 1) 63).
  destruct (gindex_Attack _ Hv62) as (Ha & Eg & _). repeat split.
  - by apply ToGIndex_gindex.
  - by apply gindex_roundtrip.
  - rewrite depth_log2 by lia. by eapply gindex_log2.
  - apply (lib_indexAtDepth m); [done|lia].
  - rewrite lib_traceIndex by lia. apply TraceIndex_trace_index; [done|lia].
  - rewrite (ToGIndex_gindex _ Ha), Eg, lib_move_attack by lia. done.
  - intros Hd. destruct (gindex_Defend _ Hv62 Hd) as (Hdv & Ed & _). by rewrite (ToGIndex_gindex _ Hdv), Ed, lib_move_defend by lia.
Qed.
