(* ===== verification/DisputeGame.v ===== *)
(** * The dispute game on chain

    [contracts-bedrock/src/dispute/FaultDisputeGame.sol] with [LibClock.sol] and
    [LibHashing.sol]: the storage of a game, the moves, the step on a leaf, and the
    resolution.  A revert is an error; arithmetic on words is checked unless the source
    says [unchecked] or works in assembly.  The block's time is an argument, and the VM
    contract is a function. *)
From S2P Require Import Prelude GoErrors GoBytes EthTypes Geth Evm Positions Mips MipsContract.
#[local] Open Scope Z_scope.

(** ** [LibClock.sol] and [LibHashing.sol] *)
Module LibClock.
Definition wrap (duration timestamp : Z) : Z := Z.lor (shl256 0x40 duration) timestamp.
Definition duration (clock : Z) : Z := shr256 0x40 clock.
Definition timestamp (clock : Z) : Z := shr256 0xC0 (shl256 0xC0 clock).
End LibClock.

Definition hashClaimPos `{Keccak} (claim : Hash) (position : Z) : Hash :=
  Keccak256Hash (be_encode 32 claim ++ be_encode 32 position).

(** ** [FaultDisputeGame.sol] *)
Module FaultDisputeGame.
Inductive GameStatus := IN_PROGRESS | CHALLENGER_WINS | DEFENDER_WINS.
#[export] Instance GameStatus_eq_dec : EqDecision GameStatus.
Proof. solve_decision. Defined.

Record ClaimData := mkClaimData {
  parentIndex : Z;
  countered : bool;
  claim : Hash;
  position : Z;
  clock : Z }.

Record OutputProposal := mkProposal {
  index : Z;
  l2BlockNumber : Z;
  outputRoot : Hash }.

Record t := mk {
  createdAt : Z;
  status : GameStatus;
  l1Head : Hash;
  claimData : list ClaimData;
  starting : OutputProposal;
  disputed : OutputProposal;
  claims : gset Hash }.

Definition set_status (x : GameStatus) (s : t) : t :=
  mk (createdAt s) x (l1Head s) (claimData s) (starting s) (disputed s) (claims s).
Definition set_claimData (x : list ClaimData) (s : t) : t :=
  mk (createdAt s) (status s) (l1Head s) x (starting s) (disputed s) (claims s).
Definition set_claims (x : gset Hash) (s : t) : t :=
  mk (createdAt s) (status s) (l1Head s) (claimData s) (starting s) (disputed s) x.

(** The constants of a deployed game, and [VM.step]. *)
Record Immutables := mkImmutables {
  ABSOLUTE_PRESTATE : Hash;
  MAX_GAME_DEPTH : Z;
  GAME_DURATION : Z;
  VM_step : Data -> Data -> result Hash }.

Definition no_parent : Z := 4294967295.

(** An element of the array; an index out of bounds reverts. *)
Definition claim_at (i : Z) (s : t) : result ClaimData :=
  match claimData s !! Z.to_nat i with Some c => Ok c | None => Err revert end.
Definition set_countered (c : ClaimData) : ClaimData := mkClaimData (parentIndex c) true (claim c) (position c) (clock c).
Definition counter (i : Z) (s : t) : t := set_claimData (alter set_countered (Z.to_nat i) (claimData s)) s.

Section Game.
Context `{Keccak}.
Variable I : Immutables.

(** [findTraceAncestor]: walks to the root until the position is found. *)
Fixpoint find_ancestor (fuel : nat) (pos : Z) (c : ClaimData) (s : t) : result ClaimData :=
  match fuel with
  | O => Err revert
  | S fuel' =>
      if position c =? pos then Ok c
      else let? c := claim_at (parentIndex c) s in find_ancestor fuel' pos c s
  end.
Definition findTraceAncestor (pos start : Z) (s : t) : result ClaimData :=
  let? c := claim_at start s in
  find_ancestor (S (length (claimData s))) (LibPosition.traceAncestor pos) c s.

(** The claims that [step] takes for the states before and after the step. *)
Definition step_claims (isAttack : bool) (parent : ClaimData) (s : t) : result (Hash * ClaimData) :=
  let parentPos := position parent in
  let stepPos := LibPosition.move parentPos isAttack in
  if isAttack then
    let? preStateClaim :=
      if LibPosition.indexAtDepth stepPos =? 0 then Ok (ABSOLUTE_PRESTATE I)
      else if parentPos <? 1 then Err revert
      else result_map claim (findTraceAncestor (parentPos - 1) (parentIndex parent) s) in
    Ok (preStateClaim, parent)
  else if 2 ^ 128 <=? parentPos + 1 then Err revert
  else
    let? postState := findTraceAncestor (parentPos + 1) (parentIndex parent) s in
    Ok (claim parent, postState).

Definition step (claimIndex : Z) (isAttack : bool) (stateData proof : Data) : M t unit :=
  s <- get ;;
  if negb (bool_decide (status s = IN_PROGRESS)) then throw (ErrNew "GameNotInProgress")
  else
    parent <- lift (claim_at claimIndex s) ;;
    let parentPos := position parent in
    let stepPos := LibPosition.move parentPos isAttack in
    if negb (LibPosition.depth stepPos =? MAX_GAME_DEPTH I + 1) then throw (ErrNew "InvalidParent")
    else
      states <- lift (step_claims isAttack parent s) ;;
      let preStateClaim := states.1 in
      let postState := states.2 in
      if negb (Keccak256Hash stateData =? preStateClaim) then throw (ErrNew "InvalidPrestate")
      else
        post <- lift (VM_step I stateData proof) ;;
        let validStep := post =? claim postState in
        let difference := LibPosition.depth parentPos - LibPosition.depth (position postState) in
        if difference <? 0 then throw revert
        else
          let parentPostAgree := difference mod 2 =? 0 in
          if Bool.eqb parentPostAgree validStep then throw (ErrNew "ValidStep")
          else modify (counter claimIndex).

(** [move], at a time. *)
Definition move (now challengeIndex : Z) (claim_ : Hash) (isAttack : bool) : M t unit :=
  s <- get ;;
  if negb (bool_decide (status s = IN_PROGRESS)) then throw (ErrNew "GameNotInProgress")
  else if (challengeIndex =? 0) && negb isAttack then throw (ErrNew "CannotDefendRootClaim")
  else
    parent <- lift (claim_at challengeIndex s) ;;
    let nextPosition := LibPosition.move (position parent) isAttack in
    if MAX_GAME_DEPTH I <? LibPosition.depth nextPosition then throw (ErrNew "GameDepthExceeded")
    else
      grandparentClock <- lift (if negb (parentIndex parent =? no_parent)
                                then result_map clock (claim_at (parentIndex parent) s) else Ok 0) ;;
      let elapsed := LibClock.duration grandparentClock + now in
      if (two256 <=? elapsed) || (elapsed <? LibClock.timestamp (clock parent)) then throw revert
      else
        let nextDuration := u64 (elapsed - LibClock.timestamp (clock parent)) in
        if Z.shiftr (GAME_DURATION I) 1 <? nextDuration then throw (ErrNew "ClockTimeExceeded")
        else
          let nextClock := LibClock.wrap nextDuration (u64 now) in
          let claimHash := hashClaimPos claim_ nextPosition in
          if bool_decide (claimHash ∈ claims s) then throw (ErrNew "ClaimAlreadyExists")
          else
            modify (set_claims ({[claimHash]} ∪ claims s)) ;;;
            modify (fun s => set_claimData (claimData s ++
              [mkClaimData (u32 challengeIndex) false claim_ (nextPosition mod 2 ^ 128) nextClock]) s) ;;;
            modify (counter challengeIndex).
Definition attack (now parentIndex_ : Z) (claim_ : Hash) : M t unit := move now parentIndex_ claim_ true.
Definition defend (now parentIndex_ : Z) (claim_ : Hash) : M t unit := move now parentIndex_ claim_ false.

(** The loop of [resolve], from the last of [n] claims to the first: the left-most
    uncountered claim found so far and its trace index. *)
Fixpoint left_most (n : nat) (cs : list ClaimData) (best : Z * Z) : Z * Z :=
  match n with
  | O => best
  | S i =>
      match cs !! i with
      | None => best
      | Some c =>
          if countered c then left_most i cs best
          else
            let traceIndex := LibPosition.traceIndex (position c) (MAX_GAME_DEPTH I) in
            left_most i cs (if traceIndex <? best.2 then (Z.of_nat i, traceIndex) else best)
      end
  end.

Definition resolve (now : Z) : M t GameStatus :=
  s <- get ;;
  if negb (bool_decide (status s = IN_PROGRESS)) then throw (ErrNew "GameNotInProgress")
  else if bool_decide (claimData s = []) then throw revert
  else
    let len := length (claimData s) in
    let '(leftMostIndex, leftMostTraceIndex) := left_most len (claimData s) (Z.of_nat len - 1, 2 ^ 128 - 1) in
    leftMostUncontested <- lift (claim_at leftMostIndex s) ;;
    opposingClock <- lift (if parentIndex leftMostUncontested =? no_parent then Ok (clock leftMostUncontested)
                           else result_map clock (claim_at (parentIndex leftMostUncontested) s)) ;;
    if now <? LibClock.timestamp opposingClock then throw revert
    else if LibClock.duration opposingClock + (now - LibClock.timestamp opposingClock) <=? Z.shiftr (GAME_DURATION I) 1
    then throw (ErrNew "ClockNotExpired")
    else
      let status_ :=
        if (LibPosition.depth (position leftMostUncontested) mod 2 =? 0) && negb (leftMostTraceIndex =? 2 ^ 128 - 1)
        then DEFENDER_WINS else CHALLENGER_WINS in
      modify (set_status status_) ;;;
      ret status_.

(** [addLocalData], on the storage of the oracle, for a game at an address on a chain. *)
Definition addLocalData (this chainid ident partOffset : Z) (s : t) (o : PreimageOracle.Storage) : result PreimageOracle.Storage :=
  if negb (bool_decide (status s = IN_PROGRESS)) then Err (ErrNew "GameNotInProgress")
  else
    let? data :=
      if ident =? 1 then Ok (l1Head s)
      else if ident =? 2 then Ok (outputRoot (starting s))
      else if ident =? 3 then Ok (outputRoot (disputed s))
      else if ident =? 4 then Ok (shl256 0xC0 (l2BlockNumber (starting s)))
      else if ident =? 5 then Ok (shl256 0xC0 chainid)
      else Err (ErrNew "InvalidLocalIdent") in
    let size := shl256 (5 - shl256 1 (lt256 3 ident)) 1 in
    PreimageOracle.loadLocalData this ident data size partOffset o.

(** The output oracle and the block oracle that [initialize] asks. *)
Class GameOracles := {
  getL2OutputIndexAfter : Z -> result Z;
  getL2Output : Z -> result (Hash * Z * Z); (* root, timestamp, block number *)
  BLOCK_ORACLE_load : Z -> result (Hash * Z) (* hash, timestamp of the child *) }.

(** [initialize], with the arguments of the clone: the root claim and two block numbers. *)
Definition initialize `{GameOracles} (now : Z) (rootClaim : Hash) (l2Number l1Number : Z) : M t unit :=
  modify (fun s => mk (u64 now) (status s) (l1Head s)
    (claimData s ++ [mkClaimData no_parent false rootClaim 1 (LibClock.wrap 0 (u64 now))]) (starting s) (disputed s) (claims s)) ;;;
  proposalIdx <- lift (getL2OutputIndexAfter l2Number) ;;
  if proposalIdx <? 1 then throw revert
  else
    first <- lift (getL2Output (proposalIdx - 1)) ;;
    second <- lift (getL2Output proposalIdx) ;;
    blockInfo <- lift (BLOCK_ORACLE_load l1Number) ;;
    if blockInfo.2 <=? second.1.2 then throw (ErrNew "L1HeadTooOld")
    else
      modify (fun s => mk (createdAt s) (status s) blockInfo.1 (claimData s)
        (mkProposal ((proposalIdx - 1) mod 2 ^ 128) first.2 first.1.1) (mkProposal (proposalIdx mod 2 ^ 128) second.2 second.1.1)
        (claims s)).
End Game.
End FaultDisputeGame.
