(* ===== verification/DisputeGameSpec.v ===== *)
(** * Games that can be reached

    The invariant of [FaultDisputeGame.sol]: claims form a tree of positions, the claims
    that were answered are marked, and no claim exists twice at a position.  On every game
    that can be reached the search of [step] for the claim of a neighbouring leaf ends
    with such a claim. *)
From S2P Require Import Prelude GoErrors GoBytes EthTypes Geth Bits Evm Positions DisputeGame.
Import FaultDisputeGame.
#[local] Open Scope Z_scope.

(** ** Positions of moves *)
Lemma log2_even_succ p : 0 < p -> Z.even p = true -> Z.log2 (p + 1) = Z.log2 p.
Proof.
  intros Hp He. apply Z.even_spec in He as [h ->]. rewrite Z.log2_succ_double, Z.log2_double by lia. done.
Qed.

(** The position of a move against a claim at an even position, or of an attack. *)
Definition moved (a : bool) (p : Z) : Z := if a then 2 * p else 2 * (p + 1).

Lemma lib_move_moved a p : 0 < p < 2 ^ 254 -> (a = false -> Z.even p = true) -> LibPosition.move p a = moved a p.
Proof.
  intros Hp He. destruct a; unfold moved; [apply lib_move_attack; lia|]. rewrite lib_move_defend by lia.
  specialize (He eq_refl). apply Z.even_spec in He as [h ->]. rewrite (Z.mul_comm 2 h), Z.div_mul by lia. lia.
Qed.

Lemma moved_log2 a p : 0 < p -> (a = false -> Z.even p = true) -> Z.log2 (moved a p) = Z.log2 p + 1.
Proof.
  intros Hp He. destruct a; unfold moved; rewrite Z.log2_double by lia; [lia|].
  rewrite log2_even_succ by auto. lia.
Qed.

Section Games.
Context `{Keccak}.
Variable I : Immutables.
Let D := MAX_GAME_DEPTH I.
Hypothesis HD : 1 <= D <= 62.

(** ** The invariant *)
Definition claim_hash (c : ClaimData) : Hash := hashClaimPos (claim c) (position c).

(** [p], at index [j], is the parent of [c], which is an attack or a defense. *)
Definition child (cs : list ClaimData) (j : nat) (p : ClaimData) (a : bool) (c : ClaimData) : Prop :=
  cs !! j = Some p /\ parentIndex c = Z.of_nat j /\ position c = moved a (position p) /\ (a = false -> j <> 0%nat).

Record game_ok (s : t) : Prop := {
  gk_root : exists r, claimData s !! 0%nat = Some r /\ parentIndex r = no_parent /\ position r = 1;
  gk_child : forall i c, claimData s !! i = Some c -> i <> 0%nat ->
    exists j p a, (j < i)%nat /\ child (claimData s) j p a c /\ countered p = true;
  gk_position : forall i c, claimData s !! i = Some c ->
    0 < position c /\ Z.log2 (position c) <= D /\ (i <> 0%nat -> Z.even (position c) = true);
  gk_length : Z.of_nat (length (claimData s)) <= no_parent;
  gk_claims : claims s = list_to_set (claim_hash <$> tail (claimData s));
  gk_nodup : NoDup (claim_hash <$> tail (claimData s)) }.

Lemma position_bound s i c : game_ok s -> claimData s !! i = Some c -> 0 < position c < 2 ^ (D + 1).
Proof.
  intros Hs Hc. destruct (gk_position _ Hs _ _ Hc) as (Hp & Hl & _). split; [done|].
  apply Z.log2_lt_pow2; lia.
Qed.

Lemma position_depth s i c : game_ok s -> claimData s !! i = Some c -> LibPosition.depth (position c) = Z.log2 (position c).
Proof.
  intros Hs Hc. destruct (position_bound _ _ _ Hs Hc). pose proof (Z.pow_le_mono_r 2 (D + 1) 127).
  apply depth_log2. lia.
Qed.

(** The move the contract computes against a claim that is there. *)
Lemma position_move s i c a : game_ok s -> claimData s !! i = Some c -> (i = 0%nat -> a = true) ->
  LibPosition.move (position c) a = moved a (position c) /\
  LibPosition.depth (LibPosition.move (position c) a) = Z.log2 (position c) + 1 /\
  0 < moved a (position c) < 2 ^ (D + 3) /\ Z.log2 (moved a (position c)) = Z.log2 (position c) + 1 /\
  Z.even (moved a (position c)) = true.
Proof.
  intros Hs Hc Ha. destruct (position_bound _ _ _ Hs Hc) as [Hp Hb]. destruct (gk_position _ Hs _ _ Hc) as (_ & _ & He).
  pose proof (Z.pow_le_mono_r 2 (D + 1) 127). replace (D + 3) with (D + 1 + 2) by lia.
  assert (a = false -> Z.even (position c) = true) as He' by (intros ->; apply He; intros ->; by specialize (Ha eq_refl)).
  rewrite lib_move_moved by (done || lia). rewrite (moved_log2 a (position c)) by done.
  assert (0 < moved a (position c) < 2 ^ (D + 1 + 2)) by (rewrite Z.pow_add_r by lia; unfold moved; destruct a; lia).
  rewrite depth_log2, moved_log2 by (done || (pose proof (Z.pow_le_mono_r 2 (D + 1 + 2) 128); lia)).
  repeat split; try done || lia. unfold moved. destruct a; by rewrite Z.even_mul.
Qed.

(** ** Moves *)

(** The claims with the one at index [i] marked as countered. *)
Lemma lookup_counter_Some (cs : list ClaimData) (i k : nat) c : alter set_countered i cs !! k = Some c ->
  exists c0, cs !! k = Some c0 /\ parentIndex c = parentIndex c0 /\ claim c = claim c0 /\ position c = position c0 /\
    (countered c0 = true -> countered c = true).
Proof.
  rewrite list_lookup_alter. case_decide; [subst k|intros Hc; by exists c].
  intros (c0 & Hc0 & ->)%fmap_Some. by exists c0.
Qed.

Lemma lookup_counter_fwd (cs : list ClaimData) (i k : nat) c0 : cs !! k = Some c0 ->
  exists c, alter set_countered i cs !! k = Some c /\ parentIndex c = parentIndex c0 /\ claim c = claim c0 /\
    position c = position c0 /\ (countered c0 = true \/ i = k -> countered c = true).
Proof.
  intros Hc. rewrite list_lookup_alter. case_decide as E.
  - subst k. rewrite Hc. simpl. by exists (set_countered c0).
  - exists c0. repeat split; try done. by intros [?|?].
Qed.

Lemma child_counter cs i j p a c :
  child cs j p a c -> exists p', child (alter set_countered i cs) j p' a c /\ (countered p = true \/ i = j -> countered p' = true).
Proof.
  intros (Hp & Hi & Hpos & Ha). destruct (lookup_counter_fwd cs i j p Hp) as (p' & Hp' & E1 & E2 & E3 & Hc).
  exists p'. split; [|done]. split; [done|]. split; [done|]. by rewrite E3.
Qed.

Lemma game_ok_counter s i : game_ok s -> game_ok (counter i s).
Proof.
  intros Hs. unfold counter. set (k := Z.to_nat i).
  assert (claim_hash <$> tail (alter set_countered k (claimData s)) = claim_hash <$> tail (claimData s)) as Eh.
  { apply list_eq. intros n. rewrite !list_lookup_fmap, !lookup_tail, list_lookup_alter. case_decide as E; [rewrite E|]; by destruct (claimData s !! S n). }
  split; simpl; rewrite ?length_alter, ?Eh; try apply Hs.
  - destruct (gk_root _ Hs) as (r & Hr & Hp & Hpos).
    destruct (lookup_counter_fwd _ k _ _ Hr) as (r' & Hr' & E1 & E2 & E3 & _). exists r'. by rewrite E1, E3.
  - intros m c Hc Hm. apply lookup_counter_Some in Hc as (c0 & Hc0 & E1 & E2 & E3 & _).
    destruct (gk_child _ Hs _ _ Hc0 Hm) as (j & p & a & Hj & Hch & Hcnt).
    destruct (child_counter _ k _ _ _ _ Hch) as (p' & (Hp' & Hpi & Hpos & Ha) & Hcnt').
    exists j, p', a. split; [done|]. split; [|auto]. split; [done|]. by rewrite E1, E3.
  - intros m c Hc. apply lookup_counter_Some in Hc as (c0 & Hc0 & E1 & E2 & E3 & _).
    rewrite E3. by apply (gk_position _ Hs).
Qed.

(** A claim added under one that is there. *)
Lemma game_ok_push s i p a h clk :
  game_ok s -> claimData s !! i = Some p -> (i = 0%nat -> a = true) -> Z.log2 (position p) + 1 <= D ->
  Z.of_nat (length (claimData s)) < no_parent -> hashClaimPos h (moved a (position p)) ∉ claims s -> countered p = true ->
  game_ok (set_claimData (claimData s ++ [mkClaimData (Z.of_nat i) false h (moved a (position p)) clk])
            (set_claims ({[hashClaimPos h (moved a (position p))]} ∪ claims s) s)).
Proof.
  intros Hs Hp Ha Hd Hlen Hfresh Hcnt. set (n := mkClaimData _ _ _ _ _).
  destruct (position_move _ _ _ a Hs Hp Ha) as (_ & _ & Hr & Hl & He).
  assert (tail (claimData s ++ [n]) = tail (claimData s) ++ [n]) as Et.
  { destruct (gk_root _ Hs) as (r & Hr0 & _). by destruct (claimData s). }
  split; simpl; rewrite ?length_app, ?Et, ?fmap_app; simpl.
  - destruct (gk_root _ Hs) as (r & Hr0 & Hrest). exists r. split; [by apply lookup_app_l_Some|done].
  - intros m c Hc Hm. apply lookup_app_Some in Hc as [Hc|[Hge Hc]].
    + destruct (gk_child _ Hs _ _ Hc Hm) as (j & q & b & Hj & (Hq & Hrest) & Hcq).
      exists j, q, b. split; [done|]. split; [|done]. split; [by apply lookup_app_l_Some|done].
    + apply list_lookup_singleton_Some in Hc as [Hm0 <-]. exists i, p, a.
      pose proof (lookup_lt_Some _ _ _ Hp). split; [lia|]. split; [|done].
      split; [by apply lookup_app_l_Some|]. repeat split. intros -> ->. by specialize (Ha eq_refl).
  - intros m c Hc. apply lookup_app_Some in Hc as [Hc|[Hge Hc]]; [by apply (gk_position _ Hs) in Hc|].
    apply list_lookup_singleton_Some in Hc as [Hm0 <-]. simpl. repeat split; [lia..|]. done.
  - lia.
  - rewrite (gk_claims _ Hs), list_to_set_app_L. simpl. unfold claim_hash at 3. simpl. set_solver.
  - rewrite (gk_claims _ Hs) in Hfresh. apply NoDup_app. split; [apply Hs|]. split; [|apply NoDup_singleton].
    intros x Hx ->%list_elem_of_singleton. apply Hfresh. by apply elem_of_list_to_set.
Qed.

(** What a move does. *)
Lemma move_spec now i h a s :
  wp (move I now i h a) (fun _ s' => exists p clk,
    status s = IN_PROGRESS /\ (i = 0 -> a = true) /\ claimData s !! Z.to_nat i = Some p /\
    LibPosition.depth (LibPosition.move (position p) a) <= D /\
    let next := LibPosition.move (position p) a in
    (hashClaimPos h next ∉ claims s) /\
    s' = counter i (set_claimData (claimData s ++ [mkClaimData (u32 i) false h (next mod 2 ^ 128) clk])
           (set_claims ({[hashClaimPos h next]} ∪ claims s) s))) s.
Proof.
  unfold move. wp_steps. apply wp_lift. unfold claim_at. intros p Hp. destruct (claimData s !! Z.to_nat i) eqn:Ep; [|done].
  apply Ok_inj in Hp as ->. wp_steps. apply wp_lift. intros gclk _. wp_steps.
  exists p. eexists. repeat split; try done. intros ->. by destruct a.
Qed.

(** The claim [n] that answers the claim [p] at index [i] is appended. *)
Definition added (i : nat) (p : ClaimData) (a : bool) (h : Hash) (s s' : t) : Prop :=
  exists clk, claimData s' = alter set_countered i (claimData s) ++ [mkClaimData (Z.of_nat i) false h (moved a (position p)) clk].

Lemma move_ok now i h a s : game_ok s -> 0 <= i -> Z.of_nat (length (claimData s)) < no_parent ->
  wp (move I now i h a) (fun _ s' => game_ok s' /\ status s' = IN_PROGRESS /\ exists p,
    claimData s !! Z.to_nat i = Some p /\ (i = 0 -> a = true) /\ Z.log2 (position p) + 1 <= D /\
    (hashClaimPos h (moved a (position p)) ∉ claims s) /\ added (Z.to_nat i) p a h s s') s.
Proof.
  intros Hs Hi Hlen. eapply wp_mono; [apply move_spec|]. intros _ s' (p & clk & Hst & Ha & Hp & Hd & Hfresh & ->).
  assert (Z.to_nat i = 0%nat -> a = true) as Ha' by (intros; apply Ha; lia).
  destruct (position_move _ _ _ a Hs Hp Ha') as (Em & Ed & Hr & _ & _). rewrite Em in *. rewrite Ed in Hd.
  pose proof (lookup_lt_Some _ _ _ Hp) as Hlt. unfold no_parent in Hlen.
  pose proof (Z.pow_le_mono_r 2 (D + 3) 128). rewrite Z.mod_small, u32_small by lia.
  pose proof (game_ok_counter _ i Hs) as Hs'. destruct (lookup_counter_fwd _ (Z.to_nat i) _ _ Hp) as (p' & Hp' & _ & _ & E3 & Hcnt).
  assert (counter i (set_claimData (claimData s ++ [mkClaimData i false h (moved a (position p)) clk])
            (set_claims ({[hashClaimPos h (moved a (position p))]} ∪ claims s) s)) =
          set_claimData (claimData (counter i s) ++ [mkClaimData (Z.of_nat (Z.to_nat i)) false h (moved a (position p')) clk])
            (set_claims ({[hashClaimPos h (moved a (position p'))]} ∪ claims (counter i s)) (counter i s))) as Es.
  { rewrite E3, Z2Nat.id by done. unfold counter, set_claimData. simpl. f_equal. by apply alter_app_l. }
  split; [rewrite Es; apply (game_ok_push (counter i s)); simpl; rewrite ?length_alter, ?E3; auto; lia|].
  split; [done|]. exists p. repeat split; try done. exists clk. rewrite Es, E3. done.
Qed.

(** ** Steps *)
Lemma step_spec i a st pr s :
  wp (step I i a st pr) (fun _ s' => exists p post,
    status s = IN_PROGRESS /\ claimData s !! Z.to_nat i = Some p /\
    LibPosition.depth (LibPosition.move (position p) a) = D + 1 /\ VM_step I st pr = Ok post /\ s' = counter i s) s.
Proof.
  unfold step. wp_steps. apply wp_lift. unfold claim_at. intros p Hp. destruct (claimData s !! Z.to_nat i) eqn:Ep; [|done].
  apply Ok_inj in Hp as ->. wp_steps. apply wp_lift. intros ps _. wp_steps. apply wp_lift. intros post Hpost. wp_steps.
  by exists p, post.
Qed.

(** ** Games that can be reached *)
Definition empty_game : t := mk 0 IN_PROGRESS 0 [] (mkProposal 0 0 0) (mkProposal 0 0 0) ∅.

Definition fresh_game (root : Hash) (s : t) : Prop :=
  status s = IN_PROGRESS /\ claims s = ∅ /\
  exists now, claimData s = [mkClaimData no_parent false root 1 (LibClock.wrap 0 (u64 now))].

Lemma initialize_fresh `{GameOracles} now root n2 n1 :
  wp (initialize now root n2 n1) (fun _ s => fresh_game root s) empty_game.
Proof.
  unfold initialize. wp_steps. apply wp_lift. intros idx _. wp_steps.
  apply wp_lift. intros x _. wp_steps. apply wp_lift. intros y _. wp_steps. apply wp_lift. intros z _. wp_steps.
  split; [done|]. split; [done|]. by eexists.
Qed.

(** A call of the contract after it was initialized: no more claims are made than indices of
    32 bits can name.  The contract lets anyone call [initialize] again; what follows from
    that is [initialize_again_blinds_agents]. *)
Inductive game_step : t -> t -> Prop :=
  | game_move now i h a s s' : 0 <= i -> Z.of_nat (length (claimData s)) < no_parent ->
      move I now i h a s = (Ok tt, s') -> game_step s s'
  | game_vm_step i a st pr s s' : 0 <= i -> step I i a st pr s = (Ok tt, s') -> game_step s s'
  | game_resolve now x s s' : resolve I now s = (Ok x, s') -> game_step s s'.

(** The games that were initialized once. *)
Inductive reachable (root : Hash) : t -> Prop :=
  | reachable_start s : fresh_game root s -> reachable root s
  | reachable_step s s' : reachable root s -> game_step s s' -> reachable root s'.

Lemma fresh_ok root s : fresh_game root s -> game_ok s.
Proof.
  intros (Hst & Hcl & clk & Hcd). split; rewrite ?Hcd, ?Hcl; simpl; try done.
  - by eexists.
  - intros [|[|i]] c Hc Hi; done.
  - intros [|[|i]] c Hc; [|done..]. injection Hc as <-. simpl. repeat split; [lia..|done].
  - constructor.
Qed.

Lemma resolve_claims now s : wp (resolve I now) (fun x s' => claimData s' = claimData s /\ claims s' = claims s /\ status s' = x) s.
Proof.
  unfold resolve. wp_steps. destruct (left_most _ _ _ _) as [li lt]. wp_steps. apply wp_lift. intros c _. wp_steps.
  apply wp_lift. intros clk _. by wp_steps.
Qed.

Lemma reachable_ok root s : reachable root s -> game_ok s.
Proof.
  induction 1 as [s Hf|s s' _ IH Hst]; [by eapply fresh_ok|].
  destruct Hst as [now i h a s s' Hi Hlen E|i a st pr s s' Hi E|now x s s' E].
  - by destruct (wp_run _ _ _ _ _ (move_ok _ _ _ _ _ IH Hi Hlen) E).
  - destruct (wp_run _ _ _ _ _ (step_spec _ _ _ _ _) E) as (p & post & _ & _ & _ & _ & ->). by apply game_ok_counter.
  - destruct (wp_run _ _ _ _ _ (resolve_claims _ _) E) as (E1 & E2 & _).
    split; rewrite ?E1, ?E2; apply IH.
Qed.

(** A claim is marked only when it was answered, or stepped on at the last level. *)
Definition answered_ok (s : t) : Prop := forall i c, claimData s !! i = Some c -> countered c = true ->
  Z.log2 (position c) = D \/ exists k d, claimData s !! k = Some d /\ parentIndex d = Z.of_nat i.

Lemma answered_ok_counter s i : game_ok s -> answered_ok s ->
  (forall c, claimData s !! Z.to_nat i = Some c -> Z.log2 (position c) = D) -> answered_ok (counter i s).
Proof.
  intros Hs Ha Hleaf k c Hc Hcnt. unfold counter in *. simpl in *. rewrite list_lookup_alter in Hc. case_decide as E.
  - subst k. apply fmap_Some in Hc as (c0 & Hc0 & ->). left. simpl. by apply Hleaf.
  - destruct (Ha _ _ Hc Hcnt) as [?|(m & d & Hd & Hpd)]; [by left|right].
    destruct (lookup_counter_fwd _ (Z.to_nat i) _ _ Hd) as (d' & Hd' & E1 & _). exists m, d'. by rewrite E1.
Qed.

Lemma answered_ok_added i p a h s s' : answered_ok s -> claimData s !! i = Some p -> added i p a h s s' -> answered_ok s'.
Proof.
  intros Ha Hp (clk & E) k c Hc Hcnt. rewrite E in *.
  assert (forall m d, claimData s !! m = Some d -> exists d', (alter set_countered i (claimData s) ++
    [mkClaimData (Z.of_nat i) false h (moved a (position p)) clk]) !! m = Some d' /\ parentIndex d' = parentIndex d) as Hold.
  { intros m d Hd. destruct (lookup_counter_fwd _ i _ _ Hd) as (d' & Hd' & E1 & _). exists d'.
    split; [by apply lookup_app_l_Some|done]. }
  apply lookup_app_Some in Hc as [Hc|[_ Hc]]; [|apply list_lookup_singleton_Some in Hc as [_ <-]; done].
  rewrite list_lookup_alter in Hc. case_decide as Ei.
  - right. subst k. exists (length (claimData s)). eexists. split; [by rewrite lookup_app_r, length_alter, Nat.sub_diag by (by rewrite length_alter)|done].
  - destruct (Ha _ _ Hc Hcnt) as [?|(m & d & Hd & Hpd)]; [by left|right].
    destruct (Hold _ _ Hd) as (d' & Hd' & E1). exists m, d'. by rewrite E1.
Qed.

Lemma reachable_answered root s : reachable root s -> answered_ok s.
Proof.
  induction 1 as [s (_ & _ & clk & Hcd)|s s' Hr IH Hst].
  { intros [|[|i]] c Hc; rewrite Hcd in Hc; [|done..]. by injection Hc as <-. }
  pose proof (reachable_ok _ _ Hr) as Hs.
  destruct Hst as [now i h a s s' Hi Hlen E|i a st pr s s' Hi E|now x s s' E].
  - destruct (wp_run _ _ _ _ _ (move_ok _ _ _ _ _ Hs Hi Hlen) E) as (_ & _ & p & Hp & _ & _ & _ & Hadd). by eapply answered_ok_added.
  - destruct (wp_run _ _ _ _ _ (step_spec _ _ _ _ _) E) as (p & post & _ & Hp & Hd & _ & ->). apply answered_ok_counter; [done..|].
    intros c Hc. assert (c = p) as -> by congruence.
    destruct (gk_position _ Hs _ _ Hp) as (Hp0 & Hpl & Hpe). destruct (position_bound _ _ _ Hs Hp) as [_ Hb].
    destruct (decide (Z.to_nat i = 0%nat)) as [E0|E0].
    + rewrite E0 in Hp. destruct (gk_root _ Hs) as (r & Hr0 & _ & Hr1). assert (p = r) as -> by congruence.
      rewrite Hr1 in *. assert (LibPosition.depth (LibPosition.move 1 a) = 1) by (by destruct a). lia.
    + destruct (position_move _ _ _ a Hs Hp) as (_ & Ed & _); [done|]. lia.
  - destruct (wp_run _ _ _ _ _ (resolve_claims _ _) E) as (E1 & _). unfold answered_ok. by rewrite E1.
Qed.
End Games.
