(* ===== verification/DisputeHonest.v ===== *)
(** * Playing the dispute game with the right trace

    One side of the game answers with the values of a trace [T]: it defends a claim of the
    other side that is right and attacks one that is wrong.  On the path above such
    answers the claims next to a leaf are as the step on that leaf needs them: the step
    against a leaf of the other side succeeds, and no step against an own leaf does. *)
From S2P Require Import Prelude GoErrors GoBytes EthTypes Geth Bits Evm Positions DisputeGame DisputeGameSpec.
Import FaultDisputeGame.
#[local] Open Scope Z_scope.

(** ** The neighbours of a position *)
Lemma trace_index_ancestor m g : 0 < g < 2 ^ 126 -> Z.log2 g <= m ->
  trace_index (LibPosition.traceAncestor g) m = trace_index g m.
Proof.
  intros Hg Hm. destruct g as [|g|g]; [lia| |lia]. induction g as [g IH|g IH|].
  - rewrite Pos2Z.inj_xI in *. rewrite Z.log2_succ_double in Hm by lia.
    rewrite lib_traceAncestor_odd by lia. rewrite trace_index_right by lia. apply IH; lia.
  - rewrite Pos2Z.inj_xO in *. by rewrite lib_traceAncestor_even by lia.
  - by replace (LibPosition.traceAncestor 1) with 1 by (by vm_compute).
Qed.

Lemma trace_index_leaf g m : Z.log2 g = m -> trace_index g m = g - 2 ^ m.
Proof. intros E. unfold trace_index. rewrite E, Z.sub_diag. lia. Qed.

(** The ancestors of the neighbours of a position, one move further. *)
Lemma ancestor_self p : 0 < p < 2 ^ 126 -> Z.even p = true -> LibPosition.traceAncestor p = p.
Proof. intros Hp He. apply Z.even_spec in He as [h ->]. apply lib_traceAncestor_even. lia. Qed.

Section Path.
Context `{Keccak}.
Variable I : Immutables.
Let D := MAX_GAME_DEPTH I.
Hypothesis HD : 1 <= D <= 62.

(** ** Paths to the root *)
Inductive above (cs : list ClaimData) : nat -> nat -> Prop :=
  | above_parent i j c : cs !! i = Some c -> i <> 0%nat -> parentIndex c = Z.of_nat j -> above cs j i
  | above_up i j k c : cs !! i = Some c -> i <> 0%nat -> parentIndex c = Z.of_nat j -> above cs k j -> above cs k i.

Lemma above_cases cs k i c : above cs k i -> cs !! i = Some c ->
  i <> 0%nat /\ exists j, parentIndex c = Z.of_nat j /\ (k = j \/ above cs k j).
Proof.
  intros Hk Hc. destruct Hk as [i j c' Hc' Hi Hj|i j k c' Hc' Hi Hj Hab]; (assert (c' = c) as -> by congruence); eauto.
Qed.

(** What the invariant says of the parent of a claim. *)
Lemma parent_of s i c j : game_ok I s -> claimData s !! i = Some c -> i <> 0%nat -> parentIndex c = Z.of_nat j ->
  (j < i)%nat /\ exists p a, child (claimData s) j p a c /\ countered p = true.
Proof.
  intros Hs Hc Hi Hj. destruct (gk_child _ _ Hs _ _ Hc Hi) as (j' & p & a & Hlt & Hch & Hcnt).
  assert (j = j') as -> by (destruct Hch as (_ & E & _); lia). split; [done|]. by exists p, a.
Qed.

Lemma child_log2 s j p a c : game_ok I s -> child (claimData s) j p a c -> Z.log2 (position c) = Z.log2 (position p) + 1.
Proof.
  intros Hs (Hp & _ & Hpos & Ha). destruct (gk_position _ _ Hs _ _ Hp) as (H1 & _ & He). rewrite Hpos.
  apply moved_log2; [done|]. auto.
Qed.

Lemma above_log2 s k i c r : game_ok I s -> above (claimData s) k i -> claimData s !! i = Some c -> claimData s !! k = Some r ->
  Z.log2 (position r) < Z.log2 (position c).
Proof.
  intros Hs Ha. revert c r. induction Ha as [i j c Hc Hi Hj|i j k c Hc Hi Hj _ IH]; intros c' r Hc' Hr;
    (assert (c' = c) as -> by congruence); destruct (parent_of _ _ _ _ Hs Hc Hi Hj) as (_ & p & a & Hch & _);
    pose proof (child_log2 _ _ _ _ _ Hs Hch); pose proof Hch as (Hp & _).
  - assert (r = p) as -> by congruence. lia.
  - specialize (IH _ _ Hp Hr). lia.
Qed.

(** The search ends with the claim at the position, if there is one on the path. *)
Lemma find_ancestor_above s k i c r fuel : game_ok I s -> claimData s !! i = Some c -> claimData s !! k = Some r ->
  k = i \/ above (claimData s) k i -> (i < fuel)%nat -> find_ancestor fuel (position r) c s = Ok r.
Proof.
  intros Hs. revert i c. induction fuel as [|fuel IH]; intros i c Hc Hr Hk Hf; [lia|]. simpl. case_if.
  - destruct Hk as [->|Hk]; [congruence|]. pose proof (above_log2 _ _ _ _ _ Hs Hk Hc Hr) as Hl. rewrite E in Hl. lia.
  - destruct Hk as [->|Hk]; [congruence|].
    destruct (above_cases _ _ _ _ Hk Hc) as (Hi & j & Hj & Hkj).
    destruct (parent_of _ _ _ _ Hs Hc Hi Hj) as (Hlt & p & a & (Hp & _) & _).
    unfold claim_at. rewrite Hj, Nat2Z.id, Hp. apply (IH j); auto. lia.
Qed.

Lemma findTraceAncestor_above s pos start k c r : game_ok I s -> parentIndex c = Z.of_nat start ->
  forall i, claimData s !! i = Some c -> i <> 0%nat -> above (claimData s) k i -> claimData s !! k = Some r ->
  position r = LibPosition.traceAncestor pos -> findTraceAncestor pos (parentIndex c) s = Ok r.
Proof.
  intros Hs Hst i Hc Hi Hk Hr Hpos. destruct (parent_of _ _ _ _ Hs Hc Hi Hst) as (Hlt & p & a & (Hp & _) & _).
  unfold findTraceAncestor, claim_at. rewrite Hst, Nat2Z.id, Hp. rewrite <- Hpos.
  apply find_ancestor_above with k start; [done..| |].
  - destruct (above_cases _ _ _ _ Hk Hc) as (_ & j & Hj & Hkj). by assert (j = start) as -> by lia.
  - pose proof (lookup_lt_Some _ _ _ Hc). lia.
Qed.

(** ** Claims of the side that plays the trace [T], at the odd levels or at the even ones *)
Variable T : Z -> Hash.
Variable odd_levels : bool.

Definition right_value (c : ClaimData) : bool := claim c =? T (trace_index (position c) D).
Definition ours (c : ClaimData) : bool := Bool.eqb (Z.odd (Z.log2 (position c))) odd_levels.

(** An own claim has the value of the trace, and attacks exactly the wrong claims. *)
Definition honest_claim (cs : list ClaimData) (i : nat) (c : ClaimData) : Prop :=
  right_value c = true /\ forall j p a, i <> 0%nat -> child cs j p a c -> a = negb (right_value p).
Definition honest_path (cs : list ClaimData) (i : nat) : Prop :=
  forall k c, k = i \/ above cs k i -> cs !! k = Some c -> ours c = true -> honest_claim cs k c.

Lemma honest_path_parent cs i j c : honest_path cs i -> cs !! i = Some c -> i <> 0%nat -> parentIndex c = Z.of_nat j -> honest_path cs j.
Proof.
  intros Hh Hc Hi Hj k d [->|Hk]; apply Hh; right; [by eapply above_parent|by eapply above_up].
Qed.

Lemma ours_child s j p a c : game_ok I s -> child (claimData s) j p a c -> ours c = negb (ours p).
Proof.
  intros Hs Hch. unfold ours. rewrite (child_log2 _ _ _ _ _ Hs Hch), Z.add_1_r, Z.odd_succ, <- Z.negb_odd.
  by destruct (Z.odd _), odd_levels.
Qed.

(** Above a claim there are claims at the ancestors of both neighbours of its position.  On
    an honest path the left one is right, and the right one is own or wrong. *)
Lemma neighbours s i c : game_ok I s -> claimData s !! i = Some c -> i <> 0%nat ->
  (exists k r, above (claimData s) k i /\ claimData s !! k = Some r /\
     position r = LibPosition.traceAncestor (position c + 1) /\
     (honest_path (claimData s) i -> ours r = true \/ right_value r = false)) /\
  (position c <> 2 ^ Z.log2 (position c) -> exists k l, above (claimData s) k i /\ claimData s !! k = Some l /\
     position l = LibPosition.traceAncestor (position c - 1) /\
     (honest_path (claimData s) i -> right_value l = true)).
Proof.
  intros Hs. revert c. induction (lt_wf i) as [i _ IH]. intros c Hc Hi.
  destruct (gk_child _ _ Hs _ _ Hc Hi) as (j & p & a & Hlt & Hch & _). pose proof Hch as (Hp & Hj & Hpos & Ha).
  pose proof (child_log2 _ _ _ _ _ Hs Hch) as Hlog. pose proof (ours_child _ _ _ _ _ Hs Hch) as Hours.
  destruct (gk_position _ _ Hs _ _ Hp) as (Hp0 & Hpl & Hpe). pose proof (position_bound _ _ _ _ Hs Hp) as [_ Hpb].
  fold D in Hpb. pose proof (Z.pow_le_mono_r 2 (D + 1) 63). specialize (IH j Hlt p Hp).
  assert (honest_path (claimData s) i -> right_value p = negb a \/ ours p = true) as Hdir.
  { intros Hh. destruct (ours p) eqn:Ep; [by right|left]. destruct (Hh i c) as [_ Hd]; [by left|done|by rewrite Hours|].
    rewrite (Hd _ _ _ Hi Hch). by rewrite negb_involutive. }
  assert (honest_path (claimData s) i -> ours p = true -> right_value p = true) as Hown.
  { intros Hh Ep. apply (Hh j p); [right; by eapply above_parent|done..]. }
  destruct a; unfold moved in Hpos; simpl in Hdir.
  - split.
    + exists j, p. split; [by eapply above_parent|]. split; [done|]. split; [|intros Hh; destruct (Hdir Hh); auto].
      rewrite Hpos, lib_traceAncestor_odd by lia. destruct (decide (j = 0%nat)) as [->|Hj0].
      * destruct (gk_root _ _ Hs) as (r & Hr & _ & Hr1). assert (p = r) as -> by congruence. by rewrite Hr1.
      * rewrite ancestor_self; [done|lia|auto].
    + intros Hne. destruct (decide (j = 0%nat)) as [->|Hj0].
      { destruct (gk_root _ _ Hs) as (r & Hr & _ & Hr1). assert (p = r) as -> by congruence. rewrite Hpos, Hr1 in Hne. by destruct Hne. }
      destruct (IH Hj0) as [_ (k & l & Hk & Hl & Hlp & Hright)].
      { intros E. apply Hne. rewrite Hlog, Z.pow_add_r by (apply Z.log2_nonneg || lia). lia. }
      exists k, l. split; [by eapply above_up|]. split; [done|]. specialize (Hpe Hj0).
      apply Z.even_spec in Hpe as [q Hq]. split; [|eauto using honest_path_parent].
      rewrite Hlp, Hpos. replace (2 * position p - 1) with (2 * (position p - 1) + 1) by lia. rewrite lib_traceAncestor_odd by lia. done.
  - assert (j <> 0%nat) as Hj0 by auto. specialize (Hpe Hj0). split.
    + destruct (IH Hj0) as [(k & r & Hk & Hr & Hrp & Hright) _]. exists k, r. split; [by eapply above_up|]. split; [done|].
      split; [|eauto using honest_path_parent]. rewrite Hrp, Hpos, lib_traceAncestor_odd by lia. done.
    + intros _. exists j, p. split; [by eapply above_parent|]. split; [done|]. split; [|intros Hh; destruct (Hdir Hh); auto].
      rewrite Hpos. replace (2 * (position p + 1) - 1) with (2 * position p + 1) by lia.
      rewrite lib_traceAncestor_odd, ancestor_self by (done || lia). done.
Qed.

(** ** Steps against leaves on an honest path *)

Lemma leaf_facts s i c : game_ok I s -> claimData s !! i = Some c -> Z.log2 (position c) = D ->
  i <> 0%nat /\ 2 ^ D <= position c < 2 * 2 ^ D /\ Z.even (position c) = true /\ exists j, parentIndex c = Z.of_nat j.
Proof.
  intros Hs Hc Hl. assert (i <> 0%nat) as Hi.
  { intros ->. destruct (gk_root _ _ Hs) as (r & Hr & _ & Hr1). assert (c = r) as -> by congruence. rewrite Hr1 in Hl. simpl in Hl. lia. }
  destruct (gk_position _ _ Hs _ _ Hc) as (Hp & _ & He). split; [done|]. split.
  - rewrite <- Z.pow_succ_r, <- Hl by lia. by apply Z.log2_spec.
  - split; [auto|]. destruct (gk_child _ _ Hs _ _ Hc Hi) as (j & p & a & _ & (_ & Hj & _) & _). by exists j.
Qed.

(** What [step] compares with, for a leaf [c] with the trace index [k]. *)
Definition prestate (k : Z) : Hash := if k =? 0 then ABSOLUTE_PRESTATE I else T (k - 1).

Lemma attack_claims s i c : game_ok I s -> claimData s !! i = Some c -> Z.log2 (position c) = D -> honest_path (claimData s) i ->
  step_claims I true c s = Ok (prestate (trace_index (position c) D), c).
Proof.
  intros Hs Hc Hl Hh. destruct (leaf_facts _ _ _ Hs Hc Hl) as (Hi & Hr & He & j & Hj). pose proof (Z.pow_le_mono_r 2 D 62).
  unfold step_claims, prestate. rewrite lib_move_attack by lia. rewrite trace_index_leaf by done.
  assert (LibPosition.indexAtDepth (2 * position c) = 2 * (position c - 2 ^ D)) as ->.
  { unfold LibPosition.indexAtDepth. rewrite depth_log2, Z.log2_double, Hl by lia.
    pose proof (Z.pow_succ_r 2 D ltac:(lia)) as Hsu. rewrite shl256_small, Hsu by lia.
    unfold u256, two256. rewrite Z.mod_small by lia. rewrite u64_small by (unfold two64; lia). lia. }
  replace (2 * (position c - 2 ^ D) =? 0) with (position c - 2 ^ D =? 0) by (apply eq_true_iff_eq; rewrite !Z.eqb_eq; lia).
  destruct (Z.eqb_spec (position c - 2 ^ D) 0) as [E|E]; [done|]. case_if; [lia|].
  destruct (neighbours _ _ _ Hs Hc Hi) as [_ (k & l & Hk & Hlk & Hlp & Hright)]; [rewrite Hl; lia|].
  rewrite (findTraceAncestor_above _ _ _ k _ l Hs Hj i) by done. simpl.
  specialize (Hright Hh). unfold right_value in Hright. rewrite Z.eqb_eq in Hright.
  assert (Z.log2 (position c - 1) = D) as Hl1 by (apply Z.log2_unique; rewrite ?Z.pow_succ_r; lia).
  rewrite Hright, Hlp, trace_index_ancestor, trace_index_leaf by (done || lia). do 3 f_equal. lia.
Qed.

Lemma defend_claims s i c : game_ok I s -> claimData s !! i = Some c -> Z.log2 (position c) = D -> honest_path (claimData s) i ->
  exists r k, step_claims I false c s = Ok (claim c, r) /\ claimData s !! k = Some r /\ Z.log2 (position r) < D /\
    trace_index (position r) D = trace_index (position c) D + 1 /\ right_value r = ours r.
Proof.
  intros Hs Hc Hl Hh. destruct (leaf_facts _ _ _ Hs Hc Hl) as (Hi & Hr & He & j & Hj). pose proof (Z.pow_le_mono_r 2 D 62).
  destruct (neighbours _ _ _ Hs Hc Hi) as [(k & r & Hk & Hrk & Hrp & Hside) _].
  exists r, k. unfold step_claims. case_if; [lia|]. rewrite (findTraceAncestor_above _ _ _ k _ r Hs Hj i) by done.
  assert (Z.log2 (position c + 1) = D) as Hl1 by (by rewrite log2_even_succ by (done || lia)).
  split; [done|]. split; [done|]. split; [rewrite <- Hl; by eapply above_log2|]. split.
  - rewrite Hrp, trace_index_ancestor, !trace_index_leaf by (done || lia). lia.
  - destruct (ours r) eqn:Er; [by apply (Hh k r); [right|..]|]. by destruct (Hside Hh).
Qed.

(** The run of [step] on a leaf, once the claims it compares with are known. *)
Lemma step_run s i c a st pr pre r post k : game_ok I s -> status s = IN_PROGRESS ->
  claimData s !! i = Some c -> claimData s !! k = Some r -> Z.log2 (position r) <= Z.log2 (position c) -> Z.log2 (position c) = D ->
  step_claims I a c s = Ok (pre, r) -> VM_step I st pr = Ok post ->
  step I (Z.of_nat i) a st pr s =
    if negb (Keccak256Hash st =? pre) then (Err (ErrNew "InvalidPrestate"), s)
    else if Bool.eqb (Bool.eqb (ours c) (ours r)) (post =? claim r) then (Err (ErrNew "ValidStep"), s)
    else (Ok tt, counter (Z.of_nat i) s).
Proof.
  intros Hs Hst Hc Hr Hle Hl Hsc Hvm. destruct (leaf_facts _ _ _ Hs Hc Hl) as (Hi & _).
  destruct (position_move _ HD _ _ _ a Hs Hc) as (_ & Hd & _); [done|].
  unfold step, bind, get, lift, throw, modify. rewrite bool_decide_true by done. simpl. unfold claim_at. rewrite Nat2Z.id, Hc.
  rewrite Hd, Hl, Z.eqb_refl. simpl. rewrite Hsc. simpl. case_if; [done|]. rewrite Hvm.
  rewrite (position_depth _ HD _ _ _ Hs Hc), (position_depth _ HD _ _ _ Hs Hr). case_if; [lia|].
  assert (((Z.log2 (position c) - Z.log2 (position r)) mod 2 =? 0) = Bool.eqb (ours c) (ours r)) as ->; [|by case_if].
  unfold ours. rewrite Zmod_even, Z.even_sub, <- !Z.negb_odd.
  by destruct (Z.odd (Z.log2 (position c))), (Z.odd (Z.log2 (position r))), odd_levels.
Qed.
End Path.
