(* ===== verification/DisputeTheorems.v ===== *)
(** * What the dispute game guarantees to a side that plays the right trace

    Steps against leaves succeed for the side with the trace and fail against it, and a
    game in which every claim of the other side was answered is resolved in its favour. *)
From S2P Require Import Prelude GoErrors GoBytes EthTypes Geth Bits Evm Positions DisputeGame DisputeGameSpec DisputeHonest.
Import FaultDisputeGame.
#[local] Open Scope Z_scope.

(** ** Clocks *)
Lemma clock_wrap d t : 0 <= d < two64 -> 0 <= t < two64 ->
  LibClock.duration (LibClock.wrap d t) = d /\ LibClock.timestamp (LibClock.wrap d t) = t.
Proof.
  unfold two64. intros Hd Ht. assert (LibClock.wrap d t = d * 2 ^ 64 + t) as ->.
  { unfold LibClock.wrap. rewrite shl256_small by lia. by apply lor_low_high. }
  unfold LibClock.duration, LibClock.timestamp, shr256, shl256, u256, two256. cbn [Z.leb Z.compare Pos.compare Pos.compare_cont].
  rewrite !Z.shiftr_div_pow2, Z.shiftl_mul_pow2 by lia. split; [rewrite Z.div_add_l, Z.div_small by lia; lia|].
  assert (((d * 2 ^ 64 + t) * 2 ^ 192) mod 2 ^ 256 = t * 2 ^ 192) as ->.
  { symmetry. apply (Z.mod_unique _ _ d); lia. }
  by rewrite Z.div_mul.
Qed.

Section Theorems.
Context `{Keccak}.
Variable I : Immutables.
Let D := MAX_GAME_DEPTH I.
Hypothesis HD : 1 <= D <= 62.
Variable T : Z -> Hash.
Variable odd_levels : bool.

(** A step against a leaf of the other side. *)
Lemma honest_step_run s i c st pr :
  game_ok I s -> status s = IN_PROGRESS -> claimData s !! i = Some c -> Z.log2 (position c) = D ->
  ours odd_levels c = false -> honest_path I T odd_levels (claimData s) i ->
  let right := right_value I T c in
  let k := trace_index (position c) D + (if right then 1 else 0) in
  Keccak256Hash st = prestate I T k -> VM_step I st pr = Ok (T k) ->
  step I (Z.of_nat i) (negb right) st pr s = (Ok tt, counter (Z.of_nat i) s).
Proof.
  intros Hs Hst Hc Hl Ho Hh right k Hk Hvm. subst right k.
  destruct (leaf_facts _ HD _ _ _ Hs Hc Hl) as (_ & Hrange & _). fold D in Hrange. destruct (right_value I T c) eqn:Er; simpl.
  - destruct (defend_claims _ HD _ _ _ _ _ Hs Hc Hl Hh) as (r & m & Hsc & Hm & Hlr & Htr & Hside).
    erewrite step_run with (odd_levels := odd_levels); eauto; [|lia]. unfold right_value in Er. rewrite Z.eqb_eq in Er.
    unfold prestate in Hk. rewrite trace_index_leaf in * by done. case_if_in Hk; [lia|].
    assert ((Keccak256Hash st =? claim c) = true) as ->.
    { rewrite Hk, Er. replace (position c - 2 ^ D + 1 - 1) with (position c - 2 ^ D) by lia. by rewrite Z.eqb_refl. }
    rewrite Ho. unfold right_value in Hside. rewrite Htr, trace_index_leaf, Z.eqb_sym in Hside by done.
    fold D in Hside. rewrite Hside. by destruct (ours odd_levels r).
  - rewrite Z.add_0_r in *. erewrite step_run with (odd_levels := odd_levels); eauto using attack_claims; [|lia].
    rewrite Hk, Z.eqb_refl. simpl. unfold right_value in Er. rewrite Z.eqb_sym in Er. fold D in Er. rewrite Er.
    by rewrite eqb_reflx.
Qed.

(** In every game that can be reached, a step against a leaf of the other side
    succeeds when the side that answered every claim above the leaf with the values of its
    trace attacks a wrong leaf and defends a right one, with the state before that index of
    the trace, and the VM continues the trace: the search for the neighbouring claim ends,
    the contract accepts the state, and the leaf is countered. *)
Theorem honest_step_succeeds root s i c st pr :
  reachable I root s -> status s = IN_PROGRESS -> claimData s !! i = Some c -> Z.log2 (position c) = D ->
  ours odd_levels c = false -> honest_path I T odd_levels (claimData s) i ->
  let right := right_value I T c in
  let k := trace_index (position c) D + (if right then 1 else 0) in
  Keccak256Hash st = prestate I T k -> VM_step I st pr = Ok (T k) ->
  step I (Z.of_nat i) (negb right) st pr s = (Ok tt, counter (Z.of_nat i) s).
Proof. intros Hr. apply honest_step_run. by eapply reachable_ok. Qed.

(** In every game that can be reached, no step against an own leaf on a path of
    honest answers succeeds, with any state, proof or direction, if the VM never continues
    the trace with another value: a correct leaf cannot be countered. *)
Theorem honest_leaf_safe root s i c a st pr s' :
  reachable I root s -> claimData s !! i = Some c -> Z.log2 (position c) = D ->
  ours odd_levels c = true -> honest_path I T odd_levels (claimData s) i ->
  (forall st pr k post, Keccak256Hash st = prestate I T k -> VM_step I st pr = Ok post -> post = T k) ->
  step I (Z.of_nat i) a st pr s <> (Ok tt, s').
Proof.
  intros Hr Hc Hl Ho Hh Hvm E. pose proof (reachable_ok _ HD _ _ Hr) as Hs.
  destruct (wp_run _ _ _ _ _ (step_spec _ _ _ _ _ _) E) as (p & post & Hst & _ & _ & Hpost & _).
  destruct (leaf_facts _ HD _ _ _ Hs Hc Hl) as (_ & Hrange & _). fold D in Hrange.
  destruct (Hh i c) as [Hright _]; [by left|done..|]. unfold right_value in Hright. rewrite Z.eqb_eq in Hright. destruct a.
  - erewrite step_run with (odd_levels := odd_levels) in E; eauto using attack_claims; [|lia].
    case_if_in E; [done|]. rewrite (Hvm _ _ _ _ E0 Hpost), <- Hright, Z.eqb_refl, eqb_reflx in E. done.
  - destruct (defend_claims _ HD _ _ _ _ _ Hs Hc Hl Hh) as (r & m & Hsc & Hm & Hlr & Htr & Hside).
    erewrite step_run with (odd_levels := odd_levels) in E; eauto; [|lia]. case_if_in E; [done|].
    assert (post = T (trace_index (position c) D + 1)) as ->.
    { apply (Hvm st pr); [|done]. rewrite E0, Hright. unfold prestate. fold D. rewrite trace_index_leaf by done.
      case_if; [lia|]. f_equal. lia. }
    unfold right_value in Hside. rewrite Htr, Z.eqb_sym in Hside. fold D in Hside. rewrite Hside, Ho in E.
    by destruct (ours odd_levels r).
Qed.

(** ** Resolution *)

(** The claim [resolve] finds is uncountered, if it found one, and no uncountered claim is
    further to the left. *)
Lemma left_most_spec n cs best li lt : (n <= length cs)%nat -> left_most I n cs best = (li, lt) ->
  lt <= best.2 /\ ((li, lt) = best \/ exists i c, cs !! i = Some c /\ countered c = false /\ li = Z.of_nat i /\ lt < best.2) /\
  forall i c, (i < n)%nat -> cs !! i = Some c -> countered c = false -> lt <= LibPosition.traceIndex (position c) D.
Proof.
  revert best. induction n as [|n IH]; intros best Hn E; simpl in E.
  - subst best. simpl. split; [done|]. split; [by left|]. lia.
  - destruct (cs !! n) as [c|] eqn:Hc; [|apply lookup_ge_None in Hc; lia].
    destruct (countered c) eqn:Ec.
    + destruct (IH best) as (H1 & H2 & H3); [lia|done|]. split; [done|]. split; [done|]. intros i d Hi Hd Hu.
      destruct (decide (i = n)) as [->|]; [congruence|]. apply (H3 i d); [lia|done..].
    + fold D in E. destruct (Z.ltb_spec (LibPosition.traceIndex (position c) D) best.2);
        (destruct (IH _ ltac:(lia) E) as (H1 & H2 & H3); simpl in *; split; [lia|]; split;
         [|intros i d Hi Hd Hu; destruct (decide (i = n)) as [->|]; [assert (d = c) as -> by congruence; lia|apply (H3 i d); [lia|done..]]]).
      * right. destruct H2 as [[= -> ->]|(i & d & ? & ? & ? & ?)]; [by exists n, c|exists i, d; repeat split; (done || lia)].
      * done.
Qed.

Lemma lib_traceIndex_bound s i c : game_ok I s -> claimData s !! i = Some c -> LibPosition.traceIndex (position c) D < 2 ^ 128 - 1.
Proof.
  intros Hs Hc. destruct (position_bound _ _ _ _ Hs Hc) as [Hp Hb]. fold D in Hb. rewrite lib_traceIndex by lia.
  destruct (gk_position _ _ Hs _ _ Hc) as (_ & Hl & _).
  pose proof (trace_index_bound (position c) D Hp Hl). pose proof (Z.pow_le_mono_r 2 D 62). lia.
Qed.

(** A claim with a parent index in the array has its parent there. *)
Lemma child_of s i k c d : game_ok I s -> claimData s !! i = Some c -> claimData s !! k = Some d -> parentIndex d = Z.of_nat i ->
  exists a, child (claimData s) i c a d.
Proof.
  intros Hs Hc Hd Hi. destruct (decide (k = 0%nat)) as [->|Hk].
  - destruct (gk_root _ _ Hs) as (r & Hr & Hp & _). assert (d = r) as -> by congruence.
    pose proof (lookup_lt_Some _ _ _ Hc). pose proof (gk_length _ _ Hs). lia.
  - destruct (parent_of _ _ _ _ _ Hs Hd Hk Hi) as (_ & p & a & Hch & _). exists a.
    assert (p = c) as -> by (destruct Hch as (Hp & _); congruence). done.
Qed.

(** When the last level is an own one and the other side is answered everywhere, some own
    claim is left. *)
Lemma own_claim_left s i c : game_ok I s -> answered_ok I s -> Z.odd D = odd_levels ->
  (forall i c, claimData s !! i = Some c -> ours odd_levels c = false -> countered c = true) ->
  (forall i c, claimData s !! i = Some c -> ours odd_levels c = true -> Z.log2 (position c) = D -> countered c = false) ->
  claimData s !! i = Some c -> ours odd_levels c = true ->
  exists k d, claimData s !! k = Some d /\ ours odd_levels d = true /\ countered d = false.
Proof.
  intros Hs Ha HDo Hother Hleaf. remember (Z.to_nat (D - Z.log2 (position c))) as n eqn:En.
  revert i c En. induction (lt_wf n) as [n _ IH]. intros i c -> Hc Ho.
  destruct (countered c) eqn:Ec; [|by exists i, c]. destruct (gk_position _ _ Hs _ _ Hc) as (_ & Hl & _). fold D in Hl.
  destruct (Ha _ _ Hc Ec) as [Hd|(k & d & Hd & Hpd)]; [rewrite (Hleaf _ _ Hc Ho Hd) in Ec; done|].
  destruct (child_of _ _ _ _ _ Hs Hc Hd Hpd) as [a Hch]. pose proof (child_log2 _ _ _ _ _ _ Hs Hch) as Hld.
  pose proof (ours_child _ odd_levels _ _ _ _ _ Hs Hch) as Hod. rewrite Ho in Hod. simpl in Hod.
  destruct (Ha _ _ Hd (Hother _ _ Hd Hod)) as [Hlast|(m & e & He & Hpe)].
  - unfold ours in Hod. rewrite Hlast in Hod. fold D in Hod. rewrite HDo, eqb_reflx in Hod. done.
  - destruct (child_of _ _ _ _ _ Hs Hd He Hpe) as [b Hch']. pose proof (child_log2 _ _ _ _ _ _ Hs Hch') as Hle.
    pose proof (ours_child _ odd_levels _ _ _ _ _ Hs Hch') as Hoe. rewrite Hod in Hoe.
    destruct (gk_position _ _ Hs _ _ He) as (_ & Hlle & _). fold D in Hlle.
    apply (IH (Z.to_nat (D - Z.log2 (position e))) ltac:(lia) m e); done.
Qed.

(** The clock that a claim's opponent is held to has run out. *)
Definition expired (now : Z) (c : ClaimData) : Prop :=
  LibClock.timestamp (clock c) <= now /\
  Z.shiftr (GAME_DURATION I) 1 < LibClock.duration (clock c) + (now - LibClock.timestamp (clock c)).

Lemma resolve_run now s li lt c : game_ok I s -> status s = IN_PROGRESS ->
  (forall i c, claimData s !! i = Some c -> expired now c) ->
  left_most I (length (claimData s)) (claimData s) (Z.of_nat (length (claimData s)) - 1, 2 ^ 128 - 1) = (li, lt) ->
  claimData s !! Z.to_nat li = Some c ->
  let w := if Z.even (Z.log2 (position c)) && negb (lt =? 2 ^ 128 - 1) then DEFENDER_WINS else CHALLENGER_WINS in
  resolve I now s = (Ok w, set_status w s).
Proof.
  intros Hs Hst Hexp El Hc w. unfold resolve, bind, get, lift, throw, modify, ret. rewrite bool_decide_true by done. cbn [negb].
  rewrite bool_decide_false by (intros E; rewrite E in Hc; done). rewrite El. unfold claim_at. rewrite Hc.
  assert (exists k, (if parentIndex c =? no_parent then Ok (clock c)
            else result_map clock match claimData s !! Z.to_nat (parentIndex c) with Some c0 => Ok c0 | None => Err revert end) =
          Ok (clock k) /\ expired now k) as (k & -> & Hk1 & Hk2).
  { case_if; [by exists c; eauto|]. destruct (decide (Z.to_nat li = 0%nat)) as [E0|Hi].
    - rewrite E0 in Hc. destruct (gk_root _ _ Hs) as (r & Hr & Hp & _). by assert (c = r) as -> by congruence.
    - destruct (gk_child _ _ Hs _ _ Hc Hi) as (j & p & a & _ & (Hp & Hj & _) & _). exists p.
      rewrite Hj, Nat2Z.id, Hp. eauto. }
  case_if; [lia|]. case_if; [lia|]. subst w. rewrite (position_depth _ HD _ _ _ Hs Hc), Zmod_even.
  by destruct (Z.even _), (lt =? 2 ^ 128 - 1).
Qed.

(** A game in which the other side is answered everywhere. *)
Lemma answered_game_run root now s :
  reachable I root s -> status s = IN_PROGRESS ->
  (forall i c, claimData s !! i = Some c -> expired now c) ->
  (forall i c, claimData s !! i = Some c -> ours odd_levels c = false -> countered c = true) ->
  (odd_levels = false -> Z.even D = true /\
     forall i c, claimData s !! i = Some c -> ours odd_levels c = true -> Z.log2 (position c) = D -> countered c = false) ->
  let w := if odd_levels then CHALLENGER_WINS else DEFENDER_WINS in
  resolve I now s = (Ok w, set_status w s).
Proof.
  intros Hr Hst Hexp Hother Hown w. pose proof (reachable_ok _ HD _ _ Hr) as Hs.
  destruct (gk_root _ _ Hs) as (r & Hr0 & Hrp & Hr1).
  destruct (left_most I (length (claimData s)) (claimData s) (Z.of_nat (length (claimData s)) - 1, 2 ^ 128 - 1)) as [li lt] eqn:El.
  destruct (left_most_spec _ _ _ _ _ (Nat.le_refl _) El) as (_ & Hfound & Hall). simpl in Hfound.
  destruct Hfound as [[= -> ->]|(i & c & Hc & Hu & -> & Hlt)].
  - destruct (lookup_lt_is_Some_2 (claimData s) (Z.to_nat (Z.of_nat (length (claimData s)) - 1))) as [c Hc].
    { apply lookup_lt_Some in Hr0. lia. }
    rewrite (resolve_run _ _ _ _ _ Hs Hst Hexp El Hc), andb_false_r by done. subst w. destruct odd_levels eqn:Eo; [done|].
    destruct (Hown eq_refl) as [HDe Hleaf].
    destruct (own_claim_left s 0 r Hs (reachable_answered _ HD _ _ Hr)) as (k & d & Hd & _ & Hdu); rewrite ?Eo; try done.
    { by rewrite <- Z.negb_even, HDe. }
    { unfold ours. by rewrite Hr1. }
    specialize (Hall k d (lookup_lt_Some _ _ _ Hd) Hd Hdu). pose proof (lib_traceIndex_bound _ _ _ Hs Hd). lia.
  - rewrite <- (Nat2Z.id i) in Hc. rewrite (resolve_run _ _ _ _ _ Hs Hst Hexp El Hc). rewrite Nat2Z.id in Hc.
    destruct (ours odd_levels c) eqn:Eo; [|rewrite (Hother _ _ Hc Eo) in Hu; done].
    unfold ours in Eo. apply eqb_prop in Eo. rewrite <- Z.negb_odd, Eo. subst w.
    destruct odd_levels; [done|]. simpl. by destruct (Z.eqb_spec lt (2 ^ 128 - 1)); [lia|].
Qed.
(** A game that can be reached is resolved in favour of the side whose opponent was
    answered everywhere, once the clocks have run out: if every claim at a level of the
    other side is countered, [resolve] succeeds and returns the win of the challenger for
    the odd levels, and the win of the defender for the even levels, provided that the last
    level of the game is even and no leaf at it is countered. *)
Theorem answered_game_is_won root now s :
  reachable I root s -> status s = IN_PROGRESS ->
  (forall i c, claimData s !! i = Some c -> expired now c) ->
  (forall i c, claimData s !! i = Some c -> ours odd_levels c = false -> countered c = true) ->
  (odd_levels = false -> Z.even D = true /\
     forall i c, claimData s !! i = Some c -> ours odd_levels c = true -> Z.log2 (position c) = D -> countered c = false) ->
  let w := if odd_levels then CHALLENGER_WINS else DEFENDER_WINS in
  resolve I now s = (Ok w, set_status w s).
Proof. apply answered_game_run. Qed.

(** ** Bounds *)

(** A clock within the time of its side, and a timestamp of 64 bits. *)
Definition clock_ok (clk : Z) : Prop :=
  0 <= LibClock.duration clk <= Z.shiftr (GAME_DURATION I) 1 /\ 0 <= LibClock.timestamp clk < two64.

Lemma move_clock now i h a s :
  wp (move I now i h a) (fun _ s' => exists n, claimData s' = alter set_countered (Z.to_nat i) (claimData s ++ [n]) /\ clock_ok (clock n)) s.
Proof.
  unfold move. wp_steps. apply wp_lift. intros p _. wp_steps. apply wp_lift. intros gclk _. wp_steps.
  eexists. split; [done|]. simpl. unfold clock_ok.
  match goal with |- context [LibClock.wrap ?d ?t] => destruct (clock_wrap d t) as [-> ->]; [apply u64_range..|] end.
  split; [|apply u64_range]. match goal with |- 0 <= ?d <= _ => pose proof (u64_range (LibClock.duration gclk + now - LibClock.timestamp (clock p))) end. lia.
Qed.

Lemma reachable_clocks root s : 0 <= GAME_DURATION I -> reachable I root s -> forall i c, claimData s !! i = Some c -> clock_ok (clock c).
Proof.
  intros Hdur. assert (forall j (cs : list ClaimData), (forall i c, cs !! i = Some c -> clock_ok (clock c)) ->
    forall i c, alter set_countered j cs !! i = Some c -> clock_ok (clock c)) as Halt.
  { intros j cs Hcs i c Hc. rewrite list_lookup_alter in Hc. case_decide; [|eauto].
    apply fmap_Some in Hc as (d & Hd & ->). simpl. eauto. }
  induction 1 as [s (_ & _ & now & Hcd)|s s' _ IH Hst]; intros i c Hc.
  - rewrite Hcd in Hc. apply list_lookup_singleton_Some in Hc as [_ <-]. cbn [clock]. unfold clock_ok.
    destruct (clock_wrap 0 (u64 now)) as [-> ->]; [done|apply u64_range|]. split; [|apply u64_range].
    split; [done|]. by apply Z.shiftr_nonneg.
  - destruct Hst as [now j h a s s' Hj Hl E|j a st pr s s' Hj E|now x s s' E].
    + destruct (wp_run _ _ _ _ _ (move_clock _ _ _ _ _) E) as (n & En & Hn). rewrite En in Hc. refine (Halt _ _ _ _ _ Hc).
      intros k d [Hd|[_ Hd]]%lookup_app_Some; [eauto|]. by apply list_lookup_singleton_Some in Hd as [_ <-].
    + destruct (wp_run _ _ _ _ _ (step_spec _ _ _ _ _ _) E) as (p & post & _ & _ & _ & _ & ->). by refine (Halt _ _ _ _ _ Hc).
    + destruct (wp_run _ _ _ _ _ (resolve_claims _ _ _) E) as (E1 & _). rewrite E1 in Hc. eauto.
Qed.

(** The numbers of a game stay in range: in every game that can be reached the clock
    of each claim is at most half of the game's duration, its timestamp has 64 bits, its
    position is at most at the maximal depth, and its trace index is one of the trace. *)
Theorem game_numbers_bounded root s i c :
  0 <= GAME_DURATION I -> reachable I root s -> claimData s !! i = Some c ->
  0 <= LibClock.duration (clock c) <= Z.shiftr (GAME_DURATION I) 1 /\ 0 <= LibClock.timestamp (clock c) < two64 /\
  0 < position c < 2 ^ (D + 1) /\ LibPosition.depth (position c) <= D /\ 0 <= LibPosition.traceIndex (position c) D < 2 ^ D.
Proof.
  intros Hdur Hr Hc. destruct (reachable_clocks _ _ Hdur Hr _ _ Hc) as [? ?]. pose proof (reachable_ok _ HD _ _ Hr) as Hs.
  destruct (position_bound _ _ _ _ Hs Hc) as [Hp Hb]. fold D in Hb. destruct (gk_position _ _ Hs _ _ Hc) as (_ & Hl & _). fold D in Hl.
  rewrite (position_depth _ HD _ _ _ Hs Hc), lib_traceIndex by lia. do 4 (split; [done|]). split; [|by apply trace_index_bound].
  unfold trace_index. destruct (Z.log2_spec (position c) Hp) as [Hlow _]. pose proof (Z.log2_nonneg (position c)).
  assert (2 ^ D = 2 ^ Z.log2 (position c) * 2 ^ (D - Z.log2 (position c))) as E by (rewrite <- Z.pow_add_r by lia; f_equal; lia).
  pose proof (Z.pow_pos_nonneg 2 (D - Z.log2 (position c)) ltac:(lia) ltac:(lia)). rewrite E. nia.
Qed.
End Theorems.
