(* ===== verification/Challenger.v ===== *)
(** * The challenger

    [op-challenger/game/fault]: the claims and the game tree ([types/types.go],
    [types/game.go]), the solver ([solver/solver.go]), the agent that plays a game
    ([agent.go], [player.go]), its view of the contract ([loader.go],
    [responder/responder.go]) and the alphabet trace ([trace/alphabet/provider.go]).  The
    trace, the contract and the transaction manager are reached through interfaces over an
    environment; a call of the contract that the ABI packer encodes is a value. *)
From S2P Require Import Prelude GoErrors GoBytes EthTypes Geth Positions.
#[local] Open Scope Z_scope.

(** ** [types.go] *)
Definition GameStatusInProgress : Z := 0.
Definition GameStatusChallengerWon : Z := 1.
Definition GameStatusDefenderWon : Z := 2.
Definition GameStatusFromUint8 (i : Z) : result Z := if 2 <? i then Err (ErrNew "invalid game status") else Ok i.

Record PreimageOracleData := mkOracleData {
  od_IsLocal : bool;
  od_OracleKey : Data;
  od_OracleData : Data;
  od_OracleOffset : Z }.

Definition NewPreimageOracleData (key data : Data) (offset : Z) : PreimageOracleData :=
  mkOracleData (bool_decide (head key = Some Byte.x01)) key data offset.
Definition GetType (p : PreimageOracleData) : result Z :=
  match od_OracleKey p with [] => Panic | b :: _ => Ok (Z_of_byte b) end.
Definition GetIdent (p : PreimageOracleData) : result Z :=
  match od_OracleKey p with [] => Panic | _ :: rest => Ok (be_decode rest) end.
Definition GetPreimageWithoutSize (p : PreimageOracleData) : result Data :=
  if (length (od_OracleData p) <? 8)%nat then Panic else Ok (drop 8 (od_OracleData p)).

Record StepCallData := mkStepCall {
  sc_ClaimIndex : Z;
  sc_IsAttack : bool;
  sc_StateData : Data;
  sc_Proof : Data }.

Record ClaimData := mkClaimData {
  cd_Value : Hash;
  cd_Position : Position }.

#[export] Instance ClaimData_eq_dec : EqDecision ClaimData.
Proof. solve_decision. Defined.
#[export] Instance ClaimData_countable : Countable ClaimData.
Proof.
  refine (inj_countable' (fun c => (cd_Value c, cd_Position c)) (fun q => mkClaimData q.1 q.2) _).
  by intros [].
Defined.

Record Claim := mkClaim {
  cl_ClaimData : ClaimData;
  cl_Countered : bool;
  cl_Clock : Z;
  cl_Parent : ClaimData;
  cl_ContractIndex : Z;
  cl_ParentContractIndex : Z }.

#[export] Instance Claim_eq_dec : EqDecision Claim.
Proof. solve_decision. Defined.

Definition cl_Position (c : Claim) : Position := cd_Position (cl_ClaimData c).
Definition no_claim_data : ClaimData := mkClaimData 0 (mkPosition 0 0).
Definition IsRoot (c : Claim) : bool := IsRootPosition (cl_Position c).
Definition DefendsParent (c : Claim) : bool :=
  negb (Z.shiftr (pos_indexAtDepth (cl_Position c)) 1 =? pos_indexAtDepth (cd_Position (cl_Parent c))).

Class TraceProvider (E : Type) := {
  trace_Get : Z -> M E Hash;
  trace_GetStepData : Z -> M E (Data * Data * option PreimageOracleData);
  trace_AbsolutePreState : M E Data }.

(** ** [game.go] *)
Record extendedClaim := mkExtended {
  ec_self : Claim;
  ec_children : list ClaimData }.

Record gameState := mkGameState {
  gs_agreeWithProposedOutput : bool;
  gs_root : ClaimData;
  gs_claims : gmap ClaimData extendedClaim;
  gs_depth : Z }.

Definition set_gs_claims (x : gmap ClaimData extendedClaim) (g : gameState) : gameState :=
  mkGameState (gs_agreeWithProposedOutput g) (gs_root g) x (gs_depth g).

Definition NewGameState (agree : bool) (root : Claim) (depth : Z) : gameState :=
  mkGameState agree (cl_ClaimData root) {[cl_ClaimData root := mkExtended root []]} depth.

Definition AgreeWithClaimLevel (g : gameState) (c : Claim) : bool :=
  let isOddLevel := Z.rem (pos_depth (cl_Position c)) 2 =? 1 in
  if gs_agreeWithProposedOutput g then isOddLevel else negb isOddLevel.

Definition IsDuplicate (g : gameState) (c : Claim) : bool := bool_decide (is_Some (gs_claims g !! cl_ClaimData c)).

(** [Put]: the parent gets its child through the pointer in the map. *)
Definition Put (c : Claim) : M gameState unit :=
  g <- get ;;
  if IsRoot c || IsDuplicate g c then throw (ErrNew "claim exists in game state")
  else
    match gs_claims g !! cl_Parent c with
    | None => throw (ErrNew "no parent claim")
    | Some parent =>
        put (set_gs_claims
          (<[cl_ClaimData c := mkExtended c []]>
            (<[cl_Parent c := mkExtended (ec_self parent) (ec_children parent ++ [cl_ClaimData c])]> (gs_claims g))) g)
    end.
Fixpoint PutAll (cs : list Claim) : M gameState unit :=
  match cs with
  | [] => ret tt
  | c :: cs' => Put c ;;; PutAll cs'
  end.

Definition getChildren (g : gameState) (c : ClaimData) : result (list ClaimData) :=
  match gs_claims g !! c with Some e => Ok (ec_children e) | None => Panic end.

(** [Claims]: the queue of the breadth-first walk. *)
Fixpoint claims_loop (fuel : nat) (g : gameState) (queue : list ClaimData) (out : list Claim) : result (list Claim) :=
  match queue with
  | [] => Ok out
  | item :: queue' =>
      match fuel with
      | O => Panic
      | S fuel' =>
          let? children := getChildren g item in
          match gs_claims g !! item with
          | Some e => claims_loop fuel' g (queue' ++ children) (out ++ [ec_self e])
          | None => Panic
          end
      end
  end.
Definition Claims (g : gameState) : result (list Claim) := claims_loop (size (gs_claims g)) g [gs_root g] [].

Definition getParent (g : gameState) (c : Claim) : result Claim :=
  if IsRoot c then Err (ErrNew "claim not found in game state")
  else match gs_claims g !! cl_Parent c with
       | None => Err (ErrNew "claim not found in game state")
       | Some parent => Ok (ec_self parent)
       end.

(** ** [solver.go] *)
Record StepData := mkStepData {
  sd_LeafClaim : Claim;
  sd_IsAttack : bool;
  sd_PreState : Data;
  sd_ProofData : Data;
  sd_OracleData : option PreimageOracleData }.

Section Solver.
Context {E : Type} `{TraceProvider E}.
Variable gameDepth : Z.

Definition traceAtPosition (p : Position) : M E Hash :=
  index <- lift (TraceIndex p gameDepth) ;;
  trace_Get index.

Definition agreeWithClaim (c : ClaimData) : M E bool :=
  ourValue <- traceAtPosition (cd_Position c) ;;
  ret (ourValue =? cd_Value c).

Definition response (position : Position) (value : Hash) (c : Claim) : Claim :=
  mkClaim (mkClaimData value position) false 0 (cl_ClaimData c) 0 (cl_ContractIndex c).

Definition solver_attack (c : Claim) : M E (option Claim) :=
  let position := Attack (cl_Position c) in
  value <- wrapE (ErrWrap "attack claim") (traceAtPosition position) ;;
  ret (Some (response position value c)).

Definition solver_defend (c : Claim) : M E (option Claim) :=
  if IsRoot c then ret None
  else
    let position := Defend (cl_Position c) in
    value <- wrapE (ErrWrap "defend claim") (traceAtPosition position) ;;
    ret (Some (response position value c)).

Definition NextMove (c : Claim) (agreeWithClaimLevel : bool) : M E (option Claim) :=
  if agreeWithClaimLevel then ret None
  else if pos_depth (cl_Position c) =? gameDepth then throw (ErrNew "game depth reached")
  else
    agree <- agreeWithClaim (cl_ClaimData c) ;;
    if agree : bool then solver_defend c else solver_attack c.

Definition AttemptStep (c : Claim) (agreeWithClaimLevel : bool) : M E StepData :=
  if negb (pos_depth (cl_Position c) =? gameDepth) then throw (ErrNew "cannot step on non-leaf claims")
  else if agreeWithClaimLevel then throw (ErrNew "cannot step on claims we agree with")
  else
    claimCorrect <- agreeWithClaim (cl_ClaimData c) ;;
    index <- lift (TraceIndex (cl_Position c) gameDepth) ;;
    d <- (if negb claimCorrect then trace_GetStepData index else trace_GetStepData (u64 (index + 1))) ;;
    ret (mkStepData c (negb claimCorrect) d.1.1 d.1.2 d.2).
End Solver.

(** ** [agent.go] *)
Class Responder (E : Type) := {
  CallResolve : M E Z;
  Resolve : M E unit;
  Respond : Claim -> M E unit;
  Step : StepCallData -> M E unit }.
Class ClaimLoader (E : Type) := { FetchClaims : M E (list Claim) }.
Class OracleUpdater (E : Type) := { UpdateOracle : PreimageOracleData -> M E unit }.

Section Agent.
Context {E : Type} `{TraceProvider E} `{Responder E} `{ClaimLoader E} `{OracleUpdater E}.
Variable maxDepth : Z.
Variable agreeWithProposedOutput : bool.

Definition shouldResolve (status : Z) : bool :=
  let expected := if agreeWithProposedOutput then GameStatusChallengerWon else GameStatusDefenderWon in
  expected =? status.

Definition tryResolve : M E bool :=
  r <- attempt CallResolve ;;
  match r with
  | inr _ => ret false
  | inl status =>
      if status =? GameStatusInProgress then ret false
      else if negb (shouldResolve status) then ret true
      else attempt Resolve ;;; ret true
  end.

Definition newGameFromContracts : M E gameState :=
  claims <- wrapE (ErrWrap "failed to fetch claims") FetchClaims ;;
  match claims with
  | [] => throw (ErrNew "no claims")
  | root :: rest =>
      match PutAll rest (NewGameState agreeWithProposedOutput root maxDepth) with
      | (Ok _, game) => ret game
      | (Err e, _) => throw (ErrWrap "failed to load claims into the local state" e)
      | (Panic, _) => lift Panic
      end
  end.

(** [move]: the message that is logged needs the trace indices of the move and of the
    claim, which panic when they are out of range. *)
Definition agent_move (game : gameState) (c : Claim) : M E unit :=
  nextMove <- wrapE (ErrWrap "execute next move") (NextMove maxDepth c (AgreeWithClaimLevel game c)) ;;
  match nextMove with
  | None => ret tt
  | Some move =>
      lift (TraceIndex (cl_Position move) maxDepth) ;;;
      lift (TraceIndex (cl_Position c) maxDepth) ;;;
      if IsDuplicate game move then ret tt else Respond move
  end.

Definition agent_step (game : gameState) (c : Claim) : M E unit :=
  if negb (pos_depth (cl_Position c) =? maxDepth) then ret tt
  else
    let agreeWithClaimLevel := AgreeWithClaimLevel game c in
    if agreeWithClaimLevel then ret tt
    else if cl_Countered c then ret tt
    else
      step <- wrapE (ErrWrap "attempt step") (AttemptStep maxDepth c agreeWithClaimLevel) ;;
      (match sd_OracleData step with
       | Some d => wrapE (ErrWrap "failed to load oracle data") (UpdateOracle d)
       | None => ret tt
       end) ;;;
      Step (mkStepCall (u64 (cl_ContractIndex (sd_LeafClaim step))) (sd_IsAttack step) (sd_PreState step) (sd_ProofData step)).

(** A loop whose errors are logged. *)
Fixpoint for_each {A} (f : A -> M E unit) (l : list A) : M E unit :=
  match l with
  | [] => ret tt
  | x :: l' => attempt (f x) ;;; for_each f l'
  end.

Definition Act : M E unit :=
  resolved <- tryResolve ;;
  if resolved : bool then ret tt
  else
    game <- wrapE (ErrWrap "create game from contracts") newGameFromContracts ;;
    claims <- lift (Claims game) ;;
    for_each (agent_move game) claims ;;;
    for_each (agent_step game) claims.
End Agent.

(** ** [loader.go] *)
Record fetchedClaim := mkFetched {
  f_ParentIndex : Z;
  f_Countered : bool;
  f_Claim : Hash;
  f_Position : Z;
  f_Clock : Z }.

Class MinimalFaultDisputeGameCaller (E : Type) := {
  caller_ClaimData : Z -> M E fetchedClaim;
  caller_Status : M E Z;
  caller_ClaimDataLen : M E Z;
  caller_MAXGAMEDEPTH : M E Z;
  caller_ABSOLUTEPRESTATE : M E Hash }.

Section Loader.
Context {E : Type} `{MinimalFaultDisputeGameCaller E}.

Definition GetGameStatus : M E Z := caller_Status.
Definition GetClaimCount : M E Z := count <- caller_ClaimDataLen ;; ret (u64 count).
Definition FetchGameDepth : M E Z := gameDepth <- caller_MAXGAMEDEPTH ;; ret (u64 gameDepth).
Definition FetchAbsolutePrestateHash : M E Hash := caller_ABSOLUTEPRESTATE.

Definition fetchClaim (arrIndex : Z) : M E Claim :=
  f <- caller_ClaimData arrIndex ;;
  let data := mkClaimData (f_Claim f) (NewPositionFromGIndex (u64 (f_Position f))) in
  parent <- (if negb (IsRootPosition (cd_Position data)) then
               p <- caller_ClaimData (f_ParentIndex f) ;;
               ret (mkClaimData (f_Claim p) (NewPositionFromGIndex (u64 (f_Position p))))
             else ret no_claim_data) ;;
  ret (mkClaim data (f_Countered f) (u64 (f_Clock f)) parent (i64 arrIndex) (f_ParentIndex f)).

(** The loop of [FetchClaims], from an index on. *)
Fixpoint fetch_claims (left : nat) (i : Z) : M E (list Claim) :=
  match left with
  | O => ret []
  | S left' =>
      claim <- fetchClaim i ;;
      rest <- fetch_claims left' (i + 1) ;;
      ret (claim :: rest)
  end.
Definition loader_FetchClaims : M E (list Claim) :=
  claimCount <- caller_ClaimDataLen ;;
  fetch_claims (Z.to_nat (u64 claimCount)) 0.
End Loader.

(** ** [responder.go] *)
Inductive GameCall :=
  | CallAttack (parentContractIndex : Z) (pivot : Hash)
  | CallDefend (parentContractIndex : Z) (pivot : Hash)
  | CallStep (claimIndex : Z) (isAttack : bool) (stateData proof : Data)
  | CallResolveGame.

(** The transaction manager: the result of a call, and whether a transaction that was
    published succeeded. *)
Class TxManager (E : Type) := {
  txmgr_Call : GameCall -> M E Z;
  txmgr_Send : GameCall -> M E bool }.

Section Responder.
Context {E : Type} `{TxManager E}.

Definition BuildTx (response : Claim) : GameCall :=
  if DefendsParent response then CallDefend (cl_ParentContractIndex response) (cd_Value (cl_ClaimData response))
  else CallAttack (cl_ParentContractIndex response) (cd_Value (cl_ClaimData response)).

(** A transaction that reverted is only logged. *)
Definition sendTxAndWait (tx : GameCall) : M E unit := txmgr_Send tx ;;; ret tt.

Definition responder_CallResolve : M E Z :=
  status <- txmgr_Call CallResolveGame ;;
  lift (GameStatusFromUint8 status).
Definition responder_Resolve : M E unit := sendTxAndWait CallResolveGame.
Definition responder_Respond (response : Claim) : M E unit := sendTxAndWait (BuildTx response).
Definition responder_Step (d : StepCallData) : M E unit :=
  sendTxAndWait (CallStep (i64 (sc_ClaimIndex d)) (sc_IsAttack d) (sc_StateData d) (sc_Proof d)).
End Responder.

(** ** [player.go] *)
Section Player.
Context {E : Type} `{MinimalFaultDisputeGameCaller E}.

(** [ProgressGame], with the flag [completed] beside the environment. *)
Definition ProgressGame (act : M E unit) : M (bool * E) bool :=
  g <- get ;;
  if g.1 : bool then ret true
  else
    attempt (zoom snd (fun e g => (g.1, e)) act) ;;;
    r <- attempt (zoom snd (fun e g => (g.1, e)) GetGameStatus) ;;
    match r with
    | inr _ => ret false
    | inl status =>
        (if status =? GameStatusInProgress then attempt (zoom snd (fun e g => (g.1, e)) GetClaimCount) ;;; ret tt else ret tt) ;;;
        let completed := negb (status =? GameStatusInProgress) in
        modify (fun g => (completed, g.2)) ;;;
        ret completed
    end.

Definition ValidateAbsolutePrestate `{Keccak} `{TraceProvider E} : M E unit :=
  providerPrestate <- trace_AbsolutePreState ;;
  onchainPrestate <- FetchAbsolutePrestateHash ;;
  if negb (Keccak256Hash providerPrestate =? onchainPrestate) then
    throw (ErrNew "trace provider's absolute prestate does not match onchain absolute prestate")
  else ret tt.
End Player.

(** ** [alphabet/provider.go] *)
Section Alphabet.
Context `{Keccak}.

Record AlphabetTraceProvider := mkAlphabet {
  ap_state : list Data;
  ap_maxLen : Z }.

Definition NewAlphabetProvider (letters : list Data) (depth : Z) : AlphabetTraceProvider :=
  mkAlphabet letters (if 64 <=? depth then 0 else u64 (Z.shiftl 1 depth)).

Definition IndexToBytes (i : Z) : Data := be_encode 32 i.
Definition LetterToBytes (letter : Data) : result Data :=
  match letter with [] => Panic | b :: _ => Ok (replicate 31 Byte.x00 ++ [b]) end.
Definition BuildAlphabetPreimage (i : Z) (letter : Data) : result Data :=
  result_map (fun l => IndexToBytes i ++ l) (LetterToBytes letter).
Definition alphabet_AbsolutePreState : Data := be_encode 32 0x60.

(** [GetStepData]: past the end it calls itself once more. *)
Fixpoint alphabet_step_data (fuel : nat) (ap : AlphabetTraceProvider) (i : Z) : result Data :=
  match fuel with
  | O => Panic
  | S fuel' =>
      if i =? 0 then Ok alphabet_AbsolutePreState
      else
        let i := i - 1 in
        if ap_maxLen ap <=? i then Err (ErrNew "index is larger than the maximum index")
        else if Z.of_nat (length (ap_state ap)) <=? i then alphabet_step_data fuel' ap (Z.of_nat (length (ap_state ap)))
        else match ap_state ap !! Z.to_nat i with
             | Some letter => BuildAlphabetPreimage i letter
             | None => Panic
             end
  end.
Definition alphabet_GetStepData (ap : AlphabetTraceProvider) (i : Z) : result (Data * Data * option PreimageOracleData) :=
  result_map (fun d => (d, [], None)) (alphabet_step_data 2 ap i).
Definition alphabet_Get (ap : AlphabetTraceProvider) (i : Z) : result Hash :=
  let? d := alphabet_GetStepData ap (u64 (i + 1)) in Ok (Keccak256Hash d.1.1).
End Alphabet.
