(* ===== verification/ChallengerSpec.v ===== *)
(** * The game tree of the challenger

    [types/game.go]: the tree that [Put] builds, and that [Claims] walks over every claim
    of it exactly once. *)
From S2P Require Import Prelude GoErrors GoBytes EthTypes Geth Positions Challenger.
#[local] Open Scope Z_scope.

(** ** The tree *)

(** [y] is a claim below the claim [x]. *)
Definition below (g : gameState) (x y : ClaimData) : Prop :=
  y <> gs_root g /\ exists e, gs_claims g !! y = Some e /\ cl_Parent (ec_self e) = x.

Record tree_ok (rank : ClaimData -> nat) (g : gameState) : Prop := {
  to_root : is_Some (gs_claims g !! gs_root g);
  to_self : forall x e, gs_claims g !! x = Some e -> cl_ClaimData (ec_self e) = x;
  to_children : forall x e, gs_claims g !! x = Some e -> NoDup (ec_children e) /\ forall y, y ∈ ec_children e <-> below g x y;
  to_parent : forall x y, below g x y -> is_Some (gs_claims g !! x) /\ (rank x < rank y)%nat }.

Lemma NewGameState_ok rank agree root depth : tree_ok rank (NewGameState agree root depth).
Proof.
  unfold NewGameState. split; simpl.
  - rewrite lookup_singleton_eq. by eexists.
  - intros x e [<- <-]%lookup_singleton_Some. done.
  - intros x e [<- <-]%lookup_singleton_Some. simpl. split; [constructor|]. intros y. split; [by intros ?%not_elem_of_nil|].
    intros (Hy & e & He & _). simpl in He. apply lookup_singleton_Some in He as [He _]. by destruct Hy.
  - intros x y (Hy & e & He & _). simpl in He. apply lookup_singleton_Some in He as [He _]. by destruct Hy.
Qed.

(** Adding a claim under one that is there. *)
Lemma Put_ok rank c g : tree_ok rank g -> IsRoot c = false -> gs_claims g !! cl_ClaimData c = None ->
  is_Some (gs_claims g !! cl_Parent c) -> (rank (cl_Parent c) < rank (cl_ClaimData c))%nat ->
  exists g', Put c g = (Ok tt, g') /\ tree_ok rank g' /\ gs_root g' = gs_root g /\
    gs_agreeWithProposedOutput g' = gs_agreeWithProposedOutput g /\
    (forall x, x <> cl_ClaimData c -> ec_self <$> gs_claims g' !! x = ec_self <$> gs_claims g !! x) /\
    ec_self <$> gs_claims g' !! cl_ClaimData c = Some c.
Proof.
  intros Hg Hroot Hnew [p Hp] Hrank. unfold Put, bind, get. rewrite Hroot. unfold IsDuplicate. rewrite Hnew.
  rewrite bool_decide_false by (by intros [? ?]). simpl. rewrite Hp. unfold put. eexists. split; [done|].
  set (p' := mkExtended (ec_self p) (ec_children p ++ [cl_ClaimData c])). set (n := mkExtended c []).
  assert (cl_ClaimData c <> cl_Parent c) as Hne by congruence.
  assert (cl_ClaimData c <> gs_root g) as Hnr by (intros E; destruct (to_root _ _ Hg) as [e He]; congruence).
  set (g' := set_gs_claims _ g).
  assert (forall x, gs_claims g' !! x = if decide (x = cl_ClaimData c) then Some n
            else if decide (x = cl_Parent c) then Some p' else gs_claims g !! x) as Hl.
  { intros x. simpl. case_decide as E; [rewrite E; apply lookup_insert_eq|]. rewrite lookup_insert_ne by done.
    case_decide as E'; [rewrite E'; apply lookup_insert_eq|by rewrite lookup_insert_ne by done]. }
  assert (forall x, x <> cl_ClaimData c -> ec_self <$> gs_claims g' !! x = ec_self <$> gs_claims g !! x) as Hself.
  { intros x Hx. rewrite Hl, decide_False by done. case_decide as E; [by rewrite E, Hp|done]. }
  assert (forall x y, below g' x y <-> below g x y \/ (x = cl_Parent c /\ y = cl_ClaimData c)) as Hbelow.
  { intros x y. unfold below. change (gs_root g') with (gs_root g). destruct (decide (y = cl_ClaimData c)) as [-> |Hy].
    - rewrite Hl, decide_True by done. split; [intros (_ & e & [= <-] & <-); by right|].
      intros [(_ & e & He & _)|[-> _]]; [congruence|]. split; [done|]. by exists n.
    - pose proof (Hself y Hy) as Hs. split.
      + intros (Hr & e & He & Hpar). left. split; [done|]. rewrite He in Hs. symmetry in Hs. apply fmap_Some in Hs as (e' & He' & E).
        exists e'. by rewrite <- E.
      + intros [(Hr & e & He & Hpar)|[_ ?]]; [|done]. split; [done|]. rewrite He in Hs. apply fmap_Some in Hs as (e' & He' & E).
        exists e'. by rewrite <- E. }
  split; [|split; [done|split; [done|split; [done|]]]; by rewrite Hl, decide_True by done].
  split.
  - change (gs_root g') with (gs_root g). rewrite Hl. case_decide; [by eexists|]. case_decide; [by eexists|apply Hg].
  - intros x e. rewrite Hl. case_decide as E; [by intros [= <-]|]. case_decide as E'; [|apply Hg].
    intros [= <-]. rewrite E'. exact (to_self _ _ Hg _ _ Hp).
  - intros x e. rewrite Hl. case_decide as E; [|case_decide as E'].
    + intros [= <-]. simpl. split; [constructor|]. intros y. rewrite Hbelow. split; [by intros ?%not_elem_of_nil|].
      intros [Hb|[? _]]; [|congruence]. destruct (to_parent _ _ Hg _ _ Hb) as [[? ?] _]. congruence.
    + intros [= <-]. simpl. rewrite E'. destruct (to_children _ _ Hg _ _ Hp) as [Hnd Hch]. split.
      * apply NoDup_app. split; [done|]. split; [|apply NoDup_singleton]. intros y Hy ->%list_elem_of_singleton.
        apply Hch in Hy as (_ & e & He & _). congruence.
      * intros y. rewrite elem_of_app, list_elem_of_singleton, Hbelow, Hch. naive_solver.
    + intros He. destruct (to_children _ _ Hg _ _ He) as [Hnd Hch]. split; [done|]. intros y. rewrite Hbelow, Hch. naive_solver.
  - intros x y [Hb|[-> ->]]%Hbelow.
    + destruct (to_parent _ _ Hg _ _ Hb) as [Hx Hr]. split; [|done]. rewrite Hl. case_decide; [by eexists|]. by case_decide; [eexists|].
    + rewrite Hl, decide_False, decide_True by done. split; [by eexists|done].
Qed.

(** ** The walk *)
Record walk (g : gameState) (queue : list ClaimData) (out : list Claim) : Prop := {
  wk_nodup : NoDup ((cl_ClaimData <$> out) ++ queue);
  wk_known : forall x, x ∈ (cl_ClaimData <$> out) ++ queue -> is_Some (gs_claims g !! x);
  wk_self : forall c, c ∈ out -> ec_self <$> gs_claims g !! cl_ClaimData c = Some c;
  wk_above : forall x y, y ∈ (cl_ClaimData <$> out) ++ queue -> below g x y -> x ∈ cl_ClaimData <$> out;
  wk_below : forall x y, x ∈ cl_ClaimData <$> out -> below g x y -> y ∈ (cl_ClaimData <$> out) ++ queue;
  wk_root : gs_root g ∈ (cl_ClaimData <$> out) ++ queue }.

Lemma walk_length rank g queue out : tree_ok rank g -> walk g queue out -> (length out + length queue <= size (gs_claims g))%nat.
Proof.
  intros Hg Hw. rewrite <- (length_fmap cl_ClaimData out), <- length_app, <- size_dom.
  rewrite <- (size_list_to_set (C := gset ClaimData)) by apply Hw. apply subseteq_size. intros x Hx%elem_of_list_to_set.
  apply elem_of_dom. by apply (wk_known _ _ _ Hw).
Qed.

Lemma walk_step rank g x queue out e : tree_ok rank g -> walk g (x :: queue) out -> gs_claims g !! x = Some e ->
  walk g (queue ++ ec_children e) (out ++ [ec_self e]).
Proof.
  intros Hg Hw He. pose proof (to_self _ _ Hg _ _ He) as Hself. destruct (to_children _ _ Hg _ _ He) as [Hnd Hch].
  assert (((cl_ClaimData <$> out ++ [ec_self e]) ++ queue ++ ec_children e) ≡ₚ ((cl_ClaimData <$> out) ++ x :: queue) ++ ec_children e) as Hperm.
  { rewrite fmap_app. simpl. rewrite Hself. by rewrite <- !(assoc (++)). }
  assert (forall y, y ∈ (cl_ClaimData <$> out ++ [ec_self e]) ++ queue ++ ec_children e <->
            y ∈ (cl_ClaimData <$> out) ++ x :: queue \/ y ∈ ec_children e) as Hin by (intros y; by rewrite Hperm, elem_of_app).
  assert (forall y, y ∈ cl_ClaimData <$> out ++ [ec_self e] <-> y ∈ cl_ClaimData <$> out \/ y = x) as Hout.
  { intros y. rewrite fmap_app, elem_of_app. simpl. by rewrite list_elem_of_singleton, Hself. }
  assert (x ∉ cl_ClaimData <$> out) as Hx.
  { intros Hx. destruct (proj1 (NoDup_app _ _) (wk_nodup _ _ _ Hw)) as (_ & Hd & _). apply (Hd x Hx). by left. }
  split.
  - rewrite Hperm. apply NoDup_app. split; [apply Hw|]. split; [|done]. intros y Hy Hyc%Hch.
    by apply Hx, (wk_above _ _ _ Hw x y).
  - intros y [Hy|Hy]%Hin; [by apply (wk_known _ _ _ Hw)|]. apply Hch in Hy as (_ & e' & He' & _). by eexists.
  - intros c [Hc| ->%list_elem_of_singleton]%elem_of_app; [by apply (wk_self _ _ _ Hw)|]. by rewrite Hself, He.
  - intros z y [Hy|Hy]%Hin Hb; apply Hout.
    + left. by apply (wk_above _ _ _ Hw z y).
    + right. apply Hch in Hy as (_ & e1 & He1 & <-). destruct Hb as (_ & e2 & He2 & <-). congruence.
  - intros z y [Hz| ->]%Hout Hb; apply Hin; [left; by apply (wk_below _ _ _ Hw z)|right; by apply Hch].
  - apply Hin. left. apply Hw.
Qed.

Lemma claims_loop_walk rank g fuel queue out : tree_ok rank g -> walk g queue out ->
  (length out + fuel = size (gs_claims g))%nat -> exists cs, claims_loop fuel g queue out = Ok cs /\ walk g [] cs.
Proof.
  intros Hg. revert queue out. induction fuel as [|fuel IH]; intros [|x queue] out Hw Hf; try (by exists out).
  - pose proof (walk_length _ _ _ _ Hg Hw) as Hl. simpl in Hl. lia.
  - simpl. unfold getChildren. destruct (wk_known _ _ _ Hw x) as [e He]; [apply elem_of_app; right; by left|]. rewrite He.
    apply IH; [by eapply walk_step|]. rewrite length_app. simpl. lia.
Qed.

(** What [Claims] returns: every claim of the tree, once. *)
Lemma Claims_spec rank g : tree_ok rank g ->
  exists cs, Claims g = Ok cs /\ NoDup (cl_ClaimData <$> cs) /\
    forall c, c ∈ cs <-> ec_self <$> gs_claims g !! cl_ClaimData c = Some c.
Proof.
  intros Hg. destruct (claims_loop_walk rank g (size (gs_claims g)) [gs_root g] []) as (cs & Hcs & Hw); [done| |done|].
  { split; simpl; try (by intros ? ?%not_elem_of_nil).
    - apply NoDup_singleton.
    - intros x ->%list_elem_of_singleton. apply Hg.
    - intros x y ->%list_elem_of_singleton [? _]. done.
    - by intros x y ?%not_elem_of_nil.
    - by left. }
  exists cs. split; [done|]. pose proof (wk_nodup _ _ _ Hw) as Hnd. rewrite app_nil_r in Hnd. split; [done|].
  assert (forall x, is_Some (gs_claims g !! x) -> x ∈ cl_ClaimData <$> cs) as Hall.
  { intros x. remember (rank x) as n eqn:En. revert x En. induction (lt_wf n) as [n _ IH]. intros x -> [e He].
    destruct (decide (x = gs_root g)) as [-> |Hx]; [pose proof (wk_root _ _ _ Hw) as Hr; by rewrite app_nil_r in Hr|].
    assert (below g (cl_Parent (ec_self e)) x) as Hb by (split; [done|]; by exists e).
    destruct (to_parent _ _ Hg _ _ Hb) as [Hp Hlt]. pose proof (wk_below _ _ _ Hw _ _ (IH _ Hlt _ eq_refl Hp) Hb) as Hin.
    by rewrite app_nil_r in Hin. }
  intros c. split; [apply (wk_self _ _ _ Hw)|]. intros Hc.
  destruct (gs_claims g !! cl_ClaimData c) as [e|] eqn:He; [|done]. injection Hc as Hc.
  pose proof (Hall (cl_ClaimData c) ltac:(by eexists)) as Hx. apply list_elem_of_fmap in Hx as (d & Hd & Hin).
  pose proof (wk_self _ _ _ Hw _ Hin) as Hs. rewrite <- Hd, He in Hs. injection Hs as Hs. congruence.
Qed.
