(* ===== verification/ChallengerOnchain.v ===== *)
(** * The challenger and the contract

    The interfaces of the challenger implemented by the contract's storage at a time: its
    view of the claims, and its transactions, which revert or change the storage.  The game
    the challenger loads has every claim of the contract, and its moves land at the
    positions it computed. *)
From S2P Require Import Prelude GoErrors GoBytes EthTypes Geth Bits Evm Positions.
From S2P Require Import DisputeGame DisputeGameSpec DisputeHonest Challenger ChallengerSpec.
#[local] Open Scope Z_scope.
Module G := FaultDisputeGame.

(** ** Transactions and views of the contract *)

(** A deployed game, the time of the block in which transactions are included, and the
    trace of the challenger, with the states before its steps and their proofs. *)
Class Setting := {
  game : G.Immutables;
  now : Z;
  trace : Z -> Hash;
  state_of : Z -> Data;
  proof_of : Z -> Data }.

Section Chain.
Context `{Keccak} `{Setting}.

Definition status_code (x : G.GameStatus) : Z :=
  match x with G.IN_PROGRESS => 0 | G.CHALLENGER_WINS => 1 | G.DEFENDER_WINS => 2 end.

(** A transaction: when it reverts, the storage is as before. *)
Definition transact {A} (m : M G.t A) : M G.t bool := fun s =>
  match m s with (Ok _, s') => (Ok true, s') | _ => (Ok false, s) end.

Definition run_call (c : GameCall) : M G.t bool :=
  match c with
  | CallAttack i pivot => transact (G.attack game now i pivot)
  | CallDefend i pivot => transact (G.defend game now i pivot)
  | CallStep i isAttack st pr => transact (G.step game i isAttack st pr)
  | CallResolveGame => transact (G.resolve game now)
  end.

(** [eth_call] of [resolve]; the challenger calls nothing else. *)
Definition eth_call (c : GameCall) : M G.t Z := fun s =>
  match c with
  | CallResolveGame => (result_map status_code (G.resolve game now s).1, s)
  | _ => (Err revert, s)
  end.

#[export] Instance chain_txmgr : TxManager G.t := {| txmgr_Call := eth_call; txmgr_Send := run_call |}.

#[export] Instance chain_caller : MinimalFaultDisputeGameCaller G.t := {|
  caller_ClaimData i := s <- get ;; c <- lift (G.claim_at i s) ;;
    ret (mkFetched (G.parentIndex c) (G.countered c) (G.claim c) (G.position c) (G.clock c));
  caller_Status := s <- get ;; ret (status_code (G.status s));
  caller_ClaimDataLen := s <- get ;; ret (Z.of_nat (length (G.claimData s)));
  caller_MAXGAMEDEPTH := ret (G.MAX_GAME_DEPTH game);
  caller_ABSOLUTEPRESTATE := ret (G.ABSOLUTE_PRESTATE game) |}.

#[export] Instance chain_trace : TraceProvider G.t := {|
  trace_Get i := ret (trace i);
  trace_GetStepData i := ret (state_of i, proof_of i, None);
  trace_AbsolutePreState := ret (state_of 0) |}.
#[export] Instance chain_updater : OracleUpdater G.t := {| UpdateOracle _ := ret tt |}.

#[export] Instance chain_loader : ClaimLoader G.t := {| FetchClaims := loader_FetchClaims |}.
#[export] Instance chain_responder : Responder G.t := {|
  CallResolve := responder_CallResolve;
  Resolve := responder_Resolve;
  Respond := responder_Respond;
  Step := responder_Step |}.
End Chain.

(** ** Loading the claims *)
Definition datum (c : G.ClaimData) : ClaimData := mkClaimData (G.claim c) (NewPositionFromGIndex (G.position c)).

Definition loaded (cs : list G.ClaimData) (i : nat) (c : G.ClaimData) : Claim :=
  mkClaim (datum c) (G.countered c) (u64 (G.clock c))
    (match cs !! Z.to_nat (G.parentIndex c) with Some p => datum p | None => no_claim_data end)
    (Z.of_nat i) (G.parentIndex c).

Section Loading.
Context `{Keccak} `{Setting}.
Abbreviation I := game.
Let D := G.MAX_GAME_DEPTH I.
Hypothesis HD : 1 <= D <= 62.

Lemma position_valid s i c : game_ok I s -> G.claimData s !! i = Some c ->
  u64 (G.position c) = G.position c /\ valid_pos D (NewPositionFromGIndex (G.position c)) /\
  gindex (NewPositionFromGIndex (G.position c)) = G.position c /\
  pos_depth (NewPositionFromGIndex (G.position c)) = Z.log2 (G.position c).
Proof.
  intros Hs Hc. destruct (position_bound _ _ _ _ Hs Hc) as [Hp Hb]. fold D in Hb. pose proof (Z.pow_le_mono_r 2 (D + 1) 63).
  destruct (gk_position _ _ Hs _ _ Hc) as (_ & Hl & _). fold D in Hl.
  rewrite u64_small by (unfold two64; lia). destruct (from_gindex (G.position c)) as [Hv Hg]; [unfold two64; lia|].
  pose proof (gindex_log2 _ _ Hv) as Hd. rewrite Hg in Hd. split; [done|]. split; [|done].
  destruct Hv as [Hv1 Hv2]. split; [|done]. lia.
Qed.

Lemma datum_inj s i j c d : game_ok I s -> G.claimData s !! i = Some c -> G.claimData s !! j = Some d -> datum c = datum d ->
  G.claim c = G.claim d /\ G.position c = G.position d.
Proof.
  intros Hs Hc Hd E. assert (G.claim c = G.claim d) as E1 by exact (f_equal cd_Value E).
  assert (NewPositionFromGIndex (G.position c) = NewPositionFromGIndex (G.position d)) as E2 by exact (f_equal cd_Position E).
  destruct (position_valid _ _ _ Hs Hc) as (_ & _ & Hgc & _).
  destruct (position_valid _ _ _ Hs Hd) as (_ & _ & Hgd & _). split; [done|]. by rewrite <- Hgc, <- Hgd, E2.
Qed.

Lemma is_root_position s i c : game_ok I s -> G.claimData s !! i = Some c ->
  IsRootPosition (NewPositionFromGIndex (G.position c)) = bool_decide (i = 0%nat).
Proof.
  intros Hs Hc. destruct (position_valid _ _ _ Hs Hc) as (_ & Hv & Hg & Hd). unfold IsRootPosition. rewrite Hd.
  case_bool_decide as Hi.
  - subst i. destruct (gk_root _ _ Hs) as (r & Hr & _ & Hr1). assert (c = r) as -> by congruence. by rewrite Hr1.
  - destruct (gk_position _ _ Hs _ _ Hc) as (Hp & _ & He). specialize (He Hi). apply andb_false_intro1, Z.eqb_neq.
    intros E. apply Z.log2_null in E. assert (G.position c = 1) as E1 by lia. by rewrite E1 in He.
Qed.

Lemma fetchClaim_spec s i c : game_ok I s -> G.claimData s !! i = Some c ->
  fetchClaim (Z.of_nat i) s = (Ok (loaded (G.claimData s) i c), s).
Proof.
  intros Hs Hc. destruct (position_valid _ _ _ Hs Hc) as (Hu & _).
  unfold fetchClaim, loaded, datum, bind, get, lift, ret. simpl. unfold get, lift, ret, bind, G.claim_at. rewrite Nat2Z.id, Hc. simpl.
  rewrite Hu, (is_root_position _ _ _ Hs Hc). pose proof (gk_length _ _ Hs) as Hlen. pose proof (lookup_lt_Some _ _ _ Hc).
  rewrite i64_small by (unfold G.no_parent in Hlen; lia). case_bool_decide as Hi; simpl.
  - subst i. destruct (gk_root _ _ Hs) as (r & Hr & Hp & _). assert (c = r) as -> by congruence. rewrite Hp.
    by rewrite (lookup_ge_None_2 (G.claimData s)) by (unfold G.no_parent in *; lia).
  - destruct (gk_child _ _ Hs _ _ Hc Hi) as (j & p & a & _ & (Hp & Hj & _) & _). rewrite Hj, Nat2Z.id, Hp.
    cbn [f_Position f_Claim]. by destruct (position_valid _ _ _ Hs Hp) as (-> & _).
Qed.

Lemma fetch_claims_spec s n i : game_ok I s -> (i + n)%nat = length (G.claimData s) ->
  fetch_claims n (Z.of_nat i) s = (Ok (drop i (imap (loaded (G.claimData s)) (G.claimData s))), s).
Proof.
  intros Hs. revert i. induction n as [|n IH]; intros i Hn; simpl.
  - by rewrite drop_ge by (rewrite length_imap; lia).
  - destruct (lookup_lt_is_Some_2 (G.claimData s) i) as [c Hc]; [lia|]. unfold bind, ret. rewrite (fetchClaim_spec _ _ _ Hs Hc).
    replace (Z.of_nat i + 1) with (Z.of_nat (S i)) by lia. rewrite (IH (S i)) by lia.
    by rewrite (drop_S (imap _ _) (loaded (G.claimData s) i c) i) by (by rewrite list_lookup_imap, Hc).
Qed.

Lemma loader_spec s : game_ok I s ->
  loader_FetchClaims s = (Ok (imap (loaded (G.claimData s)) (G.claimData s)), s).
Proof.
  intros Hs. unfold loader_FetchClaims, bind. simpl. unfold get, bind, ret. pose proof (gk_length _ _ Hs) as Hlen.
  rewrite u64_small, Nat2Z.id by (unfold two64, G.no_parent in *; lia).
  by rewrite (fetch_claims_spec s _ 0 Hs).
Qed.

(** Claims have different data, so that a claim is known by them. *)
Lemma data_nodup s : game_ok I s -> NoDup (datum <$> G.claimData s).
Proof.
  intros Hs. apply NoDup_alt. intros i j x Hi Hj. rewrite list_lookup_fmap in Hi, Hj.
  apply fmap_Some in Hi as (c & Hc & ->). apply fmap_Some in Hj as (d & Hd & E).
  destruct (datum_inj _ _ _ _ _ Hs Hc Hd E) as [E1 E2].
  destruct (decide (i = 0%nat)) as [->|Hi0], (decide (j = 0%nat)) as [->|Hj0]; [done| | |].
  - destruct (gk_root _ _ Hs) as (r & Hr & _ & Hr1). assert (c = r) as -> by congruence.
    destruct (gk_position _ _ Hs _ _ Hd) as (_ & _ & He). specialize (He Hj0). by rewrite <- E2, Hr1 in He.
  - destruct (gk_root _ _ Hs) as (r & Hr & _ & Hr1). assert (d = r) as -> by congruence.
    destruct (gk_position _ _ Hs _ _ Hc) as (_ & _ & He). specialize (He Hi0). by rewrite E2, Hr1 in He.
  - destruct i as [|i], j as [|j]; [done..|]. f_equal.
    apply (proj1 (NoDup_alt _) (gk_nodup _ _ Hs) i j (claim_hash c)); rewrite list_lookup_fmap, lookup_tail.
    + by rewrite Hc.
    + rewrite Hd. simpl. f_equal. unfold claim_hash. by rewrite E1, E2.
Qed.

(** The index of a claim with some data. *)
Definition rank_of (s : G.t) (x : ClaimData) : nat :=
  match list_find (x =.) (datum <$> G.claimData s) with Some (i, _) => i | None => 0%nat end.

Lemma rank_datum s i c : game_ok I s -> G.claimData s !! i = Some c -> rank_of s (datum c) = i.
Proof.
  intros Hs Hc. unfold rank_of. assert ((datum <$> G.claimData s) !! i = Some (datum c)) as Hi by (by rewrite list_lookup_fmap, Hc).
  destruct (list_find (datum c =.) _) as [[j x]|] eqn:E.
  - apply list_find_Some in E as (Hj & Ex & _). simpl in Ex. subst x. exact (proj1 (NoDup_alt _) (data_nodup _ Hs) _ _ _ Hj Hi).
  - apply list_find_None in E. by apply (Forall_lookup_1 _ _ _ _ E) in Hi.
Qed.

(** The tree of the first [n] claims. *)
Definition holds_prefix (s : G.t) (n : nat) (g : gameState) : Prop := forall x c,
  ec_self <$> gs_claims g !! x = Some c <->
  exists j d, (j < n)%nat /\ G.claimData s !! j = Some d /\ x = datum d /\ c = loaded (G.claimData s) j d.

Lemma Put_loaded s n g c : game_ok I s -> G.claimData s !! n = Some c -> n <> 0%nat ->
  tree_ok (rank_of s) g -> holds_prefix s n g ->
  exists g', Put (loaded (G.claimData s) n c) g = (Ok tt, g') /\ tree_ok (rank_of s) g' /\ holds_prefix s (S n) g' /\
    gs_agreeWithProposedOutput g' = gs_agreeWithProposedOutput g.
Proof.
  intros Hs Hc Hn Hg Hh. destruct (gk_child _ _ Hs _ _ Hc Hn) as (j & p & a & Hlt & (Hp & Hj & _) & _).
  assert (cl_Parent (loaded (G.claimData s) n c) = datum p) as Epar by (unfold loaded; simpl; by rewrite Hj, Nat2Z.id, Hp).
  destruct (Put_ok (rank_of s) (loaded (G.claimData s) n c) g) as (g' & Hput & Hg' & _ & Hag & Hother & Hnew); [done| | | | |].
  - unfold IsRoot, cl_Position. simpl. rewrite (is_root_position _ _ _ Hs Hc). by rewrite bool_decide_false.
  - destruct (gs_claims g !! _) as [e|] eqn:He; [|done]. exfalso.
    destruct (proj1 (Hh (datum c) (ec_self e))) as (m & d & Hm & Hd & E & _); [by simpl in He; rewrite He|].
    pose proof (rank_datum _ _ _ Hs Hc). pose proof (rank_datum _ _ _ Hs Hd). rewrite E in *. lia.
  - rewrite Epar. pose proof (proj2 (Hh (datum p) (loaded (G.claimData s) j p)) ltac:(by exists j, p)) as Hl.
    destruct (gs_claims g !! datum p); [by eexists|done].
  - rewrite Epar. simpl. by rewrite (rank_datum _ _ _ Hs Hp), (rank_datum _ _ _ Hs Hc).
  - exists g'. split; [done|]. split; [done|]. split; [|done]. intros x d'. split.
    + intros Hx. destruct (decide (x = datum c)) as [-> |Hne].
      * simpl in Hnew. rewrite Hnew in Hx. injection Hx as <-. exists n, c. split; [lia|done].
      * rewrite Hother in Hx by done. apply Hh in Hx as (m & d & Hm & Hrest). exists m, d. split; [lia|done].
    + intros (m & d & Hm & Hd & -> & ->). destruct (decide (m = n)) as [-> |Hne].
      * assert (d = c) as -> by congruence. done.
      * rewrite Hother; [apply Hh; exists m, d; split; [lia|done]|]. intros E. simpl in E.
        pose proof (rank_datum _ _ _ Hs Hd) as E1. rewrite E, (rank_datum _ _ _ Hs Hc) in E1. done.
Qed.

Lemma PutAll_loaded s k n g : game_ok I s -> (n + k)%nat = length (G.claimData s) -> n <> 0%nat ->
  tree_ok (rank_of s) g -> holds_prefix s n g ->
  exists g', PutAll (drop n (imap (loaded (G.claimData s)) (G.claimData s))) g = (Ok tt, g') /\ tree_ok (rank_of s) g' /\
    holds_prefix s (length (G.claimData s)) g' /\ gs_agreeWithProposedOutput g' = gs_agreeWithProposedOutput g.
Proof.
  intros Hs. revert n g. induction k as [|k IH]; intros n g Hk Hn Hg Hh.
  - rewrite drop_ge by (rewrite length_imap; lia). exists g. by replace (length (G.claimData s)) with n by lia.
  - destruct (lookup_lt_is_Some_2 (G.claimData s) n) as [c Hc]; [lia|].
    rewrite (drop_S _ (loaded (G.claimData s) n c) n) by (by rewrite list_lookup_imap, Hc). simpl.
    destruct (Put_loaded _ _ _ _ Hs Hc Hn Hg Hh) as (g1 & Hput & Hg1 & Hh1 & Ha1).
    destruct (IH (S n) g1) as (g' & Hall & Hg' & Hh' & Ha'); [lia..|done|done|].
    exists g'. unfold bind. rewrite Hput, Hall. by rewrite Ha', Ha1.
Qed.

(** The game that the challenger loads. *)
Lemma newGame_spec s agree : game_ok I s ->
  exists g cs, newGameFromContracts D agree s = (Ok g, s) /\ Claims g = Ok cs /\ gs_agreeWithProposedOutput g = agree /\
    (cs ≡ₚ imap (loaded (G.claimData s)) (G.claimData s)) /\
    forall m, IsDuplicate g m = bool_decide (cl_ClaimData m ∈ datum <$> G.claimData s).
Proof.
  intros Hs. destruct (gk_root _ _ Hs) as (r & Hr & _). destruct (G.claimData s) as [|r' rest] eqn:Ecs; [done|]. injection Hr as ->.
  pose proof (NewGameState_ok (rank_of s) agree (loaded (G.claimData s) 0 r) D) as Hg0.
  destruct (PutAll_loaded s (length rest) 1 (NewGameState agree (loaded (G.claimData s) 0 r) D) Hs)
    as (g & Hput & Hg & Hh & Ha); [by rewrite Ecs|done|done| |].
  { intros x c. simpl. split.
    - intros Hx. destruct (decide (x = datum r)) as [-> |Hne].
      + rewrite lookup_singleton_eq in Hx. injection Hx as <-. exists 0%nat, r. rewrite Ecs. repeat split; [lia|done..].
      + by rewrite lookup_singleton_ne in Hx.
    - intros (j & d & Hj & Hd & -> & ->). assert (j = 0%nat) as -> by lia. rewrite Ecs in Hd. injection Hd as <-.
      by rewrite lookup_singleton_eq. }
  destruct (Claims_spec _ _ Hg) as (cs & Hcs & Hnd & Hin). exists g, cs.
  split; [|split; [done|split; [done|split]]].
  - unfold newGameFromContracts, wrapE, bind. change FetchClaims with loader_FetchClaims. rewrite (loader_spec _ Hs).
    rewrite Ecs in Hput |- *. simpl in Hput |- *. rewrite drop_0 in Hput. by rewrite Hput.
  - rewrite <- Ecs. apply NoDup_Permutation; [by eapply NoDup_fmap_1| |].
    + apply NoDup_alt. intros i j x Hi Hj. rewrite list_lookup_imap in Hi, Hj.
      apply fmap_Some in Hi as (c & Hc & ->). apply fmap_Some in Hj as (d & Hd & [= _ _ _ _ Ei]). lia.
    + intros c. rewrite Hin. rewrite (Hh (cl_ClaimData c) c). split.
      * intros (j & d & _ & Hd & _ & ->). apply list_elem_of_lookup. exists j. by rewrite list_lookup_imap, Hd.
      * intros Hc. apply list_elem_of_lookup in Hc as (j & Hj). rewrite list_lookup_imap in Hj.
        apply fmap_Some in Hj as (d & Hd & ->). exists j, d. pose proof (lookup_lt_Some _ _ _ Hd). done.
  - intros m. unfold IsDuplicate. apply bool_decide_ext. rewrite <- Ecs. split.
    + intros [e He]. destruct (proj1 (Hh (cl_ClaimData m) (ec_self e))) as (j & d & _ & Hd & -> & _); [by rewrite He|].
      apply list_elem_of_fmap. exists d. split; [done|]. by eapply list_elem_of_lookup_2.
    + intros (d & E & Hd)%list_elem_of_fmap. apply list_elem_of_lookup in Hd as (j & Hd).
      pose proof (proj2 (Hh (datum d) (loaded (G.claimData s) j d))) as Hl. rewrite E.
      destruct (gs_claims g !! datum d); [by eexists|]. discriminate Hl. exists j, d. pose proof (lookup_lt_Some _ _ _ Hd). done.
Qed.
End Loading.
