(* ===== verification/ChallengerAct.v ===== *)
(** * An honest challenger

    One [Act] of the agent on a game of the contract: the agent's moves land at the
    positions that it computed, every claim of the other side is answered, and the game is
    resolved in its favour once the clocks have run out. *)
From S2P Require Import Prelude GoErrors GoBytes EthTypes Geth Bits Evm Positions.
From S2P Require Import DisputeGame DisputeGameSpec DisputeHonest DisputeTheorems Challenger ChallengerSpec ChallengerOnchain.
#[local] Open Scope Z_scope.

(** A loop whose errors are logged keeps what every call of it keeps. *)
Lemma for_each_inv {E A} (f : A -> M E unit) (P : list A -> E -> Prop) l s :
  P [] s ->
  (forall pre x post s, l = pre ++ x :: post -> P pre s -> exists r s', attempt (f x) s = (Ok r, s') /\ P (pre ++ [x]) s') ->
  exists s', for_each f l s = (Ok tt, s') /\ P l s'.
Proof.
  intros H0 Hf. assert (forall post pre s, l = pre ++ post -> P pre s -> exists s', for_each f post s = (Ok tt, s') /\ P l s') as Hg.
  { induction post as [|x post IH]; intros pre s1 El Hp; [rewrite El, app_nil_r; by exists s1|].
    destruct (Hf _ _ _ _ El Hp) as (r & s2 & E1 & H2). destruct (IH (pre ++ [x]) s2) as (s' & E2 & Hs'); [by rewrite <- app_assoc|done|].
    exists s'. simpl. unfold bind. by rewrite E1, E2. }
  by apply (Hg l []).
Qed.

Section Honest.
Context `{Keccak} `{Setting}.
Abbreviation I := game.
Let D := G.MAX_GAME_DEPTH I.
Hypothesis HD : 1 <= D <= 62.
Variable agree : bool.
Abbreviation right c := (right_value I trace c).

(** ** What the agent does with a claim *)

(** The claims that the agent answers, and its answer to them. *)
Definition answers (i : nat) (c : G.ClaimData) : bool :=
  negb (ours agree c) && negb (Z.log2 (G.position c) =? D) && negb (bool_decide (i = 0%nat) && right c).
Definition answer_position (c : G.ClaimData) : Z := moved (negb (right c)) (G.position c).
Definition answer_value (c : G.ClaimData) : Hash := trace (trace_index (answer_position c) D).
Definition answer_data (c : G.ClaimData) : ClaimData := mkClaimData (answer_value c) (NewPositionFromGIndex (answer_position c)).
Definition answer_tx (i : nat) (c : G.ClaimData) : M G.t unit := G.move I now (Z.of_nat i) (answer_value c) (negb (right c)).

Lemma AgreeWithClaimLevel_ours s g i c : game_ok I s -> G.claimData s !! i = Some c -> gs_agreeWithProposedOutput g = agree ->
  AgreeWithClaimLevel g (loaded (G.claimData s) i c) = ours agree c.
Proof.
  intros Hs Hc Hg. unfold AgreeWithClaimLevel, ours, cl_Position. cbn [cl_ClaimData loaded datum cd_Position].
  destruct (position_valid HD _ _ _ Hs Hc) as (_ & _ & _ & ->).
  pose proof (Z.log2_nonneg (G.position c)). rewrite Hg, Z.rem_mod_nonneg by lia. rewrite Zmod_odd.
  by destruct (Z.odd _), agree.
Qed.

(** The position of the agent's answer is the one at which the contract puts it. *)
Lemma answer_lands s i c : game_ok I s -> G.claimData s !! i = Some c -> Z.log2 (G.position c) < D -> (i = 0%nat -> right c = false) ->
  let p := NewPositionFromGIndex (G.position c) in
  let p' := if right c then Defend p else Attack p in
  p' = NewPositionFromGIndex (answer_position c) /\ TraceIndex p' D = Ok (trace_index (answer_position c) D) /\
  (Z.shiftr (pos_indexAtDepth p') 1 =? pos_indexAtDepth p) = negb (right c).
Proof.
  intros Hs Hc Hl Hi p p'. destruct (position_valid HD _ _ _ Hs Hc) as (_ & Hv & Hg & Hd). fold p in Hv, Hg, Hd. fold D in Hv.
  assert (valid_pos 62 p) as Hv62 by (destruct Hv; split; [lia|done]). destruct (gk_position _ _ Hs _ _ Hc) as (Hpos & _ & He).
  assert (valid_pos 63 p' /\ gindex p' = answer_position c /\ pos_depth p' = pos_depth p + 1) as (Hv' & Hg' & Hd').
  { subst p'. unfold answer_position, moved. destruct (right c) eqn:Er.
    - assert (i <> 0%nat) as Hi0 by (intros ->; by specialize (Hi eq_refl)). specialize (He Hi0).
      assert (0 < pos_depth p) as Hdp.
      { rewrite Hd. apply Z.log2_pos. destruct (decide (G.position c = 1)) as [E|]; [by rewrite E in He|lia]. }
      destruct (gindex_Defend p Hv62 Hdp) as (? & Eg & ?). split; [done|]. split; [|done]. rewrite Eg, Hg. simpl.
      apply Z.even_spec in He as [h ->]. rewrite (Z.mul_comm 2 h), Z.div_mul by lia. lia.
    - destruct (gindex_Attack p Hv62) as (? & Eg & ?). split; [done|]. split; [|done]. by rewrite Eg, Hg. }
  split; [by rewrite <- Hg', gindex_roundtrip|]. split.
  - rewrite <- Hg'. apply TraceIndex_trace_index; [|lia]. destruct Hv' as [[? ?] ?]. split; [|done]. lia.
  - rewrite Z.shiftr_div_pow2 by lia. change (2 ^ 1) with 2. unfold gindex in Hg', Hg. rewrite Hd' in Hg'.
    rewrite Z.pow_add_r in Hg' by (destruct Hv; lia). unfold answer_position, moved in Hg'.
    destruct (right c); cbn [negb] in *.
    + replace (pos_indexAtDepth p') with ((pos_indexAtDepth p + 1) * 2) by lia. rewrite Z.div_mul by lia. lia.
    + replace (pos_indexAtDepth p') with (pos_indexAtDepth p * 2) by lia. rewrite Z.div_mul by lia. lia.
Qed.

Lemma NextMove_run s i c s1 : game_ok I s -> G.claimData s !! i = Some c ->
  NextMove D (loaded (G.claimData s) i c) (ours agree c) s1 =
    (if ours agree c then Ok None
     else if Z.log2 (G.position c) =? D then Err (ErrNew "game depth reached")
     else if bool_decide (i = 0%nat) && right c then Ok None
     else Ok (Some (response (cd_Position (answer_data c)) (answer_value c) (loaded (G.claimData s) i c))), s1).
Proof.
  intros Hs Hc. destruct (position_valid HD _ _ _ Hs Hc) as (_ & Hv & Hgi & Hd). fold D in Hv. unfold NextMove.
  destruct (ours agree c); [done|]. unfold cl_Position at 1. cbn [cl_ClaimData loaded datum cd_Position]. rewrite Hd.
  destruct (Z.eqb_spec (Z.log2 (G.position c)) D) as [|Hne]; [done|].
  assert (Z.log2 (G.position c) < D) as Hl by (destruct (gk_position _ _ Hs _ _ Hc) as (_ & Hle & _); fold D in Hle; lia).
  unfold agreeWithClaim, traceAtPosition at 1, bind at 1 2, lift. cbn [cd_Position cd_Value datum]. unfold bind at 1.
  rewrite (TraceIndex_trace_index _ _ Hv) by lia. rewrite Hgi. cbn [trace_Get chain_trace]. unfold ret at 1 2.
  assert ((trace (trace_index (G.position c) D) =? G.claim c) = right c) as -> by (unfold right_value; apply Z.eqb_sym).
  unfold solver_defend, solver_attack, IsRoot, cl_Position. cbn [cl_ClaimData loaded datum cd_Position].
  rewrite (is_root_position HD _ _ _ Hs Hc).
  destruct (right c) eqn:Er; [case_bool_decide as Ei; cbn [negb andb]; [done|]|rewrite andb_false_r];
    (destruct (answer_lands _ _ _ Hs Hc Hl) as (Ep & Et & _); [by intros|]); rewrite Er in Ep, Et;
    unfold wrapE, bind, traceAtPosition, lift, bind; rewrite Et; by rewrite Ep.
Qed.

Lemma agent_move_run s g i c s1 : game_ok I s -> G.claimData s !! i = Some c -> gs_agreeWithProposedOutput g = agree ->
  (forall m, IsDuplicate g m = bool_decide (cl_ClaimData m ∈ datum <$> G.claimData s)) ->
  exists r, attempt (agent_move D g (loaded (G.claimData s) i c)) s1 =
    (Ok r, if answers i c && negb (bool_decide (answer_data c ∈ datum <$> G.claimData s)) then (transact (answer_tx i c) s1).2 else s1).
Proof.
  intros Hs Hc Hg Hdup. unfold agent_move, attempt, wrapE, bind. rewrite (AgreeWithClaimLevel_ours _ _ _ _ Hs Hc Hg).
  rewrite (NextMove_run _ _ _ _ Hs Hc). unfold answers.
  destruct (position_valid HD _ _ _ Hs Hc) as (_ & Hv & _). fold D in Hv.
  destruct (ours agree c); cbn [negb andb]; [by eexists|].
  destruct (Z.eqb_spec (Z.log2 (G.position c)) D) as [|Hne]; cbn [negb andb]; [by eexists|].
  destruct (_ && right c) eqn:Er; cbn [negb andb]; [by eexists|].
  assert (Z.log2 (G.position c) < D) as Hl by (destruct (gk_position _ _ Hs _ _ Hc) as (_ & Hle & _); fold D in Hle; lia).
  destruct (answer_lands _ _ _ Hs Hc Hl) as (Ep & Et & Edef); [intros E0; rewrite bool_decide_eq_true_2 in Er by exact E0; exact Er|].
  cbn [map_err]. unfold lift, cl_Position. cbn [response cl_ClaimData cd_Position loaded datum]. rewrite Ep in Et, Edef.
  cbn [cd_Position answer_data]. rewrite Et, (TraceIndex_trace_index _ _ Hv), Hdup by lia. cbn [cl_ClaimData response].
  unfold answer_data, ret. destruct (bool_decide (_ ∈ datum <$> _)); cbn [negb]; [by eexists|].
  unfold Respond, chain_responder, responder_Respond, sendTxAndWait, BuildTx, DefendsParent, cl_Position.
  cbn [cl_ClaimData response cd_Position cd_Value cl_Parent cl_ParentContractIndex cl_ContractIndex loaded datum answer_data].
  unfold answer_tx, bind, ret. rewrite Edef, negb_involutive.
  destruct (right c); cbn [negb txmgr_Send chain_txmgr run_call]; unfold transact, G.attack, G.defend;
    destruct (G.move _ _ _ _ _ s1) as [[]]; by eexists.
Qed.
(** The index of the trace at which the agent steps on a leaf. *)
Definition step_index (c : G.ClaimData) : Z := trace_index (G.position c) D + (if right c then 1 else 0).
Definition steps_on (c : G.ClaimData) : bool := (Z.log2 (G.position c) =? D) && negb (ours agree c) && negb (G.countered c).
Definition step_tx (i : nat) (c : G.ClaimData) : M G.t unit :=
  G.step I (Z.of_nat i) (negb (right c)) (state_of (step_index c)) (proof_of (step_index c)).

Lemma AttemptStep_run s i c s1 : game_ok I s -> G.claimData s !! i = Some c -> Z.log2 (G.position c) = D ->
  AttemptStep D (loaded (G.claimData s) i c) false s1 =
    (Ok (mkStepData (loaded (G.claimData s) i c) (negb (right c)) (state_of (step_index c)) (proof_of (step_index c)) None), s1).
Proof.
  intros Hs Hc Hl. destruct (position_valid HD _ _ _ Hs Hc) as (_ & Hv & Hgi & Hd). fold D in Hv.
  destruct (leaf_facts _ HD _ _ _ Hs Hc Hl) as (_ & Hrange & _). fold D in Hrange.
  pose proof (Z.pow_le_mono_r 2 D 62) as HD62. assert (trace_index (G.position c) D = G.position c - 2 ^ D) as Hti by (by apply trace_index_leaf).
  unfold AttemptStep, cl_Position. cbn [cl_ClaimData loaded]. unfold datum. cbn [cd_Position].
  rewrite Hd, Hl, Z.eqb_refl. cbn [negb]. unfold agreeWithClaim, traceAtPosition, bind, lift, ret. cbn [cd_Position cd_Value].
  rewrite (TraceIndex_trace_index _ _ Hv), Hgi by lia. cbn [trace_Get trace_GetStepData chain_trace]. unfold ret, step_index.
  assert ((trace (trace_index (G.position c) D) =? G.claim c) = right c) as -> by (unfold right_value; apply Z.eqb_sym).
  destruct (right c); cbn [negb fst snd]; [|by rewrite Z.add_0_r]. by rewrite u64_small by (rewrite Hti; unfold two64; lia).
Qed.

Lemma agent_step_run s g i c s1 : game_ok I s -> G.claimData s !! i = Some c -> gs_agreeWithProposedOutput g = agree ->
  exists r, attempt (agent_step D g (loaded (G.claimData s) i c)) s1 = (Ok r, if steps_on c then (transact (step_tx i c) s1).2 else s1).
Proof.
  intros Hs Hc Hg. destruct (position_valid HD _ _ _ Hs Hc) as (_ & _ & _ & Hd).
  unfold agent_step, attempt, steps_on. rewrite (AgreeWithClaimLevel_ours _ _ _ _ Hs Hc Hg).
  unfold cl_Position. cbn [cl_ClaimData loaded datum cd_Position cl_Countered]. rewrite Hd.
  destruct (Z.eqb_spec (Z.log2 (G.position c)) D) as [Hl|]; cbn [negb andb]; [|by eexists].
  destruct (ours agree c); cbn [negb andb]; [by eexists|]. destruct (G.countered c); cbn [negb andb]; [by eexists|].
  assert (Z.of_nat i < G.no_parent) as Hi by (pose proof (gk_length _ _ Hs); pose proof (lookup_lt_Some _ _ _ Hc); lia). unfold G.no_parent in Hi.
  unfold wrapE, bind. rewrite (AttemptStep_run _ _ _ _ Hs Hc Hl). cbn [map_err sd_OracleData]. unfold ret at 1.
  cbn [sd_LeafClaim sd_IsAttack sd_PreState sd_ProofData cl_ContractIndex loaded]. rewrite u64_small by (unfold two64; lia).
  unfold Step, chain_responder, responder_Step, sendTxAndWait, bind.
  cbn [sc_ClaimIndex sc_IsAttack sc_StateData sc_Proof txmgr_Send chain_txmgr run_call]. rewrite i64_small by lia.
  unfold step_tx, transact. destruct (G.step _ _ _ _ _ s1) as [[]]; by eexists.
Qed.
End Honest.

(** * The games an honest challenger wins

    While the agent acts the game grows only by its answers.  Every claim of the other side
    that can be answered is answered, every leaf of the other side is stepped on, and the
    game is resolved in the agent's favour once the clocks have run out. *)


Section Act.
Context `{Keccak} `{Setting}.
Abbreviation I := game.
Let D := G.MAX_GAME_DEPTH I.
Hypothesis HD : 1 <= D <= 62.
Variable agree : bool.
Abbreviation right c := (right_value I trace c).

(** ** The game while the agent acts *)
Definition marked (b : bool) (c : G.ClaimData) : G.ClaimData :=
  G.mkClaimData (G.parentIndex c) b (G.claim c) (G.position c) (G.clock c).

(** The move against [c] is within the clock that the contract computes for it. *)
Definition in_time (s : G.t) (c : G.ClaimData) : Prop := exists clk,
  (if negb (G.parentIndex c =? G.no_parent) then result_map G.clock (G.claim_at (G.parentIndex c) s) else Ok 0) = Ok clk /\
  LibClock.duration clk + now < two256 /\ LibClock.timestamp (G.clock c) <= LibClock.duration clk + now /\
  u64 (LibClock.duration clk + now - LibClock.timestamp (G.clock c)) <= Z.shiftr (G.GAME_DURATION I) 1.

Lemma move_run s i c h a : game_ok I s -> G.status s = G.IN_PROGRESS -> G.claimData s !! i = Some c -> (i = 0%nat -> a = true) ->
  Z.log2 (G.position c) < D -> in_time s c -> hashClaimPos h (moved a (G.position c)) ∉ G.claims s ->
  exists s', G.move I now (Z.of_nat i) h a s = (Ok tt, s').
Proof.
  intros Hs Hst Hc Ha Hl (clk & Hclk & Ht1 & Ht2 & Ht3) Hfresh. destruct (position_move _ HD _ _ _ a Hs Hc Ha) as (Em & Ed & _).
  unfold G.move, bind, get, lift, throw, modify. rewrite bool_decide_true by done. cbn [negb].
  assert ((Z.of_nat i =? 0) && negb a = false) as ->.
  { destruct (Z.eqb_spec (Z.of_nat i) 0); [|done]. by rewrite Ha by lia. }
  unfold G.claim_at at 1. rewrite Nat2Z.id, Hc, Ed. fold D. case_if; [lia|]. rewrite Hclk. case_if; [lia|]. case_if; [lia|].
  rewrite Em, bool_decide_false by done. by eexists.
Qed.

Variable root : Hash.
Variable s0 : G.t.
Hypothesis Hr0 : reachable I root s0.
Let cs0 := G.claimData s0.

(** The claims of [s0] are there, own ones as they were; the others that were added are
    answers to claims the agent came to. *)
Record progress (pre : list Claim) (s : G.t) : Prop := {
  pg_reach : reachable I root s;
  pg_status : G.status s = G.IN_PROGRESS;
  pg_old : forall (i : nat) c, cs0 !! i = Some c -> exists b,
    G.claimData s !! i = Some (marked b c) /\
    (G.countered c = true -> b = true) /\ (ours agree c = true -> b = G.countered c);
  pg_new : forall (i : nat) x, G.claimData s !! i = Some x -> cs0 !! i = None -> exists j d,
    cs0 !! j = Some d /\ answers agree j d = true /\ (loaded cs0 j d ∈ pre) /\
    G.claim x = answer_value d /\ G.position x = answer_position d /\ G.countered x = false;
  pg_length : (length (G.claimData s) <= length cs0 + length pre)%nat;
  pg_done : forall (i : nat) c, cs0 !! i = Some c -> loaded cs0 i c ∈ pre -> answers agree i c = true ->
    exists x, G.claimData s !! i = Some x /\ G.countered x = true }.

Lemma loaded_inj i j c d : cs0 !! i = Some c -> cs0 !! j = Some d -> loaded cs0 i c = loaded cs0 j d -> i = j /\ c = d.
Proof. intros Hc Hd E. assert (Z.of_nat i = Z.of_nat j) as Ei by exact (f_equal cl_ContractIndex E). split; [lia|]. assert (i = j) as -> by lia. congruence. Qed.

Lemma progress_start : G.status s0 = G.IN_PROGRESS -> progress [] s0.
Proof.
  intros Hst. split; [done|done| | |fold cs0; simpl; lia|].
  - intros i c Hc. exists (G.countered c). split; [by destruct c|done].
  - intros i x Hx Hn. subst cs0. congruence.
  - by intros i c _ ?%not_elem_of_nil.
Qed.

Lemma progress_skip pre s i c : cs0 !! i = Some c -> progress pre s -> (answers agree i c = true -> G.countered c = true) ->
  progress (pre ++ [loaded cs0 i c]) s.
Proof.
  intros Hc Hp Hsk. destruct Hp as [H1 H2 H3 H4 H5 H6]. split; [done..| | |].
  - intros k x Hx Hn. destruct (H4 k x Hx Hn) as (j & d & Hd & Ha & Hin & Hrest). exists j, d. repeat split; try done.
    + apply elem_of_app. by left.
    + by destruct Hrest.
    + by destruct Hrest as (_ & ? & _).
    + by destruct Hrest as (_ & _ & ?).
  - rewrite length_app. simpl. lia.
  - intros k d Hd [Hin|E%list_elem_of_singleton]%elem_of_app Ha; [eauto|].
    destruct (loaded_inj _ _ _ _ Hd Hc E) as [-> ->]. destruct (H3 _ _ Hc) as (b & Hb & Hcb & _). eexists. split; [done|]. simpl. auto.
Qed.

(** A step counters a claim of the other side. *)
Lemma progress_counter pre s i c : cs0 !! i = Some c -> ours agree c = false -> progress pre s ->
  reachable I root (G.counter (Z.of_nat i) s) -> progress pre (G.counter (Z.of_nat i) s).
Proof.
  intros Hc Ho [H1 H2 H3 H4 H5 H6] Hr. unfold G.counter in *. rewrite Nat2Z.id in *. split; [done|done|simpl..].
  - intros k d Hd. destruct (H3 _ _ Hd) as (b & Hb & Hcb & Hob). rewrite list_lookup_alter. case_decide as Ei.
    + subst k. rewrite Hb. assert (d = c) as -> by congruence. exists true. split; [done|]. split; [done|congruence].
    + by exists b.
  - intros k x Hx Hn. rewrite list_lookup_alter in Hx. case_decide as Ei; [subst k; subst cs0; congruence|]. eauto.
  - by rewrite length_alter.
  - intros k d Hd Hin Ha. destruct (H6 _ _ Hd Hin Ha) as (x & Hx & Hcx).
    destruct (lookup_counter_fwd _ i _ _ Hx) as (x' & Hx' & _ & _ & _ & Hcx'). exists x'. auto.
Qed.

(** An answer counters a claim and adds one. *)
Lemma progress_answer pre s i c s' : cs0 !! i = Some c -> progress pre s -> answers agree i c = true -> reachable I root s' ->
  G.status s' = G.IN_PROGRESS -> added i c (negb (right c)) (answer_value c) s s' -> progress (pre ++ [loaded cs0 i c]) s'.
Proof.
  intros Hc [H1 H2 H3 H4 H5 H6] Ha Hr Hst (clk & E). set (n := G.mkClaimData _ _ _ _ _) in E.
  assert (ours agree c = false) as Ho by (unfold answers in Ha; by destruct (ours agree c)).
  split; [done|done|..]; rewrite ?E.
  - intros k d Hd. destruct (H3 _ _ Hd) as (b & Hb & Hcb & Hob).
    destruct (decide (i = k)) as [<-|Hne].
    + assert (d = c) as -> by congruence. exists true. split; [|split; [done|congruence]].
      apply lookup_app_l_Some. rewrite list_lookup_alter, decide_True by done. by rewrite Hb.
    + exists b. split; [|done]. apply lookup_app_l_Some. by rewrite list_lookup_alter, decide_False.
  - intros k x Hx Hn. apply lookup_app_Some in Hx as [Hx|[_ Hx]].
    + rewrite list_lookup_alter in Hx. case_decide as Ei; [subst k; subst cs0; congruence|].
      destruct (H4 k x Hx Hn) as (j & d & Hd & Haj & Hin & Hrest). exists j, d.
      split; [done|]. split; [done|]. split; [|done]. apply elem_of_app. by left.
    + apply list_lookup_singleton_Some in Hx as [_ <-]. exists i, c. split; [done|]. split; [done|]. split; [|done].
      apply elem_of_app. right. by left.
  - rewrite !length_app, length_alter. simpl. lia.
  - intros k d Hd Hin Had. destruct (decide (i = k)) as [<-|Hne].
    + assert (exists x, G.claimData s !! i = Some x) as [x Hx] by (destruct (H3 _ _ Hc) as (b & Hb & _); by eexists).
      exists (G.set_countered x). split; [|done]. apply lookup_app_l_Some. rewrite list_lookup_alter, decide_True by done. by rewrite Hx.
    + apply elem_of_app in Hin as [Hin|Hin%list_elem_of_singleton]; [|destruct (loaded_inj _ _ _ _ Hd Hc Hin); congruence].
      destruct (H6 _ _ Hd Hin Had) as (x & Hx & Hcx). exists x. split; [|done]. apply lookup_app_l_Some. by rewrite list_lookup_alter, decide_False.
Qed.

Lemma progress_in_time pre s i c : progress pre s -> cs0 !! i = Some c -> in_time s0 c -> forall b, in_time s (marked b c).
Proof.
  intros Hp Hc (clk & Hclk & Hrest) b. exists clk. split; [|done]. simpl. case_if; [|done].
  unfold G.claim_at in *. fold cs0 in Hclk. destruct (cs0 !! Z.to_nat (G.parentIndex c)) as [p|] eqn:Epar; [|done].
  destruct (pg_old _ _ Hp _ _ Epar) as (b' & -> & _). done.
Qed.

(** The hash that the contract keeps for an answer. *)
Definition answer_hash (c : G.ClaimData) : Hash := hashClaimPos (answer_value c) (answer_position c).

(** A claim can be answered: there is time left, and the contract has not seen the hash of
    the answer and will not see it as that of another answer. *)
Record answerable (i : nat) (c : G.ClaimData) : Prop := {
  an_time : in_time s0 c;
  an_fresh : answer_hash c ∉ G.claims s0;
  an_only : forall j d, cs0 !! j = Some d -> answers agree j d = true -> j <> i -> answer_hash d <> answer_hash c }.

Lemma answers_iff i c : cs0 !! i = Some c -> answers agree i c = true ->
  ours agree c = false /\ Z.log2 (G.position c) < D /\ (i = 0%nat -> right c = false).
Proof.
  intros Hc Ha. unfold answers in Ha. fold D in Ha. destruct (gk_position _ _ (reachable_ok _ HD _ _ Hr0) _ _ Hc) as (_ & Hle & _). fold D in Hle.
  destruct (ours agree c); [done|]. destruct (Z.eqb_spec (Z.log2 (G.position c)) D); [done|]. split; [done|]. split; [lia|].
  intros Hi. rewrite bool_decide_eq_true_2 in Ha by done. by destruct (right c).
Qed.

Lemma in_claims s x : game_ok I s -> x ∈ G.claims s <-> exists k c, G.claimData s !! S k = Some c /\ x = claim_hash c.
Proof.
  intros Hs. rewrite (gk_claims _ _ Hs), elem_of_list_to_set, list_elem_of_fmap. split.
  - intros (c & -> & (k & Hk)%list_elem_of_lookup). rewrite lookup_tail in Hk. eauto.
  - intros (k & c & Hk & ->). exists c. split; [done|]. apply list_elem_of_lookup. exists k. by rewrite lookup_tail.
Qed.

Lemma progress_fresh pre s i c : progress pre s -> cs0 !! i = Some c -> answerable i c -> (loaded cs0 i c ∉ pre) ->
  answer_hash c ∉ G.claims s.
Proof.
  intros Hp Hc Han Hnin Hin. pose proof (reachable_ok _ HD _ _ (pg_reach _ _ Hp)) as Hs. pose proof (reachable_ok _ HD _ _ Hr0) as Hs0.
  apply (in_claims _ _ Hs) in Hin as (k & x & Hx & E). destruct (cs0 !! S k) as [d|] eqn:Hd.
  - destruct (pg_old _ _ Hp _ _ Hd) as (b & Hb & _). apply (an_fresh _ _ Han), (in_claims _ _ Hs0). exists k, d. split; [done|].
    rewrite Hx in Hb. injection Hb as ->. exact E.
  - destruct (pg_new _ _ Hp _ _ Hx Hd) as (j & d & Hj & Ha & Hpre & Ev & Ep & _). destruct (decide (j = i)) as [->|Hne].
    + assert (d = c) as -> by congruence. done.
    + apply (an_only _ _ Han _ _ Hj Ha Hne). rewrite E. unfold claim_hash. by rewrite Ev, Ep.
Qed.

(** The answer is not among the claims of the game. *)
Lemma answer_not_duplicate i c : cs0 !! i = Some c -> answers agree i c = true -> answerable i c -> answer_data c ∉ datum <$> cs0.
Proof.
  intros Hc Ha Han (x & E & (k & Hk)%list_elem_of_lookup)%list_elem_of_fmap. pose proof (reachable_ok _ HD _ _ Hr0) as Hs0.
  destruct (answers_iff _ _ Hc Ha) as (_ & Hl & Hi). destruct (position_move _ HD _ _ _ (negb (right c)) Hs0 Hc) as (_ & _ & Hr & _ & He).
  { intros E0. by rewrite Hi. }
  fold D in Hr. fold (answer_position c) in Hr, He. destruct (position_valid HD _ _ _ Hs0 Hk) as (_ & _ & Hg & _).
  assert (answer_value c = G.claim x) as Ev by exact (f_equal cd_Value E).
  assert (NewPositionFromGIndex (answer_position c) = NewPositionFromGIndex (G.position x)) as Ep by exact (f_equal cd_Position E).
  destruct (gk_position _ _ Hs0 _ _ Hc) as (Hpos & _). pose proof (Z.log2_lt_pow2 _ D Hpos) as [_ Hlt]. specialize (Hlt Hl).
  assert (answer_position c <= 2 ^ 63).
  { pose proof (Z.pow_le_mono_r 2 D 62). unfold answer_position, moved. destruct (right c); simpl; lia. }
  destruct (from_gindex (answer_position c)) as [_ Hg']; [unfold two64; lia|]. rewrite Ep, Hg in Hg'.
  destruct k as [|k].
  - destruct (gk_root _ _ Hs0) as (r & Hr0' & _ & Hr1). unfold cs0 in Hk. assert (x = r) as -> by congruence. by rewrite <- Hg', Hr1 in He.
  - apply (an_fresh _ _ Han), (in_claims _ _ Hs0). exists k, x. split; [done|]. unfold answer_hash, claim_hash. by rewrite Ev, Hg'.
Qed.

Lemma progress_move pre s i c g : progress pre s -> cs0 !! i = Some c -> (loaded cs0 i c ∉ pre) ->
  gs_agreeWithProposedOutput g = agree -> (forall m, IsDuplicate g m = bool_decide (cl_ClaimData m ∈ datum <$> cs0)) ->
  Z.of_nat (length cs0 + length pre) < G.no_parent -> (answers agree i c = true -> G.countered c = false -> answerable i c) ->
  exists r s', attempt (agent_move D g (loaded cs0 i c)) s = (Ok r, s') /\ progress (pre ++ [loaded cs0 i c]) s'.
Proof.
  intros Hp Hc Hnin Hg Hdup Hlen Han. pose proof (reachable_ok _ HD _ _ Hr0) as Hs0. pose proof (reachable_ok _ HD _ _ (pg_reach _ _ Hp)) as Hs.
  destruct (agent_move_run HD agree s0 g i c s Hs0 Hc Hg Hdup) as (r & E). fold cs0 D in E. rewrite E. exists r. eexists. split; [done|].
  destruct (answers agree i c) eqn:Ha; cbn [andb]; [|apply progress_skip; [done|done|congruence]].
  case_bool_decide as Hd; cbn [negb].
  - apply progress_skip; [done..|]. intros _. destruct (G.countered c) eqn:Ec; [done|]. by destruct (answer_not_duplicate _ _ Hc Ha (Han eq_refl eq_refl)).
  - destruct (answers_iff _ _ Hc Ha) as (_ & Hl & Hi). destruct (pg_old _ _ Hp _ _ Hc) as (b & Hb & _).
    assert (forall s', answer_tx i c s = (Ok tt, s') -> progress (pre ++ [loaded cs0 i c]) s') as Hok.
    { intros s' Es. pose proof (pg_length _ _ Hp) as Hle. unfold answer_tx in Es.
      destruct (wp_run _ _ _ _ _ (move_ok _ HD now (Z.of_nat i) _ _ s Hs ltac:(lia) ltac:(lia)) Es) as (_ & Hst & q & Hq & _ & _ & _ & Hadd).
      rewrite Nat2Z.id in *. assert (q = marked b c) as -> by congruence. apply (progress_answer pre s); try done.
      eapply reachable_step; [apply Hp|]. eapply game_move; [| |exact Es]; lia. }
    unfold transact. destruct (answer_tx i c s) as [[[]|e|] s'] eqn:Es; [by apply Hok|simpl; apply progress_skip; [done..|]..];
      (intros _; destruct (G.countered c) eqn:Ec; [done|]; specialize (Han eq_refl eq_refl); exfalso;
       destruct (move_run s i (marked b c) (answer_value c) (negb (right c))) as (s2 & E2);
         [done|apply Hp|done|intros E0; by rewrite Hi|done|by eapply progress_in_time; [..|apply Han]|by eapply progress_fresh|];
       unfold answer_tx in Es; congruence).
Qed.

Lemma loaded_elem cs x : cs ≡ₚ imap (loaded cs0) cs0 -> x ∈ cs <-> exists i c, cs0 !! i = Some c /\ x = loaded cs0 i c.
Proof.
  intros Hcs. rewrite Hcs, list_elem_of_lookup. split.
  - intros (i & Hi). rewrite list_lookup_imap in Hi. apply fmap_Some in Hi as (c & Hc & ->). eauto.
  - intros (i & c & Hc & ->). exists i. by rewrite list_lookup_imap, Hc.
Qed.

Lemma loaded_nodup cs : cs ≡ₚ imap (loaded cs0) cs0 -> NoDup cs.
Proof.
  intros ->. apply NoDup_alt. intros i j x Hi Hj. rewrite list_lookup_imap in Hi, Hj.
  apply fmap_Some in Hi as (c & Hc & ->). apply fmap_Some in Hj as (d & Hd & E). by destruct (loaded_inj _ _ _ _ Hc Hd E).
Qed.

(** The loop over the moves. *)
Lemma moves_progress g cs : G.status s0 = G.IN_PROGRESS -> cs ≡ₚ imap (loaded cs0) cs0 ->
  gs_agreeWithProposedOutput g = agree -> (forall m, IsDuplicate g m = bool_decide (cl_ClaimData m ∈ datum <$> cs0)) ->
  2 * Z.of_nat (length cs0) < G.no_parent ->
  (forall i c, cs0 !! i = Some c -> answers agree i c = true -> G.countered c = false -> answerable i c) ->
  exists s1, for_each (agent_move D g) cs s0 = (Ok tt, s1) /\ progress cs s1.
Proof.
  intros Hst Hcs Hg Hdup Hlen Han. apply for_each_inv; [by apply progress_start|]. intros pre x post s E Hp.
  assert (x ∈ cs) as Hx by (rewrite E; apply elem_of_app; right; by left).
  apply (loaded_elem _ _ Hcs) in Hx as (i & c & Hc & ->).
  assert (length cs = length cs0) as El by (rewrite Hcs; apply length_imap). rewrite E, length_app in El. simpl in El.
  apply progress_move; [done..| |done|done|lia|by apply Han]. apply loaded_nodup in Hcs. rewrite E in Hcs.
  apply NoDup_app in Hcs as (_ & Hd & _). intros Hin. apply (Hd _ Hin). by left.
Qed.

(** ** The steps *)
Lemma progress_above pre s k i : progress pre s -> above (G.claimData s) k i -> is_Some (cs0 !! i) -> above cs0 k i /\ is_Some (cs0 !! k).
Proof.
  intros Hp Ha. pose proof (reachable_ok _ HD _ _ Hr0) as Hs0.
  assert (forall i j c, G.claimData s !! i = Some c -> i <> 0%nat -> G.parentIndex c = Z.of_nat j -> is_Some (cs0 !! i) ->
    exists d, cs0 !! i = Some d /\ G.parentIndex d = Z.of_nat j /\ is_Some (cs0 !! j)) as Hpar.
  { clear -Hp Hs0 HD. intros i j c Hc Hi Hj [d Hd]. destruct (pg_old _ _ Hp _ _ Hd) as (b & Hb & _). exists d. split; [done|].
    assert (G.parentIndex d = Z.of_nat j) as E by (rewrite Hc in Hb; injection Hb as ->; done). split; [done|].
    destruct (parent_of _ _ _ _ _ Hs0 Hd Hi E) as (_ & p & a & (Hq & _) & _). by exists p. }
  induction Ha as [i j c Hc Hi Hj|i j k c Hc Hi Hj Ha IH]; intros Hsome; destruct (Hpar _ _ _ Hc Hi Hj Hsome) as (d & Hd & Ed & Hsj).
  - split; [by eapply above_parent|done].
  - destruct (IH Hsj) as [? ?]. split; [by eapply above_up|done].
Qed.

Lemma progress_path pre s i c : progress pre s -> cs0 !! i = Some c -> honest_path I trace agree cs0 i -> honest_path I trace agree (G.claimData s) i.
Proof.
  intros Hp Hc Hh k x Hk Hx Ho. pose proof (reachable_ok _ HD _ _ Hr0) as Hs0.
  assert ((k = i \/ above cs0 k i) /\ is_Some (cs0 !! k)) as [Hk0 [d Hd]].
  { destruct Hk as [-> |Hk]; [split; [by left|by eexists]|]. destruct (progress_above _ _ _ _ Hp Hk) as [? ?]; [by eexists|auto]. }
  destruct (pg_old _ _ Hp _ _ Hd) as (b & Hb & _). assert (x = marked b d) as -> by congruence.
  destruct (Hh k d Hk0 Hd Ho) as [Hright Hdir]. split; [exact Hright|].
  intros j p a Hk1 (Hpj & Hj & Hpos & Ha).
  destruct (parent_of _ _ _ _ _ Hs0 Hd Hk1 Hj) as (_ & q & a' & (Hq & _) & _). destruct (pg_old _ _ Hp _ _ Hq) as (b' & Hb' & _).
  assert (p = marked b' q) as -> by congruence. apply (Hdir j q a Hk1). done.
Qed.

(** What the trace provider gives for every step. *)
Definition trace_steps : Prop := forall k, 0 <= k < 2 ^ D ->
  Keccak256Hash (state_of k) = prestate I trace k /\ G.VM_step I (state_of k) (proof_of k) = Ok (trace k).

Lemma progress_step pre s i c g : progress pre s -> trace_steps -> cs0 !! i = Some c -> gs_agreeWithProposedOutput g = agree ->
  (steps_on agree c = true -> honest_path I trace agree cs0 i) ->
  exists r s', attempt (agent_step D g (loaded cs0 i c)) s = (Ok r, s') /\ progress pre s' /\
    (s' = s \/ s' = G.counter (Z.of_nat i) s) /\ (steps_on agree c = true -> s' = G.counter (Z.of_nat i) s).
Proof.
  intros Hp Htr Hc Hg Hpath. pose proof (reachable_ok _ HD _ _ Hr0) as Hs0. pose proof (reachable_ok _ HD _ _ (pg_reach _ _ Hp)) as Hs.
  destruct (agent_step_run HD agree s0 g i c s Hs0 Hc Hg) as (r & E). fold cs0 D in E. rewrite E. exists r. eexists. split; [done|].
  destruct (steps_on agree c) eqn:Hst; [|split; [done|split; [by left|done]]]. specialize (Hpath eq_refl).
  unfold steps_on in Hst. fold D in Hst. destruct (Z.eqb_spec (Z.log2 (G.position c)) D) as [Hl|]; [|done].
  destruct (ours agree c) eqn:Ho; [done|]. destruct (pg_old _ _ Hp _ _ Hc) as (b & Hb & _).
  destruct (leaf_facts _ HD _ _ _ Hs0 Hc Hl) as (_ & Hrange & Heven & _). fold D in Hrange.
  assert (0 <= step_index c < 2 ^ D) as Hk.
  { unfold step_index. fold D. rewrite trace_index_leaf by done. apply Z.even_spec in Heven as [h Eh].
    assert (2 ^ D = 2 * 2 ^ (D - 1)) as E2 by (rewrite <- Z.pow_succ_r by lia; f_equal; lia). destruct (right c); lia. }
  destruct (Htr _ Hk) as [Hpre Hvm].
  assert (step_tx i c s = (Ok tt, G.counter (Z.of_nat i) s)) as Es.
  { apply (honest_step_run I HD trace agree s i (marked b c)); try done; [apply Hp|]. by eapply progress_path. }
  unfold transact. rewrite Es. simpl. split; [|split; [by right|done]].
  eapply progress_counter; [done..|]. eapply reachable_step; [apply Hp|]. eapply game_vm_step; [|exact Es]. lia.
Qed.

(** A claim was answered or stepped on. *)
Definition is_countered (i : nat) (s : G.t) : Prop := exists x, G.claimData s !! i = Some x /\ G.countered x = true.

Lemma is_countered_counter i j s : is_countered i s -> is_countered i (G.counter j s).
Proof.
  intros (x & Hx & Hcx). destruct (lookup_counter_fwd _ (Z.to_nat j) _ _ Hx) as (x' & Hx' & _ & _ & _ & Hcx'). exists x'. auto.
Qed.

Lemma counter_is_countered pre i c s : progress pre s -> cs0 !! i = Some c -> is_countered i (G.counter (Z.of_nat i) s).
Proof.
  intros Hp Hc. destruct (pg_old _ _ Hp _ _ Hc) as (b & Hb & _). exists (G.set_countered (marked b c)). split; [|done].
  unfold G.counter. simpl. rewrite Nat2Z.id, list_lookup_alter, decide_True by done. by rewrite Hb.
Qed.

(** The loop over the steps. *)
Lemma steps_progress g pre cs s1 : progress pre s1 -> trace_steps -> cs ≡ₚ imap (loaded cs0) cs0 -> gs_agreeWithProposedOutput g = agree ->
  (forall i c, cs0 !! i = Some c -> steps_on agree c = true -> honest_path I trace agree cs0 i) ->
  exists s2, for_each (agent_step D g) cs s1 = (Ok tt, s2) /\ progress pre s2 /\
    forall i c, cs0 !! i = Some c -> loaded cs0 i c ∈ cs -> steps_on agree c = true -> is_countered i s2.
Proof.
  intros Hp Htr Hcs Hg Hpath. apply (for_each_inv (agent_step D g) (fun l s => progress pre s /\ forall i c, cs0 !! i = Some c -> loaded cs0 i c ∈ l ->
    steps_on agree c = true -> is_countered i s)); [split; [done|]; by intros i c _ ?%not_elem_of_nil|].
  intros l x post s E [Hs Hdone]. assert (x ∈ cs) as Hx by (rewrite E; apply elem_of_app; right; by left).
  apply (loaded_elem _ _ Hcs) in Hx as (i & c & Hc & ->).
  destruct (progress_step pre s i c g Hs Htr Hc Hg) as (r & s' & Er & Hs' & Hor & Hst); [by apply Hpath|].
  exists r, s'. split; [done|]. split; [done|]. intros k d Hd [Hin|Hin%list_elem_of_singleton]%elem_of_app Hstd.
  - specialize (Hdone k d Hd Hin Hstd). destruct Hor as [-> | ->]; [done|by apply is_countered_counter].
  - destruct (loaded_inj _ _ _ _ Hd Hc Hin) as [-> ->]. rewrite (Hst Hstd). by eapply counter_is_countered.
Qed.
End Act.
