(* ===== verification/ChallengerTheorems.v ===== *)
(** * What the challenger achieves

    The agent sees every claim of a game that was initialized once; acting on it while it
    can still be won, it answers every claim of the other side, and the game is resolved as
    it expects.  A game that
    was initialized twice it cannot load. *)
From S2P Require Import Prelude GoErrors GoBytes EthTypes Geth Bits Evm Positions.
From S2P Require Import DisputeGame DisputeGameSpec DisputeHonest DisputeTheorems.
From S2P Require Import Challenger ChallengerSpec ChallengerOnchain ChallengerAct.
#[local] Open Scope Z_scope.

(** The agent of a challenger on a deployed game. *)
Definition chain_act `{Keccak} (st : Setting) (agree : bool) : M G.t unit :=
  Act (G.MAX_GAME_DEPTH game) agree.

(** The same challenger, at another time. *)
Definition at_time (t : Z) (st : Setting) : Setting :=
  {| game := game; now := t; trace := trace; state_of := state_of; proof_of := proof_of |}.

Section Resolves.
Context `{Keccak}.
Variable agree : bool.

(** The agent expects the win of the side it plays for. *)
Definition win : G.GameStatus := if agree then G.CHALLENGER_WINS else G.DEFENDER_WINS.

(** Once the contract would resolve the game as the agent expects, the agent resolves it. *)
Lemma act_resolves (st : Setting) s : G.resolve game now s = (Ok win, G.set_status win s) -> chain_act st agree s = (Ok tt, G.set_status win s).
Proof.
  intros E. unfold chain_act, Act, tryResolve, attempt, bind. cbn [CallResolve chain_responder].
  unfold responder_CallResolve, bind. cbn [txmgr_Call chain_txmgr eth_call].  unfold win in *.
  destruct agree; rewrite E; cbn [fst result_map status_code]; unfold lift; cbn; unfold responder_Resolve, sendTxAndWait, bind;
    cbn [txmgr_Send chain_txmgr run_call]; unfold transact; by rewrite E.
Qed.
End Resolves.

Section Theorems.
Context `{Keccak} (st : Setting).
Let I := game.
Let D := G.MAX_GAME_DEPTH I.
Hypothesis HD : 1 <= D <= 62.
Variable agree : bool.

(** A game on which the agent acts: it is in progress and its clocks have not run out; the
    claims of the other side that were not answered can be answered, and above a leaf of
    the other side the own answers are those of the trace; the root claim of the other side
    is wrong, or the last level is an own one and no leaf at it was stepped on. *)
Record ready (root : Hash) (s : G.t) : Prop := {
  rd_reachable : reachable I root s;
  rd_status : G.status s = G.IN_PROGRESS;
  rd_open : exists e, (G.resolve I now s).1 = Err e;
  rd_length : 2 * Z.of_nat (length (G.claimData s)) < G.no_parent;
  rd_answerable : forall i c, G.claimData s !! i = Some c -> answers agree i c = true -> G.countered c = false -> answerable agree s i c;
  rd_path : forall i c, G.claimData s !! i = Some c -> steps_on agree c = true -> honest_path I trace agree (G.claimData s) i;
  rd_root : forall r, G.claimData s !! 0%nat = Some r -> agree = true -> right_value I trace r = false;
  rd_leaves : agree = false -> Z.even D = true /\
    forall i c, G.claimData s !! i = Some c -> ours agree c = true -> Z.log2 (G.position c) = D -> G.countered c = false }.

Lemma act_run root s : ready root s -> trace_steps ->
  exists cs s', chain_act st agree s = (Ok tt, s') /\ cs ≡ₚ imap (loaded (G.claimData s)) (G.claimData s) /\
    progress agree root s cs s' /\
    forall i c, G.claimData s !! i = Some c -> steps_on agree c = true -> is_countered i s'.
Proof.
  intros Hr Htr. pose proof (rd_reachable _ _ Hr) as Hreach. pose proof (reachable_ok _ HD _ _ Hreach) as Hs.
  destruct (newGame_spec HD s agree Hs) as (g & cs & Hg & Hcs & Hag & Hperm & Hdup).
  destruct (moves_progress HD agree root s Hreach g cs (rd_status _ _ Hr) Hperm Hag Hdup (rd_length _ _ Hr) (rd_answerable _ _ Hr)) as (s1 & E1 & Hp1).
  destruct (steps_progress HD agree root s Hreach g cs cs s1 Hp1 Htr Hperm Hag (rd_path _ _ Hr)) as (s2 & E2 & Hp2 & Hst).
  exists cs, s2. split; [|split; [done|split; [done|]]].
  - destruct (rd_open _ _ Hr) as [e He]. unfold chain_act, Act, tryResolve, attempt, bind. cbn [CallResolve chain_responder].
    unfold responder_CallResolve, bind. cbn [txmgr_Call chain_txmgr eth_call]. fold I. rewrite He. cbn [result_map]. unfold ret at 1.
    unfold wrapE. fold I D in Hg |- *. rewrite Hg. cbn [map_err]. unfold lift. rewrite Hcs. fold I D in E1, E2. by rewrite E1, E2.
  - intros i c Hc Hsc. apply (Hst i c Hc); [|done]. apply (loaded_elem s cs); [done|]. by exists i, c.
Qed.

(** Every claim of the other side is countered in what the agent leaves. *)
Lemma act_counters_all root s cs s' : ready root s -> cs ≡ₚ imap (loaded (G.claimData s)) (G.claimData s) ->
  progress agree root s cs s' ->
  (forall i c, G.claimData s !! i = Some c -> steps_on agree c = true -> is_countered i s') ->
  forall i x, G.claimData s' !! i = Some x -> ours agree x = false -> G.countered x = true.
Proof.
  intros Hr Hcs Hp Hst i x Hx Ho. pose proof (reachable_ok _ HD _ _ (rd_reachable _ _ Hr)) as Hs.
  destruct (G.claimData s !! i) as [c|] eqn:Hc.
  - destruct (pg_old _ _ _ _ _ Hp _ _ Hc) as (b & Hb & Hcb & _). assert (x = marked b c) as -> by congruence.
    change (ours agree (marked b c)) with (ours agree c) in Ho.
    assert (answers agree i c = true \/ steps_on agree c = true \/ G.countered c = true) as [Ha|[Hsc|Hcc]].
    { unfold answers, steps_on. rewrite Ho. fold I D. destruct (Z.eqb_spec (Z.log2 (G.position c)) D) as [Hl|Hl]; cbn [negb andb].
      - destruct (G.countered c); auto.
      - left. case_bool_decide as Ei; [|done]. subst i. destruct agree eqn:Ea.
        + fold I. by rewrite (rd_root _ _ Hr _ Hc Ea).
        + destruct (gk_root _ _ Hs) as (r & Hr0 & _ & Hr1). assert (c = r) as -> by congruence. unfold ours in Ho. by rewrite Hr1 in Ho. }
    + destruct (pg_done _ _ _ _ _ Hp _ _ Hc) as (y & Hy & Hcy); [apply (loaded_elem s cs); [done|by exists i, c]|done|]. congruence.
    + destruct (Hst _ _ Hc Hsc) as (y & Hy & Hcy). congruence.
    + by apply Hcb.
  - destruct (pg_new _ _ _ _ _ Hp _ _ Hx Hc) as (j & d & Hd & Ha & _ & _ & Epos & _). exfalso.
    destruct (answers_iff HD agree root s (rd_reachable _ _ Hr) _ _ Hd Ha) as (Hod & _ & Hi).
    destruct (position_move _ HD _ _ _ (negb (right_value I trace d)) Hs Hd) as (_ & _ & _ & Hl & _).
    { intros E0. fold I in Hi. by rewrite Hi. }
    unfold ours in *. rewrite Epos in Ho. unfold answer_position in Ho. fold I in Ho. rewrite Hl, Z.odd_add in Ho.
    by destruct (Z.odd (Z.log2 (G.position d))), agree.
Qed.

(** Own leaves are as they were. *)
Lemma act_keeps_leaves root s cs s' : ready root s -> progress agree root s cs s' -> agree = false ->
  forall i x, G.claimData s' !! i = Some x -> ours agree x = true -> Z.log2 (G.position x) = D -> G.countered x = false.
Proof.
  intros Hr Hp Ha i x Hx Ho Hl. destruct (G.claimData s !! i) as [c|] eqn:Hc.
  - destruct (pg_old _ _ _ _ _ Hp _ _ Hc) as (b & Hb & _ & Hob). assert (x = marked b c) as -> by congruence.
    simpl. rewrite Hob by done. destruct (rd_leaves _ _ Hr Ha) as [_ Hleaf]. by apply (Hleaf i c).
  - by destruct (pg_new _ _ _ _ _ Hp _ _ Hx Hc) as (j & d & _ & _ & _ & _ & _ & ?).
Qed.

Lemma honest_agent_run root s : ready root s -> trace_steps ->
  exists s', chain_act st agree s = (Ok tt, s') /\ reachable I root s' /\
    (forall i x, G.claimData s' !! i = Some x -> ours agree x = false -> G.countered x = true) /\
    forall later, (forall i c, G.claimData s' !! i = Some c -> expired I later c) ->
      chain_act (at_time later st) agree s' = (Ok tt, G.set_status (win agree) s').
Proof.
  intros Hr Htr. destruct (act_run _ _ Hr Htr) as (cs & s' & E & Hcs & Hp & Hst). exists s'. split; [done|].
  split; [apply Hp|]. split; [by eapply act_counters_all|]. intros later Hexp.
  assert (G.resolve I later s' = (Ok (win agree), G.set_status (win agree) s')) as Eres.
  { apply (answered_game_run I HD agree root); [apply Hp|apply Hp|done|by eapply act_counters_all|].
    intros Ha. split; [by apply (rd_leaves _ _ Hr)|]. by eapply act_keeps_leaves. }
  by apply (act_resolves agree (at_time later st)).
Qed.

(** C6: An agent with the trace of the VM wins every game that can still be won.  Take a game
    of a depth up to 62 that was initialized once and then went through any moves, steps and resolutions, is in
    progress and cannot be resolved yet, and has room for the answers.  Suppose that each
    claim of the other side that the agent has to answer can be answered: there is time
    left, and the contract has not seen the hash of the answer and will not see it twice;
    and that on the path above each leaf of the other side that is not countered, the own
    claims are those of an honest player.  Suppose further, if the agent challenges, that
    the root claim is wrong, and if it defends, that the last level is an own one and none
    of its leaves was stepped on: a defender on an odd depth loses even when it counters
    everything ([odd_depth_defender_loses]).  Then one run of the agent ends without error,
    in a game in which every claim of the other side is countered, by an answer or by a
    step; and when the clocks of that game have run out, the next run of the agent resolves
    it with the result that the agent expects. *)
Theorem honest_agent_wins root s : ready root s -> trace_steps ->
  exists s', chain_act st agree s = (Ok tt, s') /\ reachable I root s' /\
    (forall i x, G.claimData s' !! i = Some x -> ours agree x = false -> G.countered x = true) /\
    forall later, (forall i c, G.claimData s' !! i = Some c -> expired I later c) ->
      chain_act (at_time later st) agree s' = (Ok tt, G.set_status (win agree) s').
Proof. apply honest_agent_run. Qed.

(** C7: The agent sees the whole game.  On every game that was initialized once, whatever
    moves, steps and resolutions followed, it loads a tree whose claims are those of the
    contract, each once, and it takes an answer for a duplicate exactly when the contract
    has a claim with its value and position.  Of a game that was initialized again it loads
    nothing ([initialize_again_blinds_agents]). *)
Theorem agent_sees_every_claim root s : reachable I root s ->
  exists g cs, newGameFromContracts D agree s = (Ok g, s) /\ Claims g = Ok cs /\
    cs ≡ₚ imap (loaded (G.claimData s)) (G.claimData s) /\
    forall m, IsDuplicate g m = bool_decide (cl_ClaimData m ∈ datum <$> G.claimData s).
Proof.
  intros Hr. destruct (newGame_spec HD s agree (reachable_ok _ HD _ _ Hr)) as (g & cs & ? & ? & _ & ? & ?). by exists g, cs.
Qed.

(** ** A game that was initialized twice *)

(** A claim at the position of the root that is not the first one. *)
Definition second_root (s : G.t) : Prop :=
  (exists k c, G.claimData s !! S k = Some c /\ G.position c = 1) /\ Z.of_nat (length (G.claimData s)) <= G.no_parent + 1.

Lemma PutAll_root cs g : Exists (fun c => IsRoot c = true) cs -> exists e g', PutAll cs g = (Err e, g').
Proof.
  intros Hex. revert g. induction Hex as [c cs Hc|c cs _ IH]; intros g; simpl; unfold bind.
  - unfold Put, bind, get. rewrite Hc. simpl. by do 2 eexists.
  - assert (forall g, exists r g', Put c g = (r, g') /\ r <> Panic) as HP.
    { intros g1. unfold Put, bind, get, throw, put. destruct (_ || _); [by do 2 eexists|]. destruct (_ !! _); by do 2 eexists. }
    destruct (HP g) as ([[]|e|] & g1 & -> & Hr); [apply IH|by do 2 eexists|done].
Qed.

(** What the loader fetches, if it does. *)
Lemma fetch_claims_data n i s : exists r, fetch_claims n (Z.of_nat i) s = (r, s) /\
  match r with
  | Ok l => length l = n /\ forall j x, l !! j = Some x -> exists c, G.claimData s !! (i + j)%nat = Some c /\
      cl_Position x = NewPositionFromGIndex (u64 (G.position c))
  | Err _ => True
  | Panic => False
  end.
Proof.
  revert i. induction n as [|n IH]; intros i; simpl; [by eexists|].
  assert (exists r, fetchClaim (Z.of_nat i) s = (r, s) /\ match r with
    | Ok x => exists c, G.claimData s !! i = Some c /\ cl_Position x = NewPositionFromGIndex (u64 (G.position c))
    | Err _ => True | Panic => False end) as (r & Er & Hr).
  { unfold fetchClaim, bind. cbn [caller_ClaimData chain_caller]. unfold bind, get, lift, ret, G.claim_at. rewrite Nat2Z.id.
    destruct (G.claimData s !! i) as [c|]; [|by eexists]. cbn [f_Position f_Claim f_ParentIndex f_Countered f_Clock cd_Position].
    destruct (negb _); [destruct (G.claimData s !! Z.to_nat _)|]; eexists; (split; [done|]); by try eexists. }
  unfold bind. rewrite Er. destruct r as [x|e|]; [|by eexists|done]. replace (Z.of_nat i + 1) with (Z.of_nat (S i)) by lia.
  destruct (IH (S i)) as (r & -> & Hl). destruct r as [l|e|]; [|by eexists|done]. eexists. split; [done|]. destruct Hl as [Hlen Hl].
  split; [simpl; lia|]. intros [|j] y Hy; simpl in Hy.
  - injection Hy as <-. by rewrite Nat.add_0_r.
  - destruct (Hl _ _ Hy) as (c & Hc & Hpos). exists c. by rewrite Nat.add_succ_r.
Qed.

Lemma second_root_unloadable s : second_root s -> exists e, newGameFromContracts D agree s = (Err e, s).
Proof.
  intros [(k & c & Hc & Hpos) Hlen]. unfold newGameFromContracts, wrapE, bind. cbn [FetchClaims chain_loader]. unfold loader_FetchClaims, bind.
  cbn [caller_ClaimDataLen chain_caller]. unfold bind, get, ret.
  rewrite u64_small, Nat2Z.id by (unfold two64, G.no_parent in *; lia). change 0 with (Z.of_nat 0).
  destruct (fetch_claims_data (length (G.claimData s)) 0 s) as (r & -> & Hr). destruct r as [l|e|]; [|by eexists|done].
  cbn [map_err]. destruct Hr as [Hl Hdata]. pose proof (lookup_lt_Some _ _ _ Hc) as Hlt.
  destruct l as [|root rest]; [simpl in Hl; lia|]. simpl in Hl.
  destruct (lookup_lt_is_Some_2 rest k) as [x Hx]; [lia|].
  destruct (PutAll_root rest (NewGameState agree root D)) as (e & g' & ->); [|by eexists].
  apply Exists_exists. exists x. split; [by eapply list_elem_of_lookup_2|].
  destruct (Hdata (S k) x Hx) as (d & Hd & Ep). assert (d = c) as -> by (simpl in Hd; congruence).
  unfold IsRoot. rewrite Ep, Hpos. by vm_compute.
Qed.

Lemma initialize_second_root `{GO : G.GameOracles} t h n2 n1 s s' : game_ok I s -> G.initialize t h n2 n1 s = (Ok tt, s') -> second_root s'.
Proof.
  intros Hs E. assert (wp (G.initialize t h n2 n1) (fun _ s' => exists c, G.claimData s' = G.claimData s ++ [c] /\ G.position c = 1) s) as Hw.
  { unfold G.initialize. wp_steps. apply wp_lift. intros idx _. wp_steps.
    apply wp_lift. intros x _. wp_steps. apply wp_lift. intros y _. wp_steps. apply wp_lift. intros z _. wp_steps. by eexists. }
  destruct (wp_run _ _ _ _ _ Hw E) as (c & Ec & Hc). destruct (gk_root _ _ Hs) as (r & Hr & _). pose proof (gk_length _ _ Hs).
  split; rewrite Ec; [|rewrite length_app; simpl; lia]. destruct (G.claimData s) as [|r' l]; [done|]. exists (length l), c.
  split; [|done]. simpl. by rewrite lookup_app_r, Nat.sub_diag.
Qed.

Lemma game_step_second_root s s' : game_step I s s' -> second_root s -> second_root s'.
Proof.
  intros Hst [(k & c & Hc & Hpos) Hlen].
  assert (forall j, exists d, alter G.set_countered j (G.claimData s) !! S k = Some d /\ G.position d = 1) as Halt.
  { intros j. destruct (lookup_counter_fwd _ j _ _ Hc) as (d & Hd & _ & _ & E & _). exists d. by rewrite E. }
  destruct Hst as [t i h a s s' Hi Hl E|i a b pr s s' Hi E|t x s s' E].
  - destruct (wp_run _ _ _ _ _ (move_spec _ _ _ _ _ _) E) as (p & clk & _ & _ & _ & _ & _ & ->). unfold G.counter. simpl.
    split; simpl; [|rewrite length_alter, length_app; simpl; unfold G.no_parent in *; lia].
    destruct (lookup_counter_fwd (G.claimData s ++ [G.mkClaimData (u32 i) false h (LibPosition.move (G.position p) a mod 2 ^ 128) clk])
      (Z.to_nat i) (S k) c) as (d & Hd & _ & _ & Ed & _); [by apply lookup_app_l_Some|]. exists k, d. by rewrite Ed.
  - destruct (wp_run _ _ _ _ _ (step_spec _ _ _ _ _ _) E) as (p & post & _ & _ & _ & _ & ->).
    split; simpl; [|by rewrite length_alter]. destruct (Halt (Z.to_nat i)) as (d & Hd & Ed). by exists k, d.
  - destruct (wp_run _ _ _ _ _ (resolve_claims _ _ _) E) as (E1 & _). split; rewrite E1; [by exists k, c|done].
Qed.

(** C8: [initialize] has no guard, so that anyone can call it on a game that is being
    played.  It then adds the root claim again, and from then on, whatever is played, an
    agent that cannot resolve the game does nothing: loading the claims fails, because the
    game tree takes no second root. *)
Theorem initialize_again_blinds_agents `{GO : G.GameOracles} root t h n2 n1 s s1 s2 :
  reachable I root s -> G.initialize t h n2 n1 s = (Ok tt, s1) -> rtc (game_step I) s1 s2 ->
  (exists e, (G.resolve I now s2).1 = Err e) -> exists e, chain_act st agree s2 = (Err e, s2).
Proof.
  intros Hr E Hsteps [e He]. pose proof (initialize_second_root _ _ _ _ _ _ (reachable_ok _ HD _ _ Hr) E) as H1.
  assert (second_root s2) as H2 by (clear He E; induction Hsteps; eauto using game_step_second_root).
  destruct (second_root_unloadable _ H2) as [e' He']. unfold chain_act, Act, tryResolve, attempt, bind. cbn [CallResolve chain_responder].
  unfold responder_CallResolve, bind. cbn [txmgr_Call chain_txmgr eth_call]. fold I. rewrite He. cbn [result_map]. unfold ret at 1.
  unfold wrapE. fold I D. rewrite He'. by eexists.
Qed.
End Theorems.
