(* ===== verification/ChallengerExamples.v ===== *)
(** * The dispute game on concrete inputs

    A VM that adds one to a hash, a trace of sixteen steps and games of depth four: the
    theorems about the game and the challenger are applied to them, and two games that an
    honest side loses are played. *)
From stdpp Require Import relations.
From S2P Require Import Prelude GoErrors GoBytes EthTypes Geth Bits Evm Positions.
From S2P Require Import DisputeGame DisputeGameSpec DisputeHonest DisputeTheorems.
From S2P Require Import Challenger ChallengerSpec ChallengerOnchain ChallengerAct ChallengerTheorems.
#[local] Open Scope Z_scope.

(** ** The game *)

(** A hash that depends on every byte. *)
#[local] Instance toy_keccak : Keccak := {| Keccak256Hash bs := be_decode bs mod (2 ^ 61 - 1) |}.

Definition toy_step (st proof : Data) : result Hash := Ok (Keccak256Hash st + 1).
Definition toy_state (k : Z) : Data := be_encode 32 k.
Definition toy_trace (k : Z) : Hash := k + 1.
Definition toy_game (depth : Z) : G.Immutables := G.mkImmutables 0 depth 100 toy_step.
Definition toy_setting (depth : Z) : Setting :=
  {| game := toy_game depth; now := 20; trace := toy_trace; state_of := toy_state; proof_of := fun _ => [] |}.
Definition toy : Setting := toy_setting 4.

Lemma toy_steps : @trace_steps toy_keccak toy.
Proof.
  intros k Hk. cbn in Hk. assert (Forall (fun n => Keccak256Hash (toy_state (Z.of_nat n)) = Z.of_nat n) (seq 0 16)) as Hall by by_decide.
  rewrite Forall_forall in Hall. specialize (Hall (Z.to_nat k)). rewrite Z2Nat.id in Hall by lia.
  specialize (Hall ltac:(apply elem_of_seq; lia)). unfold prestate. cbn [trace state_of proof_of game toy toy_setting toy_game G.ABSOLUTE_PRESTATE G.VM_step].
  unfold toy_step, toy_trace. rewrite Hall. split; [case_if; lia|f_equal; lia].
Qed.

(** Moves of any player: a time, the index of a claim, a value, and attack or defense. *)
Fixpoint play (depth : Z) (l : list (Z * Z * Hash * bool)) (s : G.t) : option G.t :=
  match l with
  | [] => Some s
  | (t, i, h, a) :: l' =>
      if (0 <=? i) && (Z.of_nat (length (G.claimData s)) <? G.no_parent) then
        match G.move (toy_game depth) t i h a s with (Ok _, s') => play depth l' s' | _ => None end
      else None
  end.
Definition start (root : Hash) : G.t :=
  G.set_claimData [G.mkClaimData G.no_parent false root 1 (LibClock.wrap 0 10)] empty_game.

Lemma play_reachable depth root l s s' : reachable (toy_game depth) root s -> play depth l s = Some s' -> reachable (toy_game depth) root s'.
Proof.
  revert s. induction l as [|[[[t i] h] a] l IH]; intros s Hr E; simpl in E; [by injection E as <-|].
  destruct (_ && _) eqn:Eb; [|done]. destruct (G.move _ t i h a s) as [[[]|e|] s1] eqn:E1; [|done..].
  apply (IH s1); [|done]. eapply reachable_step; [done|]. eapply game_move; [| |exact E1]; lia.
Qed.
Lemma start_reachable depth root : reachable (toy_game depth) root (start root).
Proof. apply reachable_start. split; [done|]. split; [done|]. by exists 10. Qed.

(** A game against a wrong root claim: one of the claims of the proposer is not answered,
    and a leaf has to be stepped on. *)
Definition opening_moves : list (Z * Z * Hash * bool) :=
  [(11, 0, toy_trace 7, true); (12, 1, 98, true); (13, 2, toy_trace 1, true); (14, 3, 97, true); (15, 1, 96, false)].
Definition opening : G.t := default empty_game (play 4 opening_moves (start 99)).
Lemma opening_reachable : reachable (toy_game 4) 99 opening.
Proof. apply (play_reachable 4 99 opening_moves (start 99)); [apply start_reachable|]. by vm_compute. Qed.

(** A game about a right root claim, with an own leaf. *)
Definition defence_moves : list (Z * Z * Hash * bool) :=
  [(11, 0, 98, true); (12, 1, toy_trace 3, true); (13, 2, 97, true); (14, 3, toy_trace 0, true)].
Definition defence : G.t := default empty_game (play 4 defence_moves (start (toy_trace 15))).
Lemma defence_reachable : reachable (toy_game 4) (toy_trace 15) defence.
Proof. apply (play_reachable 4 _ defence_moves (start (toy_trace 15))); [apply start_reachable|]. by vm_compute. Qed.

(** Case analysis on a claim of a concrete game. *)
Ltac claim_cases i Hc :=
  vm_compute in Hc; destruct i as [|i]; [injection Hc as <-|first [discriminate Hc|claim_cases i Hc]].

(** Own claims that answer as the trace says make every path honest. *)
Definition honest_at (odd : bool) (s : G.t) (i : nat) (c : G.ClaimData) : bool :=
  negb (ours odd c) || (right_value (toy_game 4) toy_trace c &&
    match i, G.claimData s !! Z.to_nat (G.parentIndex c) with
    | O, _ => true
    | _, None => true
    | _, Some p => G.position c =? moved (negb (right_value (toy_game 4) toy_trace p)) (G.position p)
    end).

Lemma moved_inj a b p : moved a p = moved b p -> a = b.
Proof. unfold moved. destruct a, b; [done|lia|lia|done]. Qed.

Lemma honest_everywhere odd s i :
  forallb id (imap (honest_at odd s) (G.claimData s)) = true -> honest_path (toy_game 4) toy_trace odd (G.claimData s) i.
Proof.
  intros Hall k c _ Hc Ho. rewrite forallb_forall in Hall.
  assert (honest_at odd s k c = true) as Hk.
  { apply (Hall _). apply list_elem_of_In, list_elem_of_lookup. exists k. by rewrite list_lookup_imap, Hc. }
  unfold honest_at in Hk. rewrite Ho in Hk. cbn [negb orb] in Hk. apply andb_true_iff in Hk as [Hv Hp]. split; [done|].
  intros j p a Hk0 (Hj & Hi & Hpos & _). rewrite Hi, Nat2Z.id, Hj in Hp. destruct k as [|k]; [done|].
  rewrite Hpos, Z.eqb_eq in Hp. by apply moved_inj in Hp.
Qed.

(** ** Steps *)
Lemma honest_step_succeeds_witness :
  G.step (toy_game 4) 4 true (toy_state 0) [] opening = (Ok tt, G.counter 4 opening).
Proof.
  apply (honest_step_succeeds (toy_game 4) ltac:(by_decide) toy_trace true 99 opening 4 (G.mkClaimData 3 false 97 16 (LibClock.wrap 2 14)));
    [exact opening_reachable|by vm_compute..|by apply honest_everywhere; vm_compute|by vm_compute|by vm_compute].
Defined.

Lemma honest_leaf_safe_witness :
  G.step (toy_game 4) 4 true (toy_state 0) [] defence <> (Ok tt, G.counter 4 defence) /\
  G.step (toy_game 4) 4 false (toy_state 1) [] defence <> (Ok tt, G.counter 4 defence).
Proof.
  split; apply (honest_leaf_safe (toy_game 4) ltac:(by_decide) toy_trace false (toy_trace 15) defence 4
    (G.mkClaimData 3 false (toy_trace 0) 16 (LibClock.wrap 2 14)));
    first [exact defence_reachable|by apply honest_everywhere; vm_compute
          |intros st' proof' k post Hst E; change (Ok (Keccak256Hash st' + 1) = Ok post) in E; apply Ok_inj in E as <-; rewrite Hst;
           unfold prestate, toy_trace; cbn [toy_game G.ABSOLUTE_PRESTATE]; case_if; lia
          |by vm_compute].
Defined.

(** ** The agent *)
#[local] Existing Instance toy.

Lemma opening_ready : ready toy true 99 opening.
Proof.
  split.
  - exact opening_reachable.
  - by vm_compute.
  - eexists. by vm_compute.
  - by vm_compute.
  - intros i c Hc Ha Hn. claim_cases i Hc; vm_compute in Ha, Hn; try discriminate Ha; try discriminate Hn. split.
    + eexists. split; [by vm_compute|]. split; [by vm_compute|]. split; by vm_compute.
    + by_decide.
    + intros j d Hd Hj Hne. claim_cases j Hd; vm_compute in Hj; first [discriminate Hj|destruct Hne; reflexivity|vm_compute; discriminate].
  - intros i c Hc _. by apply honest_everywhere; vm_compute.
  - intros r Hr _. vm_compute in Hr. injection Hr as <-. by vm_compute.
  - done.
Qed.

(** The agent answers the claim that is not answered, and steps on the leaf. *)
Definition after : G.t := (chain_act toy true opening).2.

Lemma honest_agent_wins_witness :
  length (G.claimData after) = 7%nat /\ chain_act toy true opening = (Ok tt, after) /\
  chain_act (at_time 200 toy) true after = (Ok tt, G.set_status G.CHALLENGER_WINS after).
Proof.
  split; [by vm_compute|].
  destruct (honest_agent_wins toy ltac:(by_decide) true 99 opening opening_ready toy_steps) as (s' & E & _ & _ & Hwin).
  assert (s' = after) as -> by (unfold after; by rewrite E). split; [exact E|]. apply Hwin.
  intros i c Hc. claim_cases i Hc; split; vm_compute; done.
Defined.

Lemma after_answered : forall i c, G.claimData after !! i = Some c -> ours true c = false -> G.countered c = true.
Proof. intros i c Hc Ho. claim_cases i Hc; vm_compute in Ho |- *; done. Qed.

Lemma after_reachable : reachable (toy_game 4) 99 after.
Proof.
  destruct (honest_agent_run toy ltac:(by_decide) true 99 opening opening_ready toy_steps) as (s' & E & Hr & _).
  unfold after. by rewrite E.
Qed.

Lemma answered_game_is_won_witness :
  G.resolve (toy_game 4) 200 after = (Ok G.CHALLENGER_WINS, G.set_status G.CHALLENGER_WINS after).
Proof.
  apply (answered_game_is_won (toy_game 4) ltac:(by_decide) true 99 200 after after_reachable); [by vm_compute| |exact after_answered|done].
  intros i c Hc. claim_cases i Hc; split; vm_compute; done.
Defined.

Lemma agent_sees_every_claim_witness : exists g cs,
  newGameFromContracts 4 true opening = (Ok g, opening) /\ Claims g = Ok cs /\ length cs = 6%nat.
Proof.
  destruct (agent_sees_every_claim toy ltac:(by_decide) true 99 opening opening_reachable) as (g & cs & Hg & Hcs & Hp & _).
  exists g, cs. split; [exact Hg|]. split; [exact Hcs|]. rewrite (Permutation_length Hp), length_imap. vm_compute. reflexivity.
Defined.

(** ** The game initialized again *)
#[local] Instance toy_oracles : G.GameOracles := {|
  G.getL2OutputIndexAfter := fun _ => Ok 1;
  G.getL2Output := fun i => Ok (7, 5, i);
  G.BLOCK_ORACLE_load := fun _ => Ok (3, 6) |}.
Definition again : G.t := (G.initialize 16 99 1 1 opening).2.

Lemma initialize_again_blinds_agents_witness : length (G.claimData again) = 7%nat /\ exists e, chain_act toy true again = (Err e, again).
Proof.
  split; [by vm_compute|].
  apply (initialize_again_blinds_agents toy ltac:(by_decide) true 99 16 99 1 1 opening again again opening_reachable);
    [by vm_compute|reflexivity|eexists; by vm_compute].
Defined.

(** ** Bounds and positions *)
Lemma game_numbers_bounded_witness : 0 <= LibClock.duration (LibClock.wrap 2 14) <= 50 /\ 0 <= LibPosition.traceIndex 16 4 < 16.
Proof.
  destruct (game_numbers_bounded (toy_game 4) ltac:(by_decide) 99 opening 4 (G.mkClaimData 3 false 97 16 (LibClock.wrap 2 14)))
    as (Hclk & _ & _ & _ & Hi); [done|exact opening_reachable|by vm_compute|]. split; [exact Hclk|exact Hi].
Defined.

Lemma positions_agree_witness : ToGIndex (Defend (mkPosition 3 4)) = Ok 26 /\ TraceIndex (mkPosition 3 4) 4 = Ok 9.
Proof.
  destruct (positions_agree 4 (mkPosition 3 4)) as (_ & _ & _ & _ & Ht & _ & Hd); [done|split; [split|split]; done|].
  split; [rewrite Hd by done|rewrite Ht]; by vm_compute.
Defined.

(** ** Games that an honest side loses *)

(** Two wrong claims at one position: the answer to the second is the same claim as the
    answer to the first, so that the contract would refuse it and the agent does not try.
    When the answer to the first was attacked, the second decides the game: the agent,
    whose claims are all right, has nothing left to do, and the wrong root claim wins. *)
Definition doubled_moves : list (Z * Z * Hash * bool) :=
  [(11, 0, toy_trace 7, true); (12, 1, 98, true); (13, 2, toy_trace 1, true); (14, 3, 97, true); (15, 1, 95, true)].
Definition doubled : G.t := default empty_game (play 4 doubled_moves (start 99)).

Theorem duplicate_claim_defeats_agent :
  reachable (toy_game 4) 99 doubled /\ (forall i, honest_path (toy_game 4) toy_trace true (G.claimData doubled) i) /\
  exists s, chain_act toy true doubled = (Ok tt, s) /\ chain_act (at_time 21 toy) true s = (Ok tt, s) /\
    (G.resolve (toy_game 4) 200 s).1 = Ok G.DEFENDER_WINS.
Proof.
  split; [apply (play_reachable 4 99 doubled_moves (start 99)); [apply start_reachable|by vm_compute]|].
  split; [intros i; apply honest_everywhere; by vm_compute|].
  exists (chain_act toy true doubled).2. split; [by vm_compute|]. split; by vm_compute.
Qed.

(** When the last level belongs to the challengers, a defender that countered everything
    loses: no claim is left uncountered, and [resolve] takes that for the challenger's win. *)
Definition odd_game : G.t := default empty_game (play 1 [(11, 0, 98, true)] (start (toy_trace 1))).

Theorem odd_depth_defender_loses :
  reachable (toy_game 1) (toy_trace 1) odd_game /\
  exists s, chain_act (toy_setting 1) false odd_game = (Ok tt, s) /\
    Forall (fun c => G.countered c = true) (G.claimData s) /\ (G.resolve (toy_game 1) 200 s).1 = Ok G.CHALLENGER_WINS.
Proof.
  split; [apply (play_reachable 1 _ [(11, 0, 98, true)] (start (toy_trace 1))); [apply start_reachable|by vm_compute]|].
  exists (chain_act (toy_setting 1) false odd_game).2. split; [by vm_compute|]. split; [vm_compute; repeat constructor|by vm_compute].
Qed.
