(* ===== verification/Scheduler.v ===== *)
(** * The scheduler of the challenger

    [op-challenger/game]: the games that are played ([factory.go], [monitor.go]), their
    directories ([disk.go]), the coordinator that keeps their states
    ([scheduler/coordinator.go]), and the threads of the scheduler with their channels
    ([scheduler.go], [worker.go]) as a step relation.  The dispute game factory, players
    and hexadecimal addresses are interfaces. *)
From S2P Require Import Prelude GoErrors GoBytes EthTypes.
#[local] Open Scope Z_scope.

(** ** [factory.go] *)
Record FactoryGame := mkFactoryGame {
  fg_GameType : Z;
  fg_Timestamp : Z;
  fg_Proxy : Address }.

Class MinimalDisputeGameFactoryCaller (E : Type) := {
  GameCount : Z -> M E Z;
  GameAtIndex : Z -> Z -> M E FactoryGame }.

Section Factory.
Context {E : Type} `{MinimalDisputeGameFactoryCaller E}.

(** The loop of [FetchAllGamesAtBlock], from a number of games down. *)
Fixpoint fetch_games (i : nat) (earliestTimestamp blockNumber : Z) (games : list FactoryGame) : M E (list FactoryGame) :=
  match i with
  | O => ret games
  | S i' =>
      game <- wrapE (ErrWrap "failed to fetch game at index") (GameAtIndex blockNumber (i64 (Z.of_nat i'))) ;;
      if fg_Timestamp game <? earliestTimestamp then ret games
      else fetch_games i' earliestTimestamp blockNumber (games ++ [game])
  end.
Definition FetchAllGamesAtBlock (earliestTimestamp : Z) (blockNumber : option Z) : M E (list FactoryGame) :=
  match blockNumber with
  | None => throw (ErrNew "game loader missing block number")
  | Some blockNumber =>
      gameCount <- wrapE (ErrWrap "failed to fetch game count") (GameCount blockNumber) ;;
      if u64 gameCount =? 0 then ret []
      else fetch_games (Z.to_nat (u64 gameCount)) earliestTimestamp blockNumber []
  end.
End Factory.

(** ** [monitor.go] *)
Definition second : Z := 1000000000.
Definition ErrBusy : error := ErrNew "busy scheduling previous update".

(** [errors.Is] for this error. *)
Fixpoint is_ErrBusy (e : error) : bool :=
  match e with
  | ErrNew msg => bool_decide (msg = "busy scheduling previous update"%string)
  | ErrWrap _ e => is_ErrBusy e
  | _ => false
  end.

(** The clock in nanoseconds, and the scheduler. *)
Class MonitorEnv (E : Type) := {
  fetchBlockNumber : M E Z;
  clock_Now : M E Z;
  scheduler_Schedule : list Address -> M E unit }.

Record gameMonitor := mkMonitor {
  gameWindow : Z;
  allowedGames : list Address }.

Definition allowedGame (m : gameMonitor) (game : Address) : bool :=
  if (length (allowedGames m) =? 0)%nat then true else existsb (fun allowed => allowed =? game) (allowedGames m).

Section Monitor.
Context {E : Type} `{MinimalDisputeGameFactoryCaller E} `{MonitorEnv E}.

(** [minGameTimestamp], which reads the clock twice; durations in whole seconds. *)
Definition minGameTimestamp (m : gameMonitor) : M E Z :=
  if gameWindow m =? 0 then ret 0
  else
    now <- clock_Now ;;
    if Z.quot (gameWindow m) second <? now / second then
      now <- clock_Now ;;
      ret (u64 ((now - gameWindow m) / second))
    else ret 0.

Definition games_to_play (m : gameMonitor) (games : list FactoryGame) : list Address :=
  filter (fun a => allowedGame m a = true) (fg_Proxy <$> games).

Definition monitor_progressGames (m : gameMonitor) (blockNum : Z) : M E unit :=
  earliest <- minGameTimestamp m ;;
  games <- wrapE (ErrWrap "failed to load games") (FetchAllGamesAtBlock earliest (Some blockNum)) ;;
  r <- attempt (scheduler_Schedule (games_to_play m games)) ;;
  match r with
  | inl _ => ret tt
  | inr e => if is_ErrBusy e then ret tt else throw (ErrWrap "failed to schedule games" e)
  end.

(** A round of the loop of [MonitorGames], from the number of the last block seen; errors
    are logged, and the sleep between rounds is omitted. *)
Definition monitor_round (m : gameMonitor) (blockNum : Z) : M E Z :=
  r <- attempt fetchBlockNumber ;;
  match r with
  | inr _ => ret blockNum
  | inl nextBlockNum =>
      if blockNum <? nextBlockNum then
        attempt (monitor_progressGames m nextBlockNum) ;;;
        ret nextBlockNum
      else ret blockNum
  end.
End Monitor.

(** ** [disk.go] *)
Class HexAddress := {
  Hex : Address -> string;
  HexToAddress : string -> Address }.
Class LawfulHexAddress `{HexAddress} := HexToAddress_Hex : forall a, 0 <= a < 2 ^ 160 -> HexToAddress (Hex a) = a.

Definition gameDirPrefix : string := "game-".

(** A directory: the names in it, whether they are directories, and the names that the
    operating system refuses to remove. *)
Record directory := mkDirectory {
  dir_entries : list (string * bool);
  dir_locked : list string }.

Section Disk.
Context `{HexAddress}.

Definition dir_name (addr : Address) : string := (gameDirPrefix ++ Hex addr)%string.

Definition os_RemoveAll (name : string) : M directory unit :=
  d <- get ;;
  if bool_decide (name ∈ dir_locked d) then throw (ErrNew "remove")
  else put (mkDirectory (filter (fun e => e.1 <> name) (dir_entries d)) (dir_locked d)).

(** What the loop of [RemoveAllExcept] does with an entry; errors are joined. *)
Definition removes (keep : list Address) (e : string * bool) : bool :=
  let '(name, is_dir) := e in
  if negb is_dir || negb (String.prefix gameDirPrefix name) then false
  else
    let addr := HexToAddress (String.substring 5 (String.length name - 5) name) in
    if addr =? 0 then false
    else negb (bool_decide (addr ∈ keep)).
Fixpoint remove_entries (keep : list Address) (entries : list (string * bool)) : M directory (list error) :=
  match entries with
  | [] => ret []
  | e :: entries' =>
      if removes keep e then
        r <- attempt (os_RemoveAll e.1) ;;
        errs <- remove_entries keep entries' ;;
        ret (match r with inl _ => errs | inr err => err :: errs end)
      else remove_entries keep entries'
  end.
Definition disk_RemoveAllExcept (keep : list Address) : M directory unit :=
  d <- get ;;
  errs <- remove_entries keep (dir_entries d) ;;
  match errs with [] => ret tt | _ => throw (ErrMulti errs) end.
End Disk.

(** ** [coordinator.go] *)
Class Players (E P : Type) := {
  DirForGame : Address -> string;
  createPlayer : Address -> string -> M E P;
  player_ProgressGame : P -> M E bool;
  disk_Remove : list Address -> M E unit }.

Record game_state (P : Type) := mkState {
  gst_player : option P;
  gst_inflight : bool;
  gst_resolved : bool }.
Arguments mkState {P} _ _ _.
Arguments gst_player {P} _.
Arguments gst_inflight {P} _.
Arguments gst_resolved {P} _.

Record job (P : Type) := mkJob {
  job_addr : Address;
  job_player : P;
  job_resolved : bool }.
Arguments mkJob {P} _ _ _.
Arguments job_addr {P} _.
Arguments job_player {P} _.
Arguments job_resolved {P} _.

Record coordinator (E P : Type) := mkCoordinator {
  co_states : gmap Address (game_state P);
  co_env : E }.
Arguments mkCoordinator {E P} _ _.
Arguments co_states {E P} _.
Arguments co_env {E P} _.

Section Coordinator.
Context {E P : Type} `{Players E P}.

Definition set_state (a : Address) (st : game_state P) (c : coordinator E P) : coordinator E P :=
  mkCoordinator (<[a := st]> (co_states c)) (co_env c).
Definition on_env {A} (m : M E A) : M (coordinator E P) A := zoom co_env (fun e c => mkCoordinator (co_states c) e) m.

(** The games that are not wanted any more and not in flight are forgotten. *)
Definition forget_games (games : list Address) (c : coordinator E P) : coordinator E P :=
  mkCoordinator (filter (fun x => gst_inflight x.2 = true \/ x.1 ∈ games) (co_states c)) (co_env c).

Definition new_state : game_state P := mkState None false false.
Definition createJob (game : Address) : M (coordinator E P) (option (job P)) :=
  modify (fun c => match co_states c !! game with Some _ => c | None => set_state game new_state c end) ;;;
  c <- get ;;
  let state := default new_state (co_states c !! game) in
  if gst_inflight state then ret None
  else
    player <- match gst_player state with
              | Some p => ret p
              | None => wrapE (ErrWrap "failed to create game player") (on_env (createPlayer game (DirForGame game)))
              end ;;
    modify (set_state game (mkState (Some player) true (gst_resolved state))) ;;;
    ret (Some (mkJob game player false)).

Definition keepGames (states : gmap Address (game_state P)) : list Address :=
  fst <$> filter (fun x => gst_resolved x.2 = false \/ gst_inflight x.2 = true) (map_to_list states).
Definition deleteResolvedGameFiles : M (coordinator E P) unit :=
  c <- get ;;
  attempt (on_env (disk_Remove (keepGames (co_states c)))) ;;;
  ret tt.

Definition processResult (j : job P) : M (coordinator E P) unit :=
  c <- get ;;
  match co_states c !! job_addr j with
  | None => throw (ErrWrap "received unexpected result" (ErrNew "unknown game"))
  | Some state =>
      modify (set_state (job_addr j) (mkState (gst_player state) false (job_resolved j))) ;;;
      deleteResolvedGameFiles
  end.
End Coordinator.

(** ** [scheduler.go] and [worker.go] *)

(** Where the loop is: waiting, in [schedule] with games for which to create a job and the
    jobs created, in [schedule] with jobs to put on the queue, or returned. *)
Inductive control (P : Type) :=
  | Waiting
  | Creating (games : list Address) (jobs : list (job P))
  | Enqueuing (jobs : list (job P))
  | Stopped.
Arguments Waiting {P}.
Arguments Creating {P} _ _.
Arguments Enqueuing {P} _.
Arguments Stopped {P}.

(** Where a worker is: waiting for a job, playing it, sending the result, or returned. *)
Inductive worker (P : Type) :=
  | Ready
  | Playing (j : job P)
  | Sending (j : job P)
  | Exited.
Arguments Ready {P}.
Arguments Playing {P} _.
Arguments Sending {P} _.
Arguments Exited {P}.

Record scheduler (E P : Type) := mkScheduler {
  s_coordinator : coordinator E P;
  s_scheduleQueue : option (list Address);
  s_jobQueue : list (job P);
  s_resultQueue : list (job P);
  s_loop : control P;
  s_workers : list (worker P);
  s_cancelled : bool }.
Arguments mkScheduler {E P} _ _ _ _ _ _ _.
Arguments s_coordinator {E P} _.
Arguments s_scheduleQueue {E P} _.
Arguments s_jobQueue {E P} _.
Arguments s_resultQueue {E P} _.
Arguments s_loop {E P} _.
Arguments s_workers {E P} _.
Arguments s_cancelled {E P} _.

Section Scheduler.
Context {E P : Type} `{Players E P}.
Variable maxConcurrency : nat.

(** The capacity of the queues of jobs and results. *)
Definition capacity : nat := (maxConcurrency * 2)%nat.

Definition NewScheduler (env : E) : scheduler E P :=
  mkScheduler (mkCoordinator ∅ env) None [] [] Waiting (replicate maxConcurrency Ready) false.

(** [Schedule]: refused while the previous update was not taken. *)
Definition Schedule (games : list Address) : M (scheduler E P) unit :=
  s <- get ;;
  match s_scheduleQueue s with
  | None => put (mkScheduler (s_coordinator s) (Some games) (s_jobQueue s) (s_resultQueue s) (s_loop s) (s_workers s) (s_cancelled s))
  | Some _ => throw ErrBusy
  end.

(** A result that the loop takes, in [loop] or in [enqueueJob]; its error is logged. *)
Definition after_result (c : coordinator E P) (j : job P) : coordinator E P := (processResult j c).2.

(** The steps of the loop. *)
Inductive loop_step : scheduler E P -> scheduler E P -> Prop :=
  | loop_schedule c games jq rq ws x :
      loop_step (mkScheduler c (Some games) jq rq Waiting ws x)
                (mkScheduler (forget_games games c) None jq rq (Creating games []) ws x)
  | loop_result c sq jq j rq ws x :
      loop_step (mkScheduler c sq jq (j :: rq) Waiting ws x) (mkScheduler (after_result c j) sq jq rq Waiting ws x)
  | loop_return c sq jq rq ws :
      loop_step (mkScheduler c sq jq rq Waiting ws true) (mkScheduler c sq jq rq Stopped ws true)
  | loop_create c sq jq rq game games jobs ws x c' r :
      createJob game c = (Ok r, c') ->
      loop_step (mkScheduler c sq jq rq (Creating (game :: games) jobs) ws x)
                (mkScheduler c' sq jq rq (Creating games (match r with Some j => jobs ++ [j] | None => jobs end)) ws x)
  | loop_create_error c sq jq rq game games jobs ws x c' e :
      createJob game c = (Err e, c') ->
      loop_step (mkScheduler c sq jq rq (Creating (game :: games) jobs) ws x)
                (mkScheduler c' sq jq rq (Creating games jobs) ws x)
  | loop_created c sq jq rq jobs ws x :
      loop_step (mkScheduler c sq jq rq (Creating [] jobs) ws x) (mkScheduler c sq jq rq (Enqueuing jobs) ws x)
  | loop_enqueue c sq jq rq j jobs ws x :
      (length jq < capacity)%nat ->
      loop_step (mkScheduler c sq jq rq (Enqueuing (j :: jobs)) ws x) (mkScheduler c sq (jq ++ [j]) rq (Enqueuing jobs) ws x)
  | loop_enqueue_result c sq jq r rq j jobs ws x :
      loop_step (mkScheduler c sq jq (r :: rq) (Enqueuing (j :: jobs)) ws x)
                (mkScheduler (after_result c r) sq jq rq (Enqueuing (j :: jobs)) ws x)
  | loop_enqueue_cancelled c sq jq rq j jobs ws :
      loop_step (mkScheduler c sq jq rq (Enqueuing (j :: jobs)) ws true) (mkScheduler c sq jq rq (Enqueuing jobs) ws true)
  | loop_scheduled c sq jq rq ws x :
      loop_step (mkScheduler c sq jq rq (Enqueuing []) ws x) (mkScheduler c sq jq rq Waiting ws x).

(** The steps of a worker. *)
Inductive worker_step : scheduler E P -> scheduler E P -> Prop :=
  | worker_take c sq j jq rq l ws ws' x :
      worker_step (mkScheduler c sq (j :: jq) rq l (ws ++ Ready :: ws') x) (mkScheduler c sq jq rq l (ws ++ Playing j :: ws') x)
  | worker_play c sq jq rq l ws j ws' x b env' :
      player_ProgressGame (job_player j) (co_env c) = (Ok b, env') ->
      worker_step (mkScheduler c sq jq rq l (ws ++ Playing j :: ws') x)
                  (mkScheduler (mkCoordinator (co_states c) env') sq jq rq l
                    (ws ++ Sending (mkJob (job_addr j) (job_player j) b) :: ws') x)
  | worker_send c sq jq rq l ws j ws' x :
      (length rq < capacity)%nat ->
      worker_step (mkScheduler c sq jq rq l (ws ++ Sending j :: ws') x) (mkScheduler c sq jq (rq ++ [j]) l (ws ++ Ready :: ws') x)
  | worker_return c sq jq rq l ws ws' :
      worker_step (mkScheduler c sq jq rq l (ws ++ Ready :: ws') true) (mkScheduler c sq jq rq l (ws ++ Exited :: ws') true).

(** The steps of the threads that the scheduler started, and those of its callers. *)
Definition internal_step (s s' : scheduler E P) : Prop := loop_step s s' \/ worker_step s s'.
Inductive caller_step : scheduler E P -> scheduler E P -> Prop :=
  | caller_schedule games s s' : Schedule games s = (Ok tt, s') -> caller_step s s'
  | caller_cancel c sq jq rq l ws x : caller_step (mkScheduler c sq jq rq l ws x) (mkScheduler c sq jq rq l ws true).

Inductive sched_reachable : scheduler E P -> Prop :=
  | sched_start env : sched_reachable (NewScheduler env)
  | sched_next s s' : sched_reachable s -> internal_step s s' \/ caller_step s s' -> sched_reachable s'.
End Scheduler.
