(* ===== verification/SchedulerSpec.v ===== *)
(** * Scheduling games

    In every state of the scheduler that can be reached each game has at most one job, the
    files of a game with a job are not deleted, and without new calls the threads always
    come to rest with every job played and its result processed. *)
From stdpp Require Import relations list_tactics.
From stdpp Require Import sorting.
From S2P Require Import Prelude GoErrors GoBytes EthTypes Scheduler.
#[local] Open Scope Z_scope.

Section Spec.
Context {E P : Type} `{Players E P}.

(** ** What the coordinator knows of the games with a job *)

(** The games [l] are in flight, each with one job; no others are, unless the scheduler is
    being closed. *)
Definition tracks (x : bool) (c : coordinator E P) (l : list Address) : Prop :=
  NoDup l /\ (forall a, a ∈ l -> exists st, co_states c !! a = Some st /\ gst_inflight st = true) /\
  (x = false -> forall a st, co_states c !! a = Some st -> gst_inflight st = true -> a ∈ l).

#[export] Instance tracks_proper x c : Proper ((≡ₚ) ==> iff) (tracks x c).
Proof.
  assert (forall l1 l2, l1 ≡ₚ l2 -> tracks x c l1 -> tracks x c l2) as Himp.
  { intros l1 l2 Hl (H1 & H2 & H3). split; [by rewrite <- Hl|]. split.
    - intros a Ha. apply H2. by rewrite Hl.
    - intros Hx a st Ha Hi. rewrite <- Hl. eauto. }
  intros l1 l2 Hl. split; by apply Himp.
Qed.

Lemma tracks_env x c l e : tracks x c l -> tracks x (mkCoordinator (co_states c) e) l.
Proof. done. Qed.

Lemma tracks_forget x c l games : tracks x c l -> tracks x (forget_games games c) l.
Proof.
  intros (H1 & H2 & H3). split; [done|]. split.
  - intros a Ha. destruct (H2 a Ha) as (st & Hst & Hi). exists st. split; [|done]. simpl. apply map_lookup_filter_Some. auto.
  - intros Hx a st Ha Hi. simpl in Ha. apply map_lookup_filter_Some in Ha as [Ha _]. eauto.
Qed.

(** Setting the state of one game. *)
Lemma tracks_set_inflight x c l a st : tracks x c l -> a ∉ l -> gst_inflight st = true -> tracks x (set_state a st c) (a :: l).
Proof.
  intros (H1 & H2 & H3) Ha Hi. split; [by constructor|]. split.
  - intros b [->|Hb]%elem_of_cons; simpl; [rewrite lookup_insert_eq; eauto|]. rewrite lookup_insert_ne by congruence. auto.
  - intros Hx b st' Hb Hi'. simpl in Hb. destruct (decide (a = b)) as [->|Hne]; [by left|right].
    rewrite lookup_insert_ne in Hb by done. eauto.
Qed.
Lemma tracks_set_idle x c l a st : tracks x c l -> a ∉ l -> gst_inflight st = false -> tracks x (set_state a st c) l.
Proof.
  intros (H1 & H2 & H3) Ha Hi. split; [done|]. split.
  - intros b Hb. simpl. rewrite lookup_insert_ne by congruence. auto.
  - intros Hx b st' Hb Hi'. simpl in Hb. destruct (decide (a = b)) as [->|Hne].
    + rewrite lookup_insert_eq in Hb. congruence.
    + rewrite lookup_insert_ne in Hb by done. eauto.
Qed.

(** A job is created for a game that has none. *)
Lemma tracks_create x c l game r c' : createJob game c = (r, c') -> tracks x c l ->
  match r with Ok (Some j) => job_addr j = game /\ tracks x c' (game :: l) | _ => tracks x c' l end.
Proof.
  intros E1 Hl. unfold createJob, bind, modify, get in E1.
  set (c1 := match co_states c !! game with Some _ => c | None => _ end) in E1.
  assert (tracks x c1 l /\ is_Some (co_states c1 !! game)) as [Hl1 [st Hst]].
  { subst c1. destruct (co_states c !! game) as [st|] eqn:Hst; [eauto|]. split; [|simpl; rewrite lookup_insert_eq; eauto].
    apply tracks_set_idle; [done| |done]. intros Ha. destruct Hl as (_ & H2 & _). destruct (H2 _ Ha) as (? & ? & _). congruence. }
  clearbody c1. rewrite Hst in E1. simpl in E1. destruct (gst_inflight st) eqn:Hi; [by injection E1 as <- <-|].
  assert (game ∉ l) as Hnin.
  { intros Ha. destruct Hl1 as (_ & H2 & _). destruct (H2 _ Ha) as (? & ? & ?). congruence. }
  assert (exists r c2, match gst_player st with
     | Some p => ret p
     | None => wrapE (ErrWrap "failed to create game player") (on_env (createPlayer game (DirForGame game))) end c1 = (r, c2) /\
     tracks x c2 l) as (r2 & c2 & E2 & Hl2).
  { destruct (gst_player st); [by do 2 eexists|]. unfold wrapE, on_env, zoom. destruct (createPlayer _ _ _) as [r2 e2].
    do 2 eexists. split; [done|]. by apply tracks_env. }
  rewrite E2 in E1. destruct r2; injection E1 as <- <-; [|done..]. split; [done|]. by apply tracks_set_inflight.
Qed.

(** A result is always one of a game that the coordinator knows. *)
Lemma tracks_result x c l j : tracks x c (job_addr j :: l) ->
  tracks x (after_result c j) l /\ forall e, (processResult j c).1 <> Err e.
Proof.
  intros Hl. pose proof Hl as (H1 & H2 & _). destruct (H2 (job_addr j)) as (st & Hst & Hi); [by left|].
  apply NoDup_cons in H1 as [Hnin Hnd].
  assert (tracks x (set_state (job_addr j) (mkState (gst_player st) false (job_resolved j)) c) l) as Hl'.
  { destruct Hl as (_ & H2' & H3). split; [done|]. split.
    - intros a Ha. simpl. rewrite lookup_insert_ne by congruence. apply H2'. by right.
    - intros Hx a st' Ha Hi'. simpl in Ha. destruct (decide (job_addr j = a)) as [<-|Hne].
      + rewrite lookup_insert_eq in Ha. by injection Ha as <-.
      + rewrite lookup_insert_ne in Ha by done. destruct (elem_of_cons l a (job_addr j)) as [Hc _].
        destruct (Hc (H3 Hx _ _ Ha Hi')); [congruence|done]. }
  unfold after_result, processResult, bind, get, modify. rewrite Hst. unfold deleteResolvedGameFiles, bind, get, attempt, on_env, zoom.
  destruct (disk_Remove _ _) as [[]]; simpl; (split; [exact Hl'|done]).
Qed.

Lemma tracks_drop c a l : tracks true c (a :: l) -> tracks true c l.
Proof.
  intros (H1 & H2 & _). split; [by apply NoDup_cons in H1 as [_ ?]|]. split; [|done]. intros b Hb. apply H2. by right.
Qed.
Lemma tracks_cancel x c l : tracks x c l -> tracks true c l.
Proof. intros (H1 & H2 & _). done. Qed.

(** ** The invariant of the scheduler *)
Variable maxConcurrency : nat.
Abbreviation capacity := (capacity maxConcurrency).

Definition loop_jobs (l : control P) : list (job P) :=
  match l with Creating _ jobs | Enqueuing jobs => jobs | _ => [] end.
Definition worker_jobs (w : worker P) : list (job P) := match w with Playing j | Sending j => [j] | _ => [] end.

(** The jobs that were created and whose result was not processed. *)
Definition outstanding (s : scheduler E P) : list (job P) :=
  loop_jobs (s_loop s) ++ s_jobQueue s ++ (s_workers s ≫= worker_jobs) ++ s_resultQueue s.

Record sched_ok (s : scheduler E P) : Prop := {
  so_tracks : tracks (s_cancelled s) (s_coordinator s) (job_addr <$> outstanding s);
  so_jobs : (length (s_jobQueue s) <= capacity)%nat;
  so_results : (length (s_resultQueue s) <= capacity)%nat;
  so_workers : length (s_workers s) = maxConcurrency }.

Lemma bind_replicate_Ready n : (replicate n (@Ready P)) ≫= worker_jobs = [].
Proof. induction n; [done|]. simpl. done. Qed.

Lemma NewScheduler_ok env : sched_ok (NewScheduler maxConcurrency env).
Proof.
  split; simpl; [|lia|lia|by rewrite length_replicate]. unfold outstanding. simpl. rewrite bind_replicate_Ready.
  split; [constructor|]. split; [by intros a ?%not_elem_of_nil|]. intros _ a st. simpl. by rewrite lookup_empty.
Qed.

(** The games with a job are the same, in another order. *)
Ltac same_jobs Ht :=
  unfold outstanding in *; csimpl in *; rewrite ?bind_app, ?bind_cons in *; csimpl in *;
  refine (proj1 (tracks_proper _ _ _ _ _) Ht); repeat (rewrite fmap_app || rewrite fmap_cons); csimpl; solve_Permutation.

Lemma loop_step_ok s s' : loop_step maxConcurrency s s' -> sched_ok s -> sched_ok s'.
Proof.
  intros Hst [Ht Hj Hr Hw]. destruct Hst; unfold outstanding in *; csimpl in *; split; simpl; rewrite ?length_app; simpl; try done; try lia.
  - by apply tracks_forget.
  - apply (tracks_result x c _ j). same_jobs Ht.
  - pose proof (tracks_create _ _ _ _ _ _ H0 Ht) as Hc. destruct r as [j|]; [|done]. destruct Hc as [Ea Hc]. rewrite <- Ea in Hc. same_jobs Hc.
  - by pose proof (tracks_create _ _ _ _ _ _ H0 Ht) as Hc.
  - same_jobs Ht.
  - apply (tracks_result x c _ r). same_jobs Ht.
  - by apply tracks_drop in Ht.
Qed.

Lemma worker_step_ok s s' : worker_step maxConcurrency s s' -> sched_ok s -> sched_ok s'.
Proof.
  intros Hst [Ht Hj Hr Hw]. destruct Hst; unfold outstanding in *; csimpl in *; rewrite ?length_app in Hw; simpl in Hw;
    split; simpl; rewrite ?length_app; simpl; try done; try lia.
  - same_jobs Ht.
  - apply tracks_env. same_jobs Ht.
  - same_jobs Ht.
  - same_jobs Ht.
Qed.

Lemma caller_step_ok s s' : caller_step s s' -> sched_ok s -> sched_ok s'.
Proof.
  intros Hst [Ht Hj Hr Hw]. destruct Hst as [games s s' Es|]; [|split; try done; by eapply tracks_cancel].
  unfold Schedule, bind, get, put, throw in Es. destruct (s_scheduleQueue s); [done|]. injection Es as <-. by split.
Qed.

Lemma sched_reachable_ok s : sched_reachable maxConcurrency s -> sched_ok s.
Proof.
  induction 1 as [env|s s' _ IH [[Hst|Hst]|Hst]]; [apply NewScheduler_ok|eauto using loop_step_ok, worker_step_ok, caller_step_ok..].
Qed.

(** ** Coming to rest *)

(** No step of the threads leaves this measure as it is. *)
Definition loop_weight (l : control P) : nat :=
  match l with
  | Stopped => 0
  | Waiting => 1
  | Enqueuing jobs => 2 + 6 * length jobs
  | Creating games jobs => 3 + 8 * length games + 6 * length jobs
  end.
Definition worker_weight (w : worker P) : nat := match w with Exited => 0 | Ready => 1 | Sending _ => 4 | Playing _ => 5 end.
Definition work (s : scheduler E P) : nat :=
  (match s_scheduleQueue s with Some games => 4 + 8 * length games | None => 0 end) + loop_weight (s_loop s) +
  5 * length (s_jobQueue s) + sum_list_with worker_weight (s_workers s) + length (s_resultQueue s).

Lemma internal_step_work s s' : internal_step maxConcurrency s s' -> (work s' < work s)%nat.
Proof.
  intros [Hst|Hst]; destruct Hst; unfold work; simpl; rewrite ?sum_list_with_app, ?length_app; simpl; rewrite ?sum_list_with_app; simpl; try lia.
  destruct r; rewrite ?length_app; simpl; lia.
Qed.

Lemma nsteps_work n s s' : nsteps (internal_step maxConcurrency) n s s' -> (n + work s' <= work s)%nat.
Proof. induction 1 as [|n s1 s2 s3 Hst _ IH]; [lia|]. apply internal_step_work in Hst. lia. Qed.

(** Creating and playing do not panic, and playing a game has no error. *)
Class LawfulPlayers := {
  createPlayer_returns a dir e : (createPlayer a dir e).1 <> Panic;
  ProgressGame_returns p e : exists b e', player_ProgressGame p e = (Ok b, e') }.

Definition at_rest (s : scheduler E P) : Prop :=
  s_scheduleQueue s = None /\ s_loop s = Waiting /\ s_jobQueue s = [] /\ s_resultQueue s = [] /\
  s_workers s = replicate maxConcurrency Ready /\
  forall a st, co_states (s_coordinator s) !! a = Some st -> gst_inflight st = false.

Lemma createJob_returns `{LawfulPlayers} a c : (createJob a c).1 <> Panic.
Proof.
  unfold createJob, bind, modify, get. set (c1 := match co_states c !! a with Some _ => c | None => _ end). clearbody c1.
  destruct (gst_inflight _); [done|]. destruct (gst_player _); [done|]. unfold wrapE, on_env, zoom.
  pose proof (createPlayer_returns a (DirForGame a) (co_env c1)) as Hr. destruct (createPlayer _ _ _) as [[p|e|] e']; done.
Qed.

(** Without work to be done by a thread, everything is done. *)
Lemma stuck_workers c sq jq rq l ws : LawfulPlayers ->
  (forall s', ~ worker_step maxConcurrency (mkScheduler c sq jq rq l ws false) s') -> (length rq < capacity)%nat ->
  Forall (fun w => w = Ready \/ w = Exited) ws /\ (Ready ∈ ws -> jq = []).
Proof.
  intros Hlaw Hno Hcap. split.
  - apply Forall_forall. intros w (ws1 & ws2 & ->)%list_elem_of_split. destruct w as [|j|j|]; [by left| | |by right]; exfalso.
    + destruct (ProgressGame_returns (job_player j) (co_env c)) as (b & e' & Ep). eapply Hno. by apply worker_play.
    + eapply Hno. by apply worker_send.
  - intros (ws1 & ws2 & ->)%list_elem_of_split. destruct jq as [|j jq]; [done|]. exfalso. eapply Hno. apply worker_take.
Qed.

Lemma no_exited s : sched_reachable maxConcurrency s -> s_cancelled s = false -> (Exited ∉ s_workers s) /\ s_loop s <> Stopped.
Proof.
  induction 1 as [env|s s' _ IH [[Hst|Hst]|Hst]].
  - intros _. simpl. split; [|done]. by intros [? _]%elem_of_replicate.
  - destruct Hst; simpl in *; intros Hx; (done || by destruct (IH Hx)).
  - destruct Hst; simpl in *; intros Hx; (done || (destruct (IH Hx) as [Hw Hl]; split; [set_solver|done])).
  - destruct Hst as [games s s' Es|]; [|done]. unfold Schedule, bind, get, put, throw in Es. destruct (s_scheduleQueue s); [done|].
    injection Es as <-. exact IH.
Qed.

Lemma stuck_at_rest s : LawfulPlayers -> (0 < maxConcurrency)%nat -> sched_reachable maxConcurrency s -> s_cancelled s = false ->
  (forall s', ~ internal_step maxConcurrency s s') -> at_rest s.
Proof.
  intros Hlaw Hmc Hr Hx Hno. pose proof (sched_reachable_ok _ Hr) as [Ht Hj Hrq Hw]. destruct (no_exited _ Hr Hx) as [Hexit Hstop].
  destruct s as [c sq jq rq l ws x]. simpl in *. subst x.
  assert (forall s', ~ worker_step maxConcurrency (mkScheduler c sq jq rq l ws false) s') as Hnw by (intros s' Hs; apply (Hno s'); by right).
  assert (forall s', ~ loop_step maxConcurrency (mkScheduler c sq jq rq l ws false) s') as Hnl by (intros s' Hs; apply (Hno s'); by left).
  assert (rq = [] \/ exists j rq', rq = j :: rq') as Hrqc by (destruct rq; eauto).
  assert (l = Waiting \/ (exists j jobs, l = Enqueuing (j :: jobs) /\ (capacity <= length jq)%nat /\ rq = [])) as Hl.
  { destruct l as [|[|game games] jobs|[|j jobs]|]; [by left|exfalso; eapply Hnl, loop_created|exfalso| exfalso; eapply Hnl, loop_scheduled| |done].
    - pose proof (createJob_returns game c) as Hc. destruct (createJob game c) as [[r|e|] c'] eqn:Ec; [|by eapply Hnl, loop_create_error|done].
      by eapply Hnl, loop_create.
    - right. exists j, jobs. split; [done|]. split.
      + destruct (decide (length jq < capacity)%nat); [exfalso; by eapply Hnl, loop_enqueue|lia].
      + destruct Hrqc as [?|(r & rq' & ->)]; [done|]. exfalso. eapply Hnl, loop_enqueue_result. }
  assert (rq = []) as ->.
  { destruct Hl as [->|(j & jobs & _ & _ & ?)]; [|done]. destruct Hrqc as [?|(r & rq' & ->)]; [done|]. exfalso. eapply Hnl, loop_result. }
  destruct (stuck_workers _ _ _ _ _ _ Hlaw Hnw) as [Hready Hjq]; [unfold Scheduler.capacity; simpl; lia|].
  assert (ws = replicate maxConcurrency Ready) as Hws.
  { symmetry. rewrite <- Hw. apply replicate_as_elem_of. split; [done|]. intros w Hin. rewrite Forall_forall in Hready.
    destruct (Hready w Hin) as [?|E1]; [done|]. by subst w. }
  assert (jq = []) as ->.
  { apply Hjq. rewrite Hws. apply elem_of_replicate. split; [done|lia]. }
  destruct Hl as [->|(j & jobs & -> & Hcap & _)]; [|simpl in Hcap; unfold Scheduler.capacity in Hcap; lia].
  assert (sq = None) as -> by (destruct sq as [games|]; [exfalso; eapply Hnl, loop_schedule|done]).
  do 4 (split; [done|]). split; [done|]. intros a st Ha. simpl in *.
  destruct (gst_inflight st) eqn:Hi; [|done]. destruct Ht as (_ & _ & H3). specialize (H3 eq_refl a st Ha Hi).
  unfold outstanding in H3. simpl in H3. rewrite Hws, bind_replicate_Ready in H3. by apply not_elem_of_nil in H3.
Qed.

Lemma internal_step_cancelled s s' : internal_step maxConcurrency s s' -> s_cancelled s' = s_cancelled s.
Proof. by intros [[]|[]]. Qed.

Lemma rtc_internal s s' : rtc (internal_step maxConcurrency) s s' -> sched_reachable maxConcurrency s ->
  sched_reachable maxConcurrency s' /\ s_cancelled s' = s_cancelled s.
Proof.
  induction 1 as [|s1 s2 s3 Hst _ IH]; [done|]. intros Hr. destruct IH as [H1 H2]; [eapply sched_next; eauto|].
  split; [done|]. by rewrite H2, (internal_step_cancelled _ _ Hst).
Qed.
End Spec.

(** * What the scheduler guarantees

    One job per game, the directories of the games that are played stay, and the threads
    come to rest; the monitor schedules the recent games that are allowed.  Closing the
    scheduler can hang. *)


Section Theorems.
Context {E P : Type} `{Players E P}.
Variable maxConcurrency : nat.

(** C10: In every state that the scheduler, its workers and its callers can reach, in
    whatever order they take their steps, each game has at most one job, be it about to be
    queued, queued, played or reported, so that no game is played by two workers at once;
    every result is one of a game the coordinator knows; and the queues stay within their
    capacity. *)
Theorem one_job_per_game s : sched_reachable maxConcurrency s ->
  NoDup (job_addr <$> outstanding s) /\
  (forall j rq e, s_resultQueue s = j :: rq -> (processResult j (s_coordinator s)).1 <> Err e) /\
  (length (s_jobQueue s) <= 2 * maxConcurrency)%nat /\ (length (s_resultQueue s) <= 2 * maxConcurrency)%nat.
Proof.
  intros Hr. destruct (sched_reachable_ok _ _ Hr) as [Ht Hj Hrq _]. unfold capacity in *. split; [apply Ht|]. split; [|lia].
  intros j rq e E1. apply (tracks_result (s_cancelled s) _ (job_addr <$> loop_jobs (s_loop s) ++ s_jobQueue s ++ (s_workers s ≫= worker_jobs) ++ rq)).
  refine (proj1 (tracks_proper _ _ _ _ _) Ht). unfold outstanding. rewrite E1.
  repeat (rewrite fmap_app || rewrite fmap_cons). solve_Permutation.
Qed.

(** C11: The threads come to rest.  Without further calls every sequence of steps of the
    loop and of the workers is finite, and when no step is possible and the scheduler is
    not being closed, no update is waiting, every job was played and its result
    processed, and no game is in flight: the loop and the workers cannot block each other. *)
Theorem scheduler_comes_to_rest s : LawfulPlayers -> (0 < maxConcurrency)%nat -> sched_reachable maxConcurrency s -> s_cancelled s = false ->
  (forall n s', nsteps (internal_step maxConcurrency) n s s' -> (n <= work s)%nat) /\
  (forall s', rtc (internal_step maxConcurrency) s s' -> (forall s2, ~ internal_step maxConcurrency s' s2) -> at_rest maxConcurrency s').
Proof.
  intros Hlaw Hmc Hr Hx. split.
  - intros n s' Hn. apply nsteps_work in Hn. lia.
  - intros s' Hs Hno. destruct (rtc_internal _ _ _ Hs Hr) as [Hr' Hx']. by apply stuck_at_rest; [..|congruence|].
Qed.
End Theorems.

(** ** Directories *)
Section Files.
Context `{LawfulHexAddress}.

Lemma substring_all s : String.substring 0 (String.length s) s = s.
Proof. induction s as [|c s IH]; [done|]. simpl. by rewrite IH. Qed.

(** The directory of a game that is kept is not removed. *)
Lemma removes_kept keep a is_dir : 0 <= a < 2 ^ 160 -> a ∈ keep -> removes keep (dir_name a, is_dir) = false.
Proof.
  intros Ha Hk. unfold removes. destruct (_ || _); [done|].
  assert (String.substring 5 (String.length (dir_name a) - 5) (dir_name a) = Hex a) as ->.
  { unfold dir_name, gameDirPrefix. simpl. rewrite Nat.sub_0_r. apply substring_all. }
  rewrite HexToAddress_Hex by done. destruct (a =? 0); [done|]. by rewrite bool_decide_true.
Qed.

Lemma remove_entries_keeps keep entries d x :
  x ∈ dir_entries d -> (forall e, e ∈ entries -> e.1 = x.1 -> removes keep e = false) ->
  x ∈ dir_entries (remove_entries keep entries d).2.
Proof.
  revert d. induction entries as [|e entries IH]; intros d Hx Hr; [done|]. simpl.
  assert (forall e, e ∈ entries -> e.1 = x.1 -> removes keep e = false) as Hr' by (intros e' He'; apply Hr; by right).
  destruct (removes keep e) eqn:Ee; [|by apply IH].
  unfold attempt, os_RemoveAll, bind, get, throw, put, ret. case_bool_decide.
  - specialize (IH d Hx Hr'). destruct (remove_entries keep entries d) as [[]]; done.
  - match goal with |- context [remove_entries keep entries ?d'] => set (d1 := d') end.
    assert (x ∈ dir_entries d1) as Hx1.
    { subst d1. simpl. apply list_elem_of_filter. split; [|done]. intros E1. rewrite (Hr e) in Ee; [done|by left|done]. }
    specialize (IH d1 Hx1 Hr'). destruct (remove_entries keep entries d1) as [[]]; done.
Qed.

Lemma RemoveAllExcept_keeps keep d a : 0 <= a < 2 ^ 160 -> a ∈ keep -> (dir_name a, true) ∈ dir_entries d ->
  (dir_name a, true) ∈ dir_entries (disk_RemoveAllExcept keep d).2.
Proof.
  intros Ha Hk Hin. unfold disk_RemoveAllExcept, bind, get.
  pose proof (remove_entries_keeps keep (dir_entries d) d _ Hin) as Hr.
  specialize (Hr ltac:(intros [n b] _ E1; simpl in E1; subst n; by apply removes_kept)).
  destruct (remove_entries keep (dir_entries d) d) as [[[]|e|] d']; done.
Qed.

(** Players whose games have directories. *)
Context {X P : Type}.
Variable create : Address -> string -> M (directory * X) P.
Variable progress : P -> M (directory * X) bool.
Definition disk_players : Players (directory * X) P := {|
  DirForGame := dir_name;
  createPlayer := create;
  player_ProgressGame := progress;
  disk_Remove keep := zoom fst (fun d e => (d, e.2)) (disk_RemoveAllExcept keep) |}.
#[local] Existing Instance disk_players.

Lemma keepGames_inflight (states : gmap Address (game_state P)) a st : states !! a = Some st -> gst_inflight st = true -> a ∈ keepGames states.
Proof.
  intros Ha Hi. unfold keepGames. apply list_elem_of_fmap. exists (a, st). split; [done|]. apply list_elem_of_filter.
  split; [by right|]. by apply elem_of_map_to_list.
Qed.

(** When a result is processed, the files of games are cleaned up, but the directory
    of a game that has another job, be it about to be queued, queued, being played or
    reported, stays, in every state the scheduler can reach. *)
Theorem in_flight_files_kept n s r rq j :
  sched_reachable n s -> s_resultQueue s = r :: rq ->
  j ∈ loop_jobs (s_loop s) ++ s_jobQueue s ++ (s_workers s ≫= worker_jobs) ++ rq -> 0 <= job_addr j < 2 ^ 160 ->
  (dir_name (job_addr j), true) ∈ dir_entries (co_env (s_coordinator s)).1 ->
  (dir_name (job_addr j), true) ∈ dir_entries (co_env (after_result (s_coordinator s) r)).1.
Proof.
  intros Hr Erq Hj Ha Hin. destruct (sched_reachable_ok _ _ Hr) as [Ht _ _ _].
  assert (tracks (s_cancelled s) (s_coordinator s)
    (job_addr r :: (job_addr <$> loop_jobs (s_loop s) ++ s_jobQueue s ++ (s_workers s ≫= worker_jobs) ++ rq))) as Ht'.
  { refine (proj1 (tracks_proper _ _ _ _ _) Ht). unfold outstanding. rewrite Erq.
    repeat (rewrite fmap_app || rewrite fmap_cons). solve_Permutation. }
  destruct (tracks_result _ _ _ _ Ht') as [(_ & Hafter & _) _].
  destruct (Hafter (job_addr j)) as (st & Hst & Hi); [by apply list_elem_of_fmap_2|]. clear Hafter.
  destruct Ht' as (_ & H2 & _). destruct (H2 (job_addr r)) as (st0 & Hst0 & _); [by left|].
  unfold after_result, processResult, bind, get, modify in Hst |- *. rewrite Hst0 in Hst |- *.
  unfold deleteResolvedGameFiles, bind, get, attempt, on_env, zoom in Hst |- *. cbn [disk_Remove disk_players] in Hst |- *.
  unfold zoom in *. set (c1 := set_state _ _ _) in *.
  pose proof (RemoveAllExcept_keeps (keepGames (co_states c1)) (co_env c1).1 (job_addr j) Ha) as Hkeep.
  destruct (disk_RemoveAllExcept _ _) as [[[]|e|] d'] eqn:Ed; simpl in *; apply Hkeep; (done || by eapply keepGames_inflight).
Qed.
End Files.

(** ** The games of the factory *)
Section Games.
Context {E : Type} `{MinimalDisputeGameFactoryCaller E}.
Variable games : list FactoryGame.
Variable blockNumber : Z.

(** The factory of a block holds the games, in the order of their creation. *)
Class LawfulFactory := {
  GameCount_length e : GameCount blockNumber e = (Ok (Z.of_nat (length games)), e);
  GameAtIndex_lookup i g e : games !! i = Some g -> GameAtIndex blockNumber (Z.of_nat i) e = (Ok g, e);
  games_few : Z.of_nat (length games) < 2 ^ 63;
  games_in_order : StronglySorted (fun g g' => fg_Timestamp g <= fg_Timestamp g') games }.
Context `{LawfulFactory}.

Definition recent (earliest : Z) (g : FactoryGame) : Prop := earliest <= fg_Timestamp g.
#[local] Instance recent_dec earliest g : Decision (recent earliest g).
Proof. unfold recent. apply _. Defined.

Lemma i64_index n : Z.of_nat n < 2 ^ 63 -> i64 (Z.of_nat n) = Z.of_nat n.
Proof. intros Hn. unfold i64. rewrite Z.mod_small; unfold two64; lia. Qed.

Lemma older_filtered earliest i g : games !! i = Some g -> fg_Timestamp g < earliest -> filter (recent earliest) (take i games) = [].
Proof.
  intros Hg Hold. destruct (filter _ _) as [|g' l] eqn:Ef; [done|]. exfalso.
  assert (g' ∈ filter (recent earliest) (take i games)) as Hin by (rewrite Ef; by left).
  apply list_elem_of_filter in Hin as [Hrec Hin]. unfold recent in Hrec. pose proof games_in_order as Hs.
  rewrite <- (take_drop_middle _ _ _ Hg) in Hs. pose proof (StronglySorted_app_1_elem_of _ _ _ g' g Hs Hin) as Hle. simpl in Hle.
  specialize (Hle ltac:(by left)). lia.
Qed.

Lemma fetch_games_run earliest i acc e : (i <= length games)%nat ->
  fetch_games i earliest blockNumber acc e = (Ok (acc ++ reverse (filter (recent earliest) (take i games))), e).
Proof.
  revert acc. induction i as [|i IH]; intros acc Hi; [simpl; unfold ret; by rewrite app_nil_r|].
  destruct (lookup_lt_is_Some_2 games i) as [g Hg]; [lia|]. pose proof games_few.
  rewrite (take_S_r _ _ _ Hg), filter_app. cbn [fetch_games]. unfold wrapE, bind.
  rewrite i64_index, (GameAtIndex_lookup i g) by (done || lia). cbn [map_err].
  destruct (Z.ltb_spec (fg_Timestamp g) earliest) as [Hold|Hrec].
  - rewrite (older_filtered _ _ _ Hg Hold), filter_cons_False by (unfold recent; lia). unfold ret. by rewrite app_nil_r.
  - rewrite IH by lia. rewrite filter_cons_True by done. cbn [filter list_filter]. rewrite reverse_app. by rewrite <- app_assoc.
Qed.

(** Fetching the games of a block returns the games that are not older than a time,
    the newest first, and the monitor plays exactly those of them that are allowed. *)
Theorem recent_games_are_played m earliest e :
  exists l, FetchAllGamesAtBlock earliest (Some blockNumber) e = (Ok l, e) /\ l = reverse (filter (recent earliest) games) /\
    forall a, a ∈ games_to_play m l <->
      (exists g, g ∈ games /\ earliest <= fg_Timestamp g /\ fg_Proxy g = a) /\ (allowedGames m = [] \/ a ∈ allowedGames m).
Proof.
  exists (reverse (filter (recent earliest) games)). split; [|split; [done|]].
  - unfold FetchAllGamesAtBlock, wrapE, bind. rewrite GameCount_length. cbn [map_err]. pose proof games_few.
    rewrite u64_small by (unfold two64; lia). destruct (Z.eqb_spec (Z.of_nat (length games)) 0) as [E0|_].
    + destruct games; [done|simpl in E0; lia].
    + rewrite Nat2Z.id, fetch_games_run by done. by rewrite firstn_all.
  - intros a. unfold games_to_play. rewrite list_elem_of_filter, list_elem_of_fmap. setoid_rewrite elem_of_reverse. setoid_rewrite list_elem_of_filter.
    assert (allowedGame m a = true <-> allowedGames m = [] \/ a ∈ allowedGames m) as Hall.
    { unfold allowedGame. destruct (allowedGames m) as [|b l]; [by split; [left|]|]. cbn [length Nat.eqb]. rewrite existsb_exists. split.
      - intros (x & Hx & E1). right. apply list_elem_of_In. apply Z.eqb_eq in E1. by subst x.
      - intros [?|Hx]; [done|]. exists a. split; [by apply list_elem_of_In|apply Z.eqb_refl]. }
    rewrite Hall. unfold recent. split.
    + intros (Ha & g & -> & Hrec & Hg). split; [by exists g|done].
    + intros ((g & Hg & Hrec & <-) & Ha). split; [done|]. by exists g.
Qed.
End Games.
