(* ===== verification/SchedulerExamples.v ===== *)
(** * The scheduler on concrete inputs

    Games that are created and played at once; a directory with the files of two of them;
    and a scheduler whose closing never ends. *)
From Stdlib Require Import Ascii.
From stdpp Require Import relations.
From S2P Require Import Prelude GoErrors GoBytes EthTypes Scheduler SchedulerSpec.
#[local] Open Scope Z_scope.

(** ** A run *)
#[local] Instance toy_players : Players unit unit := {|
  DirForGame := fun _ => EmptyString;
  createPlayer := fun _ _ => ret tt;
  player_ProgressGame := fun _ => ret true;
  disk_Remove := fun _ => ret tt |}.

Lemma toy_players_lawful : LawfulPlayers (E := unit) (P := unit).
Proof. split; [done|]. intros p e. by exists true, e. Qed.

(** An update with three games was taken by the loop. *)
Definition three_games : scheduler unit unit := mkScheduler (mkCoordinator ∅ tt) (Some [1; 2; 3]) [] [] Waiting [Ready] false.
Lemma three_games_reachable : sched_reachable 1 three_games.
Proof. apply (sched_next 1 (NewScheduler 1 tt)); [constructor|]. right. by apply (caller_schedule [1; 2; 3]). Qed.

Lemma one_job_per_game_witness : NoDup (job_addr <$> outstanding three_games).
Proof. destruct (one_job_per_game 1 three_games three_games_reachable) as [Hn _]. exact Hn. Defined.

Lemma scheduler_comes_to_rest_witness : work three_games = 30%nat /\
  forall n s', nsteps (internal_step 1) n three_games s' -> (n <= 30)%nat.
Proof.
  split; [done|].
  exact (proj1 (scheduler_comes_to_rest 1 three_games toy_players_lawful ltac:(lia) three_games_reachable eq_refl)).
Defined.

(** ** Closing *)

(** Two results are in the queue, which is full, and the only worker has a third one. *)
Definition results : list (job unit) := [mkJob 1 tt true; mkJob 2 tt true].
Definition stuck (s : scheduler unit unit) : Prop :=
  s_loop s = Stopped /\ s_resultQueue s = results /\ s_workers s = [Sending (mkJob 3 tt true)].

Lemma stuck_step s s' : stuck s -> internal_step 1 s s' \/ caller_step s s' -> stuck s'.
Proof.
  intros (Hl & Hr & Hw) [[Hst|Hst]|Hst].
  - destruct Hst; simpl in *; discriminate Hl.
  - destruct Hst; simpl in *; destruct ws as [|w [|]]; simplify_eq/=.
    unfold capacity, results in *. simpl in *. lia.
  - destruct Hst as [games s s' Es|]; [|done]. unfold Schedule, bind, get, put, throw in Es. destruct (s_scheduleQueue s); [done|].
    by injection Es as <-.
Qed.

Tactic Notation "next" ident(R) "by" tactic3(t) := eapply sched_next in R; [|solve [t]]; vm_compute in R.

(** [Close] waits for the workers, and a worker that sends its result does not look at the
    context: when the loop returns with the queue of results full, the worker never does. *)
Theorem close_can_hang : exists s : scheduler unit unit, sched_reachable 1 s /\ s_cancelled s = true /\
  forall s', rtc (fun s s' => internal_step 1 s s' \/ caller_step s s') s s' -> s_workers s' = [Sending (mkJob 3 tt true)].
Proof.
  pose proof three_games_reachable as R. unfold three_games in R.
  next R by (left; left; apply loop_schedule).
  next R by (left; left; eapply loop_create; vm_compute; reflexivity).
  next R by (left; left; eapply loop_create; vm_compute; reflexivity).
  next R by (left; left; eapply loop_create; vm_compute; reflexivity).
  next R by (left; left; apply loop_created).
  next R by (left; left; apply loop_enqueue; unfold capacity; simpl; lia).
  next R by (left; right; apply (worker_take 1 _ _ _ _ _ _ [] [])).
  next R by (left; right; eapply (worker_play 1 _ _ _ _ _ [] _ []); vm_compute; reflexivity).
  next R by (left; right; apply (worker_send 1 _ _ _ _ _ [] _ []); unfold capacity; simpl; lia).
  next R by (left; left; apply loop_enqueue; unfold capacity; simpl; lia).
  next R by (left; right; apply (worker_take 1 _ _ _ _ _ _ [] [])).
  next R by (left; right; eapply (worker_play 1 _ _ _ _ _ [] _ []); vm_compute; reflexivity).
  next R by (left; right; apply (worker_send 1 _ _ _ _ _ [] _ []); unfold capacity; simpl; lia).
  next R by (left; left; apply loop_enqueue; unfold capacity; simpl; lia).
  next R by (left; right; apply (worker_take 1 _ _ _ _ _ _ [] [])).
  next R by (left; right; eapply (worker_play 1 _ _ _ _ _ [] _ []); vm_compute; reflexivity).
  next R by (left; left; apply loop_scheduled).
  next R by (right; apply caller_cancel).
  next R by (left; left; apply loop_return).
  eexists. split; [exact R|]. split; [done|]. intros s' Hs.
  match type of Hs with rtc _ ?s _ => assert (stuck s) as Hstuck by done end. clear R.
  enough (stuck s') as (_ & _ & Hw) by done. induction Hs; eauto using stuck_step.
Qed.

(** ** Files *)

(** Numbers in binary, the lowest digit first. *)
Fixpoint digits (p : positive) : string :=
  match p with
  | xH => EmptyString
  | xO p => String "0"%char (digits p)
  | xI p => String "1"%char (digits p)
  end.
Fixpoint from_digits (s : string) : positive :=
  match s with
  | EmptyString => xH
  | String c s => if Ascii.eqb c "0"%char then xO (from_digits s) else xI (from_digits s)
  end.
#[local] Instance toy_hex : HexAddress := {|
  Hex a := digits (Z.to_pos (a + 1));
  HexToAddress s := Z.pos (from_digits s) - 1 |}.
#[local] Instance toy_hex_lawful : LawfulHexAddress.
Proof.
  intros a Ha. simpl. assert (forall p, from_digits (digits p) = p) as E by (induction p; simpl; congruence).
  rewrite E. lia.
Qed.

(** A player makes the directory of its game. *)
Definition make_dir (a : Address) (dir : string) : M (directory * unit) unit :=
  modify (fun e => (mkDirectory ((dir, true) :: dir_entries e.1) (dir_locked e.1), tt)).
Definition files_players : Players (directory * unit) unit := disk_players make_dir (fun _ => ret true).
Definition no_files : directory * unit := (mkDirectory [("notes"%string, false)] [], tt).

(** The result of the first game waits; the second game is queued. *)
Definition half_way : @scheduler (directory * unit) unit :=
  mkScheduler (mkCoordinator {[ 1 := mkState (Some tt) true false; 2 := mkState (Some tt) true false ]}
    (mkDirectory [(dir_name 2, true); (dir_name 1, true); ("notes"%string, false)] [], tt))
    None [mkJob 2 tt false] [mkJob 1 tt true] (Enqueuing []) [Ready] false.

Lemma half_way_reachable : @sched_reachable _ _ files_players 1 half_way.
Proof.
  pose proof (@sched_start _ _ files_players 1 no_files) as R.
  next R by (right; by apply (caller_schedule [1; 2])).
  next R by (left; left; apply loop_schedule).
  next R by (left; left; eapply loop_create; vm_compute; reflexivity).
  next R by (left; left; eapply loop_create; vm_compute; reflexivity).
  next R by (left; left; apply loop_created).
  next R by (left; left; apply loop_enqueue; unfold capacity; simpl; lia).
  next R by (left; right; apply (worker_take 1 _ _ _ _ _ _ [] [])).
  next R by (left; right; eapply (worker_play 1 _ _ _ _ _ [] _ []); vm_compute; reflexivity).
  next R by (left; right; apply (worker_send 1 _ _ _ _ _ [] _ []); unfold capacity; simpl; lia).
  next R by (left; left; apply loop_enqueue; unfold capacity; simpl; lia).
  exact R.
Qed.

Definition cleaned : list (string * bool) :=
  dir_entries (co_env (@after_result _ _ files_players (s_coordinator half_way) (mkJob 1 tt true))).1.

Lemma in_flight_files_kept_witness : (dir_name 2, true) ∈ cleaned /\ length cleaned = 2%nat.
Proof.
  split; [|by vm_compute].
  apply (in_flight_files_kept make_dir (fun _ => ret true) 1 half_way (mkJob 1 tt true) [] (mkJob 2 tt false) half_way_reachable eq_refl);
    [by left|done|by left].
Defined.

(** ** The factory *)
Definition toy_games : list FactoryGame := [mkFactoryGame 0 10 7; mkFactoryGame 0 20 8; mkFactoryGame 0 30 9].
#[local] Instance toy_factory : MinimalDisputeGameFactoryCaller unit := {|
  GameCount := fun _ => ret 3;
  GameAtIndex := fun _ i => match toy_games !! Z.to_nat i with Some g => ret g | None => throw (ErrNew "reverted") end |}.
Lemma toy_factory_lawful : LawfulFactory toy_games 5.
Proof.
  split; [done| |by vm_compute|by repeat constructor].
  intros i g e Hg. unfold GameAtIndex, toy_factory. by rewrite Nat2Z.id, Hg.
Qed.

Lemma recent_games_are_played_witness : exists l, FetchAllGamesAtBlock 15 (Some 5) tt = (Ok l, tt) /\
  games_to_play (mkMonitor 0 [8; 7]) l = [8].
Proof.
  destruct (@recent_games_are_played _ _ _ _ toy_factory_lawful (mkMonitor 0 [8; 7]) 15 tt) as (l & Hl & -> & _).
  eexists. split; [exact Hl|]. by vm_compute.
Defined.
